(* ===== verification/_CoqProject ===== *)
-Q . S2P
Prelude.v
Json.v
Proto.v
Admin.v
Behavioral.v
AuthState.v
Merkle.v
Graph.v
Transitions.v
Pdp.v
CapService.v
Store.v
Adapter.v
Effects.v
Firewall.v
FileSystem.v
FsAdapter.v
FsPhases.v
FsFacts.v
FsSnapshot.v
CapBackend.v
Validation.v
RollbackSvc.v
Provenance.v
Lifecycle.v
Mfa.v
Capabilities.v
Proposals.v
Handlers.v
Background.v
Quarantine.v
Policies.v
Auth.v
Principals.v
MfaAdmin.v
LineageApi.v
FsRestore.v
FsRestoreRest.v
FsSpec.v
FsConfine.v
FsScenario.v
StoreFacts.v
Evolution.v
Discipline.v
Logic.v
HandlerSafety.v
BackgroundSafety.v
GovernanceSafety.v
Safety.v
StoreSafety.v
WellTyped.v
Reconcile.v
OutboxSafety.v
Chain.v
Sync.v
SyncSpec.v
AuditApi.v
Bundle.v
Digest.v
AuthorizeSpec.v
RunSpec.v
MfaSafety.v
ReviewSpec.v
Paging.v
PolicySpec.v
MfaAdminSpec.v
AuthSpec.v
PrincipalSpec.v
AuditSpec.v
ExportSpec.v
BundleSpec.v
TraversalSpec.v
BridgeSpec.v
VersionDiff.v
CapabilitySpec.v
Scenario.v
GovernanceScenario.v
Findings.v
AuthScenario.v
AuditScenario.v
