(* ===== verification/Prelude.v ===== *)
(** * FerrumGate: a verification development

    FerrumGate is a gateway between autonomous agents and the systems they act on.
    An intent is compiled, a proposal is evaluated by a policy decision point, held or
    approved by an operator where the decision asks for it, a short-lived single-use
    capability is minted, and an execution is then driven through authorize, prepare,
    execute, verify and commit (or compensate, cancel), with a rollback contract beside
    it, a provenance event for every step and an outbox record for every transition, so
    that a crash between a transition and its event can be repaired.  Operators keep the
    policy bundles and their versions, principals authenticate with tokens, signed requests
    or OIDC, agents carry second factors, and an audit log with a hash chain, hourly Merkle
    roots, signed checkpoints and archived bundles records what was done.  This library
    models the gateway from the source under src/ and proves what it promises.

    ** How the code is modelled

    A handler is a program ([Effects.prog]): a tree of operations ([Effects.op]), one
    per effect of the code, in the order of the code, early returns included.  An
    operation is a clock reading, a fresh identifier, one SQL statement or one SQL
    transaction, a call of the in-memory capability service or of the anomaly profiler,
    a call of an adapter, a read of the file system, or a metric.  A [World] holds the
    database, the memory of the process (capabilities, profiler windows, nonces, keys), the metrics
    and the log of adapter calls with their answers; an [Env] answers what the code does
    not decide: the wall clock and the monotonic clock, the identifiers, the file system,
    the adapters and planners, and a storage fault at any statement (applied or not).
    Adapters are code over external systems: the theorems hold for whatever they answer.
    [run] executes one program alone; [pool_step] interleaves any number of programs, one
    operation at a time, and spawns new ones.  Library functions the code calls (JSON and
    YAML, SHA-256, HMAC, AES-GCM, base64, regular expressions, JSON pointers, URL, UUID
    and RFC 3339 parsing) are the fields of [Validation.Ext].

    ** Files, in order

    - Prelude: notations, tactics, [result], strings, machine integers, stable sorting.
    - Json, Proto: serde_json values and crates/ferrum-proto (records, enums, digests,
      action bindings, lineage parents, policy bundles, factors, holds).
    - Admin: the tables of Merkle roots and checkpoints, policy bundles, their
      versions, second factors, lockouts, tokens and agents (audit_merkle_root.rs,
      audit_checkpoint.rs, policy_bundles.rs, mfa_credentials.rs, tokens.rs and agents.rs of
      crates/ferrum-store/src/sqlite).
    - AuthState: nonce_cache.rs and the cache of signing keys of state.rs.
    - Merkle: crates/ferrum-store/src/merkle.rs.  Graph: crates/ferrum-graph.
    - Behavioral: behavioral.rs, the rolling-window profiler, with its specification.
    - Transitions: crates/ferrum-store/src/transitions.rs; the class [TransitionGuard].
    - Pdp: crates/ferrum-pdp (static engine, bundle engine, rule evaluation, outcomes);
      the record [PdpEngine] is the trait, the shipped bundle is evaluated.
    - CapService: crates/ferrum-cap; the class [CapabilityService] is the trait.
    - Store: the tables and statements of crates/ferrum-store/src/sqlite.
    - Adapter, RollbackSvc: crates/ferrum-rollback.
    - Effects: operations, programs, worlds, runs and pools.
    - Firewall: crates/ferrum-firewall (taint score, quarantine, sanitizing).
    - FileSystem, FsAdapter, FsPhases, FsSnapshot, FsFacts: a file system with
      links, modes and faults, and crates/ferrum-adapter-fs over it (the four phases of the
      eight file actions, the sandbox, snapshots, checks, planner).  FsRestore,
      FsRestoreRest, FsSpec, FsConfine, FsScenario: its theorems and their witnesses.
    - CapBackend: the capability service a handler is configured with.
    - Validation, Provenance, Lifecycle: execution/validation.rs, resource_scope.rs,
      auth_actor.rs, problem.rs; provenance.rs; lifecycle_outbox.rs, inference.rs,
      durable_capability.rs, approval_binding.rs, audit.rs of crates/ferrum-gateway/src.
    - Mfa: mfa.rs, one-time codes, factors and lockout.
    - Capabilities: capabilities.rs, minting and revocation.
    - Proposals: intents.rs, policy_eval.rs, proposals.rs.
    - Handlers: the execution handlers, in phases for the longer ones.
    - Background: ha_reconciler.rs and the approval part of timeout_reconciler.rs.
    - Quarantine: quarantine.rs and approval.rs, and the quarantine part of
      timeout_reconciler.rs.
    - Policies: policy.rs, bundles, versions, differences and rollback.
    - Auth: auth.rs, the middleware in its five modes.  Principals: admin/tokens.rs,
      admin/agents.rs and admin/scope_attenuation.rs.  MfaAdmin: admin/mfa.rs.
    - LineageApi: lineage.rs, bridge.rs, and mcp_bridge.rs of crates/ferrum-sync; the
      class [RuntimeBridge] is the trait.  AuditApi: the endpoints of audit.rs.
    - Bundle: crates/ferrum-audit-bundle and worm_sink.rs.
    - Sync: decision.rs, preflight.rs, transport.rs and repo.rs of crates/ferrum-sync,
      sync_service.rs, and sync_preflight.rs, leader_tip_cache.rs, leader_allowlist.rs and
      ledger.rs of the SQLite store.
    - StoreFacts, Evolution: what each statement does; the order on databases
      in which rows keep their identity and move along their matrices, and factors keep
      their counters.
    - Discipline: the invariant of the lifecycle and the rules every operation must
      follow to keep it.  Logic: a weakest-precondition calculus for programs under
      interference, sound for pools ([pool_safe]).  HandlerSafety,
      BackgroundSafety, GovernanceSafety: all handlers and background tasks follow the
      discipline.
    - Safety, AuthorizeSpec, CapabilitySpec: the theorems about the lifecycle.  WellTyped:
      keys and references of the stored rows.
    - StoreSafety: what the statements enforce against any program.
    - Reconcile, OutboxSafety: crates/ferrum-store/src/reconciliation.rs and the claimed
      and operator methods of the outbox, and their theorems; admin/lifecycle_outbox.rs.
    - Chain: the hash chains of the audit log and of the ledger.  Digest: the action
      digest an approval binds.
    - RunSpec: events linked to their parents, rules for the successful runs of a handler.
      MfaSafety, ReviewSpec, Paging, PolicySpec, VersionDiff: the theorems about codes,
      evaluation and review, listings and timeouts, bundle histories and differences.
    - AuthSpec, PrincipalSpec, MfaAdminSpec: who is let in, what authority can be handed on,
      and how factors change.  AuditSpec, ExportSpec, BundleSpec: checkpoints, exports and
      archives.  TraversalSpec, BridgeSpec, SyncSpec: lineage
      queries, external events, synchronisation.
    - Scenario, GovernanceScenario, AuthScenario, AuditScenario: deployments with concrete
      calls, in which the hypotheses of the theorems are met.  Findings: runs that show the behaviours reported as findings (some
      are beside the theorems of their component).

    ** What the theorems show

    Safety, for every interleaving of all modelled handlers and background tasks and
    for every fault: an adapter executes only what the records authorize, at most once per
    execution; a committed execution was executed and verified, an irreversible one
    committed by hand; a capability backs one execution; a canceled execution is never
    dispatched; a compensated one was recovered; rows move along their matrices, but for a
    revocation that overwrites the status of a capability.
    AuthorizeSpec and CapabilitySpec say what a successful authorization or mint has
    checked, ReviewSpec what an evaluation decided and who resolved a hold or an approval.
    MfaSafety: codes round-trip, a second factor is used once, outside lockouts.  StoreSafety: transitions and
    authorizations are atomic, a superseded lease is fenced, a resolution is final.
    OutboxSafety: the events a reconciled record owes are stored (or an operator closed it),
    reconciliation ends and leaves the lifecycle alone.  Paging: pages by key are the pages by offset, stale holds
    expire; PolicySpec: histories are gapless, a rollback restores; VersionDiff: a
    difference misses nothing.  Pdp, Validation, CapService, RollbackSvc, Transitions,
    Chain, Digest, Firewall and Behavioral characterise their components exactly
    (refinements, equivalences, bounds).  WellTyped: in every interleaving the rows of the
    lifecycle are stored under their own identifiers and refer to stored rows.  FsSpec and
    FsConfine: without I/O faults and under the provisos each theorem lists, a rollback
    restores the files an action changed and an action stays inside the working directory.  AuthSpec and PrincipalSpec: a request is let in only with a valid
    credential of sufficient scope, revocation is permanent, issued authority is confined;
    AuthState: the nonce cache is exact below its capacity.  MfaAdminSpec: an agent has one
    factor in use and it is removed only with a code, while no lockout holds by the clock
    of the call, or by break-glass.  AuditSpec,
    ExportSpec, BundleSpec: an accepted checkpoint verifies while its window is unchanged, an export
    is complete, a verified bundle is tamper evident, the archive is the log.  TraversalSpec
    and Graph: queries return exactly the events within the hops; BridgeSpec: external
    events cannot forge a governed chain; SyncSpec: readiness, and the bounds of the cache
    of leader tips.

    ** Bounds

    [Reconcile.reconcile_loop] takes the number of records asked for as fuel: every round
    handles at least one fresh record, so the fuel is never short
    ([OutboxSafety.reconciliation_terminates] shows that the run ends with a report); the
    operator's retry asks for 1000 records, as the code does.  An export reads at most
    [AuditApi.EXPORT_ROUNDS] = 21 pages of 500: the 21st exceeds the 10000 rows at which the
    code stops.  A lineage query makes at most 10 hops, the clamp of the code.  The loops of
    the Merkle root and of the graph search have a fuel that is shown to be enough
    ([Merkle.compute_merkle_root_total], [Graph.bfs_exact]).  The
    time limit per record is a number of operations, chosen by the caller of the model;
    the theorems hold for all of them.  Schedules in Scenario give each call 100 steps, more
    than any call takes.  Timestamps are nanoseconds in [Z]; capability lifetimes, priorities
    (32 bit), taint scores (8 bit), one-time-code counters (64 bit) and attempt counters are
    bounded where the code bounds them.

    ** Not modelled

    HTTP plumbing and the router, configuration parsing, monitoring answers and the text of
    the metrics, rate limits (a configuration of an external crate), the timer loops around
    the background passes: they carry no state of the modelled parts.  The PostgreSQL store is
    a second implementation of the repositories modelled for SQLite.  The git, HTTP, SQLite,
    S3, GCS and mail-draft adapters act on processes and services outside; the theorems hold
    for whatever adapters answer.  The MCP client integration, the test kit and the
    binaries are clients or start-up code.  Of ferrum-sync the probe facade and the test
    doubles are left out.  Log lines have no effect on the state.  The write queue of the
    store serializes the statements modelled here. *)

From Stdlib Require Import Ascii String Sorted.
From stdpp Require Export base tactics list gmap strings numbers relations.

(** ** Automation of the development *)

Create HintDb ferrum.
Create Rewrite HintDb ferrum_simpl.

(** Scope of the Rust-flavoured notations below. *)
Declare Scope rust_scope.
Delimit Scope rust_scope with rust.

(** Split every [match] of the goal and close the branches that are immediate. *)
Ltac split_matches := repeat (case_match; simplify_eq/=; try done).

(** Evaluate a closed boolean or result computation. *)
Ltac by_eval := vm_compute; reflexivity.

(** Break conjunctions of booleans in the hypotheses. *)
Ltac destruct_andb :=
  repeat match goal with
  | H : (_ && _)%bool = true |- _ => apply andb_true_iff in H as [? ?]
  | H : negb _ = true |- _ => apply negb_true_iff in H
  | H : (_ || _)%bool = false |- _ => apply orb_false_iff in H as [? ?]
  end.

(** ** [Result] *)

Inductive result (T E : Type) : Type :=
| Ok (t : T)
| Err (e : E).
Arguments Ok {_ _} _.
Arguments Err {_ _} _.

Definition is_ok {T E} (r : result T E) : bool :=
  match r with Ok _ => true | Err _ => false end.

(** The [?] operator: bind the payload of [Ok], return an [Err] unchanged. *)
Notation "'let?' x := r 'in' k" :=
  (match r with Ok x => k | Err e => Err e end)
  (at level 10, x name, r at level 100, k at level 200) : rust_scope.
Open Scope rust_scope.

Definition ok_or {T E} (o : option T) (e : E) : result T E :=
  match o with Some x => Ok x | None => Err e end.

Definition map_err {T E F} (f : E → F) (r : result T E) : result T F :=
  match r with Ok x => Ok x | Err e => Err (f e) end.

Lemma is_ok_true {T E} (r : result T E) : is_ok r = true ↔ ∃ x, r = Ok x.
Proof. destruct r as [x|e]; simpl; split; [by exists x | done | done | by intros [? ?]]. Qed.

Lemma ok_or_ok {T E} (o : option T) (e : E) x : ok_or o e = Ok x ↔ o = Some x.
Proof. destruct o; simpl; split; intros; destruct_and?; simplify_eq; done. Qed.

Lemma ok_or_err {T E} (o : option T) (e e' : E) : ok_or o e = Err e' ↔ o = None ∧ e' = e.
Proof. destruct o; simpl; split; intros; destruct_and?; simplify_eq; done. Qed.

(** ** Strings *)

Lemma str_length_app (c d : string) : String.length (c +:+ d) = String.length c + String.length d.
Proof. induction c as [|a c IH]; simpl; [done | by rewrite IH]. Qed.
Lemma str_app_nil (c : string) : c +:+ "" = c.
Proof. induction c as [|a c IH]; [done |]. exact (f_equal (String a) IH). Qed.
Lemma str_app_assoc (a b c : string) : (a +:+ b) +:+ c = a +:+ (b +:+ c).
Proof. induction a as [|x a IH]; [done|]. exact (f_equal (String x) IH). Qed.

(** ** Sorted lists *)

Lemma StronglySorted_lookup {A} (R : A → A → Prop) l i j x y :
  StronglySorted R l → l !! i = Some x → l !! j = Some y → i < j → R x y.
Proof.
  intros Hs. revert i j; induction Hs as [|z l Hs IH Hz]; intros i j Hi Hj Hij; [done|].
  destruct j as [|j]; [lia|]. destruct i as [|i]; simpl in *; [|by apply (IH i j); [..|lia]].
  simplify_eq. rewrite Forall_forall in Hz. by apply Hz, list_elem_of_lookup_2 with j.
Qed.

(** ** Filters that keep everything or nothing *)

Section filters.
Context {A : Type} (P : A → Prop) `{!∀ x, base.Decision (P x)}.

Lemma filter_keeps_all (l : list A) : (∀ x, x ∈ l → P x) → filter P l = l.
Proof.
  induction l as [|x l IH]; intros Hl; [done|].
  rewrite filter_cons_True by (apply Hl; left). f_equal. apply IH. intros y Hy. apply Hl. by right.
Qed.

Lemma filter_keeps_none (l : list A) : (∀ x, x ∈ l → ¬ P x) → filter P l = [].
Proof.
  induction l as [|x l IH]; intros Hl; [done|].
  rewrite filter_cons_False by (apply Hl; left). apply IH. intros y Hy. apply Hl. by right.
Qed.
End filters.

(** ** Rust strings

    A Rust [String] is its UTF-8 byte sequence, a [string] of bytes here. *)

(** [str::starts_with] on a string pattern. *)
Fixpoint str_starts_with (pat s : string) : bool :=
  match pat, s with
  | EmptyString, _ => true
  | String a pat', String b s' => Ascii.eqb a b && str_starts_with pat' s'
  | _, _ => false
  end.

(** [str::contains] on a string pattern. *)
Fixpoint str_contains (pat s : string) : bool :=
  str_starts_with pat s ||
  match s with
  | EmptyString => false
  | String _ s' => str_contains pat s'
  end.

(** [str::ends_with] on a string pattern. *)
Fixpoint str_ends_with (pat s : string) : bool :=
  String.eqb pat s ||
  match s with
  | EmptyString => false
  | String _ s' => str_ends_with pat s'
  end.

(** [str::trim_start_matches] on a character. *)
Fixpoint str_trim_start_char (c : ascii) (s : string) : string :=
  match s with
  | EmptyString => EmptyString
  | String a s' => if Ascii.eqb a c then str_trim_start_char c s' else s
  end.

Definition str_is_empty (s : string) : bool :=
  match s with EmptyString => true | _ => false end.

Definition ascii_to_lower (c : ascii) : ascii :=
  let n := N_of_ascii c in
  if ((65 <=? n) && (n <=? 90))%N%bool then ascii_of_N (n + 32) else c.

(** [str::to_lowercase].  Two characters outside ASCII have a lowercase form
    that contains an ASCII letter: U+212A KELVIN SIGN (bytes E2 84 AA, lowercase
    [k]) and U+0130 (bytes C4 B0, lowercase [i] followed by U+0307).  Every other
    character outside ASCII lowercases to characters outside ASCII and is kept
    as it is: the program only compares lowercased strings with ASCII patterns,
    which cannot tell the difference. *)
Fixpoint str_to_lowercase (s : string) : string :=
  match s with
  | EmptyString => EmptyString
  | String a s1 =>
      match s1 with
      | EmptyString => String (ascii_to_lower a) EmptyString
      | String b s2 =>
          if Ascii.eqb a "196" && Ascii.eqb b "176" then
            String "i" (String "204" (String "135" (str_to_lowercase s2)))
          else
            match s2 with
            | String c s3 =>
                if Ascii.eqb a "226" && Ascii.eqb b "132" && Ascii.eqb c "170"
                then String "k" (str_to_lowercase s3)
                else String (ascii_to_lower a) (str_to_lowercase s1)
            | EmptyString => String (ascii_to_lower a) (str_to_lowercase s1)
            end
      end
  end.

Lemma str_starts_with_spec pat s :
  str_starts_with pat s = true ↔ ∃ t, s = pat +:+ t.
Proof.
  revert s. induction pat as [|a pat IH]; intros s; simpl.
  - split; [intros _; by exists s | done].
  - destruct s as [|b s]; simpl; [split; [done | by intros [? ?]] |].
    rewrite andb_true_iff, Ascii.eqb_eq, IH. split.
    + intros [-> [t ->]]. by exists t.
    + intros [t Ht]. injection Ht as -> ->. eauto.
Qed.

Lemma str_contains_spec pat s :
  str_contains pat s = true ↔ ∃ a b, s = a +:+ pat +:+ b.
Proof.
  induction s as [|c s IH]; cbn [str_contains]; rewrite orb_true_iff, str_starts_with_spec.
  - split.
    + intros [[t Ht] | ?]; [by exists "", t | done].
    + intros ([|? a] & b & Hs); [left; by exists b | done].
  - rewrite IH. split.
    + intros [[t Ht] | (a & b & ->)]; [by exists "", t | by exists (String c a), b].
    + intros ([|c' a] & b & Hs); [left; by exists b |].
      right. injection Hs as -> Hs. by exists a, b.
Qed.

Lemma str_ends_with_spec pat s :
  str_ends_with pat s = true ↔ ∃ t, s = t +:+ pat.
Proof.
  induction s as [|c s IH]; cbn [str_ends_with]; rewrite orb_true_iff, String.eqb_eq.
  - split.
    + intros [-> | ?]; [by exists "" | done].
    + intros ([|? t] & Ht); [by left | done].
  - rewrite IH. split.
    + intros [-> | [t ->]]; [by exists "" | by exists (String c t)].
    + intros ([|c' t] & Ht); [by left |]. injection Ht as -> Ht. right. by exists t.
Qed.

(** [char::is_whitespace] on the UTF-8 encoding: the length in bytes of the
    whitespace character [s] starts with, 0 when it starts with none. *)
Definition whitespace_len (s : string) : nat :=
  match s with
  | EmptyString => 0
  | String a s1 =>
      let n := N_of_ascii a in
      if ((9 <=? n) && (n <=? 13) || (n =? 32))%N%bool then 1
      else match s1 with
      | EmptyString => 0
      | String b s2 =>
          let m := N_of_ascii b in
          if ((n =? 194) && ((m =? 133) || (m =? 160)))%N%bool then 2
          else match s2 with
          | EmptyString => 0
          | String c _ =>
              let k := N_of_ascii c in
              if ((n =? 225) && (m =? 154) && (k =? 128)
                  || (n =? 226) && (m =? 128) && ((128 <=? k) && (k <=? 138) || (k =? 168) || (k =? 169) || (k =? 175))
                  || (n =? 226) && (m =? 129) && (k =? 159)
                  || (n =? 227) && (m =? 128) && (k =? 128))%N%bool then 3 else 0
          end
      end
  end.

(** [s.trim().is_empty()]: every character of [s] is whitespace. *)
Fixpoint trim_is_empty_aux (skip : nat) (s : string) : bool :=
  match s with
  | EmptyString => true
  | String _ s' =>
      match skip with
      | S k => trim_is_empty_aux k s'
      | O => match whitespace_len s with
             | O => false
             | S k => trim_is_empty_aux k s'
             end
      end
  end.
Definition str_trim_is_empty (s : string) : bool := trim_is_empty_aux 0 s.

(** ** Machine integers *)

Definition u8_max : Z := 255.
Definition u32_max : Z := 4294967295.
Definition i32_max : Z := 2147483647.
Definition i64_max : Z := 9223372036854775807.

(** Wrapping addition at eight bits (release semantics of [+=] on [u8]). *)
Definition u8_add (a b : Z) : Z := (a + b) mod 256.

(** [as u32]. *)
Definition u32_of (n : Z) : Z := (n mod 4294967296)%Z.

Lemma u32_of_small n : (0 ≤ n ≤ u32_max)%Z → u32_of n = n.
Proof. unfold u32_max. intros. apply Z.mod_small. lia. Qed.

(** [u32::saturating_add]. *)
Definition u32_saturating_add (a b : Z) : Z := Z.min (a + b) u32_max.

Lemma u8_add_small a b : (0 ≤ a + b < 256)%Z → u8_add a b = (a + b)%Z.
Proof. intros. by apply Z.mod_small. Qed.

(** Timestamps are nanoseconds since the epoch ([chrono::DateTime<Utc>]). *)
Definition seconds (n : Z) : Z := (n * 1000000000)%Z.

(** ** Stable sort by descending key

    [slice::sort_by_key(|x| Reverse(key(x)))] is a stable sort. *)
Section stable_sort.
Context {A : Type} (key : A → Z).

Fixpoint insert_desc (x : A) (l : list A) : list A :=
  match l with
  | [] => [x]
  | y :: l' => if (key y <=? key x)%Z then x :: y :: l' else y :: insert_desc x l'
  end.

Definition sort_desc (l : list A) : list A := foldr insert_desc [] l.

Definition desc_sorted (l : list A) : Prop := StronglySorted (λ x y, (key y ≤ key x)%Z) l.

Lemma insert_desc_perm x l : insert_desc x l ≡ₚ x :: l.
Proof.
  induction l as [|y l IH]; simpl; [done |]. case_match; [done |].
  rewrite IH. constructor.
Qed.

Lemma sort_desc_perm l : sort_desc l ≡ₚ l.
Proof. induction l as [|x l IH]; simpl; [done |]. by rewrite insert_desc_perm, IH. Qed.

Lemma insert_desc_sorted x l : desc_sorted l → desc_sorted (insert_desc x l).
Proof.
  induction 1 as [|y l Hs IH Hall]; simpl; [repeat constructor |].
  case_match eqn:Hle.
  - apply Z.leb_le in Hle. constructor; [by constructor |]. constructor; [done |].
    eapply Forall_impl; [exact Hall | simpl; lia].
  - apply Z.leb_gt in Hle. constructor; [done |].
    rewrite insert_desc_perm. constructor; [lia | done].
Qed.

Lemma sort_desc_sorted l : desc_sorted (sort_desc l).
Proof. induction l; simpl; [constructor | by apply insert_desc_sorted]. Qed.

(** Stability: elements of one key keep their order. *)
Lemma insert_desc_filter x l k :
  filter (λ y, key y = k) (insert_desc x l) = filter (λ y, key y = k) (x :: l).
Proof.
  induction l as [|y l IH]; simpl; [done |]. case_match eqn:Hle; [done |].
  apply Z.leb_gt in Hle. rewrite filter_cons, IH, !filter_cons.
  repeat case_decide; try done. lia.
Qed.

Lemma sort_desc_stable l k :
  filter (λ y, key y = k) (sort_desc l) = filter (λ y, key y = k) l.
Proof.
  induction l as [|x l IH]; simpl; [done |].
  rewrite insert_desc_filter, !filter_cons, IH. done.
Qed.
End stable_sort.

#[export] Hint Resolve sort_desc_perm sort_desc_sorted insert_desc_sorted : ferrum.
