(* ===== verification/Json.v ===== *)
(** * JSON values and the two map types the program keeps them in

    [json] is [serde_json::Value]; its objects are [serde_json::Map], which with
    the workspace's features is a [BTreeMap] (keys in byte order).  [JsonMap] is
    [indexmap::IndexMap<String, Value>] (keys in insertion order), the type of
    every [metadata] field.  The file also holds [normalize_json_value] of
    crates/ferrum-proto/src/execution.rs, which the approval digest is computed
    over, with the proof that it is canonical. *)

From Stdlib Require Import Ascii String Sorted SpecFloat.
From stdpp Require Import sorting.
From S2P Require Import Prelude.

(** [serde_json::Value].  Integers are the [u64]/[i64] variants of [Number];
    floats carry their IEEE value. *)
#[warnings="-register-all"]
Inductive json : Type :=
| JNull
| JBool (b : bool)
| JInt (n : Z)
| JFloat (f : spec_float)
| JStr (s : string)
| JArr (l : list json)
| JObj (m : list (string * json)).

Section json_induction.
Context (P : json → Prop).
Hypothesis P_null : P JNull.
Hypothesis P_bool : ∀ b, P (JBool b).
Hypothesis P_int : ∀ n, P (JInt n).
Hypothesis P_float : ∀ f, P (JFloat f).
Hypothesis P_str : ∀ s, P (JStr s).
Hypothesis P_arr : ∀ l, Forall P l → P (JArr l).
Hypothesis P_obj : ∀ m, Forall (λ kv, P kv.2) m → P (JObj m).

Fixpoint json_nested_ind (v : json) : P v :=
  match v with
  | JNull => P_null
  | JBool b => P_bool b
  | JInt n => P_int n
  | JFloat f => P_float f
  | JStr s => P_str s
  | JArr l =>
      P_arr l ((fix go l : Forall P l :=
        match l with
        | [] => Forall_nil_2 P
        | x :: l' => Forall_cons_2 P x l' (json_nested_ind x) (go l')
        end) l)
  | JObj m =>
      P_obj m ((fix go m : Forall (λ kv, P kv.2) m :=
        match m with
        | [] => Forall_nil_2 _
        | kv :: m' => Forall_cons_2 (λ kv, P kv.2) kv m' (json_nested_ind kv.2) (go m')
        end) m)
  end.
End json_induction.

(** ** Maps with string keys *)
Section string_maps.
Context {A : Type}.
Implicit Types (m : list (string * A)) (k : string) (v : A).

(** First binding of a key. *)
Fixpoint smap_get (k : string) (m : list (string * A)) : option A :=
  match m with
  | [] => None
  | (k', v) :: m' => if String.eqb k k' then Some v else smap_get k m'
  end.

Definition smap_contains_key (k : string) (m : list (string * A)) : bool :=
  match smap_get k m with Some _ => true | None => false end.

(** [BTreeMap::insert]: keys stay in order, an existing key is overwritten. *)
Fixpoint btree_insert (k : string) (v : A) (m : list (string * A)) : list (string * A) :=
  match m with
  | [] => [(k, v)]
  | (k', v') :: m' =>
      if String.eqb k k' then (k, v) :: m'
      else if String.leb k k' then (k, v) :: m
      else (k', v') :: btree_insert k v m'
  end.

(** [IndexMap::insert]: an existing key keeps its place, a new one goes last. *)
Fixpoint index_insert (k : string) (v : A) (m : list (string * A)) : list (string * A) :=
  match m with
  | [] => [(k, v)]
  | (k', v') :: m' =>
      if String.eqb k k' then (k', v) :: m' else (k', v') :: index_insert k v m'
  end.

Definition key_lt (a b : string * A) : Prop := String.le a.1 b.1 ∧ a.1 ≠ b.1.
Definition btree_wf (m : list (string * A)) : Prop := StronglySorted key_lt m.

Lemma key_lt_trans : Transitive key_lt.
Proof.
  intros a b c [Hab Nab] [Hbc Nbc]. split; [by etrans |].
  intros Hac. rewrite Hac in Hab. apply Nbc. by apply (anti_symm String.le).
Qed.

Lemma smap_get_In k v m : smap_get k m = Some v → (k, v) ∈ m.
Proof.
  induction m as [|[k' v'] m IH]; simpl; [done |].
  case_match eqn:E; intros; [apply String.eqb_eq in E; simplify_eq; left |].
  right. eauto.
Qed.

Lemma smap_get_keys k m : k ∈ m.*1 ↔ is_Some (smap_get k m).
Proof.
  induction m as [|[k' v'] m IH]; simpl.
  - split; [by intros ?%not_elem_of_nil | by intros [? ?]].
  - rewrite elem_of_cons. destruct (String.eqb_spec k k') as [-> | Hne].
    + split; [by eexists | by left].
    + rewrite <- IH. naive_solver.
Qed.

Lemma btree_insert_get_eq k v m : smap_get k (btree_insert k v m) = Some v.
Proof.
  induction m as [|[k' v'] m IH]; simpl; [by rewrite String.eqb_refl |].
  destruct (String.eqb_spec k k') as [-> | Hne]; simpl; [by rewrite String.eqb_refl |].
  case_match; simpl; [by rewrite String.eqb_refl |].
  apply String.eqb_neq in Hne. by rewrite Hne.
Qed.

Lemma btree_insert_get_ne k k' v m :
  k ≠ k' → smap_get k' (btree_insert k v m) = smap_get k' m.
Proof.
  intros Hne. assert (String.eqb k' k = false) as Hf by (apply String.eqb_neq; congruence).
  induction m as [|[k1 v1] m IH]; simpl; [by rewrite Hf |].
  destruct (String.eqb_spec k k1) as [-> | Hne1]; simpl; [by rewrite Hf |].
  case_match; simpl; [by rewrite Hf |]. case_match; [done | apply IH].
Qed.

Lemma btree_insert_get k k' v m :
  smap_get k' (btree_insert k v m) = if decide (k = k') then Some v else smap_get k' m.
Proof.
  case_decide; subst; [apply btree_insert_get_eq | by apply btree_insert_get_ne].
Qed.

Lemma index_insert_get k k' v m :
  smap_get k' (index_insert k v m) = if decide (k = k') then Some v else smap_get k' m.
Proof.
  induction m as [|[k1 v1] m IH]; simpl.
  - case_decide as H; subst; [by rewrite String.eqb_refl |].
    destruct (String.eqb_spec k' k); by subst.
  - destruct (String.eqb_spec k k1) as [-> | Hne]; simpl.
    + destruct (String.eqb_spec k' k1); case_decide; by subst.
    + destruct (String.eqb_spec k' k1) as [-> | Hne']; [| apply IH].
      case_decide; by subst.
Qed.

Lemma btree_insert_elem x k v m : x ∈ btree_insert k v m → x = (k, v) ∨ x ∈ m.
Proof.
  induction m as [|[k' v'] m IH]; simpl; [rewrite list_elem_of_singleton; by left |].
  repeat case_match; rewrite !elem_of_cons; naive_solver.
Qed.

Lemma btree_insert_wf k v m : btree_wf m → btree_wf (btree_insert k v m).
Proof.
  induction 1 as [|[k' v'] m Hs IH Hall]; simpl; [repeat constructor |].
  destruct (String.eqb_spec k k') as [-> | Hne]; [by constructor |].
  case_match eqn:Hle.
  - assert (key_lt (k, v) (k', v')) as Hlt by (split; [simpl; unfold String.le; by rewrite Hle | done]).
    constructor; [by constructor |]. constructor; [done |].
    eapply Forall_impl; [exact Hall |]. intros ? ?. by eapply key_lt_trans.
  - constructor; [done |]. apply Forall_forall. intros x Hx.
    apply btree_insert_elem in Hx as [-> | Hx].
    + split; simpl; [| congruence].
      destruct (String.le_total k k') as [Hl | Hl]; [| done].
      unfold String.le in Hl. by rewrite Hle in Hl.
    + rewrite Forall_forall in Hall. by apply Hall.
Qed.

Lemma btree_head_get k v m k' :
  btree_wf ((k, v) :: m) → String.le k' k → k' ≠ k → smap_get k' m = None.
Proof.
  intros Hwf Hle Hne. destruct (smap_get k' m) as [v'|] eqn:Hg; [| done].
  apply smap_get_In in Hg. inversion_clear Hwf as [| ? ? _ Hall].
  rewrite Forall_forall in Hall. apply Hall in Hg as [H1 H2].
  simpl in *. destruct Hne. by apply (anti_symm String.le).
Qed.

(** A well-formed ordered map is determined by its lookups. *)
Lemma btree_ext m1 m2 :
  btree_wf m1 → btree_wf m2 → (∀ k, smap_get k m1 = smap_get k m2) → m1 = m2.
Proof.
  intros Hwf1. revert m2. induction Hwf1 as [|[k1 v1] m1 Hs1 IH Hall1]; intros m2 Hwf2 Hext.
  - destruct m2 as [|[k2 v2] m2]; [done |].
    specialize (Hext k2). simpl in Hext. by rewrite String.eqb_refl in Hext.
  - assert (Hwf1 : btree_wf ((k1, v1) :: m1)) by (by constructor).
    destruct m2 as [|[k2 v2] m2].
    { specialize (Hext k1). simpl in Hext. by rewrite String.eqb_refl in Hext. }
    assert (k1 = k2) as <-.
    { destruct (decide (k1 = k2)) as [| Hne]; [done | exfalso].
      assert (Hf12 : String.eqb k1 k2 = false) by by apply String.eqb_neq.
      assert (Hf21 : String.eqb k2 k1 = false) by (apply String.eqb_neq; congruence).
      destruct (String.le_total k1 k2) as [Hle | Hle].
      - pose proof (Hext k1) as H1. simpl in H1. rewrite String.eqb_refl, Hf12 in H1.
        rewrite (btree_head_get k2 v2 m2 k1) in H1; done.
      - pose proof (Hext k2) as H1. simpl in H1. rewrite String.eqb_refl, Hf21 in H1.
        rewrite (btree_head_get k1 v1 m1 k2) in H1; [done | done | done | congruence]. }
    pose proof (Hext k1) as Hv. simpl in Hv. rewrite String.eqb_refl in Hv. simplify_eq.
    f_equal. inversion_clear Hwf2 as [| ? ? Hs2 Hall2]. apply IH; [done |]. intros k.
    destruct (decide (k = k1)) as [-> | Hne].
    2: { pose proof (Hext k) as Hk. simpl in Hk. apply String.eqb_neq in Hne.
         by rewrite !Hne in Hk. }
    assert (Hwf2 : btree_wf ((k1, v2) :: m2)) by (by constructor).
    trans (@None A); [| symmetry].
    + destruct (smap_get k1 m1) eqn:Hg; [| done]. apply smap_get_In in Hg.
      rewrite Forall_forall in Hall1. by apply Hall1 in Hg as [_ []].
    + destruct (smap_get k1 m2) eqn:Hg; [| done]. apply smap_get_In in Hg.
      rewrite Forall_forall in Hall2. by apply Hall2 in Hg as [_ []].
Qed.
End string_maps.

#[export] Hint Resolve btree_insert_wf : ferrum.
#[export] Hint Rewrite @index_insert_get @btree_insert_get : ferrum_simpl.

(** [ferrum_proto::JsonMap]. *)
Abbreviation JsonMap := (list (string * json)).

(** ** Accessors of [serde_json::Value] *)

Definition as_str (v : json) : option string :=
  match v with JStr s => Some s | _ => None end.

Definition as_bool (v : json) : option bool :=
  match v with JBool b => Some b | _ => None end.

(** [Value::as_i64]: the integers that fit an [i64]. *)
Definition as_i64 (v : json) : option Z :=
  match v with
  | JInt n => if ((- i64_max - 1 <=? n) && (n <=? i64_max))%Z%bool then Some n else None
  | _ => None
  end.

(** [Value::as_u64]: the non-negative integers. *)
Definition as_u64 (v : json) : option Z :=
  match v with JInt n => if (0 <=? n)%Z then Some n else None | _ => None end.

Definition as_object (v : json) : option (list (string * json)) :=
  match v with JObj m => Some m | _ => None end.

Definition is_null (v : json) : bool := match v with JNull => true | _ => false end.

(** [PartialEq] of [Value]: structural, with IEEE equality on floats. *)
Fixpoint json_eqb (a b : json) {struct a} : bool :=
  match a, b with
  | JNull, JNull => true
  | JBool x, JBool y => Bool.eqb x y
  | JInt x, JInt y => Z.eqb x y
  | JFloat x, JFloat y => SFeqb x y
  | JStr x, JStr y => String.eqb x y
  | JArr l1, JArr l2 =>
      (fix go l1 l2 := match l1, l2 with
        | [], [] => true
        | x :: l1', y :: l2' => json_eqb x y && go l1' l2'
        | _, _ => false
        end) l1 l2
  | JObj m1, JObj m2 =>
      (fix go m1 m2 := match m1, m2 with
        | [], [] => true
        | (k1, x) :: m1', (k2, y) :: m2' => String.eqb k1 k2 && json_eqb x y && go m1' m2'
        | _, _ => false
        end) m1 m2
  | _, _ => false
  end.

(** ** [normalize_json_value] *)

Definition sorted_keys (m : list (string * json)) : list string :=
  merge_sort String.le (m.*1).

(** [for key in keys { normalized_map.insert(key.clone(), map[key]) }]. *)
Definition insert_keys (m : list (string * json)) (keys : list string) : list (string * json) :=
  foldl (λ acc key, match smap_get key m with
                    | Some x => btree_insert key x acc
                    | None => acc
                    end) [] keys.

Fixpoint normalize_json_value (value : json) : json :=
  match value with
  | JObj map =>
      let normalized := List.map (λ kv, (kv.1, normalize_json_value kv.2)) map in
      JObj (insert_keys normalized (sorted_keys normalized))
  | JArr arr => JArr (List.map normalize_json_value arr)
  | other => other
  end.

(** Equality of JSON values up to the order (and repetition) of object keys, at
    every depth: two objects agree when they give the same answer for each key. *)
#[warnings="-register-all"]
Inductive json_equiv : json → json → Prop :=
| JE_refl v : json_equiv v v
| JE_arr l1 l2 : Forall2 json_equiv l1 l2 → json_equiv (JArr l1) (JArr l2)
| JE_obj m1 m2 :
    (∀ k, option_Forall2 json_equiv (smap_get k m1) (smap_get k m2)) →
    json_equiv (JObj m1) (JObj m2).

(** An object in canonical form: keys strictly increasing at every depth. *)
#[warnings="-register-all"]
Inductive json_canonical : json → Prop :=
| JC_null : json_canonical JNull
| JC_bool b : json_canonical (JBool b)
| JC_int n : json_canonical (JInt n)
| JC_float f : json_canonical (JFloat f)
| JC_str s : json_canonical (JStr s)
| JC_arr l : Forall json_canonical l → json_canonical (JArr l)
| JC_obj m : btree_wf m → Forall (λ kv, json_canonical kv.2) m → json_canonical (JObj m).

Lemma smap_get_map (f : json → json) k m :
  smap_get k (List.map (λ kv, (kv.1, f kv.2)) m) = f <$> smap_get k m.
Proof. induction m as [|[k' v] m IH]; simpl; [done |]. by case_match. Qed.

Lemma insert_keys_snoc m ks key :
  insert_keys m (ks ++ [key]) =
    match smap_get key m with
    | Some x => btree_insert key x (insert_keys m ks)
    | None => insert_keys m ks
    end.
Proof. unfold insert_keys. by rewrite foldl_app. Qed.

Lemma insert_keys_get m ks k :
  smap_get k (insert_keys m ks) = if decide (k ∈ ks) then smap_get k m else None.
Proof.
  induction ks as [|key ks IH] using rev_ind; [by rewrite decide_False by apply not_elem_of_nil |].
  rewrite insert_keys_snoc. destruct (smap_get key m) as [x|] eqn:Hx.
  - rewrite btree_insert_get, IH. repeat case_decide; subst; try done;
      rewrite elem_of_app, list_elem_of_singleton in *; naive_solver.
  - rewrite IH. repeat case_decide; try done; rewrite elem_of_app, list_elem_of_singleton in *;
      naive_solver.
Qed.

Lemma insert_keys_wf m ks : btree_wf (insert_keys m ks).
Proof.
  induction ks as [|key ks IH] using rev_ind; [constructor |].
  rewrite insert_keys_snoc. case_match; auto with ferrum.
Qed.

Lemma elem_of_sorted_keys k m : k ∈ sorted_keys m ↔ is_Some (smap_get k m).
Proof. unfold sorted_keys. by rewrite merge_sort_Permutation, smap_get_keys. Qed.

Lemma insert_sorted_keys_get m k : smap_get k (insert_keys m (sorted_keys m)) = smap_get k m.
Proof.
  rewrite insert_keys_get. case_decide as H; [done |].
  rewrite elem_of_sorted_keys, <- eq_None_not_Some in H. by rewrite H.
Qed.

(** The fields of a normalized object. *)
Lemma normalize_obj_get m k :
  (λ o, o ≫= smap_get k) (as_object (normalize_json_value (JObj m))) =
  normalize_json_value <$> smap_get k m.
Proof. cbn. by rewrite insert_sorted_keys_get, smap_get_map. Qed.

Lemma normalize_canonical v : json_canonical (normalize_json_value v).
Proof.
  induction v as [| | | | | l IH | m IH] using json_nested_ind; cbn; try constructor.
  - by apply Forall_map.
  - apply insert_keys_wf.
  - apply Forall_forall. intros [k x] Hin.
    assert (Hg : ∃ y, y ∈ m.*2 ∧ x = normalize_json_value y).
    { set (m' := List.map _ m) in Hin.
      assert (Hx : (k, x) ∈ m').
      { revert Hin. unfold insert_keys. generalize (sorted_keys m').
        intros ks. induction ks as [|key ks IHks] using rev_ind; [by intros ?%not_elem_of_nil |].
        rewrite foldl_app. simpl. case_match eqn:Hk; [| apply IHks].
        intros [Heq | ?]%btree_insert_elem; [| by apply IHks].
        simplify_eq. by apply smap_get_In. }
      apply list_elem_of_In, in_map_iff in Hx as ([k' y] & ? & Hy). simplify_eq/=.
      exists y. split; [| done]. apply list_elem_of_In in Hy.
      apply list_elem_of_fmap. by exists (k, y). }
    destruct Hg as (y & Hy & ->). simpl.
    apply list_elem_of_fmap in Hy as ([k' y'] & -> & Hy).
    rewrite Forall_forall in IH. by apply (IH _ Hy).
Qed.

Lemma normalize_equiv v : json_equiv (normalize_json_value v) v.
Proof.
  induction v as [| | | | | l IH | m IH] using json_nested_ind; cbn; try constructor.
  - induction IH; simpl; by constructor.
  - intros k. rewrite insert_sorted_keys_get, smap_get_map.
    destruct (smap_get k m) as [x|] eqn:Hk; simpl; constructor.
    rewrite Forall_forall in IH. apply (IH (k, x)). by apply smap_get_In.
Qed.

(** Equivalent values have the same normal form. *)
Lemma normalize_equiv_eq v1 v2 :
  json_equiv v1 v2 → normalize_json_value v1 = normalize_json_value v2.
Proof.
  revert v2. induction v1 as [| | | | | l IH | m IH] using json_nested_ind;
    intros v2 Heq; inversion Heq as [| ? l2 Hl | ? m2 Hm]; subst; try done; cbn; f_equal.
  - clear Heq. induction Hl as [|x y l l' Hxy Hl' IHl]; [done |].
    inversion_clear IH as [| ? ? Hx Hl]. simpl. f_equal; auto.
  - apply btree_ext; [apply insert_keys_wf.. |]. intros k.
    rewrite !insert_sorted_keys_get, !smap_get_map.
    specialize (Hm k). destruct (smap_get k m) as [x|] eqn:Hk;
      destruct (smap_get k m2) as [y|]; inversion_clear Hm; [| done].
    simpl. f_equal. rewrite Forall_forall in IH.
    apply (IH (k, x)); [by apply smap_get_In | done].
Qed.

#[export] Instance normalize_proper :
  Proper (json_equiv ==> eq) normalize_json_value.
Proof. intros v1 v2. apply normalize_equiv_eq. Qed.
