(* ===== verification/Proto.v ===== *)
(** * The data model (crates/ferrum-proto)

    Every enumeration and structure the modelled components exchange, with the
    fields of the source.  Identifiers (newtypes over [uuid::Uuid]) are their
    canonical text, which is how the program prints, stores and compares them;
    timestamps are nanoseconds since the epoch; integers are [Z]. Constructors and
    fields carry a short prefix, since the source reuses their names. *)

From Stdlib Require Import String.
From S2P Require Import Prelude Json.

Abbreviation IntentId := string.
Abbreviation ProposalId := string.
Abbreviation CapabilityId := string.
Abbreviation ExecutionId := string.
Abbreviation RollbackContractId := string.
Abbreviation ApprovalId := string.
Abbreviation EventId := string.
Abbreviation LifecycleOutboxId := string.
Abbreviation PolicyBundleId := string.
Abbreviation PrincipalId := string.
Abbreviation Timestamp := Z.

(** ** common.rs *)

Inductive RiskTier := RT_Low | RT_Medium | RT_High | RT_Critical.

Inductive ApprovalMode := AM_None | AM_Required | AM_DraftOnly | AM_TwoPhaseCommit.

Inductive Decision := D_Allow | D_Deny | D_Quarantine | D_RequireApproval | D_AllowDraftOnly.

Inductive TrustLabel :=
| TL_Trusted | TL_UserProvided | TL_InternalPolicy | TL_InternalSystem | TL_ExternalWeb
| TL_ExternalEmail | TL_ExternalRepoText | TL_ExternalToolMetadata | TL_ExternalToolOutput
| TL_OCRExtracted | TL_Untrusted.

Inductive SensitivityLabel :=
| SL_Public | SL_Internal | SL_Confidential | SL_Secret | SL_Credential | SL_Pii.

Inductive ResourceMode :=
| RM_Read | RM_Write | RM_ReadWrite | RM_Draft | RM_Execute | RM_Admin.

Inductive HttpMethod := HM_Get | HM_Post | HM_Put | HM_Patch | HM_Delete.

Inductive RollbackClass :=
| R0NativeReversible | R1SnapshotRecoverable | R2Compensatable | R3IrreversibleHighConsequence.

Record TimeBudget := {
  tb_max_duration_ms : Z;
  tb_max_steps : Z;
  tb_max_retries_per_step : Z;
}.

Record TrustContextSummary := {
  tc_input_labels : list TrustLabel;
  tc_sensitivity_labels : list SensitivityLabel;
  tc_taint_score : Z;
  tc_contains_external_metadata : bool;
  tc_contains_tool_output : bool;
  tc_contains_untrusted_text : bool;
}.

Inductive ActorType :=
| AT_User | AT_Agent | AT_PolicyEngine | AT_Gateway | AT_Adapter | AT_Operator | AT_System.

Record ActorRef := {
  ar_actor_type : ActorType;
  ar_actor_id : string;
  ar_display_name : option string;
}.

Inductive ObjectType :=
| OT_Intent | OT_Proposal | OT_Capability | OT_ToolManifest | OT_ToolCall | OT_ToolOutput
| OT_SideEffect | OT_RollbackContract | OT_Approval | OT_QuarantineHold | OT_PolicyBundle
| OT_Message | OT_File | OT_GitRef | OT_SqlQuery | OT_HttpRequest | OT_EmailDraft
| OT_ProvenanceEvent | OT_Unknown.

Record ObjectRef := {
  or_object_type : ObjectType;
  or_object_id : string;
  or_summary : option string;
}.

Record HashChainRef := {
  hc_content_hash : option string;
  hc_manifest_hash : option string;
  hc_policy_bundle_hash : option string;
  hc_previous_ledger_hash : option string;
}.

#[export] Instance RiskTier_eq_dec : EqDecision RiskTier. Proof. solve_decision. Defined.
#[export] Instance ApprovalMode_eq_dec : EqDecision ApprovalMode. Proof. solve_decision. Defined.
#[export] Instance Decision_eq_dec : EqDecision Decision. Proof. solve_decision. Defined.
#[export] Instance ResourceMode_eq_dec : EqDecision ResourceMode. Proof. solve_decision. Defined.
#[export] Instance HttpMethod_eq_dec : EqDecision HttpMethod. Proof. solve_decision. Defined.
#[export] Instance RollbackClass_eq_dec : EqDecision RollbackClass. Proof. solve_decision. Defined.
#[export] Instance ActorType_eq_dec : EqDecision ActorType. Proof. solve_decision. Defined.

(** ** intent.rs *)

Inductive IntentStatus := IS_Active | IS_Expired | IS_Closed | IS_Quarantined | IS_Revoked.

Inductive EffectType :=
| ET_ReadOnlyAnalysis | ET_DraftCreation | ET_FileMutation | ET_GitMutation
| ET_DatabaseMutation | ET_ExternalApiCall | ET_ExternalCommunication | ET_Scheduling
| ET_AdministrativeChange.

#[export] Instance EffectType_eq_dec : EqDecision EffectType. Proof. solve_decision. Defined.

Record OutcomeClause := {
  oc_id : string;
  oc_description : string;
  oc_effect_type : EffectType;
  oc_required : bool;
}.

Record OutcomeReport := {
  orp_execution_id : ExecutionId;
  orp_actual_effect : EffectType;
  orp_description : string;
  orp_result_digest : option string;
  orp_adapter_success : bool;
  orp_adapter_metadata : JsonMap;
}.

Inductive ResourceSelector :=
| RS_FilesystemPath (path : string) (mode : ResourceMode) (content_hash : option string)
| RS_GitRepository (repo_path : string) (allowed_refs : list string) (mode : ResourceMode)
| RS_SqliteDatabase (db_path : string) (tables : list string) (mode : ResourceMode)
| RS_HttpEndpoint (method : HttpMethod) (base_url path_prefix : string) (mode : ResourceMode)
| RS_EmailDraft (recipient_allowlist subject_prefix_allowlist : list string) (mode : ResourceMode)
| RS_McpTool (server_name tool_name : string) (mode : ResourceMode)
| RS_S3Bucket (bucket : string) (key_prefix_allowlist : list string) (mode : ResourceMode).

Record IntentEnvelope := {
  in_intent_id : IntentId;
  in_principal_id : PrincipalId;
  in_session_id : option string;
  in_channel_id : option string;
  in_title : string;
  in_goal : string;
  in_normalized_goal : string;
  in_allowed_outcomes : list OutcomeClause;
  in_forbidden_outcomes : list OutcomeClause;
  in_resource_scope : list ResourceSelector;
  in_risk_tier : RiskTier;
  in_approval_mode : ApprovalMode;
  in_default_rollback_class : RollbackClass;
  in_time_budget : TimeBudget;
  in_trust_context : TrustContextSummary;
  in_derived_from_event_ids : list EventId;
  in_tags : list string;
  in_metadata : JsonMap;
  in_status : IntentStatus;
  in_created_at : Timestamp;
  in_expires_at : Timestamp;
  in_owner_actor_id : option string;
}.

Record IntentInputRef := {
  ii_source_id : string;
  ii_source_type : string;
  ii_trust_labels : list TrustLabel;
  ii_sensitivity_labels : list SensitivityLabel;
  ii_summary : string;
  ii_event_id : option EventId;
}.

Record IntentCompileRequest := {
  ic_principal_id : PrincipalId;
  ic_session_id : option string;
  ic_channel_id : option string;
  ic_title : string;
  ic_goal : string;
  ic_agent_plan_summary : option string;
  ic_trusted_context : JsonMap;
  ic_raw_inputs : list IntentInputRef;
  ic_requested_resource_scope : list ResourceSelector;
  ic_requested_risk_tier : option RiskTier;
  ic_approval_mode : option ApprovalMode;
  ic_metadata : JsonMap;
}.

Record IntentCompileResponse := {
  icr_envelope : IntentEnvelope;
  icr_warnings : list string;
}.

(** [IntentEnvelope::validate]. *)
Definition validate_intent (self : IntentEnvelope) : result unit string :=
  match in_allowed_outcomes self with
  | [] => Err "intent envelope validation failed: allowed_outcomes is empty (at least one outcome is required)"
  | _ =>
      if (in_expires_at self <=? in_created_at self)%Z then
        Err "intent envelope validation failed: expires_at must be greater than created_at"
      else Ok tt
  end.

(** ** capability.rs *)

Inductive CapabilityStatus := CS_Active | CS_Used | CS_Expired | CS_Revoked | CS_Quarantined.

#[export] Instance CapabilityStatus_eq_dec : EqDecision CapabilityStatus.
Proof. solve_decision. Defined.

Record ToolBinding := {
  tb_server_name : string;
  tb_tool_name : string;
  tb_tool_version : option string;
}.

Inductive ResourceBinding :=
| RB_File (path : string) (mode : ResourceMode) (required_hash : option string)
| RB_Git (repo_path : string) (allowed_refs : list string) (mode : ResourceMode)
| RB_Sqlite (db_path : string) (tables : list string) (mode : ResourceMode)
| RB_Http (method : HttpMethod) (base_url path_prefix : string) (header_allowlist : list string)
          (mode : ResourceMode)
| RB_EmailDraft (recipients : list string) (allow_send : bool) (mode : ResourceMode).

Inductive ArgumentConstraint :=
| AC_ExactString (key value : string)
| AC_StringOneOf (key : string) (values : list string)
| AC_StringRegex (key pattern : string)
| AC_IntRange (key : string) (min max : Z)
| AC_BoolExact (key : string) (value : bool)
| AC_JsonPointerMustExist (pointer : string)
| AC_JsonPointerMustNotExist (pointer : string).

Record TaintBudget := {
  tbu_max_taint_score : Z;
  tbu_allow_external_tool_output : bool;
  tbu_allow_external_metadata : bool;
  tbu_allow_untrusted_text : bool;
}.

Record ApprovalBinding := {
  ab_approval_id : ApprovalId;
  ab_approver_roles : list string;
  ab_approved_action_digest : string;
  ab_expires_at : Timestamp;
}.

Record CapabilityLease := {
  cl_capability_id : CapabilityId;
  cl_intent_id : IntentId;
  cl_proposal_id : ProposalId;
  cl_tool_binding : ToolBinding;
  cl_resource_bindings : list ResourceBinding;
  cl_argument_constraints : list ArgumentConstraint;
  cl_taint_budget : TaintBudget;
  cl_approval_binding : option ApprovalBinding;
  cl_issued_by : string;
  cl_policy_bundle_id : PolicyBundleId;
  cl_tool_manifest_id : option string;
  cl_manifest_hash : option string;
  cl_status : CapabilityStatus;
  cl_issued_at : Timestamp;
  cl_expires_at : Timestamp;
  cl_revoked_at : option Timestamp;
  cl_metadata : JsonMap;
  cl_owner_actor_id : option string;
}.

Record CapabilityMintRequest := {
  mr_intent_id : IntentId;
  mr_proposal_id : ProposalId;
  mr_tool_binding : ToolBinding;
  mr_resource_bindings : list ResourceBinding;
  mr_argument_constraints : list ArgumentConstraint;
  mr_taint_budget : TaintBudget;
  mr_approval_binding : option ApprovalBinding;
  mr_requested_ttl_secs : Z;
  mr_metadata : JsonMap;
}.

Record CapabilityMintResponse := {
  mresp_lease : CapabilityLease;
  mresp_warnings : list string;
}.

(** [lease.status = s]. *)
Definition cl_set_status (s : CapabilityStatus) (l : CapabilityLease) : CapabilityLease :=
  {| cl_capability_id := cl_capability_id l; cl_intent_id := cl_intent_id l;
     cl_proposal_id := cl_proposal_id l; cl_tool_binding := cl_tool_binding l;
     cl_resource_bindings := cl_resource_bindings l;
     cl_argument_constraints := cl_argument_constraints l;
     cl_taint_budget := cl_taint_budget l; cl_approval_binding := cl_approval_binding l;
     cl_issued_by := cl_issued_by l; cl_policy_bundle_id := cl_policy_bundle_id l;
     cl_tool_manifest_id := cl_tool_manifest_id l; cl_manifest_hash := cl_manifest_hash l;
     cl_status := s; cl_issued_at := cl_issued_at l; cl_expires_at := cl_expires_at l;
     cl_revoked_at := cl_revoked_at l; cl_metadata := cl_metadata l;
     cl_owner_actor_id := cl_owner_actor_id l |}.

(** [lease.revoked_at = Some(t)]. *)
Definition cl_set_revoked_at (t : Timestamp) (l : CapabilityLease) : CapabilityLease :=
  {| cl_capability_id := cl_capability_id l; cl_intent_id := cl_intent_id l;
     cl_proposal_id := cl_proposal_id l; cl_tool_binding := cl_tool_binding l;
     cl_resource_bindings := cl_resource_bindings l;
     cl_argument_constraints := cl_argument_constraints l;
     cl_taint_budget := cl_taint_budget l; cl_approval_binding := cl_approval_binding l;
     cl_issued_by := cl_issued_by l; cl_policy_bundle_id := cl_policy_bundle_id l;
     cl_tool_manifest_id := cl_tool_manifest_id l; cl_manifest_hash := cl_manifest_hash l;
     cl_status := cl_status l; cl_issued_at := cl_issued_at l; cl_expires_at := cl_expires_at l;
     cl_revoked_at := Some t; cl_metadata := cl_metadata l;
     cl_owner_actor_id := cl_owner_actor_id l |}.

(** ** rollback.rs *)

Inductive RollbackState :=
| RbS_PendingPrepare | RbS_Prepared | RbS_RecoveryRequired | RbS_ExecutedAwaitingVerify
| RbS_Verified | RbS_Committed | RbS_CompensationPending | RbS_Compensated | RbS_RolledBack
| RbS_Failed | RbS_Expired.

Inductive ActionType :=
| Act_FileWrite | Act_FileDelete | Act_FileMove | Act_FileCopy | Act_FileAppend | Act_FileChmod
| Act_DirCreate | Act_DirDelete | Act_GitCommit | Act_GitBranchCreate | Act_GitBranchDelete
| Act_GitTagCreate | Act_GitTagDelete | Act_GitPush | Act_GitPull | Act_GitFetch
| Act_SqlMutation | Act_HttpMutation | Act_EmailSend | Act_MailDraft | Act_McpToolMutation
| Act_S3PutObject | Act_S3DeleteObject | Act_S3GetObject | Act_S3CopyObject
| Act_GcsPutObject | Act_GcsDeleteObject | Act_GcsGetObject | Act_Unknown.

Inductive RollbackTarget :=
| RTg_FilePath (path : string) (before_hash after_hash : option string)
| RTg_GitRef (repo_path : string) (before_ref after_ref : option string)
| RTg_SqliteTxn (db_path tx_id : string)
| RTg_HttpRequest (method : HttpMethod) (url request_digest : string)
| RTg_EmailDraft (draft_id : option string) (recipients : list string)
| RTg_S3Object (bucket key : string) (version_id : option string)
| RTg_GcsObject (bucket key : string) (generation : option Z)
| RTg_Generic (namespace identifier : string).

Inductive CheckType :=
| CT_FileExists | CT_FileHashMatches | CT_GitRefMatches | CT_SqlRowCountRange
| CT_HttpStatusExpected | CT_EmailDraftExists | CT_JsonPredicate | CT_S3ObjectExists
| CT_S3VersionIdMatches | CT_GcsObjectExists | CT_GcsGenerationMatches.

Record CheckSpec := { cs_check_type : CheckType; cs_config : JsonMap }.

Record CompensationStep := {
  cst_order : Z;
  cst_adapter_key : string;
  cst_operation : string;
  cst_args : JsonMap;
  cst_idempotency_key : string;
}.

Record RollbackContract := mkRollbackContract {
  rc_contract_id : RollbackContractId;
  rc_intent_id : IntentId;
  rc_proposal_id : ProposalId;
  rc_execution_id : ExecutionId;
  rc_action_type : ActionType;
  rc_rollback_class : RollbackClass;
  rc_adapter_key : string;
  rc_target : RollbackTarget;
  rc_prepare_checks : list CheckSpec;
  rc_verify_checks : list CheckSpec;
  rc_compensation_plan : list CompensationStep;
  rc_auto_commit : bool;
  rc_state : RollbackState;
  rc_created_at : Timestamp;
  rc_expires_at : option Timestamp;
  rc_metadata : JsonMap;
}.

Record ExecutionPlan := {
  pl_prepare_checks : list CheckSpec;
  pl_verify_checks : list CheckSpec;
  pl_compensation_plan : list CompensationStep;
  pl_auto_commit : bool;
  pl_plan_description : string;
}.

Record RollbackPrepareRequest := mkRollbackPrepareRequest {
  rpr_intent_id : IntentId;
  rpr_proposal_id : ProposalId;
  rpr_execution_id : ExecutionId;
  rpr_action_type : ActionType;
  rpr_rollback_class : RollbackClass;
  rpr_adapter_key : string;
  rpr_target : RollbackTarget;
  rpr_prepare_checks : list CheckSpec;
  rpr_verify_checks : list CheckSpec;
  rpr_compensation_plan : list CompensationStep;
  rpr_auto_commit : bool;
  rpr_metadata : JsonMap;
}.

Record RollbackPrepareResponse := {
  rps_contract : RollbackContract;
  rps_accepted : bool;
  rps_warnings : list string;
}.

#[export] Instance RollbackState_eq_dec : EqDecision RollbackState. Proof. solve_decision. Defined.
#[export] Instance ActionType_eq_dec : EqDecision ActionType. Proof. solve_decision. Defined.

(** [contract.state = s]. *)
Definition rc_set_state (s : RollbackState) (c : RollbackContract) : RollbackContract :=
  let '(mkRollbackContract a b d e f g h i j k l m _ o p q) := c in
  mkRollbackContract a b d e f g h i j k l m s o p q.

(** [contract.metadata = md]. *)
Definition rc_set_metadata (md : JsonMap) (c : RollbackContract) : RollbackContract :=
  let '(mkRollbackContract a b d e f g h i j k l m n o p _) := c in
  mkRollbackContract a b d e f g h i j k l m n o p md.

(** [contract.target = t]. *)
Definition rc_set_target (t : RollbackTarget) (c : RollbackContract) : RollbackContract :=
  let '(mkRollbackContract a b d e f g h _ j k l m n o p q) := c in
  mkRollbackContract a b d e f g h t j k l m n o p q.

(** ** execution.rs *)

Record ActionProposal := mkActionProposal {
  pr_proposal_id : ProposalId;
  pr_intent_id : IntentId;
  pr_step_index : Z;
  pr_title : string;
  pr_tool_name : string;
  pr_server_name : string;
  pr_raw_arguments : json;
  pr_expected_effect : string;
  pr_estimated_risk : RiskTier;
  pr_requested_rollback_class : RollbackClass;
  pr_taint_inputs : list string;
  pr_metadata : JsonMap;
  pr_created_at : Timestamp;
  pr_owner_actor_id : option string;
}.

Inductive ExecutionState :=
| ES_Proposed | ES_Authorized | ES_Prepared | ES_Running | ES_AwaitingApproval
| ES_AwaitingVerification | ES_RecoveryRequired | ES_Committed | ES_Compensated | ES_RolledBack
| ES_Denied | ES_Quarantined | ES_Failed | ES_Canceled.

#[export] Instance ExecutionState_eq_dec : EqDecision ExecutionState. Proof. solve_decision. Defined.

Record ExecutionRecord := mkExecutionRecord {
  ex_execution_id : ExecutionId;
  ex_proposal_id : ProposalId;
  ex_intent_id : IntentId;
  ex_capability_id : CapabilityId;
  ex_rollback_contract_id : option RollbackContractId;
  ex_decision : Decision;
  ex_state : ExecutionState;
  ex_started_at : Timestamp;
  ex_finished_at : option Timestamp;
  ex_result_digest : option string;
  ex_metadata : JsonMap;
  ex_owner_actor_id : option string;
}.

Definition ex_set_state (s : ExecutionState) (e : ExecutionRecord) : ExecutionRecord :=
  let '(mkExecutionRecord a b c d f g _ i j k l m) := e in
  mkExecutionRecord a b c d f g s i j k l m.
Definition ex_set_rollback_contract_id (r : option RollbackContractId) (e : ExecutionRecord) :=
  let '(mkExecutionRecord a b c d _ g h i j k l m) := e in
  mkExecutionRecord a b c d r g h i j k l m.
Definition ex_set_finished_at (t : option Timestamp) (e : ExecutionRecord) :=
  let '(mkExecutionRecord a b c d f g h i _ k l m) := e in
  mkExecutionRecord a b c d f g h i t k l m.
Definition ex_set_result_digest (r : option string) (e : ExecutionRecord) :=
  let '(mkExecutionRecord a b c d f g h i j _ l m) := e in
  mkExecutionRecord a b c d f g h i j r l m.
Definition ex_set_metadata (md : JsonMap) (e : ExecutionRecord) :=
  let '(mkExecutionRecord a b c d f g h i j k _ m) := e in
  mkExecutionRecord a b c d f g h i j k md m.

Record CancelExecutionResponse := {
  cer_execution_id : ExecutionId;
  cer_previous_state : ExecutionState;
  cer_current_state : ExecutionState;
  cer_canceled_at : Timestamp;
}.

(** The derived [Debug] text of the state enumerations. *)
Definition debug_execution_state (s : ExecutionState) : string :=
  match s with
  | ES_Proposed => "Proposed" | ES_Authorized => "Authorized" | ES_Prepared => "Prepared"
  | ES_Running => "Running" | ES_AwaitingApproval => "AwaitingApproval"
  | ES_AwaitingVerification => "AwaitingVerification" | ES_RecoveryRequired => "RecoveryRequired"
  | ES_Committed => "Committed" | ES_Compensated => "Compensated" | ES_RolledBack => "RolledBack"
  | ES_Denied => "Denied" | ES_Quarantined => "Quarantined" | ES_Failed => "Failed"
  | ES_Canceled => "Canceled"
  end.

Definition debug_rollback_state (s : RollbackState) : string :=
  match s with
  | RbS_PendingPrepare => "PendingPrepare" | RbS_Prepared => "Prepared"
  | RbS_RecoveryRequired => "RecoveryRequired"
  | RbS_ExecutedAwaitingVerify => "ExecutedAwaitingVerify" | RbS_Verified => "Verified"
  | RbS_Committed => "Committed" | RbS_CompensationPending => "CompensationPending"
  | RbS_Compensated => "Compensated" | RbS_RolledBack => "RolledBack" | RbS_Failed => "Failed"
  | RbS_Expired => "Expired"
  end.

Definition debug_capability_status (s : CapabilityStatus) : string :=
  match s with
  | CS_Active => "Active" | CS_Used => "Used" | CS_Expired => "Expired" | CS_Revoked => "Revoked"
  | CS_Quarantined => "Quarantined"
  end.

(** The serialized name of a risk tier and of a rollback class (their derived
    [Serialize] and [Debug] texts agree). *)
Definition risk_tier_name (r : RiskTier) : string :=
  match r with RT_Low => "Low" | RT_Medium => "Medium" | RT_High => "High" | RT_Critical => "Critical" end.

Definition rollback_class_name (c : RollbackClass) : string :=
  match c with
  | R0NativeReversible => "R0NativeReversible" | R1SnapshotRecoverable => "R1SnapshotRecoverable"
  | R2Compensatable => "R2Compensatable"
  | R3IrreversibleHighConsequence => "R3IrreversibleHighConsequence"
  end.

Definition approval_mode_name (m : ApprovalMode) : string :=
  match m with
  | AM_None => "None" | AM_Required => "Required" | AM_DraftOnly => "DraftOnly"
  | AM_TwoPhaseCommit => "TwoPhaseCommit"
  end.

(** The names of the action types, in declaration order. *)
Definition action_type_names : list (string * ActionType) :=
  [("FileWrite", Act_FileWrite); ("FileDelete", Act_FileDelete); ("FileMove", Act_FileMove);
   ("FileCopy", Act_FileCopy); ("FileAppend", Act_FileAppend); ("FileChmod", Act_FileChmod);
   ("DirCreate", Act_DirCreate); ("DirDelete", Act_DirDelete); ("GitCommit", Act_GitCommit);
   ("GitBranchCreate", Act_GitBranchCreate); ("GitBranchDelete", Act_GitBranchDelete);
   ("GitTagCreate", Act_GitTagCreate); ("GitTagDelete", Act_GitTagDelete);
   ("GitPush", Act_GitPush); ("GitPull", Act_GitPull); ("GitFetch", Act_GitFetch);
   ("SqlMutation", Act_SqlMutation); ("HttpMutation", Act_HttpMutation);
   ("EmailSend", Act_EmailSend); ("MailDraft", Act_MailDraft);
   ("McpToolMutation", Act_McpToolMutation); ("S3PutObject", Act_S3PutObject);
   ("S3DeleteObject", Act_S3DeleteObject); ("S3GetObject", Act_S3GetObject);
   ("S3CopyObject", Act_S3CopyObject); ("GcsPutObject", Act_GcsPutObject);
   ("GcsDeleteObject", Act_GcsDeleteObject); ("GcsGetObject", Act_GcsGetObject);
   ("Unknown", Act_Unknown)].

(** Deserialization of an externally tagged unit variant from a JSON value: its
    name as a string, or an object whose only key is the name with value null. *)
Definition action_type_from_value (v : json) : option ActionType :=
  match v with
  | JStr s => smap_get s action_type_names
  | JObj [(s, JNull)] => smap_get s action_type_names
  | _ => None
  end.

Record ActionBinding := { abn_action_type : ActionType; abn_adapter_key : string }.

(** The errors of [ActionBinding::from_metadata], one per message; the third
    carries the value whose deserialization failed. *)
Inductive ActionBindingError :=
| ABE_MissingAdapterKey
| ABE_EmptyAdapterKey
| ABE_InvalidActionType (v : json)
| ABE_UnknownActionType.

Definition ActionBinding_from_metadata (metadata : JsonMap)
  : result (option ActionBinding) ActionBindingError :=
  match smap_get "action_type" metadata with
  | None => Ok None
  | Some action_type_value =>
      match smap_get "adapter_key" metadata ≫= as_str with
      | None => Err ABE_MissingAdapterKey
      | Some adapter_key =>
          if str_trim_is_empty adapter_key then Err ABE_EmptyAdapterKey
          else match action_type_from_value action_type_value with
          | None => Err (ABE_InvalidActionType action_type_value)
          | Some Act_Unknown => Err ABE_UnknownActionType
          | Some action_type =>
              Ok (Some {| abn_action_type := action_type; abn_adapter_key := adapter_key |})
          end
      end
  end.

(** The map [canonical_action_digest] builds and normalizes. *)
Definition digest_input (p : ActionProposal) : JsonMap :=
  foldl (λ m kv, btree_insert kv.1 kv.2 m) []
    [("intent_id", JStr (pr_intent_id p));
     ("proposal_id", JStr (pr_proposal_id p));
     ("tool_name", JStr (pr_tool_name p));
     ("server_name", JStr (pr_server_name p));
     ("raw_arguments", normalize_json_value (pr_raw_arguments p));
     ("expected_effect", JStr (pr_expected_effect p));
     ("estimated_risk", JStr (risk_tier_name (pr_estimated_risk p)));
     ("requested_rollback_class", JStr (rollback_class_name (pr_requested_rollback_class p)))].

(** [ActionProposal::canonical_action_digest]: [to_string] is serde_json's
    compact printer, [sha256_hex] the hex text of the SHA-256 digest. *)
Definition canonical_action_digest (to_string : json → string) (sha256_hex : string → string)
    (p : ActionProposal) : string :=
  sha256_hex (to_string (normalize_json_value (JObj (digest_input p)))).

(** ** quarantine.rs *)

Inductive QuarantineHoldState := QS_Pending | QS_Allowed | QS_Denied | QS_Expired.

#[export] Instance QuarantineHoldState_eq_dec : EqDecision QuarantineHoldState.
Proof. solve_decision. Defined.

Record QuarantineHold := {
  qh_hold_id : string;
  qh_intent_id : IntentId;
  qh_proposal_id : ProposalId;
  qh_reason : string;
  qh_matched_rule_ids : list string;
  qh_policy_bundle_id : option string;
  qh_state : QuarantineHoldState;
  qh_expires_at : Timestamp;
  qh_created_at : Timestamp;
  qh_resolved_at : option Timestamp;
  qh_resolved_by : option ActorRef;
  qh_resolution_reason : option string;
  qh_metadata : JsonMap;
  qh_owner_actor_id : option string;
}.

(** ** token.rs *)

Inductive TokenRole :=
| TR_Admin | TR_Operator | TR_PolicyAuthor | TR_Auditor | TR_Agent | TR_ReadOnly.

#[export] Instance TokenRole_eq_dec : EqDecision TokenRole. Proof. solve_decision. Defined.

(** [TokenRole]'s [Display]. *)
Definition role_name (r : TokenRole) : string :=
  match r with
  | TR_Admin => "admin" | TR_Operator => "operator" | TR_PolicyAuthor => "policy_author"
  | TR_Auditor => "auditor" | TR_Agent => "agent" | TR_ReadOnly => "read_only"
  end.

(** [TokenRole::from_str]. *)
Definition role_from_str (s : string) : result TokenRole string :=
  if String.eqb s "admin" then Ok TR_Admin
  else if String.eqb s "operator" then Ok TR_Operator
  else if String.eqb s "policy_author" then Ok TR_PolicyAuthor
  else if String.eqb s "auditor" then Ok TR_Auditor
  else if String.eqb s "agent" then Ok TR_Agent
  else if String.eqb s "read_only" then Ok TR_ReadOnly
  else Err ("invalid token role: " +:+ s).

(** [TokenRole::default_scopes]. *)
Definition default_scopes (r : TokenRole) : list string :=
  match r with
  | TR_Admin => ["*"]
  | TR_Operator =>
      ["approval:read"; "approval:resolve"; "admin:lifecycle-outbox:read"; "admin:lifecycle-outbox:write";
       "provenance:read"; "provenance:write"; "policy:read"; "execution:verify"; "execution:commit";
       "backup:run"]
  | TR_PolicyAuthor => ["policy:read"; "policy:write"; "provenance:read"]
  | TR_Auditor => ["provenance:read"]
  | TR_Agent =>
      ["intent:submit"; "proposal:evaluate"; "capability:mint"; "execution:authorize"; "execution:prepare";
       "execution:execute"; "execution:verify"; "execution:compensate"; "provenance:write"]
  | TR_ReadOnly => ["policy:read"; "provenance:read"]
  end.

Record ScopedToken := mkScopedToken {
  st_token_id : string;
  st_actor_id : string;
  st_role : TokenRole;
  st_scopes : list string;
  st_description : option string;
  st_expires_at : Timestamp;
  st_created_at : Timestamp;
  st_last_used_at : option Timestamp;
  st_revoked_at : option Timestamp;
  st_revoked_reason : option string;
  st_rotated_from : option string;
  st_token_lookup_hash : string;
  st_token_hash : string;
  st_token_salt : string;
}.

Record CreateTokenRequest := {
  ctr_actor_id : string;
  ctr_role : TokenRole;
  ctr_scopes : option (list string);
  ctr_description : option string;
  ctr_expires_at : Timestamp;
}.

Record RotateTokenRequest := {
  rtr_expires_at : option Timestamp;
  rtr_reason : option string;
}.

(** ** agent.rs *)

Record AgentRecord := mkAgentRecord {
  ag_agent_id : string;
  ag_public_key : string;
  ag_key_fingerprint : string;
  ag_allowed_scopes : list string;
  ag_created_at : Timestamp;
  ag_revoked_at : option Timestamp;
  ag_description : option string;
}.

Record RegisterAgentRequest := {
  rar_agent_id : string;
  rar_public_key : string;
  rar_scopes : option (list string);
  rar_description : option string;
}.

(** ** mfa.rs *)

Inductive MfaFactorType := MT_Totp.
Inductive MfaFactorStatus := MF_Active | MF_Inactive | MF_Pending.

#[export] Instance MfaFactorStatus_eq_dec : EqDecision MfaFactorStatus. Proof. solve_decision. Defined.

Record MfaFactor := {
  mf_id : string;
  mf_factor_type : MfaFactorType;
  mf_status : MfaFactorStatus;
  mf_label : option string;
  mf_created_at : Timestamp;
  mf_code : option string;
}.

Record MfaAgentLockoutRecord := mkMfaAgentLockoutRecord {
  ml_agent_id : string;
  ml_failed_attempts : Z;
  ml_locked_until : option Timestamp;
  ml_last_failed_at : option Timestamp;
  ml_lockout_count : Z;
  ml_updated_at : Timestamp;
}.

Record MfaCredentialRecord := mkMfaCredentialRecord {
  mc_mfa_factor_id : string;
  mc_agent_id : string;
  mc_factor_type : MfaFactorType;
  mc_status : MfaFactorStatus;
  mc_encrypted_secret : string;
  mc_secret_nonce : string;
  mc_encryption_key_id : string;
  mc_label : option string;
  mc_created_at : Timestamp;
  mc_verified_at : option Timestamp;
  mc_last_used_at : option Timestamp;
  mc_last_used_counter : option Z;
  mc_revoked_at : option Timestamp;
  mc_failed_attempts : Z;
  mc_locked_until : option Timestamp;
  mc_last_failed_at : option Timestamp;
  mc_lockout_count : Z;
  mc_raw_json : json;
}.

Record QuarantineResolveRequest := {
  qr_actor : ActorRef;
  qr_allow : bool;
  qr_reason : option string;
  qr_mfa_factor : option MfaFactor;
}.

(** ** approval.rs *)

Record ApprovalResolveRequest := {
  arq_actor : ActorRef;
  arq_approve : bool;
  arq_reason : option string;
  arq_mfa_factor : option MfaFactor;
}.

Definition CURRENT_RESOLVER_EVIDENCE_VERSION : Z := 1.

Inductive ApprovalState := AS_Pending | AS_Granted | AS_Denied | AS_Expired.

#[export] Instance ApprovalState_eq_dec : EqDecision ApprovalState. Proof. solve_decision. Defined.

Record ApprovalRequest := mkApprovalRequest {
  ap_approval_id : ApprovalId;
  ap_intent_id : IntentId;
  ap_proposal_id : ProposalId;
  ap_execution_id : option ExecutionId;
  ap_requested_by : ActorRef;
  ap_reason : string;
  ap_action_digest : string;
  ap_expires_at : Timestamp;
  ap_state : ApprovalState;
  ap_created_at : Timestamp;
  ap_resolver_evidence_version : option Z;
  ap_owner_actor_id : option string;
}.

Definition ap_set_state (s : ApprovalState) (a : ApprovalRequest) : ApprovalRequest :=
  let '(mkApprovalRequest b c d e f g h i _ k l m) := a in
  mkApprovalRequest b c d e f g h i s k l m.
Definition ap_set_resolver_evidence_version (v : option Z) (a : ApprovalRequest) :=
  let '(mkApprovalRequest b c d e f g h i j k _ m) := a in
  mkApprovalRequest b c d e f g h i j k v m.

(** ** provenance.rs *)

Inductive ProvenanceEventKind :=
| PK_UserGoalReceived | PK_IntentCompiled | PK_IntentRevoked | PK_ActionProposalSubmitted
| PK_PolicyEvaluated | PK_CapabilityMinted | PK_CapabilityRevoked | PK_ApprovalRequested
| PK_ApprovalGranted | PK_ApprovalDenied | PK_ApprovalTimedOut | PK_ToolCallPrepared
| PK_ToolCallIntercepted | PK_ToolCallExecuted | PK_ToolOutputReceived | PK_ToolOutputSanitized
| PK_DlpBlocked | PK_SideEffectPrepared | PK_SideEffectVerified | PK_SideEffectCommitted
| PK_SideEffectCompensated | PK_SideEffectRolledBack | PK_Quarantined | PK_QuarantineHoldCreated
| PK_QuarantineResolved | PK_QuarantineTimedOut | PK_ErrorRaised | PK_ExternalEventReceived
| PK_PolicyBundleActivated | PK_PolicyBundleDeactivated | PK_PolicyBundleRolledBack.

Inductive ProvenanceEdgeType :=
| PE_DerivedFrom | PE_AuthorizedBy | PE_ApprovedBy | PE_TaintedBy | PE_UsesManifest
| PE_EvaluatedByPolicy | PE_Caused | PE_Compensates | PE_Verifies | PE_References.

#[export] Instance ProvenanceEventKind_eq_dec : EqDecision ProvenanceEventKind.
Proof. solve_decision. Defined.
#[export] Instance ProvenanceEdgeType_eq_dec : EqDecision ProvenanceEdgeType.
Proof. solve_decision. Defined.

Record ProvenanceEdge := {
  ed_edge_type : ProvenanceEdgeType;
  ed_from_event_id : EventId;
  ed_to_event_id : option EventId;
  ed_summary : option string;
}.

Record ProvenanceEvent := {
  ev_event_id : EventId;
  ev_kind : ProvenanceEventKind;
  ev_occurred_at : Timestamp;
  ev_actor : ActorRef;
  ev_object : ObjectRef;
  ev_intent_id : option IntentId;
  ev_proposal_id : option ProposalId;
  ev_execution_id : option ExecutionId;
  ev_capability_id : option CapabilityId;
  ev_rollback_contract_id : option RollbackContractId;
  ev_policy_bundle_id : option PolicyBundleId;
  ev_trust_labels : list TrustLabel;
  ev_sensitivity_labels : list SensitivityLabel;
  ev_parent_edges : list ProvenanceEdge;
  ev_hash_chain : HashChainRef;
  ev_metadata : JsonMap;
  ev_source_runtime_id : option string;
}.

Definition lineage_parent_spec (kind : ProvenanceEventKind)
  : option (ProvenanceEventKind * ProvenanceEdgeType) :=
  match kind with
  | PK_CapabilityMinted => Some (PK_PolicyEvaluated, PE_EvaluatedByPolicy)
  | PK_CapabilityRevoked => Some (PK_CapabilityMinted, PE_References)
  | PK_ApprovalGranted | PK_ApprovalDenied | PK_ApprovalTimedOut =>
      Some (PK_PolicyEvaluated, PE_ApprovedBy)
  | PK_QuarantineHoldCreated => Some (PK_PolicyEvaluated, PE_Caused)
  | PK_QuarantineResolved | PK_QuarantineTimedOut => Some (PK_QuarantineHoldCreated, PE_Caused)
  | PK_ActionProposalSubmitted => Some (PK_CapabilityMinted, PE_AuthorizedBy)
  | PK_SideEffectPrepared => Some (PK_ActionProposalSubmitted, PE_Caused)
  | PK_ToolCallPrepared => Some (PK_SideEffectPrepared, PE_Caused)
  | PK_ToolCallExecuted => Some (PK_ToolCallPrepared, PE_Caused)
  | PK_SideEffectVerified => Some (PK_ToolCallExecuted, PE_Verifies)
  | PK_SideEffectCommitted => Some (PK_SideEffectVerified, PE_Caused)
  | PK_SideEffectCompensated | PK_SideEffectRolledBack => Some (PK_ToolCallExecuted, PE_Compensates)
  | _ => None
  end.

Record ProvenanceQueryRequest := {
  pq_intent_id : option IntentId;
  pq_execution_id : option ExecutionId;
  pq_capability_id : option CapabilityId;
  pq_event_kind : option ProvenanceEventKind;
  pq_since : option Timestamp;
  pq_until : option Timestamp;
  pq_edge_types : list ProvenanceEdgeType;
}.

(** ** lifecycle_outbox.rs *)

Inductive LifecycleOutboxStatus :=
| LO_PendingProvenance | LO_ProvenanceWritten | LO_Reconciled | LO_NeedsOperatorReview.

#[export] Instance LifecycleOutboxStatus_eq_dec : EqDecision LifecycleOutboxStatus.
Proof. solve_decision. Defined.

Record ProvenanceObligation := {
  po_event_kind : ProvenanceEventKind;
  po_parent_kind : option ProvenanceEventKind;
  po_edge_type : option ProvenanceEdgeType;
  po_event_id : option EventId;
}.

(** [ProvenanceObligation::pending]. *)
Definition obligation_pending (event_kind : ProvenanceEventKind) : ProvenanceObligation :=
  let '(parent_kind, edge_type) :=
    match lineage_parent_spec event_kind with
    | Some (parent, edge) => (Some parent, Some edge)
    | None => (None, None)
    end in
  {| po_event_kind := event_kind; po_parent_kind := parent_kind;
     po_edge_type := edge_type; po_event_id := None |}.

(** [ProvenanceObligation::is_satisfied]. *)
Definition is_satisfied (o : ProvenanceObligation) : bool :=
  match po_event_id o with Some _ => true | None => false end.

Record LifecycleOutboxRecord := mkLifecycleOutboxRecord {
  ob_outbox_id : LifecycleOutboxId;
  ob_execution_id : ExecutionId;
  ob_rollback_contract_id : option RollbackContractId;
  ob_previous_execution_state : option ExecutionState;
  ob_new_execution_state : ExecutionState;
  ob_previous_rollback_state : option RollbackState;
  ob_new_rollback_state : option RollbackState;
  ob_intended_provenance_kind : ProvenanceEventKind;
  ob_idempotency_key : string;
  ob_status : LifecycleOutboxStatus;
  ob_provenance_event_id : option EventId;
  ob_provenance_obligations : list ProvenanceObligation;
  ob_attempt_count : Z;
  ob_last_error : option string;
  ob_created_at : Timestamp;
  ob_updated_at : Timestamp;
  ob_metadata : JsonMap;
}.

(** [LifecycleOutboxRecord::pending_with_obligations]; [outbox_id] is the fresh
    identifier and [now] the clock reading of the call. *)
Definition pending_with_obligations (outbox_id : LifecycleOutboxId) (now : Timestamp)
    (execution_id : ExecutionId) (rollback_contract_id : option RollbackContractId)
    (previous_execution_state : option ExecutionState) (new_execution_state : ExecutionState)
    (previous_rollback_state new_rollback_state : option RollbackState)
    (intended_provenance_kinds : list ProvenanceEventKind) (idempotency_key : string)
  : LifecycleOutboxRecord :=
  {| ob_outbox_id := outbox_id;
     ob_execution_id := execution_id;
     ob_rollback_contract_id := rollback_contract_id;
     ob_previous_execution_state := previous_execution_state;
     ob_new_execution_state := new_execution_state;
     ob_previous_rollback_state := previous_rollback_state;
     ob_new_rollback_state := new_rollback_state;
     ob_intended_provenance_kind :=
       default PK_ErrorRaised (head intended_provenance_kinds);
     ob_idempotency_key := idempotency_key;
     ob_status := LO_PendingProvenance;
     ob_provenance_event_id := None;
     ob_provenance_obligations := obligation_pending <$> intended_provenance_kinds;
     ob_attempt_count := 0;
     ob_last_error := None;
     ob_created_at := now;
     ob_updated_at := now;
     ob_metadata := [] |}.

(** [LifecycleOutboxRecord::pending]. *)
Definition outbox_pending (outbox_id : LifecycleOutboxId) (now : Timestamp)
    (execution_id : ExecutionId) (rollback_contract_id : option RollbackContractId)
    (previous_execution_state : option ExecutionState) (new_execution_state : ExecutionState)
    (previous_rollback_state new_rollback_state : option RollbackState)
    (intended_provenance_kind : ProvenanceEventKind) (idempotency_key : string) :=
  pending_with_obligations outbox_id now execution_id rollback_contract_id
    previous_execution_state new_execution_state previous_rollback_state new_rollback_state
    [intended_provenance_kind] idempotency_key.

(** ** policy_bundle.rs *)

Inductive Matcher :=
| M_ScopeMismatch
| M_TaintAtLeast (value : Z)
| M_ActionIsMutation
| M_RollbackClassEquals (value : string)
| M_ActionTypeEquals (value : string)
| M_CriticalRiskNoApproval
| M_ApprovalModeEquals (value : string)
| M_Unknown (extra : json).

Record PolicyRule := {
  rule_id : string;
  rule_description : string;
  rule_decision : Decision;
  rule_priority : Z;
  rule_matchers : list Matcher;
}.

Record PolicyBundle := {
  pb_bundle_id : string;
  pb_version : string;
  pb_rules : list PolicyRule;
  pb_active : bool;
  pb_content_hash : option string;
  pb_created_at : Timestamp;
  pb_updated_at : Timestamp;
}.

Record PolicyBundleVersion := {
  pv_id : string;
  pv_bundle_id : string;
  pv_version : Z;
  pv_content : PolicyBundle;
  pv_active : bool;
  pv_created_at : Timestamp;
  pv_created_by : option string;
  pv_note : option string;
}.

(** The YAML intermediate representation; a matcher's [serde_yaml::Value] is
    the JSON value it serializes to. *)
Record YamlMatcher := { ym_matcher_type : string; ym_value : option json }.
Record YamlPolicyRule := {
  yr_id : string;
  yr_description : string;
  yr_decision : string;
  yr_priority : Z;
  yr_matchers : list YamlMatcher;
}.
Record YamlPolicyBundle := {
  yb_version : string;
  yb_bundle_id : string;
  yb_rules : list YamlPolicyRule;
}.

Definition parse_decision (s : string) : Decision :=
  let l := str_to_lowercase s in
  if String.eqb l "allow" then D_Allow
  else if String.eqb l "deny" then D_Deny
  else if String.eqb l "quarantine" then D_Quarantine
  else if String.eqb l "requireapproval" || String.eqb l "require_approval" then D_RequireApproval
  else if String.eqb l "allowdraftonly" || String.eqb l "allow_draft_only" then D_AllowDraftOnly
  else D_Deny.

(** [self.value.map(|v| v.as_str().unwrap_or("").to_string()).unwrap_or_default()] *)
Definition yaml_value_str (v : option json) : string :=
  match v with Some j => default "" (as_str j) | None => "" end.

(** [YamlMatcher::into_matcher]; the threshold of [taint_at_least] is cast from
    [u64] to [u8], which keeps its low eight bits. *)
Definition into_matcher (m : YamlMatcher) : Matcher :=
  let t := ym_matcher_type m in
  if String.eqb t "scope_mismatch" then M_ScopeMismatch
  else if String.eqb t "taint_at_least" then
    M_TaintAtLeast (default 0%Z (ym_value m ≫= as_u64) mod 256)%Z
  else if String.eqb t "action_is_mutation" then M_ActionIsMutation
  else if String.eqb t "rollback_class_equals" then M_RollbackClassEquals (yaml_value_str (ym_value m))
  else if String.eqb t "action_type_equals" then M_ActionTypeEquals (yaml_value_str (ym_value m))
  else if String.eqb t "critical_risk_no_approval" then M_CriticalRiskNoApproval
  else if String.eqb t "approval_mode_equals" then M_ApprovalModeEquals (yaml_value_str (ym_value m))
  else M_Unknown (JObj [("unknown_matcher_type", JStr t); ("value", default JNull (ym_value m))]).

(** [YamlPolicyRule::into_policy_rule]. *)
Definition into_policy_rule (r : YamlPolicyRule) : PolicyRule :=
  {| rule_id := yr_id r; rule_description := yr_description r;
     rule_decision := parse_decision (yr_decision r); rule_priority := yr_priority r;
     rule_matchers := into_matcher <$> yr_matchers r |}.

(** [YamlPolicyBundle::into_policy_bundle]; [content_hash] is
    [PolicyBundle::compute_content_hash] (serde_json and SHA-256). *)
Definition into_policy_bundle (content_hash : PolicyBundle → string) (now : Timestamp)
    (b : YamlPolicyBundle) : PolicyBundle :=
  let bundle h :=
    {| pb_bundle_id := yb_bundle_id b; pb_version := yb_version b;
       pb_rules := into_policy_rule <$> yb_rules b; pb_active := false; pb_content_hash := h;
       pb_created_at := now; pb_updated_at := now |} in
  bundle (Some (content_hash (bundle None))).

(** ** api.rs *)

Record EvaluateProposalResponse := {
  epr_decision : Decision;
  epr_reason : string;
  epr_matched_rule_ids : list string;
  epr_warnings : list string;
}.

Record EvaluateOutcomeResponse := {
  eor_aligned : bool;
  eor_reason : string;
  eor_matched_rule_ids : list string;
  eor_warnings : list string;
}.

Record AuthorizeExecutionRequest := {
  aer_proposal_id : ProposalId;
  aer_capability_id : CapabilityId;
  aer_dry_run : bool;
}.

Record AuthorizeExecutionResponse := {
  aes_execution : ExecutionRecord;
  aes_warnings : list string;
}.

Record PrepareExecutionResponse := {
  pes_execution_id : ExecutionId;
  pes_prepared : bool;
  pes_rollback_contract : option RollbackContract;
  pes_warnings : list string;
}.

Record CompensateExecutionResponse := {
  ces_execution_id : ExecutionId;
  ces_compensated : bool;
  ces_recovery_required : bool;
  ces_rollback_contract : option RollbackContract;
  ces_warnings : list string;
}.

Record ExecuteExecutionResponse := {
  ees_execution_id : ExecutionId;
  ees_executed : bool;
  ees_recovery_required : bool;
  ees_result_digest : option string;
  ees_rollback_contract : option RollbackContract;
  ees_warnings : list string;
}.

Record VerifyExecutionResponse := {
  ves_execution_id : ExecutionId;
  ves_verified : bool;
  ves_recovery_required : bool;
  ves_rollback_contract : option RollbackContract;
  ves_warnings : list string;
}.

Record CommitExecutionResponse := {
  cms_execution_id : ExecutionId;
  cms_committed : bool;
  cms_rollback_contract : option RollbackContract;
  cms_warnings : list string;
}.

Record PolicyBundleResponse := {
  pbr_bundle : PolicyBundle;
  pbr_content_hash : string;
}.

Record PolicySimulateRequest := {
  psr_proposal : ActionProposal;
  psr_intent : option IntentEnvelope;
}.

Record RollbackPolicyBundleRequest := {
  rpb_target_version : Z;
  rpb_actor : option string;
}.

Record RollbackPolicyBundleResponse := {
  rpr_bundle_id : string;
  rpr_new_version : Z;
  rpr_previous_version : Z;
  rpr_rolled_back_to_version : Z;
}.

Inductive ApiErrorCode :=
| EC_ValidationError | EC_NotFound | EC_PolicyDenied | EC_ApprovalRequired | EC_CapabilityExpired
| EC_CapabilityRevoked | EC_IntegrityMismatch | EC_RollbackUnsupported | EC_AdapterFailure
| EC_Conflict | EC_Internal | EC_Unauthorized | EC_Forbidden | EC_BadRequest | EC_PayloadTooLarge
| EC_MfaRequired | EC_MfaInvalid | EC_MfaLocked | EC_Misconfigured.

#[export] Instance ApiErrorCode_eq_dec : EqDecision ApiErrorCode. Proof. solve_decision. Defined.

(** ** ferrum-store/src/error.rs *)

(** [Database] and [Serialization] carry the text of the underlying library's
    error. *)
Inductive StoreError :=
| SE_Database (e : string)
| SE_Serialization (e : string)
| SE_NotFound (entity id : string)
| SE_InvalidState (msg : string)
| SE_SchemaDrift (db_version expected_version : Z)
| SE_Other (msg : string).

(** ** audit_log.rs: roots and checkpoints *)

(** [Display], [FromStr] and the variants of [AuditAction] and [AuditResourceType]. *)
Definition audit_actions : list (string * string) :=
  [("token_create", "TokenCreate"); ("token_revoke", "TokenRevoke"); ("token_rotate", "TokenRotate");
   ("policy_bundle_create", "PolicyBundleCreate"); ("policy_bundle_activate", "PolicyBundleActivate");
   ("policy_bundle_rollback", "PolicyBundleRollback"); ("approval_resolve", "ApprovalResolve");
   ("quarantine_resolve", "QuarantineResolve"); ("execution_cancel", "ExecutionCancel");
   ("auth_failed", "AuthFailed"); ("agent_register", "AgentRegister"); ("agent_revoke", "AgentRevoke");
   ("agent_auth_failed", "AgentAuthFailed"); ("lifecycle_outbox_retry", "LifecycleOutboxRetry");
   ("lifecycle_outbox_resolve", "LifecycleOutboxResolve"); ("mfa_enroll", "MfaEnroll");
   ("mfa_verify", "MfaVerify"); ("mfa_disable", "MfaDisable"); ("mfa_rotate", "MfaRotate");
   ("behavioral_anomaly", "BehavioralAnomaly")].
Definition audit_resource_types : list (string * string) :=
  [("token", "Token"); ("policy_bundle", "PolicyBundle"); ("approval", "Approval");
   ("quarantine_hold", "QuarantineHold"); ("execution", "Execution"); ("auth", "Auth"); ("agent", "Agent");
   ("lifecycle_outbox", "LifecycleOutbox"); ("mfa_credential", "MfaCredential"); ("proposal", "Proposal")].

(** [s.parse().ok()]: the text, if it names a variant. *)
Definition parse_name (names : list (string * string)) (s : string) : option string :=
  if existsb (λ p, String.eqb p.1 s) names then Some s else None.

Record AuditMerkleRoot := mkMerkleRoot {
  mr_window_start : Timestamp;
  mr_root : string;
  mr_entry_count : Z;
  mr_computed_at : Timestamp;
}.

Record AuditCheckpoint := mkCheckpoint {
  cp_window_start : Timestamp;
  cp_merkle_root : string;
  cp_entry_count : Z;
  cp_signer_id : string;
  cp_signer_key_fingerprint : string;
  cp_signed_at : Timestamp;
  cp_signature : string;
  cp_public_key : string;
}.

(** [CreateCheckpointRequest] has the fields of the checkpoint it asks for. *)
Abbreviation CreateCheckpointRequest := AuditCheckpoint.
