(* ===== verification/Admin.v ===== *)
(** * Roots and checkpoints of the audit log (crates/ferrum-store/src/sqlite:
    audit_merkle_root.rs, audit_checkpoint.rs)

    The tables are keyed by the start of the window.  The columns hold RFC 3339 text,
    which the listings compare and sort; [text] is that text.

    The second part holds the other administrative tables: policy bundles, their versions,
    second factors, lockouts, tokens and agents. *)

From stdpp Require Import sorting.
From S2P Require Import Prelude Json Proto.

Record AuditTables := mkAuditTables {
  at_roots : gmap Z AuditMerkleRoot;
  at_checkpoints : gmap Z AuditCheckpoint;
}.
Definition no_audit_tables : AuditTables := mkAuditTables ∅ ∅.

(** ** Pages *)

(** One row more than asked for tells whether a cursor is returned. *)
Definition page_of {R} (id : R → string) (limit : nat) (rows : list R) : list R * option string :=
  let rows := take (limit + 1) rows in
  if (limit <? length rows)%nat
  then (take limit rows, id <$> last (take limit rows))
  else (rows, None).

(** [ORDER BY window_start DESC]. *)
Definition later {R} (column : R → string) (a b : R) : Prop := Is_true (String.leb (column b) (column a)).
#[export] Instance later_dec {R} (column : R → string) : RelDecision (later column).
Proof. intros a b. unfold later. apply _. Defined.

Definition before_cursor (cursor : option string) (column : string) : bool :=
  match cursor with Some c => String.ltb column c | None => true end.

(** The rows before the cursor. *)
Definition windows {R} (column : R → string) (cursor : option string) (limit : nat) (rows : list R)
  : list R * option string :=
  page_of column limit
    (merge_sort (later column)
       (filter (λ r, before_cursor cursor (column r)) rows)).

(** ** Statements *)

Abbreviation tstmt A := (AuditTables → result A StoreError * AuditTables).

(** [SqliteAuditMerkleRootRepo]: [get_root], the [INSERT OR IGNORE], [list_roots]. *)
Definition sql_get_root (window_start : Timestamp) : tstmt (option AuditMerkleRoot) := λ d,
  (Ok (at_roots d !! window_start), d).
Definition sql_insert_root (r : AuditMerkleRoot) : tstmt unit := λ d,
  match at_roots d !! mr_window_start r with
  | Some _ => (Ok tt, d)
  | None => (Ok tt, mkAuditTables (<[mr_window_start r := r]> (at_roots d)) (at_checkpoints d))
  end.
Definition sql_list_roots (text : Timestamp → string) (cursor : option string) (limit : nat)
  : tstmt (list AuditMerkleRoot * option string) := λ d,
  (Ok (windows (λ r, text (mr_window_start r)) cursor limit (map_to_list (at_roots d)).*2), d).

(** [SqliteAuditCheckpointRepo]: [insert], [get], [list]. *)
Definition sql_insert_checkpoint (c : AuditCheckpoint) : tstmt unit := λ d,
  match at_checkpoints d !! cp_window_start c with
  | Some _ => (Err (SE_Database "UNIQUE constraint failed: audit_checkpoints.window_start"), d)
  | None => (Ok tt, mkAuditTables (at_roots d) (<[cp_window_start c := c]> (at_checkpoints d)))
  end.
Definition sql_get_checkpoint (window_start : Timestamp) : tstmt (option AuditCheckpoint) := λ d,
  (Ok (at_checkpoints d !! window_start), d).
Definition sql_list_checkpoints (text : Timestamp → string) (cursor : option string) (limit : nat)
  : tstmt (list AuditCheckpoint * option string) := λ d,
  (Ok (windows (λ c, text (cp_window_start c)) cursor limit (map_to_list (at_checkpoints d)).*2), d).

Inductive audit_op : Type → Type :=
| AT_get_root (window_start : Timestamp) : audit_op (option AuditMerkleRoot)
| AT_insert_root (r : AuditMerkleRoot) : audit_op unit
| AT_list_roots (text : Timestamp → string) (cursor : option string) (limit : nat)
  : audit_op (list AuditMerkleRoot * option string)
| AT_insert_checkpoint (c : AuditCheckpoint) : audit_op unit
| AT_get_checkpoint (window_start : Timestamp) : audit_op (option AuditCheckpoint)
| AT_list_checkpoints (text : Timestamp → string) (cursor : option string) (limit : nat)
  : audit_op (list AuditCheckpoint * option string).

Definition audit_exec {T} (o : audit_op T) : tstmt T :=
  match o with
  | AT_get_root ws => sql_get_root ws
  | AT_insert_root r => sql_insert_root r
  | AT_list_roots text cursor limit => sql_list_roots text cursor limit
  | AT_insert_checkpoint c => sql_insert_checkpoint c
  | AT_get_checkpoint ws => sql_get_checkpoint ws
  | AT_list_checkpoints text cursor limit => sql_list_checkpoints text cursor limit
  end.

(** No statement changes or removes a root or a checkpoint. *)
Lemma audit_exec_grows {T} (o : audit_op T) d :
  at_roots d ⊆ at_roots (snd (audit_exec o d)) ∧ at_checkpoints d ⊆ at_checkpoints (snd (audit_exec o d)).
Proof.
  destruct o; simpl; try done; unfold sql_insert_root, sql_insert_checkpoint; case_match; simpl; try done;
    split; try done; by apply insert_subseteq.
Qed.

(** * The administrative tables (policy_bundles.rs, mfa_credentials.rs, tokens.rs and
    agents.rs of crates/ferrum-store/src/sqlite)

    Policy bundles with their version history, MFA credentials, the MFA lockouts of
    agents, scoped tokens, registered agents, and the roots and checkpoints of the audit
    log.  [admin_op] lists the statements and transactions the repositories issue,
    [admin_exec] gives each its meaning: one step, atomic, at the time [now].
    The methods that issue several statements are programs over them (files Policies
    and Mfa). *)


(** ** Tables *)

(** A row of [policy_bundles]: its [created_at] column is written once, the other
    columns are those of the bundle in [raw_json]. *)
Record PolicyBundleRow := mkBundleRow {
  bw_created_at : Timestamp;
  bw_bundle : PolicyBundle;
}.

Record AdminTables := mkAdmin {
  ad_bundles : gmap string PolicyBundleRow;
  ad_versions : list PolicyBundleVersion;
  ad_mfa : gmap string MfaCredentialRecord;
  ad_lockouts : gmap string MfaAgentLockoutRecord;
  ad_tokens : gmap string ScopedToken;
  ad_agents : gmap string AgentRecord;
  ad_audit : AuditTables;
}.

Definition no_admin : AdminTables := mkAdmin ∅ [] ∅ ∅ ∅ ∅ no_audit_tables.

Definition set_bundles t (d : AdminTables) : AdminTables :=
  mkAdmin t (ad_versions d) (ad_mfa d) (ad_lockouts d) (ad_tokens d) (ad_agents d) (ad_audit d).
Definition set_versions t (d : AdminTables) : AdminTables :=
  mkAdmin (ad_bundles d) t (ad_mfa d) (ad_lockouts d) (ad_tokens d) (ad_agents d) (ad_audit d).
Definition set_mfa t (d : AdminTables) : AdminTables :=
  mkAdmin (ad_bundles d) (ad_versions d) t (ad_lockouts d) (ad_tokens d) (ad_agents d) (ad_audit d).
Definition set_lockouts t (d : AdminTables) : AdminTables :=
  mkAdmin (ad_bundles d) (ad_versions d) (ad_mfa d) t (ad_tokens d) (ad_agents d) (ad_audit d).
Definition set_tokens t (d : AdminTables) : AdminTables :=
  mkAdmin (ad_bundles d) (ad_versions d) (ad_mfa d) (ad_lockouts d) t (ad_agents d) (ad_audit d).
Definition set_agents t (d : AdminTables) : AdminTables :=
  mkAdmin (ad_bundles d) (ad_versions d) (ad_mfa d) (ad_lockouts d) (ad_tokens d) t (ad_audit d).
Definition set_audit t (d : AdminTables) : AdminTables :=
  mkAdmin (ad_bundles d) (ad_versions d) (ad_mfa d) (ad_lockouts d) (ad_tokens d) (ad_agents d) t.

Abbreviation astmt A := (AdminTables → result A StoreError * AdminTables).

(** ** policy_bundles.rs *)

Definition sql_insert_bundle (b : PolicyBundle) : astmt unit := λ d,
  match ad_bundles d !! pb_bundle_id b with
  | Some _ => (Err (SE_Database "UNIQUE constraint failed: policy_bundles.bundle_id"), d)
  | None => (Ok tt, set_bundles (<[pb_bundle_id b := mkBundleRow (pb_created_at b) b]> (ad_bundles d)) d)
  end.

Definition sql_get_bundle (bundle_id : string) : astmt (option PolicyBundle) := λ d,
  (Ok (bw_bundle <$> ad_bundles d !! bundle_id), d).

(** The content hash column: the hash, or the empty string. *)
Definition hash_column (b : PolicyBundle) : string := default "" (pb_content_hash b).

(** [get_by_content_hash]: the first row with the hash. *)
Definition sql_bundle_by_hash (content_hash : string) : astmt (option PolicyBundle) := λ d,
  (Ok (head (filter (λ b, String.eqb (hash_column b) content_hash)
         (bw_bundle <$> (map_to_list (ad_bundles d)).*2))), d).

(** The [UPDATE policy_bundles] of [update] and [rollback]: a missing row is no error. *)
Definition sql_update_bundle (b : PolicyBundle) : astmt unit := λ d,
  match ad_bundles d !! pb_bundle_id b with
  | Some row =>
      (Ok tt, set_bundles (<[pb_bundle_id b := mkBundleRow (bw_created_at row) b]> (ad_bundles d)) d)
  | None => (Ok tt, d)
  end.

Definition sql_delete_bundle (bundle_id : string) : astmt unit := λ d,
  (Ok tt, set_bundles (delete bundle_id (ad_bundles d)) d).

(** [ORDER BY created_at DESC]. *)
Definition newer_bundle (a b : PolicyBundleRow) : Prop := (bw_created_at b ≤ bw_created_at a)%Z.
#[export] Instance newer_bundle_dec : RelDecision newer_bundle.
Proof. intros a b. unfold newer_bundle. apply _. Defined.

Definition bundles_by_age (d : AdminTables) : list PolicyBundle :=
  bw_bundle <$> merge_sort newer_bundle (map_to_list (ad_bundles d)).*2.

Definition sql_list_bundles : astmt (list PolicyBundle) := λ d, (Ok (bundles_by_age d), d).
Definition sql_list_active : astmt (list PolicyBundle) := λ d,
  (Ok (filter (λ b, pb_active b) (bundles_by_age d)), d).

Definition versions_of (bundle_id : string) (d : AdminTables) : list PolicyBundleVersion :=
  filter (λ v, pv_bundle_id v = bundle_id) (ad_versions d).

(** [COALESCE(MAX(version), 0)]. *)
Definition last_version (bundle_id : string) (d : AdminTables) : Z :=
  foldr Z.max 0%Z (pv_version <$> versions_of bundle_id d).

Definition sql_next_version (bundle_id : string) : astmt Z := λ d,
  (Ok (last_version bundle_id d + 1)%Z, d).

(** The [INSERT INTO policy_bundle_version]; (bundle_id, version) is unique. *)
Definition sql_insert_version (v : PolicyBundleVersion) : astmt unit := λ d,
  if existsb (λ v', String.eqb (pv_id v') (pv_id v)
                    || String.eqb (pv_bundle_id v') (pv_bundle_id v)
                       && (pv_version v' =? pv_version v)%Z) (ad_versions d)
  then (Err (SE_Database "UNIQUE constraint failed: policy_bundle_version"), d)
  else (Ok tt, set_versions (ad_versions d ++ [v]) d).

Definition pv_set_active (active : bool) (v : PolicyBundleVersion) : PolicyBundleVersion :=
  {| pv_id := pv_id v; pv_bundle_id := pv_bundle_id v; pv_version := pv_version v;
     pv_content := pv_content v; pv_active := active; pv_created_at := pv_created_at v;
     pv_created_by := pv_created_by v; pv_note := pv_note v |}.

(** [update_version_active]: the latest version row of the bundle. *)
Definition sql_update_version_active (bundle_id : string) (active : bool) : astmt unit := λ d,
  (Ok tt, set_versions ((λ v, if String.eqb (pv_bundle_id v) bundle_id
                                 && (pv_version v =? last_version bundle_id d)%Z
                              then pv_set_active active v else v) <$> ad_versions d) d).

(** [ORDER BY version DESC]. *)
Definition sql_list_versions (bundle_id : string) : astmt (list PolicyBundleVersion) := λ d,
  (Ok (sort_desc pv_version (versions_of bundle_id d)), d).

Definition sql_get_version (bundle_id : string) (version : Z) : astmt (option PolicyBundleVersion) := λ d,
  (Ok (List.find (λ v, String.eqb (pv_bundle_id v) bundle_id && (pv_version v =? version)%Z)
         (ad_versions d)), d).

(** ** mfa_credentials.rs *)

(** [row_to_record]: the counters are 64-bit columns, read as 32-bit integers. *)
Definition row_to_record (r : MfaCredentialRecord) : MfaCredentialRecord :=
  let '(mkMfaCredentialRecord id agent ty st sec nonce key label created verified used counter
          revoked failed locked last count raw) := r in
  mkMfaCredentialRecord id agent ty st sec nonce key label created verified used counter
    revoked (u32_of failed) locked last (u32_of count) raw.

Definition mc_set_use (now : Timestamp) (counter : Z) (r : MfaCredentialRecord) : MfaCredentialRecord :=
  let '(mkMfaCredentialRecord id agent ty st sec nonce key label created verified _ _
          revoked failed locked last count raw) := r in
  mkMfaCredentialRecord id agent ty st sec nonce key label created verified (Some now) (Some counter)
    revoked failed locked last count raw.

Definition mc_set_status (st : MfaFactorStatus) (verified revoked : option Timestamp)
    (r : MfaCredentialRecord) : MfaCredentialRecord :=
  let '(mkMfaCredentialRecord id agent ty _ sec nonce key label created _ used counter
          _ failed locked last count raw) := r in
  mkMfaCredentialRecord id agent ty st sec nonce key label created verified used counter
    revoked failed locked last count raw.

Definition mc_set_lockout (failed : Z) (locked last : option Timestamp) (count : Z)
    (r : MfaCredentialRecord) : MfaCredentialRecord :=
  let '(mkMfaCredentialRecord id agent ty st sec nonce key label created verified used counter
          revoked _ _ _ _ raw) := r in
  mkMfaCredentialRecord id agent ty st sec nonce key label created verified used counter
    revoked failed locked last count raw.

(** An [UPDATE … WHERE mfa_factor_id = id AND cond]: whether a row was affected. *)
Definition update_factor (id : string) (cond : MfaCredentialRecord → bool)
    (f : MfaCredentialRecord → MfaCredentialRecord) : astmt bool := λ d,
  match ad_mfa d !! id with
  | Some r => if cond r then (Ok true, set_mfa (<[id := f r]> (ad_mfa d)) d) else (Ok false, d)
  | None => (Ok false, d)
  end.

Definition sql_mfa_insert (r : MfaCredentialRecord) : astmt unit := λ d,
  match ad_mfa d !! mc_mfa_factor_id r with
  | Some _ => (Err (SE_Database "UNIQUE constraint failed: mfa_credentials.mfa_factor_id"), d)
  | None => (Ok tt, set_mfa (<[mc_mfa_factor_id r := r]> (ad_mfa d)) d)
  end.

Definition sql_mfa_get (id : string) : astmt (option MfaCredentialRecord) := λ d,
  (Ok (row_to_record <$> ad_mfa d !! id), d).

Definition newer_factor (a b : MfaCredentialRecord) : Prop := (mc_created_at b ≤ mc_created_at a)%Z.
#[export] Instance newer_factor_dec : RelDecision newer_factor.
Proof. intros a b. unfold newer_factor. apply _. Defined.

Definition factors_of (agent_id : string) (d : AdminTables) : list MfaCredentialRecord :=
  row_to_record <$> merge_sort newer_factor
    (filter (λ r, String.eqb (mc_agent_id r) agent_id) (map_to_list (ad_mfa d)).*2).

(** Status 'Active' and not revoked. *)
Definition factor_in_use (r : MfaCredentialRecord) : bool :=
  bool_decide (mc_status r = MF_Active) && bool_decide (mc_revoked_at r = None).

Definition sql_mfa_active_for_agent (agent_id : string) : astmt (option MfaCredentialRecord) := λ d,
  (Ok (head (filter (λ r, factor_in_use r) (factors_of agent_id d))), d).
Definition sql_mfa_list (agent_id : string) : astmt (list MfaCredentialRecord) := λ d,
  (Ok (factors_of agent_id d), d).

(** [activate], one transaction: the other factors in use of the factor's agent become
    inactive, then the factor is activated if it is pending. *)
Definition deactivate_others (id agent : string) (now : Timestamp) (k : string)
    (r : MfaCredentialRecord) : MfaCredentialRecord :=
  if String.eqb (mc_agent_id r) agent && negb (String.eqb k id) && factor_in_use r
  then mc_set_status MF_Inactive (mc_verified_at r) (Some now) r else r.

Definition sql_mfa_activate (id : string) (now : Timestamp) : astmt bool := λ d,
  match ad_mfa d !! id with
  | None => (Ok false, d)
  | Some target =>
      update_factor id
        (λ r, bool_decide (mc_status r = MF_Pending) && bool_decide (mc_revoked_at r = None))
        (λ r, mc_set_status MF_Active (Some now) (mc_revoked_at r) r)
        (set_mfa (map_imap (λ k r, Some (deactivate_others id (mc_agent_id target) now k r)) (ad_mfa d)) d)
  end.

(** The conditional [UPDATE] of [record_use]: the counter must increase. *)
Definition sql_mfa_record_use (id : string) (counter : Z) (now : Timestamp) : astmt bool :=
  update_factor id
    (λ r, match mc_last_used_counter r with None => true | Some c => (c <? counter)%Z end)
    (mc_set_use now counter).

(** The [UPDATE] of [record_failed_attempt]. *)
Definition sql_mfa_failed (id : string) (max_attempts : Z) (locked_until now : Timestamp) : astmt bool :=
  update_factor id (λ _, true)
    (λ r, let failed := (mc_failed_attempts r + 1)%Z in
          let lock := (max_attempts <=? failed)%Z in
          mc_set_lockout failed (if lock then Some locked_until else mc_locked_until r) (Some now)
            (if lock then mc_lockout_count r + 1 else mc_lockout_count r)%Z r).

Definition sql_mfa_reset (id : string) : astmt bool :=
  update_factor id (λ _, true) (λ r, mc_set_lockout 0 None None (mc_lockout_count r) r).

Definition sql_mfa_revoke (id : string) (now : Timestamp) : astmt bool :=
  update_factor id (λ r, bool_decide (mc_revoked_at r = None))
    (λ r, mc_set_status MF_Inactive (mc_verified_at r) (Some now) r).

(** [row_to_lockout_record]. *)
Definition row_to_lockout_record (r : MfaAgentLockoutRecord) : MfaAgentLockoutRecord :=
  mkMfaAgentLockoutRecord (ml_agent_id r) (u32_of (ml_failed_attempts r)) (ml_locked_until r)
    (ml_last_failed_at r) (u32_of (ml_lockout_count r)) (ml_updated_at r).

Definition sql_lockout_get (agent_id : string) : astmt (option MfaAgentLockoutRecord) := λ d,
  (Ok (row_to_lockout_record <$> ad_lockouts d !! agent_id), d).

(** New attempts, whether the agent is locked now, new number of lockouts. *)
Definition failed_attempt (existing : option MfaAgentLockoutRecord) (max_attempts : Z) (now : Timestamp)
  : Z * bool * Z :=
  let fresh failed count :=
    let lock := (max_attempts <=? failed)%Z in
    (failed, lock, if lock then count + 1 else count)%Z in
  match existing with
  | None => fresh 1%Z 0%Z
  | Some r =>
      match ml_locked_until r with
      | Some t => if (now <? t)%Z then ((ml_failed_attempts r + 1)%Z, true, ml_lockout_count r)
                  else fresh 1%Z (ml_lockout_count r)
      | None => fresh (ml_failed_attempts r + 1)%Z (ml_lockout_count r)
      end
  end.

(** The transaction of [record_agent_failed_attempt]. *)
Definition sql_lockout_fail (agent_id : string) (max_attempts duration_secs : Z) (now : Timestamp)
  : astmt unit := λ d,
  let '(failed, lock, count) := failed_attempt (ad_lockouts d !! agent_id) max_attempts now in
  (Ok tt, set_lockouts (<[agent_id :=
     mkMfaAgentLockoutRecord agent_id failed
       (if lock then Some (now + seconds duration_secs)%Z else None) (Some now) count now]>
     (ad_lockouts d)) d).

Definition sql_lockout_reset (agent_id : string) (now : Timestamp) : astmt bool := λ d,
  match ad_lockouts d !! agent_id with
  | Some r => (Ok true, set_lockouts (<[agent_id :=
       mkMfaAgentLockoutRecord (ml_agent_id r) 0 None None (ml_lockout_count r) now]> (ad_lockouts d)) d)
  | None => (Ok false, d)
  end.

(** ** tokens.rs *)

Definition sql_token_insert (tok : ScopedToken) : astmt unit := λ d,
  match ad_tokens d !! st_token_id tok with
  | Some _ => (Err (SE_Database "UNIQUE constraint failed: scoped_tokens.token_id"), d)
  | None => (Ok tt, set_tokens (<[st_token_id tok := tok]> (ad_tokens d)) d)
  end.

Definition sql_token_get (id : string) : astmt (option ScopedToken) := λ d, (Ok (ad_tokens d !! id), d).

(** [get_by_lookup_hash]: the first row with the hash. *)
Definition sql_token_by_lookup_hash (h : string) : astmt (option ScopedToken) := λ d,
  (Ok (head (filter (λ tok, String.eqb (st_token_lookup_hash tok) h) (map_to_list (ad_tokens d)).*2)), d).

(** [ORDER BY created_at DESC]. *)
Definition newer_token (a b : ScopedToken) : Prop := (st_created_at b ≤ st_created_at a)%Z.
#[export] Instance newer_token_dec : RelDecision newer_token.
Proof. intros a b. unfold newer_token. apply _. Defined.

(** [expires_at > datetime('now')] compares texts: the column has a [T] after the date,
    [datetime] a space, which is smaller, so only the dates decide. *)
Definition day_of (t : Timestamp) : Z := (t / seconds 86400)%Z.
Definition token_listed_active (now : Timestamp) (tok : ScopedToken) : bool :=
  bool_decide (st_revoked_at tok = None) && (day_of now <=? day_of (st_expires_at tok))%Z.

Definition token_matches (actor_id role : option string) (active_only : bool) (now : Timestamp)
    (tok : ScopedToken) : bool :=
  (negb active_only || token_listed_active now tok)
  && match actor_id with Some a => String.eqb (st_actor_id tok) a | None => true end
  && match role with Some r => String.eqb (role_name (st_role tok)) r | None => true end.

Definition sql_token_list (actor_id role : option string) (active_only : bool) (limit : nat)
    (now : Timestamp) : astmt (list ScopedToken * option string) := λ d,
  (Ok (page_of st_token_id limit
         (merge_sort newer_token (filter (λ tok, token_matches actor_id role active_only now tok)
                                   (map_to_list (ad_tokens d)).*2))), d).

Definition st_set_revoked (now : Timestamp) (reason : option string) (tok : ScopedToken) : ScopedToken :=
  let '(mkScopedToken id actor role scopes desc expires created used _ _ rotated lookup h salt) := tok in
  mkScopedToken id actor role scopes desc expires created used (Some now) reason rotated lookup h salt.
Definition st_set_used (now : Timestamp) (tok : ScopedToken) : ScopedToken :=
  let '(mkScopedToken id actor role scopes desc expires created _ revoked reason rotated lookup h salt) := tok in
  mkScopedToken id actor role scopes desc expires created (Some now) revoked reason rotated lookup h salt.

(** [revoke]: only a row that is not revoked; the time is read before the statement. *)
Definition sql_token_revoke (id : string) (reason : option string) (now : Timestamp) : astmt bool := λ d,
  match ad_tokens d !! id with
  | Some tok =>
      if bool_decide (st_revoked_at tok = None)
      then (Ok true, set_tokens (<[id := st_set_revoked now reason tok]> (ad_tokens d)) d)
      else (Ok false, d)
  | None => (Ok false, d)
  end.

Definition sql_token_touch (id : string) (now : Timestamp) : astmt unit := λ d,
  match ad_tokens d !! id with
  | Some tok => (Ok tt, set_tokens (<[id := st_set_used now tok]> (ad_tokens d)) d)
  | None => (Ok tt, d)
  end.

(** ** agents.rs *)

(** The key of an agent is unique as well. *)
Definition sql_agent_insert (a : AgentRecord) : astmt unit := λ d,
  match ad_agents d !! ag_agent_id a with
  | Some _ => (Err (SE_Database "UNIQUE constraint failed: agent_registry.agent_id"), d)
  | None =>
      if existsb (λ b, String.eqb (ag_key_fingerprint b) (ag_key_fingerprint a)) (map_to_list (ad_agents d)).*2
      then (Err (SE_Database "UNIQUE constraint failed: agent_registry.key_fingerprint"), d)
      else (Ok tt, set_agents (<[ag_agent_id a := a]> (ad_agents d)) d)
  end.

Definition sql_agent_get (id : string) : astmt (option AgentRecord) := λ d, (Ok (ad_agents d !! id), d).

Definition sql_agent_by_fingerprint (f : string) : astmt (option AgentRecord) := λ d,
  (Ok (head (filter (λ a, String.eqb (ag_key_fingerprint a) f) (map_to_list (ad_agents d)).*2)), d).

Definition newer_agent (a b : AgentRecord) : Prop := (ag_created_at b ≤ ag_created_at a)%Z.
#[export] Instance newer_agent_dec : RelDecision newer_agent.
Proof. intros a b. unfold newer_agent. apply _. Defined.

Definition agents_matching (active_only : bool) (d : AdminTables) : list AgentRecord :=
  filter (λ a, negb active_only || bool_decide (ag_revoked_at a = None)) (map_to_list (ad_agents d)).*2.

Definition sql_agent_list (active_only : bool) (limit : nat) : astmt (list AgentRecord * option string) := λ d,
  (Ok (page_of ag_agent_id limit (merge_sort newer_agent (agents_matching active_only d))), d).
Definition sql_agent_count (active_only : bool) : astmt nat := λ d, (Ok (length (agents_matching active_only d)), d).

Definition ag_set_revoked (now : Timestamp) (a : AgentRecord) : AgentRecord :=
  let '(mkAgentRecord id key fp scopes created _ desc) := a in
  mkAgentRecord id key fp scopes created (Some now) desc.

Definition sql_agent_revoke (id : string) (now : Timestamp) : astmt bool := λ d,
  match ad_agents d !! id with
  | Some a =>
      if bool_decide (ag_revoked_at a = None)
      then (Ok true, set_agents (<[id := ag_set_revoked now a]> (ad_agents d)) d)
      else (Ok false, d)
  | None => (Ok false, d)
  end.

(** A statement over the roots and checkpoints of the audit log. *)
Definition sql_audit {T} (s : tstmt T) : astmt T := λ d,
  let '(r, t) := s (ad_audit d) in (r, set_audit t d).

(** ** The statements as operations *)

Inductive admin_op : Type → Type :=
| AO_insert_bundle (b : PolicyBundle) : admin_op unit
| AO_get_bundle (id : string) : admin_op (option PolicyBundle)
| AO_bundle_by_hash (h : string) : admin_op (option PolicyBundle)
| AO_update_bundle (b : PolicyBundle) : admin_op unit
| AO_delete_bundle (id : string) : admin_op unit
| AO_list_bundles : admin_op (list PolicyBundle)
| AO_list_active : admin_op (list PolicyBundle)
| AO_next_version (id : string) : admin_op Z
| AO_insert_version (v : PolicyBundleVersion) : admin_op unit
| AO_update_version_active (id : string) (active : bool) : admin_op unit
| AO_list_versions (id : string) : admin_op (list PolicyBundleVersion)
| AO_get_version (id : string) (version : Z) : admin_op (option PolicyBundleVersion)
| AO_mfa_insert (r : MfaCredentialRecord) : admin_op unit
| AO_mfa_get (id : string) : admin_op (option MfaCredentialRecord)
| AO_mfa_active_for_agent (agent : string) : admin_op (option MfaCredentialRecord)
| AO_mfa_list (agent : string) : admin_op (list MfaCredentialRecord)
| AO_mfa_activate (id : string) : admin_op bool
| AO_mfa_record_use (id : string) (counter : Z) (now : Timestamp) : admin_op bool
| AO_mfa_failed (id : string) (max_attempts : Z) (locked_until now : Timestamp) : admin_op bool
| AO_mfa_reset (id : string) : admin_op bool
| AO_mfa_revoke (id : string) (now : Timestamp) : admin_op bool
| AO_lockout_get (agent : string) : admin_op (option MfaAgentLockoutRecord)
| AO_lockout_fail (agent : string) (max_attempts duration_secs : Z) : admin_op unit
| AO_lockout_reset (agent : string) (now : Timestamp) : admin_op bool
| AO_token_insert (tok : ScopedToken) : admin_op unit
| AO_token_get (id : string) : admin_op (option ScopedToken)
| AO_token_by_lookup_hash (h : string) : admin_op (option ScopedToken)
| AO_token_list (actor_id role : option string) (active_only : bool) (limit : nat)
  : admin_op (list ScopedToken * option string)
| AO_token_revoke (id : string) (reason : option string) (now : Timestamp) : admin_op bool
| AO_token_touch (id : string) (now : Timestamp) : admin_op unit
| AO_agent_insert (a : AgentRecord) : admin_op unit
| AO_agent_get (id : string) : admin_op (option AgentRecord)
| AO_agent_by_fingerprint (f : string) : admin_op (option AgentRecord)
| AO_agent_list (active_only : bool) (limit : nat) : admin_op (list AgentRecord * option string)
| AO_agent_count (active_only : bool) : admin_op nat
| AO_agent_revoke (id : string) (now : Timestamp) : admin_op bool
| AO_audit {T} (o : audit_op T) : admin_op T.

Definition admin_exec (now : Timestamp) {T} (o : admin_op T) : astmt T :=
  match o with
  | AO_insert_bundle b => sql_insert_bundle b
  | AO_get_bundle id => sql_get_bundle id
  | AO_bundle_by_hash h => sql_bundle_by_hash h
  | AO_update_bundle b => sql_update_bundle b
  | AO_delete_bundle id => sql_delete_bundle id
  | AO_list_bundles => sql_list_bundles
  | AO_list_active => sql_list_active
  | AO_next_version id => sql_next_version id
  | AO_insert_version v => sql_insert_version v
  | AO_update_version_active id active => sql_update_version_active id active
  | AO_list_versions id => sql_list_versions id
  | AO_get_version id version => sql_get_version id version
  | AO_mfa_insert r => sql_mfa_insert r
  | AO_mfa_get id => sql_mfa_get id
  | AO_mfa_active_for_agent agent => sql_mfa_active_for_agent agent
  | AO_mfa_list agent => sql_mfa_list agent
  | AO_mfa_activate id => sql_mfa_activate id now
  | AO_mfa_record_use id counter ts => sql_mfa_record_use id counter ts
  | AO_mfa_failed id m u ts => sql_mfa_failed id m u ts
  | AO_mfa_reset id => sql_mfa_reset id
  | AO_mfa_revoke id ts => sql_mfa_revoke id ts
  | AO_lockout_get agent => sql_lockout_get agent
  | AO_lockout_fail agent m dur => sql_lockout_fail agent m dur now
  | AO_lockout_reset agent ts => sql_lockout_reset agent ts
  | AO_token_insert tok => sql_token_insert tok
  | AO_token_get id => sql_token_get id
  | AO_token_by_lookup_hash h => sql_token_by_lookup_hash h
  | AO_token_list actor role active limit => sql_token_list actor role active limit now
  | AO_token_revoke id reason ts => sql_token_revoke id reason ts
  | AO_token_touch id ts => sql_token_touch id ts
  | AO_agent_insert a => sql_agent_insert a
  | AO_agent_get id => sql_agent_get id
  | AO_agent_by_fingerprint f => sql_agent_by_fingerprint f
  | AO_agent_list active limit => sql_agent_list active limit
  | AO_agent_count active => sql_agent_count active
  | AO_agent_revoke id ts => sql_agent_revoke id ts
  | AO_audit o => sql_audit (audit_exec o)
  end.
