(* ===== verification/Behavioral.v ===== *)
(** * The behavioural profiler (crates/ferrum-gateway/src/behavioral.rs)

    The threshold profiler counts the high-risk or irreversible proposals of each
    principal in a rolling window, in bounded memory.  Instants are nanoseconds of
    the monotonic clock.  Which key a hash map yields first is not specified: the
    operation that evicts takes a number that selects one of its keys. *)

From Stdlib Require Import Sorted.
From S2P Require Import Prelude Json Proto.

Inductive BehavioralSeverity := BS_Warning | BS_Critical.

Record BehavioralFinding := {
  bf_severity : BehavioralSeverity;
  bf_principal_id : string;
  bf_window_count : Z;
  bf_window_secs : Z;
  bf_threshold : Z;
}.

(** The settings of a [ThresholdBehavioralProfiler], and its actors: the instants
    recorded for each principal, oldest first. *)
Record ProfilerConfig := {
  pf_window_secs : Z;
  pf_warning_threshold : Z;
  pf_critical_threshold : Z;
  pf_max_actors : nat;
}.

Abbreviation ActorWindow := (list Z).
Abbreviation Actors := (gmap string ActorWindow).

Definition max_events_per_actor (c : ProfilerConfig) : nat := Z.to_nat (pf_critical_threshold c) + 1.

(** [now.duration_since(t)], which saturates at zero. *)
Definition duration_since (now t : Z) : Z := Z.max 0 (now - t).

(** [ActorWindow::prune]. *)
Fixpoint prune (now window : Z) (events : ActorWindow) : ActorWindow :=
  match events with
  | [] => []
  | t :: rest => if (window <=? duration_since now t)%Z then prune now window rest else events
  end.

(** [while events.len() > max { events.pop_front() }]. *)
Definition cap_events (max : nat) (events : ActorWindow) : ActorWindow :=
  drop (length events - max) events.

(** [ThresholdBehavioralProfiler::is_target]. *)
Definition is_target (risk : RiskTier) (rollback : RollbackClass) : bool :=
  match risk with RT_High | RT_Critical => true | _ => false end
  || match rollback with R3IrreversibleHighConsequence => true | _ => false end.

(** [actors.keys().next()]. *)
Definition first_key (pick : nat) (actors : Actors) : option string :=
  (map_to_list actors).*1 !! (pick mod size actors).

(** The eviction before a new principal is tracked. *)
Definition make_room (pick : nat) (max_actors : nat) (principal_id : string) (actors : Actors) : Actors :=
  match actors !! principal_id with
  | Some _ => actors
  | None =>
      if max_actors <=? size actors then
        match first_key pick actors with Some oldest => delete oldest actors | None => actors end
      else actors
  end.

(** The body of [inspect_proposal] under the lock, for a target proposal. *)
Definition record_target (c : ProfilerConfig) (pick : nat) (principal_id : string) (now : Z)
    (actors : Actors) : option BehavioralFinding * Actors :=
  let actors := make_room pick (pf_max_actors c) principal_id actors in
  let events := default [] (actors !! principal_id) in
  let events := cap_events (max_events_per_actor c)
                  (prune now (seconds (pf_window_secs c)) events ++ [now]) in
  let count := u32_of (Z.of_nat (length events)) in
  let finding severity threshold :=
    Some {| bf_severity := severity; bf_principal_id := principal_id; bf_window_count := count;
            bf_window_secs := pf_window_secs c; bf_threshold := threshold |} in
  (if (pf_critical_threshold c <=? count)%Z then finding BS_Critical (pf_critical_threshold c)
   else if (pf_warning_threshold c <=? count)%Z then finding BS_Warning (pf_warning_threshold c)
   else None,
   <[principal_id := events]> actors).

(** ** The window of a principal *)

Section window.
Context (now window : Z).

Definition in_window (t : Z) : bool := (duration_since now t <? window)%Z.

(** On a sorted queue, pruning keeps exactly the instants in the window. *)
Lemma prune_filter events :
  StronglySorted Z.le events → prune now window events = filter (λ t, in_window t) events.
Proof.
  induction 1 as [|t events Hs IH Hall]; simpl; [done|]. rewrite filter_cons.
  destruct (window <=? duration_since now t)%Z eqn:Hle.
  - apply Z.leb_le in Hle. rewrite decide_False; [done|].
    unfold in_window. rewrite Is_true_true, Z.ltb_lt. lia.
  - apply Z.leb_gt in Hle. rewrite decide_True by (unfold in_window; rewrite Is_true_true, Z.ltb_lt; lia).
    f_equal. symmetry. apply filter_keeps_all. intros t' Ht'.
    rewrite Forall_forall in Hall. specialize (Hall _ Ht').
    unfold in_window, duration_since in *. rewrite Is_true_true, Z.ltb_lt. lia.
Qed.

Lemma in_window_later now' t :
  (now ≤ now')%Z → in_window t = false → (duration_since now' t <? window)%Z = false.
Proof. unfold in_window, duration_since. rewrite !Z.ltb_ge. lia. Qed.

(** What follows an instant in the window is in the window. *)
Lemma in_window_mono t t' : (t ≤ t')%Z → in_window t = true → in_window t' = true.
Proof. unfold in_window, duration_since. rewrite !Z.ltb_lt. lia. Qed.

(** A sorted queue is what has left the window followed by what is in it. *)
Lemma window_split events :
  StronglySorted Z.le events →
  ∃ out, events = out ++ filter (λ t, in_window t) events ∧ ∀ t, t ∈ out → in_window t = false.
Proof.
  induction 1 as [|t l Hs IH Hall]; [exists []; split; [done | by intros ? ?%not_elem_of_nil]|].
  rewrite filter_cons. destruct (decide _) as [Ht|Ht].
  - exists []. split; [|by intros ? ?%not_elem_of_nil]. simpl. f_equal. symmetry.
    apply filter_keeps_all. intros t' Ht'. rewrite Forall_forall in Hall.
    rewrite Is_true_true in Ht |- *. eapply in_window_mono; [by apply Hall | done].
  - destruct IH as (out & Hl & Hout). exists (t :: out). split; [simpl; by f_equal|].
    intros t' [->|Hin]%elem_of_cons; [by apply not_true_is_false; rewrite <- Is_true_true | auto].
Qed.
End window.

Lemma sorted_app (l k : list Z) :
  StronglySorted Z.le (l ++ k) →
  StronglySorted Z.le l ∧ StronglySorted Z.le k ∧ ∀ t t', t ∈ l → t' ∈ k → (t ≤ t')%Z.
Proof.
  induction l as [|x l IH]; simpl.
  - intros Hk. split_and!; [constructor | done | by intros ? ? ?%not_elem_of_nil].
  - intros H. inversion H as [|? ? Hs Hall]; subst. apply Forall_app in Hall as [Hl Hk].
    destruct (IH Hs) as (? & ? & Hlk). split_and!; [by constructor | done|].
    intros t t' [->|Ht]%elem_of_cons Ht'; [rewrite Forall_forall in Hk; by apply Hk | by eapply Hlk].
Qed.

(** ** Histories of inspections *)

(** An inspected proposal: who, how risky, when, and the key an eviction would pick. *)
Record Sighting := {
  sg_principal : string;
  sg_risk : RiskTier;
  sg_class : RollbackClass;
  sg_instant : Z;
  sg_pick : nat;
}.

(** [ThresholdBehavioralProfiler::inspect_proposal]. *)
Definition inspect (c : ProfilerConfig) (s : Sighting) (actors : Actors)
  : option BehavioralFinding * Actors :=
  if is_target (sg_risk s) (sg_class s) then
    record_target c (sg_pick s) (sg_principal s) (sg_instant s) actors
  else (None, actors).

(** The actors after a history. *)
Definition inspect_all (c : ProfilerConfig) (history : list Sighting) : Actors :=
  foldl (λ actors s, (inspect c s actors).2) ∅ history.

(** The target instants of a principal in a history. *)
Definition targets (p : string) (history : list Sighting) : list Z :=
  sg_instant <$> filter (λ s, is_target (sg_risk s) (sg_class s) && String.eqb (sg_principal s) p) history.

Definition principals (history : list Sighting) : gset string :=
  list_to_set (sg_principal <$> filter (λ s, is_target (sg_risk s) (sg_class s)) history).

(** What a profiler without bounds would report of a sighting after a history. *)
Definition expected_finding (c : ProfilerConfig) (history : list Sighting) (s : Sighting)
  : option BehavioralSeverity :=
  if is_target (sg_risk s) (sg_class s) then
    let n := Z.of_nat (length (filter
               (λ t, in_window (sg_instant s) (seconds (pf_window_secs c)) t)
               (targets (sg_principal s) (history ++ [s])))) in
    if (pf_critical_threshold c <=? n)%Z then Some BS_Critical
    else if (pf_warning_threshold c <=? n)%Z then Some BS_Warning else None
  else None.

Lemma cap_events_length max events : length (cap_events max events) = Nat.min max (length events).
Proof. unfold cap_events. rewrite length_drop. lia. Qed.


(** ** Bounded memory *)

Definition bounded (c : ProfilerConfig) (actors : Actors) : Prop :=
  size actors ≤ Nat.max 1 (pf_max_actors c) ∧
  ∀ p events, actors !! p = Some events → length events ≤ max_events_per_actor c.

Lemma first_key_in pick (actors : Actors) :
  size actors ≠ 0 → ∃ k events, first_key pick actors = Some k ∧ actors !! k = Some events.
Proof.
  intros Hne. unfold first_key.
  destruct (lookup_lt_is_Some_2 (map_to_list actors).*1 (pick mod size actors)) as [k Hk].
  { rewrite length_fmap, length_map_to_list. by apply Nat.mod_upper_bound. }
  exists k. rewrite Hk. apply list_elem_of_lookup_2, list_elem_of_fmap in Hk as ([k' e] & -> & Hin).
  exists e. by rewrite <- elem_of_map_to_list.
Qed.

(** Making room keeps a subset of the actors and leaves a place for the principal. *)
Lemma make_room_spec pick max p (actors : Actors) :
  make_room pick max p actors ⊆ actors ∧
  (size actors ≤ Nat.max 1 max → size (<[p := ([] : ActorWindow)]> (make_room pick max p actors)) ≤ Nat.max 1 max).
Proof.
  unfold make_room. destruct (actors !! p) as [e|] eqn:Hp.
  { split; [done|]. by rewrite map_size_insert_Some. }
  destruct (max <=? size actors) eqn:Hle.
  - apply Nat.leb_le in Hle. destruct (decide (size actors = 0)) as [Hz|Hnz].
    + apply map_size_empty_inv in Hz as ->. split.
      * destruct (first_key pick ∅); [rewrite delete_empty|]; done.
      * intros _. destruct (first_key pick ∅); rewrite ?delete_empty, map_size_insert_None; done || (rewrite map_size_empty; lia).
    + destruct (first_key_in pick actors Hnz) as (k & events & -> & Hk).
      split; [apply delete_subseteq|]. intros Hsz.
      rewrite map_size_insert_None by (by rewrite lookup_delete_None; right).
      rewrite map_size_delete_Some by done. lia.
  - apply Nat.leb_gt in Hle. split; [done|]. intros _. rewrite map_size_insert_None by done. lia.
Qed.

Lemma record_target_bounded c pick p now actors :
  bounded c actors → bounded c (record_target c pick p now actors).2.
Proof.
  intros [Hsz Hev]. destruct (make_room_spec pick (pf_max_actors c) p actors) as [Hsub Hroom].
  specialize (Hroom Hsz). unfold record_target; simpl. split.
  - etrans; [|exact Hroom]. apply Nat.eq_le_incl.
    destruct (make_room pick (pf_max_actors c) p actors !! p) eqn:Hp.
    + by rewrite !map_size_insert_Some.
    + by rewrite !map_size_insert_None.
  - intros p' events. rewrite lookup_insert_Some. intros [[<- <-]|[_ Hl]].
    + rewrite cap_events_length. lia.
    + eapply Hev, lookup_weaken; done.
Qed.

Lemma inspect_bounded c s actors : bounded c actors → bounded c (inspect c s actors).2.
Proof. unfold inspect. case_match; [apply record_target_bounded | done]. Qed.

Lemma inspect_all_snoc c history s :
  inspect_all c (history ++ [s]) = (inspect c s (inspect_all c history)).2.
Proof. unfold inspect_all. by rewrite foldl_snoc. Qed.

Lemma inspect_all_bounded c history : bounded c (inspect_all c history).
Proof.
  induction history as [|s history IH] using rev_ind.
  - unfold inspect_all. simpl.
    split; [rewrite map_size_empty; lia | intros p e Hp; by rewrite lookup_empty in Hp].
  - rewrite inspect_all_snoc. by apply inspect_bounded.
Qed.

(** ** Exact counts *)

Section exact.
Context (c : ProfilerConfig).
Let window := seconds (pf_window_secs c).
Let cap := max_events_per_actor c.

(** The instants kept for a principal whose target instants are [ts]: a suffix, and
    what was dropped has left the window by [now], unless the queue is full. *)
Definition kept (now : Z) (ts events : list Z) : Prop :=
  ∃ dropped, ts = dropped ++ events ∧
    (length events = cap ∨ ∀ t, t ∈ dropped → in_window now window t = false).

Lemma cap_events_suffix max events : ∃ dropped, events = dropped ++ cap_events max events.
Proof. exists (take (length events - max) events). unfold cap_events. by rewrite take_drop. Qed.

(** One recorded instant: the queue stays such a suffix, and its length counts the
    instants in the window, up to the cap. *)
Lemma record_kept now last ts events :
  (last ≤ now)%Z → (0 < window)%Z → StronglySorted Z.le (ts ++ [now]) → kept last ts events →
  let events' := cap_events cap (prune now window events ++ [now]) in
  kept now (ts ++ [now]) events' ∧
  length events' = Nat.min cap (length (filter (λ t, in_window now window t) (ts ++ [now]))).
Proof.
  intros Hnow Hw Hs (dropped & -> & Hdrop) events'. apply sorted_app in Hs as (Hs & _ & _).
  apply sorted_app in Hs as (_ & Hse & Hacross). destruct (window_split now window events Hse) as (out & Hout & Houts).
  subst events'. rewrite prune_filter by done. rewrite !filter_app, cap_events_length, !length_app.
  set (K := filter (λ t, in_window now window t) events) in *.
  assert (filter (λ t, in_window now window t) [now] = [now]) as ->.
  { apply filter_keeps_all. intros t Ht. apply list_elem_of_singleton in Ht as ->. unfold in_window, duration_since. rewrite Is_true_true, Z.ltb_lt. lia. }
  destruct (cap_events_suffix cap (K ++ [now])) as (d2 & Hd2).
  assert ((dropped ++ events) ++ [now] = (dropped ++ out ++ d2) ++ cap_events cap (K ++ [now])) as Hwhole.
  { rewrite Hout at 1. rewrite <- !app_assoc. do 2 f_equal. exact Hd2. }
  destruct (decide (Forall (λ t, in_window now window t = false) dropped)) as [Hall|Hsome].
  - rewrite Forall_forall in Hall.
    rewrite (filter_keeps_none _ dropped) by (intros t Ht; rewrite Is_true_true, Hall; done).
    split; [|done]. exists (dropped ++ out ++ d2). split; [exact Hwhole|].
    rewrite cap_events_length, length_app. destruct (decide (cap ≤ length K + 1)); [left; simpl; lia | right].
    intros t. rewrite !elem_of_app. intros [?|[?|Ht]]; [auto | auto |].
    exfalso. assert (length d2 = 0); [|destruct d2; [by apply not_elem_of_nil in Ht | done]].
    apply (f_equal length) in Hd2. rewrite !length_app, cap_events_length, length_app in Hd2. simpl in *. lia.
  - assert (∃ t, t ∈ dropped ∧ in_window now window t = true) as (t & Ht & Hin).
    { apply not_Forall_Exists, Exists_exists in Hsome as (t & ? & ?); [|apply _].
      exists t. split; [done|]. by apply not_false_is_true. }
    destruct Hdrop as [Hfull|Hdrop].
    2:{ specialize (Hdrop t Ht). pose proof (in_window_later _ _ now t Hnow Hdrop) as Hf.
        unfold in_window in Hin. congruence. }
    assert (K = events) as HK.
    { apply filter_keeps_all. intros t' Ht'. rewrite Is_true_true. eapply in_window_mono; [|exact Hin]. eauto. }
    rewrite HK in *. split; [|simpl; lia]. exists (dropped ++ out ++ d2). split; [exact Hwhole|].
    left. rewrite cap_events_length, length_app. simpl. lia.
Qed.
End exact.

(** ** Histories that fit the bounds *)

Lemma targets_snoc p history s :
  targets p (history ++ [s]) =
  targets p history ++ (if is_target (sg_risk s) (sg_class s) && String.eqb (sg_principal s) p
                        then [sg_instant s] else []).
Proof. unfold targets. rewrite filter_app, fmap_app, filter_singleton by exact []. by destruct (_ && _). Qed.

Lemma principals_snoc history s :
  principals (history ++ [s]) =
  principals history ∪ (if is_target (sg_risk s) (sg_class s) then {[sg_principal s]} else ∅).
Proof.
  unfold principals. rewrite filter_app, fmap_app, list_to_set_app_L, filter_singleton by exact [].
  f_equal. destruct (is_target _ _); simpl; set_solver.
Qed.

Lemma targets_sublist p history : targets p history `sublist_of` (sg_instant <$> history).
Proof. unfold targets. apply fmap_sublist, sublist_filter. Qed.

Lemma sublist_sorted (l k : list Z) : l `sublist_of` k → StronglySorted Z.le k → StronglySorted Z.le l.
Proof.
  induction 1 as [|x l k Hl IH|x l k Hl IH]; [done | |]; intros H; inversion H as [|? ? Hs Hall]; subst; [|auto].
  constructor; [auto|]. rewrite Forall_forall in Hall |- *. intros y Hy. apply Hall.
  by eapply elem_of_sublist.
Qed.

(** The actors after a history within the bounds, seen at the instant [last]. *)
Record tracked (c : ProfilerConfig) (last : Z) (history : list Sighting) (actors : Actors) : Prop := {
  tr_dom : dom actors = principals history;
  tr_kept : ∀ p, kept c last (targets p history) (default [] (actors !! p));
}.

Lemma tracked_later c last now history actors :
  (last ≤ now)%Z → tracked c last history actors → tracked c now history actors.
Proof.
  intros Hle [Hd Hk]. split; [done|]. intros p. destruct (Hk p) as (dropped & Hts & Hdrop).
  exists dropped. split; [done|]. destruct Hdrop as [?|Hdrop]; [by left | right].
  intros t Ht. by eapply in_window_later, Hdrop.
Qed.

(** Within the bounds nothing is evicted. *)
Lemma make_room_idle pick max p (actors : Actors) :
  size (dom actors ∪ {[p]}) ≤ max → make_room pick max p actors = actors.
Proof.
  unfold make_room. destruct (actors !! p) eqn:Hp; [done|]. intros Hsz.
  destruct (max <=? size actors) eqn:Hle; [|done]. apply Nat.leb_le in Hle.
  apply not_elem_of_dom in Hp. rewrite size_union in Hsz by set_solver.
  rewrite size_dom, size_singleton in Hsz. lia.
Qed.

Section histories.
Context (c : ProfilerConfig) (Hwindow : (0 < pf_window_secs c)%Z).

(** One inspection: the finding and the actors after it. *)
Lemma inspect_tracked s history actors :
  StronglySorted Z.le (sg_instant <$> history ++ [s]) →
  size (principals (history ++ [s])) ≤ pf_max_actors c →
  tracked c (sg_instant s) history actors →
  tracked c (sg_instant s) (history ++ [s]) (inspect c s actors).2 ∧
  (is_target (sg_risk s) (sg_class s) = true →
   ∃ events, (inspect c s actors).2 !! sg_principal s = Some events ∧
     length events = Nat.min (max_events_per_actor c)
       (length (filter (λ t, in_window (sg_instant s) (seconds (pf_window_secs c)) t)
                  (targets (sg_principal s) (history ++ [s]))))).
Proof.
  intros Hs Hsz [Hd Hk]. unfold inspect. destruct (is_target _ _) eqn:Ht.
  2:{ split; [|done]. split; [by rewrite principals_snoc, Ht, union_empty_r_L|].
      intros p. rewrite targets_snoc, Ht, app_nil_r. apply Hk. }
  rewrite principals_snoc, Ht in Hsz.
  unfold record_target. rewrite make_room_idle by (by rewrite Hd). cbn [snd].
  assert (targets (sg_principal s) (history ++ [s]) = targets (sg_principal s) history ++ [sg_instant s]) as Hts.
  { by rewrite targets_snoc, Ht, String.eqb_refl. }
  destruct (record_kept c (sg_instant s) (sg_instant s) (targets (sg_principal s) history)
              (default [] (actors !! sg_principal s))) as [Hkept Hlen]; [done | unfold seconds; lia | | apply Hk |].
  { rewrite <- Hts. eapply sublist_sorted; [apply targets_sublist | done]. }
  split.
  - split; [rewrite dom_insert_L, Hd, principals_snoc, Ht; set_solver|]. intros p.
    destruct (decide (sg_principal s = p)) as [<-|Hne].
    + rewrite lookup_insert_eq, Hts. exact Hkept.
    + rewrite lookup_insert_ne, targets_snoc by done.
      apply String.eqb_neq in Hne. rewrite Hne, andb_false_r, app_nil_r. apply Hk.
  - intros _. eexists. rewrite lookup_insert_eq. split; [done|]. rewrite Hts. exact Hlen.
Qed.

Lemma inspect_all_tracked history now :
  StronglySorted Z.le (sg_instant <$> history) → Forall (λ s, (sg_instant s ≤ now)%Z) history →
  size (principals history) ≤ pf_max_actors c → tracked c now history (inspect_all c history).
Proof.
  revert now. induction history as [|s history IH] using rev_ind; intros now Hs Hnow Hsz.
  - split; [done|]. intros p. exists []. split; [done|]. right. by intros t ?%not_elem_of_nil.
  - apply Forall_app in Hnow as [Hnow [Hnow1 _]%Forall_cons].
    pose proof Hs as Hs0. rewrite fmap_app in Hs0. apply sorted_app in Hs0 as (Hs1 & _ & Hle).
    apply (tracked_later _ (sg_instant s)); [done|]. rewrite inspect_all_snoc.
    apply inspect_tracked; [done | done|]. apply IH; [done | |].
    + apply Forall_forall. intros s' Hs'. apply Hle; [by apply list_elem_of_fmap_2 | by apply list_elem_of_singleton].
    + etrans; [|exact Hsz]. apply subseteq_size. rewrite principals_snoc. set_solver.
Qed.
End histories.

(** ** What the profiler reports *)

(** The profiler's memory is bounded for every history: at most [max_actors]
    principals (one at least) with at most [critical_threshold + 1] instants each.  On
    every history of inspections in time order whose principals fit in memory, the
    severity it reports for the next proposal is exactly the one of the number of
    high-risk or irreversible proposals of the same principal in the rolling window,
    so neither the pruning nor the cap of the queue ever hides or invents an anomaly. *)
Theorem profiler_exact (c : ProfilerConfig) (history : list Sighting) (s : Sighting) :
  bounded c (inspect_all c (history ++ [s])) ∧
  ((0 < pf_window_secs c)%Z → (0 ≤ pf_critical_threshold c < u32_max)%Z →
   StronglySorted Z.le (sg_instant <$> history ++ [s]) →
   size (principals (history ++ [s])) ≤ pf_max_actors c →
   bf_severity <$> (inspect c s (inspect_all c history)).1 = expected_finding c history s).
Proof.
  split; [apply inspect_all_bounded|]. intros Hw Hc Hs Hsz.
  pose proof Hs as Hs0. rewrite fmap_app in Hs0. apply sorted_app in Hs0 as (Hs1 & _ & Hle).
  assert (tracked c (sg_instant s) history (inspect_all c history)) as Htr.
  { apply inspect_all_tracked; [done | done | |].
    - apply Forall_forall. intros s' Hs'. apply Hle; [by apply list_elem_of_fmap_2 | by apply list_elem_of_singleton].
    - etrans; [|exact Hsz]. apply subseteq_size. rewrite principals_snoc. set_solver. }
  destruct (inspect_tracked c Hw s history _ Hs Hsz Htr) as [_ Hev].
  unfold expected_finding, inspect in *. destruct (is_target _ _); [|done].
  destruct (Hev eq_refl) as (events & Hl & Hlen). unfold record_target in *. cbn [fst snd] in *.
  rewrite lookup_insert_eq in Hl. injection Hl as Hl. rewrite Hl, Hlen.
  set (n := length (filter _ _)). unfold max_events_per_actor.
  rewrite u32_of_small by (unfold u32_max in *; lia).
  repeat match goal with |- context [(?a <=? ?b)%Z] => destruct (Z.leb_spec a b) end; simpl; done || lia.
Qed.

Definition three_strikes : ProfilerConfig :=
  {| pf_window_secs := 60; pf_warning_threshold := 2; pf_critical_threshold := 3; pf_max_actors := 2 |}.
Definition sighting (p : string) (at_secs : Z) : Sighting :=
  {| sg_principal := p; sg_risk := RT_High; sg_class := R0NativeReversible;
     sg_instant := seconds at_secs; sg_pick := 0 |}.

Lemma profiler_exact_witness :
  bf_severity <$> (inspect three_strikes (sighting "p" 70)
    (inspect_all three_strikes [sighting "p" 1; sighting "p" 20; sighting "q" 30; sighting "p" 65])).1
  = Some BS_Critical.
Proof.
  refine (proj2 (profiler_exact three_strikes
    [sighting "p" 1; sighting "p" 20; sighting "q" 30; sighting "p" 65] (sighting "p" 70)) _ _ _ _).
  - reflexivity.
  - unfold u32_max; simpl; lia.
  - repeat constructor; simpl; unfold seconds; lia.
  - vm_compute. lia.
Defined.
