(* ===== verification/AuthState.v ===== *)
(** * State of authentication (crates/ferrum-store/src/nonce_cache.rs; KeyMaterial and
    OidcJwksCache of crates/ferrum-gateway/src/state.rs)

    The in-memory nonce cache against replay, and the cached signing keys of the
    identity provider.  Instants are nanoseconds of the monotonic clock.

    The second part is the specification of the nonce cache. *)

From S2P Require Import Prelude Json Proto Behavioral.

(** ** nonce_cache.rs *)

(** When each nonce was inserted. *)
Abbreviation Nonces := (gmap string Z).

(** [cache.retain]: entries younger than [ttl]. *)
Definition retain_fresh (now ttl : Z) (cache : Nonces) : Nonces :=
  filter (λ kv, duration_since now kv.2 < ttl)%Z cache.

(** The keys of the smallest instant; a hash map may yield any of them first. *)
Definition oldest_keys (cache : Nonces) : list string :=
  (filter (λ kv, Forall (λ kv', kv.2 ≤ kv'.2)%Z (map_to_list cache)) (map_to_list cache)).*1.

(** [prune_oldest]: at most as many rounds as there are entries. *)
Fixpoint prune_rounds (fuel : nat) (pick max_entries : nat) (cache : Nonces) : Nonces :=
  match fuel with
  | O => cache
  | S fuel =>
      if (max_entries <? size cache)%nat then
        match oldest_keys cache !! (pick mod length (oldest_keys cache)) with
        | Some key => prune_rounds fuel pick max_entries (delete key cache)
        | None => cache
        end
      else cache
  end.
Definition prune_oldest (pick max_entries : nat) (cache : Nonces) : Nonces :=
  prune_rounds (size cache) pick max_entries cache.

(** [InMemoryNonceCache::check_and_insert], under the lock. *)
Definition check_and_insert (max_entries pick : nat) (nonce : string) (ttl now : Z) (cache : Nonces)
  : bool * Nonces :=
  let cache := prune_oldest pick (max_entries - 1) (retain_fresh now ttl cache) in
  match cache !! nonce with
  | Some _ => (false, cache)
  | None => (true, <[nonce := now]> cache)
  end.

(** ** state.rs: keys *)

Inductive KeyMaterial :=
| KM_Hmac (secret : string)
| KM_Rsa (pem : string)
| KM_Ecdsa (pem : string)
| KM_Ed (pem : string)
| KM_RsaJwk (n e : string).

(** [jsonwebtoken::Algorithm]. *)
Inductive Algorithm :=
| HS256 | HS384 | HS512 | ES256 | ES384 | RS256 | RS384 | RS512 | PS256 | PS384 | PS512 | EdDSA.
#[export] Instance Algorithm_eq_dec : EqDecision Algorithm. Proof. solve_decision. Defined.

Inductive OidcTokenProfile := LegacyJwt | Rfc9068AccessToken.

Record OidcConfig := {
  oc_issuer : string;
  oc_audiences : list string;
  oc_clock_skew_secs : Z;
  oc_actor_id_claim : string;
  oc_role_source_claim : string;
  oc_role_mappings : gmap string TokenRole;
  oc_allowed_algorithms : list Algorithm;
  oc_static_keys : gmap string KeyMaterial;
  oc_require_email_verified : bool;
  oc_jwks_url : option string;
  oc_jwks_cache_ttl_secs : Z;
  oc_token_profile : OidcTokenProfile;
}.

(** [JwksCacheState]. *)
Record JwksCacheState := mkJwks {
  jc_keys : gmap string KeyMaterial;
  jc_fetched_at : option Z;
}.

(** [OidcJwksCache::new]. *)
Definition jwks_cache_new : JwksCacheState := mkJwks ∅ None.

(** What a request for the key set answers: it fails, has another status than success,
    or has a body, which may not be JSON. *)
Inductive JwksAnswer :=
| JA_failed (e : string)
| JA_status (status : string)
| JA_body (body : result json string).

Section jwks.
(** [DecodingKey::from_rsa_components]: whether the components are well formed. *)
Context (rsa_components : string → string → result unit string).

(** [v.get(key).and_then(|v| v.as_str())]. *)
Definition text_field (key : string) (v : json) : option string :=
  match v with JObj m => smap_get key m ≫= as_str | _ => None end.

Definition jwk_to_key_material (jwk : json) : result KeyMaterial string :=
  let? kty := ok_or (text_field "kty" jwk) "jwk missing 'kty'" in
  if String.eqb kty "RSA" then
    let? n := ok_or (text_field "n" jwk) "jwk missing 'n'" in
    let? e := ok_or (text_field "e" jwk) "jwk missing 'e'" in
    let? _ := map_err (λ err, "invalid RSA JWK components: " +:+ err) (rsa_components n e) in
    Ok (KM_RsaJwk n e)
  else Err ("unsupported jwk key type: " +:+ kty).

(** The keys of the answer: those that cannot be used are skipped. *)
Definition jwks_keys (keys : list json) : gmap string KeyMaterial :=
  foldl (λ m key, match jwk_to_key_material key with
                  | Ok km => <[default "" (text_field "kid" key) := km]> m
                  | Err _ => m
                  end) ∅ keys.

Definition parse_jwks (a : JwksAnswer) : result (gmap string KeyMaterial) string :=
  match a with
  | JA_failed e => Err ("jwks fetch failed: " +:+ e)
  | JA_status s => Err ("jwks fetch returned status " +:+ s)
  | JA_body (Err e) => Err ("jwks parse failed: " +:+ e)
  | JA_body (Ok v) =>
      match v with
      | JObj m => match smap_get "keys" m with
                  | Some (JArr keys) => Ok (jwks_keys keys)
                  | _ => Err "jwks response missing 'keys' array"
                  end
      | _ => Err "jwks response missing 'keys' array"
      end
  end.
End jwks.

(** The first look of [get_key]: a key that was fetched less than [ttl] ago. *)
Definition cached_key (kid : string) (ttl now : Z) (s : JwksCacheState) : option KeyMaterial :=
  match jc_keys s !! kid, jc_fetched_at s with
  | Some key, Some fetched_at => if (duration_since now fetched_at <? ttl)%Z then Some key else None
  | _, _ => None
  end.

(** What authentication keeps in memory. *)
Record AuthMemory := mkAuthMemory {
  am_nonces : Nonces;
  am_jwks : JwksCacheState;
}.
Definition fresh_auth : AuthMemory := mkAuthMemory ∅ jwks_cache_new.

(** The calls of the caches, at the instant [now]. *)
Definition nonce_call (max_entries pick : nat) (nonce : string) (ttl now : Z) (m : AuthMemory)
  : bool * AuthMemory :=
  let '(accepted, nonces) := check_and_insert max_entries pick nonce ttl now (am_nonces m) in
  (accepted, mkAuthMemory nonces (am_jwks m)).
Definition jwks_store (keys : gmap string KeyMaterial) (now : Z) (m : AuthMemory) : AuthMemory :=
  mkAuthMemory (am_nonces m) (mkJwks keys (Some now)).

(** * The nonce cache against its specification

    While fewer nonces than its capacity were accepted within the time to live, the
    bounded cache answers exactly as a cache that remembers every accepted nonce
    forever; at capacity the oldest nonce can be replayed. *)


(** A call of the cache: the nonce, the instant, and the choice of the hash map. *)
Record NonceCall := { nc_nonce : string; nc_now : Z; nc_pick : nat }.

Section nonces.
Context (max_entries : nat) (ttl : Z).

(** The answers of the cache to a sequence of calls. *)
Fixpoint answers (cache : Nonces) (cs : list NonceCall) : list bool :=
  match cs with
  | [] => []
  | c :: cs =>
      let '(accepted, cache) := check_and_insert max_entries (nc_pick c) (nc_nonce c) ttl (nc_now c) cache in
      accepted :: answers cache cs
  end.

(** ** The specification *)

Definition fresh (now t : Z) : Prop := (duration_since now t < ttl)%Z.
#[local] Instance fresh_dec now t : base.Decision (fresh now t).
Proof. unfold fresh. apply _. Defined.

(** Every accepted nonce with its instant. *)
Abbreviation History := (list (string * Z)).

(** What is still remembered at [now]. *)
Definition remembered (now : Z) (seen : History) : History := filter (λ nt, fresh now nt.2) seen.

Definition replayed (c : NonceCall) (seen : History) : bool :=
  bool_decide (nc_nonce c ∈ (remembered (nc_now c) seen).*1).

Definition record_call (c : NonceCall) (seen : History) : History :=
  if replayed c seen then seen else (nc_nonce c, nc_now c) :: seen.

Fixpoint spec_answers (seen : History) (cs : list NonceCall) : list bool :=
  match cs with
  | [] => []
  | c :: cs => negb (replayed c seen) :: spec_answers (record_call c seen) cs
  end.

(** Each call comes no earlier than the one before it and finds fewer remembered nonces
    than the capacity. *)
Fixpoint under_capacity (last : Z) (seen : History) (cs : list NonceCall) : Prop :=
  match cs with
  | [] => True
  | c :: cs =>
      (last ≤ nc_now c)%Z ∧ (length (remembered (nc_now c) seen) < max_entries)%nat ∧
      under_capacity (nc_now c) (record_call c seen) cs
  end.

(** ** The cache follows the specification *)

(** The fresh entries of the cache are the fresh entries of the history. *)
Definition tracks (now : Z) (cache : Nonces) (seen : History) : Prop :=
  ∀ n t, fresh now t → cache !! n = Some t ↔ (n, t) ∈ seen.

Lemma fresh_earlier now now' t : (now ≤ now')%Z → fresh now' t → fresh now t.
Proof. unfold fresh, duration_since. lia. Qed.

Lemma retain_fresh_lookup now cache n t :
  retain_fresh now ttl cache !! n = Some t ↔ cache !! n = Some t ∧ fresh now t.
Proof. unfold retain_fresh. rewrite map_lookup_filter_Some. done. Qed.

(** What retention leaves is what is remembered. *)
Lemma retain_remembered last now cache seen n t :
  (last ≤ now)%Z → tracks last cache seen →
  retain_fresh now ttl cache !! n = Some t ↔ (n, t) ∈ remembered now seen.
Proof.
  intros Hle Htr. rewrite retain_fresh_lookup. unfold remembered. rewrite list_elem_of_filter. simpl.
  assert (fresh now t → cache !! n = Some t ↔ (n, t) ∈ seen) as H; [|naive_solver].
  intros Hf. apply Htr. by eapply fresh_earlier.
Qed.

Lemma retain_size last now cache seen :
  (last ≤ now)%Z → tracks last cache seen →
  (size (retain_fresh now ttl cache) ≤ length (remembered now seen))%nat.
Proof.
  intros Hle Htr. rewrite <- length_map_to_list.
  apply submseteq_length, NoDup_submseteq; [apply NoDup_map_to_list|].
  intros [n t] Hin%elem_of_map_to_list. by eapply retain_remembered.
Qed.

Lemma prune_oldest_idle pick max cache : (size cache ≤ max)%nat → prune_oldest pick max cache = cache.
Proof.
  intros Hs. unfold prune_oldest. destruct (size cache) as [|k] eqn:Hk; simpl; [done|].
  rewrite Hk. by rewrite (proj2 (Nat.ltb_ge max (S k))) by lia.
Qed.

Lemma call_tracks last cache seen c :
  (last ≤ nc_now c)%Z → (length (remembered (nc_now c) seen) < max_entries)%nat → tracks last cache seen →
  ∃ cache', check_and_insert max_entries (nc_pick c) (nc_nonce c) ttl (nc_now c) cache
            = (negb (replayed c seen), cache') ∧ tracks (nc_now c) cache' (record_call c seen).
Proof.
  intros Hle Hload Htr. unfold check_and_insert, record_call, replayed.
  rewrite prune_oldest_idle by (pose proof (retain_size _ _ _ _ Hle Htr); lia).
  pose proof (λ n t, retain_remembered last (nc_now c) cache seen n t Hle Htr) as Hret.
  destruct (retain_fresh (nc_now c) ttl cache !! nc_nonce c) as [t|] eqn:Hn.
  - assert (nc_nonce c ∈ (remembered (nc_now c) seen).*1) as Hin.
    { apply list_elem_of_fmap. exists (nc_nonce c, t). split; [done | by apply Hret]. }
    rewrite bool_decide_true by done. eexists. split; [done|]. intros n t' Hf. rewrite Hret.
    unfold remembered. rewrite list_elem_of_filter. naive_solver.
  - assert (nc_nonce c ∉ (remembered (nc_now c) seen).*1) as Hout.
    { intros [[n t] [Heq Hin]]%list_elem_of_fmap. apply Hret in Hin. simpl in Heq. congruence. }
    rewrite bool_decide_false by done. eexists. split; [done|]. intros n t' Hf. rewrite elem_of_cons.
    destruct (decide (n = nc_nonce c)) as [->|Hne].
    + rewrite lookup_insert_eq. split; [intros [= <-]; by left|]. intros [[= <-]|Hin]; [done|].
      destruct Hout. apply list_elem_of_fmap. exists (nc_nonce c, t'). split; [done|].
      unfold remembered. by rewrite list_elem_of_filter.
    + rewrite lookup_insert_ne, Hret by done. unfold remembered. rewrite list_elem_of_filter. naive_solver.
Qed.

Lemma answers_track cs last cache seen :
  tracks last cache seen → under_capacity last seen cs → answers cache cs = spec_answers seen cs.
Proof.
  revert last cache seen. induction cs as [|c cs IH]; intros last cache seen Htr; [done|].
  intros (Hle & Hload & Hrest). destruct (call_tracks _ _ _ _ Hle Hload Htr) as (cache' & Hc & Htr').
  cbn [answers spec_answers]. rewrite Hc. f_equal. by eapply IH.
Qed.
End nonces.

(** C29: whatever the sequence of calls and the choices of the hash map, as long as each call
    finds fewer remembered nonces than the capacity, the bounded nonce cache answers each
    call exactly as the specification that remembers every accepted nonce forever: a nonce
    is refused exactly when it was accepted less than the time to live before. *)
Theorem nonce_cache_exact max_entries ttl start cs :
  under_capacity max_entries ttl start [] cs → answers max_entries ttl ∅ cs = spec_answers ttl [] cs.
Proof. apply answers_track. intros n t _. rewrite lookup_empty. by rewrite elem_of_nil. Qed.

(** Two nonces and a replay of the first, with the time to live of a minute. *)
Definition calls1 : list NonceCall :=
  [{| nc_nonce := "n1"; nc_now := seconds 1; nc_pick := 0 |}; {| nc_nonce := "n2"; nc_now := seconds 2; nc_pick := 0 |};
   {| nc_nonce := "n1"; nc_now := seconds 3; nc_pick := 0 |}; {| nc_nonce := "n1"; nc_now := seconds 61; nc_pick := 0 |}].

Lemma nonce_cache_exact_witness :
  under_capacity 3 (seconds 60) 0 [] calls1 ∧ answers 3 (seconds 60) ∅ calls1 = [true; true; false; true].
Proof.
  assert (under_capacity 3 (seconds 60) 0 [] calls1) as H by (vm_compute; repeat split; try lia; done).
  split; [exact H|]. rewrite (nonce_cache_exact 3 (seconds 60) 0 calls1 H). vm_compute. reflexivity.
Defined.

(** At capacity the cache forgets the oldest nonce before it looks: with room for two, the
    first of two nonces is accepted again at once. *)
Theorem nonce_replayed_at_capacity :
  answers 2 (seconds 60) ∅ (take 3 calls1) = [true; true; true].
Proof. vm_compute. reflexivity. Qed.
