(* ===== verification/Merkle.v ===== *)
(** * Merkle roots of the audit log (crates/ferrum-store/src/merkle.rs)

    SHA-256 and the hexadecimal code are library functions.  [merkle_root_binding] is a
    reduction: two lists of as many hashes with the same root hold the same hashes, or
    the two computations contain a collision of the hash.  [merkle_root_ambiguous]
    shows why the number of entries has to be compared as well. *)

From Stdlib Require Import Ascii.
From S2P Require Import Prelude.

(** The library functions that are used. *)
Record HashLib := {
  hl_sha256 : string → string;               (** the digest as bytes *)
  hl_hex_decode : string → option string;    (** [hex::decode] *)
  hl_hex_encode : string → string;           (** [hex::encode] *)
}.

(** What is known of them: a digest has 32 bytes, and the code can be read back. *)
Class HashLaws (lib : HashLib) := {
  sha256_length : ∀ s, String.length (hl_sha256 lib s) = 32;
  hex_encode_inj : ∀ s t, hl_hex_encode lib s = hl_hex_encode lib t → s = t;
}.

Section merkle.
Context (lib : HashLib).

Definition leaf_input (bytes : string) : string := String Ascii.zero bytes.
#[local] Instance leaf_input_inj : Inj (=) (=) leaf_input.
Proof. intros a b H. by injection H. Qed.
Definition node_input (l r : string) : string := String Ascii.one (l +:+ r).

(** One round of the loop: pairs, the last node with itself if it is alone. *)
Fixpoint next_level (level : list string) : list string :=
  match level with
  | [] => []
  | [l] => [hl_sha256 lib (node_input l l)]
  | l :: r :: rest => hl_sha256 lib (node_input l r) :: next_level rest
  end.

(** The loop; [None] when the fuel is used up. *)
Fixpoint merkle_loop (fuel : nat) (level : list string) : option string :=
  match level with
  | [] => None
  | [root] => Some root
  | _ => match fuel with
         | O => None
         | S fuel => merkle_loop fuel (next_level level)
         end
  end.

(** [compute_merkle_root]; [None] is the panic on a hash that is not hexadecimal. *)
Definition compute_merkle_root (hashes : list string) : option string :=
  if bool_decide (hashes = []) then Some ""
  else
    bytes ← mapM (hl_hex_decode lib) hashes;
    let level := hl_sha256 lib <$> (leaf_input <$> bytes) in
    root ← merkle_loop (length level) level;
    Some (hl_hex_encode lib root).

(** ** The loop ends *)

Lemma next_level_length level : length (next_level level) = Nat.div2 (S (length level)).
Proof.
  enough (∀ n level, length level ≤ n → length (next_level level) = Nat.div2 (S (length level))) as H
    by by apply (H (length level)).
  clear level; induction n as [|n IH]; intros [|a [|b rest]] Hn; simpl in *; try done; try lia.
  rewrite IH by lia. done.
Qed.

Lemma merkle_loop_total fuel level : level ≠ [] → length level ≤ S fuel → ∃ root, merkle_loop fuel level = Some root.
Proof.
  revert level; induction fuel as [|fuel IH]; intros [|a [|b rest]] Hne Hl; simpl in *; try done; eauto; try lia.
  apply (IH (next_level (a :: b :: rest))); [done|]. rewrite (next_level_length (a :: b :: rest)), Nat.div2_div.
  cbn [length]. apply Nat.lt_succ_r, Nat.Div0.div_lt_upper_bound. lia.
Qed.

(** The function panics exactly when some hash is not hexadecimal. *)
Theorem compute_merkle_root_total hashes :
  (∀ h, h ∈ hashes → is_Some (hl_hex_decode lib h)) ↔ is_Some (compute_merkle_root hashes).
Proof.
  unfold compute_merkle_root. case_bool_decide as Hne; [subst; split; [eauto|set_solver]|]. split.
  - intros H. destruct (mapM (hl_hex_decode lib) hashes) as [bytes|] eqn:Hm.
    + apply mapM_Some_1, Forall2_length in Hm.
      destruct (merkle_loop_total (length (hl_sha256 lib <$> (leaf_input <$> bytes)))
                  (hl_sha256 lib <$> (leaf_input <$> bytes))) as [root Hroot]; [|lia|].
      * destruct bytes; [by destruct hashes|done].
      * cbn -[merkle_loop]. rewrite Hroot. by eexists.
    + exfalso. apply mapM_None_1, Exists_exists in Hm as (h & Hh & Hn). destruct (H h Hh) as [? ?]. congruence.
  - intros [r Hr] h Hh. destruct (mapM (hl_hex_decode lib) hashes) as [bytes|] eqn:Hm; [|done].
    apply mapM_Some_1 in Hm. apply list_elem_of_lookup in Hh as [i Hi].
    destruct (Forall2_lookup_l _ _ _ _ _ Hm Hi) as (b & _ & Hb). by eexists.
Qed.

(** ** What a root says about the entries *)

(** The texts that are hashed in a round, in all rounds, and in the whole computation. *)
Fixpoint level_inputs (level : list string) : list string :=
  match level with
  | [] => []
  | [l] => [node_input l l]
  | l :: r :: rest => node_input l r :: level_inputs rest
  end.
Fixpoint loop_inputs (fuel : nat) (level : list string) : list string :=
  match level with
  | [] | [_] => []
  | _ => match fuel with
         | O => []
         | S fuel => level_inputs level ++ loop_inputs fuel (next_level level)
         end
  end.
Definition root_inputs (hashes : list string) : list string :=
  match mapM (hl_hex_decode lib) hashes with
  | None => []
  | Some bytes => let level := hl_sha256 lib <$> (leaf_input <$> bytes) in
                  (leaf_input <$> bytes) ++ loop_inputs (length level) level
  end.

(** Two different texts, one hashed on each side, with the same digest. *)
Definition collision (l1 l2 : list string) : Prop :=
  ∃ x y, x ∈ l1 ∧ y ∈ l2 ∧ x ≠ y ∧ hl_sha256 lib x = hl_sha256 lib y.

Lemma collision_app_l l1 l2 k1 k2 : collision l1 l2 → collision (l1 ++ k1) (l2 ++ k2).
Proof. intros (x & y & ? & ? & ?). exists x, y. rewrite !elem_of_app. eauto. Qed.
Lemma collision_app_r l1 l2 k1 k2 : collision k1 k2 → collision (l1 ++ k1) (l2 ++ k2).
Proof. intros (x & y & ? & ? & ?). exists x, y. rewrite !elem_of_app. eauto. Qed.
Lemma collision_cons x y l1 l2 : collision l1 l2 → collision (x :: l1) (y :: l2).
Proof. apply (collision_app_r [x] [y]). Qed.

Lemma string_app_inj_length (a b c d : string) :
  a +:+ b = c +:+ d → String.length a = String.length c → a = c ∧ b = d.
Proof.
  revert c; induction a as [|x a IH]; intros [|y c] H Hl; simpl in *; try done.
  injection H as -> H. injection Hl as Hl. destruct (IH c H Hl) as [-> ->]. done.
Qed.

Context `{!HashLaws lib}.

(** The digests of a level have 32 bytes each. *)
Definition digests (level : list string) : Prop := Forall (λ d, String.length d = 32) level.

Lemma digests_fmap l : digests (hl_sha256 lib <$> l).
Proof. apply Forall_fmap, Forall_true. intros s. apply sha256_length. Qed.
Lemma next_level_inputs level : next_level level = hl_sha256 lib <$> level_inputs level.
Proof.
  enough (∀ n level, length level ≤ n → next_level level = hl_sha256 lib <$> level_inputs level) as H
    by by apply (H (length level)).
  clear level; induction n as [|n IH]; intros [|a [|b rest]] Hn; simpl in *; try done; try lia.
  rewrite IH by lia. done.
Qed.

(** Equal digests are digests of equal texts, or a collision. *)
Lemma fmap_binding (l1 l2 : list string) :
  hl_sha256 lib <$> l1 = hl_sha256 lib <$> l2 → l1 = l2 ∨ collision l1 l2.
Proof.
  revert l2; induction l1 as [|x l1 IH]; intros [|y l2] H; simpl in *; try done; [by left|].
  injection H as Hx H. destruct (decide (x = y)) as [->|Hne].
  - destruct (IH l2 H) as [->|Hc]; [by left|right]. by apply collision_cons.
  - right. exists x, y. set_solver.
Qed.

(** The texts of a round determine the nodes they are made of. *)
Lemma level_inputs_inj a b :
  length a = length b → digests a → digests b → level_inputs a = level_inputs b → a = b.
Proof.
  enough (∀ n a b, length a ≤ n → length a = length b → digests a → digests b →
    level_inputs a = level_inputs b → a = b) as H by by apply (H (length a)).
  clear a b; induction n as [|n IH]; intros [|x [|y a]] [|x' [|y' b]] Hn Hl Ha Hb H;
    simpl in *; simplify_eq; try done; try lia.
  all: unfold digests in *; rewrite ?Forall_cons in *; destruct_and?.
  - by destruct (string_app_inj_length x x x' x') as [-> _]; [|congruence|].
  - destruct (string_app_inj_length x y x' y') as [-> ->]; [done|congruence|].
    rewrite (IH a b); try done; lia.
Qed.

Lemma merkle_loop_binding fuel a b root :
  length a = length b → digests a → digests b →
  merkle_loop fuel a = Some root → merkle_loop fuel b = Some root →
  a = b ∨ collision (loop_inputs fuel a) (loop_inputs fuel b).
Proof.
  revert a b; induction fuel as [|fuel IH]; intros a b Hl Ha Hb H1 H2;
    destruct a as [|x [|y a]], b as [|x' [|y' b]]; try done; simpl in H1, H2; simplify_eq; try by left.
  change (merkle_loop fuel (next_level (x :: y :: a)) = Some root) in H1.
  change (merkle_loop fuel (next_level (x' :: y' :: b)) = Some root) in H2.
  destruct (IH (next_level (x :: y :: a)) (next_level (x' :: y' :: b))) as [Heq|Hc]; try done.
  - rewrite !next_level_length. cbn [length]. by rewrite Hl.
  - rewrite next_level_inputs. apply digests_fmap.
  - rewrite next_level_inputs. apply digests_fmap.
  - rewrite !next_level_inputs in Heq. apply fmap_binding in Heq as [Heq|Hc].
    + left. apply level_inputs_inj; try done. cbn [length]. by rewrite Hl.
    + right. by apply (collision_app_l _ _ (loop_inputs fuel (next_level (x :: y :: a))) (loop_inputs fuel (next_level (x' :: y' :: b)))).
  - right. by apply (collision_app_r (level_inputs (x :: y :: a)) (level_inputs (x' :: y' :: b))).
Qed.

(** Two lists of as many hashes with the same Merkle root decode to the same
    bytes, or the two computations hash two different texts to the same SHA-256
    digest: together with the number of entries the root is binding. *)
Theorem merkle_root_binding l1 l2 root :
  compute_merkle_root l1 = Some root → compute_merkle_root l2 = Some root → length l1 = length l2 →
  mapM (hl_hex_decode lib) l1 = mapM (hl_hex_decode lib) l2 ∨ collision (root_inputs l1) (root_inputs l2).
Proof.
  unfold compute_merkle_root, root_inputs. intros H1 H2 Hl.
  destruct l1 as [|x l1], l2 as [|y l2]; try done; [by left|].
  rewrite bool_decide_eq_false_2 in H1, H2 by done. revert H1 H2.
  destruct (mapM (hl_hex_decode lib) (x :: l1)) as [b1|] eqn:Hb1; [|done].
  destruct (mapM (hl_hex_decode lib) (y :: l2)) as [b2|] eqn:Hb2; [|done]. cbn -[merkle_loop].
  apply mapM_Some_1, Forall2_length in Hb1, Hb2. rewrite !length_fmap, <- Hb1, <- Hb2, Hl.
  destruct (merkle_loop _ (_ <$> (_ <$> b1))) as [r1|] eqn:Hr1; [|done].
  destruct (merkle_loop _ (_ <$> (_ <$> b2))) as [r2|] eqn:Hr2; [|done]. simpl. intros [= H1] [= H2].
  rewrite <- H2 in H1. apply hex_encode_inj in H1 as ->.
  assert (length (hl_sha256 lib <$> (leaf_input <$> b1)) = length (hl_sha256 lib <$> (leaf_input <$> b2))) as Hlen
    by (rewrite !length_fmap; congruence).
  destruct (merkle_loop_binding _ _ _ _ Hlen (digests_fmap _) (digests_fmap _) Hr1 Hr2) as [Heq|Hc].
  - apply fmap_binding in Heq as [Heq|Hc]; [|right; by apply collision_app_l].
    left. f_equal. by apply (inj (fmap leaf_input)) in Heq.
  - right. by apply collision_app_r.
Qed.
End merkle.

(** A list whose last pair is equal has the root of the list without its last entry:
    the entry count has to be compared as well. *)
Theorem merkle_root_ambiguous lib a b c x y z :
  hl_hex_decode lib a = Some x → hl_hex_decode lib b = Some y → hl_hex_decode lib c = Some z →
  compute_merkle_root lib [a; b; c] = compute_merkle_root lib [a; b; c; c].
Proof. intros Ha Hb Hc. unfold compute_merkle_root. rewrite !bool_decide_eq_false_2 by done. simpl. by rewrite Ha, Hb, Hc. Qed.

(** ** A concrete library *)

(** A digest of 32 bytes: the last 32 of the text, filled up with zeros. *)
Fixpoint zeros (n : nat) : string := match n with O => "" | S n => String "0"%char (zeros n) end.
Definition pad32 (s : string) : string := String.substring (String.length s) 32 (zeros 32 +:+ s).
Definition toy_hash_lib : HashLib :=
  {| hl_sha256 := pad32; hl_hex_decode := Some; hl_hex_encode := id |}.

Lemma substring_length n m s : n + m ≤ String.length s → String.length (String.substring n m s) = m.
Proof.
  revert n m; induction s as [|c s IH]; intros [|n] [|m] H; simpl in *; try lia; try done.
  - f_equal. apply IH. simpl. lia.
  - apply IH. lia.
  - apply IH. lia.
Qed.
#[export] Instance toy_hash_laws : HashLaws toy_hash_lib.
Proof.
  split; [|done]. intros s. apply substring_length. rewrite str_length_app. simpl. lia.
Qed.

Lemma merkle_root_binding_witness :
  let l := ["aa"; "bb"; "cc"] in
  compute_merkle_root toy_hash_lib l = compute_merkle_root toy_hash_lib l ∧
  (mapM (hl_hex_decode toy_hash_lib) l = mapM (hl_hex_decode toy_hash_lib) l ∨
   collision toy_hash_lib (root_inputs toy_hash_lib l) (root_inputs toy_hash_lib l)).
Proof.
  split; [done|].
  eapply (merkle_root_binding toy_hash_lib ["aa"; "bb"; "cc"] ["aa"; "bb"; "cc"]); [vm_compute; reflexivity..|done].
Defined.
