(* ===== verification/Graph.v ===== *)
(** * The lineage graph (crates/ferrum-graph/src/lib.rs)

    Events and the edges between them, with a bounded breadth-first search in either
    direction.  [bfs_exact] shows that the search answers, without repetition and
    nearest first, exactly the events within the given number of hops; [lineage_dual]
    that ancestors and descendants are converse on every graph built by the
    operations. *)

From Stdlib Require Import Sorted.
From stdpp Require Import sorting.
From S2P Require Import Prelude Json Proto.

(** ** The graph *)

Record LineageGraph := mkGraph {
  lg_events : gmap string ProvenanceEvent;
  lg_children : gmap string (list string);
  lg_parents : gmap string (list string);
}.

(** [LineageGraph::new]. *)
Definition graph_new : LineageGraph := mkGraph ∅ ∅ ∅.

(** [entry(id).or_default()], and the entry with one more identifier. *)
Definition entry (m : gmap string (list string)) (id : string) : list string := default [] (m !! id).
Definition push_entry (m : gmap string (list string)) (id x : string) : gmap string (list string) :=
  <[id := entry m id ++ [x]]> m.

Definition add_event (event : ProvenanceEvent) (g : LineageGraph) : LineageGraph :=
  let id := ev_event_id event in
  mkGraph (<[id := event]> (lg_events g))
    (<[id := entry (lg_children g) id]> (lg_children g))
    (<[id := entry (lg_parents g) id]> (lg_parents g)).

(** An edge from a parent to a child. *)
Definition add_edge (parent_id child_id : string) (g : LineageGraph) : LineageGraph :=
  mkGraph (lg_events g) (push_entry (lg_children g) parent_id child_id) (push_entry (lg_parents g) child_id parent_id).

Definition graph_has_event (g : LineageGraph) (event_id : string) : bool := bool_decide (is_Some (lg_events g !! event_id)).
Definition event_count (g : LineageGraph) : nat := size (lg_events g).
Definition edge_count (g : LineageGraph) : nat := sum_list ((λ kv, length kv.2) <$> map_to_list (lg_children g)).

(** ** The search *)

Inductive BfsMode := Bfs_Ancestors | Bfs_Descendants | Bfs_Both.

Definition neighbors (g : LineageGraph) (mode : BfsMode) (current : string) : list string :=
  match mode with
  | Bfs_Ancestors => entry (lg_parents g) current
  | Bfs_Descendants => entry (lg_children g) current
  | Bfs_Both => entry (lg_parents g) current ++ entry (lg_children g) current
  end.

(** What the loop carries: the visited set, the result and the queue. *)
Record BfsState := mkBfs {
  bf_visited : gset string;
  bf_result : list string;
  bf_queue : list (string * nat);
}.

(** One neighbour found at distance [d]. *)
Definition discover (d : nat) (s : BfsState) (neighbor : string) : BfsState :=
  if decide (neighbor ∈ bf_visited s) then s
  else mkBfs ({[neighbor]} ∪ bf_visited s) (bf_result s ++ [neighbor]) (bf_queue s ++ [(neighbor, d)]).

(** The loop; [None] when the fuel is used up. *)
Fixpoint bfs_loop (fuel : nat) (g : LineageGraph) (mode : BfsMode) (max_hops : nat) (s : BfsState)
  : option (list string) :=
  match fuel with
  | O => None
  | S fuel =>
      match bf_queue s with
      | [] => Some (bf_result s)
      | (current, hops) :: queue =>
          let s := mkBfs (bf_visited s) (bf_result s) queue in
          if (max_hops <=? hops)%nat then bfs_loop fuel g mode max_hops s
          else bfs_loop fuel g mode max_hops (foldl (discover (S hops)) s (neighbors g mode current))
      end
  end.

(** Every identifier an adjacency list mentions: the search enqueues each at most once. *)
Definition listed (g : LineageGraph) : list string :=
  mjoin (map_to_list (lg_parents g)).*2 ++ mjoin (map_to_list (lg_children g)).*2.

Definition bfs (g : LineageGraph) (event_id : string) (max_hops : nat) (mode : BfsMode) : option (list string) :=
  bfs_loop (2 + length (listed g)) g mode max_hops (mkBfs {[event_id]} [] [(event_id, 0)]).

Definition ancestors (g : LineageGraph) (event_id : string) (max_hops : nat) := bfs g event_id max_hops Bfs_Ancestors.
Definition descendants (g : LineageGraph) (event_id : string) (max_hops : nat) := bfs g event_id max_hops Bfs_Descendants.
Definition both_directions (g : LineageGraph) (event_id : string) (max_hops : nat) := bfs g event_id max_hops Bfs_Both.

(** ** Specification *)

(** One hop, and the identifiers some path of exactly [n] hops leads to. *)
Definition hop (g : LineageGraph) (mode : BfsMode) (x y : string) : Prop := y ∈ neighbors g mode x.
Definition hops (g : LineageGraph) (mode : BfsMode) (n : nat) (x y : string) : Prop := nsteps (hop g mode) n x y.

(** ** The loop *)

Lemma NoDup_fst_unique {A B} (l : list (A * B)) x a b : NoDup l.*1 → (x, a) ∈ l → (x, b) ∈ l → a = b.
Proof.
  induction l as [|[y c] l IH]; simpl; [set_solver|]. rewrite NoDup_cons. intros [Hy Hn] Ha Hb.
  assert (∀ e, (y, e) ∉ l) as Hno by (intros e He; apply Hy; by apply (list_elem_of_fmap_2 fst) in He).
  apply elem_of_cons in Ha as [[= -> ->]|Ha], Hb as [[= ?]|Hb]; subst; try done; try (by destruct (Hno a)); try (by destruct (Hno b)).
  by apply IH.
Qed.

Section search.
Context (g : LineageGraph) (mode : BfsMode) (start : string) (max_hops : nat).

(** Everything ever enqueued, in order: what was processed, then the queue. *)
Definition trace (processed : list (string * nat)) (s : BfsState) : list (string * nat) := processed ++ bf_queue s.

Definition nearer (p q : string * nat) : Prop := p.2 ≤ q.2.

(** The loop has processed [processed] and finds nothing beyond distance [S h]. *)
Record searching (h : nat) (processed : list (string * nat)) (s : BfsState) : Prop := {
  sr_result : (trace processed s).*1 = start :: bf_result s;
  sr_head : (trace processed s) !! 0 = Some (start, 0);
  sr_visited : ∀ x, x ∈ bf_visited s ↔ x ∈ (trace processed s).*1;
  sr_nodup : NoDup (trace processed s).*1;
  sr_path : ∀ y d, (y, d) ∈ trace processed s → hops g mode d start y ∧ d ≤ max_hops;
  sr_sorted : StronglySorted nearer (trace processed s);
  sr_bound : ∀ p, p ∈ trace processed s → p.2 ≤ S h;
  sr_low : ∀ p, p ∈ bf_queue s → h ≤ p.2;
}.

(** The neighbours of what was processed were found, one hop further at most. *)
Definition closed (processed : list (string * nat)) (s : BfsState) : Prop :=
  ∀ x d y, (x, d) ∈ processed → d < max_hops → hop g mode x y →
    ∃ d', (y, d') ∈ trace processed s ∧ d' ≤ S d.

Lemma searching_init : searching 0 [] (mkBfs {[start]} [] [(start, 0)]).
Proof.
  split; unfold trace; simpl; try done.
  - set_solver.
  - repeat constructor; set_solver.
  - intros y d [= -> ->]%list_elem_of_singleton. split; [constructor|lia].
  - repeat constructor.
  - intros p ->%list_elem_of_singleton. simpl. lia.
  - intros p _. lia.
Qed.

(** One neighbour. *)
Lemma discover_searching h processed s n :
  searching h processed s → hops g mode (S h) start n → S h ≤ max_hops →
  let s' := discover (S h) s n in
  searching h processed s' ∧ trace processed s ⊆ trace processed s' ∧
  ∃ d, (n, d) ∈ trace processed s' ∧ d ≤ S h.
Proof.
  intros [Hr H0 Hv Hn Hp Hs Hb Hl] Hpath Hmax. unfold discover. case_decide as Hin.
  - split; [done|split; [done|]]. apply Hv, list_elem_of_fmap in Hin as ([y d] & -> & Hin).
    exists d. split; [done|]. by apply (Hb (y, d)).
  - rewrite Hv in Hin. unfold trace in *; simpl. rewrite !app_assoc.
    split; [|split; [set_solver|exists (S h); set_solver]].
    split; unfold trace; simpl; rewrite ?app_assoc.
    + by rewrite fmap_app, Hr.
    + by apply lookup_app_l_Some.
    + intros x. rewrite fmap_app, elem_of_union, elem_of_singleton, Hv, elem_of_app. simpl. set_solver.
    + rewrite fmap_app, NoDup_app. split; [done|split; [set_solver|apply NoDup_singleton]].
    + intros y d [?| [= -> ->]%list_elem_of_singleton]%elem_of_app; [by apply Hp|done].
    + apply StronglySorted_app_2; [|done|repeat constructor].
      intros p q Hp' ->%list_elem_of_singleton. by apply Hb.
    + intros p [?| ->%list_elem_of_singleton]%elem_of_app; [by apply Hb|done].
    + intros p [?| ->%list_elem_of_singleton]%elem_of_app; [by apply Hl|simpl; lia].
Qed.

(** All neighbours. *)
Lemma foldl_searching h processed ns s :
  searching h processed s → S h ≤ max_hops → (∀ n, n ∈ ns → hops g mode (S h) start n) →
  let s' := foldl (discover (S h)) s ns in
  searching h processed s' ∧ trace processed s ⊆ trace processed s' ∧
  ∀ n, n ∈ ns → ∃ d, (n, d) ∈ trace processed s' ∧ d ≤ S h.
Proof.
  revert s; induction ns as [|n ns IH]; intros s Hs Hmax Hns; simpl.
  - split; [done|split; [done|set_solver]].
  - destruct (discover_searching h processed s n) as (H1 & H2 & d & Hd & Hle); [done|set_solver|done|].
    destruct (IH (discover (S h) s n)) as (H3 & H4 & H5); [done|done|set_solver|].
    split; [done|split; [set_solver|]]. intros m [->|Hm]%elem_of_cons; [|by apply H5].
    exists d. split; [by apply H4|done].
Qed.

(** The head of the queue is processed: nothing nearer than it remains. *)
Lemma searching_pop h processed s c d queue :
  searching h processed s → bf_queue s = (c, d) :: queue →
  searching d (processed ++ [(c, d)]) (mkBfs (bf_visited s) (bf_result s) queue).
Proof.
  intros [Hr H0 Hv Hn Hp Hs Hb Hl] Hq. unfold trace in *. rewrite Hq in *.
  assert (h ≤ d) by (apply (Hl (c, d)); left).
  split; unfold trace; simpl; rewrite <- ?app_assoc; simpl; try done.
  - intros p Hin. specialize (Hb p Hin). lia.
  - intros p Hin. apply StronglySorted_app_1_r, StronglySorted_cons in Hs as [Hs _].
    rewrite Forall_forall in Hs. by apply (Hs p).
Qed.

(** Every identifier that is found is listed: there are no more of them than fuel. *)
Lemma entry_listed m x y : y ∈ entry m x → y ∈ mjoin (map_to_list m).*2.
Proof.
  unfold entry. destruct (m !! x) as [l|] eqn:Hl; simpl; [|set_solver]. intros Hy.
  apply list_elem_of_join. exists l. split; [done|]. apply list_elem_of_fmap.
  exists (x, l). split; [done|]. by apply elem_of_map_to_list.
Qed.
Lemma hop_listed x y : hop g mode x y → y ∈ listed g.
Proof.
  unfold hop, listed. rewrite elem_of_app. destruct mode; simpl; rewrite ?elem_of_app; intros H;
    [left|right|destruct H; [left|right]]; by eapply entry_listed.
Qed.
Lemma trace_length h processed s : searching h processed s → length processed ≤ 1 + length (listed g).
Proof.
  intros [Hr H0 Hv Hn Hp Hs Hb Hl].
  assert (length (trace processed s).*1 ≤ length (start :: listed g)) as Hlen.
  { apply submseteq_length, NoDup_submseteq; [done|]. intros y ([y' d] & -> & Hy)%list_elem_of_fmap.
    destruct (Hp _ _ Hy) as [Hpath _]. apply elem_of_cons. destruct d as [|d]; [left; by inversion Hpath|right].
    apply nsteps_inv_r in Hpath as (z & _ & Hz). by eapply hop_listed. }
  unfold trace in Hlen. rewrite length_fmap, length_app in Hlen. simpl in Hlen. lia.
Qed.

(** The loop with enough fuel returns, and what it returns was found by a search that
    is closed. *)
Lemma bfs_loop_closed fuel h processed s :
  searching h processed s → closed processed s →
  2 + length (listed g) ≤ fuel + length processed →
  ∃ h' processed' s', bfs_loop fuel g mode max_hops s = Some (bf_result s') ∧
    searching h' processed' s' ∧ closed processed' s' ∧ bf_queue s' = [].
Proof.
  revert h processed s; induction fuel as [|fuel IH]; intros h processed s Hs Hc Hf; simpl.
  - pose proof (trace_length _ _ _ Hs). lia.
  - destruct (bf_queue s) as [|[c d] queue] eqn:Hq; [by exists h, processed, s|].
    pose proof (searching_pop _ _ _ _ _ _ Hs Hq) as Hpop.
    assert (Htr : trace processed s = trace (processed ++ [(c, d)]) (mkBfs (bf_visited s) (bf_result s) queue)).
    { unfold trace. rewrite Hq. simpl. by rewrite <- app_assoc. }
    destruct (Nat.leb_spec max_hops d) as [Hd|Hd].
    + apply (IH d (processed ++ [(c, d)])); [done| |rewrite length_app; simpl; lia].
      intros x e y [Hx| [= -> ->]%list_elem_of_singleton]%elem_of_app He Hhop; [|lia].
      rewrite <- Htr. by apply (Hc x).
    + destruct (foldl_searching d (processed ++ [(c, d)]) (neighbors g mode c) _ Hpop) as (H1 & H2 & H3); [lia| |].
      { intros n Hn. apply nsteps_r with c; [|done].
        apply (sr_path _ _ _ Hpop). unfold trace. set_solver. }
      apply (IH d (processed ++ [(c, d)])); [done| |rewrite length_app; simpl; lia].
      intros x e y [Hx| [= -> ->]%list_elem_of_singleton]%elem_of_app He Hhop; [|by apply H3].
      destruct (Hc x e y Hx He Hhop) as (d' & Hd' & Hle). exists d'. split; [|done].
      apply H2. by rewrite <- Htr.
Qed.

(** Any path within the limit ends in what was found, no farther than the path is long. *)
Lemma closed_complete h processed s n y :
  searching h processed s → closed processed s → bf_queue s = [] → n ≤ max_hops → hops g mode n start y →
  ∃ d, (y, d) ∈ processed ∧ d ≤ n.
Proof.
  intros Hs Hc Hq. revert y; induction n as [|n IH]; intros y Hn Hpath.
  - inversion Hpath; subst. exists 0. split; [|done]. pose proof (sr_head _ _ _ Hs) as H0.
    unfold trace in H0. rewrite Hq, app_nil_r in H0. by eapply list_elem_of_lookup_2.
  - apply nsteps_inv_r in Hpath as (z & Hz & Hhop). destruct (IH z) as (d & Hd & Hle); [lia|done|].
    destruct (Hc z d y Hd) as (d' & Hd' & Hle'); [lia|done|]. exists d'. split; [|lia].
    unfold trace in Hd'. by rewrite Hq, app_nil_r in Hd'.
Qed.

(** What is found is what paths lead to. *)
Lemma result_reached h processed s :
  searching h processed s → closed processed s → bf_queue s = [] →
  ∀ y, y ∈ bf_result s ↔ y ≠ start ∧ ∃ n, n ≤ max_hops ∧ hops g mode n start y.
Proof.
  intros Hs Hc Hq y. pose proof (sr_result _ _ _ Hs) as Hr. pose proof (sr_nodup _ _ _ Hs) as Hn.
  pose proof (sr_path _ _ _ Hs) as Hp. unfold trace in *. rewrite Hq, app_nil_r in *.
  rewrite Hr, NoDup_cons in Hn. destruct Hn as [Hstart _]. split.
  - intros Hy. split; [by intros ->|].
    assert (y ∈ processed.*1) as ([x d] & -> & Hin)%list_elem_of_fmap by (rewrite Hr; by right).
    exists d. destruct (Hp x d Hin); done.
  - intros (Hne & n & Hle & Hpath).
    destruct (closed_complete h processed s n y Hs Hc Hq Hle Hpath) as (d & Hd & _).
    apply (list_elem_of_fmap_2 fst) in Hd. rewrite Hr in Hd. simpl in Hd. set_solver.
Qed.

(** What is found earlier is no farther. *)
Lemma result_nearest h processed s :
  searching h processed s → closed processed s → bf_queue s = [] →
  ∀ i j y z n, bf_result s !! i = Some y → bf_result s !! j = Some z → i < j → hops g mode n start z →
    ∃ m, m ≤ n ∧ hops g mode m start y.
Proof.
  intros Hs Hc Hq i j y z n Hi Hj Hij Hpath. pose proof (sr_result _ _ _ Hs) as Hr.
  pose proof (sr_path _ _ _ Hs) as Hp. pose proof (sr_sorted _ _ _ Hs) as Hsort. pose proof (sr_nodup _ _ _ Hs) as Hn.
  unfold trace in *. rewrite Hq, app_nil_r in *.
  assert (∀ k x, bf_result s !! k = Some x → ∃ d, processed !! S k = Some (x, d)) as Hlook.
  { intros k x Hk. change (bf_result s !! k) with ((start :: bf_result s) !! S k) in Hk. rewrite <- Hr in Hk.
    apply list_lookup_fmap_Some in Hk as ([x' d] & -> & Hk). by exists d. }
  destruct (Hlook i y Hi) as [dy Hy]. destruct (Hlook j z Hj) as [dz Hz].
  assert (dy ≤ dz) as Hle by (eapply (StronglySorted_lookup nearer processed (S i) (S j) (y, dy) (z, dz)); done || lia).
  exists dy. destruct (Hp y dy) as [Hpy _]; [by eapply list_elem_of_lookup_2|]. split; [|done].
  destruct (decide (n ≤ max_hops)) as [Hn'|Hn'].
  - destruct (closed_complete h processed s n z Hs Hc Hq Hn' Hpath) as (d & Hd & Hdn).
    rewrite (NoDup_fst_unique processed z d dz) in Hdn; [lia|done|done|by eapply list_elem_of_lookup_2].
  - destruct (Hp z dz) as [_ ?]; [by eapply list_elem_of_lookup_2|]. lia.
Qed.

(** The search returns. *)
Lemma bfs_search : ∃ h processed s, bfs g start max_hops mode = Some (bf_result s) ∧
  searching h processed s ∧ closed processed s ∧ bf_queue s = [].
Proof.
  destruct (bfs_loop_closed (2 + length (listed g)) 0 [] (mkBfs {[start]} [] [(start, 0)]))
    as (h & processed & s & H); [apply searching_init|intros x d y Hin; set_solver|simpl; lia|].
  by exists h, processed, s.
Qed.
Lemma bfs_reached result : bfs g start max_hops mode = Some result →
  ∀ y, y ∈ result ↔ y ≠ start ∧ ∃ n, n ≤ max_hops ∧ hops g mode n start y.
Proof.
  intros H. destruct bfs_search as (h & processed & s & Heq & Hs & Hc & Hq). simplify_eq.
  by apply (result_reached h processed).
Qed.
End search.

(** ** Theorems *)

(** The bounded search returns, without repetition, exactly the events other than
    the start that some path of at most [max_hops] edges leads to, in the direction
    asked for, and nearest first: whatever path leads to a later one, a path that is
    no longer leads to an earlier one. *)
Theorem bfs_exact g mode start max_hops :
  ∃ result, bfs g start max_hops mode = Some result ∧ NoDup result ∧
    (∀ y, y ∈ result ↔ y ≠ start ∧ ∃ n, n ≤ max_hops ∧ hops g mode n start y) ∧
    (∀ i j y z n, result !! i = Some y → result !! j = Some z → i < j → hops g mode n start z →
       ∃ m, m ≤ n ∧ hops g mode m start y).
Proof.
  destruct (bfs_search g mode start max_hops) as (h & processed & s & Heq & Hs & Hc & Hq).
  exists (bf_result s). split; [done|split; [|split]].
  - pose proof (sr_nodup _ _ _ _ _ _ _ Hs) as Hn. rewrite (sr_result _ _ _ _ _ _ _ Hs) in Hn.
    by apply NoDup_cons in Hn as [_ Hn].
  - apply (result_reached g mode start max_hops h processed s Hs Hc Hq).
  - apply (result_nearest g mode start max_hops h processed s Hs Hc Hq).
Qed.

(** *** Graphs that were built *)

Inductive GraphOp := AddEvent (event : ProvenanceEvent) | AddEdge (parent_id child_id : string).
Definition graph_op (g : LineageGraph) (o : GraphOp) : LineageGraph :=
  match o with AddEvent e => add_event e g | AddEdge p c => add_edge p c g end.
Definition build (ops : list GraphOp) : LineageGraph := foldl graph_op graph_new ops.

Lemma entry_insert m k x l : entry (<[k := l]> m) x = if decide (k = x) then l else entry m x.
Proof. unfold entry. case_decide; subst; [by rewrite lookup_insert_eq|by rewrite lookup_insert_ne]. Qed.

(** The adjacency lists are converse. *)
Definition converse (g : LineageGraph) : Prop :=
  ∀ p c, c ∈ entry (lg_children g) p ↔ p ∈ entry (lg_parents g) c.

Lemma graph_op_converse g o : converse g → converse (graph_op g o).
Proof.
  intros Hg p c. specialize (Hg p c). destruct o as [e|p' c']; simpl.
  - rewrite !entry_insert. repeat case_decide; subst; done.
  - unfold push_entry. rewrite !entry_insert. repeat case_decide; subst; rewrite ?elem_of_app; set_solver.
Qed.
Lemma build_converse ops : converse (build ops).
Proof.
  unfold build. assert (converse graph_new) as H by (intros p c; unfold entry; simpl; rewrite !lookup_empty; simpl; set_solver).
  revert H; generalize graph_new; induction ops as [|o ops IH]; intros g Hg; simpl; [done|].
  by apply IH, graph_op_converse.
Qed.

Lemma hops_converse g n x y : converse g → hops g Bfs_Ancestors n x y ↔ hops g Bfs_Descendants n y x.
Proof.
  intros Hg. revert x y; induction n as [|n IH]; intros x y; split; intros H; try (inversion H; subst; constructor).
  - apply nsteps_inv_r in H as (z & Hz & Hhop). apply nsteps_l with z; [by apply Hg|by apply IH].
  - apply nsteps_inv_r in H as (z & Hz & Hhop). apply nsteps_l with z; [by apply Hg|by apply IH].
Qed.

(** On every graph built by adding events and edges, in any order, ancestry within a
    number of hops is the converse of descent. *)
Theorem lineage_dual ops x y max_hops up down :
  ancestors (build ops) x max_hops = Some up → descendants (build ops) y max_hops = Some down →
  y ∈ up ↔ x ∈ down.
Proof.
  intros Hu Hd. rewrite (bfs_reached _ _ _ _ _ Hu), (bfs_reached _ _ _ _ _ Hd).
  setoid_rewrite (hops_converse _ _ x y (build_converse ops)). naive_solver.
Qed.

(** The search in both directions mixes them: it also follows edges up and then down,
    so it finds more than the ancestors and the descendants. *)
Theorem both_exceeds_union :
  let g := build [AddEdge "a" "b"; AddEdge "a" "c"] in
  both_directions g "b" 2 = Some ["a"; "c"] ∧ ancestors g "b" 2 = Some ["a"] ∧ descendants g "b" 2 = Some [].
Proof. by vm_compute. Qed.
