(* ===== verification/Transitions.v ===== *)
(** * State transition guards (crates/ferrum-store/src/transitions.rs)

    The four transition matrices the store enforces, an interface
    [TransitionGuard] they all implement, and the reachability theory of a guard:
    what the matrices promise about every sequence of accepted updates. *)

From S2P Require Import Prelude Proto.

(** ** The matrices *)

Definition capability_status_is_terminal (status : CapabilityStatus) : bool :=
  match status with
  | CS_Used | CS_Expired | CS_Revoked | CS_Quarantined => true
  | _ => false
  end.

Definition is_valid_capability_transition (from to : CapabilityStatus) : bool :=
  match from with
  | CS_Active =>
      match to with CS_Used | CS_Expired | CS_Revoked | CS_Quarantined => true | _ => false end
  | _ => false
  end.

Definition approval_state_is_terminal (state : ApprovalState) : bool :=
  match state with AS_Granted | AS_Denied | AS_Expired => true | _ => false end.

Definition is_valid_approval_transition (from to : ApprovalState) : bool :=
  match from with
  | AS_Pending => match to with AS_Granted | AS_Denied | AS_Expired => true | _ => false end
  | _ => false
  end.

Definition execution_state_is_terminal (state : ExecutionState) : bool :=
  match state with
  | ES_Committed | ES_Compensated | ES_RolledBack | ES_Denied | ES_Quarantined | ES_Failed
  | ES_Canceled => true
  | _ => false
  end.

Definition rollback_state_is_terminal (state : RollbackState) : bool :=
  match state with
  | RbS_Committed | RbS_Compensated | RbS_RolledBack | RbS_Failed | RbS_Expired => true
  | _ => false
  end.

Definition is_valid_rollback_transition (from to : RollbackState) : bool :=
  if rollback_state_is_terminal from then false
  else match from with
  | RbS_PendingPrepare => match to with RbS_Prepared | RbS_PendingPrepare => true | _ => false end
  | RbS_Prepared =>
      match to with
      | RbS_ExecutedAwaitingVerify | RbS_RecoveryRequired | RbS_Prepared => true
      | _ => false
      end
  | RbS_ExecutedAwaitingVerify =>
      match to with
      | RbS_Verified | RbS_Failed | RbS_Compensated | RbS_RecoveryRequired
      | RbS_ExecutedAwaitingVerify => true
      | _ => false
      end
  | RbS_RecoveryRequired =>
      match to with
      | RbS_ExecutedAwaitingVerify | RbS_Compensated | RbS_Failed | RbS_RecoveryRequired => true
      | _ => false
      end
  | RbS_Verified => match to with RbS_Committed => true | _ => false end
  | _ => false
  end.

Definition is_valid_execution_transition (from to : ExecutionState) : bool :=
  if execution_state_is_terminal from then false
  else match from with
  | ES_Proposed => match to with ES_Authorized | ES_Running | ES_Canceled => true | _ => false end
  | ES_Authorized => match to with ES_Running | ES_Canceled | ES_Authorized => true | _ => false end
  | ES_Prepared => match to with ES_Running | ES_Canceled | ES_Prepared => true | _ => false end
  | ES_Running =>
      match to with
      | ES_Committed | ES_Failed | ES_Compensated | ES_RecoveryRequired | ES_AwaitingVerification
      | ES_Running => true
      | _ => false
      end
  | ES_AwaitingVerification =>
      match to with
      | ES_Committed | ES_Failed | ES_Compensated | ES_RecoveryRequired
      | ES_AwaitingVerification => true
      | _ => false
      end
  | ES_RecoveryRequired =>
      match to with
      | ES_AwaitingVerification | ES_Compensated | ES_Failed | ES_RecoveryRequired => true
      | _ => false
      end
  | ES_AwaitingApproval => match to with ES_Canceled => true | _ => false end
  | _ => false
  end.

(** ** The interface of a guard *)

Class TransitionGuard (S : Type) := {
  tg_valid : S → S → bool;
  tg_terminal : S → bool;
  tg_absorbing : ∀ s t, tg_terminal s = true → tg_valid s t = false;
}.

#[export] Program Instance capability_guard : TransitionGuard CapabilityStatus :=
  {| tg_valid := is_valid_capability_transition; tg_terminal := capability_status_is_terminal |}.
Next Obligation. by intros [] []. Qed.
#[export] Program Instance approval_guard : TransitionGuard ApprovalState :=
  {| tg_valid := is_valid_approval_transition; tg_terminal := approval_state_is_terminal |}.
Next Obligation. by intros [] []. Qed.
#[export] Program Instance execution_guard : TransitionGuard ExecutionState :=
  {| tg_valid := is_valid_execution_transition; tg_terminal := execution_state_is_terminal |}.
Next Obligation. by intros [] []. Qed.
#[export] Program Instance rollback_guard : TransitionGuard RollbackState :=
  {| tg_valid := is_valid_rollback_transition; tg_terminal := rollback_state_is_terminal |}.
Next Obligation. by intros [] []. Qed.

(** ** Reachability under a guard *)

Section reachability.
Context {S : Type} `{!TransitionGuard S}.

(** The store accepted an update from [s] to [t]. *)
Definition tg_step (s t : S) : Prop := tg_valid s t = true.

(** Any finite sequence of accepted updates. *)
Definition tg_reach : S → S → Prop := rtc tg_step.

Lemma tg_terminal_stuck s t : tg_terminal s = true → tg_reach s t → t = s.
Proof.
  intros Hterm Hr. destruct Hr as [|s u t Hstep _]; [done|].
  unfold tg_step in Hstep. by rewrite tg_absorbing in Hstep.
Qed.

(** A set of states closed under the guard is never left. *)
Lemma tg_closed_reach (P : S → bool) :
  (∀ s t, P s = true → tg_valid s t = true → P t = true) →
  ∀ s t, P s = true → tg_reach s t → P t = true.
Proof. intros Hc s t Hs Hr. induction Hr as [|s u t Hstep _ IH]; eauto. Qed.

(** A path from inside [P] to outside it leaves through [gate], when [gate] is
    the only state outside [P] the guard lets [P] reach, apart from the states
    of [Q], which is closed. *)
Lemma tg_through_gate (P Q : S → bool) (gate : S) :
  (∀ s t, P s = true → tg_valid s t = true → P t = true ∨ Q t = true ∨ t = gate) →
  (∀ s t, Q s = true → tg_valid s t = true → Q t = true) →
  ∀ s t, P s = true → tg_reach s t → P t = false → Q t = false →
  tg_reach s gate ∧ tg_reach gate t.
Proof.
  intros HP HQ s t Hs Hr. induction Hr as [s|s u t Hstep Hrest IH]; intros Hnp Hnq.
  - congruence.
  - destruct (HP _ _ Hs Hstep) as [Hu | [Hu | ->]].
    + destruct (IH Hu Hnp Hnq) as [? ?]. split; [|done]. by eapply rtc_l.
    + exfalso. rewrite (tg_closed_reach Q HQ u t Hu Hrest) in Hnq. done.
    + split; [by apply rtc_once | done].
Qed.
End reachability.

(** ** What the execution and rollback matrices promise *)

Definition pre_dispatch (s : ExecutionState) : bool :=
  match s with ES_Proposed | ES_Authorized | ES_Prepared | ES_AwaitingApproval => true | _ => false end.

Definition execution_final (s : ExecutionState) : bool :=
  match s with
  | ES_Committed | ES_Compensated | ES_Failed | ES_AwaitingVerification | ES_RecoveryRequired => true
  | _ => false
  end.

Definition dispatched (s : ExecutionState) : bool :=
  match s with ES_Running => true | _ => execution_final s end.

Lemma execution_terminal_iff_stuck s :
  execution_state_is_terminal s = true ↔ ∀ t, is_valid_execution_transition s t = false.
Proof.
  split; [by destruct s; intros ? []|].
  intros Hall. destruct s; try done;
    [specialize (Hall ES_Running) | specialize (Hall ES_Running) | specialize (Hall ES_Running)
    |specialize (Hall ES_Running) | specialize (Hall ES_Canceled) | specialize (Hall ES_Failed)
    |specialize (Hall ES_Failed)]; done.
Qed.

Lemma dispatch_gate s t :
  pre_dispatch s = true → execution_final t = true → tg_reach s t →
  tg_reach s ES_Running ∧ tg_reach ES_Running t.
Proof.
  intros Hs Ht Hr.
  apply (tg_through_gate pre_dispatch (λ x, bool_decide (x = ES_Canceled)) ES_Running);
    [by intros [] []; simpl; auto | by intros [] [] | done | done | by destruct t | by destruct t].
Qed.

Lemma no_cancel_after_dispatch t : tg_reach ES_Running t → t ≠ ES_Canceled.
Proof.
  intros Hr.
  enough (dispatched t = true) by (by destruct t).
  apply (tg_closed_reach dispatched) with ES_Running; [by intros [] [] | done | done].
Qed.

(** an execution record that starts before dispatch (proposed, authorized,
    prepared or awaiting approval) can reach an outcome of a dispatched side
    effect (awaiting verification, recovery required, committed, compensated,
    failed) only through the state Running, never by skipping it; and a record
    that has reached Running can no longer be canceled, however many updates the
    store accepts. *)
Theorem execution_matrix_dispatch_gate s t :
  pre_dispatch s = true → tg_reach s t →
  (execution_final t = true → tg_reach s ES_Running ∧ tg_reach ES_Running t) ∧
  (tg_reach ES_Running t → t ≠ ES_Canceled).
Proof. intros Hs Hr. split; [intros; by apply dispatch_gate | apply no_cancel_after_dispatch]. Qed.

Lemma execution_matrix_dispatch_gate_witness :
  tg_reach ES_Authorized ES_Running ∧ tg_reach ES_Running ES_Committed.
Proof.
  apply (execution_matrix_dispatch_gate ES_Authorized ES_Committed); [reflexivity | | reflexivity].
  eapply rtc_l with ES_Running; [reflexivity|].
  eapply rtc_l with ES_AwaitingVerification; [reflexivity|].
  eapply rtc_l with ES_Committed; [reflexivity | apply rtc_refl].
Defined.

(** The contract states in which the side effect has been verified. *)
Definition rollback_verified (s : RollbackState) : bool :=
  match s with RbS_Verified | RbS_Committed => true | _ => false end.

Definition rollback_pre_execute (s : RollbackState) : bool :=
  match s with RbS_PendingPrepare | RbS_Prepared => true | _ => false end.

Lemma rollback_terminal_or_reserved_iff_stuck s :
  (rollback_state_is_terminal s = true ∨ s = RbS_CompensationPending) ↔
  ∀ t, is_valid_rollback_transition s t = false.
Proof.
  split.
  - intros [Hs | ->] t; [by destruct s, t | by destruct t].
  - intros Hall. destruct s; try (by left); try (by right);
      [specialize (Hall RbS_Prepared) | specialize (Hall RbS_Prepared) | specialize (Hall RbS_Failed)
      |specialize (Hall RbS_Failed) | specialize (Hall RbS_Committed)]; done.
Qed.

Lemma rollback_commit_gate_aux s :
  rollback_verified s = false → tg_reach s RbS_Committed →
  tg_reach s RbS_Verified.
Proof.
  intros Hs Hr.
  eapply (tg_through_gate (λ x, negb (rollback_verified x)) (λ _, false) RbS_Verified);
    [| | | exact Hr | |]; try done; [intros [] []; simpl; auto | by rewrite Hs].
Qed.

(** a rollback contract that is not yet verified can only become Committed
    by first becoming Verified, a Verified contract can only become Committed,
    and a contract that was compensated, rolled back or failed is never verified
    nor committed afterwards. *)
Theorem rollback_matrix_commit_gate s :
  tg_reach s RbS_Committed →
  (rollback_verified s = false → tg_reach s RbS_Verified) ∧
  (s ∉ [RbS_Compensated; RbS_RolledBack; RbS_Failed; RbS_Expired; RbS_CompensationPending]) ∧
  (∀ t, tg_step RbS_Verified t → t = RbS_Committed).
Proof.
  intros Hr. split_and!.
  - intros. by apply rollback_commit_gate_aux.
  - intros Hin. apply rtc_inv in Hr as [-> | (u & Hstep & _)]; [set_solver|].
    unfold tg_step in Hstep. simpl in Hstep.
    repeat (apply elem_of_cons in Hin as [-> | Hin]; [by destruct u|]). set_solver.
  - by intros [].
Qed.

Lemma rollback_matrix_commit_gate_witness : tg_reach RbS_Prepared RbS_Verified.
Proof.
  apply (rollback_matrix_commit_gate RbS_Prepared); [|reflexivity].
  eapply rtc_l with RbS_ExecutedAwaitingVerify; [reflexivity|].
  eapply rtc_l with RbS_Verified; [reflexivity|].
  eapply rtc_l with RbS_Committed; [reflexivity | apply rtc_refl].
Defined.
