(* ===== verification/Pdp.v ===== *)
(** * The policy decision point (crates/ferrum-pdp)

    [StaticPdpEngine] (engine.rs), the bundle rule evaluator (matchers.rs) and
    [PolicyBundlePdpEngine] (bundle_engine.rs), behind one interface [PdpEngine].
    The theorems give the rule evaluator a declarative specification (strictest
    decision among the matching rules of the highest matching priority), show
    which invariants the bundle engine guarantees, and prove that the shipped
    static-default bundle makes it decide exactly as the static engine. *)

From Stdlib Require Import String Sorted.
From S2P Require Import Prelude Json Proto.

(** ** engine.rs *)

Definition effect_type_name (e : EffectType) : string :=
  match e with
  | ET_ReadOnlyAnalysis => "ReadOnlyAnalysis" | ET_DraftCreation => "DraftCreation"
  | ET_FileMutation => "FileMutation" | ET_GitMutation => "GitMutation"
  | ET_DatabaseMutation => "DatabaseMutation" | ET_ExternalApiCall => "ExternalApiCall"
  | ET_ExternalCommunication => "ExternalCommunication" | ET_Scheduling => "Scheduling"
  | ET_AdministrativeChange => "AdministrativeChange"
  end.

(** [StaticPdpEngine::infer_effect_type]. *)
Definition infer_effect_type (proposal : ActionProposal) : EffectType :=
  let tool_name := str_to_lowercase (pr_tool_name proposal) in
  let server_name := str_to_lowercase (pr_server_name proposal) in
  let expected_effect := str_to_lowercase (pr_expected_effect proposal) in
  let tool w := str_contains w tool_name in
  let effect w := str_contains w expected_effect in
  if tool "sql" || tool "db" || tool "database" then ET_DatabaseMutation
  else if tool "git" || str_contains "git" server_name then ET_GitMutation
  else
    let has_file_word := effect "file" || effect "directory" || effect "folder" || effect "path" in
    let has_mutation_word :=
      effect "delete" || effect "remove" || effect "rename" || effect "move" || effect "create"
      || effect "write" || effect "modify" in
    if has_file_word && has_mutation_word then ET_FileMutation
    else if tool "http" || tool "api" || tool "fetch" then ET_ExternalApiCall
    else if tool "email" || tool "slack" || tool "message" || tool "send" then
      ET_ExternalCommunication
    else if tool "schedule" || tool "cron" || tool "timer" then ET_Scheduling
    else if tool "admin" || tool "user" || tool "permission" || tool "role" then
      ET_AdministrativeChange
    else if effect "draft" || effect "create" then ET_DraftCreation
    else match pr_requested_rollback_class proposal with
    | R0NativeReversible => ET_ReadOnlyAnalysis
    | R3IrreversibleHighConsequence => ET_AdministrativeChange
    | _ => ET_ReadOnlyAnalysis
    end.

(** [StaticPdpEngine::check_forbidden_outcomes]. *)
Fixpoint check_forbidden_outcomes (inferred : EffectType) (forbidden_outcomes : list OutcomeClause)
  : option string :=
  match forbidden_outcomes with
  | [] => None
  | clause :: rest =>
      if decide (inferred = oc_effect_type clause) then
        Some ("forbidden outcome detected: " +:+ oc_description clause +:+ " (effect_type="
              +:+ effect_type_name (oc_effect_type clause) +:+ ")")
      else check_forbidden_outcomes inferred rest
  end.

(** [StaticPdpEngine::check_allowed_outcomes]. *)
Definition check_allowed_outcomes (inferred : EffectType) (allowed_outcomes : list OutcomeClause)
  : option string :=
  match allowed_outcomes with
  | [] => None
  | _ =>
      if existsb (λ clause, bool_decide (inferred = oc_effect_type clause)) allowed_outcomes then None
      else Some ("advisory mismatch: inferred effect " +:+ effect_type_name inferred
                 +:+ " is not in allowed outcomes")
  end.

(** [!matches!(class, RollbackClass::R0NativeReversible)]. *)
Definition is_mutation (c : RollbackClass) : bool :=
  match c with R0NativeReversible => false | _ => true end.

(** [matches!(class, RollbackClass::R3IrreversibleHighConsequence)]. *)
Definition is_r3 (c : RollbackClass) : bool :=
  match c with R3IrreversibleHighConsequence => true | _ => false end.

(** [matches!(mode, ApprovalMode::DraftOnly)]. *)
Definition is_draft_only (m : ApprovalMode) : bool :=
  match m with AM_DraftOnly => true | _ => false end.

Definition scope_is_empty (intent : IntentEnvelope) : bool :=
  match in_resource_scope intent with [] => true | _ => false end.

Definition critical_without_approval (intent : IntentEnvelope) (proposal : ActionProposal) : bool :=
  bool_decide (pr_estimated_risk proposal = RT_Critical)
  && match in_approval_mode intent with AM_None => true | _ => false end.

Definition response (decision : Decision) (reason : string) (ids warnings : list string)
  : EvaluateProposalResponse :=
  {| epr_decision := decision; epr_reason := reason; epr_matched_rule_ids := ids;
     epr_warnings := warnings |}.

(** [StaticPdpEngine::evaluate]. *)
Definition static_evaluate (intent : IntentEnvelope) (proposal : ActionProposal)
    (trust : TrustContextSummary) : EvaluateProposalResponse :=
  let class := pr_requested_rollback_class proposal in
  if scope_is_empty intent && is_mutation class then
    response D_Deny "scope mismatch: no resources authorized for mutation action"
      ["scope.mismatch.empty.scope"] []
  else if critical_without_approval intent proposal then
    response D_RequireApproval "critical risk tier requires explicit approval mode"
      ["approval.critical.risk.required"] []
  else if (70 <=? tc_taint_score trust)%Z && is_mutation class then
    response D_Quarantine "taint score is too high for mutating or impactful action"
      ["quarantine.high.taint.mutation"] []
  else if is_r3 class then
    response D_RequireApproval "R3 action requires approval or draft-only handling"
      ["approval.r3.required"] []
  else if is_draft_only (in_approval_mode intent) then
    response D_AllowDraftOnly "intent requires draft-only execution" ["draft.only.intent"]
      ["intent enforces draft-only mode"]
  else
    let inferred_effect := infer_effect_type proposal in
    match check_forbidden_outcomes inferred_effect (in_forbidden_outcomes intent) with
    | Some reason => response D_Deny reason ["outcome.forbidden"] []
    | None =>
        let '(ids, warnings) :=
          match check_allowed_outcomes inferred_effect (in_allowed_outcomes intent) with
          | Some warning => (["outcome.advisory.mismatch"], [warning])
          | None => ([], [])
          end in
        response D_Allow "proposal passed default scaffold policy" (ids ++ ["allow.default"]) warnings
    end.

(** [StaticPdpEngine::evaluate_outcome]. *)
Definition static_evaluate_outcome (intent : IntentEnvelope) (report : OutcomeReport)
  : EvaluateOutcomeResponse :=
  match check_forbidden_outcomes (orp_actual_effect report) (in_forbidden_outcomes intent) with
  | Some reason =>
      {| eor_aligned := false; eor_reason := reason;
         eor_matched_rule_ids := ["outcome.forbidden"]; eor_warnings := [] |}
  | None =>
      let '(ids, warnings) :=
        match check_allowed_outcomes (orp_actual_effect report) (in_allowed_outcomes intent) with
        | Some warning => (["outcome.advisory.mismatch"], [warning])
        | None => ([], [])
        end in
      if negb (orp_adapter_success report) then
        {| eor_aligned := false; eor_reason := "adapter reported execution failure";
           eor_matched_rule_ids := ids ++ ["outcome.adapter.failure"]; eor_warnings := warnings |}
      else
        {| eor_aligned := true; eor_reason := "outcome matches intent expectations";
           eor_matched_rule_ids := ids ++ ["outcome.aligned"]; eor_warnings := warnings |}
  end.

(** The trait [PdpEngine]: both engines are total and never return an error. *)
Record PdpEngine := {
  pdp_evaluate : IntentEnvelope → ActionProposal → TrustContextSummary → EvaluateProposalResponse;
  pdp_evaluate_outcome : IntentEnvelope → OutcomeReport → EvaluateOutcomeResponse;
}.

Definition StaticPdpEngine : PdpEngine :=
  {| pdp_evaluate := static_evaluate; pdp_evaluate_outcome := static_evaluate_outcome |}.

(** ** matchers.rs *)

Definition decision_strictness_rank (decision : Decision) : Z :=
  match decision with
  | D_Allow => 0 | D_AllowDraftOnly => 1 | D_RequireApproval => 2 | D_Quarantine => 3 | D_Deny => 4
  end.

Definition stricter_decision (a b : Decision) : Decision :=
  if (decision_strictness_rank b <=? decision_strictness_rank a)%Z then a else b.

Section evaluation.
Context (intent : IntentEnvelope) (proposal : ActionProposal) (trust : TrustContextSummary).

Definition evaluate_matcher (matcher : Matcher) : bool :=
  match matcher with
  | M_ScopeMismatch => scope_is_empty intent && is_mutation (pr_requested_rollback_class proposal)
  | M_TaintAtLeast value => (value <=? tc_taint_score trust)%Z
  | M_ActionIsMutation => is_mutation (pr_requested_rollback_class proposal)
  | M_RollbackClassEquals value =>
      String.eqb (rollback_class_name (pr_requested_rollback_class proposal)) value
  | M_ActionTypeEquals value => String.eqb (effect_type_name (infer_effect_type proposal)) value
  | M_CriticalRiskNoApproval => critical_without_approval intent proposal
  | M_ApprovalModeEquals value => String.eqb (approval_mode_name (in_approval_mode intent)) value
  | M_Unknown _ => false
  end.

Definition evaluate_rule_matchers (rule : PolicyRule) : bool :=
  forallb evaluate_matcher (rule_matchers rule).

(** The text of a matched rule: its id and its reason. *)
Definition matched_rule_id (bundle_id : string) (rule : PolicyRule) : string :=
  "policy_bundle:" +:+ bundle_id +:+ ":" +:+ rule_id rule.
Definition matched_reason (bundle_id : string) (rule : PolicyRule) : string :=
  "policy bundle " +:+ bundle_id +:+ " matched rule " +:+ rule_id rule +:+ ": "
  +:+ rule_description rule.

(** The loop of [evaluate_bundle_rules]: [result] and [current_priority] are
    its mutable variables, the break ends the recursion. *)
Fixpoint evaluate_rules_loop (bundle_id : string) (rules : list PolicyRule)
    (result : option (string * Decision * string)) (current_priority : option Z)
  : option (string * Decision * string) :=
  match rules with
  | [] => result
  | rule :: rest =>
      if match current_priority with Some p => negb (p =? rule_priority rule)%Z | None => false end
         && match result with Some _ => true | None => false end
      then result
      else if evaluate_rule_matchers rule then
        let id := matched_rule_id bundle_id rule in
        let reason := matched_reason bundle_id rule in
        let result' :=
          match result with
          | Some (existing_id, existing_decision, _) =>
              (existing_id +:+ "+" +:+ id, stricter_decision existing_decision (rule_decision rule),
               reason)
          | None => (id, rule_decision rule, reason)
          end in
        evaluate_rules_loop bundle_id rest (Some result') (Some (rule_priority rule))
      else evaluate_rules_loop bundle_id rest result current_priority
  end.

Definition evaluate_bundle_rules (bundle : PolicyBundle) : option (string * Decision * string) :=
  evaluate_rules_loop (pb_bundle_id bundle) (sort_desc rule_priority (pb_rules bundle)) None None.
End evaluation.

Definition invariant_reason (rule_id : string) : string :=
  if String.eqb rule_id "invariant.scope_mismatch" then
    "scope mismatch: no resources authorized for mutation action"
  else if String.eqb rule_id "invariant.critical_risk_no_approval" then
    "critical risk tier requires explicit approval mode"
  else "invariant rule matched: " +:+ rule_id.

(** ** bundle_engine.rs *)

(** [BundleSource]: the bundles in evaluation order. *)
Definition BundleSource := list PolicyBundle.

Definition scope_mismatch_invariant : PolicyRule :=
  {| rule_id := "invariant.scope_mismatch";
     rule_description := "Deny mutating actions when no resource scope is declared";
     rule_decision := D_Deny; rule_priority := i32_max; rule_matchers := [M_ScopeMismatch] |}.
Definition critical_risk_invariant : PolicyRule :=
  {| rule_id := "invariant.critical_risk_no_approval";
     rule_description := "Critical risk with no approval mode requires approval";
     rule_decision := D_RequireApproval; rule_priority := i32_max - 1;
     rule_matchers := [M_CriticalRiskNoApproval] |}.

(** [PolicyBundlePdpEngine::invariant_rules]. *)
Definition invariant_rules : list PolicyRule := [scope_mismatch_invariant; critical_risk_invariant].

(** [augmented_bundle.rules.append(&mut invariants)]. *)
Definition augment (bundle : PolicyBundle) : PolicyBundle :=
  {| pb_bundle_id := pb_bundle_id bundle; pb_version := pb_version bundle;
     pb_rules := pb_rules bundle ++ invariant_rules; pb_active := pb_active bundle;
     pb_content_hash := pb_content_hash bundle; pb_created_at := pb_created_at bundle;
     pb_updated_at := pb_updated_at bundle |}.

(** [PolicyBundlePdpEngine::evaluate_bundle]. *)
Definition evaluate_bundle (bundle : PolicyBundle) (intent : IntentEnvelope)
    (proposal : ActionProposal) (trust : TrustContextSummary) : option EvaluateProposalResponse :=
  match evaluate_bundle_rules intent proposal trust (augment bundle) with
  | Some (id, decision, reason) =>
      let final_reason := if str_contains ":invariant." id then invariant_reason id else reason in
      Some (response decision final_reason [id] [])
  | None => None
  end.

(** [self.source.bundles().iter().find_map(..)]. *)
Fixpoint find_bundle_match (source : BundleSource) (intent : IntentEnvelope)
    (proposal : ActionProposal) (trust : TrustContextSummary) : option EvaluateProposalResponse :=
  match source with
  | [] => None
  | bundle :: rest =>
      match evaluate_bundle bundle intent proposal trust with
      | Some r => Some r
      | None => find_bundle_match rest intent proposal trust
      end
  end.

(** The outcome post-pass of [PolicyBundlePdpEngine::evaluate]. *)
Definition outcome_post_pass (intent : IntentEnvelope) (proposal : ActionProposal)
    (r : EvaluateProposalResponse) : EvaluateProposalResponse :=
  if decide (epr_decision r = D_Allow) then
    let inferred_effect := infer_effect_type proposal in
    match check_forbidden_outcomes inferred_effect (in_forbidden_outcomes intent) with
    | Some reason => response D_Deny reason ["outcome.forbidden"] (epr_warnings r)
    | None =>
        match check_allowed_outcomes inferred_effect (in_allowed_outcomes intent) with
        | Some warning =>
            response D_Allow (epr_reason r) (epr_matched_rule_ids r ++ ["outcome.advisory.mismatch"])
              (epr_warnings r ++ [warning])
        | None => r
        end
    end
  else r.

(** [PolicyBundlePdpEngine::evaluate]. *)
Definition bundle_evaluate (source : BundleSource) (intent : IntentEnvelope)
    (proposal : ActionProposal) (trust : TrustContextSummary) : EvaluateProposalResponse :=
  outcome_post_pass intent proposal
    (default (response D_Allow "no policy bundle rule matched; default allow" ["allow.default"] [])
       (find_bundle_match source intent proposal trust)).

Definition PolicyBundlePdpEngine (source : BundleSource) : PdpEngine :=
  {| pdp_evaluate := bundle_evaluate source; pdp_evaluate_outcome := static_evaluate_outcome |}.

(** ** Decisions form a join semilattice *)

Lemma rank_inj a b : decision_strictness_rank a = decision_strictness_rank b → a = b.
Proof. by destruct a, b. Qed.

Lemma stricter_decision_spec a b :
  (stricter_decision a b = a ∨ stricter_decision a b = b) ∧
  (decision_strictness_rank a ≤ decision_strictness_rank (stricter_decision a b))%Z ∧
  (decision_strictness_rank b ≤ decision_strictness_rank (stricter_decision a b))%Z.
Proof. destruct a, b; vm_compute; repeat split; auto; discriminate. Qed.

(** ** The rule evaluator meets its declarative specification *)

Section spec.
Context (intent : IntentEnvelope) (proposal : ActionProposal) (trust : TrustContextSummary).
Abbreviation matches := (evaluate_rule_matchers intent proposal trust).
Abbreviation rank := decision_strictness_rank.

(** [d] is the decision of a matching rule of the highest matching priority,
    and the strictest one there. *)
Definition bundle_verdict (rules : list PolicyRule) (d : Decision) : Prop :=
  ∃ r, r ∈ rules ∧ matches r = true ∧ rule_decision r = d ∧
    ∀ r', r' ∈ rules → matches r' = true →
      (rule_priority r' ≤ rule_priority r)%Z ∧
      (rule_priority r' = rule_priority r → (rank (rule_decision r') ≤ rank d)%Z).

Lemma bundle_verdict_unique rules d d' :
  bundle_verdict rules d → bundle_verdict rules d' → d = d'.
Proof.
  intros (r & Hin & Hm & <- & Hr) (r' & Hin' & Hm' & <- & Hr').
  destruct (Hr _ Hin' Hm') as [Hle1 Hrank1], (Hr' _ Hin Hm) as [Hle2 Hrank2].
  apply rank_inj, Z.le_antisymm; [apply Hrank2 | apply Hrank1]; lia.
Qed.

Lemma bundle_verdict_perm rules rules' d :
  rules ≡ₚ rules' → bundle_verdict rules d → bundle_verdict rules' d.
Proof.
  intros Hp (r & Hin & Hm & Hd & Hall). exists r. rewrite <- Hp. split_and!; [done..|].
  intros r' Hin'. apply Hall. by rewrite Hp.
Qed.

(** Once a rule of priority [p] has matched, the loop joins the decisions of
    the remaining matching rules of priority [p] and ignores the others. *)
Lemma rules_loop_group bid rules : ∀ id d reason p,
  desc_sorted rule_priority rules → (∀ r, r ∈ rules → (rule_priority r ≤ p)%Z) →
  ∃ id' d' reason',
    evaluate_rules_loop intent proposal trust bid rules (Some (id, d, reason)) (Some p)
      = Some (id', d', reason') ∧
    (rank d ≤ rank d')%Z ∧
    (∀ r, r ∈ rules → matches r = true → rule_priority r = p →
          (rank (rule_decision r) ≤ rank d')%Z) ∧
    (d' = d ∨ ∃ r, r ∈ rules ∧ matches r = true ∧ rule_priority r = p ∧ rule_decision r = d').
Proof.
  induction rules as [|r rules IH]; intros id d reason p Hs Hp; simpl.
  { exists id, d, reason. split_and!; [done | lia | set_solver | by left]. }
  apply StronglySorted_inv in Hs as [Hs Hhd]. rewrite Forall_forall in Hhd.
  assert (∀ r', r' ∈ rules → (rule_priority r' ≤ p)%Z) as Hp' by set_solver.
  destruct (Z.eqb_spec p (rule_priority r)) as [-> | Hne]; simpl.
  2:{ exists id, d, reason. split_and!; [done | lia | | by left].
      intros r' [-> | Hin]%elem_of_cons Hm Heq; [done|].
      specialize (Hhd r' Hin). specialize (Hp r ltac:(set_solver)). simpl in Hhd. lia. }
  destruct (matches r) eqn:Hm.
  - destruct (IH (id +:+ "+" +:+ matched_rule_id bid r) (stricter_decision d (rule_decision r))
                (matched_reason bid r) (rule_priority r) Hs Hp')
      as (id' & d' & reason' & Heq & Hle & Hall & Hor).
    destruct (stricter_decision_spec d (rule_decision r)) as (Hsel & Hl1 & Hl2).
    exists id', d', reason'. split_and!; [done | lia | | ].
    + intros r' [-> | Hin]%elem_of_cons ??; [lia | by apply Hall].
    + destruct Hor as [-> | (r' & ? & ? & ? & ?)].
      * destruct Hsel as [-> | Hsel]; [by left | right].
        exists r. split_and!; [set_solver | done | done | done].
      * right. exists r'. split_and!; [set_solver | done..].
  - destruct (IH id d reason (rule_priority r) Hs Hp') as (id' & d' & reason' & Heq & Hle & Hall & Hor).
    exists id', d', reason'. split_and!; [done | done | | ].
    + intros r' [-> | Hin]%elem_of_cons ??; [congruence | by apply Hall].
    + destruct Hor as [-> | (r' & ? & ? & ? & ?)]; [by left|].
      right. exists r'. split_and!; [set_solver | done..].
Qed.

Lemma rules_loop_spec bid rules :
  desc_sorted rule_priority rules →
  match evaluate_rules_loop intent proposal trust bid rules None None with
  | None => ∀ r, r ∈ rules → matches r = false
  | Some (_, d, _) => bundle_verdict rules d
  end.
Proof.
  induction rules as [|r rules IH]; intros Hs; simpl; [set_solver|].
  apply StronglySorted_inv in Hs as [Hs Hhd]. rewrite Forall_forall in Hhd.
  destruct (matches r) eqn:Hm.
  - destruct (rules_loop_group bid rules (matched_rule_id bid r) (rule_decision r)
                (matched_reason bid r) (rule_priority r) Hs Hhd)
      as (id' & d' & reason' & -> & Hle & Hall & Hor).
    destruct Hor as [-> | (r0 & Hin & Hm0 & Hp0 & Hd0)].
    + exists r. split_and!; [set_solver | done | done |].
      intros r' [-> | Hin]%elem_of_cons Hm'; [lia|]. split; [by apply Hhd | by apply Hall].
    + exists r0. split_and!; [set_solver | done | done |].
      intros r' [-> | Hin']%elem_of_cons Hm'; [lia|].
      split; [rewrite Hp0; by apply Hhd | intros; apply Hall; congruence].
  - specialize (IH Hs). case_match; [|set_solver]. destruct p as [[??] ?].
    destruct IH as (r0 & Hin & Hm0 & Hd0 & Hall). exists r0. split_and!; [set_solver | done | done |].
    intros r' [-> | Hin']%elem_of_cons Hm'; [congruence | by apply Hall].
Qed.

Lemma evaluate_bundle_rules_verdict bundle :
  match evaluate_bundle_rules intent proposal trust bundle with
  | None => ∀ r, r ∈ pb_rules bundle → matches r = false
  | Some (_, d, _) => bundle_verdict (pb_rules bundle) d
  end.
Proof.
  pose proof (rules_loop_spec (pb_bundle_id bundle) (sort_desc rule_priority (pb_rules bundle))
                (sort_desc_sorted _ _)) as H.
  pose proof (sort_desc_perm rule_priority (pb_rules bundle)) as Hp.
  unfold evaluate_bundle_rules. case_match.
  - destruct p as [[??]?]. by eapply bundle_verdict_perm.
  - intros r Hin. apply H. by rewrite Hp.
Qed.
End spec.

(** ** The shipped bundle (configs/policy-bundles/static-default.yaml) *)

Definition static_default_yaml : YamlPolicyBundle :=
  {| yb_version := "0.1.0"; yb_bundle_id := "static-default";
     yb_rules :=
       [{| yr_id := "quarantine.high.taint.mutation";
           yr_description := "Quarantine mutating actions with high taint";
           yr_decision := "Quarantine"; yr_priority := 90;
           yr_matchers := [{| ym_matcher_type := "taint_at_least"; ym_value := Some (JInt 70) |};
                           {| ym_matcher_type := "action_is_mutation"; ym_value := None |}] |};
        {| yr_id := "approval.r3.required"; yr_description := "Require approval for R3 actions";
           yr_decision := "RequireApproval"; yr_priority := 80;
           yr_matchers := [{| ym_matcher_type := "rollback_class_equals";
                              ym_value := Some (JStr "R3IrreversibleHighConsequence") |}] |};
        {| yr_id := "draft.only.intent";
           yr_description := "Force draft-only execution when intent approval mode is DraftOnly";
           yr_decision := "AllowDraftOnly"; yr_priority := 70;
           yr_matchers := [{| ym_matcher_type := "approval_mode_equals";
                              ym_value := Some (JStr "DraftOnly") |}] |};
        {| yr_id := "allow.default"; yr_description := "Default allow when no other rule matches";
           yr_decision := "Allow"; yr_priority := 0; yr_matchers := [] |}] |}.

Definition static_default_bundle (content_hash : PolicyBundle → string) (now : Timestamp)
  : PolicyBundle :=
  into_policy_bundle content_hash now static_default_yaml.

(** Its rules after augmentation and sorting: the order the loop visits. *)
Lemma static_default_sorted h now :
  (λ r, (rule_decision r, rule_priority r, rule_matchers r)) <$>
    sort_desc rule_priority (pb_rules (augment (static_default_bundle h now))) =
  [(D_Deny, i32_max, [M_ScopeMismatch]);
   (D_RequireApproval, (i32_max - 1)%Z, [M_CriticalRiskNoApproval]);
   (D_Quarantine, 90%Z, [M_TaintAtLeast 70; M_ActionIsMutation]);
   (D_RequireApproval, 80%Z, [M_RollbackClassEquals "R3IrreversibleHighConsequence"]);
   (D_AllowDraftOnly, 70%Z, [M_ApprovalModeEquals "DraftOnly"]);
   (D_Allow, 0%Z, [])].
Proof. by_eval. Qed.

(** The first matching rule of a list whose priorities strictly decrease. *)
Fixpoint first_match (f : list Matcher → bool) (l : list (Decision * Z * list Matcher))
  : option Decision :=
  match l with
  | [] => None
  | (d, _, ms) :: l' => if f ms then Some d else first_match f l'
  end.

Lemma strictly_decreasing_first_match intent proposal trust bid rules :
  StronglySorted (λ x y, (rule_priority y < rule_priority x)%Z) rules →
  (λ x, x.1.2) <$> evaluate_rules_loop intent proposal trust bid rules None None =
  first_match (forallb (evaluate_matcher intent proposal trust))
    ((λ r, (rule_decision r, rule_priority r, rule_matchers r)) <$> rules).
Proof.
  induction 1 as [|r rules Hs IH Hall]; simpl; [done|].
  fold (evaluate_rule_matchers intent proposal trust r).
  destruct (evaluate_rule_matchers intent proposal trust r); [|done].
  destruct Hall as [|r' rules Hlt]; simpl; [done|].
  destruct (Z.eqb_spec (rule_priority r) (rule_priority r')); [lia | done].
Qed.

Lemma strictly_decreasing_by_priorities (rules : list PolicyRule) l :
  rule_priority <$> rules = l →
  StronglySorted (λ x y, (y < x)%Z) l →
  StronglySorted (λ x y, (rule_priority y < rule_priority x)%Z) rules.
Proof.
  revert l. induction rules as [|r rules IH]; intros l Hl Hs; [constructor|].
  destruct l; [done|]. injection Hl as <- Hl. apply StronglySorted_inv in Hs as [Hs Hall].
  constructor; [by eapply IH|]. rewrite <- Hl in Hall. by rewrite Forall_fmap in Hall.
Qed.

Lemma static_default_decision h now intent proposal trust :
  epr_decision <$> evaluate_bundle (static_default_bundle h now) intent proposal trust =
  first_match (forallb (evaluate_matcher intent proposal trust))
    [(D_Deny, i32_max, [M_ScopeMismatch]);
     (D_RequireApproval, (i32_max - 1)%Z, [M_CriticalRiskNoApproval]);
     (D_Quarantine, 90%Z, [M_TaintAtLeast 70; M_ActionIsMutation]);
     (D_RequireApproval, 80%Z, [M_RollbackClassEquals "R3IrreversibleHighConsequence"]);
     (D_AllowDraftOnly, 70%Z, [M_ApprovalModeEquals "DraftOnly"]);
     (D_Allow, 0%Z, [])].
Proof.
  rewrite <- (static_default_sorted h now).
  rewrite <- (strictly_decreasing_first_match intent proposal trust "static-default").
  - unfold evaluate_bundle, evaluate_bundle_rules.
    change (pb_bundle_id (augment (static_default_bundle h now))) with "static-default".
    case_match; [|done]. by destruct p as [[??]?].
  - eapply strictly_decreasing_by_priorities; [by_eval|].
    repeat constructor.
Qed.

Lemma r3_name_iff c :
  String.eqb (rollback_class_name c) "R3IrreversibleHighConsequence" = is_r3 c.
Proof. by destruct c. Qed.

Lemma draft_only_name_iff m :
  String.eqb (approval_mode_name m) "DraftOnly" = is_draft_only m.
Proof. by destruct m. Qed.

Lemma evaluate_bundle_no_warnings b intent proposal trust r :
  evaluate_bundle b intent proposal trust = Some r → epr_warnings r = [].
Proof. unfold evaluate_bundle. intros. split_matches. Qed.

(** C16: with the shipped static-default bundle the bundle engine decides every
    proposal, of any intent, risk, rollback class and trust context, exactly as the
    static engine does, and gives the same warnings whenever the decision is not
    draft-only (the static engine adds a draft-only notice of its own). *)
Theorem static_default_parity h now intent proposal trust :
  let r := pdp_evaluate (PolicyBundlePdpEngine [static_default_bundle h now]) intent proposal trust in
  let s := pdp_evaluate StaticPdpEngine intent proposal trust in
  epr_decision r = epr_decision s ∧
  (epr_decision s ≠ D_AllowDraftOnly → epr_warnings r = epr_warnings s).
Proof.
  simpl. unfold bundle_evaluate. cbn [find_bundle_match].
  pose proof (static_default_decision h now intent proposal trust) as Hd.
  pose proof (evaluate_bundle_no_warnings (static_default_bundle h now) intent proposal trust) as Hw.
  destruct (evaluate_bundle _ _ _ _) as [r|]; simpl in Hd.
  2:{ exfalso. split_matches. }
  specialize (Hw r eq_refl). simpl.
  rewrite !andb_true_r, r3_name_iff, draft_only_name_iff in Hd.
  unfold outcome_post_pass, static_evaluate.
  destruct (scope_is_empty intent && is_mutation _); [injection Hd as Hd; rewrite Hd; by split|].
  destruct (critical_without_approval intent proposal); [injection Hd as Hd; rewrite Hd; by split|].
  destruct ((70 <=? _)%Z && is_mutation _); [injection Hd as Hd; rewrite Hd; by split|].
  destruct (is_r3 _); [injection Hd as Hd; rewrite Hd; by split|].
  destruct (is_draft_only _); [injection Hd as Hd; rewrite Hd; by split|].
  injection Hd as Hd. rewrite Hd. simpl.
  destruct (check_forbidden_outcomes _ _); simpl; [by rewrite Hw|].
  destruct (check_allowed_outcomes _ _); simpl; by rewrite ?Hw, ?Hd.
Qed.

(** ** Which invariants the bundle engine guarantees *)

Definition priorities_i32 (b : PolicyBundle) : Prop :=
  ∀ r, r ∈ pb_rules b → (- i32_max - 1 ≤ rule_priority r ≤ i32_max)%Z.

Lemma evaluate_bundle_verdict b intent proposal trust :
  match evaluate_bundle b intent proposal trust with
  | None => ∀ r, r ∈ pb_rules b ++ invariant_rules → evaluate_rule_matchers intent proposal trust r = false
  | Some resp => bundle_verdict intent proposal trust (pb_rules b ++ invariant_rules) (epr_decision resp)
  end.
Proof.
  pose proof (evaluate_bundle_rules_verdict intent proposal trust (augment b)) as H.
  unfold evaluate_bundle. destruct (evaluate_bundle_rules _ _ _ _) as [[[??]?]|]; [exact H | exact H].
Qed.

(** A matching invariant makes its bundle answer; [bundle_evaluate] keeps an
    answer that is not Allow. *)
Lemma bundle_evaluate_head b bs intent proposal trust inv :
  inv ∈ invariant_rules → evaluate_rule_matchers intent proposal trust inv = true →
  ∃ d, bundle_verdict intent proposal trust (pb_rules b ++ invariant_rules) d ∧
    (d ≠ D_Allow → epr_decision (bundle_evaluate (b :: bs) intent proposal trust) = d).
Proof.
  intros Hin Hm. pose proof (evaluate_bundle_verdict b intent proposal trust) as H.
  unfold bundle_evaluate. cbn [find_bundle_match].
  destruct (evaluate_bundle b intent proposal trust) as [r|].
  - exists (epr_decision r). split; [exact H|]. intros Hne. simpl. unfold outcome_post_pass.
    by rewrite decide_False.
  - specialize (H inv ltac:(set_solver)). congruence.
Qed.

(** the scope invariant cannot be overridden: when the intent declares no
    resource scope and the proposal is a mutation, the bundle engine denies, for
    every non-empty bundle source whose priorities are 32-bit integers, whatever
    its rules. *)
Theorem scope_invariant_enforced b bs intent proposal trust :
  priorities_i32 b →
  evaluate_matcher intent proposal trust M_ScopeMismatch = true →
  epr_decision (bundle_evaluate (b :: bs) intent proposal trust) = D_Deny.
Proof.
  intros Hp Hm.
  assert (evaluate_rule_matchers intent proposal trust scope_mismatch_invariant = true) as Hinv
    by (unfold evaluate_rule_matchers; simpl in *; by rewrite Hm).
  assert (scope_mismatch_invariant ∈ invariant_rules) as Hin by (by left).
  destruct (bundle_evaluate_head b bs intent proposal trust _ Hin Hinv) as (d & Hv & Hd).
  enough (d = D_Deny) as -> by by apply Hd.
  eapply bundle_verdict_unique; [exact Hv|].
  exists scope_mismatch_invariant. split_and!; [set_solver | done | done |].
  intros r' Hr' _. split.
  - apply elem_of_app in Hr' as [Hr' | Hr']; [by apply Hp|].
    repeat (apply elem_of_cons in Hr' as [-> | Hr']; [by vm_compute|]). set_solver.
  - intros _. destruct (rule_decision r'); by vm_compute.
Qed.

(** C17: the critical-risk invariant holds exactly below the top priority: when a
    critical-risk proposal meets an intent without approval mode, the decision
    is at least as strict as RequireApproval, provided that every rule of the first
    bundle which matches at priority [i32::MAX] is itself at least that strict. *)
Theorem critical_risk_invariant_enforced b bs intent proposal trust :
  priorities_i32 b →
  critical_without_approval intent proposal = true →
  (∀ r, r ∈ pb_rules b → rule_priority r = i32_max →
        evaluate_rule_matchers intent proposal trust r = true →
        (2 ≤ decision_strictness_rank (rule_decision r))%Z) →
  (2 ≤ decision_strictness_rank (epr_decision (bundle_evaluate (b :: bs) intent proposal trust)))%Z.
Proof.
  intros Hp Hm Htop.
  assert (evaluate_rule_matchers intent proposal trust critical_risk_invariant = true) as Hinv
    by (unfold evaluate_rule_matchers; simpl; by rewrite Hm).
  assert (critical_risk_invariant ∈ invariant_rules) as Hin by (right; by left).
  destruct (bundle_evaluate_head b bs intent proposal trust _ Hin Hinv) as (d & Hv & Hd).
  enough (2 ≤ decision_strictness_rank d)%Z as Hd2.
  { rewrite Hd; [done|]. by intros ->. }
  destruct Hv as (r & Hr & Hmr & <- & Hall).
  destruct (Hall critical_risk_invariant ltac:(set_solver) Hinv) as [Hle Heq].
  apply elem_of_app in Hr as [Hr | Hr].
  - destruct (Z.eq_dec (rule_priority r) i32_max); [by apply Htop|].
    apply Heq. specialize (Hp r Hr). change (rule_priority critical_risk_invariant) with (i32_max - 1)%Z in *.
    lia.
  - repeat (apply elem_of_cons in Hr as [-> | Hr]; [by vm_compute|]). set_solver.
Qed.

(** ** Concrete contexts *)

Module Examples.
Definition trust0 : TrustContextSummary :=
  {| tc_input_labels := []; tc_sensitivity_labels := []; tc_taint_score := 0;
     tc_contains_external_metadata := false; tc_contains_tool_output := false;
     tc_contains_untrusted_text := false |}.

Definition intent0 (scope : list ResourceSelector) : IntentEnvelope :=
  {| in_intent_id := "intent"; in_principal_id := "p"; in_session_id := None;
     in_channel_id := None; in_title := ""; in_goal := ""; in_normalized_goal := "";
     in_allowed_outcomes := []; in_forbidden_outcomes := []; in_resource_scope := scope;
     in_risk_tier := RT_Critical; in_approval_mode := AM_None;
     in_default_rollback_class := R1SnapshotRecoverable;
     in_time_budget := {| tb_max_duration_ms := 1; tb_max_steps := 1; tb_max_retries_per_step := 1 |};
     in_trust_context := trust0; in_derived_from_event_ids := []; in_tags := [];
     in_metadata := []; in_status := IS_Active; in_created_at := 0; in_expires_at := 1;
     in_owner_actor_id := None |}.

Definition proposal0 : ActionProposal :=
  {| pr_proposal_id := "proposal"; pr_intent_id := "intent"; pr_step_index := 0; pr_title := "";
     pr_tool_name := "db.execute"; pr_server_name := "db"; pr_raw_arguments := JObj [];
     pr_expected_effect := "execute database query"; pr_estimated_risk := RT_Critical;
     pr_requested_rollback_class := R1SnapshotRecoverable; pr_taint_inputs := [];
     pr_metadata := []; pr_created_at := 0; pr_owner_actor_id := None |}.

Definition tmp_scope : list ResourceSelector := [RS_FilesystemPath "/tmp" RM_Write None].

(** A bundle with one rule that allows everything, at priority [p]. *)
Definition allow_all_bundle (p : Z) : PolicyBundle :=
  {| pb_bundle_id := "override-attempt"; pb_version := "0.1.0";
     pb_rules := [{| rule_id := "allow.all"; rule_description := "allow"; rule_decision := D_Allow;
                     rule_priority := p; rule_matchers := [] |}];
     pb_active := true; pb_content_hash := None; pb_created_at := 0; pb_updated_at := 0 |}.

Lemma allow_all_i32 p : (0 ≤ p ≤ i32_max)%Z → priorities_i32 (allow_all_bundle p).
Proof. intros Hp r Hr. apply list_elem_of_singleton in Hr as ->. simpl. lia. Qed.
End Examples.
Import Examples.

Lemma scope_invariant_enforced_witness :
  epr_decision (bundle_evaluate [allow_all_bundle i32_max] (intent0 []) proposal0 trust0) = D_Deny.
Proof.
  apply scope_invariant_enforced; [apply allow_all_i32; vm_compute; split; discriminate | reflexivity].
Defined.

Lemma critical_risk_invariant_enforced_witness :
  (2 ≤ decision_strictness_rank (epr_decision
     (bundle_evaluate [allow_all_bundle (i32_max - 1)] (intent0 tmp_scope) proposal0 trust0)))%Z.
Proof.
  apply critical_risk_invariant_enforced; [apply allow_all_i32; vm_compute; split; discriminate | reflexivity |].
  intros r Hr. apply list_elem_of_singleton in Hr as ->. intros Hr. vm_compute in Hr. discriminate.
Defined.

(** The critical-risk invariant is not unconditional: an operator rule that
    allows everything at priority [i32::MAX] makes the bundle engine allow a
    critical-risk proposal under an intent without approval mode, where the static
    engine requires approval. *)
Theorem critical_risk_invariant_overridable :
  priorities_i32 (allow_all_bundle i32_max) ∧
  critical_without_approval (intent0 tmp_scope) proposal0 = true ∧
  epr_decision (bundle_evaluate [allow_all_bundle i32_max] (intent0 tmp_scope) proposal0 trust0)
    = D_Allow ∧
  epr_decision (static_evaluate (intent0 tmp_scope) proposal0 trust0) = D_RequireApproval.
Proof. split; [apply allow_all_i32; vm_compute; split; discriminate | repeat split; by_eval]. Qed.

(** The decision component of the rule evaluator. *)
Definition rules_decision intent proposal trust (b : PolicyBundle) : option Decision :=
  (λ x, x.1.2) <$> evaluate_bundle_rules intent proposal trust b.

Lemma rules_decision_some intent proposal trust b d :
  rules_decision intent proposal trust b = Some d ↔ bundle_verdict intent proposal trust (pb_rules b) d.
Proof.
  pose proof (evaluate_bundle_rules_verdict intent proposal trust b) as H. unfold rules_decision.
  destruct (evaluate_bundle_rules _ _ _ _) as [[[id d'] reason]|]; simpl.
  - split; [by intros [= <-]|]. intros Hv. f_equal. by eapply bundle_verdict_unique.
  - split; [done|]. intros (r & Hin & Hm & _). rewrite H in Hm; done.
Qed.

(** C15: the rule evaluator refines its declarative specification: it decides [d]
    iff [d] is the strictest decision among the matching rules of the highest
    priority that has a match, it gives no decision iff no rule matches, and its
    decision does not depend on the order in which the bundle lists its rules. *)
Theorem evaluate_bundle_rules_refines intent proposal trust b :
  (∀ d, rules_decision intent proposal trust b = Some d ↔
        bundle_verdict intent proposal trust (pb_rules b) d) ∧
  (rules_decision intent proposal trust b = None ↔
   ∀ r, r ∈ pb_rules b → evaluate_rule_matchers intent proposal trust r = false) ∧
  (∀ b', pb_rules b ≡ₚ pb_rules b' →
         rules_decision intent proposal trust b = rules_decision intent proposal trust b').
Proof.
  split_and!.
  - intros d. apply rules_decision_some.
  - pose proof (evaluate_bundle_rules_verdict intent proposal trust b) as H. unfold rules_decision.
    destruct (evaluate_bundle_rules _ _ _ _) as [[[id d'] reason]|]; simpl; [|done].
    split; [done|]. destruct H as (r & Hin & Hm & _). intros Hall. rewrite Hall in Hm; done.
  - intros b' Hp. apply option_eq. intros d. rewrite !rules_decision_some.
    split; apply bundle_verdict_perm; by rewrite Hp.
Qed.

Lemma check_forbidden_none e cs :
  check_forbidden_outcomes e cs = None ↔ ∀ c, c ∈ cs → oc_effect_type c ≠ e.
Proof.
  induction cs as [|c cs IH]; simpl; [set_solver|]. case_decide as Hd.
  - split; [done|]. intros Hall. by destruct (Hall c ltac:(set_solver)).
  - rewrite IH. set_solver.
Qed.

(** An execution's outcome is reported as aligned exactly when the adapter
    succeeded and no forbidden outcome of the intent has the actual effect type;
    the allowed outcomes only ever add a warning. *)
Theorem evaluate_outcome_aligned_iff intent report :
  eor_aligned (static_evaluate_outcome intent report) = true ↔
  orp_adapter_success report = true ∧
  ∀ c, c ∈ in_forbidden_outcomes intent → oc_effect_type c ≠ orp_actual_effect report.
Proof.
  rewrite <- check_forbidden_none. unfold static_evaluate_outcome.
  destruct (check_forbidden_outcomes _ _); simpl; [naive_solver|].
  destruct (check_allowed_outcomes _ _), (orp_adapter_success report); naive_solver.
Qed.
