(* ===== verification/CapService.v ===== *)
(** * The in-memory capability service (crates/ferrum-cap/src/service.rs)

    [InMemoryCapabilityService] keeps a map from capability ids to leases behind a
    lock; every method holds it for its whole body, so each is one atomic step on
    the map.  The clock reading and the fresh identifiers of a call are
    arguments.  [CapabilityService] is the interface the gateway uses. *)

From S2P Require Import Prelude Json Proto Transitions.

Inductive CapabilityError :=
| CE_NotFound | CE_AlreadyUsed | CE_Revoked | CE_Expired | CE_TtlTooLong | CE_Internal.

#[export] Instance CapabilityError_eq_dec : EqDecision CapabilityError.
Proof. solve_decision. Defined.

Definition capability_error_text (e : CapabilityError) : string :=
  match e with
  | CE_NotFound => "capability not found"
  | CE_AlreadyUsed => "capability already used"
  | CE_Revoked => "capability revoked"
  | CE_Expired => "capability expired"
  | CE_TtlTooLong => "requested ttl exceeds max allowed"
  | CE_Internal => "capability service internal error"
  end.

(** [InMemoryCapabilityService::inner]. *)
Abbreviation CapMap := (gmap string CapabilityLease).

(** The lease [mint] builds. *)
Definition mint_lease (capability_id policy_bundle_id : string) (now : Timestamp)
    (request : CapabilityMintRequest) : CapabilityLease :=
  {| cl_capability_id := capability_id;
     cl_intent_id := mr_intent_id request;
     cl_proposal_id := mr_proposal_id request;
     cl_tool_binding := mr_tool_binding request;
     cl_resource_bindings := mr_resource_bindings request;
     cl_argument_constraints := mr_argument_constraints request;
     cl_taint_budget := mr_taint_budget request;
     cl_approval_binding := mr_approval_binding request;
     cl_issued_by := "ferrum-cap";
     cl_policy_bundle_id := policy_bundle_id;
     cl_tool_manifest_id := None;
     cl_manifest_hash := None;
     cl_status := CS_Active;
     cl_issued_at := now;
     cl_expires_at := (now + seconds (mr_requested_ttl_secs request))%Z;
     cl_revoked_at := None;
     cl_metadata := mr_metadata request;
     cl_owner_actor_id := None |}.

Definition cap_mint (capability_id policy_bundle_id : string) (now : Timestamp)
    (request : CapabilityMintRequest) (m : CapMap)
  : result CapabilityMintResponse CapabilityError * CapMap :=
  if (300 <? mr_requested_ttl_secs request)%Z then (Err CE_TtlTooLong, m)
  else
    let lease := mint_lease capability_id policy_bundle_id now request in
    (Ok {| mresp_lease := lease; mresp_warnings := [] |}, <[capability_id := lease]> m).

Definition cap_get (capability_id : CapabilityId) (now : Timestamp) (m : CapMap)
  : result CapabilityLease CapabilityError :=
  match m !! capability_id with
  | None => Err CE_NotFound
  | Some lease =>
      match cl_status lease with
      | CS_Revoked => Err CE_Revoked
      | _ => if (cl_expires_at lease <? now)%Z then Err CE_Expired else Ok lease
      end
  end.

Definition cap_mark_used (capability_id : CapabilityId) (now : Timestamp) (m : CapMap)
  : result CapabilityLease CapabilityError * CapMap :=
  match m !! capability_id with
  | None => (Err CE_NotFound, m)
  | Some lease =>
      match cl_status lease with
      | CS_Used => (Err CE_AlreadyUsed, m)
      | CS_Revoked => (Err CE_Revoked, m)
      | _ =>
          if (cl_expires_at lease <? now)%Z then (Err CE_Expired, m)
          else let lease' := cl_set_status CS_Used lease in
               (Ok lease', <[capability_id := lease']> m)
      end
  end.

Definition cap_revoke (capability_id : CapabilityId) (now : Timestamp) (m : CapMap)
  : result CapabilityLease CapabilityError * CapMap :=
  match m !! capability_id with
  | None => (Err CE_NotFound, m)
  | Some lease =>
      let lease' := cl_set_revoked_at now (cl_set_status CS_Revoked lease) in
      (Ok lease', <[capability_id := lease']> m)
  end.

(** ** The interface the clients of the service rely on

    An implementation over a state [S]: its operations and what the trait
    promises about them. [cs_spent m id] says that [id] can no longer be used. *)
Class CapabilityService (S : Type) := {
  cs_mint : string → string → Timestamp → CapabilityMintRequest → S →
            result CapabilityMintResponse CapabilityError * S;
  cs_get : CapabilityId → Timestamp → S → result CapabilityLease CapabilityError;
  cs_mark_used : CapabilityId → Timestamp → S → result CapabilityLease CapabilityError * S;
  cs_revoke : CapabilityId → Timestamp → S → result CapabilityLease CapabilityError * S;
  cs_known : S → CapabilityId → Prop;
  cs_spent : S → CapabilityId → Prop;
  cs_spent_known : ∀ m id, cs_spent m id → cs_known m id;
  cs_mark_spent : ∀ id now m, is_ok (cs_mark_used id now m).1 = true →
                  ¬ cs_spent m id ∧ cs_spent (cs_mark_used id now m).2 id;
  cs_revoke_spent : ∀ id now m, is_ok (cs_revoke id now m).1 = true →
                    cs_spent (cs_revoke id now m).2 id;
  cs_spent_mono_mint : ∀ cid pid now r m id, ¬ cs_known m cid → cs_spent m id →
                       cs_spent (cs_mint cid pid now r m).2 id;
  cs_spent_mono_mark : ∀ cid now m id, cs_spent m id → cs_spent (cs_mark_used cid now m).2 id;
  cs_spent_mono_revoke : ∀ cid now m id, cs_spent m id → cs_spent (cs_revoke cid now m).2 id;
}.

Definition lease_spent (l : CapabilityLease) : bool :=
  match cl_status l with CS_Used | CS_Revoked => true | _ => false end.

Definition spent (m : CapMap) (id : CapabilityId) : Prop :=
  ∃ l, m !! id = Some l ∧ lease_spent l = true.

Lemma spent_insert m id k l :
  spent m id → (id = k → lease_spent l = true) → spent (<[k := l]> m) id.
Proof.
  intros (l0 & Hm & Hs) Hk. destruct (decide (id = k)) as [-> | Hne].
  - exists l. rewrite lookup_insert_eq. auto.
  - exists l0. by rewrite lookup_insert_ne.
Qed.

#[export] Program Instance in_memory_capability_service : CapabilityService CapMap :=
  {| cs_mint := cap_mint; cs_get := cap_get; cs_mark_used := cap_mark_used;
     cs_revoke := cap_revoke; cs_known m id := is_Some (m !! id); cs_spent := spent |}.
Next Obligation. intros m id (l & Hm & _). by exists l. Qed.
Next Obligation.
  intros id now m. unfold cap_mark_used, spent.
  destruct (m !! id) as [l|] eqn:Hm; [|done].
  destruct (cl_status l) eqn:Hs; simpl; try done; case_match; try done; intros _.
  all: split; [intros (l' & [= <-] & Hl'); unfold lease_spent in Hl'; by rewrite Hs in Hl'|].
  all: simpl; eexists; rewrite lookup_insert_eq; done.
Qed.
Next Obligation.
  intros id now m. unfold cap_revoke, spent. destruct (m !! id); [|done].
  intros _. simpl. eexists. rewrite lookup_insert_eq. done.
Qed.
Next Obligation.
  intros cid pid now r m id Hk Hs. unfold cap_mint. case_match; [done|]. simpl.
  apply spent_insert; [done|]. intros ->. destruct Hs as (l & Hm & _). by destruct Hk.
Qed.
Next Obligation.
  intros cid now m id Hs. unfold cap_mark_used. split_matches; by apply spent_insert.
Qed.
Next Obligation.
  intros cid now m id Hs. unfold cap_revoke. split_matches; by apply spent_insert.
Qed.

(** ** Traces of calls *)

Inductive CapCall :=
| Call_mint (capability_id policy_bundle_id : string) (request : CapabilityMintRequest)
| Call_get (id : CapabilityId)
| Call_mark_used (id : CapabilityId)
| Call_revoke (id : CapabilityId).

Section traces.
Context {S : Type} `{!CapabilityService S}.

(** One call at clock reading [now]: whether it succeeded, and the new state. *)
Definition cap_step (c : CapCall) (now : Timestamp) (m : S) : bool * S :=
  match c with
  | Call_mint cid pid r => let '(r, m') := cs_mint cid pid now r m in (is_ok r, m')
  | Call_get id => (is_ok (cs_get id now m), m)
  | Call_mark_used id => let '(r, m') := cs_mark_used id now m in (is_ok r, m')
  | Call_revoke id => let '(r, m') := cs_revoke id now m in (is_ok r, m')
  end.

(** Fresh identifiers: a mint never reuses one the service knows. *)
Definition call_fresh (c : CapCall) (m : S) : Prop :=
  match c with Call_mint cid _ _ => ¬ cs_known m cid | _ => True end.

(** A trace from [m]: the calls with their clock readings and outcomes. *)
Inductive cap_trace : S → list (CapCall * Timestamp * bool) → S → Prop :=
| trace_nil m : cap_trace m [] m
| trace_cons m c now ok m1 tr m2 :
    call_fresh c m → cap_step c now m = (ok, m1) → cap_trace m1 tr m2 →
    cap_trace m ((c, now, ok) :: tr) m2.

Definition consumes (id : CapabilityId) (e : CapCall * Timestamp * bool) : bool :=
  match e with (Call_mark_used id', _, true) => bool_decide (id' = id) | _ => false end.

Definition revokes (id : CapabilityId) (e : CapCall * Timestamp * bool) : bool :=
  match e with (Call_revoke id', _, true) => bool_decide (id' = id) | _ => false end.

Lemma cap_step_spent c now m id :
  call_fresh c m → cs_spent m id → cs_spent (cap_step c now m).2 id.
Proof.
  destruct c as [cid pid r | id' | id' | id']; simpl; intros Hf Hs; [| done | |].
  - pose proof (cs_spent_mono_mint cid pid now r m id Hf Hs). by destruct (cs_mint _ _ _ _ _).
  - pose proof (cs_spent_mono_mark id' now m id Hs). by destruct (cs_mark_used _ _ _).
  - pose proof (cs_spent_mono_revoke id' now m id Hs). by destruct (cs_revoke _ _ _).
Qed.

Lemma cap_step_consumes c now m ok m' id :
  cap_step c now m = (ok, m') → consumes id (c, now, ok) = true →
  ¬ cs_spent m id ∧ cs_spent m' id.
Proof.
  destruct c as [ | | id' | ]; simpl; try done.
  pose proof (cs_mark_spent id' now m) as H. destruct (cs_mark_used id' now m) as [r m1].
  intros [= <- <-] Hc. destruct r; simpl in *; [|done]. apply bool_decide_eq_true in Hc as ->. auto.
Qed.

Lemma cap_step_revokes c now m ok m' id :
  cap_step c now m = (ok, m') → revokes id (c, now, ok) = true → cs_spent m' id.
Proof.
  destruct c as [ | | | id' ]; simpl; try done.
  pose proof (cs_revoke_spent id' now m) as H. destruct (cs_revoke id' now m) as [r m1].
  intros [= <- <-] Hc. destruct r; simpl in *; [|done]. apply bool_decide_eq_true in Hc as ->. auto.
Qed.

(** A spent capability is never consumed again. *)
Lemma trace_spent m tr m' id :
  cap_trace m tr m' → cs_spent m id → Forall (λ e, consumes id e = false) tr.
Proof.
  induction 1 as [m | m c now ok m1 tr m2 Hf Hstep Htr IH]; intros Hs; constructor.
  - destruct (consumes id (c, now, ok)) eqn:Hc; [|done].
    by destruct (cap_step_consumes _ _ _ _ _ _ Hstep Hc).
  - apply IH. pose proof (cap_step_spent c now m id Hf Hs) as H. by rewrite Hstep in H.
Qed.
End traces.

Arguments cap_trace {S} {_} _ _ _.

(** A capability is single-use: in every sequence of calls to a capability
    service (mints draw fresh identifiers), at most one [mark_used] of a given
    capability succeeds, and none succeeds after the capability was revoked.
    Proved for every implementation of the interface. *)
Theorem capability_single_use {S} `{!CapabilityService S} (m m' : S) tr1 e tr2 id :
  cap_trace m (tr1 ++ e :: tr2) m' → consumes id e || revokes id e = true →
  Forall (λ e', consumes id e' = false) tr2.
Proof.
  revert m. induction tr1 as [|e1 tr1 IH]; intros m Htr Hc; simpl in Htr.
  - inversion Htr as [|? c now ok m1 ? ? Hf Hstep Htr' ]; subst.
    eapply trace_spent; [exact Htr'|].
    apply orb_true_iff in Hc as [Hc | Hc];
      [by eapply cap_step_consumes | by eapply cap_step_revokes].
  - inversion Htr as [|? c now ok m1 ? ? Hf Hstep Htr' ]; subst. by eapply IH.
Qed.

Definition mint_request0 : CapabilityMintRequest :=
  {| mr_intent_id := "i"; mr_proposal_id := "p";
     mr_tool_binding := {| tb_server_name := "s"; tb_tool_name := "t"; tb_tool_version := None |};
     mr_resource_bindings := []; mr_argument_constraints := [];
     mr_taint_budget := {| tbu_max_taint_score := 0; tbu_allow_external_tool_output := false;
                           tbu_allow_external_metadata := false; tbu_allow_untrusted_text := false |};
     mr_approval_binding := None; mr_requested_ttl_secs := 60; mr_metadata := [] |}.

Lemma capability_single_use_witness :
  Forall (λ e, consumes "c" e = false) [(Call_mark_used "c", 2%Z, false)].
Proof.
  eapply (capability_single_use (∅ : CapMap) _ [(Call_mint "c" "b" mint_request0, 0%Z, true)]
            (Call_mark_used "c", 1%Z, true) [(Call_mark_used "c", 2%Z, false)] "c").
  - simpl. repeat (eapply trace_cons; [| reflexivity |]); [by intros [? ?] | done | done |].
    apply trace_nil.
  - reflexivity.
Defined.

(** a minted capability is active, unowned, lives at most five minutes, and
    is refused by [get] and [mark_used] from the first instant after its expiry;
    a request for more than five minutes is refused and mints nothing. *)
Theorem mint_bounded_lifetime cid pid now request m now' :
  (0 ≤ mr_requested_ttl_secs request)%Z →
  match cap_mint cid pid now request m with
  | (Ok resp, m') =>
      let l := mresp_lease resp in
      cap_get cid now m' = Ok l ∧ cl_status l = CS_Active ∧ cl_owner_actor_id l = None ∧
      (cl_expires_at l ≤ cl_issued_at l + seconds 300)%Z ∧
      ((cl_expires_at l < now')%Z →
       cap_get cid now' m' = Err CE_Expired ∧ cap_mark_used cid now' m' = (Err CE_Expired, m'))
  | (Err e, m') => e = CE_TtlTooLong ∧ (300 < mr_requested_ttl_secs request)%Z ∧ m' = m
  end.
Proof.
  intros Hpos. unfold cap_mint.
  destruct (Z.ltb_spec 300 (mr_requested_ttl_secs request)) as [Hlt | Hle]; [done|].
  unfold cap_get, cap_mark_used. simpl. rewrite lookup_insert_eq. simpl. unfold seconds.
  split_and!; [|done|done|lia|].
  - destruct (Z.ltb_spec (now + mr_requested_ttl_secs request * 1000000000) now); [lia | done].
  - intros Hlt. by rewrite (proj2 (Z.ltb_lt _ _) Hlt).
Qed.

Lemma mint_bounded_lifetime_witness :
  cap_get "c" (seconds 61) (cap_mint "c" "b" 0 mint_request0 ∅).2 = Err CE_Expired.
Proof.
  apply (mint_bounded_lifetime "c" "b" 0 mint_request0 ∅ (seconds 61));
    [vm_compute; discriminate | vm_compute; reflexivity].
Defined.
