(* ===== verification/Store.v ===== *)
(** * The SQLite store (crates/ferrum-store/src/sqlite)

    The database is a record of tables.  A row of an entity table is the record in
    its [raw_json] column: every statement below writes the indexed columns its
    [WHERE] clauses test together with that record, with the same values.  A row
    of the outbox has the reconciliation lease columns besides.  Timestamps are
    stored as RFC 3339 text in UTC, whose order is that of the instants.

    Each definition is one statement or one transaction: it runs atomically, and
    a transaction that returns an error leaves the database as it was.  Primary
    key, uniqueness and foreign key violations are [SE_Database] errors.  The
    store's methods that use several statements outside a transaction are
    programs over these (file Effects).

    The last part holds the read-only statements of the listings. *)

From stdpp Require Import sorting.
From stdpp Require Import sorting pretty.
From S2P Require Import Prelude Json Proto Admin Transitions.

(** ** Tables *)

Record OutboxRow := mkOutboxRow {
  row_record : LifecycleOutboxRecord;
  row_lease_owner : option string;
  row_lease_expires_at : option Timestamp;
  row_lease_generation : Z;
}.

Record EdgeRow := {
  er_to_event_id : EventId;
  er_from_event_id : EventId;
  er_edge_type : ProvenanceEdgeType;
  er_summary : option string;
}.

(** [AuditLogEntry]; the action and the resource type are their stored text. *)
Record AuditLogEntry := mkAuditLogEntry {
  al_id : Z;
  al_actor_id : string;
  al_action : string;
  al_resource_type : string;
  al_resource_id : string;
  al_result : string;
  al_metadata : option json;
  al_created_at : Timestamp;
  al_content_hash : option string;
  al_previous_hash : option string;
}.

Record Db := mkDb {
  db_intents : gmap string IntentEnvelope;
  db_proposals : gmap string ActionProposal;
  db_capabilities : gmap string CapabilityLease;
  db_executions : gmap string ExecutionRecord;
  db_contracts : gmap string RollbackContract;
  db_approvals : gmap string ApprovalRequest;
  db_outbox : gmap string OutboxRow;
  db_events : list ProvenanceEvent;
  db_edges : list EdgeRow;
  db_audit_log : list AuditLogEntry;
  db_holds : gmap string QuarantineHold;
  db_admin : AdminTables;
}.

Definition set_intents t (d : Db) : Db :=
  let '(mkDb _ b c e f g h i j k l m) := d in mkDb t b c e f g h i j k l m.
Definition set_proposals t (d : Db) : Db :=
  let '(mkDb a _ c e f g h i j k l m) := d in mkDb a t c e f g h i j k l m.
Definition set_capabilities t (d : Db) : Db :=
  let '(mkDb a b _ e f g h i j k l m) := d in mkDb a b t e f g h i j k l m.
Definition set_executions t (d : Db) : Db :=
  let '(mkDb a b c _ f g h i j k l m) := d in mkDb a b c t f g h i j k l m.
Definition set_contracts t (d : Db) : Db :=
  let '(mkDb a b c e _ g h i j k l m) := d in mkDb a b c e t g h i j k l m.
Definition set_approvals t (d : Db) : Db :=
  let '(mkDb a b c e f _ h i j k l m) := d in mkDb a b c e f t h i j k l m.
Definition set_outbox t (d : Db) : Db :=
  let '(mkDb a b c e f g _ i j k l m) := d in mkDb a b c e f g t i j k l m.
Definition set_events t (d : Db) : Db :=
  let '(mkDb a b c e f g h _ j k l m) := d in mkDb a b c e f g h t j k l m.
Definition set_edges t (d : Db) : Db :=
  let '(mkDb a b c e f g h i _ k l m) := d in mkDb a b c e f g h i t k l m.
Definition set_audit_log t (d : Db) : Db :=
  let '(mkDb a b c e f g h i j _ l m) := d in mkDb a b c e f g h i j t l m.
Definition set_holds t (d : Db) : Db :=
  let '(mkDb a b c e f g h i j k _ m) := d in mkDb a b c e f g h i j k t m.
Definition set_admin t (d : Db) : Db :=
  let '(mkDb a b c e f g h i j k l _) := d in mkDb a b c e f g h i j k l t.

(** A statement or transaction: its result and the database after it. *)
Abbreviation stmt A := (Db → result A StoreError * Db).

Definition unique_violation (column : string) : StoreError :=
  SE_Database ("UNIQUE constraint failed: " +:+ column).
Definition foreign_key_violation : StoreError := SE_Database "FOREIGN KEY constraint failed".

(** Sequencing inside a transaction, and the transaction itself. *)
Definition then_ {A B} (s : stmt A) (k : A → stmt B) : stmt B := λ d,
  match s d with (Ok a, d') => k a d' | (Err e, d') => (Err e, d') end.
Notation "'do!' x <- s ; k" := (then_ s (λ x, k))
  (at level 10, x name, s at level 100, k at level 200) : rust_scope.
Definition return_ {A} (a : A) : stmt A := λ d, (Ok a, d).
Definition fail_ {A} (e : StoreError) : stmt A := λ d, (Err e, d).
Definition transaction {A} (s : stmt A) : stmt A := λ d,
  match s d with (Ok a, d') => (Ok a, d') | (Err e, _) => (Err e, d) end.

Definition has {A} (k : string) (m : gmap string A) : bool := bool_decide (is_Some (m !! k)).

Definition has_event (id : EventId) (d : Db) : bool :=
  existsb (λ e, String.eqb (ev_event_id e) id) (db_events d).

(** ** Reads *)

Definition sql_get {A} (table : Db → gmap string A) (id : string) : stmt (option A) :=
  λ d, (Ok (table d !! id), d).

(** A statement over the administrative tables. *)
Definition sql_admin {A} (s : astmt A) : stmt A := λ d,
  let '(r, a) := s (db_admin d) in (r, set_admin a d).

(** ** intents.rs, proposals.rs *)

(** [SqliteIntentRepo::insert]. *)
Definition insert_intent (i : IntentEnvelope) : stmt unit := λ d,
  if has (in_intent_id i) (db_intents d) then (Err (unique_violation "intents.intent_id"), d)
  else (Ok tt, set_intents (<[in_intent_id i := i]> (db_intents d)) d).

(** [SqliteProposalRepo::insert]. *)
Definition insert_proposal (p : ActionProposal) : stmt unit := λ d,
  if has (pr_proposal_id p) (db_proposals d) then (Err (unique_violation "proposals.proposal_id"), d)
  else if negb (has (pr_intent_id p) (db_intents d)) then (Err foreign_key_violation, d)
  else (Ok tt, set_proposals (<[pr_proposal_id p := p]> (db_proposals d)) d).

(** ** capabilities.rs *)

(** The status of a lease that is still active and unexpired at [now] is set. *)
Definition sql_capability_set_status_if_active (id : CapabilityId) (status : CapabilityStatus)
    (now : Timestamp) : stmt bool := λ d,
  match db_capabilities d !! id with
  | Some l =>
      if bool_decide (cl_status l = CS_Active) && (now <? cl_expires_at l)%Z then
        (Ok true, set_capabilities (<[id := cl_set_status status l]> (db_capabilities d)) d)
      else (Ok false, d)
  | None => (Ok false, d)
  end.

(** [SqliteCapabilityRepo::update_status_if_active]. *)
Definition update_status_if_active := sql_capability_set_status_if_active.

(** [SqliteCapabilityRepo::revoke_if_active]. *)
Definition revoke_if_active (id : CapabilityId) (revoked_at : Timestamp) : stmt bool := λ d,
  match db_capabilities d !! id with
  | Some l =>
      if bool_decide (cl_status l = CS_Active) && (revoked_at <? cl_expires_at l)%Z then
        (Ok true, set_capabilities
           (<[id := cl_set_revoked_at revoked_at (cl_set_status CS_Revoked l)]> (db_capabilities d)) d)
      else (Ok false, d)
  | None => (Ok false, d)
  end.

(** [SqliteCapabilityRepo::insert]. *)
Definition insert_capability (l : CapabilityLease) : stmt unit := λ d,
  if has (cl_capability_id l) (db_capabilities d) then
    (Err (unique_violation "capabilities.capability_id"), d)
  else if negb (has (cl_intent_id l) (db_intents d) && has (cl_proposal_id l) (db_proposals d)) then
    (Err foreign_key_violation, d)
  else (Ok tt, set_capabilities (<[cl_capability_id l := l]> (db_capabilities d)) d).

(** [SqliteCapabilityRepo::update]: no row is touched when the id is unknown. *)
Definition update_capability (l : CapabilityLease) : stmt unit := λ d,
  if has (cl_capability_id l) (db_capabilities d) then
    (Ok tt, set_capabilities (<[cl_capability_id l := l]> (db_capabilities d)) d)
  else (Ok tt, d).

(** ** executions.rs *)

(** The [INSERT INTO executions] statement. *)
Definition sql_insert_execution (e : ExecutionRecord) : stmt unit := λ d,
  if has (ex_execution_id e) (db_executions d) then
    (Err (unique_violation "executions.execution_id"), d)
  else if negb (has (ex_intent_id e) (db_intents d) && has (ex_proposal_id e) (db_proposals d)
                && has (ex_capability_id e) (db_capabilities d)) then
    (Err foreign_key_violation, d)
  else (Ok tt, set_executions (<[ex_execution_id e := e]> (db_executions d)) d).

(** [UPDATE executions .. WHERE execution_id = ? AND state = ?]: true when one
    row was updated. *)
Definition sql_update_execution_where (e : ExecutionRecord) (expected : ExecutionState)
  : stmt bool := λ d,
  match db_executions d !! ex_execution_id e with
  | Some e0 =>
      if decide (ex_state e0 = expected) then
        (Ok true, set_executions (<[ex_execution_id e := e]> (db_executions d)) d)
      else (Ok false, d)
  | None => (Ok false, d)
  end.

(** [SqliteExecutionRepo::compare_and_set_state]. *)
Definition compare_and_set_state (id : ExecutionId) (expected_states : list ExecutionState)
    (new_state : ExecutionState) (now : Timestamp) : stmt bool := λ d,
  match expected_states with
  | [] => (Ok false, d)
  | _ =>
      match db_executions d !! id with
      | Some e =>
          if bool_decide (ex_state e ∈ expected_states) then
            let e' := ex_set_state new_state e in
            let e'' := if execution_state_is_terminal new_state
                       then ex_set_finished_at (Some now) e' else e' in
            (Ok true, set_executions (<[id := e'']> (db_executions d)) d)
          else (Ok false, d)
      | None => (Ok false, d)
      end
  end.

(** [ORDER BY started_at ASC]. *)
Definition started_before (a b : ExecutionRecord) : Prop := (ex_started_at a ≤ ex_started_at b)%Z.

#[export] Instance started_before_dec : RelDecision started_before.
Proof. intros a b. unfold started_before. apply _. Defined.

(** [SqliteExecutionRepo::list_stale_in_flight]. *)
Definition list_stale_in_flight (stale_before : Timestamp) (states : list ExecutionState)
    (limit : nat) : stmt (list ExecutionRecord) := λ d,
  (Ok (take limit
         (merge_sort started_before
            (filter (λ e, bool_decide (ex_state e ∈ states) && (ex_started_at e <? stale_before)%Z
                          && bool_decide (ex_finished_at e = None))
               (map_to_list (db_executions d)).*2))), d).

(** ** rollback.rs *)

Definition sql_insert_contract (c : RollbackContract) : stmt unit := λ d,
  if has (rc_contract_id c) (db_contracts d) then
    (Err (unique_violation "rollback_contracts.contract_id"), d)
  else if negb (has (rc_intent_id c) (db_intents d) && has (rc_proposal_id c) (db_proposals d)
                && has (rc_execution_id c) (db_executions d)) then
    (Err foreign_key_violation, d)
  else (Ok tt, set_contracts (<[rc_contract_id c := c]> (db_contracts d)) d).

(** [UPDATE rollback_contracts .. WHERE contract_id = ? AND state = ?]. *)
Definition sql_update_contract_where (c : RollbackContract) (expected : RollbackState)
  : stmt bool := λ d,
  match db_contracts d !! rc_contract_id c with
  | Some c0 =>
      if decide (rc_state c0 = expected) then
        (Ok true, set_contracts (<[rc_contract_id c := c]> (db_contracts d)) d)
      else (Ok false, d)
  | None => (Ok false, d)
  end.

(** ** lifecycle_outbox.rs *)

Definition key_taken (key : string) (d : Db) : bool :=
  existsb (λ p, String.eqb (ob_idempotency_key (row_record p.2)) key) (map_to_list (db_outbox d)).

(** The foreign keys of an outbox record. *)
Definition outbox_references_ok (r : LifecycleOutboxRecord) (d : Db) : bool :=
  has (ob_execution_id r) (db_executions d)
  && match ob_rollback_contract_id r with Some c => has c (db_contracts d) | None => true end
  && match ob_provenance_event_id r with Some e => has_event e d | None => true end.

(** [insert_outbox_record_tx]. *)
Definition insert_outbox_record_tx (record : LifecycleOutboxRecord) : stmt unit := λ d,
  if key_taken (ob_idempotency_key record) d then
    (Err (SE_Other ("lifecycle outbox idempotency conflict for key " +:+ ob_idempotency_key record)), d)
  else if has (ob_outbox_id record) (db_outbox d) then
    (Err (unique_violation "lifecycle_outbox.outbox_id"), d)
  else if negb (outbox_references_ok record d) then (Err foreign_key_violation, d)
  else (Ok tt, set_outbox (<[ob_outbox_id record := mkOutboxRow record None None 0]> (db_outbox d)) d).

(** [SqliteLifecycleOutboxRepo::enqueue_lifecycle_transition]. *)
Definition enqueue_lifecycle_transition (record : LifecycleOutboxRecord) : stmt unit :=
  transaction (insert_outbox_record_tx record).

(** The transition checks of [record_lifecycle_transition], before any write. *)
Definition check_transition (execution : ExecutionRecord) (rollback_contract : option RollbackContract)
    (outbox : LifecycleOutboxRecord) : result ExecutionState StoreError :=
  match ob_previous_execution_state outbox with
  | None => Err (SE_InvalidState ("lifecycle outbox " +:+ ob_outbox_id outbox
                                  +:+ " missing previous execution state"))
  | Some expected =>
      if negb (is_valid_execution_transition expected (ex_state execution)) then
        Err (SE_InvalidState ("invalid execution transition from " +:+ debug_execution_state expected
                              +:+ " to " +:+ debug_execution_state (ex_state execution)))
      else match rollback_contract, ob_previous_rollback_state outbox with
      | Some contract, Some expected_rollback =>
          if negb (is_valid_rollback_transition expected_rollback (rc_state contract)) then
            Err (SE_InvalidState ("invalid rollback transition from "
                                  +:+ debug_rollback_state expected_rollback +:+ " to "
                                  +:+ debug_rollback_state (rc_state contract)))
          else Ok expected
      | _, _ => Ok expected
      end
  end.

(** [SqliteLifecycleOutboxRepo::record_lifecycle_transition]. *)
Definition record_lifecycle_transition (execution : ExecutionRecord)
    (rollback_contract : option RollbackContract) (outbox : LifecycleOutboxRecord) : stmt unit :=
  transaction (λ d,
    match check_transition execution rollback_contract outbox with
    | Err e => (Err e, d)
    | Ok expected =>
        (do! updated <- sql_update_execution_where execution expected;
         if negb updated then
           fail_ (SE_InvalidState ("execution " +:+ ex_execution_id execution
                                   +:+ " state changed before lifecycle transition"))
         else
           do! _ <- match rollback_contract with
                    | None => return_ tt
                    | Some contract =>
                        match ob_previous_rollback_state outbox with
                        | Some expected_rollback =>
                            do! updated <- sql_update_contract_where contract expected_rollback;
                            if negb updated then
                              fail_ (SE_InvalidState ("rollback contract " +:+ rc_contract_id contract
                                                      +:+ " state changed before lifecycle transition"))
                            else return_ tt
                        | None => sql_insert_contract contract
                        end
                    end;
           insert_outbox_record_tx outbox) d
    end).

(** [SqliteLifecycleOutboxRepo::record_authorization]; [now] is the clock reading
    at the database boundary. *)
Definition record_authorization (capability : CapabilityLease) (execution : ExecutionRecord)
    (outbox : LifecycleOutboxRecord) (now : Timestamp) : stmt bool :=
  transaction (
    do! updated <- sql_capability_set_status_if_active (cl_capability_id capability) CS_Used now;
    if negb updated then return_ false
    else
      do! _ <- sql_insert_execution execution;
      do! _ <- insert_outbox_record_tx outbox;
      return_ true).

(** [update_outbox_record]: true when one row was updated. *)
Definition update_outbox_record (record : LifecycleOutboxRecord)
    (clear_lease allow_lease_override : bool) : stmt bool := λ d,
  match db_outbox d !! ob_outbox_id record with
  | Some row =>
      if allow_lease_override || match row_lease_owner row with None => true | Some _ => false end then
        if negb (match ob_provenance_event_id record with Some e => has_event e d | None => true end)
        then (Err foreign_key_violation, d)
        else
          let row' :=
            if clear_lease then mkOutboxRow record None None (row_lease_generation row)
            else mkOutboxRow record (row_lease_owner row) (row_lease_expires_at row)
                   (row_lease_generation row) in
          (Ok true, set_outbox (<[ob_outbox_id record := row']> (db_outbox d)) d)
      else (Ok false, d)
  | None => (Ok false, d)
  end.

(** Setters of the outbox record used below. *)
Definition ob_set_obligations (l : list ProvenanceObligation) (r : LifecycleOutboxRecord) :=
  let '(mkLifecycleOutboxRecord a b c d e f g h i j k _ m n o p q) := r in
  mkLifecycleOutboxRecord a b c d e f g h i j k l m n o p q.
Definition ob_set_written (event_id : EventId) (now : Timestamp) (r : LifecycleOutboxRecord) :=
  let '(mkLifecycleOutboxRecord a b c d e f g h i _ _ l m n o _ q) := r in
  mkLifecycleOutboxRecord a b c d e f g h i LO_ProvenanceWritten (Some event_id) l m n o now q.
Definition ob_set_status (s : LifecycleOutboxStatus) (last_error : option string) (attempts : Z)
    (now : Timestamp) (md : JsonMap) (r : LifecycleOutboxRecord) :=
  let '(mkLifecycleOutboxRecord a b c d e f g h i _ k l _ _ o _ _) := r in
  mkLifecycleOutboxRecord a b c d e f g h i s k l attempts last_error o now md.

Definition po_set_event (event_id : EventId) (o : ProvenanceObligation) : ProvenanceObligation :=
  {| po_event_kind := po_event_kind o; po_parent_kind := po_parent_kind o;
     po_edge_type := po_edge_type o; po_event_id := Some event_id |}.

(** The loop of [mark_obligation_written]: the first obligation of the kind is
    satisfied, one is appended when there is none. *)
Fixpoint satisfy_first (kind : ProvenanceEventKind) (event_id : EventId)
    (l : list ProvenanceObligation) : list ProvenanceObligation :=
  match l with
  | [] => [po_set_event event_id (obligation_pending kind)]
  | o :: l' =>
      if decide (po_event_kind o = kind) then po_set_event event_id o :: l'
      else o :: satisfy_first kind event_id l'
  end.

(** [mark_obligation_written]. *)
Definition mark_obligation_written (event_kind : ProvenanceEventKind) (event_id : EventId)
    (now : Timestamp) (record : LifecycleOutboxRecord) : LifecycleOutboxRecord :=
  let obligations :=
    match ob_provenance_obligations record with
    | [] => [obligation_pending (ob_intended_provenance_kind record)]
    | l => l
    end in
  ob_set_written event_id now
    (ob_set_obligations (satisfy_first event_kind event_id obligations) record).

(** The condition of [require_all_obligations_satisfied]. *)
Definition obligations_satisfied (record : LifecycleOutboxRecord) : bool :=
  match ob_provenance_obligations record with
  | [] => match ob_provenance_event_id record with Some _ => true | None => false end
  | l => forallb is_satisfied l
  end.

Definition require_all_obligations_satisfied (record : LifecycleOutboxRecord)
  : result unit StoreError :=
  if obligations_satisfied record then Ok tt
  else Err (SE_Other ("lifecycle outbox " +:+ ob_outbox_id record
                      +:+ " has unsatisfied provenance obligations")).

Definition require_updated (updated : bool) : result unit StoreError :=
  if updated then Ok tt else Err (SE_Other "lifecycle outbox update did not affect any row").

(** ** Reconciliation leases *)

Record LifecycleOutboxLease := {
  ls_outbox_id : LifecycleOutboxId;
  ls_owner : string;
  ls_generation : Z;
  ls_expires_at : Timestamp;
}.

Record LifecycleOutboxClaim := { lc_record : LifecycleOutboxRecord; lc_lease : LifecycleOutboxLease }.

Inductive ReconciliationFailureDisposition := RF_Retryable | RF_NeedsOperatorReview | RF_LeaseLost.

Definition reconcilable (s : LifecycleOutboxStatus) : bool :=
  match s with LO_PendingProvenance | LO_ProvenanceWritten => true | _ => false end.

(** [reconciliation_lease_expires_at IS NULL OR reconciliation_lease_expires_at <= now]. *)
Definition lease_free (row : OutboxRow) (now : Timestamp) : bool :=
  match row_lease_expires_at row with None => true | Some t => (t <=? now)%Z end.

(** [ORDER BY created_at ASC, outbox_id ASC]. *)
Definition created_before (a b : string * OutboxRow) : Prop :=
  let ca := ob_created_at (row_record a.2) in
  let cb := ob_created_at (row_record b.2) in
  (ca < cb)%Z ∨ (ca = cb ∧ String.le a.1 b.1).

#[export] Instance created_before_dec : RelDecision created_before.
Proof. intros a b. unfold created_before. apply _. Defined.

(** The claim of one row: the conditional [UPDATE .. RETURNING] and the read of
    the record. *)
Definition claim_one (lease_owner : string) (now lease_expires_at : Timestamp)
    (outbox_id : string) (d : Db) : option LifecycleOutboxClaim * Db :=
  match db_outbox d !! outbox_id with
  | Some row =>
      if lease_free row now then
        let generation := (row_lease_generation row + 1)%Z in
        (Some {| lc_record := row_record row;
                 lc_lease := {| ls_outbox_id := ob_outbox_id (row_record row);
                                ls_owner := lease_owner; ls_generation := generation;
                                ls_expires_at := lease_expires_at |} |},
         set_outbox (<[outbox_id := mkOutboxRow (row_record row) (Some lease_owner)
                                      (Some lease_expires_at) generation]> (db_outbox d)) d)
      else (None, d)
  | None => (None, d)
  end.

Fixpoint claim_all (lease_owner : string) (now lease_expires_at : Timestamp)
    (ids : list string) (d : Db) : list LifecycleOutboxClaim * Db :=
  match ids with
  | [] => ([], d)
  | id :: ids' =>
      let '(c, d1) := claim_one lease_owner now lease_expires_at id d in
      let '(cs, d2) := claim_all lease_owner now lease_expires_at ids' d1 in
      (match c with Some c => c :: cs | None => cs end, d2)
  end.

(** [SqliteLifecycleOutboxRepo::claim_pending_reconciliation]. *)
Definition claim_pending_reconciliation (limit : nat) (lease_owner : string) (lease_ttl : Z)
    (now : Timestamp) : stmt (list LifecycleOutboxClaim) := λ d,
  match limit with
  | O => (Ok [], d)
  | _ =>
      let candidates :=
        merge_sort created_before
          (filter (λ p, reconcilable (ob_status (row_record p.2)) && lease_free p.2 now)
             (map_to_list (db_outbox d))) in
      let '(cs, d') :=
        claim_all lease_owner now (now + lease_ttl)%Z (take limit candidates).*1 d in
      (Ok cs, d')
  end.

(** The lease test of the fenced statements: same owner, same generation and not
    expired at [now]. *)
Definition lease_current (lease : LifecycleOutboxLease) (row : OutboxRow) (now : Timestamp) : bool :=
  bool_decide (row_lease_owner row = Some (ls_owner lease))
  && (row_lease_generation row =? ls_generation lease)%Z
  && match row_lease_expires_at row with Some t => (now <? t)%Z | None => false end.

(** [SqliteLifecycleOutboxRepo::renew_reconciliation_lease]. *)
Definition renew_reconciliation_lease (lease : LifecycleOutboxLease) (lease_ttl : Z)
    (now now2 : Timestamp) : stmt bool := λ d,
  match db_outbox d !! ls_outbox_id lease with
  | Some row =>
      if lease_current lease row now2 && reconcilable (ob_status (row_record row)) then
        (Ok true, set_outbox (<[ls_outbox_id lease :=
             mkOutboxRow (row_record row) (row_lease_owner row) (Some (now + lease_ttl)%Z)
               (row_lease_generation row)]> (db_outbox d)) d)
      else (Ok false, d)
  | None => (Ok false, d)
  end.

(** [lease_is_current]. *)
Definition lease_is_current (lease : LifecycleOutboxLease) (now : Timestamp) : stmt bool := λ d,
  (Ok (match db_outbox d !! ls_outbox_id lease with
       | Some row => lease_current lease row now
       | None => false
       end), d).

(** [update_outbox_record_claimed]. *)
Definition update_outbox_record_claimed (record : LifecycleOutboxRecord)
    (lease : LifecycleOutboxLease) (clear_lease : bool) (now : Timestamp) : stmt bool := λ d,
  match db_outbox d !! ls_outbox_id lease with
  | Some row =>
      if lease_current lease row now then
        if negb (match ob_provenance_event_id record with Some e => has_event e d | None => true end)
        then (Err foreign_key_violation, d)
        else
          let row' :=
            if clear_lease then mkOutboxRow record None None (row_lease_generation row)
            else mkOutboxRow record (row_lease_owner row) (row_lease_expires_at row)
                   (row_lease_generation row) in
          (Ok true, set_outbox (<[ls_outbox_id lease := row']> (db_outbox d)) d)
      else (Ok false, d)
  | None => (Ok false, d)
  end.

(** ** approvals.rs *)

Definition debug_approval_state (s : ApprovalState) : string :=
  match s with
  | AS_Pending => "Pending" | AS_Granted => "Granted" | AS_Denied => "Denied" | AS_Expired => "Expired"
  end.

(** The conditional [UPDATE approvals] of [resolve_approval_sqlite]: the row must
    still be pending and unexpired. *)
Definition sql_resolve_approval (approval : ApprovalRequest) (id : ApprovalId) (now : Timestamp)
  : stmt bool := λ d,
  match db_approvals d !! id with
  | Some a =>
      if bool_decide (ap_state a = AS_Pending) && (now <? ap_expires_at a)%Z then
        (Ok true, set_approvals (<[id := approval]> (db_approvals d)) d)
      else (Ok false, d)
  | None => (Ok false, d)
  end.

(** The conditional [UPDATE approvals] of [expire_stale_pending_sqlite]. *)
Definition sql_expire_approval (approval : ApprovalRequest) (id : ApprovalId) : stmt bool := λ d,
  match db_approvals d !! id with
  | Some a =>
      if decide (ap_state a = AS_Pending) then
        (Ok true, set_approvals (<[id := approval]> (db_approvals d)) d)
      else (Ok false, d)
  | None => (Ok false, d)
  end.

(** Its selection of stale pending approvals. *)
Definition sql_select_stale_approvals (now : Timestamp) (max_age_seconds : Z) (batch_size : nat)
  : stmt (list (string * ApprovalRequest)) := λ d,
  let age_cutoff := (now - seconds max_age_seconds)%Z in
  (Ok (take batch_size
         (filter (λ p, bool_decide (ap_state p.2 = AS_Pending)
                       && ((ap_expires_at p.2 <? now)%Z || (ap_created_at p.2 <? age_cutoff)%Z))
            (map_to_list (db_approvals d)))), d).

(** [ORDER BY created_at DESC], and with [approval_id DESC] as the second key. *)
Definition approval_after (a b : ApprovalRequest) : Prop := (ap_created_at b ≤ ap_created_at a)%Z.

(** The row values [(created_at, approval_id)], compared as the statement does. *)
Definition row_le (t : Timestamp) (id : ApprovalId) (t' : Timestamp) (id' : ApprovalId) : bool :=
  (t <? t')%Z || ((t =? t')%Z && String.leb id id').
Definition row_lt (t : Timestamp) (id : ApprovalId) (t' : Timestamp) (id' : ApprovalId) : bool :=
  (t <? t')%Z || ((t =? t')%Z && String.ltb id id').
Definition approval_key_after (a b : ApprovalRequest) : Prop :=
  row_le (ap_created_at b) (ap_approval_id b) (ap_created_at a) (ap_approval_id a) = true.

#[export] Instance approval_after_dec : RelDecision approval_after.
Proof. intros a b. unfold approval_after. apply _. Defined.
#[export] Instance approval_key_after_dec : RelDecision approval_key_after.
Proof. intros a b. unfold approval_key_after. apply _. Defined.

(** The pending approvals, of one proposal if one is given. *)
Definition pending_approvals (proposal_id : option ProposalId) (d : Db) : list ApprovalRequest :=
  filter (λ a, bool_decide (ap_state a = AS_Pending)
               && match proposal_id with
                  | Some p => String.eqb (ap_proposal_id a) p
                  | None => true
                  end)
    (map_to_list (db_approvals d)).*2.

(** [list_pending_paginated] and [list_pending_by_proposal_paginated]. *)
Definition list_pending_paginated (proposal_id : option ProposalId) (limit offset : nat)
  : stmt (list ApprovalRequest) := λ d,
  (Ok (take limit (drop offset (merge_sort approval_after (pending_approvals proposal_id d)))), d).

(** [list_pending_cursor] and [list_pending_by_proposal_cursor]. *)
Definition list_pending_cursor (proposal_id : option ProposalId) (created_at : Timestamp)
    (approval_id : ApprovalId) (limit : nat) : stmt (list ApprovalRequest) := λ d,
  (Ok (take limit (merge_sort approval_key_after
         (filter (λ a, row_lt (ap_created_at a) (ap_approval_id a) created_at approval_id)
            (pending_approvals proposal_id d)))), d).

(** ** quarantine.rs *)

(** [ORDER BY created_at DESC]. *)
Definition created_after (a b : QuarantineHold) : Prop := (qh_created_at b ≤ qh_created_at a)%Z.

#[export] Instance created_after_dec : RelDecision created_after.
Proof. intros a b. unfold created_after. apply _. Defined.

(** [SqliteQuarantineHoldRepo::get_by_proposal]: the latest hold of the proposal. *)
Definition hold_of_proposal (proposal_id : ProposalId) : stmt (option QuarantineHold) := λ d,
  (Ok (head (merge_sort created_after
         (filter (λ h, String.eqb (qh_proposal_id h) proposal_id) (map_to_list (db_holds d)).*2))), d).

(** [SqliteQuarantineHoldRepo::insert]. *)
Definition insert_hold (h : QuarantineHold) : stmt unit := λ d,
  if has (qh_hold_id h) (db_holds d) then (Err (unique_violation "quarantine_holds.hold_id"), d)
  else if negb (has (qh_intent_id h) (db_intents d) && has (qh_proposal_id h) (db_proposals d)) then
    (Err foreign_key_violation, d)
  else (Ok tt, set_holds (<[qh_hold_id h := h]> (db_holds d)) d).

(** The conditional [UPDATE quarantine_holds] of [resolve] and of
    [expire_stale_pending_sqlite]: the row must still be pending. *)
Definition sql_update_pending_hold (h : QuarantineHold) (id : string) : stmt bool := λ d,
  match db_holds d !! id with
  | Some h0 =>
      if decide (qh_state h0 = QS_Pending) then (Ok true, set_holds (<[id := h]> (db_holds d)) d)
      else (Ok false, d)
  | None => (Ok false, d)
  end.

(** The selection of stale pending holds. *)
Definition sql_select_stale_holds (now : Timestamp) (max_age_seconds : Z) (batch_size : nat)
  : stmt (list (string * QuarantineHold)) := λ d,
  let age_cutoff := (now - seconds max_age_seconds)%Z in
  (Ok (take batch_size
         (filter (λ p, bool_decide (qh_state p.2 = QS_Pending)
                       && ((qh_expires_at p.2 <? now)%Z || (qh_created_at p.2 <? age_cutoff)%Z))
            (map_to_list (db_holds d)))), d).

(** [SqliteQuarantineHoldRepo::list_pending]. *)
Definition list_pending_holds (limit offset : nat)
  : stmt (list QuarantineHold) := λ d,
  (Ok (take limit (drop offset (merge_sort created_after
         (filter (λ h, bool_decide (qh_state h = QS_Pending)) (map_to_list (db_holds d)).*2)))), d).

(** ** provenance.rs *)

(** The edge rows of an event's edges. *)
Definition edge_row (to_event_id : EventId) (e : ProvenanceEdge) : EdgeRow :=
  {| er_to_event_id := to_event_id; er_from_event_id := ed_from_event_id e;
     er_edge_type := ed_edge_type e; er_summary := ed_summary e |}.

Definition sql_insert_event (event : ProvenanceEvent) : stmt unit := λ d,
  if has_event (ev_event_id event) d then (Err (unique_violation "provenance_events.event_id"), d)
  else (Ok tt, set_events (db_events d ++ [event]) d).

Fixpoint sql_insert_edges (to_event_id : EventId) (edges : list ProvenanceEdge) : stmt unit :=
  match edges with
  | [] => return_ tt
  | e :: rest => λ d,
      if has_event to_event_id d && has_event (ed_from_event_id e) d then
        sql_insert_edges to_event_id rest (set_edges (db_edges d ++ [edge_row to_event_id e]) d)
      else (Err foreign_key_violation, d)
  end.

(** One statement of the loop of [SqliteProvenanceRepo::append_edges]. *)
Definition append_edge (to_event_id : EventId) (e : ProvenanceEdge) : stmt unit :=
  sql_insert_edges to_event_id [e].

(** [SqliteProvenanceRepo::append_event_with_edges]. *)
Definition append_event_with_edges (event : ProvenanceEvent) (edges : list ProvenanceEdge)
  : stmt unit :=
  if existsb (λ e, match ed_to_event_id e with
                   | Some id => negb (String.eqb id (ev_event_id event))
                   | None => false
                   end) edges
  then fail_ (SE_Other "provenance edge to_event_id does not match appended event")
  else transaction (do! _ <- sql_insert_event event; sql_insert_edges (ev_event_id event) edges).

(** [SqliteProvenanceRepo::get_event]. *)
Definition get_event (event_id : EventId) : stmt (option ProvenanceEvent) := λ d,
  (Ok (List.find (λ e, String.eqb (ev_event_id e) event_id) (db_events d)), d).

(** [SqliteProvenanceRepo::get_edges_to]. *)
Definition edges_to (d : Db) (to_event_id : EventId) : list ProvenanceEdge :=
  (λ r, {| ed_edge_type := er_edge_type r; ed_from_event_id := er_from_event_id r;
           ed_to_event_id := Some to_event_id; ed_summary := er_summary r |}) <$>
    filter (λ r, er_to_event_id r = to_event_id) (db_edges d).
Definition get_edges_to (to_event_id : EventId) : stmt (list ProvenanceEdge) :=
  λ d, (Ok (edges_to d to_event_id), d).

(** [ORDER BY occurred_at ASC]: events of one instant in insertion order. *)
Definition by_occurred_at (l : list ProvenanceEvent) : list ProvenanceEvent :=
  sort_desc (λ e, (- ev_occurred_at e)%Z) l.

(** The filters of [SqliteProvenanceRepo::query], row by row. *)
Definition query_matches (d : Db) (request : ProvenanceQueryRequest) (event : ProvenanceEvent) : bool :=
  let opt {A} (filter : option A) (f : A → bool) := match filter with Some x => f x | None => true end in
  opt (pq_intent_id request) (λ i, bool_decide (ev_intent_id event = Some i))
  && opt (pq_execution_id request) (λ i, bool_decide (ev_execution_id event = Some i))
  && opt (pq_capability_id request) (λ i, bool_decide (ev_capability_id event = Some i))
  && opt (pq_event_kind request) (λ k, bool_decide (ev_kind event = k))
  && opt (pq_since request) (λ t, negb (ev_occurred_at event <? t)%Z)
  && opt (pq_until request) (λ t, negb (t <? ev_occurred_at event)%Z)
  && match pq_edge_types request with
     | [] => true
     | types => existsb (λ e, bool_decide (ed_edge_type e ∈ types)) (edges_to d (ev_event_id event))
     end.

(** [SqliteProvenanceRepo::query]. *)
Definition query (request : ProvenanceQueryRequest) : stmt (list ProvenanceEvent) := λ d,
  (Ok (filter (λ e, query_matches d request e) (by_occurred_at (db_events d))), d).

(** ** audit_log.rs *)

(** The read of [SqliteAuditLogRepo::append]: the content hash of the most recent
    entry that has one. *)
Definition sql_last_content_hash : stmt (option string) := λ d,
  (Ok (head (omap al_content_hash (reverse (db_audit_log d)))), d).

(** Its [INSERT INTO audit_log]; ids are assigned in increasing order. *)
Definition sql_insert_audit (entry : AuditLogEntry) (content_hash : string)
    (previous_hash : option string) : stmt unit := λ d,
  let id := (Z.of_nat (length (db_audit_log d)) + 1)%Z in
  (Ok tt, set_audit_log (db_audit_log d ++
     [mkAuditLogEntry id (al_actor_id entry) (al_action entry) (al_resource_type entry)
        (al_resource_id entry) (al_result entry) (al_metadata entry) (al_created_at entry)
        (Some content_hash) previous_hash]) d).

(** * Listings of the store (crates/ferrum-store/src/sqlite: provenance.rs, audit_log.rs,
    audit_merkle_root.rs, lifecycle_outbox.rs)

    The queries behind the read-only endpoints.  Stored times are RFC 3339 text in UTC,
    whose order is the order of the times. *)


(** [SqliteProvenanceRepo::get_edges_from] of one event. *)
Definition edges_from (d : Db) (from_event_id : EventId) : list ProvenanceEdge :=
  (λ r, {| ed_edge_type := er_edge_type r; ed_from_event_id := er_from_event_id r;
           ed_to_event_id := Some (er_to_event_id r); ed_summary := er_summary r |}) <$>
    filter (λ r, er_from_event_id r = from_event_id) (db_edges d).

(** ** audit_log.rs *)

(** The filters of [SqliteAuditLogRepo::list]. *)
Record AuditFilter := {
  af_action : option string;
  af_resource_type : option string;
  af_resource_id : option string;
  af_since : option Timestamp;
  af_until : option Timestamp;
}.

Definition audit_matches (f : AuditFilter) (e : AuditLogEntry) : bool :=
  let opt {A} (filter : option A) (test : A → bool) := match filter with Some x => test x | None => true end in
  opt (af_action f) (String.eqb (al_action e))
  && opt (af_resource_type f) (String.eqb (al_resource_type e))
  && opt (af_resource_id f) (String.eqb (al_resource_id e))
  && opt (af_since f) (λ t, (t <=? al_created_at e)%Z)
  && opt (af_until f) (λ t, (al_created_at e <=? t)%Z).

(** [AND id < ?]. *)
Definition before_id (cursor : option Z) (e : AuditLogEntry) : bool :=
  match cursor with Some c => (al_id e <? c)%Z | None => true end.

(** [ORDER BY created_at DESC, id DESC]. *)
Definition newer_entry (a b : AuditLogEntry) : Prop :=
  (al_created_at b < al_created_at a ∨ al_created_at b = al_created_at a ∧ al_id b ≤ al_id a)%Z.
#[export] Instance newer_entry_dec : RelDecision newer_entry.
Proof. intros a b. unfold newer_entry. apply _. Defined.

Definition audit_rows (f : AuditFilter) (cursor : option Z) (log : list AuditLogEntry) : list AuditLogEntry :=
  merge_sort newer_entry (filter (λ e, audit_matches f e && before_id cursor e) log).

(** [SqliteAuditLogRepo::list]: the cursor is the identifier of the last entry. *)
Definition audit_list (f : AuditFilter) (cursor : option Z) (limit : nat) (d : Db)
  : list AuditLogEntry * option string :=
  page_of (λ e, pretty (al_id e)) limit (audit_rows f cursor (db_audit_log d)).

(** The query of [compute_and_cache_root]: the hashes of the entries of a window, in the
    order of their identifiers. *)
Definition in_window (window_start window_end : Timestamp) (e : AuditLogEntry) : bool :=
  (window_start <=? al_created_at e)%Z && (al_created_at e <? window_end)%Z.
Definition window_hashes (window_start window_end : Timestamp) (d : Db) : list string :=
  omap al_content_hash (filter (λ e, in_window window_start window_end e) (db_audit_log d)).

(** ** lifecycle_outbox.rs *)

(** [ORDER BY updated_at ASC, outbox_id ASC]. *)
Definition updated_before (a b : LifecycleOutboxRecord) : Prop :=
  (ob_updated_at a < ob_updated_at b)%Z ∨
  ob_updated_at a = ob_updated_at b ∧ Is_true (String.leb (ob_outbox_id a) (ob_outbox_id b)).
#[export] Instance updated_before_dec : RelDecision updated_before.
Proof. intros a b. unfold updated_before. apply _. Defined.

(** [SqliteLifecycleOutboxRepo::list_by_status]. *)
Definition outbox_by_status (status : LifecycleOutboxStatus) (limit : nat) (d : Db) : list LifecycleOutboxRecord :=
  take limit (merge_sort updated_before
    (filter (λ r, bool_decide (ob_status r = status)) (row_record <$> (map_to_list (db_outbox d)).*2))).

(** ** The queries as operations *)

Inductive read_op : Type → Type :=
| RO_edges_from (id : EventId) : read_op (list ProvenanceEdge)
| RO_audit_list (f : AuditFilter) (cursor : option Z) (limit : nat) : read_op (list AuditLogEntry * option string)
| RO_audit_log : read_op (list AuditLogEntry)
| RO_window_hashes (window_start window_end : Timestamp) : read_op (list string)
| RO_outbox_by_status (status : LifecycleOutboxStatus) (limit : nat) : read_op (list LifecycleOutboxRecord).

Definition read_exec {T} (o : read_op T) (d : Db) : T :=
  match o with
  | RO_edges_from id => edges_from d id
  | RO_audit_list f cursor limit => audit_list f cursor limit d
  | RO_audit_log => db_audit_log d
  | RO_window_hashes ws we => window_hashes ws we d
  | RO_outbox_by_status status limit => outbox_by_status status limit d
  end.

(** A query leaves the database as it is. *)
Definition sql_read {T} (o : read_op T) : stmt T := λ d, (Ok (read_exec o d), d).
