(* ===== verification/Adapter.v ===== *)
(** * Rollback adapters (crates/ferrum-rollback/src/adapter.rs)

    The receipts and errors of the adapter trait, the registry, and the built-in
    no-op adapter.  The trait [RollbackAdapter] is the record of its methods; the
    adapters a deployment registers (file system, git, HTTP, ..) act on external
    systems and reach the model as responses of the environment (file Effects). *)

From S2P Require Import Prelude Json Proto.

Inductive AdapterError :=
| AE_Unsupported (s : string)
| AE_Validation (s : string)
| AE_Internal (s : string)
| AE_DuplicateKey (s : string).

Definition adapter_error_text (e : AdapterError) : string :=
  match e with
  | AE_Unsupported s => "unsupported action: " +:+ s
  | AE_Validation s => "validation failed: " +:+ s
  | AE_Internal s => "internal: " +:+ s
  | AE_DuplicateKey s => "duplicate adapter key: " +:+ s
  end.

Record PrepareReceipt := { prep_accepted : bool; prep_adapter_metadata : JsonMap }.

Record ExecuteReceipt := {
  exr_external_id : option string;
  exr_result_digest : option string;
  exr_adapter_metadata : JsonMap;
}.

Record VerifyReceipt := { vr_verified : bool; vr_adapter_metadata : JsonMap }.

Inductive VerifyOutcome := VO_Applied | VO_NotApplied | VO_Indeterminate.

Record VerifyOutcomeReceipt := { vor_outcome : VerifyOutcome; vor_adapter_metadata : JsonMap }.

Record RecoveryReceipt := { rr_recovered : bool; rr_adapter_metadata : JsonMap }.

(** [VerifyReceipt::outcome]. *)
Definition receipt_outcome (r : VerifyReceipt) : VerifyOutcome :=
  if vr_verified r then VO_Applied else VO_Indeterminate.

(** The trait [RollbackAdapter]. *)
Record RollbackAdapter := {
  ra_key : string;
  ra_prepare : RollbackPrepareRequest → result PrepareReceipt AdapterError;
  ra_execute : RollbackContract → json → result ExecuteReceipt AdapterError;
  ra_verify : RollbackContract → result VerifyReceipt AdapterError;
  ra_verify_with_outcome : RollbackContract → result VerifyOutcomeReceipt AdapterError;
  ra_compensate : RollbackContract → result RecoveryReceipt AdapterError;
  ra_rollback : RollbackContract → result RecoveryReceipt AdapterError;
}.

(** The default method [verify_with_outcome]. *)
Definition default_verify_with_outcome (verify : RollbackContract → result VerifyReceipt AdapterError)
    (contract : RollbackContract) : result VerifyOutcomeReceipt AdapterError :=
  let? receipt := verify contract in
  Ok {| vor_outcome := receipt_outcome receipt; vor_adapter_metadata := vr_adapter_metadata receipt |}.

(** [AdapterRegistry]: the adapters by key. *)
Abbreviation AdapterRegistry := (gmap string RollbackAdapter).

(** [AdapterRegistry::try_register]. *)
Definition try_register (adapter : RollbackAdapter) (r : AdapterRegistry)
  : result unit AdapterError * AdapterRegistry :=
  match r !! ra_key adapter with
  | Some _ => (Err (AE_DuplicateKey (ra_key adapter)), r)
  | None => (Ok tt, <[ra_key adapter := adapter]> r)
  end.

(** [AdapterRegistry::register]; [None] is the panic on a duplicate key. *)
Definition register (adapter : RollbackAdapter) (r : AdapterRegistry) : option AdapterRegistry :=
  match r !! ra_key adapter with
  | Some _ => None
  | None => Some (<[ra_key adapter := adapter]> r)
  end.

(** [AdapterRegistry::get]. *)
Definition registry_get (key : string) (r : AdapterRegistry) : option RollbackAdapter := r !! key.

(** [NoopRollbackAdapter]. *)
Definition NoopRollbackAdapter (key : string) : RollbackAdapter :=
  let verify (_ : RollbackContract) := Ok {| vr_verified := true; vr_adapter_metadata := [] |} in
  {| ra_key := key;
     ra_prepare _ := Ok {| prep_accepted := true; prep_adapter_metadata := [] |};
     ra_execute _ _ := Ok {| exr_external_id := None; exr_result_digest := Some "noop-execution";
                             exr_adapter_metadata := [] |};
     ra_verify := verify;
     ra_verify_with_outcome := default_verify_with_outcome verify;
     ra_compensate _ := Ok {| rr_recovered := true; rr_adapter_metadata := [] |};
     ra_rollback _ := Ok {| rr_recovered := true; rr_adapter_metadata := [] |} |}.

(** A planner, [PlannableAdapter::generate_plan], and [PlannableNoopAdapter]. *)
Definition Planner := ActionType → RollbackTarget → result (option ExecutionPlan) AdapterError.

Definition PlannableNoopAdapter : Planner := λ _ _,
  Ok (Some {| pl_prepare_checks := []; pl_verify_checks := []; pl_compensation_plan := [];
              pl_auto_commit := true;
              pl_plan_description := "noop auto-plan: no checks generated" |}).
