(* ===== verification/Effects.v ===== *)
(** * Effects: programs of the gateway, and their execution

    A handler is a program over atomic operations: one database statement or
    transaction, one locked call of the capability service, one adapter call, one
    clock reading, one fresh identifier, one counter update.  [exec_op] gives an
    operation its meaning in a world; the environment supplies, for each tick,
    what the program does not control: the clock, identifiers, storage faults and
    the adapters' responses.  [run] executes a program alone, [pool_step]
    interleaves any number of programs. *)

From S2P Require Import Prelude Json Proto Admin Behavioral AuthState Transitions CapService Store Adapter.

(** ** Operations *)

Inductive GovernanceRoute :=
| GR_IntentsCompile | GR_IntentsList | GR_ProposalsEvaluate | GR_CapabilitiesMint
| GR_CapabilitiesRevoke | GR_ExecutionsAuthorize | GR_ExecutionsPrepare | GR_ExecutionsExecute
| GR_ExecutionsVerify | GR_ExecutionsCommit | GR_ExecutionsCompensate | GR_ExecutionsCancel
| GR_ExecutionsEvaluateOutcome | GR_ExecutionsExecutionId | GR_Approvals | GR_ApprovalsApprovalId
| GR_ApprovalsResolve | GR_Quarantines | GR_QuarantinesHoldId | GR_QuarantinesResolve
| GR_PolicyBundlesCreate | GR_PolicyBundlesList | GR_PolicyBundlesGet | GR_PolicyBundlesUpdate
| GR_PolicyBundlesDelete | GR_PolicyBundlesSetActive | GR_PolicySimulate | GR_PolicyBundlesSimulate
| GR_PolicyBundlesVersions | GR_PolicyBundlesDiff | GR_PolicyBundlesRollback | GR_ProvenanceQuery
| GR_ProvenanceLineage | GR_ProvenanceLineageExecutionId | GR_ProvenanceIngest
| GR_BridgesBridgeIdTools | GR_AgentsCreate | GR_AgentsList | GR_AgentsRevoke | GR_MfaEnroll
| GR_MfaVerify | GR_MfaDisable | GR_MfaRotate | GR_MfaList | GR_MfaGet.

#[export] Instance GovernanceRoute_eq_dec : EqDecision GovernanceRoute. Proof. solve_decision. Defined.

(** The counters of [Metrics] the handlers update. *)
Inductive Metric :=
| Met_success (r : GovernanceRoute)
| Met_error (r : GovernanceRoute)
| Met_audit_fail_closed
| Met_approval_timeouts
| Met_ha_reconciler_canceled
| Met_ha_reconciler_recovery_required
| Met_ha_reconciler_errors
| Met_quarantine_timeouts
| Met_behavioral_anomaly (s : BehavioralSeverity).

#[export] Instance BehavioralSeverity_eq_dec : EqDecision BehavioralSeverity.
Proof. solve_decision. Defined.

#[export] Instance Metric_eq_dec : EqDecision Metric. Proof. solve_decision. Defined.

(** The file system calls of the scope check, as they answer at one moment; paths
    are lists of components. *)
Record FsView := {
  fs_exists : list string → bool;
  fs_canonicalize : list string → option (list string);
}.

Inductive op : Type → Type :=
(* clock and identifiers *)
| op_now : op Timestamp
| op_instant : op Z
| op_uuid : op string
| op_fs : op FsView
| op_metric (m : Metric) : op unit
| op_metric_add (m : Metric) (n : nat) : op unit
(* database reads *)
| op_get_intent (id : IntentId) : op (result (option IntentEnvelope) StoreError)
| op_get_proposal (id : ProposalId) : op (result (option ActionProposal) StoreError)
| op_get_capability (id : CapabilityId) : op (result (option CapabilityLease) StoreError)
| op_get_execution (id : ExecutionId) : op (result (option ExecutionRecord) StoreError)
| op_get_contract (id : RollbackContractId) : op (result (option RollbackContract) StoreError)
| op_get_approval (id : ApprovalId) : op (result (option ApprovalRequest) StoreError)
| op_hold_of_proposal (id : ProposalId) : op (result (option QuarantineHold) StoreError)
| op_get_outbox (id : LifecycleOutboxId) : op (result (option OutboxRow) StoreError)
| op_query (r : ProvenanceQueryRequest) : op (result (list ProvenanceEvent) StoreError)
| op_edges_to (id : EventId) : op (result (list ProvenanceEdge) StoreError)
| op_get_event (id : EventId) : op (result (option ProvenanceEvent) StoreError)
| op_list_stale (stale_before : Timestamp) (states : list ExecutionState) (limit : nat)
  : op (result (list ExecutionRecord) StoreError)
| op_last_audit_hash : op (result (option string) StoreError)
| op_get_hold (id : string) : op (result (option QuarantineHold) StoreError)
| op_list_approvals (proposal_id : option ProposalId) (limit offset : nat)
  : op (result (list ApprovalRequest) StoreError)
| op_list_approvals_after (proposal_id : option ProposalId) (created_at : Timestamp) (id : ApprovalId)
    (limit : nat) : op (result (list ApprovalRequest) StoreError)
| op_list_pending_holds (limit offset : nat) : op (result (list QuarantineHold) StoreError)
| op_select_stale_holds (now : Timestamp) (max_age : Z) (batch : nat)
  : op (result (list (string * QuarantineHold)) StoreError)
| op_read {T} (q : read_op T) : op (result T StoreError)
(* database writes *)
| op_insert_intent (i : IntentEnvelope) : op (result unit StoreError)
| op_insert_proposal (p : ActionProposal) : op (result unit StoreError)
| op_insert_hold (h : QuarantineHold) : op (result unit StoreError)
| op_update_pending_hold (h : QuarantineHold) (id : string) : op (result bool StoreError)
| op_admin {T} (a : admin_op T) : op (result T StoreError)
| op_record_transition (e : ExecutionRecord) (c : option RollbackContract)
    (o : LifecycleOutboxRecord) : op (result unit StoreError)
| op_record_authorization (l : CapabilityLease) (e : ExecutionRecord)
    (o : LifecycleOutboxRecord) : op (result bool StoreError)
| op_cas_state (id : ExecutionId) (expected : list ExecutionState) (new : ExecutionState)
  : op (result bool StoreError)
| op_update_outbox (r : LifecycleOutboxRecord) (clear override : bool) : op (result bool StoreError)
| op_append_event (e : ProvenanceEvent) (edges : list ProvenanceEdge) : op (result unit StoreError)
| op_append_edge (to : EventId) (e : ProvenanceEdge) : op (result unit StoreError)
| op_insert_audit (e : AuditLogEntry) (h : string) (prev : option string) : op (result unit StoreError)
| op_set_status_if_active (id : CapabilityId) (s : CapabilityStatus) : op (result bool StoreError)
| op_revoke_if_active (id : CapabilityId) (t : Timestamp) : op (result bool StoreError)
| op_update_capability (l : CapabilityLease) : op (result unit StoreError)
| op_insert_capability (l : CapabilityLease) : op (result unit StoreError)
| op_resolve_approval (a : ApprovalRequest) (id : ApprovalId) (now : Timestamp)
  : op (result bool StoreError)
| op_select_stale (now : Timestamp) (max_age : Z) (batch : nat)
  : op (result (list (string * ApprovalRequest)) StoreError)
| op_expire_approval (a : ApprovalRequest) (id : ApprovalId) : op (result bool StoreError)
| op_claim (limit : nat) (owner : string) (ttl : Z)
  : op (result (list LifecycleOutboxClaim) StoreError)
| op_renew (l : LifecycleOutboxLease) (ttl : Z) : op (result bool StoreError)
| op_lease_current (l : LifecycleOutboxLease) : op (result bool StoreError)
| op_update_claimed (r : LifecycleOutboxRecord) (l : LifecycleOutboxLease) (clear : bool)
  : op (result bool StoreError)
(* the behavioural profiler *)
| op_profile (c : ProfilerConfig) (principal_id : string) (now : Z) : op (option BehavioralFinding)
(* the caches of authentication *)
| op_nonce (max_entries : nat) (nonce : string) (ttl : Z) : op (result bool StoreError)
| op_jwks_cached (kid : string) (ttl : Z) : op (option KeyMaterial)
| op_jwks_fetch (url : string) : op JwksAnswer
| op_jwks_store (keys : gmap string KeyMaterial) : op unit
| op_jwks_lookup (kid : string) : op (option KeyMaterial)
(* the in-memory capability service *)
| op_cap_get (id : CapabilityId) : op (result CapabilityLease CapabilityError)
| op_cap_mint (capability_id policy_bundle_id : string) (r : CapabilityMintRequest)
  : op (result CapabilityMintResponse CapabilityError)
| op_cap_mark_used (id : CapabilityId) : op (result CapabilityLease CapabilityError)
| op_cap_revoke (id : CapabilityId) : op (result CapabilityLease CapabilityError)
(* adapters and planners *)
| op_adapter_registered (key : string) : op bool
| op_adapter_prepare (r : RollbackPrepareRequest) : op (result PrepareReceipt AdapterError)
| op_adapter_execute (c : RollbackContract) (payload : json) : op (result ExecuteReceipt AdapterError)
| op_adapter_verify (c : RollbackContract) : op (result VerifyOutcomeReceipt AdapterError)
| op_adapter_compensate (c : RollbackContract) : op (result RecoveryReceipt AdapterError)
| op_adapter_rollback (c : RollbackContract) : op (result RecoveryReceipt AdapterError)
| op_planner_count : op nat
| op_plan (i : nat) (a : ActionType) (t : RollbackTarget)
  : op (result (option ExecutionPlan) AdapterError).

(** ** Programs *)

Inductive prog (A : Type) : Type :=
| Ret (a : A)
| Do {X : Type} (o : op X) (k : X → prog A).
Arguments Ret {_} _.
Arguments Do {_ _} _ _.

Fixpoint bind {A B} (p : prog A) (f : A → prog B) : prog B :=
  match p with
  | Ret a => f a
  | Do o k => Do o (λ x, bind (k x) f)
  end.

Declare Scope prog_scope.
Delimit Scope prog_scope with prog.
Notation "x <- p ;; k" := (bind p (λ x, k))
  (at level 100, p at next level, right associativity) : prog_scope.
Open Scope prog_scope.

(** [expr?] in a function returning a [Result]: continue with the payload of an
    [Ok], return an [Err]. *)
Notation "x <-? p ;; k" := (bind p (λ r, match r with Ok x => k | Err e => Ret (Err e) end))
  (at level 100, p at next level, right associativity) : prog_scope.

(** A single operation. *)
Definition call {X} (o : op X) : prog X := Do o Ret.

(** A call whose response is sent and forgotten. *)
Definition discard {A} (p : prog A) : prog unit := _ <- p ;; Ret tt.

(** ** Worlds and environments *)

(** What the adapters were asked to do and what they answered, in order. *)
Inductive AdapterCall :=
| AC_execute (c : RollbackContract) (payload : json) (r : result ExecuteReceipt AdapterError)
| AC_verify (c : RollbackContract) (r : result VerifyOutcomeReceipt AdapterError)
| AC_compensate (c : RollbackContract) (r : result RecoveryReceipt AdapterError)
| AC_rollback (c : RollbackContract) (r : result RecoveryReceipt AdapterError).

(** What the process keeps in memory: the capabilities of the in-memory service, the
    actors of the profiler and the caches of authentication. *)
Record Memory := mkMemory {
  mem_caps : CapMap;
  mem_actors : Actors;
  mem_auth : AuthMemory;
}.

Record World := mkWorld {
  w_db : Db;
  w_mem : Memory;
  w_metrics : Metric → nat;
  w_adapter_log : list AdapterCall;
  w_tick : nat;
}.

Definition w_caps (w : World) : CapMap := mem_caps (w_mem w).

(** Nothing in memory: a process that has just started. *)
Definition fresh_memory : Memory := mkMemory ∅ ∅ fresh_auth.

(** A storage fault: the statement returns a database error, applied or not. *)
Inductive Fault := F_NotApplied (msg : string) | F_Applied (msg : string).

Record Env := {
  env_clock : nat → Timestamp;
  env_instant : nat → Z;
  env_hash : nat → nat;
  env_uuid : nat → string;
  env_fs : nat → FsView;
  env_fault : nat → option Fault;
  env_registered : string → bool;
  env_prepare : nat → RollbackPrepareRequest → result PrepareReceipt AdapterError;
  env_execute : nat → RollbackContract → json → result ExecuteReceipt AdapterError;
  env_verify : nat → RollbackContract → result VerifyOutcomeReceipt AdapterError;
  env_compensate : nat → RollbackContract → result RecoveryReceipt AdapterError;
  env_rollback : nat → RollbackContract → result RecoveryReceipt AdapterError;
  env_jwks : nat → string → JwksAnswer;
  env_planner_count : nat;
  env_plan : nat → nat → ActionType → RollbackTarget → result (option ExecutionPlan) AdapterError;
}.

(** A database operation under the fault of its tick. *)
Definition exec_db {A} (env : Env) (s : stmt A) (w : World) : result A StoreError * World :=
  let '(mkWorld d caps m l t) := w in
  match env_fault env t with
  | None => let '(r, d') := s d in (r, mkWorld d' caps m l (S t))
  | Some (F_NotApplied msg) => (Err (SE_Database msg), mkWorld d caps m l (S t))
  | Some (F_Applied msg) => (Err (SE_Database msg), mkWorld (s d).2 caps m l (S t))
  end.

(** An operation that changes nothing but the tick. *)
Definition exec_pure {A} (a : A) (w : World) : A * World :=
  let '(mkWorld d caps m l t) := w in (a, mkWorld d caps m l (S t)).

(** A call of the capability service. *)
Definition exec_cap {A} (f : CapMap → A * CapMap) (w : World) : A * World :=
  let '(mkWorld d mem m l t) := w in
  let '(a, caps') := f (mem_caps mem) in (a, mkWorld d (mkMemory caps' (mem_actors mem) (mem_auth mem)) m l (S t)).

(** A call of the profiler. *)
Definition exec_profiler {A} (f : Actors → A * Actors) (w : World) : A * World :=
  let '(mkWorld d mem m l t) := w in
  let '(a, actors') := f (mem_actors mem) in (a, mkWorld d (mkMemory (mem_caps mem) actors' (mem_auth mem)) m l (S t)).

(** A call of a cache of authentication. *)
Definition exec_auth {A} (f : AuthMemory → A * AuthMemory) (w : World) : A * World :=
  let '(mkWorld d mem m l t) := w in
  let '(a, auth') := f (mem_auth mem) in
  (a, mkWorld d (mkMemory (mem_caps mem) (mem_actors mem) auth') m l (S t)).

(** An adapter call, logged with its answer. *)
Definition exec_adapter {A} (c : A → AdapterCall) (a : A) (w : World) : A * World :=
  let '(mkWorld d caps m l t) := w in (a, mkWorld d caps m (l ++ [c a]) (S t)).

Definition exec_op {X} (env : Env) (o : op X) (w : World) : X * World :=
  let t := w_tick w in
  let now := env_clock env t in
  match o with
  | op_now => exec_pure now w
  | op_instant => exec_pure (env_instant env t) w
  | op_uuid => exec_pure (env_uuid env t) w
  | op_fs => exec_pure (env_fs env t) w
  | op_metric m =>
      let '(mkWorld d caps ms l t) := w in
      (tt, mkWorld d caps (λ m', if decide (m' = m) then S (ms m') else ms m') l (S t))
  | op_metric_add m n =>
      let '(mkWorld d caps ms l t) := w in
      (tt, mkWorld d caps (λ m', if decide (m' = m) then ms m' + n else ms m') l (S t))
  | op_get_intent id => exec_db env (sql_get db_intents id) w
  | op_get_proposal id => exec_db env (sql_get db_proposals id) w
  | op_get_capability id => exec_db env (sql_get db_capabilities id) w
  | op_get_execution id => exec_db env (sql_get db_executions id) w
  | op_get_contract id => exec_db env (sql_get db_contracts id) w
  | op_get_approval id => exec_db env (sql_get db_approvals id) w
  | op_hold_of_proposal id => exec_db env (hold_of_proposal id) w
  | op_get_outbox id => exec_db env (sql_get db_outbox id) w
  | op_query r => exec_db env (query r) w
  | op_edges_to id => exec_db env (get_edges_to id) w
  | op_get_event id => exec_db env (get_event id) w
  | op_list_stale before states limit => exec_db env (list_stale_in_flight before states limit) w
  | op_last_audit_hash => exec_db env sql_last_content_hash w
  | op_get_hold id => exec_db env (sql_get db_holds id) w
  | op_list_approvals p limit offset => exec_db env (list_pending_paginated p limit offset) w
  | op_list_approvals_after p ts id limit => exec_db env (list_pending_cursor p ts id limit) w
  | op_list_pending_holds limit offset => exec_db env (list_pending_holds limit offset) w
  | op_select_stale_holds ts age batch => exec_db env (sql_select_stale_holds ts age batch) w
  | op_read q => exec_db env (sql_read q) w
  | op_insert_intent i => exec_db env (insert_intent i) w
  | op_insert_proposal p => exec_db env (insert_proposal p) w
  | op_insert_hold h => exec_db env (insert_hold h) w
  | op_update_pending_hold h id => exec_db env (sql_update_pending_hold h id) w
  | op_admin a => exec_db env (sql_admin (admin_exec now a)) w
  | op_profile c p ts => exec_profiler (record_target c (env_hash env t) p ts) w
  | op_nonce max nonce ttl =>
      exec_auth (λ m, let '(ok, m) := nonce_call max (env_hash env t) nonce ttl (env_instant env t) m in (Ok ok, m)) w
  | op_jwks_cached kid ttl => exec_auth (λ m, (cached_key kid ttl (env_instant env t) (am_jwks m), m)) w
  | op_jwks_fetch url => exec_pure (env_jwks env t url) w
  | op_jwks_store keys => exec_auth (λ m, (tt, jwks_store keys (env_instant env t) m)) w
  | op_jwks_lookup kid => exec_auth (λ m, (jc_keys (am_jwks m) !! kid, m)) w
  | op_record_transition e c ob => exec_db env (record_lifecycle_transition e c ob) w
  | op_record_authorization l e ob => exec_db env (record_authorization l e ob now) w
  | op_cas_state id expected new => exec_db env (compare_and_set_state id expected new now) w
  | op_update_outbox r clear override => exec_db env (update_outbox_record r clear override) w
  | op_append_event e edges => exec_db env (append_event_with_edges e edges) w
  | op_append_edge to e => exec_db env (append_edge to e) w
  | op_insert_audit e h prev => exec_db env (sql_insert_audit e h prev) w
  | op_set_status_if_active id s => exec_db env (update_status_if_active id s now) w
  | op_revoke_if_active id ts => exec_db env (revoke_if_active id ts) w
  | op_update_capability l => exec_db env (update_capability l) w
  | op_insert_capability l => exec_db env (insert_capability l) w
  | op_resolve_approval a id ts => exec_db env (sql_resolve_approval a id ts) w
  | op_select_stale ts age batch => exec_db env (sql_select_stale_approvals ts age batch) w
  | op_expire_approval a id => exec_db env (sql_expire_approval a id) w
  | op_claim limit owner ttl => exec_db env (claim_pending_reconciliation limit owner ttl now) w
  | op_renew l ttl => exec_db env (renew_reconciliation_lease l ttl now (env_clock env (S t))) w
  | op_lease_current l => exec_db env (lease_is_current l now) w
  | op_update_claimed r l clear => exec_db env (update_outbox_record_claimed r l clear now) w
  | op_cap_get id => exec_cap (λ m, (cap_get id now m, m)) w
  | op_cap_mint cid pid r => exec_cap (cap_mint cid pid now r) w
  | op_cap_mark_used id => exec_cap (cap_mark_used id now) w
  | op_cap_revoke id => exec_cap (cap_revoke id now) w
  | op_adapter_registered key => exec_pure (env_registered env key) w
  | op_adapter_prepare r => exec_pure (env_prepare env t r) w
  | op_adapter_execute c p => exec_adapter (AC_execute c p) (env_execute env t c p) w
  | op_adapter_verify c => exec_adapter (AC_verify c) (env_verify env t c) w
  | op_adapter_compensate c => exec_adapter (AC_compensate c) (env_compensate env t c) w
  | op_adapter_rollback c => exec_adapter (AC_rollback c) (env_rollback env t c) w
  | op_planner_count => exec_pure (env_planner_count env) w
  | op_plan i a tg => exec_pure (env_plan env t i a tg) w
  end.

(** ** Sequential execution *)

Fixpoint run {A} (env : Env) (p : prog A) (w : World) : A * World :=
  match p with
  | Ret a => (a, w)
  | Do o k => let '(x, w') := exec_op env o w in run env (k x) w'
  end.

Lemma run_bind {A B} env (p : prog A) (f : A → prog B) w :
  run env (bind p f) w = let '(a, w') := run env p w in run env (f a) w'.
Proof.
  revert w. induction p as [a | X o k IH]; intros w; simpl; [done|].
  destruct (exec_op env o w) as [x w']. apply IH.
Qed.

(** ** Interleaved execution

    A pool of programs that all return [A].  A step runs one operation of one
    program, or admits a new program of the allowed set. *)
Section pool.
Context {A : Type} (admitted : prog A → Prop) (env : Env).

Record Pool := mkPool { p_threads : list (prog A); p_world : World }.

Inductive pool_step : Pool → Pool → Prop :=
| step_op i X (o : op X) k ts w x w' :
    ts !! i = Some (Do o k) →
    exec_op env o w = (x, w') →
    pool_step (mkPool ts w) (mkPool (<[i := k x]> ts) w')
| step_spawn p ts w :
    admitted p →
    pool_step (mkPool ts w) (mkPool (ts ++ [p]) w).

Definition pool_reach : Pool → Pool → Prop := rtc pool_step.

(** One step of the program at index [i], when it has one. *)
Definition step_thread (i : nat) (p : Pool) : Pool :=
  match p_threads p !! i with
  | Some (Do o k) =>
      let '(x, w') := exec_op env o (p_world p) in mkPool (<[i := k x]> (p_threads p)) w'
  | _ => p
  end.

(** The execution of a schedule: which program moves next. *)
Definition run_schedule (schedule : list nat) (p : Pool) : Pool :=
  foldl (λ p i, step_thread i p) p schedule.

Lemma step_thread_reach i p : pool_reach p (step_thread i p).
Proof.
  unfold step_thread. destruct p as [ts w]; simpl.
  destruct (ts !! i) as [[a | X o k]|] eqn:Hi; [constructor | | constructor].
  destruct (exec_op env o w) as [x w'] eqn:Hx. apply rtc_once. by econstructor.
Qed.

Lemma run_schedule_reach schedule p : pool_reach p (run_schedule schedule p).
Proof.
  revert p. induction schedule as [|i s IH]; intros p; simpl; [constructor|].
  etrans; [apply step_thread_reach | apply IH].
Qed.
End pool.
Arguments Pool : clear implicits.
Arguments mkPool {_} _ _.
