(* ===== verification/Firewall.v ===== *)
(** * The semantic firewall

    From crates/ferrum-firewall/src/lib.rs: the taint score and trust label of a
    context, contradictory attributes, the quarantine rule, and the sanitizer every
    response passes through.  Replacing the matches of a regular expression is the
    regex crate's and a parameter. *)

From Stdlib Require Import Ascii String.
From S2P Require Import Prelude Json Proto.

(** ** Taint *)

Inductive FwTrustLabel := FL_Trusted | FL_Suspicious | FL_Untrusted | FL_Quarantined.

Definition from_taint_score (taint_score : Z) : FwTrustLabel :=
  if (taint_score <=? 30)%Z then FL_Trusted
  else if (taint_score <=? 69)%Z then FL_Suspicious
  else if (taint_score <=? 89)%Z then FL_Untrusted
  else FL_Quarantined.

Record FirewallContext := {
  fc_source : string;
  fc_intent : option string;
  fc_trust_score : Z;
  fc_is_external : bool;
  fc_attributes : gmap string string;
}.

Inductive FwRollbackClass := FR0 | FR1 | FR2 | FR3.

(** [From<ferrum_proto::RollbackClass>]. *)
Definition from_rollback_class (c : RollbackClass) : FwRollbackClass :=
  match c with
  | R0NativeReversible => FR0
  | R1SnapshotRecoverable => FR1
  | R2Compensatable => FR2
  | R3IrreversibleHighConsequence => FR3
  end.

Definition dangerous_attrs : list (string * string) :=
  [("privileged", "true"); ("admin", "true"); ("dangerous", "true");
   ("unsafe", "true"); ("bypass", "true"); ("exec", "true")].

Definition attribute_is (m : gmap string string) (key value : string) : bool :=
  match m !! key with Some v => String.eqb v value | None => false end.

(** [if cond { score += n; }] on a [u8]. *)
Definition raise (cond : bool) (n score : Z) : Z := if cond then u8_add score n else score.

Definition low_trust (c : FirewallContext) : bool := (fc_trust_score c <? 50)%Z.
Definition no_intent (c : FirewallContext) : bool :=
  match fc_intent c with None => true | Some i => String.eqb i "" end.

Definition compute_taint_score (c : FirewallContext) : Z :=
  let score := raise (fc_is_external c) 30 0 in
  let score := raise (low_trust c) 20 score in
  let score := raise (no_intent c) 15 score in
  let score := foldl (λ score '(key, value), raise (attribute_is (fc_attributes c) key value) 20 score)
                 score dangerous_attrs in
  Z.min score 100.

Definition label_trust (c : FirewallContext) : FwTrustLabel := from_taint_score (compute_taint_score c).

Definition should_quarantine (taint_score : Z) (class : FwRollbackClass) : bool :=
  match class with
  | FR0 => false
  | FR3 => (70 <=? taint_score)%Z
  | FR1 | FR2 => (90 <=? taint_score)%Z
  end.

(** ** Contradictions *)

Record Contradiction := {
  ct_field_a : string; ct_value_a : string;
  ct_field_b : string; ct_value_b : string;
  ct_reason : string;
}.

Definition detect_contradiction (c : FirewallContext) : list Contradiction :=
  let m := fc_attributes c in
  (match m !! "action", m !! "write_target" with
   | Some action, Some target =>
       if String.eqb action "read" then
         [{| ct_field_a := "action"; ct_value_a := "read"; ct_field_b := "write_target";
             ct_value_b := target; ct_reason := "read action specified but write_target is set" |}]
       else []
   | _, _ => []
   end) ++
  (match m !! "trust_level" with
   | Some trust_level =>
       if String.eqb trust_level "high" && fc_is_external c then
         [{| ct_field_a := "trust_level"; ct_value_a := "high"; ct_field_b := "source";
             ct_value_b := fc_source c; ct_reason := "trust_level is high but source is external" |}]
       else []
   | None => []
   end) ++
  (match m !! "requires_approval", m !! "rollback_class" with
   | Some requires_approval, Some class =>
       if String.eqb requires_approval "false" &&
          (String.eqb class "R3" || String.eqb class "R3IrreversibleHighConsequence") then
         [{| ct_field_a := "requires_approval"; ct_value_a := "false"; ct_field_b := "rollback_class";
             ct_value_b := class;
             ct_reason := "requires_approval is false but rollback_class is R3 (irreversible)" |}]
       else []
   | _, _ => []
   end).

(** ** Sanitizing *)

(** Control characters other than tab, line feed and carriage return become
    spaces; they are single bytes. *)
Definition is_control (a : ascii) : bool :=
  let code := N_of_ascii a in
  ((code <? 32) && negb (code =? 9) && negb (code =? 10) && negb (code =? 13) || (code =? 127))%N%bool.

Fixpoint replace_control (s : string) : string :=
  match s with
  | EmptyString => EmptyString
  | String a s' => String (if is_control a then " " else a)%char (replace_control s')
  end.

(** Runs of whitespace become one space; [skip] bytes remain of the whitespace
    character being passed. *)
Fixpoint collapse_from (skip : nat) (last_was_ws : bool) (s : string) : string :=
  match s with
  | EmptyString => EmptyString
  | String a s' =>
      match skip with
      | S k => collapse_from k last_was_ws s'
      | O =>
          match whitespace_len s with
          | O => String a (collapse_from 0 false s')
          | S k => if last_was_ws then collapse_from k true s'
                   else String " " (collapse_from k true s')
          end
      end
  end.
Definition collapse_whitespace (s : string) : string := collapse_from 0 false s.

(** [str::trim]. *)
Fixpoint trim_start_from (skip : nat) (s : string) : string :=
  match s with
  | EmptyString => EmptyString
  | String _ s' =>
      match skip with
      | S k => trim_start_from k s'
      | O => match whitespace_len s with O => s | S k => trim_start_from k s' end
      end
  end.
Fixpoint str_trim_end (s : string) : string :=
  if str_trim_is_empty s then EmptyString
  else match s with EmptyString => EmptyString | String a s' => String a (str_trim_end s') end.
Definition str_trim (s : string) : string := str_trim_end (trim_start_from 0 s).

(** What [sanitize] does before it redacts. *)
Definition normalize (input : string) : string :=
  str_trim (collapse_whitespace (replace_control input)).

(** The patterns of [redact_secrets], in order. *)
Definition secret_patterns : list string :=
  ["(?i)-----BEGIN\s+(?:ENCRYPTED\s+|RSA\s+|EC\s+|OPENSSH\s+|DSA\s+)?PRIVATE\s+KEY-----[A-Za-z0-9\s+/=]*?-----END\s+(?:ENCRYPTED\s+|RSA\s+|EC\s+|OPENSSH\s+|DSA\s+)?PRIVATE\s+KEY-----";
   "\bgh[opusr]_[A-Za-z0-9]{36,}\b";
   "\bgithub_pat_[A-Za-z0-9_]{20,}\b";
   "\bAKIA[0-9A-Z]{16}\b";
   "\bASIA[0-9A-Z]{16}\b";
   "(?i)\bBearer\s+[A-Za-z0-9\-_\.=+/]{8,}";
   "(?i)\b(?:api[_-]?key|secret[_-]?key|access[_-]?key|auth[_-]?token)\s*[:=]\s*[A-Za-z0-9\-_\.=+/]{8,}"].

Section sanitize.
(** [Regex::new(pattern).replace_all(haystack, replacement)]. *)
Context (replace_all : string → string → string → string).

Definition redact_secrets (input : string) : string :=
  foldl (λ result pattern, replace_all pattern result "[REDACTED]") input secret_patterns.

Definition sanitize (input : string) : string := redact_secrets (normalize input).

Fixpoint sanitize_output (v : json) : json :=
  match v with
  | JStr s => JStr (sanitize s)
  | JObj m => JObj ((fix go m := match m with
                                 | [] => []
                                 | (k, x) :: m' => (k, sanitize_output x) :: go m'
                                 end) m)
  | JArr l => JArr (sanitize_output <$> l)
  | other => other
  end.
End sanitize.

(** ** The score *)

Definition weight (b : bool) (n : Z) : Z := if b then n else 0.

(** The sum of the scoring rules, without cap and without machine arithmetic. *)
Definition taint_sum (c : FirewallContext) : Z :=
  (weight (fc_is_external c) 30 + weight (low_trust c) 20 + weight (no_intent c) 15 +
   20 * Z.of_nat (length (filter (λ kv, attribute_is (fc_attributes c) kv.1 kv.2 = true) dangerous_attrs)))%Z.

Lemma raise_weight cond n score :
  (0 ≤ score)%Z → (0 ≤ n)%Z → (score + n < 256)%Z → raise cond n score = (score + weight cond n)%Z.
Proof. intros. unfold raise, weight. destruct cond; [apply u8_add_small; lia | lia]. Qed.

Lemma raise_attributes m attrs score :
  (0 ≤ score)%Z → (score + 20 * Z.of_nat (length attrs) < 256)%Z →
  foldl (λ score '(key, value), raise (attribute_is m key value) 20 score) score attrs
  = (score + 20 * Z.of_nat (length (filter (λ kv, attribute_is m kv.1 kv.2 = true) attrs)))%Z.
Proof.
  revert score. induction attrs as [|[k v] attrs IH]; intros score Hs Hb; simpl; [lia|].
  cbn [length] in Hb. rewrite raise_weight by lia. rewrite IH.
  - rewrite filter_cons. simpl. unfold weight. destruct (attribute_is m k v); case_decide; simpl; try done; lia.
  - unfold weight. case_match; lia.
  - unfold weight. case_match; lia.
Qed.

Lemma weight_bound b n : (0 ≤ n)%Z → (0 ≤ weight b n ≤ n)%Z.
Proof. unfold weight. case_match; lia. Qed.

Lemma taint_score_sum c : compute_taint_score c = Z.min (taint_sum c) 100.
Proof.
  pose proof (weight_bound (fc_is_external c) 30). pose proof (weight_bound (low_trust c) 20).
  pose proof (weight_bound (no_intent c) 15).
  unfold compute_taint_score, taint_sum. rewrite (raise_weight _ 30) by lia.
  rewrite (raise_weight (low_trust c)) by lia. rewrite (raise_weight (no_intent c)) by lia.
  rewrite raise_attributes by (unfold dangerous_attrs; simpl; lia). done.
Qed.

(** The eight-bit additions of the taint score never wrap around: the score is
    the sum of the scoring rules, capped at 100. *)
Theorem compute_taint_score_exact c :
  compute_taint_score c = Z.min (taint_sum c) 100 ∧ (0 ≤ compute_taint_score c ≤ 100)%Z.
Proof.
  pose proof (weight_bound (fc_is_external c) 30). pose proof (weight_bound (low_trust c) 20).
  pose proof (weight_bound (no_intent c) 15). rewrite taint_score_sum. unfold taint_sum. lia.
Qed.

(** [c'] raises every alarm [c] raises. *)
Record riskier (c c' : FirewallContext) : Prop := {
  rk_external : fc_is_external c = true → fc_is_external c' = true;
  rk_trust : low_trust c = true → low_trust c' = true;
  rk_intent : no_intent c = true → no_intent c' = true;
  rk_attributes : ∀ kv, kv ∈ dangerous_attrs →
    attribute_is (fc_attributes c) kv.1 kv.2 = true → attribute_is (fc_attributes c') kv.1 kv.2 = true;
}.

Lemma weight_mono b b' n : (0 ≤ n)%Z → (b = true → b' = true) → (weight b n ≤ weight b' n)%Z.
Proof. intros Hn Hb. unfold weight. destruct b; [rewrite Hb by done; lia | destruct b'; lia]. Qed.

Lemma filter_length_mono {A} (f g : A → bool) l :
  (∀ x, x ∈ l → f x = true → g x = true) →
  length (filter (λ x, f x = true) l) ≤ length (filter (λ x, g x = true) l).
Proof.
  induction l as [|x l IH]; intros H; [done|]. rewrite !filter_cons.
  assert (length (filter (λ x, f x = true) l) ≤ length (filter (λ x, g x = true) l)).
  { apply IH. intros y Hy. apply H. by right. }
  assert (f x = true → g x = true) by (apply H; by left).
  repeat case_decide; simpl; try lia. naive_solver.
Qed.

Lemma compute_taint_score_mono c c' :
  riskier c c' → (compute_taint_score c ≤ compute_taint_score c')%Z.
Proof.
  intros [He Ht Hi Ha]. rewrite !taint_score_sum. unfold taint_sum.
  pose proof (weight_mono _ _ 30 ltac:(lia) He). pose proof (weight_mono _ _ 20 ltac:(lia) Ht).
  pose proof (weight_mono _ _ 15 ltac:(lia) Hi).
  pose proof (filter_length_mono _ _ dangerous_attrs Ha). lia.
Qed.

(** a context that raises every alarm another raises is quarantined whenever
    the other is, for every rollback class; a reversible (R0) action is never
    quarantined, and an irreversible (R3) one is whenever the context's label is
    Untrusted or Quarantined. *)
Theorem quarantine_monotone c c' class :
  riskier c c' →
  (should_quarantine (compute_taint_score c) class = true →
   should_quarantine (compute_taint_score c') class = true) ∧
  should_quarantine (compute_taint_score c) FR0 = false ∧
  (should_quarantine (compute_taint_score c) FR3 = true ↔
   label_trust c = FL_Untrusted ∨ label_trust c = FL_Quarantined) ∧
  (should_quarantine (compute_taint_score c) FR1 = true ↔ label_trust c = FL_Quarantined).
Proof.
  intros Hr%compute_taint_score_mono. unfold label_trust, from_taint_score. split_and!.
  - destruct class; simpl; rewrite ?Z.leb_le; [done | lia..].
  - done.
  - simpl. rewrite Z.leb_le. repeat case_match; rewrite ?Z.leb_le, ?Z.leb_gt in *; split; intros; naive_solver lia.
  - simpl. rewrite Z.leb_le. repeat case_match; rewrite ?Z.leb_le, ?Z.leb_gt in *; split; intros; naive_solver lia.
Qed.

(** ** The sanitizer *)

(** [f] holds of every byte of [s]. *)
Fixpoint str_forall (f : ascii → bool) (s : string) : bool :=
  match s with EmptyString => true | String a s' => f a && str_forall f s' end.

Definition printable (a : ascii) : bool := ((32 <=? N_of_ascii a) && negb (N_of_ascii a =? 127))%N.

Lemma str_forall_spec f s :
  str_forall f s = true ↔ ∀ a, a ∈ list_ascii_of_string s → f a = true.
Proof.
  induction s as [|b s IH]; simpl; [split; [intros _ a ?%not_elem_of_nil | ]; done|].
  rewrite andb_true_iff, IH. setoid_rewrite elem_of_cons. naive_solver.
Qed.

(** A byte that starts no whitespace and is no control character is printable. *)
Lemma kept_printable a s :
  is_control a = false → whitespace_len (String a s) = 0 → printable a = true.
Proof.
  unfold is_control, printable. cbn [whitespace_len]. set (n := N_of_ascii a). intros Hc.
  destruct ((9 <=? n) && (n <=? 13) || (n =? 32))%N%bool eqn:Hw; [done|]. intros _.
  rewrite andb_true_iff, negb_true_iff, N.leb_le, N.eqb_neq.
  rewrite orb_false_iff, !andb_false_iff, !negb_false_iff, N.ltb_ge, !N.eqb_eq, N.eqb_neq in Hc.
  rewrite orb_false_iff, andb_false_iff, !N.leb_gt, N.eqb_neq in Hw. lia.
Qed.

Lemma replace_control_clean s : str_forall (λ a, negb (is_control a)) (replace_control s) = true.
Proof.
  induction s as [|a s IH]; [done|]. cbn [replace_control str_forall].
  destruct (is_control a) eqn:Ha; [done|]. by rewrite Ha.
Qed.

Lemma collapse_printable skip last s :
  str_forall (λ a, negb (is_control a)) s = true →
  str_forall printable (collapse_from skip last s) = true.
Proof.
  revert skip last. induction s as [|a s IH]; intros skip last Hs; [done|].
  cbn [str_forall] in Hs. apply andb_true_iff in Hs as [Ha%negb_true_iff Hs].
  cbn [collapse_from]. destruct skip as [|k]; [|by apply IH].
  destruct (whitespace_len (String a s)) as [|k] eqn:Hw.
  - cbn [str_forall]. rewrite IH by done. by rewrite (kept_printable a s).
  - destruct last; cbn [str_forall]; rewrite ?IH by done; done.
Qed.

Lemma trim_start_forall f skip s : str_forall f s = true → str_forall f (trim_start_from skip s) = true.
Proof.
  revert skip. induction s as [|a s IH]; intros skip Hs; [done|].
  pose proof Hs as Hs'. cbn [str_forall] in Hs'. apply andb_true_iff in Hs' as [_ Hs'].
  cbn [trim_start_from]. destruct skip; [case_match; [done | by apply IH] | by apply IH].
Qed.

Lemma trim_end_forall f s : str_forall f s = true → str_forall f (str_trim_end s) = true.
Proof.
  induction s as [|a s IH]; intros Hs; [done|]. cbn [str_forall] in Hs.
  apply andb_true_iff in Hs as [Ha Hs]. cbn [str_trim_end]. case_match; [done|].
  cbn [str_forall]. by rewrite Ha, IH.
Qed.

(** Before redaction, no control character of any kind is left. *)
Lemma normalize_printable s : str_forall printable (normalize s) = true.
Proof. apply trim_end_forall, trim_start_forall, collapse_printable, replace_control_clean. Qed.

(** The only whitespace of [s] is single spaces; with [last], none at the start. *)
Fixpoint single_spaced (last : bool) (s : string) : bool :=
  match s with
  | EmptyString => true
  | String a s' =>
      match whitespace_len s with
      | O => single_spaced false s'
      | S _ => Ascii.eqb a " " && negb last && single_spaced true s'
      end
  end.

Lemma whitespace_len_cut a s t :
  whitespace_len (String a s) = 0 →
  (t = EmptyString ∨ (∃ t', t = String " " t') ∨
   ∃ b s' t', s = String b s' ∧ t = String b t' ∧
     (t' = EmptyString ∨ (∃ u, t' = String " " u) ∨ ∃ c s'' u, s' = String c s'' ∧ t' = String c u)) →
  whitespace_len (String a t) = 0.
Proof.
  intros Hw Ht. cbn [whitespace_len] in *. set (n := N_of_ascii a) in *.
  destruct ((9 <=? n) && (n <=? 13) || (n =? 32))%N%bool; [done|].
  destruct Ht as [-> | [[t' ->] | (b & s' & t' & -> & -> & Ht)]]; [done| |].
  - replace (N_of_ascii " ") with 32%N by done. rewrite andb_false_r.
    destruct t'; [done|]. rewrite !andb_false_r. done.
  - destruct ((n =? 194) && ((N_of_ascii b =? 133) || (N_of_ascii b =? 160)))%N%bool; [done|].
    destruct Ht as [-> | [[u ->] | (c & s'' & u & -> & ->)]]; [done | | done].
    replace (N_of_ascii " ") with 32%N by done. rewrite !andb_false_r. done.
Qed.

(** What comes out of [collapse_from] starts with a space or as its input does. *)
Lemma collapse_head s :
  collapse_from 0 false s = EmptyString ∨ (∃ t, collapse_from 0 false s = String " " t) ∨
  ∃ b s', s = String b s' ∧ collapse_from 0 false s = String b (collapse_from 0 false s').
Proof.
  destruct s as [|b s]; [by left|]. cbn [collapse_from]. case_match; [|by right; left; eexists].
  right. right. by exists b, s.
Qed.

Lemma collapse_whitespace_len a s :
  whitespace_len (String a s) = 0 → whitespace_len (String a (collapse_from 0 false s)) = 0.
Proof.
  intros Hw. apply (whitespace_len_cut a s); [done|].
  destruct (collapse_head s) as [-> | [[t ->] | (b & s' & -> & ->)]]; [by left | by right; left; eexists |].
  right. right. exists b, s', (collapse_from 0 false s'). split_and!; [done..|].
  destruct (collapse_head s') as [-> | [[t ->] | (c & s'' & -> & ->)]];
    [by left | by right; left; eexists | right; right; by do 3 eexists].
Qed.

Lemma collapse_single_spaced skip last s : single_spaced last (collapse_from skip last s) = true.
Proof.
  revert skip last. induction s as [|a s IH]; intros skip last; [done|].
  cbn [collapse_from]. destruct skip as [|k]; [|apply IH].
  destruct (whitespace_len (String a s)) as [|k] eqn:Hw.
  - cbn [single_spaced]. by rewrite collapse_whitespace_len.
  - destruct last; [apply IH|]. cbn [single_spaced].
    replace (whitespace_len (String " " (collapse_from k true s))) with 1 by done.
    by rewrite IH.
Qed.

Lemma single_spaced_collapse last s : single_spaced last s = true → collapse_from 0 last s = s.
Proof.
  revert last. induction s as [|a s IH]; intros last Hs; [done|]. cbn [single_spaced collapse_from] in *.
  destruct (whitespace_len (String a s)) as [|k] eqn:Hw; [by rewrite IH|].
  destruct_andb. match goal with H : Ascii.eqb _ _ = true |- _ => apply Ascii.eqb_eq in H as -> end.
  subst last. injection Hw as <-. by rewrite IH.
Qed.

Lemma replace_control_printable s : str_forall printable s = true → replace_control s = s.
Proof.
  induction s as [|a s IH]; [done|]. cbn [str_forall replace_control]. intros Hs.
  rewrite IH by by apply andb_true_iff in Hs as [_ ?]. replace (is_control a) with false; [done|]. symmetry.
  unfold printable, is_control in *. rewrite !andb_true_iff, negb_true_iff, N.leb_le, N.eqb_neq in Hs.
  rewrite orb_false_iff, !andb_false_iff, N.ltb_ge, N.eqb_neq. lia.
Qed.

(** A single-spaced string is trimmed by dropping the space at its start. *)
Lemma trim_start_single_spaced last s :
  single_spaced last s = true → single_spaced true (trim_start_from 0 s) = true.
Proof.
  intros Hs. destruct s as [|a s]; [done|]. cbn [trim_start_from].
  destruct (whitespace_len (String a s)) as [|k] eqn:Hw.
  - cbn [single_spaced] in *. by rewrite Hw in *.
  - cbn [single_spaced] in Hs. rewrite Hw in Hs. destruct_andb.
    match goal with H : Ascii.eqb _ _ = true |- _ => apply Ascii.eqb_eq in H as -> end.
    injection Hw as <-. destruct s as [|b s]; [done|]. cbn [trim_start_from].
    match goal with H : single_spaced true _ = true |- _ => pose proof H as Hb; cbn [single_spaced] in Hb end.
    destruct (whitespace_len (String b s)); [done|]. by destruct_andb.
Qed.

Lemma trim_start_id s : single_spaced true s = true → trim_start_from 0 s = s.
Proof.
  destruct s as [|a s]; [done|]. cbn [single_spaced trim_start_from].
  destruct (whitespace_len (String a s)); [done|]. intros. by destruct_andb.
Qed.

Lemma trim_end_head s :
  str_trim_end s = EmptyString ∨
  ∃ b s', s = String b s' ∧ str_trim_end s = String b (str_trim_end s').
Proof.
  destruct s as [|b s]; [by left|]. cbn [str_trim_end]. case_match; [by left | right; by exists b, s].
Qed.

Lemma trim_end_whitespace_len a s :
  whitespace_len (String a s) = 0 → whitespace_len (String a (str_trim_end s)) = 0.
Proof.
  intros Hw. apply (whitespace_len_cut a s); [done|].
  destruct (trim_end_head s) as [-> | (b & s' & -> & ->)]; [by left | right; right].
  exists b, s', (str_trim_end s'). split_and!; [done..|].
  destruct (trim_end_head s') as [-> | (c & s'' & -> & ->)]; [by left | right; right; by do 3 eexists].
Qed.

Lemma trim_is_empty_cons a s :
  str_trim_is_empty (String a s) =
  match whitespace_len (String a s) with O => false | S k => trim_is_empty_aux k s end.
Proof. done. Qed.

Lemma trim_end_single_spaced last s :
  single_spaced last s = true →
  single_spaced last (str_trim_end s) = true ∧
  str_trim_is_empty (str_trim_end s) = str_trim_is_empty s ∧
  str_trim_end (str_trim_end s) = str_trim_end s.
Proof.
  revert last. induction s as [|a s IH]; intros last Hs; [done|]. cbn [str_trim_end].
  destruct (str_trim_is_empty (String a s)) eqn:He; [done|].
  cbn [single_spaced] in Hs. rewrite trim_is_empty_cons in He.
  destruct (whitespace_len (String a s)) as [|k] eqn:Hw.
  - destruct (IH _ Hs) as (H1 & _ & H3). pose proof (trim_end_whitespace_len _ _ Hw) as Hw'.
    cbn [single_spaced str_trim_end]. rewrite trim_is_empty_cons, Hw', H3. done.
  - destruct_andb. match goal with H : Ascii.eqb _ _ = true |- _ => apply Ascii.eqb_eq in H as -> end.
    injection Hw as <-. destruct (IH true) as (Hs1 & Hs2 & Hs3); [done|]. subst last.
    change (trim_is_empty_aux 0 s) with (str_trim_is_empty s) in He. rewrite He in Hs2.
    cbn [single_spaced str_trim_end]. rewrite trim_is_empty_cons.
    change (whitespace_len (String " " (str_trim_end s))) with 1. cbn iota.
    change (trim_is_empty_aux 0 (str_trim_end s)) with (str_trim_is_empty (str_trim_end s)).
    rewrite Hs2, Hs1, Hs3. done.
Qed.

(** A normalized text is a fixed point. *)
Lemma normalize_idempotent s : normalize (normalize s) = normalize s.
Proof.
  pose proof (normalize_printable s) as Hp. unfold normalize at 1. rewrite replace_control_printable by done.
  clear Hp. unfold normalize, str_trim, collapse_whitespace. set (t := collapse_from 0 false (replace_control s)).
  assert (single_spaced true (trim_start_from 0 t) = true) as Ht
    by (eapply trim_start_single_spaced, collapse_single_spaced).
  destruct (trim_end_single_spaced _ _ Ht) as (H1 & _ & H3).
  assert (∀ u, single_spaced true u = true → single_spaced false u = true) as Hweak.
  { intros [|a u]; [done|]. cbn [single_spaced]. case_match; [done|]. intros. by destruct_andb. }
  rewrite single_spaced_collapse by by apply Hweak. by rewrite trim_start_id, H3.
Qed.

(** ** Sanitized responses *)

Section output.
Context (replace_all : string → string → string → string).
(** Replacing matches copies bytes of the text and of the replacement. *)
Hypothesis replace_all_bytes : ∀ pattern text replacement a,
  a ∈ list_ascii_of_string (replace_all pattern text replacement) →
  a ∈ list_ascii_of_string text ∨ a ∈ list_ascii_of_string replacement.

Lemma redact_printable s :
  str_forall printable s = true → str_forall printable (redact_secrets replace_all s) = true.
Proof using replace_all_bytes.
  unfold redact_secrets. generalize secret_patterns. intros ps. revert s.
  induction ps as [|p ps IH]; intros s Hs; [done|]. apply IH. rewrite str_forall_spec in *.
  intros a [Ha | Ha]%replace_all_bytes; [by apply Hs|].
  by apply (proj1 (str_forall_spec printable "[REDACTED]") eq_refl).
Qed.

(** [v'] is [v] with every text replaced by a printable one. *)
Fixpoint sanitized (v v' : json) : Prop :=
  match v, v' with
  | JStr _, JStr s' => str_forall printable s' = true
  | JArr l, JArr l' =>
      (fix go l l' := match l, l' with
                      | [], [] => True
                      | x :: l, x' :: l' => sanitized x x' ∧ go l l'
                      | _, _ => False
                      end) l l'
  | JObj m, JObj m' =>
      (fix go m m' := match m, m' with
                      | [], [] => True
                      | (k, x) :: m, (k', x') :: m' => k = k' ∧ sanitized x x' ∧ go m m'
                      | _, _ => False
                      end) m m'
  | _, _ => v = v'
  end.

(** Sanitizing a response keeps its structure: every key, number, boolean and
    null is unchanged and in place, and every text becomes one without control
    characters, line breaks or tabs. *)
Theorem sanitize_output_sanitized v : sanitized v (sanitize_output replace_all v).
Proof using replace_all_bytes.
  induction v as [ | | | |s|l IH|m IH] using json_nested_ind; try done.
  - apply redact_printable, normalize_printable.
  - induction IH as [|x l Hx _ IHl]; [done|]. by split.
  - induction IH as [|[k x] m Hx _ IHm]; [done|]. by split_and!.
Qed.
End output.

(** ** Examples *)

Definition external_context : FirewallContext :=
  {| fc_source := "external"; fc_intent := None; fc_trust_score := 30; fc_is_external := true;
     fc_attributes := {["privileged" := "true"]} |}.
Definition escalated_context : FirewallContext :=
  {| fc_source := "external"; fc_intent := Some ""; fc_trust_score := 30; fc_is_external := true;
     fc_attributes := {["privileged" := "true"; "admin" := "true"]} |}.

Lemma quarantine_monotone_witness :
  should_quarantine (compute_taint_score external_context) FR3 = true ∧
  should_quarantine (compute_taint_score escalated_context) FR3 = true ∧
  compute_taint_score external_context = 85%Z ∧ compute_taint_score escalated_context = 100%Z.
Proof.
  split_and!; [by_eval | | by_eval | by_eval].
  refine (proj1 (quarantine_monotone external_context escalated_context FR3 _) _); [|by_eval].
  split; [intros _; reflexivity.. |]. intros kv Hin. unfold dangerous_attrs in Hin.
  repeat (apply elem_of_cons in Hin as [-> | Hin]; [vm_compute; intros; (reflexivity || discriminate)|]).
  by apply not_elem_of_nil in Hin.
Defined.

(** A replacement of the whole text when it names the pattern's subject. *)
Definition replace_bearer (pattern text replacement : string) : string :=
  if str_contains "Bearer" pattern && str_contains "Bearer " text then replacement else text.

Definition noisy_response : json :=
  JObj [("note", JStr (String "000" " hello  world"));
        ("parts", JArr [JStr "Bearer abcdefgh12345"; JInt 3])].

Lemma sanitize_output_sanitized_witness :
  sanitize_output replace_bearer noisy_response
    = JObj [("note", JStr "hello world"); ("parts", JArr [JStr "[REDACTED]"; JInt 3])] ∧
  sanitized noisy_response (sanitize_output replace_bearer noisy_response).
Proof.
  split; [by_eval|]. apply (sanitize_output_sanitized replace_bearer).
  intros pattern text replacement a. unfold replace_bearer. destruct (_ && _); [intros H; right; exact H | intros H; left; exact H].
Defined.
