(* ===== verification/FileSystem.v ===== *)
(** * The file system (std::fs and std::path as the file-system adapter uses them)

    A tree of files, directories and symbolic links by absolute location, the
    resolution of a path by the kernel, and the calls of [std::fs], each of which may
    fail.  A computation reads the [Host] (what the process cannot choose: working
    directory, umask, devices, faults) and changes the tree. *)

From S2P Require Import Prelude.
From Stdlib Require Import Ascii.

(** ** Paths *)

(** [std::path::Component] on Unix. *)
Inductive Component := RootDir | CurDir | ParentDir | Normal (name : string).
#[export] Instance Component_eq_dec : EqDecision Component. Proof. solve_decision. Defined.

(** The parts of a path between slashes. *)
Fixpoint slash_parts_from (acc s : string) : list string :=
  match s with
  | EmptyString => [acc]
  | String c s' =>
      if Ascii.eqb c "/"%char then acc :: slash_parts_from "" s'
      else slash_parts_from (acc +:+ String c "") s'
  end.
Definition slash_parts (s : string) : list string := slash_parts_from "" s.

Definition is_absolute (s : string) : bool := str_starts_with "/" s.

Definition part_component (p : string) : list Component :=
  if String.eqb p "" then [] else if String.eqb p "." then []
  else if String.eqb p ".." then [ParentDir] else [Normal p].

(** [Path::components]: empty parts and inner [.] are dropped; a leading [.] of a
    relative path is kept. *)
Definition components (s : string) : list Component :=
  let parts := slash_parts s in
  (if is_absolute s then [RootDir]
   else match parts with "." :: _ => [CurDir] | _ => [] end)
  ++ (parts ≫= part_component).

(** What the kernel walks: as [components], but a trailing [/] or [/.] asks the path to
    be a directory. *)
Definition kernel_path (s : string) : list Component :=
  components s ++ (if str_ends_with "/" s || str_ends_with "/." s then [CurDir] else []).

(** [mkdir] accepts a trailing slash on the name to be created. *)
Definition mkdir_path (s : string) : list Component :=
  if str_ends_with "/." s then kernel_path s else components s.

(** [Path::display] of a path built from components. *)
Definition component_text (c : Component) : string :=
  match c with RootDir => "/" | CurDir => "." | ParentDir => ".." | Normal n => n end.
Definition path_text (cs : list Component) : string :=
  match cs with
  | RootDir :: cs => "/" +:+ String.concat "/" (component_text <$> cs)
  | cs => String.concat "/" (component_text <$> cs)
  end.

(** [Path::parent] and [Path::file_name]. *)
Definition parent_path (cs : list Component) : option (list Component) :=
  match rev cs with
  | [] | [RootDir] => None
  | RootDir :: _ => None
  | _ :: r => Some (rev r)
  end.
Definition has_file_name (cs : list Component) : bool :=
  match rev cs with Normal _ :: _ => true | _ => false end.

(** [PathBuf::join] of a relative name. *)
Definition join_name (cs : list Component) (name : string) : list Component :=
  cs ++ (slash_parts name ≫= part_component).

(** ** The tree *)

(** An absolute location: the names from the root. *)
Abbreviation Loc := (list string).

Inductive Node :=
| File (content : string) (mode : Z)
| Dir (mode : Z)
| Link (target : string).
#[export] Instance Node_eq_dec : EqDecision Node. Proof. solve_decision. Defined.

Abbreviation Tree := (gmap Loc Node).

(** The root always exists. *)
Definition node_at (t : Tree) (l : Loc) : option Node :=
  match l with [] => Some (Dir 493) | _ => t !! l end.

Definition is_dir_node (n : option Node) : bool :=
  match n with Some (Dir _) => true | _ => false end.

Definition parent_loc (l : Loc) : Loc := removelast l.

(** ** Errors of the kernel *)

Inductive IoError :=
| ENOENT | EEXIST | EXDEV | ENOTDIR | EISDIR | EINVAL | ENOTEMPTY | ELOOP
| EOther (text : string).

(** [Display] of [std::io::Error]. *)
Definition io_error_text (e : IoError) : string :=
  match e with
  | ENOENT => "No such file or directory (os error 2)"
  | EEXIST => "File exists (os error 17)"
  | EXDEV => "Invalid cross-device link (os error 18)"
  | ENOTDIR => "Not a directory (os error 20)"
  | EISDIR => "Is a directory (os error 21)"
  | EINVAL => "Invalid argument (os error 22)"
  | ENOTEMPTY => "Directory not empty (os error 39)"
  | ELOOP => "Too many levels of symbolic links (os error 40)"
  | EOther s => s
  end.

(** ** Path resolution *)

(** At most 40 symbolic links are followed.  The walk stands at a directory; the last
    name may be missing, and is followed if it is a link only when [follow]. *)
Fixpoint walk (links : nat) (t : Tree) (follow : bool) : Loc → list Component → result Loc IoError :=
  fix go (cur : Loc) (cs : list Component) {struct cs} : result Loc IoError :=
  match cs with
  | [] => Ok cur
  | RootDir :: cs => go [] cs
  | CurDir :: cs => if is_dir_node (node_at t cur) then go cur cs else Err ENOTDIR
  | ParentDir :: cs => if is_dir_node (node_at t cur) then go (parent_loc cur) cs else Err ENOTDIR
  | Normal n :: cs =>
      if is_dir_node (node_at t cur) then
        let l := cur ++ [n] in
        match t !! l with
        | None => match cs with [] => Ok l | _ => Err ENOENT end
        | Some (Link target) =>
            match cs, follow with
            | [], false => Ok l
            | _, _ =>
                match links with
                | O => Err ELOOP
                | S links => walk links t follow cur (kernel_path target ++ cs)
                end
            end
        | Some _ => go l cs
        end
      else Err ENOTDIR
  end.

Definition max_links : nat := 40.

(** ** Computations *)

(** What the process meets but does not choose. *)
Record Host := {
  h_cwd : Loc;
  h_temp_dir : string;                    (** [std::env::temp_dir] *)
  h_umask : Z;
  h_device : Loc → Z;                     (** the device a location is on *)
  h_fault : nat → option (IoError * nat); (** a call that fails, with the bytes it wrote *)
  h_now : nat → string;                   (** [Utc::now().to_rfc3339()] *)
}.

Record Fs := mkFs { fs_tree : Tree; fs_tick : nat }.

(** A computation on the file system. *)
Definition io (A : Type) : Type := Host → Fs → A * Fs.

Definition io_ret {A} (a : A) : io A := λ _ s, (a, s).
Definition io_bind {A B} (m : io A) (k : A → io B) : io B :=
  λ h s, let '(a, s) := m h s in k a h s.

Declare Scope io_scope.
Delimit Scope io_scope with io.
Notation "x <~ m ; k" := (io_bind m (λ x, k))
  (at level 100, m at level 99, k at level 200, right associativity, only parsing) : io_scope.
(** The [?] operator. *)
Notation "x <~? m ; k" :=
  (io_bind m (λ r, match r with Ok x => k | Err e => io_ret (Err e) end))
  (at level 100, m at level 99, k at level 200, right associativity, only parsing) : io_scope.
Open Scope io_scope.

Definition io_map_err {A E F} (f : E → F) (m : io (result A E)) : io (result A F) :=
  r <~ m ; io_ret (map_err f r).

Definition io_now : io string := λ h s, (h_now h (fs_tick s), s).

(** One call of the kernel: it fails without effect, or is carried out. *)
Definition kernel_call {A} (f : Host → Tree → result A IoError * Tree) : io (result A IoError) :=
  λ h s, let s' := mkFs (fs_tree s) (S (fs_tick s)) in
    match h_fault h (fs_tick s) with
    | Some (e, _) => (Err e, s')
    | None => let '(r, t) := f h (fs_tree s) in (r, mkFs t (S (fs_tick s)))
    end.

(** A call that only looks. *)
Definition kernel_read {A} (f : Host → Tree → result A IoError) : io (result A IoError) :=
  kernel_call (λ h t, (f h t, t)).

(** The location a path denotes; an empty path denotes none. *)
Definition resolve (h : Host) (t : Tree) (follow : bool) (p : list Component) : result Loc IoError :=
  match p with [] => Err ENOENT | _ => walk max_links t follow (h_cwd h) p end.

(** The node a path leads to. *)
Definition lookup_path (h : Host) (t : Tree) (follow : bool) (p : list Component)
  : result (Loc * Node) IoError :=
  let? l := resolve h t follow p in
  let? n := ok_or (node_at t l) ENOENT in
  Ok (l, n).

(** ** The calls of [std::fs] *)

Record Metadata := { md_node : Node; md_dev : Z }.

Definition node_len (n : Node) : Z :=
  match n with File c _ => Z.of_nat (String.length c) | Dir _ => 4096 | Link s => Z.of_nat (String.length s) end.
Definition node_mode (n : Node) : Z :=
  match n with File _ m => m | Dir m => m | Link _ => 511 end.

Definition stat (follow : bool) (p : list Component) : io (result Metadata IoError) :=
  kernel_read (λ h t, let? x := lookup_path h t follow p in
                      Ok {| md_node := x.2; md_dev := h_device h x.1 |}).
Definition metadata := stat true.
Definition symlink_metadata := stat false.

(** [Path::exists], [is_file] and [is_dir]: an error counts as absent. *)
Definition path_exists (p : list Component) : io bool := r <~ metadata p ; io_ret (is_ok r).
Definition path_is_file (p : list Component) : io bool :=
  r <~ metadata p ;
  io_ret match r with Ok {| md_node := File _ _ |} => true | _ => false end.
Definition path_is_dir (p : list Component) : io bool :=
  r <~ metadata p ;
  io_ret match r with Ok {| md_node := Dir _ |} => true | _ => false end.

(** [Path::canonicalize]. *)
Definition canonicalize (p : list Component) : io (result Loc IoError) :=
  kernel_read (λ h t, let? x := lookup_path h t true p in Ok x.1).

(** [metadata] of a canonical path. *)
Definition metadata_at (l : Loc) : io (result Metadata IoError) :=
  metadata (RootDir :: (Normal <$> l)).

Definition file_mode (h : Host) : Z := Z.ldiff 438 (h_umask h).   (** 0o666 & !umask *)
Definition dir_mode (h : Host) : Z := Z.ldiff 511 (h_umask h).    (** 0o777 & !umask *)

(** Reading the whole of an open file. *)
Definition read_file (follow : bool) (p : list Component) : io (result string IoError) :=
  kernel_read (λ h t,
    let? x := lookup_path h t follow p in
    match x.2 with File c _ => Ok c | Dir _ => Err EISDIR | Link _ => Err ELOOP end).

(** [open] with [create] and [truncate]: the location that is then written to. *)
Definition open_truncate (follow : bool) (mode : Host → Z) (p : list Component) : io (result Loc IoError) :=
  kernel_call (λ h t,
    match resolve h t follow p with
    | Err e => (Err e, t)
    | Ok l =>
        match node_at t l with
        | Some (File _ m) => (Ok l, <[l := File "" m]> t)
        | Some (Dir _) => (Err EISDIR, t)
        | Some (Link _) => (Err ELOOP, t)
        | None => (Ok l, <[l := File "" (mode h)]> t)
        end
    end).

(** [open] with [append]: the file must exist. *)
Definition open_append (p : list Component) : io (result Loc IoError) :=
  kernel_read (λ h t,
    let? x := lookup_path h t false p in
    match x.2 with File _ _ => Ok x.1 | Dir _ => Err EISDIR | Link _ => Err ELOOP end).

(** [write_all] at the end of an open file; a failure may leave a part of the data. *)
Definition write_all (l : Loc) (data : string) : io (result unit IoError) :=
  λ h s,
    let append d t := match node_at t l with
                      | Some (File c m) => <[l := File (c +:+ d) m]> t
                      | _ => t
                      end in
    match h_fault h (fs_tick s) with
    | Some (e, n) => (Err e, mkFs (append (String.substring 0 n data) (fs_tree s)) (S (fs_tick s)))
    | None => (Ok tt, mkFs (append data (fs_tree s)) (S (fs_tick s)))
    end.

(** [fchmod] of an open file. *)
Definition chmod_at (l : Loc) (mode : Z) : io (result unit IoError) :=
  kernel_call (λ _ t,
    match node_at t l with
    | Some (File c _) => (Ok tt, <[l := File c (Z.land mode 4095)]> t)
    | Some (Dir _) => (Ok tt, match l with [] => t | _ => <[l := Dir (Z.land mode 4095)]> t end)
    | _ => (Err ENOENT, t)
    end).

(** [std::fs::copy]: the source is opened, the destination truncated and given the
    permissions of the source, then the data is copied (nothing is left to copy when
    both are the same file). *)
Definition copy_file (from to : list Component) : io (result unit IoError) :=
  src <~? kernel_read (λ h t, let? x := lookup_path h t true from in
                              match x.2 with
                              | File _ m => Ok (x.1, m)
                              | _ => Err (EOther "the source path is neither a regular file nor a symlink to a regular file")
                              end) ;
  dst <~? open_truncate true (λ _, src.2) to ;
  _ <~? chmod_at dst src.2 ;
  data <~? kernel_read (λ _ t, match node_at t src.1 with Some (File c _) => Ok c | _ => Err ENOENT end) ;
  write_all dst data.

(** [std::fs::remove_file]: a link itself is removed. *)
Definition remove_file (p : list Component) : io (result unit IoError) :=
  kernel_call (λ h t,
    match lookup_path h t false p with
    | Err e => (Err e, t)
    | Ok (_, Dir _) => (Err EISDIR, t)
    | Ok (l, _) => (Ok tt, delete l t)
    end).

(** Something lies below the location. *)
Definition has_child (t : Tree) (l : Loc) : bool :=
  existsb (λ kn, bool_decide (l `prefix_of` kn.1 ∧ kn.1 ≠ l)) (map_to_list t).

(** A directory moves with all that lies below it. *)
Definition move_tree (from to : Loc) (t : Tree) : Tree :=
  list_to_map ((λ kn, (if bool_decide (from `prefix_of` kn.1) then to ++ drop (length from) kn.1 else kn.1, kn.2))
                 <$> map_to_list t).

(** [std::fs::rename]. *)
Definition rename (from to : list Component) : io (result unit IoError) :=
  kernel_call (λ h t,
    match resolve h t false from, resolve h t false to with
    | Err e, _ => (Err e, t)
    | _, Err e => (Err e, t)
    | Ok lf, Ok lt =>
        if negb (h_device h (parent_loc lf) =? h_device h (parent_loc lt))%Z then (Err EXDEV, t)
        else match node_at t lf with
        | None => (Err ENOENT, t)
        | Some n =>
            if bool_decide (lf = lt) then (Ok tt, t)
            else match n with
            | Dir _ =>
                if bool_decide (lf `prefix_of` lt) then (Err EINVAL, t)
                else match node_at t lt with
                | Some (Dir _) =>
                    if has_child t lt then (Err ENOTEMPTY, t)
                    else (Ok tt, move_tree lf lt (delete lt t))
                | Some _ => (Err ENOTDIR, t)
                | None => (Ok tt, move_tree lf lt t)
                end
            | _ =>
                match node_at t lt with
                | Some (Dir _) => (Err EISDIR, t)
                | _ => (Ok tt, <[lt := n]> (delete lf t))
                end
            end
        end
    end).

(** [std::fs::create_dir]. *)
Definition create_dir (p : list Component) : io (result unit IoError) :=
  kernel_call (λ h t,
    match resolve h t false p with
    | Err e => (Err e, t)
    | Ok l => match node_at t l with
              | Some _ => (Err EEXIST, t)
              | None => (Ok tt, <[l := Dir (dir_mode h)]> t)
              end
    end).

(** [std::fs::create_dir_all], on the reversed path. *)
Fixpoint create_dir_all_rev (r : list Component) : io (result unit IoError) :=
  match r with
  | [] => io_ret (Ok tt)
  | c :: r' =>
      let p := rev (c :: r') in
      made <~ create_dir p ;
      match made with
      | Ok _ => io_ret (Ok tt)
      | Err ENOENT =>
          match parent_path p with
          | None => io_ret (Err (EOther "failed to create whole tree"))
          | Some _ =>
              _ <~? create_dir_all_rev r' ;
              again <~ create_dir p ;
              match again with
              | Ok _ => io_ret (Ok tt)
              | Err e => d <~ path_is_dir p ; io_ret (if d then Ok tt else Err e)
              end
          end
      | Err e => d <~ path_is_dir p ; io_ret (if d then Ok tt else Err e)
      end
  end.
Definition create_dir_all (p : list Component) : io (result unit IoError) := create_dir_all_rev (rev p).

(** [std::fs::remove_dir], which refuses a path whose last part is [.]. *)
Definition remove_dir (s : string) : io (result unit IoError) :=
  kernel_call (λ h t,
    match lookup_path h t false (kernel_path s) with
    | Err e => (Err e, t)
    | Ok ([], _) => (Err (EOther "Device or resource busy (os error 16)"), t)
    | Ok (l, Dir _) =>
        if str_ends_with "/." s || String.eqb s "." then (Err EINVAL, t)
        else if has_child t l then (Err ENOTEMPTY, t) else (Ok tt, delete l t)
    | Ok _ => (Err ENOTDIR, t)
    end).

(** [std::fs::read_dir(p)?.next().is_some()]. *)
Definition dir_has_entries (p : list Component) : io (result bool IoError) :=
  kernel_read (λ h t,
    let? x := lookup_path h t true p in
    match x.2 with Dir _ => Ok (has_child t x.1) | _ => Err ENOTDIR end).

(** [std::fs::set_permissions]. *)
Definition set_permissions (p : list Component) (mode : Z) : io (result unit IoError) :=
  kernel_call (λ h t,
    match lookup_path h t true p with
    | Err e => (Err e, t)
    | Ok (l, File c _) => (Ok tt, <[l := File c (Z.land mode 4095)]> t)
    | Ok ([], _) => (Ok tt, t)
    | Ok (l, Dir _) => (Ok tt, <[l := Dir (Z.land mode 4095)]> t)
    | Ok (_, Link _) => (Err ENOENT, t)
    end).
