(* ===== verification/FsAdapter.v ===== *)
(** * The file-system adapter: checks and prepare (crates/ferrum-adapter-fs/src)

    lib.rs, snapshot.rs and validation.rs: bounds and sandbox checks, snapshots, the
    checks of a request and the phase prepare for the eight file actions, over the file
    system of FileSystem.  The other phases are in FsPhases.

    The last part is about the numbers that the adapter prints and parses. *)

From stdpp Require Import pretty.
From Stdlib Require Import Ascii.
From S2P Require Import Prelude Json Proto Adapter Firewall FileSystem.

Definition ADAPTER_KIND : string := "ferrum-adapter-fs".

Record FsBoundsConfig := {
  fb_max_file_size : Z;
  fb_max_path_depth : nat;
  fb_allow_symlinks : bool;
  fb_sandbox_to_workdir : bool;
}.

(** [FsBoundsConfig::default]. *)
Definition default_bounds : FsBoundsConfig :=
  {| fb_max_file_size := 100 * 1024 * 1024; fb_max_path_depth := 20;
     fb_allow_symlinks := false; fb_sandbox_to_workdir := true |}.

Definition PHASE_PREPARE : string := "prepare".
Definition PHASE_VERIFY : string := "verify".
Definition PHASE_EXECUTE : string := "execute".
Definition PHASE_ROLLBACK : string := "rollback".

Inductive FsAdapterError :=
| FE_InvalidTarget (s : string)
| FE_FilePathNotFound (s : string)
| FE_UnsupportedAction (s : string)
| FE_UnsupportedCheck (s : string)
| FE_Validation (s : string)
| FE_Io (e : IoError)
| FE_SnapshotNotFound (s : string)
| FE_FileNotExisting (s : string)
| FE_ParentDirNotFound (s : string)
| FE_DirAlreadyExists (s : string)
| FE_DirNotFound (s : string)
| FE_DirNotEmpty (s : string)
| FE_FileSizeExceedsLimit (size limit : Z)
| FE_PathDepthExceedsLimit (depth limit : nat)
| FE_PathEscape (s : string)
| FE_SymlinkNotAllowed (s : string)
| FE_CrossDevice (s : string).

(** [Display]. *)
Definition fs_error_text (e : FsAdapterError) : string :=
  match e with
  | FE_InvalidTarget s => "invalid target: expected FilePath, got " +:+ s
  | FE_FilePathNotFound s => "file path not found or not a file: " +:+ s
  | FE_UnsupportedAction s => "unsupported action type: " +:+ s
  | FE_UnsupportedCheck s => "unsupported check type: " +:+ s
  | FE_Validation s => "validation error: " +:+ s
  | FE_Io e => "io error: " +:+ io_error_text e
  | FE_SnapshotNotFound s => "snapshot not found: " +:+ s
  | FE_FileNotExisting s => "file does not exist (cannot snapshot for rollback): " +:+ s
  | FE_ParentDirNotFound s => "parent directory does not exist: " +:+ s
  | FE_DirAlreadyExists s => "directory already exists: " +:+ s
  | FE_DirNotFound s => "directory not found: " +:+ s
  | FE_DirNotEmpty s => "directory is not empty: " +:+ s
  | FE_FileSizeExceedsLimit n m =>
      "file size " +:+ pretty n +:+ " exceeds maximum allowed size " +:+ pretty m
  | FE_PathDepthExceedsLimit n m =>
      "path depth " +:+ pretty n +:+ " exceeds maximum allowed depth " +:+ pretty m
  | FE_PathEscape s => "path escapes sandbox: " +:+ s
  | FE_SymlinkNotAllowed s => "symlinks are not allowed: " +:+ s
  | FE_CrossDevice s => "cross-device access not allowed: " +:+ s
  end.

(** [impl From<FsAdapterError> for AdapterError]. *)
Definition adapter_error_of (e : FsAdapterError) : AdapterError :=
  match e with
  | FE_UnsupportedAction s | FE_UnsupportedCheck s => AE_Unsupported s
  | FE_Io e => AE_Internal (io_error_text e)
  | FE_FileSizeExceedsLimit n m =>
      AE_Validation ("file size " +:+ pretty n +:+ " exceeds limit " +:+ pretty m)
  | FE_PathDepthExceedsLimit n m =>
      AE_Validation ("path depth " +:+ pretty n +:+ " exceeds limit " +:+ pretty m)
  | FE_InvalidTarget s | FE_FilePathNotFound s | FE_Validation s | FE_SnapshotNotFound s
  | FE_FileNotExisting s | FE_ParentDirNotFound s | FE_DirAlreadyExists s | FE_DirNotFound s
  | FE_DirNotEmpty s | FE_PathEscape s | FE_SymlinkNotAllowed s | FE_CrossDevice s => AE_Validation s
  end.

(** Functions of libraries: the hexadecimal SHA-256, [Display] of a JSON value and
    [Debug] of a target. *)
Record FsLib := {
  fl_sha256_hex : string → string;
  fl_json_text : json → string;
  fl_debug_target : RollbackTarget → string;
}.

Record FsAdapter := {
  fa_key : string;
  fa_bounds : FsBoundsConfig;
  fa_workdir : option string;
}.

(** [FsAdapter::new]. *)
Definition fs_adapter_new (key : string) : FsAdapter :=
  {| fa_key := key; fa_bounds := default_bounds; fa_workdir := None |}.

(** [Debug] of an action type. *)
Definition debug_action_type (a : ActionType) : string :=
  match List.find (λ na, bool_decide (na.2 = a)) action_type_names with
  | Some na => na.1 | None => "" end.

Definition phase_wrap_validation (phase msg : string) : AdapterError :=
  AE_Validation ("[" +:+ phase +:+ "] " +:+ msg).
Definition phase_wrap_internal (phase msg : string) : AdapterError :=
  AE_Internal ("[" +:+ phase +:+ "] " +:+ msg).

(** ** Numbers as text *)

Definition digit_value (c : ascii) : option Z :=
  let n := Z.of_N (N_of_ascii c) in
  if ((48 <=? n) && (n <=? 57))%Z then Some (n - 48)%Z
  else if ((97 <=? n) && (n <=? 122))%Z then Some (n - 87)%Z
  else if ((65 <=? n) && (n <=? 90))%Z then Some (n - 55)%Z
  else None.

Definition invalid_digit : string := "invalid digit found in string".
Definition number_too_large : string := "number too large to fit in target type".

Fixpoint radix_digits (radix max acc : Z) (s : string) : result Z string :=
  match s with
  | EmptyString => Ok acc
  | String c s =>
      match digit_value c with
      | Some d =>
          if (d <? radix)%Z then
            let n := (acc * radix + d)%Z in
            if (n <=? max)%Z then radix_digits radix max n s else Err number_too_large
          else Err invalid_digit
      | None => Err invalid_digit
      end
  end.

(** [from_str_radix] of an unsigned type, with the texts of [ParseIntError]. *)
Definition from_str_radix (radix max : Z) (s : string) : result Z string :=
  match s with
  | EmptyString => Err "cannot parse integer from empty string"
  | _ =>
      let digits := match s with String "+" d => d | _ => s end in
      match digits with
      | EmptyString => Err invalid_digit
      | _ => radix_digits radix max 0 digits
      end
  end.

Definition u64_max : Z := 18446744073709551615.

(** The octal digits of [m], least significant first in the accumulation. *)
Fixpoint octal_digits (fuel : nat) (m : Z) (acc : string) : string :=
  match fuel with
  | O => acc
  | S fuel =>
      let acc := String (ascii_of_N (Z.to_N (48 + m mod 8))) acc in
      if (m / 8 =? 0)%Z then acc else octal_digits fuel (m / 8) acc
  end.
(** [format!("{:o}", m)]. *)
Definition octal (m : Z) : string := octal_digits 12 m "".

(** [validation::parse_mode_string]. *)
Definition parse_mode_string (s : string) : result Z string :=
  let s := str_trim s in
  if str_is_empty s then Err "mode cannot be empty"
  else if str_starts_with "0o" s || str_starts_with "0O" s then
    map_err (λ e, "invalid octal mode '" +:+ s +:+ "': " +:+ e)
      (from_str_radix 8 u32_max (String.substring 2 (String.length s - 2) s))
  else if str_starts_with "0x" s || str_starts_with "0X" s then
    map_err (λ e, "invalid hex mode '" +:+ s +:+ "': " +:+ e)
      (from_str_radix 16 u32_max (String.substring 2 (String.length s - 2) s))
  else
    map_err (λ e, "invalid octal mode '" +:+ s +:+ "': " +:+ e) (from_str_radix 8 u32_max s).

(** ** validation.rs *)

(** [p.exists() && p.is_file()]. *)
Definition is_existing_file (path : string) : io bool :=
  e <~ path_exists (kernel_path path) ;
  if e then path_is_file (kernel_path path) else io_ret false.
(** [p.exists() && p.is_dir()]. *)
Definition is_existing_dir (path : list Component) : io bool :=
  e <~ path_exists path ;
  if e then path_is_dir path else io_ret false.

Definition validate_path_exists (path : string) : io (result unit AdapterError) :=
  ok <~ is_existing_file path ;
  io_ret (if ok then Ok tt else Err (adapter_error_of (FE_FilePathNotFound path))).

Definition validate_path_depth (path : string) (max_depth : nat) : result unit FsAdapterError :=
  let depth := length (components path) in
  if (max_depth <? depth)%nat then Err (FE_PathDepthExceedsLimit depth max_depth) else Ok tt.

Definition validate_file_size (path : string) (max_size : Z) : io (result unit FsAdapterError) :=
  md <~? io_map_err FE_Io (metadata (kernel_path path)) ;
  let size := node_len (md_node md) in
  io_ret (if (max_size <? size)%Z then Err (FE_FileSizeExceedsLimit size max_size) else Ok tt).

(** ** snapshot.rs *)

(** [map_io_error_to_fs]: [ELOOP] has an error kind of its own, so only [NotFound] is
    recognised. *)
Definition map_io_error_to_fs (path : string) (e : IoError) : FsAdapterError :=
  match e with
  | ENOENT => FE_SymlinkNotAllowed ("file does not exist or is a symlink (O_NOFOLLOW): " +:+ path)
  | _ => FE_Io e
  end.

Definition read_file_nofollow (path : string) : io (result string FsAdapterError) :=
  io_map_err (map_io_error_to_fs path) (read_file false (kernel_path path)).

Definition write_file_nofollow (path contents : string) : io (result unit FsAdapterError) :=
  io_map_err (map_io_error_to_fs path)
    (l <~? open_truncate false file_mode (kernel_path path) ; write_all l contents).

Section adapter.
Context (lib : FsLib) (fa : FsAdapter).

(** [FsAdapter::snapshot_dir]. *)
Definition snapshot_dir (h : Host) : list Component :=
  join_name (components (h_temp_dir h)) "ferrum-fs-snapshots".

Definition compute_snapshot_path (snapshot_root : list Component) (execution_id : ExecutionId)
    (target_path : string) : list Component :=
  join_name (join_name snapshot_root execution_id)
    (String.substring 0 16 (fl_sha256_hex lib target_path)).

(** The snapshot path of an execution on this host. *)
Definition snapshot_path (execution_id : ExecutionId) (target_path : string) : io (list Component) :=
  λ h s, (compute_snapshot_path (snapshot_dir h) execution_id target_path, s).

Definition capture_snapshot (target_path : string) (snapshot : list Component)
  : io (result unit FsAdapterError) :=
  _ <~? io_map_err FE_Io match parent_path snapshot with
                         | Some parent => create_dir_all parent
                         | None => io_ret (Ok tt)
                         end ;
  io_map_err FE_Io (copy_file (kernel_path target_path) snapshot).

Definition compute_file_hash (path : string) : io (result string FsAdapterError) :=
  c <~? read_file_nofollow path ; io_ret (Ok (fl_sha256_hex lib c)).
(** The same on a path that is not text of a request. *)
Definition compute_hash_at (p : list Component) : io (result string FsAdapterError) :=
  c <~? io_map_err (map_io_error_to_fs (path_text p)) (read_file false p) ;
  io_ret (Ok (fl_sha256_hex lib c)).

(** ** lib.rs: the sandbox *)

Definition extract_path (target : RollbackTarget) : result string AdapterError :=
  match target with
  | RTg_FilePath path _ _ => Ok path
  | _ => Err (AE_Validation ("invalid target: expected FilePath, got " +:+ fl_debug_target lib target))
  end.

(** A prefix of the path that is a symbolic link. *)
Fixpoint check_symlinks (seen rest : list Component) : io (result unit FsAdapterError) :=
  match rest with
  | [] => io_ret (Ok tt)
  | c :: rest =>
      let current := seen ++ [c] in
      md <~ symlink_metadata current ;
      match md with
      | Ok {| md_node := Link _ |} =>
          io_ret (Err (FE_SymlinkNotAllowed ("symlink not allowed in path: " +:+ path_text current)))
      | _ => check_symlinks current rest
      end
  end.

Definition reject_symlinks (path : string) : io (result unit FsAdapterError) :=
  _ <~? check_symlinks [] (components path) ;
  md <~ symlink_metadata (kernel_path path) ;
  io_ret match md with
  | Ok {| md_node := Link _ |} =>
      Err (FE_SymlinkNotAllowed ("symlink not allowed in path: " +:+ path))
  | _ => Ok tt
  end.

Definition loc_text (l : Loc) : string := path_text (RootDir :: (Normal <$> l)).

(** The path if it exists, else its parent, else the working directory. *)
Definition resolve_for_sandbox (path : string) (workdir : Loc) : io Loc :=
  c <~ canonicalize (kernel_path path) ;
  match c with
  | Ok l => io_ret l
  | Err _ =>
      match parent_path (components path) with
      | Some parent =>
          c <~ canonicalize parent ;
          io_ret match c with Ok l => l | Err _ => workdir end
      | None => io_ret workdir
      end
  end.

Definition enforce_workdir (path wd : string) : io (result unit FsAdapterError) :=
  canonical_workdir <~? io_map_err
      (λ e, FE_Validation ("failed to canonicalize workdir " +:+ wd +:+ ": " +:+ io_error_text e))
      (canonicalize (kernel_path wd)) ;
  resolved <~ resolve_for_sandbox path canonical_workdir ;
  if negb (bool_decide (canonical_workdir `prefix_of` resolved)) then
    io_ret (Err (FE_PathEscape ("path " +:+ path +:+ " resolves to " +:+ loc_text resolved
                                +:+ " which escapes workdir " +:+ loc_text canonical_workdir)))
  else
    wd_md <~? io_map_err
        (λ e, FE_Validation ("failed to get metadata for workdir " +:+ loc_text canonical_workdir
                             +:+ ": " +:+ io_error_text e))
        (metadata_at canonical_workdir) ;
    md <~? io_map_err
        (λ e, FE_Validation ("failed to get metadata for resolved path " +:+ loc_text resolved
                             +:+ ": " +:+ io_error_text e))
        (metadata_at resolved) ;
    io_ret (if negb (md_dev md =? md_dev wd_md)%Z then
              Err (FE_CrossDevice ("path " +:+ path +:+ " is on a different device ("
                     +:+ pretty (md_dev md) +:+ ") than workdir (" +:+ pretty (md_dev wd_md)
                     +:+ "); cross-device access is not allowed when sandbox_to_workdir=true"))
            else Ok tt).

Definition validate_path_sandbox (path : string) (workdir : option string)
    (allow_symlinks sandbox_to_workdir : bool) : io (result unit FsAdapterError) :=
  _ <~? (if allow_symlinks then io_ret (Ok tt) else reject_symlinks path) ;
  match sandbox_to_workdir, workdir with
  | true, Some wd => enforce_workdir path wd
  | _, _ => io_ret (Ok tt)
  end.

(** The depth and sandbox checks of a phase: in prepare, and as
    [revalidate_path_for_execute] and [revalidate_path_for_rollback]. *)
Definition revalidate_path (phase path : string) : io (result unit AdapterError) :=
  let b := fa_bounds fa in
  match validate_path_depth path (fb_max_path_depth b) with
  | Err e => io_ret (Err (phase_wrap_validation phase (fs_error_text e)))
  | Ok _ =>
      io_map_err (λ e, phase_wrap_validation phase (fs_error_text e))
        (validate_path_sandbox path (fa_workdir fa) (fb_allow_symlinks b) (fb_sandbox_to_workdir b))
  end.

(** ** Checks *)

(** The string at [key] of the configuration of a check. *)
Definition config_string (phase check key : string) (config : JsonMap) : result string AdapterError :=
  match smap_get key config with
  | Some (JStr s) => Ok s
  | Some v => Err (AE_Validation ("[" +:+ phase +:+ "] " +:+ check +:+ " check '" +:+ key
                                  +:+ "' must be a string, got " +:+ fl_json_text lib v))
  | None => Err (AE_Validation ("[" +:+ phase +:+ "] " +:+ check +:+ " check requires '" +:+ key
                                +:+ "' config"))
  end.

(** The path of a check, which must be the target. *)
Definition check_path (phase check target_path : string) (config : JsonMap) : result string AdapterError :=
  let? path := config_string phase check "path" config in
  if String.eqb path target_path then Ok path
  else Err (AE_Validation ("[" +:+ phase +:+ "] " +:+ check +:+ " check path mismatch: check targets '"
                           +:+ path +:+ "', expected '" +:+ target_path +:+ "'")).

(** [Debug] of the check types. *)
Definition debug_check_type (c : CheckType) : string :=
  match c with
  | CT_FileExists => "FileExists" | CT_FileHashMatches => "FileHashMatches"
  | CT_GitRefMatches => "GitRefMatches" | CT_SqlRowCountRange => "SqlRowCountRange"
  | CT_HttpStatusExpected => "HttpStatusExpected" | CT_EmailDraftExists => "EmailDraftExists"
  | CT_JsonPredicate => "JsonPredicate" | CT_S3ObjectExists => "S3ObjectExists"
  | CT_S3VersionIdMatches => "S3VersionIdMatches" | CT_GcsObjectExists => "GcsObjectExists"
  | CT_GcsGenerationMatches => "GcsGenerationMatches"
  end.

Definition run_check (check : CheckSpec) (target_path phase : string) : io (result unit AdapterError) :=
  match cs_check_type check with
  | CT_FileExists =>
      match check_path phase "FileExists" target_path (cs_config check) with
      | Err e => io_ret (Err e)
      | Ok path =>
          ok <~ is_existing_file path ;
          io_ret (if ok then Ok tt
                  else Err (phase_wrap_validation phase
                              ("FileExists check: file not found or not a file: " +:+ path)))
      end
  | CT_FileHashMatches =>
      match (let? path := check_path phase "FileHashMatches" target_path (cs_config check) in
             let? expected := config_string phase "FileHashMatches" "expected_hash" (cs_config check) in
             Ok (path, expected)) with
      | Err e => io_ret (Err e)
      | Ok (path, expected_hash) =>
          actual_hash <~? io_map_err
              (λ e, phase_wrap_internal phase
                      ("FileHashMatches check: failed to read/compute hash for " +:+ path +:+ ": "
                       +:+ fs_error_text e))
              (compute_file_hash path) ;
          io_ret (if String.eqb actual_hash expected_hash then Ok tt
                  else Err (AE_Validation ("[" +:+ phase +:+ "] FileHashMatches hash mismatch: expected "
                                           +:+ expected_hash +:+ ", got " +:+ actual_hash)))
      end
  | c => io_ret (Err (AE_Unsupported ("[" +:+ phase +:+ "] unsupported check type: " +:+ debug_check_type c)))
  end.

Fixpoint run_checks (checks : list CheckSpec) (target_path phase : string) : io (result unit AdapterError) :=
  match checks with
  | [] => io_ret (Ok tt)
  | c :: checks => _ <~? run_check c target_path phase ; run_checks checks target_path phase
  end.

(** ** prepare *)

Definition put_str (key value : string) (md : JsonMap) : JsonMap := index_insert key (JStr value) md.
Definition put_bool (key : string) (value : bool) (md : JsonMap) : JsonMap := index_insert key (JBool value) md.

(** A string of the metadata of a contract or request. *)
Definition meta_string (key : string) (md : JsonMap) : option string := smap_get key md ≫= as_str.

Definition fs_file_action (a : ActionType) : bool :=
  match a with
  | Act_FileWrite | Act_FileDelete | Act_FileMove | Act_FileCopy | Act_FileAppend | Act_FileChmod => true
  | _ => false
  end.
Definition fs_dir_action (a : ActionType) : bool :=
  match a with Act_DirCreate | Act_DirDelete => true | _ => false end.

(** [validate_path_exists] with the message of the action. *)
Definition require_file (phase message path : string) : io (result unit AdapterError) :=
  io_map_err (λ _, phase_wrap_validation phase (message +:+ path)) (validate_path_exists path).

Definition hash_or (phase message path : string) : io (result string AdapterError) :=
  io_map_err (λ e, phase_wrap_internal phase (message +:+ path +:+ ": " +:+ fs_error_text e))
    (compute_file_hash path).

Definition metadata_or (phase message path : string) : io (result Metadata AdapterError) :=
  io_map_err (λ e, phase_wrap_internal phase (message +:+ path +:+ ": " +:+ io_error_text e))
    (metadata (kernel_path path)).

(** The snapshot of the target, where rollback will look for it. *)
Definition take_snapshot (phase action : string) (execution_id : ExecutionId) (path : string)
  : io (result (list Component) AdapterError) :=
  snapshot <~ snapshot_path execution_id path ;
  _ <~? io_map_err
      (λ e, phase_wrap_internal phase
              (action +:+ " snapshot capture failed for " +:+ path +:+ ": " +:+ fs_error_text e))
      (capture_snapshot path snapshot) ;
  io_ret (Ok snapshot).

Definition prepare_write (request : RollbackPrepareRequest) (path : string) (md : JsonMap)
  : io (result JsonMap AdapterError) :=
  old <~ is_existing_file path ;
  if old then
    snapshot <~? take_snapshot PHASE_PREPARE "FileWrite" (rpr_execution_id request) path ;
    io_ret (Ok (put_str "original_path" path (put_str "snapshot_path" (path_text snapshot) md)))
  else
    _ <~? match parent_path (components path) with
          | Some parent =>
              e <~ path_exists parent ;
              io_ret (if e then Ok tt
                      else Err (phase_wrap_validation PHASE_PREPARE
                                  ("parent directory does not exist: " +:+ path_text parent)))
          | None => io_ret (Ok tt)
          end ;
    io_ret (Ok (put_str "original_path" path (put_bool "created_new_file" true md))).

Definition prepare_delete (request : RollbackPrepareRequest) (path : string) (md : JsonMap)
  : io (result JsonMap AdapterError) :=
  _ <~? match rpr_prepare_checks request with
        | [] => require_file PHASE_PREPARE "FileDelete target file not found: " path
        | _ => io_ret (Ok tt)
        end ;
  old <~ is_existing_file path ;
  if old then
    snapshot <~? take_snapshot PHASE_PREPARE "FileDelete" (rpr_execution_id request) path ;
    io_ret (Ok (put_str "original_path" path (put_str "snapshot_path" (path_text snapshot) md)))
  else io_ret (Ok md).

Definition prepare_move (request : RollbackPrepareRequest) (path : string) (md : JsonMap)
  : io (result JsonMap AdapterError) :=
  _ <~? require_file PHASE_PREPARE "FileMove source file not found: " path ;
  snapshot <~? take_snapshot PHASE_PREPARE "FileMove" (rpr_execution_id request) path ;
  io_ret (Ok (put_str "snapshot_path" (path_text snapshot) (put_str "source_path" path md))).

Definition prepare_copy (path : string) (md : JsonMap) : io (result JsonMap AdapterError) :=
  _ <~? require_file PHASE_PREPARE "FileCopy source file not found: " path ;
  source_hash <~? hash_or PHASE_PREPARE "FileCopy failed to compute source hash for " path ;
  io_ret (Ok (put_str "source_hash" source_hash (put_str "source_path" path md))).

Definition prepare_append (path : string) (md : JsonMap) : io (result JsonMap AdapterError) :=
  _ <~? require_file PHASE_PREPARE "FileAppend target file not found: " path ;
  original_hash <~? hash_or PHASE_PREPARE "FileAppend failed to compute original hash for " path ;
  m <~? metadata_or PHASE_PREPARE "FileAppend failed to get metadata for " path ;
  io_ret (Ok (put_str "data_hash_pending" "pending"
               (put_str "original_length" (pretty (node_len (md_node m)))
                 (put_str "original_hash" original_hash (put_str "target_path" path md))))).

Definition prepare_chmod (request : RollbackPrepareRequest) (path : string) (md : JsonMap)
  : io (result JsonMap AdapterError) :=
  _ <~? require_file PHASE_PREPARE "FileChmod target file not found: " path ;
  match meta_string "mode" (rpr_metadata request) with
  | None => io_ret (Err (AE_Validation "FileChmod requires 'mode' in metadata"))
  | Some "" => io_ret (Err (phase_wrap_validation PHASE_PREPARE "FileChmod mode cannot be empty"))
  | Some new_mode =>
      m <~? metadata_or PHASE_PREPARE "FileChmod failed to get metadata for " path ;
      io_ret (Ok (put_str "target_path" path
                   (put_str "new_mode" new_mode
                     (put_str "original_mode" (octal (Z.land (node_mode (md_node m)) 4095)) md))))
  end.

Definition prepare_dir_create (path : string) (md : JsonMap) : io (result JsonMap AdapterError) :=
  let dir_path := components path in
  if negb (has_file_name dir_path) then
    io_ret (Err (phase_wrap_validation PHASE_PREPARE "DirCreate target path must be a valid directory path"))
  else
    old <~ is_existing_dir (kernel_path path) ;
    if old then io_ret (Err (phase_wrap_validation PHASE_PREPARE ("directory already exists: " +:+ path)))
    else
      match parent_path dir_path with
      | None => io_ret (Err (phase_wrap_validation PHASE_PREPARE
                               ("cannot determine parent directory for: " +:+ path)))
      | Some parent =>
          e <~ is_existing_dir parent ;
          io_ret (if e then Ok (put_str "created_dir" path (put_bool "parent_dir_existed" true md))
                  else Err (phase_wrap_validation PHASE_PREPARE
                              ("parent directory does not exist: " +:+ path_text parent)))
      end.

Definition prepare_dir_delete (path : string) (md : JsonMap) : io (result JsonMap AdapterError) :=
  d <~ is_existing_dir (kernel_path path) ;
  if negb d then io_ret (Err (phase_wrap_validation PHASE_PREPARE ("directory not found: " +:+ path)))
  else
    entries <~ dir_has_entries (kernel_path path) ;
    io_ret match entries with
    | Ok true => Err (phase_wrap_validation PHASE_PREPARE ("directory is not empty: " +:+ path))
    | Ok false => Ok (put_str "deleted_dir" path md)
    | Err e => Err (phase_wrap_validation PHASE_PREPARE
                      ("failed to read directory " +:+ path +:+ ": " +:+ io_error_text e))
    end.

(** The size of an existing file is within the bound. *)
Definition prepare_size (request : RollbackPrepareRequest) (path : string) : io (result unit AdapterError) :=
  if fs_file_action (rpr_action_type request) then
    old <~ is_existing_file path ;
    if old then io_map_err (λ e, phase_wrap_validation PHASE_PREPARE (fs_error_text e))
                  (validate_file_size path (fb_max_file_size (fa_bounds fa)))
    else io_ret (Ok tt)
  else io_ret (Ok tt).

Definition prepare_action (request : RollbackPrepareRequest) (path : string) (md : JsonMap)
  : io (result JsonMap AdapterError) :=
  match rpr_action_type request with
  | Act_FileWrite => prepare_write request path md
  | Act_FileDelete => prepare_delete request path md
  | Act_FileMove => prepare_move request path md
  | Act_FileCopy => prepare_copy path md
  | Act_FileAppend => prepare_append path md
  | Act_FileChmod => prepare_chmod request path md
  | Act_DirCreate => prepare_dir_create path md
  | Act_DirDelete => prepare_dir_delete path md
  | _ => io_ret (Ok md)
  end.

Definition fs_prepare (request : RollbackPrepareRequest) : io (result PrepareReceipt AdapterError) :=
  match extract_path (rpr_target request) with
  | Err e => io_ret (Err e)
  | Ok file_path =>
      if negb (fs_file_action (rpr_action_type request) || fs_dir_action (rpr_action_type request)) then
        io_ret (Err (AE_Unsupported ("unsupported action type: " +:+ debug_action_type (rpr_action_type request))))
      else
        _ <~? revalidate_path PHASE_PREPARE file_path ;
        _ <~? prepare_size request file_path ;
        _ <~? run_checks (rpr_prepare_checks request) file_path "prepare" ;
        now <~ io_now ;
        md <~? prepare_action request file_path
                 (put_str "prepared_at" now (put_str "adapter_kind" ADAPTER_KIND [])) ;
        io_ret (Ok {| prep_accepted := true; prep_adapter_metadata := md |})
  end.
End adapter.

(** * Numbers as the file-system adapter writes and reads them

    The length and mode that prepare records as text are the ones that verify and
    rollback read back. *)


Lemma digit_value_pretty n : (n < 10)%N → digit_value (pretty_N_char n) = Some (Z.of_N n).
Proof.
  intros Hn. assert (n ∈ [0; 1; 2; 3; 4; 5; 6; 7; 8; 9]%N) as H.
  { rewrite !elem_of_cons. lia. }
  revert n H Hn. rewrite <- Forall_forall. repeat constructor.
Qed.

Lemma radix_digits_pretty max n s :
  (Z.of_N n ≤ max)%Z →
  radix_digits 10 max 0 (pretty_N_go n s) = radix_digits 10 max (Z.of_N n) s.
Proof.
  revert s. induction (N.lt_wf_0 n) as [n _ IH]; intros s Hmax.
  destruct (decide (n = 0%N)) as [-> | Hne]; [by rewrite pretty_N_go_0 |].
  rewrite pretty_N_go_step by lia. rewrite IH.
  2: { apply N.div_lt; lia. }
  2: { rewrite N2Z.inj_div. etrans; [| exact Hmax]. apply Z.div_le_upper_bound; lia. }
  cbn [radix_digits]. rewrite digit_value_pretty by (apply N.mod_lt; done).
  assert ((Z.of_N (n `div` 10) * 10 + Z.of_N (n `mod` 10)) = Z.of_N n)%Z as Heq.
  { rewrite <- (N2Z.inj_mul _ 10), <- N2Z.inj_add. f_equal. rewrite (N.div_mod n 10) at 3 by done. lia. }
  cbn zeta. rewrite Heq.
  assert (Z.of_N (n `mod` 10) < 10)%Z by (pose proof (N.mod_lt n 10 ltac:(done)); lia).
  rewrite (proj2 (Z.ltb_lt _ _)) by done. by rewrite (proj2 (Z.leb_le _ _)).
Qed.

Lemma pretty_N_go_digit n s :
  (0 < n)%N → ∃ k s', (k < 10)%N ∧ pretty_N_go n s = String (pretty_N_char k) s'.
Proof.
  revert s. induction (N.lt_wf_0 n) as [n _ IH]; intros s Hn. rewrite pretty_N_go_step by done.
  destruct (decide (n `div` 10 = 0)%N) as [-> | Hne].
  - rewrite pretty_N_go_0. eexists _, _. split; [| done]. by apply N.mod_lt.
  - apply IH; [by apply N.div_lt | by apply N.neq_0_lt_0].
Qed.

(** A decimal number is read back. *)
Lemma from_str_radix_pretty max n :
  (0 ≤ n ≤ max)%Z → from_str_radix 10 max (pretty n) = Ok n.
Proof.
  intros [H0 Hmax]. destruct n as [|p|p]; [| | lia].
  { unfold from_str_radix. simpl. by rewrite (proj2 (Z.leb_le _ _)). }
  change (pretty (Zpos p)) with (pretty_N_go (Npos p) "").
  destruct (pretty_N_go_digit (Npos p) "") as (k & s' & Hk & Heq); [lia |].
  unfold from_str_radix. rewrite Heq.
  assert (pretty_N_char k ≠ "+"%char) as Hplus by (unfold pretty_N_char; repeat case_match; done).
  assert (match String (pretty_N_char k) s' with String "+" d => d | _ => String (pretty_N_char k) s' end
          = String (pretty_N_char k) s') as ->.
  { unfold pretty_N_char. by repeat case_match. }
  rewrite <- Heq. apply (radix_digits_pretty max (Npos p) "" Hmax).
Qed.

(** ** Modes *)

(** The permission bits, all 4096 of them. *)
Lemma parse_mode_octal_all :
  forallb (λ m, match parse_mode_string (octal m) with Ok n => (n =? m)%Z | Err _ => false end)
    (Z.of_nat <$> seq 0 4096) = true.
Proof. vm_compute. reflexivity. Qed.

(** A mode that was written in octal is read back. *)
Lemma parse_mode_octal m : (0 ≤ m < 4096)%Z → parse_mode_string (octal m) = Ok m.
Proof.
  intros Hm. pose proof parse_mode_octal_all as H. rewrite forallb_forall in H.
  specialize (H m). destruct (parse_mode_string (octal m)) as [n|e].
  - f_equal. apply Z.eqb_eq, H. apply list_elem_of_In, list_elem_of_fmap.
    exists (Z.to_nat m). split; [lia |]. apply elem_of_seq. lia.
  - exfalso. discriminate H. apply list_elem_of_In, list_elem_of_fmap.
    exists (Z.to_nat m). split; [lia |]. apply elem_of_seq. lia.
Qed.

Lemma permission_bits m : (0 ≤ Z.land m 4095 < 4096)%Z.
Proof.
  change 4095%Z with (Z.ones 12). rewrite Z.land_ones by lia.
  change 4096%Z with (2 ^ 12)%Z. apply Z.mod_pos_bound. lia.
Qed.
