(* ===== verification/FsPhases.v ===== *)
(** * The file-system adapter: execute, verify, rollback (crates/ferrum-adapter-fs/src)

    The three phases of lib.rs that act on a prepared contract, and the plans that
    planner.rs generates for it. *)

From stdpp Require Import pretty.
From S2P Require Import Prelude Json Proto Adapter FileSystem FsAdapter.
From Stdlib Require Import Ascii.

Section phases.
Context (lib : FsLib) (fa : FsAdapter).

(** ** execute *)

Definition execute_receipt (digest : option string) (md : JsonMap) : ExecuteReceipt :=
  {| exr_external_id := None; exr_result_digest := digest; exr_adapter_metadata := md |}.

(** An error of the file system in [execute]: action, verb and path. *)
Definition execute_io {A} (message path : string) (m : io (result A IoError)) : io (result A AdapterError) :=
  io_map_err (λ e, phase_wrap_internal PHASE_EXECUTE (message +:+ path +:+ ": " +:+ io_error_text e)) m.
Definition execute_fs {A} (message path : string) (m : io (result A FsAdapterError)) : io (result A AdapterError) :=
  io_map_err (λ e, phase_wrap_internal PHASE_EXECUTE (message +:+ path +:+ ": " +:+ fs_error_text e)) m.

(** The new contents of a file: a string, or the field "content" of an object. *)
Definition write_content (payload : json) : result string AdapterError :=
  match payload with
  | JStr s => Ok s
  | JObj obj =>
      match smap_get "content" obj with
      | Some v =>
          match as_str v, as_i64 v with
          | Some s, _ => Ok s
          | None, Some n => Ok (pretty n)
          | None, None =>
              Err (AE_Validation "payload content must be a string or object with string 'content' field")
          end
      | None => Err (AE_Validation "payload must be a string or object with 'content' field")
      end
  | _ => Err (AE_Validation "payload must be a string or object with 'content' field")
  end.

Definition execute_write (path : string) (payload : json) : io (result ExecuteReceipt AdapterError) :=
  match write_content payload with
  | Err e => io_ret (Err e)
  | Ok content =>
      _ <~? execute_fs "FileWrite failed for " path (write_file_nofollow path content) ;
      let result_hash := fl_sha256_hex lib content in
      io_ret (Ok (execute_receipt (Some result_hash)
                    [("bytes_written", JInt (Z.of_nat (String.length content)));
                     ("content_hash", JStr result_hash)]))
  end.

Definition execute_delete (path : string) : io (result ExecuteReceipt AdapterError) :=
  _ <~? execute_io "FileDelete failed for " path (remove_file (kernel_path path)) ;
  io_ret (Ok (execute_receipt None [("deleted_path", JStr path)])).

(** The field "destination" of the payload. *)
Definition payload_destination (payload : json) : option string :=
  match payload with JObj obj => smap_get "destination" obj ≫= as_str | _ => None end.

Definition cross_filesystem_move (source destination : string) : io (result unit FsAdapterError) :=
  _ <~? io_map_err FE_Io (copy_file (kernel_path source) (kernel_path destination)) ;
  io_map_err FE_Io (remove_file (kernel_path source)).

Definition execute_move (path : string) (payload : json) : io (result ExecuteReceipt AdapterError) :=
  match payload_destination payload with
  | None => io_ret (Err (AE_Validation "FileMove execute payload requires 'destination' field"))
  | Some destination =>
      _ <~? revalidate_path fa PHASE_EXECUTE destination ;
      let md := [("destination_path", JStr destination); ("moved_from", JStr path)] in
      renamed <~ rename (kernel_path path) (kernel_path destination) ;
      match renamed with
      | Ok _ => io_ret (Ok (execute_receipt None md))
      | Err EXDEV =>
          _ <~? execute_fs ("FileMove cross-filesystem move failed (copy+delete fallback) from "
                            +:+ path +:+ " to ") destination (cross_filesystem_move path destination) ;
          io_ret (Ok (execute_receipt None (put_bool "cross_filesystem_move" true md)))
      | Err e =>
          io_ret (Err (phase_wrap_internal PHASE_EXECUTE
                         ("FileMove failed to rename " +:+ path +:+ " to " +:+ destination +:+ ": "
                          +:+ io_error_text e)))
      end
  end.

(** The directory a path is in is created if it is missing. *)
Definition ensure_parent (path : string) : io (result unit IoError) :=
  match parent_path (components path) with
  | None => io_ret (Ok tt)
  | Some parent =>
      e <~ path_exists parent ;
      if e then io_ret (Ok tt) else create_dir_all parent
  end.

Definition execute_copy (contract : RollbackContract) (path : string) (payload : json)
  : io (result ExecuteReceipt AdapterError) :=
  match payload_destination payload with
  | None => io_ret (Err (AE_Validation "FileCopy execute payload requires 'destination' field"))
  | Some destination =>
      _ <~? revalidate_path fa PHASE_EXECUTE destination ;
      there <~ path_exists (kernel_path destination) ;
      let created_new_dest := negb there in
      _ <~? (if created_new_dest then io_ret (Ok tt)
             else snapshot <~ snapshot_path lib (rc_execution_id contract) destination ;
                  execute_fs "FileCopy snapshot capture failed for " destination
                    (capture_snapshot destination snapshot)) ;
      _ <~? execute_io "FileCopy failed to create parent directory for " destination
              (ensure_parent destination) ;
      _ <~? execute_io ("FileCopy failed to copy " +:+ path +:+ " to ") destination
              (copy_file (kernel_path path) (kernel_path destination)) ;
      copy_hash <~? execute_fs "FileCopy failed to compute hash of " destination
                      (compute_file_hash lib destination) ;
      io_ret (Ok (execute_receipt None [("destination_path", JStr destination);
                                ("copy_hash", JStr copy_hash);
                                ("created_new_dest", JBool created_new_dest)]))
  end.

(** [item as u8]. *)
Definition byte_of (n : Z) : ascii := ascii_of_N (Z.to_N (n mod 256)).

Fixpoint bytes_of_items (items : list json) : result string AdapterError :=
  match items with
  | [] => Ok ""
  | item :: items =>
      match as_i64 item, as_u64 item with
      | Some b, _ | None, Some b =>
          let? rest := bytes_of_items items in Ok (String (byte_of b) rest)
      | None, None => Err (AE_Validation "payload data array must contain numbers")
      end
  end.

(** The data to append: a string, or the field "data" of an object. *)
Definition append_data (payload : json) : result string AdapterError :=
  match payload with
  | JStr s => Ok s
  | JObj obj =>
      match smap_get "data" obj with
      | Some (JStr s) => Ok s
      | Some (JArr items) => bytes_of_items items
      | Some _ => Err (AE_Validation "payload data must be a string or array of numbers")
      | None => Err (AE_Validation "payload must be a string or object with 'data' field")
      end
  | _ => Err (AE_Validation "payload must be a string or object with 'data' field")
  end.

(** [flush] of a file does nothing. *)
Definition execute_append (path : string) (payload : json) : io (result ExecuteReceipt AdapterError) :=
  match append_data payload with
  | Err e => io_ret (Err e)
  | Ok "" => io_ret (Err (AE_Validation "FileAppend data must be non-empty"))
  | Ok data =>
      let data_hash := fl_sha256_hex lib data in
      l <~? execute_fs "FileAppend failed to open " path
              (io_map_err (map_io_error_to_fs path) (open_append (kernel_path path))) ;
      _ <~? execute_io "FileAppend failed to write to " path (write_all l data) ;
      new_hash <~? execute_fs "FileAppend failed to compute new hash of " path (compute_file_hash lib path) ;
      m <~? execute_io "FileAppend failed to get metadata for " path (metadata (kernel_path path)) ;
      io_ret (Ok (execute_receipt (Some new_hash)
                    [("target_path", JStr path); ("data_hash", JStr data_hash);
                     ("new_hash", JStr new_hash);
                     ("new_length", JStr (pretty (node_len (md_node m))));
                     ("bytes_appended", JInt (Z.of_nat (String.length data)))]))
  end.

Definition execute_chmod (contract : RollbackContract) (path : string) : io (result ExecuteReceipt AdapterError) :=
  match meta_string "new_mode" (rc_metadata contract) with
  | None => io_ret (Err (AE_Validation "FileChmod execute requires new_mode in metadata"))
  | Some new_mode =>
      match parse_mode_string new_mode with
      | Err e => io_ret (Err (AE_Validation ("FileChmod invalid mode '" +:+ new_mode +:+ "': " +:+ e)))
      | Ok parsed_mode =>
          _ <~? execute_io "FileChmod failed to set permissions on " path
                  (set_permissions (kernel_path path) parsed_mode) ;
          m <~? execute_io "FileChmod failed to verify permissions on " path
                  (metadata (kernel_path path)) ;
          io_ret (Ok (execute_receipt None [("target_path", JStr path);
                                    ("applied_mode", JStr (octal (Z.land (node_mode (md_node m)) 4095)))]))
      end
  end.

Definition execute_dir_create (path : string) : io (result ExecuteReceipt AdapterError) :=
  _ <~? execute_io "DirCreate failed for " path (create_dir (mkdir_path path)) ;
  io_ret (Ok (execute_receipt None [("created_dir", JStr path)])).

Definition execute_dir_delete (path : string) : io (result ExecuteReceipt AdapterError) :=
  _ <~? execute_io "DirDelete failed for " path (remove_dir path) ;
  io_ret (Ok (execute_receipt None [("deleted_dir", JStr path)])).

Definition execute_action (contract : RollbackContract) (path : string) (payload : json)
  : io (result ExecuteReceipt AdapterError) :=
  match rc_action_type contract with
  | Act_FileWrite => execute_write path payload
  | Act_FileDelete => execute_delete path
  | Act_FileMove => execute_move path payload
  | Act_FileCopy => execute_copy contract path payload
  | Act_FileAppend => execute_append path payload
  | Act_FileChmod => execute_chmod contract path
  | Act_DirCreate => execute_dir_create path
  | Act_DirDelete => execute_dir_delete path
  | a => io_ret (Err (AE_Unsupported ("execute not supported for " +:+ debug_action_type a
                                      +:+ " in fs adapter")))
  end.

Definition fs_execute (contract : RollbackContract) (payload : json) : io (result ExecuteReceipt AdapterError) :=
  match extract_path lib (rc_target contract) with
  | Err e => io_ret (Err e)
  | Ok file_path =>
      _ <~? revalidate_path fa PHASE_EXECUTE file_path ;
      execute_action contract file_path payload
  end.

(** ** verify *)

Definition fs_require (ok : bool) (phase message : string) : io (result unit AdapterError) :=
  io_ret (if ok then Ok tt else Err (phase_wrap_validation phase message)).

Definition verify_write (path : string) : io (result unit AdapterError) :=
  require_file PHASE_VERIFY "FileWrite target file not found: " path.

Definition verify_delete (path : string) : io (result unit AdapterError) :=
  there <~ is_existing_file path ;
  fs_require (negb there) PHASE_VERIFY ("file still exists after delete: " +:+ path).

Definition verify_move (contract : RollbackContract) (path : string) : io (result unit AdapterError) :=
  match meta_string "destination_path" (rc_metadata contract) with
  | None => io_ret (Err (AE_Validation "FileMove verify requires destination_path in metadata"))
  | Some destination =>
      moved <~ is_existing_file destination ;
      _ <~? fs_require moved PHASE_VERIFY ("FileMove destination not found: " +:+ destination) ;
      left <~ is_existing_file path ;
      fs_require (negb left) PHASE_VERIFY ("FileMove source still exists after move: " +:+ path)
  end.

Definition verify_copy (contract : RollbackContract) : io (result unit AdapterError) :=
  match meta_string "destination_path" (rc_metadata contract) with
  | None => io_ret (Err (AE_Validation "FileCopy verify requires destination_path in metadata"))
  | Some destination =>
      copied <~ is_existing_file destination ;
      _ <~? fs_require copied PHASE_VERIFY ("FileCopy destination not found: " +:+ destination) ;
      match meta_string "source_hash" (rc_metadata contract) with
      | None => io_ret (Ok tt)
      | Some expected_hash =>
          dest_hash <~? hash_or lib PHASE_VERIFY "FileCopy verify failed to compute hash of " destination ;
          fs_require (String.eqb dest_hash expected_hash) PHASE_VERIFY
            ("FileCopy destination hash mismatch: expected " +:+ expected_hash +:+ ", got " +:+ dest_hash)
      end
  end.

(** The length recorded by prepare, [parse::<u64>]. *)
Definition original_length (phase : string) (contract : RollbackContract) : result Z AdapterError :=
  let? s := ok_or (meta_string "original_length" (rc_metadata contract))
              (AE_Validation ("FileAppend " +:+ phase +:+ " requires original_length in metadata")) in
  map_err (λ _, AE_Validation ("FileAppend " +:+ phase +:+ " original_length is invalid"))
    (from_str_radix 10 u64_max s).

Definition verify_append (contract : RollbackContract) (path : string) : io (result unit AdapterError) :=
  match original_length "verify" contract with
  | Err e => io_ret (Err e)
  | Ok original =>
      _ <~? require_file PHASE_VERIFY "FileAppend target file not found: " path ;
      m <~? metadata_or PHASE_VERIFY "FileAppend verify failed to get metadata for " path ;
      let current := node_len (md_node m) in
      fs_require (original <=? current)%Z PHASE_VERIFY
        ("FileAppend file did not grow: original " +:+ pretty original +:+ " vs current " +:+ pretty current)
  end.

Definition verify_chmod (contract : RollbackContract) (path : string) : io (result unit AdapterError) :=
  match (let? s := ok_or (meta_string "new_mode" (rc_metadata contract))
                     (AE_Validation "FileChmod verify requires new_mode in metadata") in
         map_err (λ e, AE_Validation ("FileChmod verify invalid mode: " +:+ e)) (parse_mode_string s)) with
  | Err e => io_ret (Err e)
  | Ok expected_mode =>
      _ <~? require_file PHASE_VERIFY "FileChmod target file not found: " path ;
      m <~? metadata_or PHASE_VERIFY "FileChmod verify failed to get metadata for " path ;
      let current_perm := Z.land (node_mode (md_node m)) 4095 in
      fs_require (current_perm =? expected_mode)%Z PHASE_VERIFY
        ("FileChmod mode mismatch: expected " +:+ octal expected_mode +:+ ", got " +:+ octal current_perm)
  end.

Definition verify_dir_create (path : string) : io (result unit AdapterError) :=
  there <~ is_existing_dir (kernel_path path) ;
  fs_require there PHASE_VERIFY ("DirCreate target directory not found: " +:+ path).

Definition verify_dir_delete (path : string) : io (result unit AdapterError) :=
  there <~ is_existing_dir (kernel_path path) ;
  fs_require (negb there) PHASE_VERIFY ("directory still exists after delete: " +:+ path).

(** The check of the target's state that every verification makes. *)
Definition verify_action (contract : RollbackContract) (path : string) : io (result unit AdapterError) :=
  match rc_action_type contract with
  | Act_FileWrite => verify_write path
  | Act_FileDelete => verify_delete path
  | Act_FileMove => verify_move contract path
  | Act_FileCopy => verify_copy contract
  | Act_FileAppend => verify_append contract path
  | Act_FileChmod => verify_chmod contract path
  | Act_DirCreate => verify_dir_create path
  | Act_DirDelete => verify_dir_delete path
  | a => io_ret (Err (AE_Unsupported ("verify not supported for " +:+ debug_action_type a
                                      +:+ " in fs adapter")))
  end.

Definition fs_verify (contract : RollbackContract) : io (result VerifyReceipt AdapterError) :=
  match extract_path lib (rc_target contract) with
  | Err e => io_ret (Err e)
  | Ok file_path =>
      _ <~? verify_action contract file_path ;
      _ <~? run_checks lib (rc_verify_checks contract) file_path "verify" ;
      io_ret (Ok {| vr_verified := true; vr_adapter_metadata := [] |})
  end.

(** ** rollback *)

Definition fail_closed_recovery (phase operation path error : string) : RecoveryReceipt :=
  {| rr_recovered := false;
     rr_adapter_metadata :=
       [("rollback_failed", JBool true);
        ("failure_reason", JStr ("[" +:+ phase +:+ "] " +:+ operation +:+ " failed for " +:+ path
                                 +:+ ": " +:+ error));
        ("failure_phase", JStr phase);
        ("target_path", JStr path)] |}.

Definition recovered_receipt (md : JsonMap) : io (result RecoveryReceipt AdapterError) :=
  io_ret (Ok {| rr_recovered := true; rr_adapter_metadata := md |}).

(** A step of the recovery: an error of the file system ends it with a receipt that
    says so. *)
Definition recovering {A E} (text : E → string) (operation path : string) (m : io (result A E))
    (k : A → io (result RecoveryReceipt AdapterError)) : io (result RecoveryReceipt AdapterError) :=
  r <~ m ;
  match r with
  | Ok x => k x
  | Err e => io_ret (Ok (fail_closed_recovery PHASE_ROLLBACK operation path (text e)))
  end.
Definition recovering_io {A} := @recovering A IoError io_error_text.
Definition recovering_fs {A} := @recovering A FsAdapterError fs_error_text.

Definition rollback_dir_create (path : string) : io (result RecoveryReceipt AdapterError) :=
  there <~ is_existing_dir (kernel_path path) ;
  recovering_io "remove_dir" path
    (if there then remove_dir path else io_ret (Ok tt)) (λ _,
  still <~ is_existing_dir (kernel_path path) ;
  _ <~? fs_require (negb still) PHASE_ROLLBACK
          ("DirCreate rollback verification failed: directory still exists: " +:+ path) ;
  recovered_receipt [("rollback_action", JStr "deleted_created_dir"); ("target_path", JStr path)]).

Definition rollback_dir_delete (path : string) : io (result RecoveryReceipt AdapterError) :=
  there <~ path_exists (kernel_path path) ;
  recovering_io "create_dir" path
    (if there then io_ret (Ok tt) else create_dir (mkdir_path path)) (λ _,
  again <~ is_existing_dir (kernel_path path) ;
  _ <~? fs_require again PHASE_ROLLBACK
          ("DirDelete rollback verification failed: directory not recreated: " +:+ path) ;
  recovered_receipt [("rollback_action", JStr "recreated_deleted_dir"); ("target_path", JStr path)]).

Definition rollback_append (contract : RollbackContract) (path : string)
  : io (result RecoveryReceipt AdapterError) :=
  match original_length "rollback" contract with
  | Err e => io_ret (Err e)
  | Ok original =>
      recovering_fs "read" path (read_file_nofollow path) (λ current,
      let truncated := if (original <? Z.of_nat (String.length current))%Z
                       then String.substring 0 (Z.to_nat original) current else current in
      recovering_fs "write" path (write_file_nofollow path truncated) (λ _,
      let receipt := recovered_receipt [("rollback_action", JStr "truncated_to_original");
                                ("target_path", JStr path);
                                ("restored_length", JStr (pretty original))] in
      match meta_string "original_hash" (rc_metadata contract) with
      | None => receipt
      | Some expected_hash =>
          recovering_fs "compute_hash" path (compute_file_hash lib path) (λ restored_hash,
          _ <~? fs_require (String.eqb restored_hash expected_hash) PHASE_ROLLBACK
                  ("FileAppend rollback hash mismatch: expected " +:+ expected_hash +:+ ", got "
                   +:+ restored_hash) ;
          receipt)
      end))
  end.

Definition rollback_chmod (contract : RollbackContract) (path : string)
  : io (result RecoveryReceipt AdapterError) :=
  match (let? s := ok_or (meta_string "original_mode" (rc_metadata contract))
                     (AE_Validation "FileChmod rollback requires original_mode in metadata") in
         let? m := map_err (λ e, AE_Validation ("FileChmod rollback invalid original_mode: " +:+ e))
                     (parse_mode_string s) in
         Ok (s, m)) with
  | Err e => io_ret (Err e)
  | Ok (original_mode_str, original_mode) =>
      recovering_io "set_permissions" path (set_permissions (kernel_path path) original_mode) (λ _,
      recovering_io "metadata" path (metadata (kernel_path path)) (λ m,
      let restored_perm := Z.land (node_mode (md_node m)) 4095 in
      _ <~? fs_require (restored_perm =? original_mode)%Z PHASE_ROLLBACK
              ("FileChmod rollback mode mismatch: expected " +:+ octal original_mode +:+ ", got "
               +:+ octal restored_perm) ;
      recovered_receipt [("rollback_action", JStr "restored_original_permissions"); ("target_path", JStr path);
                 ("restored_mode", JStr original_mode_str)]))
  end.

(** The restored file and the snapshot have the same hash. *)
Definition compare_with_snapshot (context path : string) (snapshot : list Component)
    (k : string → io (result RecoveryReceipt AdapterError)) : io (result RecoveryReceipt AdapterError) :=
  recovering_fs "compute_hash" path (compute_file_hash lib path) (λ restored_hash,
  recovering_fs "compute_hash" (path_text snapshot) (compute_hash_at lib snapshot) (λ snapshot_hash,
  _ <~? fs_require (String.eqb restored_hash snapshot_hash) PHASE_ROLLBACK
          (context +:+ " hash mismatch: restored " +:+ restored_hash +:+ " vs snapshot " +:+ snapshot_hash) ;
  k restored_hash)).

Definition rollback_move_back (cross_fs_move : bool) (path destination : string) (snapshot : list Component)
  : io (result RecoveryReceipt AdapterError) :=
  if cross_fs_move then
    moved <~ is_existing_file destination ;
    _ <~? fs_require moved PHASE_ROLLBACK ("FileMove rollback (cross-fs) destination not found: " +:+ destination) ;
    recovering_io "remove_file" destination (remove_file (kernel_path destination)) (λ _,
    recovering_io "copy" path (copy_file snapshot (kernel_path path)) (λ _,
    compare_with_snapshot "FileMove rollback (cross-fs)" path snapshot (λ restored_hash,
    recovered_receipt [("rollback_action", JStr "cross_fs_delete_and_restore"); ("restored_to", JStr path);
               ("restored_hash", JStr restored_hash)])))
  else
    moved <~ is_existing_file destination ;
    _ <~? fs_require moved PHASE_ROLLBACK ("FileMove rollback destination not found: " +:+ destination) ;
    recovering_io "rename" path (rename (kernel_path destination) (kernel_path path)) (λ _,
    compare_with_snapshot "FileMove rollback" path snapshot (λ restored_hash,
    recovered_receipt [("rollback_action", JStr "moved_back"); ("restored_to", JStr path);
               ("restored_hash", JStr restored_hash)])).

(** A flag of the metadata, [false] if it is missing. *)
Definition meta_flag (key : string) (md : JsonMap) : bool := default false (smap_get key md ≫= as_bool).

Definition rollback_move (contract : RollbackContract) (path : string)
  : io (result RecoveryReceipt AdapterError) :=
  match meta_string "destination_path" (rc_metadata contract) with
  | None => io_ret (Err (AE_Validation "FileMove rollback requires destination_path in metadata"))
  | Some destination =>
      _ <~? revalidate_path fa PHASE_ROLLBACK destination ;
      snapshot <~ snapshot_path lib (rc_execution_id contract) path ;
      recovering_io "create_dir_all" path (ensure_parent path) (λ _,
      rollback_move_back (meta_flag "cross_filesystem_move" (rc_metadata contract)) path destination snapshot)
  end.

(** A file that the action created is removed, if it is still there. *)
Definition delete_created (action path : string) : io (result RecoveryReceipt AdapterError) :=
  there <~ is_existing_file path ;
  recovering_io "remove_file" path
    (if there then remove_file (kernel_path path) else io_ret (Ok tt)) (λ _,
  recovered_receipt [("rollback_action", JStr action); ("target_path", JStr path)]).

Definition rollback_copy (contract : RollbackContract) : io (result RecoveryReceipt AdapterError) :=
  match meta_string "destination_path" (rc_metadata contract) with
  | None => io_ret (Err (AE_Validation "FileCopy rollback requires destination_path in metadata"))
  | Some destination =>
      _ <~? revalidate_path fa PHASE_ROLLBACK destination ;
      if meta_flag "created_new_dest" (rc_metadata contract) then
        delete_created "deleted_new_dest" destination
      else
        snapshot <~ snapshot_path lib (rc_execution_id contract) destination ;
        there <~ path_exists snapshot ;
        if negb there then delete_created "deleted_new_dest" destination
        else
          recovering_io "copy" destination (copy_file snapshot (kernel_path destination)) (λ _,
          recovering_fs "compute_hash" destination (compute_file_hash lib destination) (λ restored_hash,
          recovered_receipt [("rollback_action", JStr "restored_from_snapshot");
                     ("restored_from", JStr (path_text snapshot)); ("restored_hash", JStr restored_hash)]))
  end.

(** [FileWrite] and [FileDelete]. *)
Definition rollback_content (contract : RollbackContract) (path : string)
  : io (result RecoveryReceipt AdapterError) :=
  if meta_flag "created_new_file" (rc_metadata contract) then delete_created "deleted_new_file" path
  else
    snapshot <~ snapshot_path lib (rc_execution_id contract) path ;
    there <~ path_exists snapshot ;
    _ <~? fs_require there PHASE_ROLLBACK
            ("snapshot not found for " +:+ path +:+ " (path: " +:+ path_text snapshot
             +:+ "): cannot restore - original file content is unavailable") ;
    recovering_io "create_dir_all" path (ensure_parent path) (λ _,
    recovering_io "copy" path (copy_file snapshot (kernel_path path)) (λ _,
    recovering_fs "compute_hash" path (compute_file_hash lib path) (λ restored_hash,
    recovered_receipt [("restored_from", JStr (path_text snapshot)); ("restored_hash", JStr restored_hash)]))).

Definition rollback_action (contract : RollbackContract) (path : string)
  : io (result RecoveryReceipt AdapterError) :=
  match rc_action_type contract with
  | Act_DirCreate => rollback_dir_create path
  | Act_DirDelete => rollback_dir_delete path
  | Act_FileAppend => rollback_append contract path
  | Act_FileChmod => rollback_chmod contract path
  | Act_FileMove => rollback_move contract path
  | Act_FileCopy => rollback_copy contract
  | _ => rollback_content contract path
  end.

Definition fs_rollback (contract : RollbackContract) : io (result RecoveryReceipt AdapterError) :=
  if negb (fs_file_action (rc_action_type contract) || fs_dir_action (rc_action_type contract)) then
    io_ret (Err (AE_Unsupported ("rollback not supported for "
                                 +:+ debug_action_type (rc_action_type contract) +:+ " in fs adapter")))
  else
    match extract_path lib (rc_target contract) with
    | Err e => io_ret (Err e)
    | Ok file_path =>
        _ <~? revalidate_path fa PHASE_ROLLBACK file_path ;
        rollback_action contract file_path
    end.

(** [compensate] is [rollback]. *)
Definition fs_compensate := fs_rollback.
End phases.

(** ** planner.rs *)

(** [next_idempotency_key] with the process-wide counter. *)
Definition next_idempotency_key (counter : Z) : string * Z :=
  ("planner-" +:+ pretty counter, (counter + 1) mod 2 ^ 64)%Z.

Definition must_exist_check (path : string) (b : bool) : CheckSpec :=
  {| cs_check_type := CT_FileExists; cs_config := [("must_exist", JBool b); ("path", JStr path)] |}.

Definition restore_snapshot_step (path key : string) : CompensationStep :=
  {| cst_order := 1; cst_adapter_key := "fs"; cst_operation := "restore_snapshot";
     cst_args := [("path", JStr path)]; cst_idempotency_key := key |}.

(** [PlannableFsAdapter::generate_plan]. *)
Definition PlannableFsAdapter (counter : Z) (action_type : ActionType) (target : RollbackTarget)
  : result (option ExecutionPlan) AdapterError * Z :=
  match action_type, target with
  | Act_FileWrite, RTg_FilePath path _ _ =>
      let '(key, counter) := next_idempotency_key counter in
      (Ok (Some {| pl_prepare_checks := [must_exist_check path false];
                   pl_verify_checks := [{| cs_check_type := CT_FileHashMatches;
                                           cs_config := [("path", JStr path)] |}];
                   pl_compensation_plan := [restore_snapshot_step path key];
                   pl_auto_commit := false;
                   pl_plan_description := "fs write plan for " +:+ path |}), counter)
  | Act_FileDelete, RTg_FilePath path _ _ =>
      let '(key, counter) := next_idempotency_key counter in
      (Ok (Some {| pl_prepare_checks := [must_exist_check path true];
                   pl_verify_checks := [must_exist_check path false];
                   pl_compensation_plan := [restore_snapshot_step path key];
                   pl_auto_commit := false;
                   pl_plan_description := "fs delete plan for " +:+ path |}), counter)
  | _, _ => (Ok None, counter)
  end.
