(* ===== verification/FsFacts.v ===== *)
(** * Facts on paths, resolution and the calls of the file system

    What a call does when the kernel reports no fault: which location a path without
    symbolic links denotes, that it denotes the same one as long as directories and
    links stay, and the effect of each call on the tree. *)

From S2P Require Import Prelude FileSystem.

(** No call meets a fault. *)
Definition calm (h : Host) : Prop := ∀ n, h_fault h n = None.

(** ** Inversion of computations *)

Lemma io_bind_inv {A B} (m : io A) (k : A → io B) h s r s' :
  io_bind m k h s = (r, s') → ∃ a s1, m h s = (a, s1) ∧ k a h s1 = (r, s').
Proof. unfold io_bind. destruct (m h s) as [a s1]. eauto. Qed.

Lemma io_try_inv {A B E} (m : io (result A E)) (k : A → io (result B E)) h s r s' :
  (x <~? m ; k x) h s = (Ok r, s') → ∃ a s1, m h s = (Ok a, s1) ∧ k a h s1 = (Ok r, s').
Proof. intros (a & s1 & Hm & Hk)%io_bind_inv. destruct a; [eauto | done]. Qed.

Lemma io_map_err_inv {A E F} (f : E → F) (m : io (result A E)) h s a s' :
  io_map_err f m h s = (Ok a, s') → m h s = (Ok a, s').
Proof.
  intros (r & s1 & Hm & Hk)%io_bind_inv. unfold io_ret in Hk. rewrite Hm.
  destruct r; simpl in *; congruence.
Qed.

Lemma kernel_call_inv {A} (f : Host → Tree → result A IoError * Tree) h s r s' :
  calm h → kernel_call f h s = (r, s') → f h (fs_tree s) = (r, fs_tree s').
Proof.
  intros Hc. unfold kernel_call. rewrite Hc. destruct (f h (fs_tree s)). intros [= <- <-]. done.
Qed.

Lemma kernel_read_inv {A} (f : Host → Tree → result A IoError) h s r s' :
  calm h → kernel_read f h s = (r, s') → f h (fs_tree s) = r ∧ fs_tree s' = fs_tree s.
Proof. intros Hc H%kernel_call_inv; [| done]. by simplify_eq. Qed.

(** A computation that leaves the tree as it is. *)
Record Reading {A} (m : io A) : Prop :=
  { reading_tree : ∀ h s r s', m h s = (r, s') → fs_tree s' = fs_tree s }.

Lemma reading_ret {A} (a : A) : Reading (io_ret a).
Proof. split. intros h s r s' [= <- <-]. done. Qed.
Lemma reading_bind {A B} (m : io A) (k : A → io B) :
  Reading m → (∀ a, Reading (k a)) → Reading (io_bind m k).
Proof.
  intros [Hm] Hk. split. intros h s r s' (a & s1 & H1 & H2)%io_bind_inv.
  destruct (Hk a) as [Hk']. rewrite (Hk' _ _ _ _ H2). by apply (Hm _ _ _ _ H1).
Qed.
Lemma reading_kernel {A} (f : Host → Tree → result A IoError) : Reading (kernel_read f).
Proof.
  split. intros h s r s'. unfold kernel_read, kernel_call.
  destruct (h_fault h _) as [[]|]; intros [= <- <-]; done.
Qed.
Lemma reading_now : Reading io_now.
Proof. split. intros h s r s' [= <- <-]. done. Qed.
Lemma reading_stat f p : Reading (stat f p).
Proof. apply reading_kernel. Qed.
Lemma reading_canonicalize p : Reading (canonicalize p).
Proof. apply reading_kernel. Qed.
Lemma reading_read_file f p : Reading (read_file f p).
Proof. apply reading_kernel. Qed.
Lemma reading_open_append p : Reading (open_append p).
Proof. apply reading_kernel. Qed.
Lemma reading_entries p : Reading (dir_has_entries p).
Proof. apply reading_kernel. Qed.

Create HintDb reading discriminated.
#[export] Hint Constants Opaque : reading.
#[export] Hint Resolve reading_ret reading_now reading_stat reading_canonicalize reading_read_file
  reading_open_append reading_entries : reading.

(** A computation made of reading steps. *)
Ltac solve_reading :=
  lazymatch goal with
  | |- Reading (io_ret _) => exact (reading_ret _)
  | |- Reading (io_bind _ _) => apply reading_bind; [solve_reading | intros ?; solve_reading]
  | |- Reading (kernel_read _) => exact (reading_kernel _)
  | |- Reading (match ?x with _ => _ end) => destruct x; solve_reading
  | |- Reading _ => first [solve [auto with reading nocore] | progress cbv beta zeta; solve_reading]
  end.

Lemma reading_map_err {A E F} (f : E → F) (m : io (result A E)) : Reading m → Reading (io_map_err f m).
Proof. intros ?. unfold io_map_err. apply reading_bind; [done |]. intros ?. apply reading_ret. Qed.
Lemma reading_metadata p : Reading (metadata p).
Proof. apply reading_stat. Qed.
Lemma reading_symlink_metadata p : Reading (symlink_metadata p).
Proof. apply reading_stat. Qed.
#[export] Hint Resolve reading_map_err reading_metadata reading_symlink_metadata : reading.
Lemma reading_exists p : Reading (path_exists p).
Proof. unfold path_exists. solve_reading. Qed.
Lemma reading_is_file p : Reading (path_is_file p).
Proof. unfold path_is_file. solve_reading. Qed.
Lemma reading_is_dir p : Reading (path_is_dir p).
Proof. unfold path_is_dir. solve_reading. Qed.
Lemma reading_metadata_at l : Reading (metadata_at l).
Proof. apply reading_metadata. Qed.
#[export] Hint Resolve reading_exists reading_is_file reading_is_dir reading_metadata_at : reading.

(** ** Resolution *)

Lemma prefix_app_cases {A} (q a b : list A) :
  q `prefix_of` a ++ b → q `prefix_of` a ∨ ∃ q', q = a ++ q' ∧ q' `prefix_of` b.
Proof.
  intros Hq. destruct (prefix_weak_total q a (a ++ b)) as [? | [q' ->]];
    [done | by apply prefix_app_r | by left | right].
  exists q'. split; [done |]. by eapply prefix_app_inv.
Qed.

Lemma walk_unfold k t f cur cs :
  walk k t f cur cs =
  match cs with
  | [] => Ok cur
  | RootDir :: cs => walk k t f [] cs
  | CurDir :: cs => if is_dir_node (node_at t cur) then walk k t f cur cs else Err ENOTDIR
  | ParentDir :: cs => if is_dir_node (node_at t cur) then walk k t f (parent_loc cur) cs else Err ENOTDIR
  | Normal n :: cs =>
      if is_dir_node (node_at t cur) then
        let l := cur ++ [n] in
        match t !! l with
        | None => match cs with [] => Ok l | _ => Err ENOENT end
        | Some (Link target) =>
            match cs, f with
            | [], false => Ok l
            | _, _ =>
                match k with
                | O => Err ELOOP
                | S k => walk k t f cur (kernel_path target ++ cs)
                end
            end
        | Some _ => walk k t f l cs
        end
      else Err ENOTDIR
  end.
Proof. destruct k, cs as [|[] ?]; reflexivity. Qed.

#[local] Opaque walk.

(** The location a path spells, links aside. *)
Definition lex_step (cur : Loc) (c : Component) : Loc :=
  match c with RootDir => [] | CurDir => cur | ParentDir => parent_loc cur | Normal n => cur ++ [n] end.
Definition lex (cur : Loc) (cs : list Component) : Loc := foldl lex_step cur cs.

Lemma node_at_snoc t l n : node_at t (l ++ [n]) = t !! (l ++ [n]).
Proof. by destruct l. Qed.
Lemma node_at_cons t l : l ≠ [] → node_at t l = t !! l.
Proof. by destruct l. Qed.

(** No prefix of the path is a symbolic link. *)
Definition unlinked (k : nat) (t : Tree) (cur : Loc) (cs : list Component) : Prop :=
  ∀ q l tg, q `prefix_of` cs → q ≠ [] → walk k t false cur q = Ok l → node_at t l ≠ Some (Link tg).

Lemma unlinked_step k t cur cur' c cs :
  unlinked k t cur (c :: cs) →
  (∀ q, walk k t false cur (c :: q) = walk k t false cur' q) → unlinked k t cur' cs.
Proof.
  intros Hu Heq q l tg Hq _ Hw. apply (Hu (c :: q) l tg); [by apply prefix_cons | done |].
  by rewrite Heq.
Qed.

(** A path without links denotes the location it spells. *)
Lemma walk_lex k0 k t f cur cs l :
  unlinked k0 t cur cs → walk k t f cur cs = Ok l → l = lex cur cs.
Proof.
  revert cur. induction cs as [|c cs IH]; intros cur Hu; rewrite walk_unfold; [by intros [=] |].
  destruct c as [| | |n]; simpl.
  - apply IH. eapply unlinked_step; [done |]. intros q. by rewrite walk_unfold.
  - case_match eqn:E; [| done]. apply IH. eapply unlinked_step; [done |].
    intros q. by rewrite walk_unfold, E.
  - case_match eqn:E; [| done]. apply IH. eapply unlinked_step; [done |].
    intros q. by rewrite walk_unfold, E.
  - case_match eqn:E; [| done].
    destruct (t !! (cur ++ [n])) as [nd|] eqn:En; [| by destruct cs; intros; simplify_eq].
    assert (∀ tg, nd ≠ Link tg) as Hnl.
    { intros tg ->. apply (Hu [Normal n] (cur ++ [n]) tg); [apply prefix_cons, prefix_nil | done | | ].
      - rewrite walk_unfold, E. simpl. by rewrite En.
      - by rewrite node_at_snoc. }
    destruct nd as [c m|m|tg]; [| | by destruct (Hnl tg)].
    all: apply IH; eapply unlinked_step; [done |]; intros q; rewrite walk_unfold, E; simpl; by rewrite En.
Qed.

(** The directories and links of [t] are those of [t']. *)
Definition same_shape (t t' : Tree) : Prop :=
  ∀ x, (∀ c m, node_at t x ≠ Some (File c m)) → is_Some (node_at t x) → node_at t' x = node_at t x.

Lemma part_component_no_root p : RootDir ∉ part_component p.
Proof. unfold part_component. repeat case_match; set_solver. Qed.
Lemma kernel_path_tail s : RootDir ∉ tl (kernel_path s).
Proof.
  unfold kernel_path, components. set (ps := slash_parts s ≫= part_component).
  assert (RootDir ∉ ps) as H.
  { unfold ps. rewrite list_elem_of_bind. intros (p & Hp & _). by apply part_component_no_root in Hp. }
  assert (∀ b : bool, RootDir ∉ (if b then [CurDir] else [])) as Hb by (intros []; set_solver).
  assert (∀ l : list Component, RootDir ∉ l → RootDir ∉ tl l) as Htl by (intros []; set_solver).
  destruct (is_absolute s); simpl; [rewrite elem_of_app; naive_solver |].
  apply Htl. rewrite !elem_of_app. specialize (Hb (str_ends_with "/" s || str_ends_with "/." s)).
  intros [[Hc | ?] | ?]; [| done..]. repeat case_match; set_solver.
Qed.

Lemma components_tail path : RootDir ∉ tl (components path).
Proof.
  pose proof (kernel_path_tail path) as H. unfold kernel_path in H.
  destruct (components path); [set_solver |]. simpl in *. rewrite elem_of_app in H. naive_solver.
Qed.

Lemma same_shape_dir t t' x : same_shape t t' → is_dir_node (node_at t x) = true → node_at t' x = node_at t x.
Proof. intros Hs Hd. apply Hs; destruct (node_at t x) as [[]|]; simpl in *; try done; by eexists. Qed.

(** A path denotes the same location while directories and links stay. *)
Lemma walk_agree_link k t t' f cur cs l :
  same_shape t t' → (∀ tg, node_at t' l = Some (Link tg) → node_at t l = Some (Link tg)) → RootDir ∉ tl cs →
  walk k t f cur cs = Ok l → walk k t' f cur cs = Ok l.
Proof.
  intros Hs Hl. revert cur cs. induction k as [k IHk] using (well_founded_induction lt_wf).
  intros cur cs. revert cur. induction cs as [|c cs IH]; intros cur Hr.
  { by rewrite !(walk_unfold k). }
  rewrite (walk_unfold k t f cur (c :: cs)), (walk_unfold k t' f cur (c :: cs)).
  simpl in Hr. assert (RootDir ∉ tl cs) as Hr' by (destruct cs; set_solver).
  destruct c as [| | |n]; [by apply IH | | |].
  - case_match eqn:E; [| done]. rewrite (same_shape_dir t t'), E; [by apply IH | done..].
  - case_match eqn:E; [| done]. rewrite (same_shape_dir t t'), E; [by apply IH | done..].
  - case_match eqn:E; [| done]. rewrite (same_shape_dir t t'), E by done. cbn zeta.
    destruct (t !! (cur ++ [n])) as [nd|] eqn:En.
    + destruct nd as [fc m|m|tg].
      * destruct cs as [|c cs]; [rewrite walk_unfold; intros [= <-] |].
        -- rewrite !node_at_snoc in Hl. destruct (t' !! (cur ++ [n])) as [[]|]; [by rewrite walk_unfold.. | |done].
           by rewrite En in Hl; specialize (Hl target eq_refl).
        -- intros Hw. exfalso. rewrite walk_unfold in Hw. rewrite node_at_snoc, En in Hw.
           destruct c; simpl in Hw; try done. set_solver.
      * assert (t' !! (cur ++ [n]) = Some (Dir m)) as ->; [| by apply IH].
        rewrite <- En, <- !node_at_snoc. apply Hs; rewrite node_at_snoc, En; [done | by eexists].
      * assert (t' !! (cur ++ [n]) = Some (Link tg)) as Hlk.
        { rewrite <- En, <- !node_at_snoc. apply Hs; rewrite node_at_snoc, En; [done | by eexists]. }
        rewrite Hlk. destruct cs as [|c cs], f, k as [|k]; try done.
        all: apply IHk; [lia |].
        all: destruct (kernel_path tg) as [|d p] eqn:Ekp; simpl;
             [first [set_solver | by destruct cs; set_solver]
             | rewrite ?app_nil_r; pose proof (kernel_path_tail tg) as Hk; rewrite Ekp in Hk; simpl in Hk;
               rewrite ?elem_of_app; naive_solver].
    + destruct cs as [|c cs]; [| done]. intros [= <-]. rewrite !node_at_snoc in Hl.
      destruct (t' !! (cur ++ [n])) as [[]|]; [by rewrite walk_unfold.. | | done].
      by rewrite En in Hl; specialize (Hl target eq_refl).
Qed.

Lemma walk_agree k t t' f cur cs l :
  same_shape t t' → (∀ tg, node_at t' l ≠ Some (Link tg)) → RootDir ∉ tl cs →
  walk k t f cur cs = Ok l → walk k t' f cur cs = Ok l.
Proof. intros Hs Hl. apply walk_agree_link; [done |]. intros tg H. by destruct (Hl tg). Qed.

(** The location a text spells, and that no prefix of it is a symbolic link. *)
Definition spelled (h : Host) (path : string) : Loc := lex (h_cwd h) (kernel_path path).
Record plain (h : Host) (t : Tree) (path : string) : Prop :=
  { plain_unlinked : unlinked max_links t (h_cwd h) (kernel_path path) }.

Lemma resolve_walk h t f p l : resolve h t f p = Ok l → walk max_links t f (h_cwd h) p = Ok l.
Proof. by destruct p. Qed.

Lemma resolve_spelled h t f path l :
  plain h t path → resolve h t f (kernel_path path) = Ok l → l = spelled h path.
Proof. intros [Hp] Hr%resolve_walk. by eapply walk_lex. Qed.

Lemma resolve_agree h t t' f p l :
  same_shape t t' → (∀ tg, node_at t' l ≠ Some (Link tg)) → RootDir ∉ tl p →
  resolve h t f p = Ok l → resolve h t' f p = Ok l.
Proof. intros Hs Hl Hr. destruct p; [done |]. by apply walk_agree. Qed.

Lemma lookup_path_inv h t f p l n :
  lookup_path h t f p = Ok (l, n) ↔ resolve h t f p = Ok l ∧ node_at t l = Some n.
Proof.
  unfold lookup_path. split.
  - destruct (resolve h t f p) as [l'|]; simpl; [| done].
    destruct (node_at t l') eqn:E; simpl; [| done]. intros [= <- <-]. done.
  - intros [-> ->]. done.
Qed.

Lemma lookup_agree h t t' f p l n n' :
  same_shape t t' → RootDir ∉ tl p → lookup_path h t f p = Ok (l, n) →
  node_at t' l = Some n' → (∀ tg, n' ≠ Link tg) → lookup_path h t' f p = Ok (l, n').
Proof.
  intros Hs Hr [Hl Hn]%lookup_path_inv Hn' Hnl. apply lookup_path_inv. split; [| done].
  eapply resolve_agree; [done | | done..]. rewrite Hn'. naive_solver.
Qed.

(** ** The calls without faults *)

Section calls.
Context (h : Host) (Hcalm : calm h).
Implicit Types (s : Fs) (p : list Component).

Lemma stat_inv f p s r s' :
  stat f p h s = (r, s') →
  r = (let? x := lookup_path h (fs_tree s) f p in Ok {| md_node := x.2; md_dev := h_device h x.1 |}) ∧
  fs_tree s' = fs_tree s.
Proof. by intros [<- ?]%kernel_read_inv. Qed.

Lemma path_exists_inv p s b s' :
  path_exists p h s = (b, s') → b = is_ok (lookup_path h (fs_tree s) true p) ∧ fs_tree s' = fs_tree s.
Proof.
  intros (r & s1 & [-> Ht]%stat_inv & [= <- <-])%io_bind_inv. split; [| done].
  by destruct (lookup_path _ _ _ _).
Qed.

Lemma path_is_file_inv p s b s' :
  path_is_file p h s = (b, s') →
  b = match lookup_path h (fs_tree s) true p with Ok (_, File _ _) => true | _ => false end ∧
  fs_tree s' = fs_tree s.
Proof.
  intros (r & s1 & [-> Ht]%stat_inv & [= <- <-])%io_bind_inv. split; [| done].
  by destruct (lookup_path _ _ _ _) as [[? []]|].
Qed.

Lemma path_is_dir_inv p s b s' :
  path_is_dir p h s = (b, s') →
  b = match lookup_path h (fs_tree s) true p with Ok (_, Dir _) => true | _ => false end ∧
  fs_tree s' = fs_tree s.
Proof.
  intros (r & s1 & [-> Ht]%stat_inv & [= <- <-])%io_bind_inv. split; [| done].
  by destruct (lookup_path _ _ _ _) as [[? []]|].
Qed.

Lemma read_file_inv f p s c s' :
  read_file f p h s = (Ok c, s') →
  fs_tree s' = fs_tree s ∧ ∃ l m, lookup_path h (fs_tree s) f p = Ok (l, File c m).
Proof.
  intros [Hr Ht]%kernel_read_inv; [| done]. split; [done |].
  destruct (lookup_path _ _ _ _) as [[l []]|]; naive_solver.
Qed.

Lemma metadata_inv p s m s' :
  metadata p h s = (Ok m, s') →
  fs_tree s' = fs_tree s ∧ ∃ l, lookup_path h (fs_tree s) true p = Ok (l, md_node m).
Proof.
  intros [Hr Ht]%stat_inv. split; [done |].
  destruct (lookup_path _ _ _ _) as [[l n]|]; simpl in Hr; [| done]. injection Hr as ->. by eexists.
Qed.

Lemma remove_file_inv p s u s' :
  remove_file p h s = (Ok u, s') →
  ∃ l n, lookup_path h (fs_tree s) false p = Ok (l, n) ∧ (∀ m, n ≠ Dir m) ∧
         fs_tree s' = delete l (fs_tree s).
Proof.
  intros H%kernel_call_inv; [| done]. destruct (lookup_path _ _ _ _) as [[l n]|]; [| done].
  exists l, n. destruct n; naive_solver.
Qed.

Lemma create_dir_inv p s u s' :
  create_dir p h s = (Ok u, s') →
  ∃ l, resolve h (fs_tree s) false p = Ok l ∧ node_at (fs_tree s) l = None ∧
       fs_tree s' = <[l := Dir (dir_mode h)]> (fs_tree s).
Proof.
  intros H%kernel_call_inv; [| done]. destruct (resolve _ _ _ _) as [l|]; [| done].
  destruct (node_at _ l) eqn:E; naive_solver.
Qed.

Lemma remove_dir_inv path s u s' :
  remove_dir path h s = (Ok u, s') →
  ∃ l m, lookup_path h (fs_tree s) false (kernel_path path) = Ok (l, Dir m) ∧ l ≠ [] ∧
         fs_tree s' = delete l (fs_tree s).
Proof.
  intros H%kernel_call_inv; [| done]. destruct (lookup_path _ _ _ _) as [[l n]|]; [| done].
  destruct l as [|x l]; [by destruct n |]. destruct n; [done | | done].
  destruct (_ || _); [done |]. destruct (has_child _ _); [done |]. injection H as _ <-.
  by eexists _, _.
Qed.

Lemma set_permissions_inv p mode s u s' l c m :
  set_permissions p mode h s = (Ok u, s') →
  lookup_path h (fs_tree s) true p = Ok (l, File c m) →
  fs_tree s' = <[l := File c (Z.land mode 4095)]> (fs_tree s).
Proof.
  intros H%kernel_call_inv Hl; [| done]. rewrite Hl in H. destruct l; congruence.
Qed.

Lemma write_all_inv l data s r s' :
  write_all l data h s = (r, s') →
  r = Ok tt ∧ fs_tree s' = match node_at (fs_tree s) l with
                           | Some (File c m) => <[l := File (c +:+ data) m]> (fs_tree s)
                           | _ => fs_tree s
                           end.
Proof. unfold write_all. rewrite Hcalm. by intros [= <- <-]. Qed.

(** The mode of a file that is opened for writing. *)
Definition written_mode (t : Tree) (l : Loc) (new : Z) : Z :=
  match node_at t l with Some (File _ m) => m | _ => new end.

Lemma open_truncate_inv f mode p s l s' :
  open_truncate f mode p h s = (Ok l, s') →
  resolve h (fs_tree s) f p = Ok l ∧ l ≠ [] ∧
  (∀ n, node_at (fs_tree s) l = Some n → ∃ c m, n = File c m) ∧
  fs_tree s' = <[l := File "" (written_mode (fs_tree s) l (mode h))]> (fs_tree s).
Proof.
  intros H%kernel_call_inv; [| done]. destruct (resolve _ _ _ _) as [l'|]; [| done].
  unfold written_mode. destruct (node_at _ l') as [[]|] eqn:E; simplify_eq; rewrite E.
  - split_and!; [done | by intros -> | naive_solver | congruence].
  - split_and!; [done | by intros -> | done | congruence].
Qed.

Lemma node_at_insert t l n : l ≠ [] → node_at (<[l := n]> t) l = Some n.
Proof. intros. rewrite node_at_cons by done. apply lookup_insert_eq. Qed.

(** Opening, then writing. *)
Lemma write_contents_inv f mode p data s u s' :
  (l <~? open_truncate f mode p ; write_all l data) h s = (Ok u, s') →
  ∃ l, resolve h (fs_tree s) f p = Ok l ∧ l ≠ [] ∧
       (∀ n, node_at (fs_tree s) l = Some n → ∃ c m, n = File c m) ∧
       fs_tree s' = <[l := File data (written_mode (fs_tree s) l (mode h))]> (fs_tree s).
Proof.
  intros (l & s1 & (Hr & Hne & Hn & Ht)%open_truncate_inv & [_ Hw]%write_all_inv)%io_try_inv.
  exists l. split_and!; [done.. |]. rewrite Hw, Ht, node_at_insert by done. simpl.
  by rewrite insert_insert_eq.
Qed.

(** [copy]: a file that is copied onto itself is emptied. *)
Lemma copy_file_inv from to s u s' :
  copy_file from to h s = (Ok u, s') →
  ∃ lf c m lt, lookup_path h (fs_tree s) true from = Ok (lf, File c m) ∧
    resolve h (fs_tree s) true to = Ok lt ∧ lt ≠ [] ∧
    (∀ n, node_at (fs_tree s) lt = Some n → ∃ c m, n = File c m) ∧
    fs_tree s' = <[lt := File (if decide (lf = lt) then "" else c) (Z.land m 4095)]> (fs_tree s).
Proof.
  intros (src & s1 & [Hsrc Ht1]%kernel_read_inv & H)%io_try_inv; [| done].
  destruct (lookup_path h (fs_tree s) true from) as [[lf n]|] eqn:Hl; [| done]. simpl in Hsrc.
  destruct n as [c m| |]; simplify_eq. simpl in H.
  apply io_try_inv in H as (lt & s2 & (Hr & Hne & Hn & Ht2)%open_truncate_inv & H).
  apply io_try_inv in H as ([] & s3 & H3%kernel_call_inv & H); [| done].
  rewrite Ht2, node_at_insert in H3 by done. rewrite Ht1 in *. rewrite insert_insert_eq in H3.
  assert (fs_tree s3 = <[lt := File "" (Z.land m 4095)]> (fs_tree s)) as Ht3 by congruence. clear H3.
  apply io_try_inv in H as (data & s4 & [H4 Ht4]%kernel_read_inv & [_ Hw]%write_all_inv); [| done].
  exists lf, c, m, lt. split_and!; [done.. |].
  rewrite Hw, Ht4, Ht3, node_at_insert, insert_insert_eq by done. f_equal.
  rewrite Ht3 in H4. apply lookup_path_inv in Hl as [_ Hlf]. case_decide as E.
  - subst. rewrite node_at_insert in H4 by done. by simplify_eq.
  - assert (lf ≠ []) as Hlf0 by (intros ->; done).
    rewrite (node_at_cons _ lf) in H4 by done. rewrite (node_at_cons _ lf) in Hlf by done. rewrite lookup_insert_ne, Hlf in H4 by done.
    by simplify_eq.
Qed.

(** [rename] of a file. *)
Lemma rename_file_inv from to s u s' lf c m :
  rename from to h s = (Ok u, s') → lookup_path h (fs_tree s) false from = Ok (lf, File c m) →
  ∃ lt, resolve h (fs_tree s) false to = Ok lt ∧
    (∀ m', node_at (fs_tree s) lt ≠ Some (Dir m')) ∧
    (lf = lt ∧ fs_tree s' = fs_tree s ∨
     lf ≠ lt ∧ fs_tree s' = <[lt := File c m]> (delete lf (fs_tree s))).
Proof.
  intros H%kernel_call_inv [Hrf Hnf]%lookup_path_inv; [| done]. rewrite Hrf in H.
  destruct (resolve h (fs_tree s) false to) as [lt|]; [| done]. exists lt. split; [done |].
  destruct (negb _); [done |]. rewrite Hnf in H. case_bool_decide; simplify_eq.
  - split; [by rewrite Hnf | by left].
  - destruct (node_at (fs_tree s) lt) as [[]|] eqn:E; simplify_eq; (split; [done | by right]).
Qed.

(** A failed [rename] changes nothing. *)
Lemma rename_err from to s e s' : rename from to h s = (Err e, s') → fs_tree s' = fs_tree s.
Proof. intros H%kernel_call_inv; [| done]. repeat case_match; by simplify_eq. Qed.
End calls.
