(* ===== verification/FsSnapshot.v ===== *)
(** * Facts on the checks and snapshots of the file-system adapter

    What a passed sandbox check says of the tree, and what a snapshot leaves behind:
    the content and mode of the file, at a place that later phases find again. *)

From S2P Require Import Prelude Json Proto Adapter FileSystem FsAdapter FsPhases FsFacts.

#[local] Opaque walk.

(** ** Checks *)

Lemma reading_check_symlinks seen rest : Reading (check_symlinks seen rest).
Proof. revert seen. induction rest; intros; simpl; solve_reading; auto. Qed.
#[export] Hint Resolve reading_check_symlinks : reading.
Lemma reading_reject_symlinks path : Reading (reject_symlinks path).
Proof. unfold reject_symlinks. solve_reading. Qed.
Lemma reading_resolve_for_sandbox path wd : Reading (resolve_for_sandbox path wd).
Proof. unfold resolve_for_sandbox. solve_reading. Qed.
#[export] Hint Resolve reading_reject_symlinks reading_resolve_for_sandbox : reading.
Lemma reading_enforce_workdir path wd : Reading (enforce_workdir path wd).
Proof. unfold enforce_workdir. solve_reading. Qed.
#[export] Hint Resolve reading_enforce_workdir : reading.
Lemma reading_validate_path_sandbox path wd a b : Reading (validate_path_sandbox path wd a b).
Proof. unfold validate_path_sandbox. solve_reading. Qed.
#[export] Hint Resolve reading_validate_path_sandbox : reading.
Lemma reading_revalidate_path fa phase path : Reading (revalidate_path fa phase path).
Proof. unfold revalidate_path. solve_reading. Qed.
Lemma reading_is_existing_file path : Reading (is_existing_file path).
Proof. unfold is_existing_file. solve_reading. Qed.
Lemma reading_is_existing_dir p : Reading (is_existing_dir p).
Proof. unfold is_existing_dir. solve_reading. Qed.
#[export] Hint Resolve reading_revalidate_path reading_is_existing_file reading_is_existing_dir : reading.
Lemma reading_validate_path_exists path : Reading (validate_path_exists path).
Proof. unfold validate_path_exists. solve_reading. Qed.
Lemma reading_validate_file_size path n : Reading (validate_file_size path n).
Proof. unfold validate_file_size. solve_reading. Qed.
Lemma reading_compute_file_hash lib path : Reading (compute_file_hash lib path).
Proof. unfold compute_file_hash, read_file_nofollow. solve_reading. Qed.
Lemma reading_compute_hash_at lib p : Reading (compute_hash_at lib p).
Proof. unfold compute_hash_at. solve_reading. Qed.
#[export] Hint Resolve reading_validate_path_exists reading_validate_file_size reading_compute_file_hash
  reading_compute_hash_at : reading.
Lemma reading_require_file phase msg path : Reading (require_file phase msg path).
Proof. unfold require_file. solve_reading. Qed.
Lemma reading_hash_or lib phase msg path : Reading (hash_or lib phase msg path).
Proof. unfold hash_or. solve_reading. Qed.
Lemma reading_metadata_or phase msg path : Reading (metadata_or phase msg path).
Proof. unfold metadata_or. solve_reading. Qed.
Lemma reading_prepare_size fa request path : Reading (prepare_size fa request path).
Proof. unfold prepare_size. solve_reading. Qed.
Lemma reading_run_check lib check path phase : Reading (run_check lib check path phase).
Proof. unfold run_check. solve_reading. Qed.
#[export] Hint Resolve reading_require_file reading_hash_or reading_metadata_or reading_prepare_size
  reading_run_check : reading.
Lemma reading_run_checks lib checks path phase : Reading (run_checks lib checks path phase).
Proof. induction checks; simpl; solve_reading; auto. Qed.
Lemma reading_snapshot_path lib eid path : Reading (snapshot_path lib eid path).
Proof. split. by intros h s r s' [= <- <-]. Qed.
Lemma reading_fs_require b phase msg : Reading (fs_require b phase msg).
Proof. apply reading_ret. Qed.
#[export] Hint Resolve reading_run_checks reading_snapshot_path reading_fs_require : reading.

Section checks.
Context (h : Host) (Hcalm : calm h).

Lemma check_symlinks_inv seen rest s s' :
  check_symlinks seen rest h s = (Ok tt, s') →
  ∀ q l tg, q `prefix_of` rest → q ≠ [] → lookup_path h (fs_tree s) false (seen ++ q) ≠ Ok (l, Link tg).
Proof.
  revert seen s. induction rest as [|c rest IH]; intros seen s H q l tg Hq Hne.
  { by apply prefix_nil_inv in Hq. }
  simpl in H. apply io_bind_inv in H as (md & s1 & [Hmd Ht]%stat_inv & H); [| done].
  destruct q as [|c' q]; [done |]. assert (c' = c) as -> by (by eapply prefix_cons_inv_1).
  apply prefix_cons_inv_2 in Hq. destruct q as [|d q].
  - intros Hl. by rewrite Hl in Hmd; simplify_eq.
  - rewrite <- Ht. change (c :: d :: q) with ([c] ++ (d :: q)). rewrite app_assoc.
    apply IH; [| done..]. by destruct md as [[[] ?]|].
Qed.

Lemma reject_symlinks_inv path s s' :
  reject_symlinks path h s = (Ok tt, s') → plain h (fs_tree s) path.
Proof.
  intros ([] & s1 & H1 & H)%io_try_inv.
  pose proof (reading_tree _ (reading_check_symlinks _ _) _ _ _ _ H1) as Ht1.
  pose proof (check_symlinks_inv _ _ _ _ H1) as Hc. simpl in Hc.
  apply io_bind_inv in H as (md & s2 & [Hmd Ht]%stat_inv & H); [| done].
  split. intros q l tg Hq Hne Hw Hn.
  assert (lookup_path h (fs_tree s) false q = Ok (l, Link tg)) as Hl.
  { apply lookup_path_inv. split; [by destruct q | done]. }
  unfold kernel_path in Hq. apply prefix_app_cases in Hq as [Hq | (q' & -> & Hq)].
  { by apply (Hc q l tg). }
  destruct (_ || _) eqn:E.
  2: { apply prefix_nil_inv in Hq as ->. rewrite app_nil_r in *. by apply (Hc (components path) l tg). }
  destruct q' as [|c q']; [rewrite app_nil_r in *; by apply (Hc (components path) l tg) |].
  assert (c = CurDir) as -> by (by eapply prefix_cons_inv_1).
  apply prefix_cons_inv_2, prefix_nil_inv in Hq as ->.
  unfold kernel_path in Hmd. rewrite E, Ht1, Hl in Hmd. by simplify_eq.
Qed.

(** A path that passes the checks of a phase has no symbolic link in it. *)
Lemma revalidate_plain fa phase path s s' :
  fb_allow_symlinks (fa_bounds fa) = false →
  revalidate_path fa phase path h s = (Ok tt, s') → plain h (fs_tree s) path.
Proof.
  intros Hb. unfold revalidate_path. destruct (validate_path_depth _ _); [| done].
  intros H%io_map_err_inv. unfold validate_path_sandbox in H. rewrite Hb in H.
  apply io_try_inv in H as ([] & s1 & H & _). by eapply reject_symlinks_inv.
Qed.

Lemma is_existing_file_inv path s b s' :
  is_existing_file path h s = (b, s') →
  b = match lookup_path h (fs_tree s) true (kernel_path path) with Ok (_, File _ _) => true | _ => false end ∧
  fs_tree s' = fs_tree s.
Proof.
  intros H. split; [| by eapply reading_tree; [apply reading_is_existing_file |]].
  apply io_bind_inv in H as (e & s1 & [-> Ht]%path_exists_inv & H); [| done].
  destruct (lookup_path h (fs_tree s) true _) eqn:E; simpl in H; [| unfold io_ret in H; congruence].
  apply path_is_file_inv in H as [-> _]; [| done]. by rewrite Ht, E.
Qed.

Lemma existing_file_inv path s s' :
  is_existing_file path h s = (true, s') →
  fs_tree s' = fs_tree s ∧ ∃ l c m, lookup_path h (fs_tree s) true (kernel_path path) = Ok (l, File c m).
Proof.
  intros [Hb Ht]%is_existing_file_inv. split; [done |].
  destruct (lookup_path _ _ _ _) as [[? []]|]; naive_solver.
Qed.

Lemma is_existing_dir_inv p s b s' :
  is_existing_dir p h s = (b, s') →
  b = match lookup_path h (fs_tree s) true p with Ok (_, Dir _) => true | _ => false end ∧
  fs_tree s' = fs_tree s.
Proof.
  intros H. split; [| by eapply reading_tree; [apply reading_is_existing_dir |]].
  apply io_bind_inv in H as (e & s1 & [-> Ht]%path_exists_inv & H); [| done].
  destruct (lookup_path h (fs_tree s) true p) eqn:E; simpl in H; [| unfold io_ret in H; congruence].
  apply path_is_dir_inv in H as [-> _]; [| done]. by rewrite Ht, E.
Qed.

Lemma require_file_inv phase msg path s u s' :
  require_file phase msg path h s = (Ok u, s') →
  fs_tree s' = fs_tree s ∧ ∃ l c m, lookup_path h (fs_tree s) true (kernel_path path) = Ok (l, File c m).
Proof.
  intros H%io_map_err_inv. apply io_bind_inv in H as ([] & s1 & Hb & [= H <-]).
  by apply existing_file_inv.
Qed.

(** A file that a path leads to is where the path spells. *)
Lemma lookup_spelled t f path l n :
  plain h t path → lookup_path h t f (kernel_path path) = Ok (l, n) → l = spelled h path.
Proof. intros Hp [Hr _]%lookup_path_inv. by eapply resolve_spelled. Qed.

(** A plain path leads to the same node whether its last link is followed or not. *)
Lemma walk_nofollow k t f f' cur cs l :
  unlinked k t cur cs → walk k t f cur cs = Ok l → walk k t f' cur cs = Ok l.
Proof.
  revert cur. induction cs as [|c cs IH]; intros cur Hu; rewrite (walk_unfold k t f), (walk_unfold k t f');
    [done |].
  destruct c as [| | |n]; simpl.
  - apply IH. eapply unlinked_step; [done |]. intros q. by rewrite walk_unfold.
  - case_match eqn:E; [| done]. apply IH. eapply unlinked_step; [done |]. intros q. by rewrite walk_unfold, E.
  - case_match eqn:E; [| done]. apply IH. eapply unlinked_step; [done |]. intros q. by rewrite walk_unfold, E.
  - case_match eqn:E; [| done]. destruct (t !! (cur ++ [n])) as [[c m|m|tg]|] eqn:En; [| | | done].
    1-2: apply IH; eapply unlinked_step; [done |]; intros q; rewrite walk_unfold, E; simpl; by rewrite En.
    exfalso. apply (Hu [Normal n] (cur ++ [n]) tg); [apply prefix_cons, prefix_nil | done | | ].
    + rewrite walk_unfold, E. simpl. by rewrite En.
    + by rewrite node_at_snoc.
Qed.

Lemma resolve_nofollow t f f' path l :
  plain h t path → resolve h t f (kernel_path path) = Ok l → resolve h t f' (kernel_path path) = Ok l.
Proof.
  intros [Hp]. unfold resolve. destruct (kernel_path path) eqn:E; [done |]. rewrite <- E in *. by apply walk_nofollow.
Qed.

Lemma lookup_nofollow t f f' path x :
  plain h t path → lookup_path h t f (kernel_path path) = Ok x → lookup_path h t f' (kernel_path path) = Ok x.
Proof.
  destruct x as [l n]. rewrite !lookup_path_inv. intros Hp [Hr Hn]. split; [| done].
  by eapply resolve_nofollow.
Qed.

(** ** The directory of a path *)

Lemma walk_prefix k t f cur p q l :
  unlinked k t cur (p ++ q) → q ≠ [] → walk k t f cur (p ++ q) = Ok l →
  walk k t true cur p = Ok (lex cur p) ∧ walk k t f (lex cur p) q = Ok l.
Proof.
  intros Hu Hq. revert cur Hu. induction p as [|c p IH]; intros cur Hu; [by rewrite (walk_unfold k t true) |].
  simpl. rewrite (walk_unfold k t f cur), (walk_unfold k t true cur).
  destruct c as [| | |n]; simpl.
  - apply IH. eapply unlinked_step; [done |]. intros ?. by rewrite walk_unfold.
  - case_match eqn:E; [| done]. apply IH. eapply unlinked_step; [done |]. intros ?. by rewrite walk_unfold, E.
  - case_match eqn:E; [| done]. apply IH. eapply unlinked_step; [done |]. intros ?. by rewrite walk_unfold, E.
  - case_match eqn:E; [| done]. destruct (t !! (cur ++ [n])) as [[c m|m|tg]|] eqn:En.
    1-2: apply IH; eapply unlinked_step; [done |]; intros ?; rewrite walk_unfold, E; simpl; by rewrite En.
    + exfalso. apply (Hu [Normal n] (cur ++ [n]) tg); [apply prefix_cons, prefix_nil | done | | ].
      * rewrite walk_unfold, E. simpl. by rewrite En.
      * by rewrite node_at_snoc.
    + by destruct p, q.
Qed.

Lemma parent_path_spec cs p : parent_path cs = Some p → ∃ c, cs = p ++ [c] ∧ c ≠ RootDir.
Proof.
  unfold parent_path. intros H. exists (default CurDir (head (rev cs))).
  destruct (rev cs) as [|c r] eqn:E; [done |].
  assert (cs = rev r ++ [c]) as -> by (rewrite <- (rev_involutive cs), E; done).
  destruct c, r; naive_solver.
Qed.

(** The directory of a path that can be resolved exists. *)
Lemma parent_exists_tail t f path q parent l :
  unlinked max_links t (h_cwd h) (components path ++ q) → resolve h t f (components path ++ q) = Ok l →
  parent_path (components path) = Some parent → parent ≠ [] →
  ∃ m, lookup_path h t true parent = Ok (lex (h_cwd h) parent, Dir m).
Proof.
  intros Hp Hr%resolve_walk (c & Hcs & Hc)%parent_path_spec Hne.
  rewrite Hcs in Hp, Hr. rewrite <- app_assoc in Hp, Hr.
  destruct (walk_prefix _ _ _ _ _ _ _ Hp ltac:(done) Hr) as [Hw Hl].
  assert (is_dir_node (node_at t (lex (h_cwd h) parent)) = true) as Hd.
  { rewrite walk_unfold in Hl. destruct c; [done | simpl in Hl; by case_match..]. }
  destruct (node_at t (lex (h_cwd h) parent)) as [[|m|]|] eqn:En; try done. exists m.
  apply lookup_path_inv. split; [by destruct parent | done].
Qed.

Lemma parent_exists t f path parent l :
  plain h t path → resolve h t f (kernel_path path) = Ok l → parent_path (components path) = Some parent →
  parent ≠ [] → ∃ m, lookup_path h t true parent = Ok (lex (h_cwd h) parent, Dir m).
Proof. intros [Hp]. by apply parent_exists_tail. Qed.

(** .. so it is not created again. *)
Lemma ensure_parent_inv t f path l s r s' :
  plain h t path → resolve h t f (kernel_path path) = Ok l → same_shape t (fs_tree s) →
  ensure_parent path h s = (r, s') → r = Ok tt ∧ fs_tree s' = fs_tree s.
Proof.
  intros Hp Hr Hs. unfold ensure_parent. destruct (parent_path _) as [parent|] eqn:E; [| by intros [= <- <-]].
  intros (e & s1 & [-> Ht]%path_exists_inv & H)%io_bind_inv; [| done].
  destruct parent as [|c p] eqn:Ep.
  { injection H as <- <-. done. }
  rewrite <- Ep in *. destruct (parent_exists t f path parent l) as (m & Hm); [done.. | by subst |].
  assert (lookup_path h (fs_tree s) true parent = Ok (lex (h_cwd h) parent, Dir m)) as Hm'.
  { eapply lookup_agree; [done | | done | | done].
    - apply parent_path_spec in E as (? & E & _). pose proof (components_tail path) as Hct.
      rewrite E in Hct. rewrite Ep in *. simpl in *. rewrite elem_of_app in Hct. naive_solver.
    - apply lookup_path_inv in Hm as [_ Hm]. rewrite <- Hm. apply Hs; rewrite Hm; [done | by eexists]. }
  rewrite Hm' in H. simpl in H. unfold io_ret in H. by simplify_eq.
Qed.
End checks.

(** ** The shape of the tree *)

Lemma same_shape_refl t : same_shape t t.
Proof. by intros x. Qed.
Lemma same_shape_trans t1 t2 t3 : same_shape t1 t2 → same_shape t2 t3 → same_shape t1 t3.
Proof. intros H1 H2 x Hf Hs. rewrite <- (H1 x Hf Hs). apply H2; by rewrite H1. Qed.

(** A location that holds no directory or link. *)
Definition file_or_free (t : Tree) (l : Loc) : Prop :=
  ∀ n, node_at t l = Some n → ∃ c m, n = File c m.

Lemma same_shape_insert t l n : file_or_free t l → same_shape t (<[l := n]> t).
Proof.
  intros Hl x Hf [nx Hx]. assert (x ≠ l) as Hne.
  { intros ->. destruct (Hl nx Hx) as (c & m & ->). by destruct (Hf c m). }
  destruct x; [done |]. simpl. by rewrite lookup_insert_ne.
Qed.
Lemma same_shape_delete t l : file_or_free t l → same_shape t (delete l t).
Proof.
  intros Hl x Hf [nx Hx]. assert (x ≠ l) as Hne.
  { intros ->. destruct (Hl nx Hx) as (c & m & ->). by destruct (Hf c m). }
  destruct x; [done |]. simpl. by rewrite lookup_delete_ne.
Qed.
Lemma file_is_file_or_free t l c m : node_at t l = Some (File c m) → file_or_free t l.
Proof. intros H n Hn. simplify_eq. eauto. Qed.
Lemma free_is_file_or_free t l : node_at t l = None → file_or_free t l.
Proof. intros H n Hn. simplify_eq. Qed.
#[export] Hint Resolve same_shape_refl same_shape_insert same_shape_delete file_is_file_or_free
  free_is_file_or_free : ferrum.

(** ** Where the snapshots are *)

Section area.
Context (root : Loc).

(** Above or below the directory of the snapshots. *)
Definition related (x : Loc) : Prop := x `prefix_of` root ∨ root `prefix_of` x.

Lemma related_prefix x y : x `prefix_of` y → related y → related x.
Proof.
  intros Hxy [Hy | Hy]; [left; by etrans |].
  destruct (prefix_weak_total x root y) as [? | ?]; [done | done | by left | by right].
Qed.

(** No symbolic link leads to the snapshots. *)
Definition area_plain (t : Tree) : Prop := ∀ x tg, related x → node_at t x ≠ Some (Link tg).

(** What the adapter does to the area of the snapshots only. *)
Record area_step (t t' : Tree) : Prop := {
  as_outside : ∀ x, ¬ related x → t' !! x = t !! x;
  as_shape : same_shape t t';
  as_plain : area_plain t';
}.

Lemma area_step_refl t : area_plain t → area_step t t.
Proof. split; auto with ferrum. Qed.
Lemma area_step_trans t1 t2 t3 : area_step t1 t2 → area_step t2 t3 → area_step t1 t3.
Proof.
  intros [O1 S1 P1] [O2 S2 P2]. split; [| by eapply same_shape_trans | done].
  intros x Hx. by rewrite O2, O1.
Qed.

Lemma area_step_insert t l n :
  area_plain t → related l → file_or_free t l → (∀ tg, n ≠ Link tg) → area_step t (<[l := n]> t).
Proof.
  intros Hp Hl Hf Hn. split; [| auto with ferrum |].
  - intros x Hx. rewrite lookup_insert_ne; [done |]. by intros ->.
  - intros x tg Hx. destruct x as [|y x]; [done |]. simpl.
    destruct (decide (l = y :: x)) as [-> | ?]; [rewrite lookup_insert_eq; naive_solver |].
    rewrite lookup_insert_ne by done. by apply (Hp (y :: x)).
Qed.

(** An absolute path of names into the area. *)
Lemma walk_names k t f cur names l :
  (∀ q tg, q `prefix_of` names → q ≠ [] → t !! (cur ++ q) ≠ Some (Link tg)) →
  walk k t f cur (Normal <$> names) = Ok l → l = cur ++ names.
Proof.
  revert cur. induction names as [|n names IH]; intros cur Hn; rewrite walk_unfold; simpl.
  { intros [= <-]. by rewrite app_nil_r. }
  case_match; [| done]. destruct (t !! (cur ++ [n])) as [nd|] eqn:En.
  2: { destruct names; naive_solver. }
  assert (∀ tg, nd ≠ Link tg) as Hnl.
  { intros tg ->. eapply (Hn [n]); [apply prefix_cons, prefix_nil | done | done]. }
  assert (walk k t f (cur ++ [n]) (Normal <$> names) = Ok l → l = cur ++ n :: names) as Hgo.
  { intros Hw. apply IH in Hw; [by rewrite <- app_assoc in Hw |].
    intros q tg Hq Hne. rewrite <- app_assoc. apply Hn; [by apply prefix_cons | done]. }
  destruct nd; [by apply Hgo.. | by destruct (Hnl target)].
Qed.

Lemma resolve_area h t f names l :
  area_plain t → related names → resolve h t f (RootDir :: (Normal <$> names)) = Ok l → l = names.
Proof.
  intros Hp Hr Hw%resolve_walk. rewrite walk_unfold in Hw. apply walk_names in Hw; [done |].
  intros q tg Hq Hne. simpl. rewrite <- node_at_cons by done. apply Hp. by eapply related_prefix.
Qed.

Lemma parent_path_names p n :
  parent_path (RootDir :: (Normal <$> p ++ [n])) = Some (RootDir :: (Normal <$> p)).
Proof.
  unfold parent_path. rewrite fmap_app. simpl. rewrite rev_app_distr. simpl.
  destruct (rev (Normal <$> p) ++ [RootDir]) as [|c r] eqn:E; [by destruct (rev (Normal <$> p)) |].
  rewrite <- E. rewrite rev_app_distr, rev_involutive. done.
Qed.

Lemma parent_path_inv_names names q :
  parent_path (RootDir :: (Normal <$> names)) = Some q →
  ∃ p n, names = p ++ [n] ∧ q = RootDir :: (Normal <$> p).
Proof.
  induction names as [|n p _] using rev_ind; [done |]. rewrite parent_path_names. naive_solver.
Qed.

Section calm.
Context (h : Host) (Hcalm : calm h).

(** Creating a directory of the area, and all that lead to it. *)
Lemma create_dir_area names s r s' :
  area_plain (fs_tree s) → related names → create_dir (RootDir :: (Normal <$> names)) h s = (r, s') →
  area_step (fs_tree s) (fs_tree s').
Proof.
  intros Hp Hr H. destruct r as [[]|e].
  - apply create_dir_inv in H as (l & Hl & Hn & ->); [| done]. apply resolve_area in Hl as ->; [| done..].
    apply area_step_insert; auto with ferrum.
  - apply kernel_call_inv in H; [| done]. assert (fs_tree s' = fs_tree s) as ->.
    { destruct (resolve _ _ _ _); [destruct (node_at _ _) |]; congruence. }
    by apply area_step_refl.
Qed.

Lemma create_dir_all_area names s r s' :
  area_plain (fs_tree s) → related names → create_dir_all (RootDir :: (Normal <$> names)) h s = (r, s') →
  area_step (fs_tree s) (fs_tree s').
Proof.
  unfold create_dir_all. revert s r s'. induction names as [|n p IH] using rev_ind; intros s r s' Hp Hr.
  - simpl. intros (made & s1 & H1 & H)%io_bind_inv. apply (create_dir_area []) in H1; [| done..].
    assert (fs_tree s' = fs_tree s1) as ->; [| done].
    revert H. apply reading_tree. destruct made as [|[]]; solve_reading.
  - rewrite fmap_app. simpl. rewrite rev_app_distr. cbn [rev app].
    assert (rev (Normal n :: rev (Normal <$> p) ++ [RootDir]) = RootDir :: (Normal <$> p ++ [n])) as Hrev.
    { simpl. rewrite rev_app_distr, rev_involutive, fmap_app. done. }
    assert (related p) as Hrp by (eapply related_prefix; [apply prefix_app_r; done | done]).
    cbn [create_dir_all_rev]. rewrite Hrev, parent_path_names.
    intros (made & s1 & H1 & H)%io_bind_inv. apply create_dir_area in H1; [| done..].
    assert (∀ (m : io (result unit IoError)) s0, Reading m → area_step (fs_tree s) (fs_tree s0) →
              m h s0 = (r, s') → area_step (fs_tree s) (fs_tree s')) as Hlast.
    { intros m s0 Hm H0 ->%(reading_tree _ Hm). done. }
    destruct made as [|e]; [eapply Hlast; [| done..]; solve_reading |].
    destruct e; try (eapply Hlast; [| done..]; solve_reading).
    apply io_bind_inv in H as (rr & s2 & H2 & H).
    apply IH in H2; [| apply H1 | done]. pose proof (area_step_trans _ _ _ H1 H2) as H12.
    destruct rr; [| eapply Hlast; [| done..]; solve_reading]. apply io_bind_inv in H as (again & s3 & H3 & H).
    apply create_dir_area in H3; [| apply H2 | done]. pose proof (area_step_trans _ _ _ H12 H3) as H123.
    destruct again; (eapply Hlast; [| done..]); solve_reading.
Qed.

(** A snapshot holds the content and mode of the file. *)
Lemma capture_snapshot_inv path snapshot names s u s' l n :
  snapshot = RootDir :: (Normal <$> names) → related names → area_plain (fs_tree s) →
  ¬ related l → lookup_path h (fs_tree s) true (kernel_path path) = Ok (l, n) → (∀ tg, n ≠ Link tg) →
  capture_snapshot path snapshot h s = (Ok u, s') →
  ∃ c m, n = File c m ∧ area_step (fs_tree s) (fs_tree s') ∧
  lookup_path h (fs_tree s') true snapshot = Ok (names, File c (Z.land m 4095)).
Proof.
  intros -> Hr Hp Hl Hlk Hnl H. apply io_try_inv in H as ([] & s1 & H1%io_map_err_inv & H2%io_map_err_inv).
  assert (area_step (fs_tree s) (fs_tree s1)) as Hs1.
  { destruct (parent_path _) as [q|] eqn:E; [| injection H1 as <-; by apply area_step_refl].
    apply parent_path_inv_names in E as (p & n' & -> & ->).
    eapply create_dir_all_area; [done | | done]. eapply related_prefix; [by apply prefix_app_r | done]. }
  assert (l ≠ []) as Hl0 by (intros ->; apply Hl; left; apply prefix_nil).
  assert (lookup_path h (fs_tree s1) true (kernel_path path) = Ok (l, n)) as Hlk1.
  { eapply lookup_agree; [apply Hs1 | apply kernel_path_tail | done | | done].
    apply lookup_path_inv in Hlk as [_ Hn]. rewrite node_at_cons in * by done. by rewrite (as_outside _ _ Hs1). }
  apply copy_file_inv in H2 as (lf & c' & m' & lt & Hf & Ht & Hlt0 & Hlt & ->); [| done].
  rewrite Hlk1 in Hf. simplify_eq. apply resolve_area in Ht as Heq; [| apply Hs1 | done]. subst lt.
  rewrite decide_False by (by intros ->).
  assert (area_step (fs_tree s1) (<[names := File c' (Z.land m' 4095)]> (fs_tree s1))) as Hs2.
  { apply area_step_insert; [apply Hs1 | done.. |done]. }
  exists c', m'. split; [done |]. split; [by eapply area_step_trans |]. apply lookup_path_inv. rewrite node_at_insert by done. split; [| done].
  eapply resolve_agree; [apply Hs2 | by rewrite node_at_insert | | done].
  simpl. intros (? & ? & _)%list_elem_of_fmap. done.
Qed.
End calm.
End area.
