(* ===== verification/CapBackend.v ===== *)
(** * The capability service as the gateway calls it

    [state.runtime.cap] is a trait object.  Its methods are programs: the in-memory
    service answers in one step, the store-backed service of
    crates/ferrum-gateway/src/capabilities.rs (the one the daemon starts with) takes
    several statements.  The handlers are written against the record below. *)

From S2P Require Import Prelude Json Proto Transitions CapService Store Adapter Effects.

(** [dyn CapabilityService]. *)
Record CapBackend := {
  cb_is_store_backed : bool;
  cb_mint : CapabilityMintRequest → prog (result CapabilityMintResponse CapabilityError);
  cb_get : CapabilityId → prog (result CapabilityLease CapabilityError);
  cb_mark_used : CapabilityId → prog (result CapabilityLease CapabilityError);
  cb_revoke : CapabilityId → prog (result CapabilityLease CapabilityError);
}.

(** [InMemoryCapabilityService]; a mint draws the identifiers of capability and
    policy bundle. *)
Definition InMemoryCapabilityService : CapBackend :=
  {| cb_is_store_backed := false;
     cb_mint r :=
       capability_id <- call op_uuid ;;
       policy_bundle_id <- call op_uuid ;;
       call (op_cap_mint capability_id policy_bundle_id r);
     cb_get id := call (op_cap_get id);
     cb_mark_used id := call (op_cap_mark_used id);
     cb_revoke id := call (op_cap_revoke id) |}.

(** ** StoreCapabilityService *)

Definition map_store_error (e : StoreError) : CapabilityError :=
  match e with SE_NotFound _ _ => CE_NotFound | _ => CE_Internal end.

(** [self.store.capabilities().get(id).map_err(map_store_error)?.ok_or(NotFound)?]. *)
Definition store_lease (id : CapabilityId) : prog (result CapabilityLease CapabilityError) :=
  r <- call (op_get_capability id) ;;
  Ret (match r with
       | Ok (Some lease) => Ok lease
       | Ok None => Err CE_NotFound
       | Err e => Err (map_store_error e)
       end).

(** The lease of a mint, with the given owner. *)
Definition cl_set_owner (owner : option string) (l : CapabilityLease) : CapabilityLease :=
  {| cl_capability_id := cl_capability_id l; cl_intent_id := cl_intent_id l;
     cl_proposal_id := cl_proposal_id l; cl_tool_binding := cl_tool_binding l;
     cl_resource_bindings := cl_resource_bindings l;
     cl_argument_constraints := cl_argument_constraints l; cl_taint_budget := cl_taint_budget l;
     cl_approval_binding := cl_approval_binding l; cl_issued_by := cl_issued_by l;
     cl_policy_bundle_id := cl_policy_bundle_id l; cl_tool_manifest_id := cl_tool_manifest_id l;
     cl_manifest_hash := cl_manifest_hash l; cl_status := cl_status l; cl_issued_at := cl_issued_at l;
     cl_expires_at := cl_expires_at l; cl_revoked_at := cl_revoked_at l; cl_metadata := cl_metadata l;
     cl_owner_actor_id := owner |}.

(** Build an active lease and insert it: [StoreCapabilityService::mint] without
    owner, [mint_capability_with_owner] of the mint handler with one. *)
Definition mint_capability_with_owner (request : CapabilityMintRequest) (owner : option string)
  : prog (result CapabilityMintResponse CapabilityError) :=
  if (300 <? mr_requested_ttl_secs request)%Z then Ret (Err CE_TtlTooLong)
  else
    now <- call op_now ;;
    capability_id <- call op_uuid ;;
    policy_bundle_id <- call op_uuid ;;
    let lease := cl_set_owner owner (mint_lease capability_id policy_bundle_id now request) in
    r <- call (op_insert_capability lease) ;;
    Ret (match r with
         | Ok _ => Ok {| mresp_lease := lease; mresp_warnings := [] |}
         | Err e => Err (map_store_error e)
         end).

Definition store_get (id : CapabilityId) : prog (result CapabilityLease CapabilityError) :=
  lease <-? store_lease id ;;
  match cl_status lease with
  | CS_Revoked => Ret (Err CE_Revoked)
  | _ =>
      now <- call op_now ;;
      Ret (if (cl_expires_at lease <? now)%Z then Err CE_Expired else Ok lease)
  end.

(** The reload that classifies a lost conditional update. *)
Definition store_lost (id : CapabilityId) : prog (result CapabilityLease CapabilityError) :=
  lease <-? store_lease id ;;
  match cl_status lease with
  | CS_Used => Ret (Err CE_AlreadyUsed)
  | CS_Revoked => Ret (Err CE_Revoked)
  | _ =>
      now <- call op_now ;;
      Ret (Err (if (cl_expires_at lease <? now)%Z then CE_Expired else CE_NotFound))
  end.

(** The end of a conditional update: reload the lease, or classify the loss. *)
Definition store_conclude (id : CapabilityId) (r : result bool StoreError)
  : prog (result CapabilityLease CapabilityError) :=
  match r with
  | Err e => Ret (Err (map_store_error e))
  | Ok true => store_lease id
  | Ok false => store_lost id
  end.

Definition store_mark_used (id : CapabilityId) : prog (result CapabilityLease CapabilityError) :=
  lease <-? store_lease id ;;
  match cl_status lease with
  | CS_Used => Ret (Err CE_AlreadyUsed)
  | CS_Revoked => Ret (Err CE_Revoked)
  | _ =>
      now <- call op_now ;;
      if (cl_expires_at lease <? now)%Z then Ret (Err CE_Expired)
      else r <- call (op_set_status_if_active id CS_Used) ;; store_conclude id r
  end.

Definition store_revoke (id : CapabilityId) : prog (result CapabilityLease CapabilityError) :=
  lease <-? store_lease id ;;
  match cl_status lease with
  | CS_Revoked => Ret (Err CE_Revoked)
  | CS_Used => Ret (Err CE_AlreadyUsed)
  | _ =>
      now <- call op_now ;;
      if (cl_expires_at lease <? now)%Z then Ret (Err CE_Expired)
      else
        revoked_at <- call op_now ;;
        r <- call (op_revoke_if_active id revoked_at) ;; store_conclude id r
  end.

Definition StoreCapabilityService : CapBackend :=
  {| cb_is_store_backed := true;
     cb_mint r := mint_capability_with_owner r None;
     cb_get := store_get; cb_mark_used := store_mark_used; cb_revoke := store_revoke |}.
