(* ===== verification/Validation.v ===== *)
(** * Request validation of the gateway

    problem.rs (error envelopes), auth_actor.rs (owner guard), and from
    execution/: validation.rs (capability binding and argument constraints),
    resource_scope.rs (bindings within the intent's scope).  Functions of other
    libraries (JSON pointers, regular expressions, URL and UUID parsing, SHA-256,
    the JSON printer, derived [Debug] texts of nested values) are the fields of
    [Ext], an argument of the definitions that use them. *)

From Stdlib Require Import Ascii.
From stdpp Require Import pretty.
From S2P Require Import Prelude Json Proto CapService Store Effects.

Record Url := {
  url_scheme : string;
  url_host_str : option string;
  url_port_or_known_default : option Z;
  url_username : string;
  url_password : option string;
  url_path : string;
}.

Record Ext := {
  ext_pointer : json → string → option json;
  ext_regex : string → result (string → bool) string;
  ext_parse_uuid : string → option string;
  ext_parse_url : string → option Url;
  ext_json_to_string : json → string;
  ext_sha256_hex : string → string;
  ext_debug_binding : ResourceBinding → string;
  ext_serde_error : json → string;
  ext_rfc3339 : Timestamp → string;
  ext_replace_all : string → string → string → string;
  ext_parse_rfc3339 : string → option Timestamp;
  ext_base64_encode : string → string;
  ext_base64_decode : string → option string;
  ext_is_utf8 : string → bool;
  ext_hmac_sha1 : string → string → string;
  ext_aes_gcm_decrypt : string → string → string → option string;
  ext_hex_decode : string → result string string;
  ext_parse_yaml : string → result YamlPolicyBundle string;
  ext_bundle_to_string : PolicyBundle → string;
  ext_bundle_to_value : PolicyBundle → json;
}.

(** ** problem.rs *)

(** [ApiProblem]: the status and the code, message and details of the error envelope.
    The correlation id (a random text) and the constant field are left out. *)
Record ApiProblem := mkProblem {
  prob_status : Z;
  prob_code : ApiErrorCode;
  prob_message : string;
  prob_details : json;
}.

(** [ApiProblem::new]. *)
Definition Problem (status : Z) (code : ApiErrorCode) (message : string) : ApiProblem :=
  mkProblem status code message (JObj []).

Definition OK := 200%Z.
Definition ACCEPTED := 202%Z.
Definition BAD_REQUEST := 400%Z.
Definition FORBIDDEN := 403%Z.
Definition NOT_FOUND := 404%Z.
Definition CONFLICT := 409%Z.
Definition INTERNAL_SERVER_ERROR := 500%Z.
Definition SERVICE_UNAVAILABLE := 503%Z.

(** [ApiProblem::object_not_found]. *)
Definition object_not_found : ApiProblem := Problem NOT_FOUND EC_NotFound "object not found".

(** The [Display] text of a store error. *)
Definition store_error_text (e : StoreError) : string :=
  match e with
  | SE_Database m => "database error: " +:+ m
  | SE_Serialization m => "serialization error: " +:+ m
  | SE_NotFound entity id => entity +:+ " '" +:+ id +:+ "' was not found"
  | SE_InvalidState m => "invalid state transition: " +:+ m
  | SE_SchemaDrift v e => "database schema version " +:+ pretty v
      +:+ " is newer than the supported version " +:+ pretty e
      +:+ "; upgrade the binary before starting"
  | SE_Other m => m
  end.

(** [ApiProblem::internal]. *)
Definition internal_text (m : string) : ApiProblem := Problem INTERNAL_SERVER_ERROR EC_Internal m.
Definition internal (e : StoreError) : ApiProblem := internal_text (store_error_text e).

(** [ApiProblem::from_capability]. *)
Definition from_capability (err : CapabilityError) : ApiProblem :=
  let '(status, code) :=
    match err with
    | CE_NotFound => (NOT_FOUND, EC_NotFound)
    | CE_AlreadyUsed => (CONFLICT, EC_Conflict)
    | CE_Revoked => (BAD_REQUEST, EC_CapabilityRevoked)
    | CE_Expired => (BAD_REQUEST, EC_CapabilityExpired)
    | CE_TtlTooLong => (BAD_REQUEST, EC_ValidationError)
    | CE_Internal => (INTERNAL_SERVER_ERROR, EC_Internal)
    end in
  Problem status code (capability_error_text err).

(** ** auth_actor.rs *)

Inductive AuthMode := Auth_Disabled | Auth_Bearer | Auth_Scoped | Auth_Oidc | Auth_Agent.

Record AuthActor := {
  aa_actor_id : string;
  aa_source : string;
  aa_scopes : list string;
  aa_role : option TokenRole;
}.

(** [audit_actor]. *)
Definition audit_actor (auth_actor : option AuthActor) : string :=
  match auth_actor with Some a => aa_actor_id a | None => "unknown" end.

(** [AuthActor::has_scope]. *)
Definition has_scope (a : AuthActor) (scope : string) : bool :=
  existsb (λ s, String.eqb s "*" || String.eqb s scope) (aa_scopes a).

(** [enforce_object_owner_guard]; the object kind and the operation are only
    logged. *)
Definition enforce_object_owner_guard (auth_actor : option AuthActor)
    (owner_actor_id : option string) (auth_mode : AuthMode)
    (legacy_object_compat_allow_until : option Timestamp) (now : Timestamp)
  : result unit ApiProblem :=
  match auth_mode with
  | Auth_Bearer | Auth_Disabled => Ok tt
  | _ =>
      match auth_actor with
      | None => Err object_not_found
      | Some actor =>
          match owner_actor_id with
          | Some owner => if String.eqb (aa_actor_id actor) owner then Ok tt else Err object_not_found
          | None =>
              match legacy_object_compat_allow_until with
              | Some allow_until =>
                  if (now <? allow_until)%Z then Ok tt else Err object_not_found
              | None => Err object_not_found
              end
          end
      end
  end.

(** ** validation.rs *)

Definition validate_capability_proposal_binding (lease : CapabilityLease) (proposal : ActionProposal)
  : result unit string :=
  if negb (String.eqb (cl_proposal_id lease) (pr_proposal_id proposal)) then
    Err "capability proposal_id does not match proposal"
  else if negb (String.eqb (cl_intent_id lease) (pr_intent_id proposal)) then
    Err "capability intent_id does not match proposal intent_id"
  else if negb (String.eqb (tb_server_name (cl_tool_binding lease)) (pr_server_name proposal))
          || negb (String.eqb (tb_tool_name (cl_tool_binding lease)) (pr_tool_name proposal)) then
    Err "capability tool_binding does not match proposal tool"
  else Ok tt.

Section constraints.
Context (ext : Ext).

Definition argument_value (payload : json) (key : string) : option json :=
  if str_starts_with "/" key then ext_pointer ext payload key
  else as_object payload ≫= smap_get key.

(** The body of the loop of [validate_argument_constraints]. *)
Definition check_constraint (payload : json) (constraint : ArgumentConstraint)
  : result unit string :=
  match constraint with
  | AC_ExactString key value =>
      let? actual := ok_or (argument_value payload key ≫= as_str)
                       ("argument constraint requires string at '" +:+ key +:+ "'") in
      if negb (String.eqb actual value) then
        Err ("argument constraint ExactString failed at '" +:+ key +:+ "'")
      else Ok tt
  | AC_StringOneOf key values =>
      let? actual := ok_or (argument_value payload key ≫= as_str)
                       ("argument constraint requires string at '" +:+ key +:+ "'") in
      if negb (existsb (String.eqb actual) values) then
        Err ("argument constraint StringOneOf failed at '" +:+ key +:+ "'")
      else Ok tt
  | AC_StringRegex key pattern =>
      let? actual := ok_or (argument_value payload key ≫= as_str)
                       ("argument constraint requires string at '" +:+ key +:+ "'") in
      match ext_regex ext pattern with
      | Err e => Err ("invalid StringRegex constraint at '" +:+ key +:+ "': " +:+ e)
      | Ok is_match =>
          if negb (is_match actual) then
            Err ("argument constraint StringRegex failed at '" +:+ key +:+ "'")
          else Ok tt
      end
  | AC_IntRange key min max =>
      if (max <? min)%Z then
        Err ("invalid IntRange constraint at '" +:+ key +:+ "': min > max")
      else
        let? actual := ok_or (argument_value payload key ≫= as_i64)
                         ("argument constraint requires integer at '" +:+ key +:+ "'") in
        if (actual <? min)%Z || (max <? actual)%Z then
          Err ("argument constraint IntRange failed at '" +:+ key +:+ "'")
        else Ok tt
  | AC_BoolExact key value =>
      let? actual := ok_or (argument_value payload key ≫= as_bool)
                       ("argument constraint requires boolean at '" +:+ key +:+ "'") in
      if negb (Bool.eqb actual value) then
        Err ("argument constraint BoolExact failed at '" +:+ key +:+ "'")
      else Ok tt
  | AC_JsonPointerMustExist pointer =>
      if negb (str_is_empty pointer) && negb (str_starts_with "/" pointer) then
        Err ("invalid JSON pointer constraint '" +:+ pointer +:+ "'")
      else match ext_pointer ext payload pointer with
      | None => Err ("argument constraint JsonPointerMustExist failed at '" +:+ pointer +:+ "'")
      | Some _ => Ok tt
      end
  | AC_JsonPointerMustNotExist pointer =>
      if negb (str_is_empty pointer) && negb (str_starts_with "/" pointer) then
        Err ("invalid JSON pointer constraint '" +:+ pointer +:+ "'")
      else match ext_pointer ext payload pointer with
      | Some _ => Err ("argument constraint JsonPointerMustNotExist failed at '" +:+ pointer +:+ "'")
      | None => Ok tt
      end
  end.

Fixpoint validate_argument_constraints (payload : json) (constraints : list ArgumentConstraint)
  : result unit string :=
  match constraints with
  | [] => Ok tt
  | c :: rest =>
      let? _ := check_constraint payload c in validate_argument_constraints payload rest
  end.
End constraints.

(** ** resource_scope.rs *)

Definition mode_allows (scope binding : ResourceMode) : bool :=
  bool_decide (scope = binding)
  || match scope with RM_Admin => true | _ => false end
  || match scope, binding with
     | RM_ReadWrite, (RM_Read | RM_Write | RM_ReadWrite) => true
     | _, _ => false
     end.

Definition list_is_subset (binding scope : list string) : bool :=
  match scope with
  | [] => true
  | _ => forallb (λ item, bool_decide (item ∈ scope)) binding
  end.

(** The components of a path, split at slashes. *)
Fixpoint split_slash_aux (s acc : string) : list string :=
  match s with
  | EmptyString => [acc]
  | String c s' =>
      if Ascii.eqb c "/" then acc :: split_slash_aux s' EmptyString
      else split_slash_aux s' (acc +:+ String c EmptyString)
  end.
Definition split_slash (s : string) : list string := split_slash_aux s EmptyString.

(** [lexical_normalize]: a [PathBuf] is its list of components, the root
    directory being the component of a single slash; [Path::components] drops empty
    and current-directory components. *)
Definition lexical_normalize (path : string) : option (list string) :=
  let parts := split_slash path in
  if existsb (String.eqb "..") parts then None
  else Some ((if str_starts_with "/" path then ["/"] else [])
             ++ filter (λ p, p ≠ "" ∧ p ≠ ".") parts).

(** [Path::starts_with]. *)
Fixpoint path_starts_with (path prefix : list string) {struct prefix} : bool :=
  match prefix, path with
  | [], _ => true
  | b :: prefix', a :: path' => String.eqb a b && path_starts_with path' prefix'
  | _ :: _, [] => false
  end.

(** [canonicalize_with_missing_tail] on the reversed path: the nearest existing
    ancestor is resolved and the missing tail is put back. *)
Fixpoint canonicalize_rev (fs : FsView) (rev_path tail : list string) : option (list string) :=
  if fs_exists fs (rev rev_path) then
    match fs_canonicalize fs (rev rev_path) with
    | Some resolved => Some (resolved ++ tail)
    | None => None
    end
  else match rev_path with
  | [] | ["/"] => None
  | name :: parent => canonicalize_rev fs parent (name :: tail)
  end.
Definition canonicalize_with_missing_tail (fs : FsView) (path : list string) : option (list string) :=
  canonicalize_rev fs (rev path) [].

Definition path_within_scope (fs : FsView) (candidate scope : string) : bool :=
  match lexical_normalize candidate, lexical_normalize scope with
  | Some candidate, Some scope =>
      if negb (path_starts_with candidate scope) then false
      else match canonicalize_with_missing_tail fs candidate,
                 canonicalize_with_missing_tail fs scope with
      | Some candidate, Some scope => path_starts_with candidate scope
      | _, _ => true
      end
  | _, _ => false
  end.

Definition url_path_within_scope (fs : FsView) (candidate scope : string) : bool :=
  path_within_scope fs ("/" +:+ str_trim_start_char "/" candidate)
    ("/" +:+ str_trim_start_char "/" scope).

Definition http_base_within_scope (ext : Ext) (fs : FsView) (candidate scope : string) : bool :=
  match ext_parse_url ext candidate, ext_parse_url ext scope with
  | Some candidate, Some scope =>
      String.eqb (url_scheme candidate) (url_scheme scope)
      && bool_decide (url_host_str candidate = url_host_str scope)
      && bool_decide (url_port_or_known_default candidate = url_port_or_known_default scope)
      && String.eqb (url_username candidate) (url_username scope)
      && bool_decide (url_password candidate = url_password scope)
      && url_path_within_scope fs (url_path candidate) (url_path scope)
  | _, _ => false
  end.

(** The coverage test of one binding by one selector. *)
Definition binding_covered_by (ext : Ext) (fs : FsView) (binding : ResourceBinding)
    (scope : ResourceSelector) : bool :=
  match binding, scope with
  | RB_File path mode required_hash, RS_FilesystemPath scope_path scope_mode content_hash =>
      path_within_scope fs path scope_path && mode_allows scope_mode mode
      && match content_hash with
         | None => true
         | Some hash => bool_decide (required_hash = Some hash)
         end
  | RB_Git repo_path allowed_refs mode, RS_GitRepository scope_repo_path scope_refs scope_mode =>
      path_within_scope fs repo_path scope_repo_path && list_is_subset allowed_refs scope_refs
      && mode_allows scope_mode mode
  | RB_Sqlite db_path tables mode, RS_SqliteDatabase scope_db_path scope_tables scope_mode =>
      path_within_scope fs db_path scope_db_path && list_is_subset tables scope_tables
      && mode_allows scope_mode mode
  | RB_Http method base_url path_prefix _ mode,
    RS_HttpEndpoint scope_method scope_base_url scope_path_prefix scope_mode =>
      bool_decide (method = scope_method) && http_base_within_scope ext fs base_url scope_base_url
      && url_path_within_scope fs path_prefix scope_path_prefix && mode_allows scope_mode mode
  | RB_EmailDraft recipients _ mode, RS_EmailDraft recipient_allowlist _ scope_mode =>
      forallb (λ r, existsb (λ a, str_ends_with a r) recipient_allowlist) recipients
      && mode_allows scope_mode mode
  | _, _ => false
  end.

Fixpoint check_bindings (ext : Ext) (fs : FsView) (bindings : list ResourceBinding)
    (resource_scope : list ResourceSelector) : result unit string :=
  match bindings with
  | [] => Ok tt
  | binding :: rest =>
      if existsb (binding_covered_by ext fs binding) resource_scope then
        check_bindings ext fs rest resource_scope
      else Err ("capability resource binding " +:+ ext_debug_binding ext binding
                +:+ " is not within intent resource scope")
  end.

Definition validate_resource_bindings_subset_of_scope (ext : Ext) (fs : FsView)
    (resource_bindings : list ResourceBinding) (resource_scope : list ResourceSelector)
  : result unit string :=
  match resource_bindings, resource_scope with
  | [], _ => Ok tt
  | _, [] => Err "resource scope is empty but capability has resource bindings"
  | _, _ => check_bindings ext fs resource_bindings resource_scope
  end.

(** ** What the checks guarantee *)

Lemma path_starts_with_spec path prefix :
  path_starts_with path prefix = true ↔ ∃ rest, path = prefix ++ rest.
Proof.
  revert path. induction prefix as [|b prefix IH]; intros path; simpl.
  - split; [intros _; by exists path | done].
  - destruct path as [|a path]; simpl; [split; [done | by intros [? ?]]|].
    rewrite andb_true_iff, String.eqb_eq, IH. split.
    + intros [-> [rest ->]]. by exists rest.
    + intros [rest [= -> ->]]. eauto.
Qed.

Lemma check_bindings_ok ext fs bs scope :
  check_bindings ext fs bs scope = Ok tt ↔
  ∀ b, b ∈ bs → ∃ s, s ∈ scope ∧ binding_covered_by ext fs b s = true.
Proof.
  induction bs as [|b bs IH]; simpl; [split; [set_solver | done]|].
  destruct (existsb (binding_covered_by ext fs b) scope) eqn:Hb.
  - rewrite IH. apply existsb_exists in Hb as (s & Hs & Hc). apply list_elem_of_In in Hs.
    split; [|set_solver]. intros H b' [-> | Hin]%elem_of_cons; eauto.
  - split; [done|]. intros H. destruct (H b ltac:(set_solver)) as (s & Hs & Hc).
    assert (existsb (binding_covered_by ext fs b) scope = true) as Hx; [|congruence].
    apply existsb_exists. exists s. split; [by apply list_elem_of_In | done].
Qed.

Lemma path_within_scope_lexical fs candidate scope :
  path_within_scope fs candidate scope = true →
  ∃ cs ss rest, lexical_normalize candidate = Some cs ∧ lexical_normalize scope = Some ss ∧
                cs = ss ++ rest.
Proof.
  unfold path_within_scope. intros H.
  destruct (lexical_normalize candidate) as [cs|]; [|done].
  destruct (lexical_normalize scope) as [ss|]; [|done].
  destruct (path_starts_with cs ss) eqn:Hp; [|done].
  apply path_starts_with_spec in Hp as [rest ->]. by exists (ss ++ rest), ss, rest.
Qed.

Lemma lexical_normalize_no_parent path cs : lexical_normalize path = Some cs → ".." ∉ cs.
Proof.
  unfold lexical_normalize. destruct (existsb _ _) eqn:Hx; [done|]. intros [= <-] Hin.
  apply elem_of_app in Hin as [Hin | Hin].
  - case_match; set_solver.
  - apply list_elem_of_filter in Hin as [_ Hin].
    assert (existsb (String.eqb "..") (split_slash path) = true) as Hy; [|congruence].
    apply existsb_exists. exists "..". split; [by apply list_elem_of_In | done].
Qed.

(** The scope check accepts exactly when every resource binding of the
    capability is covered by a selector of the intent's scope (no bindings being
    always accepted and an empty scope covering none); and whatever the file
    system answers, a covered file binding has no parent-directory component
    and lies component-wise below the selector's path, with a mode the selector
    allows. *)
Theorem resource_scope_sound ext fs bindings scope :
  (validate_resource_bindings_subset_of_scope ext fs bindings scope = Ok tt ↔
   ∀ b, b ∈ bindings → ∃ s, s ∈ scope ∧ binding_covered_by ext fs b s = true) ∧
  (∀ path mode hash spath smode shash,
     binding_covered_by ext fs (RB_File path mode hash) (RS_FilesystemPath spath smode shash) = true →
     ∃ cs ss rest, lexical_normalize path = Some cs ∧ lexical_normalize spath = Some ss ∧
       cs = ss ++ rest ∧ (".." ∉ cs) ∧ mode_allows smode mode = true).
Proof.
  split.
  - rewrite <- check_bindings_ok. unfold validate_resource_bindings_subset_of_scope.
    destruct bindings as [|b bs]; [done|]. destruct scope as [|s scope]; [|done]. simpl. done.
  - intros path mode hash spath smode shash H. simpl in H. destruct_andb.
    destruct (path_within_scope_lexical _ _ _ ltac:(eassumption)) as (cs & ss & rest & Hc & Hs & ->).
    exists (ss ++ rest), ss, rest. split_and!; [done.. | by eapply lexical_normalize_no_parent | done].
Qed.

(** Sibling directories that share a name prefix are not confused. *)
Example scope_not_string_prefix fs :
  path_within_scope fs "/tmp2/file.txt" "/tmp" = false.
Proof. reflexivity. Qed.

(** A declarative reading of one constraint. *)
Definition constraint_holds (ext : Ext) (payload : json) (c : ArgumentConstraint) : Prop :=
  match c with
  | AC_ExactString key value => argument_value ext payload key ≫= as_str = Some value
  | AC_StringOneOf key values =>
      ∃ v, argument_value ext payload key ≫= as_str = Some v ∧ v ∈ values
  | AC_StringRegex key pattern =>
      ∃ v f, argument_value ext payload key ≫= as_str = Some v ∧
             ext_regex ext pattern = Ok f ∧ f v = true
  | AC_IntRange key min max =>
      ∃ v, argument_value ext payload key ≫= as_i64 = Some v ∧ (min ≤ v ≤ max)%Z
  | AC_BoolExact key value => argument_value ext payload key ≫= as_bool = Some value
  | AC_JsonPointerMustExist pointer =>
      (pointer = "" ∨ str_starts_with "/" pointer = true) ∧ is_Some (ext_pointer ext payload pointer)
  | AC_JsonPointerMustNotExist pointer =>
      (pointer = "" ∨ str_starts_with "/" pointer = true) ∧ ext_pointer ext payload pointer = None
  end.

Lemma pointer_wellformed p :
  negb (str_is_empty p) && negb (str_starts_with "/" p) = false ↔
  p = "" ∨ str_starts_with "/" p = true.
Proof. destruct p; [simpl; naive_solver|]. destruct (str_starts_with _ _); simpl; naive_solver. Qed.

Lemma existsb_eqb_elem v l : existsb (String.eqb v) l = true ↔ v ∈ l.
Proof.
  rewrite existsb_exists. split.
  - intros (x & Hx & Heq). apply String.eqb_eq in Heq as ->. by apply list_elem_of_In.
  - intros Hv. exists v. split; [by apply list_elem_of_In | by apply String.eqb_eq].
Qed.

Lemma check_constraint_ok ext payload c :
  check_constraint ext payload c = Ok tt ↔ constraint_holds ext payload c.
Proof.
  destruct c as [key value | key values | key pattern | key min max | key value | p | p];
    cbn [check_constraint constraint_holds].
  - destruct (_ ≫= as_str) as [v|]; simpl; [|naive_solver].
    destruct (String.eqb_spec v value); naive_solver.
  - destruct (_ ≫= as_str) as [v|]; simpl; [|naive_solver].
    destruct (existsb (String.eqb v) values) eqn:Hv; simpl.
    + apply existsb_eqb_elem in Hv. naive_solver.
    + split; [done|]. intros (v' & [= <-] & Hin%existsb_eqb_elem). congruence.
  - destruct (_ ≫= as_str) as [v|]; simpl; [|naive_solver].
    destruct (ext_regex ext pattern) as [f|]; [|naive_solver].
    destruct (f v) eqn:Hf; simpl; split; try done; [by exists v, f|].
    intros (v' & f' & Hv & Hf' & Ht). simplify_eq. congruence.
  - destruct (Z.ltb_spec max min); [split; [done|]; intros (v & _ & ?); lia|].
    destruct (_ ≫= as_i64) as [v|]; simpl; [|naive_solver].
    destruct (Z.ltb_spec v min), (Z.ltb_spec max v); simpl; split; try done;
      try (intros (v' & [= <-] & ?); lia). intros _. exists v. split; [done | lia].
  - destruct (_ ≫= as_bool) as [v|]; simpl; [|naive_solver].
    destruct v, value; simpl; naive_solver.
  - rewrite <- pointer_wellformed. destruct (_ && _); simpl; [naive_solver|].
    destruct (ext_pointer _ _ _); naive_solver.
  - rewrite <- pointer_wellformed. destruct (_ && _); simpl; [naive_solver|].
    destruct (ext_pointer _ _ _); naive_solver.
Qed.

(** A payload passes the argument constraints of a capability exactly when
    it satisfies every one of them. *)
Theorem argument_constraints_iff ext payload constraints :
  validate_argument_constraints ext payload constraints = Ok tt ↔
  Forall (constraint_holds ext payload) constraints.
Proof.
  induction constraints as [|c cs IH]; cbn [validate_argument_constraints];
    [split; [constructor | done]|].
  rewrite Forall_cons, <- IH, <- check_constraint_ok.
  destruct (check_constraint ext payload c) as [[]|]; naive_solver.
Qed.

(** With an authenticated identity (Scoped, OIDC, Agent) access to an object
    is granted exactly to the authenticated actor that owns it, or, for an object
    without owner, to any authenticated actor strictly before the configured
    deadline; every refusal is the same 404 a missing object gives. Bearer and
    Disabled modes always pass. *)
Theorem owner_guard_exact actor owner mode until now :
  (enforce_object_owner_guard actor owner mode until now = Ok tt ↔
   mode = Auth_Bearer ∨ mode = Auth_Disabled ∨
   ∃ a, actor = Some a ∧
     ((∃ o, owner = Some o ∧ aa_actor_id a = o) ∨
      (owner = None ∧ ∃ t, until = Some t ∧ (now < t)%Z))) ∧
  (∀ e, enforce_object_owner_guard actor owner mode until now = Err e → e = object_not_found).
Proof.
  unfold enforce_object_owner_guard. split.
  - destruct mode; [naive_solver | naive_solver | ..];
      (destruct actor as [a|]; [|naive_solver];
       destruct owner as [o|];
       [destruct (String.eqb_spec (aa_actor_id a) o); naive_solver
       |destruct until as [t|]; [destruct (Z.ltb_spec now t); naive_solver lia | naive_solver]]).
  - intros e H. by repeat (case_match; simplify_eq/=).
Qed.
