(* ===== verification/RollbackSvc.v ===== *)
(** * The rollback service (crates/ferrum-rollback/src/service.rs)

    [RollbackService] checks a prepare request, calls the adapter, fills in a plan
    and builds the contract; its other methods look the adapter up and forward the
    call.  Errors of the service are texts ([anyhow::Error]). *)

From S2P Require Import Prelude Json Proto Store Adapter Effects Pdp.

Definition rpr_set_auto_commit (b : bool) (r : RollbackPrepareRequest) : RollbackPrepareRequest :=
  let '(mkRollbackPrepareRequest a c d e f g h i j k _ m) := r in
  mkRollbackPrepareRequest a c d e f g h i j k b m.
Definition rpr_set_metadata (md : JsonMap) (r : RollbackPrepareRequest) : RollbackPrepareRequest :=
  let '(mkRollbackPrepareRequest a c d e f g h i j k l _) := r in
  mkRollbackPrepareRequest a c d e f g h i j k l md.

(** [matches!(action_type, HttpMutation | SqlMutation)] under [R2Compensatable]. *)
Definition unsafe_compensation (class : RollbackClass) (action_type : ActionType) : bool :=
  match class, action_type with
  | R2Compensatable, (Act_HttpMutation | Act_SqlMutation) => true
  | _, _ => false
  end.

Definition is_empty {A} (l : list A) : bool := match l with [] => true | _ => false end.

(** The loop over the registered planners: the first that returns a plan. *)
Fixpoint find_plan (i n : nat) (a : ActionType) (t : RollbackTarget) : prog (option ExecutionPlan) :=
  match n with
  | O => Ret None
  | S n' =>
      r <- call (op_plan i a t) ;;
      match r with
      | Ok (Some plan) => Ret (Some plan)
      | _ => find_plan (S i) n' a t
      end
  end.

(** The checks and the plan of the contract: the request's when it has any,
    otherwise a planner's. *)
Definition choose_plan (request : RollbackPrepareRequest)
  : prog (list CheckSpec * list CheckSpec * list CompensationStep * bool) :=
  let manual := (rpr_prepare_checks request, rpr_verify_checks request,
                 rpr_compensation_plan request, rpr_auto_commit request) in
  if is_empty (rpr_prepare_checks request) && is_empty (rpr_verify_checks request)
     && is_empty (rpr_compensation_plan request)
  then
    n <- call op_planner_count ;;
    plan_found <- find_plan 0 n (rpr_action_type request) (rpr_target request) ;;
    Ret match plan_found with
        | Some plan => (pl_prepare_checks plan, pl_verify_checks plan, pl_compensation_plan plan,
                        pl_auto_commit plan)
        | None => manual
        end
  else Ret manual.

(** [for (k, v) in entries { map.insert(k, v) }]. *)
Definition merge_metadata (entries md : JsonMap) : JsonMap :=
  foldl (λ m kv, index_insert kv.1 kv.2 m) md entries.

(** [RollbackService::prepare]. *)
Definition rollback_prepare (request : RollbackPrepareRequest)
  : prog (result RollbackPrepareResponse string) :=
  let request := if is_r3 (rpr_rollback_class request) then rpr_set_auto_commit false request
                 else request in
  if unsafe_compensation (rpr_rollback_class request) (rpr_action_type request) then
    Ret (Err "R2Compensatable is not supported for HttpMutation or SqlMutation")
  else
    registered <- call (op_adapter_registered (rpr_adapter_key request)) ;;
    if negb registered then Ret (Err "adapter not registered")
    else
      r <- call (op_adapter_prepare request) ;;
      match r with
      | Err e => Ret (Err (adapter_error_text e))
      | Ok receipt =>
          plan <- choose_plan request ;;
          let '(prepare_checks, verify_checks, compensation_plan, auto_commit) := plan in
          if bool_decide (rpr_rollback_class request = R2Compensatable) && is_empty compensation_plan
          then Ret (Err "R2Compensatable requires a non-empty compensation plan but none was provided")
          else
            let merged_metadata := merge_metadata (prep_adapter_metadata receipt) (rpr_metadata request) in
            let final_auto_commit := if is_r3 (rpr_rollback_class request) then false else auto_commit in
            contract_id <- call op_uuid ;;
            now <- call op_now ;;
            Ret (Ok {| rps_contract :=
                  {| rc_contract_id := contract_id;
                     rc_intent_id := rpr_intent_id request;
                     rc_proposal_id := rpr_proposal_id request;
                     rc_execution_id := rpr_execution_id request;
                     rc_action_type := rpr_action_type request;
                     rc_rollback_class := rpr_rollback_class request;
                     rc_adapter_key := rpr_adapter_key request;
                     rc_target := rpr_target request;
                     rc_prepare_checks := prepare_checks;
                     rc_verify_checks := verify_checks;
                     rc_compensation_plan := compensation_plan;
                     rc_auto_commit := final_auto_commit;
                     rc_state := RbS_Prepared;
                     rc_created_at := now;
                     rc_expires_at := None;
                     rc_metadata := merged_metadata |};
                 rps_accepted := prep_accepted receipt;
                 rps_warnings := [] |})
      end.

(** A call forwarded to the adapter registered under the contract's key. *)
Definition forward {R} (contract : RollbackContract) (o : op (result R AdapterError))
  : prog (result R string) :=
  registered <- call (op_adapter_registered (rc_adapter_key contract)) ;;
  if negb registered then Ret (Err "adapter not registered")
  else r <- call o ;; Ret (map_err adapter_error_text r).

(** [RollbackService::verify_with_outcome], [execute], [compensate], [rollback]. *)
Definition rollback_verify_with_outcome (c : RollbackContract) := forward c (op_adapter_verify c).
Definition rollback_execute (c : RollbackContract) (payload : json) :=
  forward c (op_adapter_execute c payload).
Definition rollback_compensate (c : RollbackContract) := forward c (op_adapter_compensate c).
Definition rollback_rollback (c : RollbackContract) := forward c (op_adapter_rollback c).

(** [RollbackService::build_prepare_request_with_target]. *)
Definition build_prepare_request_with_target (intent_id : IntentId) (proposal_id : ProposalId)
    (execution_id : ExecutionId) (requested_rollback_class : RollbackClass)
    (action_type : ActionType) (adapter_key : string) (target : RollbackTarget)
  : RollbackPrepareRequest :=
  {| rpr_intent_id := intent_id; rpr_proposal_id := proposal_id; rpr_execution_id := execution_id;
     rpr_action_type := action_type; rpr_rollback_class := requested_rollback_class;
     rpr_adapter_key := adapter_key; rpr_target := target; rpr_prepare_checks := [];
     rpr_verify_checks := []; rpr_compensation_plan := [];
     rpr_auto_commit := negb (is_r3 requested_rollback_class); rpr_metadata := [] |}.

(** [RollbackService::build_prepare_request] and [default_prepare_request]. *)
Definition build_prepare_request intent_id proposal_id execution_id class action_type adapter_key :=
  build_prepare_request_with_target intent_id proposal_id execution_id class action_type adapter_key
    (RTg_Generic "mcp" "tool-call").
Definition default_prepare_request intent_id proposal_id execution_id class :=
  build_prepare_request intent_id proposal_id execution_id class Act_McpToolMutation "noop".

(** ** Properties of every contract the service issues *)

(** A predicate holds of every result a program can return, in any environment
    and under any interleaving: of every leaf of the program. *)
Fixpoint returns {A} (P : A → Prop) (p : prog A) : Prop :=
  match p with
  | Ret a => P a
  | Do o k => ∀ x, returns P (k x)
  end.

Lemma returns_bind {A B} (P : B → Prop) (p : prog A) (f : A → prog B) :
  returns (λ a, returns P (f a)) p → returns P (bind p f).
Proof. induction p as [a | X o k IH]; simpl; [done|]. intros H x. by apply IH. Qed.

Lemma returns_mono {A} (P Q : A → Prop) (p : prog A) :
  (∀ a, P a → Q a) → returns P p → returns Q p.
Proof. intros HPQ. induction p as [a | X o k IH]; simpl; [apply HPQ|]. intros H x. by apply IH. Qed.

Lemma returns_run {A} (P : A → Prop) (p : prog A) env w : returns P p → P (run env p w).1.
Proof.
  revert w. induction p as [a | X o k IH]; intros w; simpl; [done|].
  intros H. destruct (exec_op env o w) as [x w']. by apply IH.
Qed.

Lemma returns_top {A} (p : prog A) : returns (λ _, True) p.
Proof. induction p as [a | X o k IH]; simpl; [done|]. intros x. apply IH. Qed.

(** What the service promises of a contract it issues for a request. *)
Definition contract_ok (request : RollbackPrepareRequest) (c : RollbackContract) : Prop :=
  rc_state c = RbS_Prepared ∧
  rc_intent_id c = rpr_intent_id request ∧ rc_proposal_id c = rpr_proposal_id request ∧
  rc_execution_id c = rpr_execution_id request ∧
  rc_rollback_class c = rpr_rollback_class request ∧
  rc_adapter_key c = rpr_adapter_key request ∧ rc_target c = rpr_target request ∧
  (rc_rollback_class c = R3IrreversibleHighConsequence → rc_auto_commit c = false) ∧
  (rc_rollback_class c = R2Compensatable →
     rc_compensation_plan c ≠ [] ∧ rc_action_type c ≠ Act_HttpMutation ∧
     rc_action_type c ≠ Act_SqlMutation).

Lemma rpr_set_auto_commit_fields b r :
  rpr_intent_id (rpr_set_auto_commit b r) = rpr_intent_id r ∧
  rpr_proposal_id (rpr_set_auto_commit b r) = rpr_proposal_id r ∧
  rpr_execution_id (rpr_set_auto_commit b r) = rpr_execution_id r ∧
  rpr_rollback_class (rpr_set_auto_commit b r) = rpr_rollback_class r ∧
  rpr_adapter_key (rpr_set_auto_commit b r) = rpr_adapter_key r ∧
  rpr_target (rpr_set_auto_commit b r) = rpr_target r.
Proof. by destruct r. Qed.

Lemma rollback_prepare_returns request :
  returns (λ r, match r with Ok resp => contract_ok request (rps_contract resp) | Err _ => True end)
    (rollback_prepare request).
Proof.
  unfold rollback_prepare.
  destruct (rpr_set_auto_commit_fields false request) as (Hi & Hp & He & Hc & Ha & Ht).
  assert (∀ r', r' = (if is_r3 (rpr_rollback_class request)
                      then rpr_set_auto_commit false request else request) →
    rpr_intent_id r' = rpr_intent_id request ∧ rpr_proposal_id r' = rpr_proposal_id request ∧
    rpr_execution_id r' = rpr_execution_id request ∧
    rpr_rollback_class r' = rpr_rollback_class request ∧
    rpr_adapter_key r' = rpr_adapter_key request ∧ rpr_target r' = rpr_target request) as Hr.
  { intros r' ->. destruct (is_r3 _); by rewrite ?Hi, ?Hp, ?He, ?Hc, ?Ha, ?Ht. }
  set (r' := if is_r3 _ then _ else _) in *. specialize (Hr r' eq_refl).
  clearbody r'. clear Hi Hp He Hc Ha Ht. destruct Hr as (Hi & Hp & He & Hc & Ha & Ht).
  destruct (unsafe_compensation _ _) eqn:Hu; [done|].
  apply returns_bind. intros registered. destruct registered; [|done].
  intros [receipt|e]; [|done]. simpl. apply returns_bind.
  eapply returns_mono, returns_top. intros [[[pc vc] cp] ac] _.
  destruct (bool_decide _ && _) eqn:Hcp; [done|]. intros cid now. simpl.
  unfold contract_ok; simpl. rewrite Hi, Hp, He, Hc, Ha, Ht. split_and!; try done.
  - intros ->. done.
  - intros HR2. rewrite Hc, HR2 in *. rewrite bool_decide_eq_true_2 in Hcp by done.
    split_and!; [by intros -> | by intros Hx; rewrite Hx in Hu | by intros Hx; rewrite Hx in Hu].
Qed.

(** Whatever the adapter, the planners and the clock answer, a contract the
    rollback service issues is Prepared, names the request's intent, proposal,
    execution, class, adapter and target, never auto-commits when the class is R3,
    and has a compensation plan and a supported action when the class is R2. *)
Theorem rollback_prepare_contract env request w resp :
  (run env (rollback_prepare request) w).1 = Ok resp →
  contract_ok request (rps_contract resp).
Proof.
  intros H. pose proof (returns_run _ _ env w (rollback_prepare_returns request)) as Hr.
  by rewrite H in Hr.
Qed.
