(* ===== verification/Provenance.v ===== *)
(** * Governed provenance (crates/ferrum-gateway/src/provenance.rs)

    [append_governance_event] links every governance event to its causal parent,
    [validate_minimum_lineage_chain] requires the complete governed chain before an
    adapter may act. *)

From S2P Require Import Prelude Json Proto Store Effects Validation.

(** The derived [Debug] text of an event kind. *)
Definition debug_event_kind (k : ProvenanceEventKind) : string :=
  match k with
  | PK_UserGoalReceived => "UserGoalReceived" | PK_IntentCompiled => "IntentCompiled"
  | PK_IntentRevoked => "IntentRevoked" | PK_ActionProposalSubmitted => "ActionProposalSubmitted"
  | PK_PolicyEvaluated => "PolicyEvaluated" | PK_CapabilityMinted => "CapabilityMinted"
  | PK_CapabilityRevoked => "CapabilityRevoked" | PK_ApprovalRequested => "ApprovalRequested"
  | PK_ApprovalGranted => "ApprovalGranted" | PK_ApprovalDenied => "ApprovalDenied"
  | PK_ApprovalTimedOut => "ApprovalTimedOut" | PK_ToolCallPrepared => "ToolCallPrepared"
  | PK_ToolCallIntercepted => "ToolCallIntercepted" | PK_ToolCallExecuted => "ToolCallExecuted"
  | PK_ToolOutputReceived => "ToolOutputReceived" | PK_ToolOutputSanitized => "ToolOutputSanitized"
  | PK_DlpBlocked => "DlpBlocked" | PK_SideEffectPrepared => "SideEffectPrepared"
  | PK_SideEffectVerified => "SideEffectVerified" | PK_SideEffectCommitted => "SideEffectCommitted"
  | PK_SideEffectCompensated => "SideEffectCompensated"
  | PK_SideEffectRolledBack => "SideEffectRolledBack" | PK_Quarantined => "Quarantined"
  | PK_QuarantineHoldCreated => "QuarantineHoldCreated" | PK_QuarantineResolved => "QuarantineResolved"
  | PK_QuarantineTimedOut => "QuarantineTimedOut" | PK_ErrorRaised => "ErrorRaised"
  | PK_ExternalEventReceived => "ExternalEventReceived"
  | PK_PolicyBundleActivated => "PolicyBundleActivated"
  | PK_PolicyBundleDeactivated => "PolicyBundleDeactivated"
  | PK_PolicyBundleRolledBack => "PolicyBundleRolledBack"
  end.

(** One pair of [same_context]: present identifiers must agree. *)
Definition ids_agree (child parent : option string) : bool :=
  match child, parent with Some a, Some b => String.eqb a b | _, _ => true end.

Definition same_context (child parent : ProvenanceEvent) : bool :=
  ids_agree (ev_intent_id child) (ev_intent_id parent)
  && ids_agree (ev_proposal_id child) (ev_proposal_id parent)
  && ids_agree (ev_execution_id child) (ev_execution_id parent)
  && ids_agree (ev_capability_id child) (ev_capability_id parent)
  && ids_agree (ev_policy_bundle_id child) (ev_policy_bundle_id parent).

Definition decision_from_policy_event (event : ProvenanceEvent) : option Decision :=
  match smap_get "decision" (ev_metadata event) ≫= as_str with
  | Some s =>
      if String.eqb s "Allow" then Some D_Allow
      else if String.eqb s "Deny" then Some D_Deny
      else if String.eqb s "Quarantine" then Some D_Quarantine
      else if String.eqb s "RequireApproval" then Some D_RequireApproval
      else if String.eqb s "AllowDraftOnly" then Some D_AllowDraftOnly
      else None
  | None => None
  end.

Definition has_approval_granted_for_policy (events : list ProvenanceEvent)
    (execution : ExecutionRecord) (policy : ProvenanceEvent) : bool :=
  existsb (λ event,
    bool_decide (ev_kind event = PK_ApprovalGranted)
    && bool_decide (ev_intent_id event = Some (ex_intent_id execution))
    && bool_decide (ev_proposal_id event = Some (ex_proposal_id execution))
    && (ev_occurred_at policy <=? ev_occurred_at event)%Z) events.

(** A query without filters. *)
Definition query_all : ProvenanceQueryRequest :=
  {| pq_intent_id := None; pq_execution_id := None; pq_capability_id := None;
     pq_event_kind := None; pq_since := None; pq_until := None; pq_edge_types := [] |}.

(** The event with the inferred edges and the given metadata. *)
Definition ev_with (md : JsonMap) (edges : list ProvenanceEdge) (e : ProvenanceEvent)
  : ProvenanceEvent :=
  {| ev_event_id := ev_event_id e; ev_kind := ev_kind e; ev_occurred_at := ev_occurred_at e;
     ev_actor := ev_actor e; ev_object := ev_object e; ev_intent_id := ev_intent_id e;
     ev_proposal_id := ev_proposal_id e; ev_execution_id := ev_execution_id e;
     ev_capability_id := ev_capability_id e; ev_rollback_contract_id := ev_rollback_contract_id e;
     ev_policy_bundle_id := ev_policy_bundle_id e; ev_trust_labels := ev_trust_labels e;
     ev_sensitivity_labels := ev_sensitivity_labels e;
     ev_parent_edges := ev_parent_edges e ++ edges; ev_hash_chain := ev_hash_chain e;
     ev_metadata := md; ev_source_runtime_id := ev_source_runtime_id e |}.

(** The write that ends [append_governance_event]. *)
Definition append_with (event : ProvenanceEvent) : prog (result unit StoreError) :=
  call (op_append_event event (ev_parent_edges event)).

Definition append_governance_event (event : ProvenanceEvent) : prog (result unit StoreError) :=
  match lineage_parent_spec (ev_kind event) with
  | None => append_with (ev_with (ev_metadata event) [] event)
  | Some (parent_kind, edge_type) =>
      candidates <-? call (op_query
        {| pq_intent_id := ev_intent_id event; pq_execution_id := None; pq_capability_id := None;
           pq_event_kind := Some parent_kind; pq_since := None; pq_until := None;
           pq_edge_types := [] |}) ;;
      match List.find (same_context event) (rev candidates) with
      | Some parent =>
          append_with (ev_with (ev_metadata event)
            [{| ed_edge_type := edge_type; ed_from_event_id := ev_event_id parent;
                ed_to_event_id := Some (ev_event_id event);
                ed_summary := Some (debug_event_kind (ev_kind parent) +:+ " -> "
                                    +:+ debug_event_kind (ev_kind event)) |}] event)
      | None =>
          if bool_decide (smap_get "lineage_parent_optional" (ev_metadata event) ≫= as_bool = Some true)
          then append_with (ev_with (index_insert "lineage_parent_missing"
                                       (JStr (debug_event_kind parent_kind)) (ev_metadata event))
                              [] event)
          else Ret (Err (SE_Other ("lineage parent missing for " +:+ debug_event_kind (ev_kind event)
                                   +:+ ": expected " +:+ debug_event_kind parent_kind)))
      end
  end.

Definition find_event (events : list ProvenanceEvent) (predicate : ProvenanceEvent → bool)
    (label : string) : result ProvenanceEvent string :=
  ok_or (List.find predicate (rev events))
    ("minimum lineage prerequisite missing: " +:+ label).

(** The search of [require_parent_event] over the edges into the child. *)
Fixpoint parent_via_edges (child : ProvenanceEvent) (events : list ProvenanceEvent)
    (expected_parent_kind : ProvenanceEventKind) (expected_edge_type : ProvenanceEdgeType)
    (edges : list ProvenanceEdge) : option ProvenanceEvent :=
  match edges with
  | [] => None
  | edge :: rest =>
      let next := parent_via_edges child events expected_parent_kind expected_edge_type rest in
      if bool_decide (ed_edge_type edge = expected_edge_type)
         && match ed_to_event_id edge with
            | None => true
            | Some id => String.eqb id (ev_event_id child)
            end
      then match List.find (λ e, String.eqb (ev_event_id e) (ed_from_event_id edge)) events with
           | Some parent =>
               if bool_decide (ev_kind parent = expected_parent_kind) && same_context child parent
               then Some parent else next
           | None => next
           end
      else next
  end.

Definition require_parent_event (child : ProvenanceEvent) (events : list ProvenanceEvent)
    (expected_parent_kind : ProvenanceEventKind) (expected_edge_type : ProvenanceEdgeType)
    (label : string) : prog (result ProvenanceEvent string) :=
  r <- call (op_edges_to (ev_event_id child)) ;;
  Ret match r with
      | Err e => Err ("failed to load lineage edges: " +:+ store_error_text e)
      | Ok edges =>
          ok_or (parent_via_edges child events expected_parent_kind expected_edge_type edges)
            ("minimum lineage edge missing: " +:+ label +:+ " -> " +:+ debug_event_kind (ev_kind child))
      end.

(** [event.execution_id == Some(..) && event.proposal_id == Some(..)]. *)
Definition of_execution (execution : ExecutionRecord) (event : ProvenanceEvent) : bool :=
  bool_decide (ev_execution_id event = Some (ex_execution_id execution))
  && bool_decide (ev_proposal_id event = Some (ex_proposal_id execution)).

(** The policy decision at the root of the chain must allow the side effect. *)
Definition check_policy_decision (events : list ProvenanceEvent) (execution : ExecutionRecord)
    (policy : ProvenanceEvent) : result unit string :=
  match decision_from_policy_event policy with
  | Some D_Allow => Ok tt
  | Some D_RequireApproval =>
      if has_approval_granted_for_policy events execution policy then Ok tt
      else Err "minimum lineage requires ApprovalGranted for RequireApproval decision"
  | Some D_Deny => Err "minimum lineage policy decision Deny does not allow side effect"
  | Some D_Quarantine => Err "minimum lineage policy decision Quarantine does not allow side effect"
  | Some D_AllowDraftOnly =>
      Err "minimum lineage policy decision AllowDraftOnly does not allow side effect"
  | None => Err "minimum lineage PolicyEvaluated decision missing"
  end.

(** [chain.windows(2)]: each event occurs no later than the next. *)
Fixpoint check_order (chain : list ProvenanceEvent) : result unit string :=
  match chain with
  | a :: (b :: _) as rest =>
      if (ev_occurred_at b <? ev_occurred_at a)%Z then
        Err ("minimum lineage order invalid: " +:+ debug_event_kind (ev_kind a) +:+ " occurs after "
             +:+ debug_event_kind (ev_kind b))
      else check_order rest
  | _ => Ok tt
  end.

Definition validate_minimum_lineage_chain (execution : ExecutionRecord) : prog (result unit string) :=
  r <- call (op_query
    {| pq_intent_id := Some (ex_intent_id execution); pq_execution_id := None;
       pq_capability_id := None; pq_event_kind := None; pq_since := None; pq_until := None;
       pq_edge_types := [] |}) ;;
  match r with
  | Err e => Ret (Err ("failed to load minimum lineage: " +:+ store_error_text e))
  | Ok events =>
      match find_event events
              (λ e, bool_decide (ev_kind e = PK_ToolCallPrepared) && of_execution execution e)
              "ToolCallPrepared" with
      | Err e => Ret (Err e)
      | Ok tool_prepared =>
          prepared <-? require_parent_event tool_prepared events PK_SideEffectPrepared PE_Caused
                         "SideEffectPrepared" ;;
          if negb (of_execution execution prepared) then
            Ret (Err "minimum lineage SideEffectPrepared context mismatch")
          else
            submitted <-? require_parent_event prepared events PK_ActionProposalSubmitted PE_Caused
                            "ActionProposalSubmitted" ;;
            if negb (of_execution execution submitted) then
              Ret (Err "minimum lineage ActionProposalSubmitted context mismatch")
            else
              capability <-? require_parent_event submitted events PK_CapabilityMinted
                               PE_AuthorizedBy "CapabilityMinted" ;;
              if negb (bool_decide (ev_proposal_id capability = Some (ex_proposal_id execution))
                       && bool_decide (ev_capability_id capability = Some (ex_capability_id execution)))
              then Ret (Err "minimum lineage CapabilityMinted context mismatch")
              else
                policy <-? require_parent_event capability events PK_PolicyEvaluated
                             PE_EvaluatedByPolicy "PolicyEvaluated" ;;
                if negb (bool_decide (ev_proposal_id policy = Some (ex_proposal_id execution))) then
                  Ret (Err "minimum lineage PolicyEvaluated context mismatch")
                else
                  Ret (let? _ := check_policy_decision events execution policy in
                       check_order [policy; capability; submitted; prepared; tool_prepared])
      end
  end.
