(* ===== verification/Lifecycle.v ===== *)
(** * Helpers of the execution handlers

    From crates/ferrum-gateway/src/execution: lifecycle_outbox.rs (recording a
    transition with its outbox record, closing its obligations), inference.rs
    (action, adapter and target of a proposal), durable_capability.rs (loading a
    capability, classifying a lost single-use race), approval_binding.rs (the
    approval digest and role check), and audit.rs (the audit append); and the
    store's outbox and audit methods that take several statements. *)

From S2P Require Import Prelude Json Proto AuthState Transitions CapService Store Adapter Effects Pdp.
From S2P Require Import RollbackSvc Validation Provenance CapBackend.

(** ** The gateway's state as the handlers see it *)

Inductive PdpMode := PM_Static | PM_Bundles | PM_Dual.

Record ServerConfig := {
  cfg_auth_mode : AuthMode;
  cfg_legacy_object_compat_allow_until : option Timestamp;
  cfg_audit_fail_closed : bool;
  cfg_approval_timeout_seconds : Z;
  cfg_ha_reconciler_stale_threshold_secs : Z;
  cfg_ha_reconciler_batch_size : nat;
  cfg_pdp_mode : PdpMode;
  cfg_quarantine_timeout_seconds : Z;
  cfg_approval_mfa_required : bool;
  cfg_mfa_secret_key : option string;
  cfg_mfa_lockout_max_attempts : Z;
  cfg_mfa_lockout_duration_secs : Z;
  cfg_behavioral_anomaly_enabled : bool;
  cfg_behavioral_anomaly_window_secs : Z;
  cfg_behavioral_anomaly_warning_threshold : Z;
  cfg_behavioral_anomaly_critical_threshold : Z;
  cfg_behavioral_anomaly_max_actors : nat;
  cfg_bearer_token : option string;
  cfg_oidc_config : option OidcConfig;
  cfg_agent_clock_skew_secs : Z;
  cfg_nonce_cache_ttl_secs : Z;
  cfg_nonce_cache_max_entries : nat;
}.

Record App := {
  app_config : ServerConfig;
  app_ext : Ext;
  app_pdp : PdpEngine;
  app_cap : CapBackend;
}.

(** The macros [governance_err!] and [governance_ok!]. *)
Definition governance_err {R} (route : GovernanceRoute) (e : ApiProblem) : prog (result R ApiProblem) :=
  _ <- call (op_metric (Met_error route)) ;; Ret (Err e).
Definition governance_ok {R} (route : GovernanceRoute) (r : R) : prog (result R ApiProblem) :=
  _ <- call (op_metric (Met_success route)) ;; Ret (Ok r).

(** A load whose absence is [missing] and whose failure is an internal error. *)
Definition fetch {T} (route : GovernanceRoute) (o : op (result (option T) StoreError))
    (missing : ApiProblem) : prog (result T ApiProblem) :=
  r <- call o ;;
  match r with
  | Ok (Some x) => Ret (Ok x)
  | Ok None => governance_err route missing
  | Err e => governance_err route (internal e)
  end.

(** A store call whose failure is an internal error. *)
Definition checked {T} (route : GovernanceRoute) (p : prog (result T StoreError))
  : prog (result T ApiProblem) :=
  r <- p ;;
  match r with Ok x => Ret (Ok x) | Err e => governance_err route (internal e) end.

(** A validation whose failure is a problem. *)
Definition require {T} (route : GovernanceRoute) (r : result T ApiProblem) : prog (result T ApiProblem) :=
  match r with Ok x => Ret (Ok x) | Err e => governance_err route e end.

(** [parse_execution_id]. *)
Definition parse_execution_id (ext : Ext) (value : string) : result ExecutionId ApiProblem :=
  match ext_parse_uuid ext value with
  | Some id => Ok id
  | None => Err (Problem BAD_REQUEST EC_ValidationError "path id is not a valid execution uuid")
  end.

(** The opening of every handler on an execution: parse the id, load the record,
    enforce the owner guard.  A row's own id is the key it is stored under (the
    invariant [db_wf] of the store), so the handlers' [execution_id] is
    [ex_execution_id] of the record below. *)
Definition load_execution (app : App) (route : GovernanceRoute) (path : string)
    (auth_actor : option AuthActor) : prog (result ExecutionRecord ApiProblem) :=
  execution_id <-? require route (parse_execution_id (app_ext app) path) ;;
  execution <-? fetch route (op_get_execution execution_id) object_not_found ;;
  now <- call op_now ;;
  _ <-? require route (enforce_object_owner_guard auth_actor (ex_owner_actor_id execution)
          (cfg_auth_mode (app_config app))
          (cfg_legacy_object_compat_allow_until (app_config app)) now) ;;
  Ret (Ok execution).

(** The rollback contract an execution is linked to. *)
Definition load_contract (route : GovernanceRoute) (execution : ExecutionRecord)
  : prog (result RollbackContract ApiProblem) :=
  match ex_rollback_contract_id execution with
  | None => governance_err route (Problem NOT_FOUND EC_NotFound "execution has no rollback contract")
  | Some id =>
      fetch route (op_get_contract id) (Problem NOT_FOUND EC_NotFound "rollback contract not found")
  end.

(** ** Outbox methods of the store (sqlite/lifecycle_outbox.rs) *)

(** [mark_provenance_obligation_written]: read, modify, write. *)
Definition mark_provenance_obligation_written (outbox_id : LifecycleOutboxId)
    (event_kind : ProvenanceEventKind) (event_id : EventId) : prog (result bool StoreError) :=
  row <-? call (op_get_outbox outbox_id) ;;
  match row with
  | None => Ret (Err (SE_NotFound "lifecycle_outbox" outbox_id))
  | Some row =>
      now <- call op_now ;;
      call (op_update_outbox (mark_obligation_written event_kind event_id now (row_record row))
              false false)
  end.

(** [mark_reconciled]. *)
Definition mark_reconciled (outbox_id : LifecycleOutboxId) (result : JsonMap)
  : prog (Prelude.result unit StoreError) :=
  row <-? call (op_get_outbox outbox_id) ;;
  match row with
  | None => Ret (Ok tt)
  | Some row =>
      now <- call op_now ;;
      let record := row_record row in
      let record' := ob_set_status LO_Reconciled (ob_last_error record) (ob_attempt_count record) now
                       (index_insert "reconciliation_result" (JObj result) (ob_metadata record)) record in
      match require_all_obligations_satisfied record' with
      | Err e => Ret (Err e)
      | Ok _ =>
          updated <-? call (op_update_outbox record' true false) ;;
          Ret (require_updated updated)
      end
  end.

(** ** lifecycle_outbox.rs of the gateway *)

(** The record a transition is announced with. *)
Definition transition_outbox (outbox_id : LifecycleOutboxId) (now : Timestamp)
    (transition_name : string) (previous_execution updated_execution : ExecutionRecord)
    (previous_contract updated_contract : option RollbackContract)
    (intended_provenance_kinds : list ProvenanceEventKind) : LifecycleOutboxRecord :=
  let r := pending_with_obligations outbox_id now (ex_execution_id updated_execution)
    (match updated_contract with
     | Some c => Some (rc_contract_id c)
     | None => ex_rollback_contract_id updated_execution
     end)
    (Some (ex_state previous_execution)) (ex_state updated_execution)
    (rc_state <$> previous_contract) (rc_state <$> updated_contract)
    intended_provenance_kinds
    (transition_name +:+ ":" +:+ ex_execution_id updated_execution +:+ ":"
     +:+ debug_execution_state (ex_state updated_execution) +:+ ":"
     +:+ match updated_contract with
         | Some c => debug_rollback_state (rc_state c)
         | None => "none"
         end) in
  ob_set_status (ob_status r) (ob_last_error r) (ob_attempt_count r) (ob_updated_at r)
    (index_insert "transition" (JStr transition_name) (ob_metadata r)) r.

Definition record_lifecycle_transition_outbox_with_obligations (transition_name : string)
    (previous_execution updated_execution : ExecutionRecord)
    (previous_contract updated_contract : option RollbackContract)
    (intended_provenance_kinds : list ProvenanceEventKind)
  : prog (result LifecycleOutboxRecord StoreError) :=
  now <- call op_now ;;
  outbox_id <- call op_uuid ;;
  let outbox := transition_outbox outbox_id now transition_name previous_execution updated_execution
                  previous_contract updated_contract intended_provenance_kinds in
  _ <-? call (op_record_transition updated_execution updated_contract outbox) ;;
  Ret (Ok outbox).

Definition record_lifecycle_transition_outbox (transition_name : string)
    (previous_execution updated_execution : ExecutionRecord)
    (previous_contract updated_contract : option RollbackContract)
    (intended_provenance_kind : ProvenanceEventKind) :=
  record_lifecycle_transition_outbox_with_obligations transition_name previous_execution
    updated_execution previous_contract updated_contract [intended_provenance_kind].

Definition lifecycle_event_metadata (outbox : LifecycleOutboxRecord) (metadata : JsonMap) : JsonMap :=
  index_insert "idempotency_key" (JStr (ob_idempotency_key outbox))
    (index_insert "lifecycle_outbox_id" (JStr (ob_outbox_id outbox)) metadata).

Definition execution_is_cancelable_pre_side_effect (state : ExecutionState) : bool :=
  match state with
  | ES_Proposed | ES_Authorized | ES_Prepared | ES_AwaitingApproval => true
  | _ => false
  end.

Definition execution_is_terminal_for_commit (state : ExecutionState) : bool :=
  match state with
  | ES_Committed | ES_Compensated | ES_RolledBack | ES_Denied | ES_Quarantined | ES_Failed
  | ES_Canceled => true
  | _ => false
  end.

Definition mark_lifecycle_obligation_written (outbox : LifecycleOutboxRecord)
    (event_kind : ProvenanceEventKind) (event_id : EventId) : prog (result unit StoreError) :=
  updated <-? mark_provenance_obligation_written (ob_outbox_id outbox) event_kind event_id ;;
  Ret (if updated : bool then Ok tt
       else Err (SE_Other "lifecycle outbox obligation update did not affect any row")).

Definition normal_path : JsonMap := [("normal_path", JBool true)].

Definition mark_lifecycle_transition_reconciled (outbox : LifecycleOutboxRecord) (event_id : EventId)
  : prog (result unit StoreError) :=
  _ <-? mark_lifecycle_obligation_written outbox (ob_intended_provenance_kind outbox) event_id ;;
  mark_reconciled (ob_outbox_id outbox) normal_path.

(** ** Events of the gateway *)

Definition gateway_actor : ActorRef :=
  {| ar_actor_type := AT_Gateway; ar_actor_id := "ferrum-gateway";
     ar_display_name := Some "FerrumGate Gateway" |}.
Definition no_hashes : HashChainRef :=
  {| hc_content_hash := None; hc_manifest_hash := None; hc_policy_bundle_hash := None;
     hc_previous_ledger_hash := None |}.

(** A lifecycle event of an execution. *)
Definition gateway_event (event_id : EventId) (kind : ProvenanceEventKind) (now : Timestamp)
    (object : ObjectRef) (e : ExecutionRecord) (contract_id : option RollbackContractId)
    (metadata : JsonMap) : ProvenanceEvent :=
  {| ev_event_id := event_id; ev_kind := kind; ev_occurred_at := now; ev_actor := gateway_actor;
     ev_object := object; ev_intent_id := Some (ex_intent_id e);
     ev_proposal_id := Some (ex_proposal_id e); ev_execution_id := Some (ex_execution_id e);
     ev_capability_id := Some (ex_capability_id e); ev_rollback_contract_id := contract_id;
     ev_policy_bundle_id := None; ev_trust_labels := []; ev_sensitivity_labels := [];
     ev_parent_edges := []; ev_hash_chain := no_hashes; ev_metadata := metadata;
     ev_source_runtime_id := None |}.

Definition object_ref (t : ObjectType) (id summary : string) : ObjectRef :=
  {| or_object_type := t; or_object_id := id; or_summary := Some summary |}.

(** Build an event with a fresh id and the current time, and append it. *)
Definition emit (route : GovernanceRoute) (kind : ProvenanceEventKind) (object : ObjectRef)
    (e : ExecutionRecord) (contract_id : option RollbackContractId) (metadata : JsonMap)
  : prog (result EventId ApiProblem) :=
  event_id <- call op_uuid ;;
  now <- call op_now ;;
  _ <-? checked route (append_governance_event
          (gateway_event event_id kind now object e contract_id metadata)) ;;
  Ret (Ok event_id).

(** ** inference.rs *)

Definition infer_rollback_class (scope : list ResourceSelector) : RollbackClass :=
  if existsb (λ s, match s with RS_EmailDraft _ _ _ => true | _ => false end) scope
  then R2Compensatable else R0NativeReversible.

(** The text of an explicit-binding error. *)
Definition action_binding_error_text (ext : Ext) (e : ActionBindingError) : string :=
  match e with
  | ABE_MissingAdapterKey => "explicit action binding requires metadata.adapter_key"
  | ABE_EmptyAdapterKey => "explicit action binding adapter_key must not be empty"
  | ABE_InvalidActionType v =>
      "metadata.action_type is not a valid ferrum_proto::ActionType: " +:+ ext_serde_error ext v
  | ABE_UnknownActionType => "explicit action binding must not use ActionType::Unknown"
  end.

Definition email_send_reserved : string :=
  "EmailSend is reserved/R3 but not implemented in v1. Use MailDraft for draft operations.".

(** The inference from the tool name, first match wins. *)
Definition infer_from_tool_name (tool_name : string) : result (ActionType * string) string :=
  let tool_lower := str_to_lowercase tool_name in
  let has w := str_contains w tool_lower in
  if has "email_send" then Err email_send_reserved
  else if has "file_write" || has "write_file" || has "fs_" || has "filesystem.write"
          || has "filesystem_write" || has "file-mutation" then Ok (Act_FileWrite, "fs")
  else if has "fs.read" || has "filesystem.read" || has "file_read" || has "read_file" then
    Ok (Act_McpToolMutation, "noop")
  else if has "sql_mutate" then Ok (Act_SqlMutation, "sqlite")
  else if has "maildraft" || has "draft_create" || has "email_draft" then Ok (Act_MailDraft, "maildraft")
  else if has "git_branch_create" then Ok (Act_GitBranchCreate, "git")
  else if has "git_tag_create" then Ok (Act_GitTagCreate, "git")
  else if has "git_branch_delete" then Ok (Act_GitBranchDelete, "git")
  else if has "git_tag_delete" then Ok (Act_GitTagDelete, "git")
  else if has "git_push" then Ok (Act_GitPush, "git")
  else if has "git_pull" then Ok (Act_GitPull, "git")
  else if has "git_fetch" then Ok (Act_GitFetch, "git")
  else if has "http_post" || has "http_put" || has "http_patch" || has "http_delete" then
    Ok (Act_HttpMutation, "http")
  else if has "s3_put" || has "s3putobject" || has "s3.write" then Ok (Act_S3PutObject, "s3")
  else if has "s3_delete" || has "s3deleteobject" || has "s3.remove" then Ok (Act_S3DeleteObject, "s3")
  else if has "s3_get" || has "s3getobject" || has "s3.read" then Ok (Act_S3GetObject, "s3")
  else if has "s3_copy" || has "s3copyobject" then Ok (Act_S3CopyObject, "s3")
  else Err ("unknown mutating tool '" +:+ tool_name +:+ "' has no explicit action binding").

Definition infer_action_type_and_adapter (ext : Ext) (tool_name : string) (metadata : JsonMap)
  : result (ActionType * string) string :=
  match ActionBinding_from_metadata metadata with
  | Err e => Err (action_binding_error_text ext e)
  | Ok (Some b) =>
      match abn_action_type b with
      | Act_EmailSend => Err email_send_reserved
      | a => Ok (a, abn_adapter_key b)
      end
  | Ok None => infer_from_tool_name tool_name
  end.

(** The first selector of a kind. *)
Definition first_selector {T} (f : ResourceSelector → option T) (scope : list ResourceSelector) : option T :=
  head (omap f scope).

Definition is_file_action (a : ActionType) : bool :=
  match a with
  | Act_FileWrite | Act_FileDelete | Act_FileMove | Act_FileCopy | Act_FileAppend | Act_FileChmod => true
  | _ => false
  end.
Definition is_git_action (a : ActionType) : bool :=
  match a with
  | Act_GitBranchCreate | Act_GitTagCreate | Act_GitBranchDelete | Act_GitTagDelete | Act_GitPush
  | Act_GitPull | Act_GitFetch | Act_GitCommit => true
  | _ => false
  end.
Definition is_s3_action (a : ActionType) : bool :=
  match a with
  | Act_S3PutObject | Act_S3DeleteObject | Act_S3GetObject | Act_S3CopyObject => true
  | _ => false
  end.

(** The target an action type looks for in the scope; [tx_id] is the fresh
    transaction id of a SQLite target. *)
Definition selector_target (tx_id : string) (a : ActionType) (s : ResourceSelector)
  : option RollbackTarget :=
  match s with
  | RS_FilesystemPath path _ _ => if is_file_action a then Some (RTg_FilePath path None None) else None
  | RS_SqliteDatabase db_path _ _ =>
      match a with Act_SqlMutation => Some (RTg_SqliteTxn db_path tx_id) | _ => None end
  | RS_EmailDraft recipient_allowlist _ _ =>
      match a with Act_MailDraft => Some (RTg_EmailDraft None recipient_allowlist) | _ => None end
  | RS_GitRepository repo_path _ _ => if is_git_action a then Some (RTg_GitRef repo_path None None) else None
  | RS_HttpEndpoint method base_url path_prefix _ =>
      match a with
      | Act_HttpMutation =>
          Some (RTg_HttpRequest method
                  (if str_starts_with "/" path_prefix then base_url +:+ path_prefix
                   else base_url +:+ "/" +:+ path_prefix) "")
      | _ => None
      end
  | RS_S3Bucket bucket _ _ => if is_s3_action a then Some (RTg_S3Object bucket "" None) else None
  | RS_McpTool _ _ _ => None
  end.

(** [infer_target_from_scope]: the kinds of action are disjoint, so its five
    searches are one. *)
Definition infer_target_from_scope (tx_id : string) (scope : list ResourceSelector) (a : ActionType)
  : RollbackTarget :=
  default (RTg_Generic "mcp" "tool-call") (first_selector (selector_target tx_id a) scope).

(** A fresh transaction id is drawn for a SQLite target only. *)
Definition needs_transaction_id (a : ActionType) (scope : list ResourceSelector) : bool :=
  match a with
  | Act_SqlMutation => existsb (λ s, match s with RS_SqliteDatabase _ _ _ => true | _ => false end) scope
  | _ => false
  end.

(** The arguments copied into the request's metadata for git tools. *)
Definition git_argument_metadata (a : ActionType) (args md : JsonMap) : JsonMap :=
  let get k := smap_get k args ≫= as_str in
  match a with
  | Act_GitBranchCreate =>
      match (match smap_get "branch_name" args with
             | Some v => Some v
             | None => smap_get "branch" args
             end) ≫= as_str with
      | Some branch => index_insert "branch_name" (JStr branch) md
      | None => md
      end
  | Act_GitPush | Act_GitPull | Act_GitFetch =>
      let md := match get "refspec" with
                | Some refspec => index_insert "branch_name" (JStr refspec) md
                | None => md
                end in
      match get "remote" with
      | Some remote => index_insert "remote_name" (JStr remote) md
      | None => md
      end
  | _ => md
  end.

Definition build_prepare_request_for_proposal (ext : Ext) (intent_id : IntentId)
    (execution_id : ExecutionId) (rollback_class : RollbackClass) (proposal : ActionProposal)
    (resource_scope : list ResourceSelector) : prog (result RollbackPrepareRequest string) :=
  match infer_action_type_and_adapter ext (pr_tool_name proposal) (pr_metadata proposal) with
  | Err e => Ret (Err e)
  | Ok (action_type, adapter_key) =>
      tx <- (if needs_transaction_id action_type resource_scope then call op_uuid else Ret "") ;;
      let target := infer_target_from_scope ("tx-" +:+ tx) resource_scope action_type in
      let request := build_prepare_request_with_target intent_id (pr_proposal_id proposal)
                       execution_id rollback_class action_type adapter_key target in
      let md := match as_object (pr_raw_arguments proposal) with
                | Some args => git_argument_metadata action_type args (rpr_metadata request)
                | None => rpr_metadata request
                end in
      let md := match action_type with
                | Act_SqlMutation =>
                    match first_selector (λ s, match s with
                                               | RS_SqliteDatabase _ tables _ => Some tables
                                               | _ => None
                                               end) resource_scope with
                    | Some tables => index_insert "allowed_tables" (JArr (JStr <$> tables)) md
                    | None => md
                    end
                | _ => md
                end in
      Ret (Ok (rpr_set_metadata md request))
  end.

Definition http_method_name (m : HttpMethod) : string :=
  match m with
  | HM_Get => "Get" | HM_Post => "Post" | HM_Put => "Put" | HM_Patch => "Patch" | HM_Delete => "Delete"
  end.

Definition rc_set_compensation_plan (l : list CompensationStep) (c : RollbackContract) :=
  let '(mkRollbackContract a b d e f g h i j k _ m n o p q) := c in
  mkRollbackContract a b d e f g h i j k l m n o p q.

Definition enrich_http_compensation_if_needed (contract : RollbackContract) : RollbackContract :=
  if negb (String.eqb (rc_adapter_key contract) "http") then contract
  else match rc_compensation_plan contract with
  | [step] =>
      if negb (String.eqb (cst_operation step) "http.replay_v1")
         || smap_contains_key "method" (cst_args step) then contract
      else match rc_target contract with
      | RTg_HttpRequest method _ _ =>
          let payload := default JNull (smap_get "execute_payload" (rc_metadata contract)) in
          let expected_statuses :=
            match smap_get "response_status" (rc_metadata contract) ≫= as_u64 with
            | Some s => [JInt (s mod 65536)%Z]
            | None => [JInt 200]
            end in
          rc_set_compensation_plan
            [{| cst_order := cst_order step; cst_adapter_key := cst_adapter_key step;
                cst_operation := cst_operation step;
                cst_args := index_insert "expected_statuses" (JArr expected_statuses)
                              (index_insert "payload" payload
                                 (index_insert "method" (JStr (http_method_name method)) (cst_args step)));
                cst_idempotency_key := cst_idempotency_key step |}] contract
      | _ => contract
      end
  | _ => contract
  end.

(** ** durable_capability.rs *)

Definition get_capability_for_authorize (cap : CapBackend) (capability_id : CapabilityId)
  : prog (result CapabilityLease CapabilityError) :=
  r <- cb_get cap capability_id ;;
  match r with
  | Ok lease => Ret (Ok lease)
  | Err CE_NotFound =>
      r <- call (op_get_capability capability_id) ;;
      match r with
      | Ok (Some lease) =>
          match cl_status lease with
          | CS_Used => Ret (Err CE_AlreadyUsed)
          | CS_Revoked => Ret (Err CE_Revoked)
          | _ =>
              now <- call op_now ;;
              Ret (if (cl_expires_at lease <? now)%Z then Err CE_Expired else Ok lease)
          end
      | _ => Ret (Err CE_NotFound)
      end
  | Err e => Ret (Err e)
  end.

Definition classify_capability_after_cas_loss (lease : option CapabilityLease) (now : Timestamp)
  : CapabilityError :=
  match lease with
  | None => CE_NotFound
  | Some lease =>
      match cl_status lease with
      | CS_Used => CE_AlreadyUsed
      | CS_Revoked => CE_Revoked
      | _ => if (cl_expires_at lease <=? now)%Z then CE_Expired else CE_AlreadyUsed
      end
  end.

Definition classify_authorization_cas_failure (capability_id : CapabilityId) : prog CapabilityError :=
  r <- call (op_get_capability capability_id) ;;
  now <- call op_now ;;
  Ret (classify_capability_after_cas_loss (match r with Ok l => l | Err _ => None end) now).

Definition mark_capability_used_durable (cap : CapBackend) (capability_id : CapabilityId)
  : prog (result CapabilityLease CapabilityError) :=
  r <- call (op_get_capability capability_id) ;;
  match r with
  | Ok (Some lease) =>
      match cl_status lease with
      | CS_Used => Ret (Err CE_AlreadyUsed)
      | CS_Revoked => Ret (Err CE_Revoked)
      | _ =>
          now <- call op_now ;;
          if (cl_expires_at lease <? now)%Z then Ret (Err CE_Expired)
          else
            r <- call (op_set_status_if_active capability_id CS_Used) ;;
            match r with
            | Err _ => Ret (Err CE_NotFound)
            | Ok true =>
                _ <- cb_mark_used cap capability_id ;;
                Ret (Ok (cl_set_status CS_Used lease))
            | Ok false =>
                r <- call (op_get_capability capability_id) ;;
                Ret (match r with
                     | Ok (Some l) =>
                         match cl_status l with
                         | CS_Used => Err CE_AlreadyUsed
                         | CS_Revoked => Err CE_Revoked
                         | _ => Err CE_NotFound
                         end
                     | _ => Err CE_NotFound
                     end)
            end
      end
  | _ => Ret (Err CE_NotFound)
  end.

(** ** approval_binding.rs *)

(** [format!("{:?}", actor_type).to_ascii_lowercase()]. *)
Definition actor_type_lower (a : ActorType) : string :=
  match a with
  | AT_User => "user" | AT_Agent => "agent" | AT_PolicyEngine => "policyengine"
  | AT_Gateway => "gateway" | AT_Adapter => "adapter" | AT_Operator => "operator"
  | AT_System => "system"
  end.

Definition meta_str (k : string) (e : ProvenanceEvent) : option string :=
  smap_get k (ev_metadata e) ≫= as_str.

(** The grant events that concern the approval. *)
Definition relevant_event (binding : ApprovalBinding) (approval : ApprovalRequest)
    (event : ProvenanceEvent) : bool :=
  bool_decide (ev_proposal_id event = Some (ap_proposal_id approval))
  && (bool_decide (meta_str "approval_id" event = Some (ab_approval_id binding))
      || String.eqb (or_object_id (ev_object event)) (ab_approval_id binding)).

Definition role_matches (binding : ApprovalBinding) (event : ProvenanceEvent) : bool :=
  match meta_str "actor_role" event with
  | Some role => existsb (λ allowed, String.eqb allowed role) (ab_approver_roles binding)
  | None => false
  end.

(** An authenticated resolver of an allowed role. *)
Definition authenticated_evidence (binding : ApprovalBinding) (event : ProvenanceEvent) : bool :=
  bool_decide (smap_get "actor_authenticated" (ev_metadata event) ≫= as_bool = Some true)
  && role_matches binding event.

(** The role test on the relevant grant events. *)
Definition approved_by_allowed_role (binding : ApprovalBinding) (approval : ApprovalRequest)
    (relevant_events : list ProvenanceEvent) : bool :=
  let has_new_format_event :=
    existsb (λ e, smap_contains_key "actor_authenticated" (ev_metadata e)) relevant_events in
  let requires_resolver_evidence :=
    match ap_resolver_evidence_version approval with Some _ => true | None => false end in
  if requires_resolver_evidence || has_new_format_event then
    existsb (authenticated_evidence binding) relevant_events
  else
    existsb (role_matches binding) relevant_events
    || existsb (λ allowed, String.eqb allowed (actor_type_lower (ar_actor_type (ap_requested_by approval))))
         (ab_approver_roles binding).

(** A load in [validate_approval_binding_digest]. *)
Definition fetch_or {T} (o : op (result (option T) StoreError)) (missing : ApiProblem)
  : prog (result T ApiProblem) :=
  r <- call o ;;
  Ret match r with
      | Ok (Some x) => Ok x
      | Ok None => Err missing
      | Err e => Err (internal e)
      end.

Definition validate_approval_binding_digest (ext : Ext) (binding : ApprovalBinding)
    (proposal_id : ProposalId) : prog (result unit ApiProblem) :=
  approval <-? fetch_or (op_get_approval (ab_approval_id binding))
                 (Problem FORBIDDEN EC_IntegrityMismatch "approval not found for binding") ;;
  if negb (bool_decide (ap_state approval = AS_Granted)) then
    Ret (Err (Problem FORBIDDEN EC_PolicyDenied
                ("approval state is " +:+ debug_approval_state (ap_state approval)
                 +:+ ", expected Granted")))
  else
    now <- call op_now ;;
    if (ab_expires_at binding <? now)%Z then
      Ret (Err (Problem FORBIDDEN EC_PolicyDenied "approval binding has expired"))
    else
      now <- call op_now ;;
      if (ap_expires_at approval <? now)%Z then
        Ret (Err (Problem FORBIDDEN EC_PolicyDenied "approval has expired"))
      else if negb (String.eqb (ab_approved_action_digest binding) (ap_action_digest approval)) then
        Ret (Err (Problem FORBIDDEN EC_IntegrityMismatch "binding digest does not match approval digest"))
      else
        proposal <-? fetch_or (op_get_proposal proposal_id)
                       (Problem FORBIDDEN EC_IntegrityMismatch "proposal not found") ;;
        if negb (String.eqb
                   (canonical_action_digest (ext_json_to_string ext) (ext_sha256_hex ext) proposal)
                   (ab_approved_action_digest binding)) then
          Ret (Err (Problem FORBIDDEN EC_IntegrityMismatch
                      "computed proposal digest does not match binding digest"))
        else if is_empty (ab_approver_roles binding) then Ret (Ok tt)
        else
          r <- call (op_query
            {| pq_intent_id := Some (ap_intent_id approval);
               pq_execution_id := ap_execution_id approval; pq_capability_id := None;
               pq_event_kind := Some PK_ApprovalGranted; pq_since := None; pq_until := None;
               pq_edge_types := [] |}) ;;
          Ret match r with
              | Err e => Err (internal e)
              | Ok grant_events =>
                  if approved_by_allowed_role binding approval
                       (filter (λ e, relevant_event binding approval e) grant_events)
                  then Ok tt
                  else Err (Problem FORBIDDEN EC_PolicyDenied
                              "approval was not granted by an allowed approver role")
              end.

(** ** audit.rs *)

(** [compute_content_hash] of sqlite/audit_log.rs. *)
Definition compute_content_hash (ext : Ext) (e : AuditLogEntry) : string :=
  ext_sha256_hex ext (ext_json_to_string ext
    (JObj (foldl (λ m kv, btree_insert kv.1 kv.2 m) []
       [("actor_id", JStr (al_actor_id e)); ("action", JStr (al_action e));
        ("resource_type", JStr (al_resource_type e)); ("resource_id", JStr (al_resource_id e));
        ("result", JStr (al_result e)); ("metadata", default JNull (al_metadata e));
        ("created_at", JStr (ext_rfc3339 ext (al_created_at e)))]))).

(** [SqliteAuditLogRepo::append]: a read and an insert, not in one transaction. *)
Definition audit_append (ext : Ext) (entry : AuditLogEntry)
  : prog (result unit StoreError) :=
  previous_hash <-? call op_last_audit_hash ;;
  call (op_insert_audit entry (compute_content_hash ext entry) previous_hash).

(** [append_audit]. *)
Definition append_audit (ext : Ext) (actor_id action resource_type
    resource_id outcome : string) (metadata : option json) : prog (result unit StoreError) :=
  now <- call op_now ;;
  audit_append ext
    (mkAuditLogEntry 0 actor_id action resource_type resource_id outcome metadata now None None).

(** [append_audit_checked]. *)
Definition append_audit_checked (app : App) (actor_id action resource_type resource_id outcome : string) (metadata : option json)
  : prog (result unit ApiProblem) :=
  r <- append_audit (app_ext app) actor_id action resource_type resource_id outcome metadata ;;
  match r with
  | Ok _ => Ret (Ok tt)
  | Err _ =>
      if cfg_audit_fail_closed (app_config app) then
        _ <- call (op_metric Met_audit_fail_closed) ;;
        Ret (Err (Problem SERVICE_UNAVAILABLE EC_Internal
                    "audit append failed: action blocked by fail-closed policy"))
      else Ret (Ok tt)
  end.
