(* ===== verification/Mfa.v ===== *)
(** * Multi-factor authentication (crates/ferrum-gateway/src/mfa.rs)

    One-time codes, the lockouts of agents and factors, and the check of a second
    factor that the resolution of approvals and of quarantine holds asks for
    (approval.rs, quarantine.rs).  HMAC, AES-GCM and hexadecimal decoding are library
    functions of [Ext]; bytes are characters. *)

From Stdlib Require Import Ascii String.
From stdpp Require Import pretty.
From S2P Require Import Prelude Json Proto Admin Store Effects Validation Lifecycle.

Inductive MfaError :=
| ME_Required | ME_Invalid | ME_Unsupported | ME_Crypto (msg : string) | ME_Misconfigured.

(** ** One-time codes *)

Definition TOTP_TIME_STEP : Z := 30.
Definition u64_of (n : Z) : Z := (n mod 18446744073709551616)%Z.

Definition byte_at (s : string) (i : nat) : Z :=
  match String.get i s with Some a => Z.of_N (N_of_ascii a) | None => 0%Z end.

(** [u64::to_be_bytes]: the [n] low bytes, most significant first. *)
Fixpoint be_bytes (n : nat) (v : Z) : string :=
  match n with
  | O => EmptyString
  | S n => String (ascii_of_N (Z.to_N (Z.land (Z.shiftr v (8 * Z.of_nat n)) 255))) (be_bytes n v)
  end.

(** [format!("{:06}", code)]: the [n] low decimal digits. *)
Fixpoint padded_digits (n : nat) (v : Z) : string :=
  match n with
  | O => EmptyString
  | S n => String (ascii_of_N (Z.to_N (48 + (v / 10 ^ Z.of_nat n) mod 10))) (padded_digits n v)
  end.

(** The number a digest is truncated to. *)
Definition dynamic_truncation (digest : string) : Z :=
  let offset := Z.to_nat (Z.land (byte_at digest (String.length digest - 1)) 15) in
  Z.lor (Z.lor (Z.lor (Z.shiftl (Z.land (byte_at digest offset) 127) 24)
                      (Z.shiftl (byte_at digest (offset + 1)) 16))
               (Z.shiftl (byte_at digest (offset + 2)) 8))
        (byte_at digest (offset + 3)).

Section codes.
Context (hmac_sha1 : string → string → string).

Definition hotp (secret : string) (counter : Z) : string :=
  padded_digits 6 (dynamic_truncation (hmac_sha1 secret (be_bytes 8 counter)) mod 1000000).

Definition generate_totp_code (secret : string) (timestamp : Z) : string :=
  hotp secret (timestamp / TOTP_TIME_STEP).

(** The steps that are tried, in order. *)
Fixpoint match_counter (secret code : string) (counters : list Z) : result Z MfaError :=
  match counters with
  | [] => Err ME_Invalid
  | c :: rest => if String.eqb (hotp secret c) code then Ok c else match_counter secret code rest
  end.

Definition verify_totp_code_with_counter (secret code : string) (timestamp : Z) : result Z MfaError :=
  let counter := (timestamp / TOTP_TIME_STEP)%Z in
  match_counter secret code [u64_of (counter - 1); u64_of counter; u64_of (counter + 1)].

Definition verify_totp_code (secret code : string) (timestamp : Z) : result unit MfaError :=
  match verify_totp_code_with_counter secret code timestamp with Ok _ => Ok tt | Err e => Err e end.
End codes.

(** ** Secrets and keys *)

Definition decrypt_secret (ext : Ext) (key_bytes ciphertext_base64 nonce_base64 : string)
  : result string MfaError :=
  if negb (String.length key_bytes =? 32) then
    Err (ME_Crypto ("AES-256 key must be 32 bytes, got " +:+ pretty (String.length key_bytes)))
  else match ext_aes_gcm_decrypt ext key_bytes ciphertext_base64 nonce_base64 with
       | Some s => Ok s
       | None => Err (ME_Crypto "decryption failed")
       end.

Definition decode_hex_key (ext : Ext) (hex_key : string) : result string string :=
  if negb (String.length hex_key =? 64) then
    Err ("mfa_secret_key must be exactly 64 hex characters (32 bytes), got "
         +:+ pretty (String.length hex_key))
  else match ext_hex_decode ext hex_key with
       | Ok bytes => Ok bytes
       | Err e => Err ("mfa_secret_key contains invalid hex: " +:+ e)
       end.

(** ** The repository's methods of several statements *)

Definition record_use (id : string) (counter : Z) : prog (result bool StoreError) :=
  if (i64_max <? counter)%Z then
    Ret (Err (SE_InvalidState ("counter " +:+ pretty counter +:+ " exceeds i64::MAX")))
  else now <- call op_now ;; call (op_admin (AO_mfa_record_use id counter now)).

Definition record_failed_attempt (id : string) (max_attempts lockout_duration_secs : Z)
  : prog (result bool StoreError) :=
  now <- call op_now ;;
  updated <-? call (op_admin (AO_mfa_failed id max_attempts (now + seconds lockout_duration_secs)%Z now)) ;;
  if negb updated then Ret (Ok false)
  else
    record <-? call (op_admin (AO_mfa_get id)) ;;
    Ret (Ok (match record with
             | Some r => match mc_locked_until r with Some lu => (now <? lu)%Z | None => false end
             | None => false
             end)).

(** The record exists after the upsert; the code panics otherwise. *)
Definition record_agent_failed_attempt (agent_id : string) (max_attempts lockout_duration_secs : Z)
  : prog (result MfaAgentLockoutRecord StoreError) :=
  _ <-? call (op_admin (AO_lockout_fail agent_id max_attempts lockout_duration_secs)) ;;
  record <-? call (op_admin (AO_lockout_get agent_id)) ;;
  Ret (ok_or record (SE_Other "agent lockout record should exist after upsert")).

(** ** Lockouts *)

Inductive TotpVerifyResult :=
| TV_Success (counter : Z) | TV_Locked (retry_after_seconds : Z) | TV_Invalid | TV_Internal.

(** [(until - now).num_seconds().max(0)]: whole seconds, rounded towards zero. *)
Definition seconds_left (until now : Timestamp) : Z := Z.max 0 (Z.quot (until - now) 1000000000).

(** The remaining seconds of a lock that has not expired. *)
Definition lock_remaining (locked_until : option Timestamp) (now : Timestamp) : option Z :=
  match locked_until with
  | Some t => if (now <? t)%Z then Some (seconds_left t now) else None
  | None => None
  end.

Definition check_agent_mfa_lockout (agent_id : string) : prog (result (option Z) StoreError) :=
  lockout <-? call (op_admin (AO_lockout_get agent_id)) ;;
  match lockout ≫= ml_locked_until with
  | Some t => now <- call op_now ;; Ret (Ok (lock_remaining (Some t) now))
  | None => Ret (Ok None)
  end.

Definition check_factor_lockout (record : MfaCredentialRecord) : prog (option Z) :=
  match mc_locked_until record with
  | Some t => now <- call op_now ;; Ret (lock_remaining (Some t) now)
  | None => Ret None
  end.

Definition reset_mfa_lockout_after_success (agent_id mfa_factor_id : string)
  : prog (result unit StoreError) :=
  now <- call op_now ;;
  _ <-? call (op_admin (AO_lockout_reset agent_id now)) ;;
  _ <-? call (op_admin (AO_mfa_reset mfa_factor_id)) ;;
  Ret (Ok tt).

(** The seconds left of a lock that was just set. *)
Definition retry_secs (locked_until : option Timestamp) : prog (option Z) :=
  match locked_until with
  | Some t => now <- call op_now ;; Ret (Some (seconds_left t now))
  | None => Ret None
  end.

(** A wrong code: it counts against the agent and against the factor. *)
Definition record_totp_failure (agent_id : string) (record : MfaCredentialRecord)
    (max_attempts lockout_duration_secs : Z) : prog TotpVerifyResult :=
  agent <- record_agent_failed_attempt agent_id max_attempts lockout_duration_secs ;;
  match agent with
  | Err _ => Ret TV_Internal
  | Ok agent_record =>
      agent_locked <- match ml_locked_until agent_record with
                      | Some t => now <- call op_now ;; Ret (now <? t)%Z
                      | None => Ret false
                      end ;;
      factor <- record_failed_attempt (mc_mfa_factor_id record) max_attempts lockout_duration_secs ;;
      match factor with
      | Err _ => Ret TV_Internal
      | Ok factor_locked =>
          agent_retry_secs <- (if (agent_locked : bool) then retry_secs (ml_locked_until agent_record) else Ret None) ;;
          factor_retry_secs <-
            (if (factor_locked : bool) then
               fresh <- call (op_admin (AO_mfa_get (mc_mfa_factor_id record))) ;;
               match fresh with
               | Ok (Some fresh) => s <- retry_secs (mc_locked_until fresh) ;; Ret (Ok s)
               | Ok None => Ret (Ok None)
               | Err e => Ret (Err e)
               end
             else Ret (Ok None)) ;;
          Ret (match agent_retry_secs, factor_retry_secs with
               | _, Err _ => TV_Internal
               | Some a, Ok (Some f) => TV_Locked (Z.max a f)
               | Some r, Ok None | None, Ok (Some r) => TV_Locked r
               | None, Ok None => TV_Invalid
               end)
      end
  end.

Definition verify_totp_with_lockout (ext : Ext) (key_bytes agent_id : string)
    (record : MfaCredentialRecord) (code : string) (max_attempts lockout_duration_secs : Z)
  : prog TotpVerifyResult :=
  lockout <- check_agent_mfa_lockout agent_id ;;
  match lockout with
  | Err _ => Ret TV_Internal
  | Ok retry =>
      let agent_retry := default 0%Z retry in
      if (0 <? agent_retry)%Z then Ret (TV_Locked agent_retry)
      else
        factor <- check_factor_lockout record ;;
        match factor with
        | Some retry_after => Ret (TV_Locked retry_after)
        | None =>
            match decrypt_secret ext key_bytes (mc_encrypted_secret record) (mc_secret_nonce record) with
            | Err _ => Ret TV_Internal
            | Ok secret =>
                now <- call op_now ;;
                match verify_totp_code_with_counter (ext_hmac_sha1 ext) secret code
                        (u64_of (now / 1000000000)) with
                | Ok counter => Ret (TV_Success counter)
                | Err _ => record_totp_failure agent_id record max_attempts lockout_duration_secs
                end
            end
        end
  end.

(** ** The second factor of a resolution (approval.rs, quarantine.rs) *)

Definition mfa_locked_problem (retry_after_secs : Z) : ApiProblem :=
  mkProblem FORBIDDEN EC_MfaLocked "MFA is locked due to too many failed attempts"
    (JObj [("retry_after_seconds", JInt retry_after_secs)]).

Definition mfa_invalid (message : string) : ApiProblem := Problem FORBIDDEN EC_MfaInvalid message.

(** Only called with a result that is not a success. *)
Definition totp_verify_result_to_problem (r : TotpVerifyResult) : ApiProblem :=
  match r with
  | TV_Locked retry_after => mfa_locked_problem retry_after
  | TV_Invalid => mfa_invalid "MFA verification code is invalid"
  | TV_Internal | TV_Success _ => Problem INTERNAL_SERVER_ERROR EC_Internal "MFA verification failed"
  end.

(** The configured key. *)
Definition mfa_key (app : App) : result string ApiProblem :=
  match cfg_mfa_secret_key (app_config app) with
  | None => Err (Problem FORBIDDEN EC_Misconfigured "mfa_secret_key is not configured")
  | Some key_hex => map_err (Problem FORBIDDEN EC_Misconfigured) (decode_hex_key (app_ext app) key_hex)
  end.

Definition mfa_code (f : MfaFactor) : result string ApiProblem :=
  ok_or (mf_code f) (mfa_invalid "MFA verification code is missing").

Definition agent_unlocked (actor_id : string) : prog (result unit ApiProblem) :=
  r <- check_agent_mfa_lockout actor_id ;;
  Ret (match r with
       | Ok (Some retry_after_secs) => Err (mfa_locked_problem retry_after_secs)
       | Ok None => Ok tt
       | Err e => Err (internal e)
       end).

(** The factor the request names: it exists, is the actor's and is active. *)
Definition active_factor (factor_id actor_id : string) : prog (result MfaCredentialRecord ApiProblem) :=
  r <- call (op_admin (AO_mfa_get factor_id)) ;;
  Ret (match r with
       | Err e => Err (internal e)
       | Ok None => Err (mfa_invalid "MFA factor not found")
       | Ok (Some record) =>
           if negb (String.eqb (mc_agent_id record) actor_id) then
             Err (mfa_invalid "MFA factor does not belong to the actor")
           else if negb (bool_decide (mc_status record = MF_Active)) then
             Err (mfa_invalid "MFA factor is not active")
           else Ok record
       end).

(** Verify the code and use up its counter. *)
Definition consume_code (app : App) (key_bytes factor_id : string) (record : MfaCredentialRecord)
    (code : string) : prog (result unit ApiProblem) :=
  r <- verify_totp_with_lockout (app_ext app) key_bytes (mc_agent_id record) record code
         (cfg_mfa_lockout_max_attempts (app_config app)) (cfg_mfa_lockout_duration_secs (app_config app)) ;;
  match r with
  | TV_Success counter =>
      used <- record_use factor_id counter ;;
      match used with
      | Ok true =>
          reset <- reset_mfa_lockout_after_success (mc_agent_id record) (mc_mfa_factor_id record) ;;
          Ret (map_err internal reset)
      | Ok false => Ret (Err (mfa_invalid "MFA verification code is invalid"))
      | Err _ => Ret (Err (Problem INTERNAL_SERVER_ERROR EC_Internal "MFA state update failed"))
      end
  | other => Ret (Err (totp_verify_result_to_problem other))
  end.

(** The check of [resolve_approval]. *)
Definition verify_approval_mfa (app : App) (factor : option MfaFactor) (actor_id : string)
  : prog (result unit ApiProblem) :=
  match factor with
  | None => Ret (Err (Problem FORBIDDEN EC_MfaRequired "MFA factor is required for approval resolve"))
  | Some f =>
      match mfa_key app with
      | Err e => Ret (Err e)
      | Ok key_bytes =>
          _ <-? agent_unlocked actor_id ;;
          record <-? active_factor (mf_id f) actor_id ;;
          match mfa_code f with
          | Err e => Ret (Err e)
          | Ok code => consume_code app key_bytes (mf_id f) record code
          end
      end
  end.

(** [verify_mfa_factor] of quarantine.rs. *)
Definition verify_mfa_factor (app : App) (factor : option MfaFactor) (actor_id : string)
  : prog (result unit ApiProblem) :=
  match factor with
  | None => Ret (Err (Problem FORBIDDEN EC_MfaRequired "MFA factor is required for quarantine resolve"))
  | Some f =>
      match mfa_key app, mfa_code f with
      | Err e, _ | Ok _, Err e => Ret (Err e)
      | Ok key_bytes, Ok code =>
          _ <-? agent_unlocked actor_id ;;
          record <-? active_factor (mf_id f) actor_id ;;
          consume_code app key_bytes (mf_id f) record code
      end
  end.
