(* ===== verification/Capabilities.v ===== *)
(** * The capability handlers

    From crates/ferrum-gateway/src/capabilities.rs: minting a capability for an
    evaluated proposal, and revoking one. *)

From S2P Require Import Prelude Json Proto Transitions CapService Store Adapter Effects Pdp.
From S2P Require Import Firewall RollbackSvc Validation Provenance CapBackend Lifecycle.

Definition parse_capability_id (ext : Ext) (value : string) : result CapabilityId ApiProblem :=
  match ext_parse_uuid ext value with
  | Some id => Ok id
  | None => Err (Problem BAD_REQUEST EC_ValidationError "path id is not a valid capability uuid")
  end.

(** The derived [Debug] text of a decision. *)
Definition debug_decision (d : Decision) : string :=
  match d with
  | D_Allow => "Allow" | D_Deny => "Deny" | D_Quarantine => "Quarantine"
  | D_RequireApproval => "RequireApproval" | D_AllowDraftOnly => "AllowDraftOnly"
  end.

(** [Iterator::max_by_key] on the time: of several maxima, the last. *)
Definition latest (events : list ProvenanceEvent) : option ProvenanceEvent :=
  foldl (λ best e, match best with
                   | Some b => if (ev_occurred_at e <? ev_occurred_at b)%Z then best else Some e
                   | None => Some e
                   end) None events.

Definition policy_events_of (intent_id : IntentId) : ProvenanceQueryRequest :=
  {| pq_intent_id := Some intent_id; pq_execution_id := None; pq_capability_id := None;
     pq_event_kind := Some PK_PolicyEvaluated; pq_since := None; pq_until := None;
     pq_edge_types := [] |}.

Definition latest_policy_decision_for_proposal (proposal_id : ProposalId) (intent_id : IntentId)
  : prog (result Decision ApiProblem) :=
  r <- call (op_query (policy_events_of intent_id)) ;;
  Ret (match r with
       | Err e => Err (internal e)
       | Ok events =>
           match latest (filter (λ e, bool_decide (ev_proposal_id e = Some proposal_id)) events) with
           | None => Err (Problem CONFLICT EC_Conflict
                            "capability mint requires prior PolicyEvaluated event for proposal")
           | Some event =>
               ok_or (decision_from_policy_event event)
                 (Problem CONFLICT EC_Conflict "PolicyEvaluated event is missing a valid decision")
           end
       end).

Definition validate_quarantine_hold_for_proposal (proposal_id : ProposalId)
  : prog (result unit ApiProblem) :=
  r <- call (op_hold_of_proposal proposal_id) ;;
  Ret (match r with
       | Err e => Err (internal e)
       | Ok None => Err (Problem FORBIDDEN EC_PolicyDenied
                           "quarantine hold is missing for quarantined proposal")
       | Ok (Some hold) =>
           match qh_state hold with
           | QS_Allowed => Ok tt
           | QS_Pending => Err (Problem FORBIDDEN EC_PolicyDenied
                                  "proposal is under quarantine and awaiting operator resolution")
           | QS_Denied => Err (Problem FORBIDDEN EC_PolicyDenied
                                 "proposal was denied by quarantine resolution")
           | QS_Expired => Err (Problem FORBIDDEN EC_PolicyDenied
                                  "quarantine hold expired; proposal cannot be minted")
           end
       end).

(** ** mint_capability *)

(** The mint request names the proposal's intent, server and tool. *)
Definition mint_binding_matches (proposal : ActionProposal) (request : CapabilityMintRequest) : bool :=
  String.eqb (pr_intent_id proposal) (mr_intent_id request)
  && String.eqb (pr_server_name proposal) (tb_server_name (mr_tool_binding request))
  && String.eqb (pr_tool_name proposal) (tb_tool_name (mr_tool_binding request)).

(** What the latest policy decision asks of a mint. *)
Definition mint_permitted (app : App) (request : CapabilityMintRequest) (decision : Decision)
  : prog (result unit ApiProblem) :=
  match decision with
  | D_Allow => Ret (Ok tt)
  | D_RequireApproval =>
      match mr_approval_binding request with
      | None => Ret (Err (Problem FORBIDDEN EC_PolicyDenied
                            "policy requires approval before capability mint"))
      | Some binding => validate_approval_binding_digest (app_ext app) binding (mr_proposal_id request)
      end
  | D_Quarantine => validate_quarantine_hold_for_proposal (mr_proposal_id request)
  | decision => Ret (Err (Problem FORBIDDEN EC_PolicyDenied
                            ("policy decision " +:+ debug_decision decision
                             +:+ " does not allow capability mint")))
  end.

(** A step of the handler whose problem is counted and returned. *)
Definition guarded_by {T} (route : GovernanceRoute) (p : prog (result T ApiProblem))
  : prog (result T ApiProblem) :=
  r <- p ;; require route r.

Definition mint_checks (app : App) (request : CapabilityMintRequest) : prog (result unit ApiProblem) :=
  let route := GR_CapabilitiesMint in
  proposal <-? fetch route (op_get_proposal (mr_proposal_id request))
                 (Problem NOT_FOUND EC_NotFound "proposal not found for capability mint") ;;
  if negb (mint_binding_matches proposal request) then
    governance_err route (Problem FORBIDDEN EC_IntegrityMismatch
                            "capability mint binding does not match proposal")
  else
    _ <-? require route (map_err (Problem FORBIDDEN EC_PolicyDenied)
            (validate_argument_constraints (app_ext app) (pr_raw_arguments proposal)
               (mr_argument_constraints request))) ;;
    _ <-? fetch route (op_get_intent (mr_intent_id request))
            (Problem NOT_FOUND EC_NotFound "intent not found for capability mint") ;;
    decision <-? guarded_by route
      (latest_policy_decision_for_proposal (mr_proposal_id request) (mr_intent_id request)) ;;
    guarded_by route (mint_permitted app request decision).

(** A capability event of a lease. *)
Definition capability_event (event_id : EventId) (kind : ProvenanceEventKind) (now : Timestamp)
    (actor : ActorRef) (summary : option string) (lease : CapabilityLease) : ProvenanceEvent :=
  {| ev_event_id := event_id; ev_kind := kind; ev_occurred_at := now; ev_actor := actor;
     ev_object := {| or_object_type := OT_Capability; or_object_id := cl_capability_id lease;
                     or_summary := summary |};
     ev_intent_id := Some (cl_intent_id lease); ev_proposal_id := Some (cl_proposal_id lease);
     ev_execution_id := None; ev_capability_id := Some (cl_capability_id lease);
     ev_rollback_contract_id := None; ev_policy_bundle_id := Some (cl_policy_bundle_id lease);
     ev_trust_labels := []; ev_sensitivity_labels := []; ev_parent_edges := [];
     ev_hash_chain := no_hashes; ev_metadata := []; ev_source_runtime_id := None |}.

Definition mint_capability (app : App) (auth_actor : option AuthActor)
    (request : CapabilityMintRequest) : prog (result CapabilityMintResponse ApiProblem) :=
  let route := GR_CapabilitiesMint in
  _ <-? mint_checks app request ;;
  minted <- mint_capability_with_owner request (aa_actor_id <$> auth_actor) ;;
  response <-? require route (map_err from_capability minted) ;;
  event_id <- call op_uuid ;;
  now <- call op_now ;;
  _ <-? checked route (append_governance_event
          (capability_event event_id PK_CapabilityMinted now gateway_actor (Some "Capability minted")
             (mresp_lease response))) ;;
  governance_ok route response.

(** ** revoke_capability *)

(** The lease revoked at [t]. *)
Definition revoked_lease (t : Timestamp) (l : CapabilityLease) : CapabilityLease :=
  cl_set_revoked_at t (cl_set_status CS_Revoked l).

(** A miss of the capability service: load the stored lease, check it, and store it
    revoked. *)
Definition revoke_stored (id : CapabilityId) : prog (result CapabilityLease ApiProblem) :=
  let route := GR_CapabilitiesRevoke in
  lease <-? fetch route (op_get_capability id) object_not_found ;;
  match cl_status lease with
  | CS_Revoked => governance_err route (from_capability CE_Revoked)
  | CS_Used => governance_err route (from_capability CE_AlreadyUsed)
  | _ =>
      now <- call op_now ;;
      if (cl_expires_at lease <? now)%Z then governance_err route (from_capability CE_Expired)
      else
        revoked_at <- call op_now ;;
        let lease := revoked_lease revoked_at lease in
        _ <-? checked route (call (op_update_capability lease)) ;;
        Ret (Ok lease)
  end.

(** The revoked lease, and whether the handler must still store it. *)
Definition revoke_lease (app : App) (id : CapabilityId)
  : prog (result (CapabilityLease * bool) ApiProblem) :=
  let route := GR_CapabilitiesRevoke in
  r <- cb_revoke (app_cap app) id ;;
  match r with
  | Ok lease => Ret (Ok (lease, negb (cb_is_store_backed (app_cap app))))
  | Err CE_NotFound => lease <-? revoke_stored id ;; Ret (Ok (lease, false))
  | Err e => governance_err route (from_capability e)
  end.

Definition revoking_actor : ActorRef :=
  {| ar_actor_type := AT_Gateway; ar_actor_id := "gateway"; ar_display_name := None |}.

Definition revoke_response (app : App) (lease : CapabilityLease) : json :=
  sanitize_output (ext_replace_all (app_ext app))
    (JObj [("capability_id", JStr (cl_capability_id lease)); ("ok", JBool true)]).

Definition revoke_capability (app : App) (path : string) (auth_actor : option AuthActor)
  : prog (result json ApiProblem) :=
  let route := GR_CapabilitiesRevoke in
  id <-? require route (parse_capability_id (app_ext app) path) ;;
  stored <-? fetch route (op_get_capability id) object_not_found ;;
  now <- call op_now ;;
  _ <-? require route (enforce_object_owner_guard auth_actor (cl_owner_actor_id stored)
          (cfg_auth_mode (app_config app))
          (cfg_legacy_object_compat_allow_until (app_config app)) now) ;;
  revoked <-? revoke_lease app id ;;
  let '(lease, persist_revoke_in_handler) := revoked in
  event_id <- call op_uuid ;;
  now <- call op_now ;;
  _ <-? (if persist_revoke_in_handler : bool
         then checked route (call (op_update_capability lease)) else Ret (Ok tt)) ;;
  _ <-? checked route (append_governance_event
          (capability_event event_id PK_CapabilityRevoked now revoking_actor None lease)) ;;
  governance_ok route (revoke_response app lease).
