(* ===== verification/Proposals.v ===== *)
(** * Intents and proposals (crates/ferrum-gateway/src: intents.rs, policy_eval.rs,
    proposals.rs)

    Compiling an intent, deriving the trust context of a proposal, deciding about it
    with the active policy bundles and the policy decision point, and recording the
    decision: the stored proposal, its provenance event and, for a quarantine, the
    hold. *)

From S2P Require Import Prelude Json Proto Admin Behavioral Store Effects Pdp Firewall Validation.
From S2P Require Import Provenance Lifecycle Capabilities.

(** A governed event that belongs to no execution. *)
Definition governed_event (event_id : EventId) (kind : ProvenanceEventKind) (now : Timestamp)
    (actor : ActorRef) (object : ObjectRef) (intent_id : option IntentId)
    (proposal_id : option ProposalId) (metadata : JsonMap) : ProvenanceEvent :=
  {| ev_event_id := event_id; ev_kind := kind; ev_occurred_at := now; ev_actor := actor;
     ev_object := object; ev_intent_id := intent_id; ev_proposal_id := proposal_id;
     ev_execution_id := None; ev_capability_id := None; ev_rollback_contract_id := None;
     ev_policy_bundle_id := None; ev_trust_labels := []; ev_sensitivity_labels := [];
     ev_parent_edges := []; ev_hash_chain := no_hashes; ev_metadata := metadata;
     ev_source_runtime_id := None |}.

(** ** intents.rs *)

Definition read_outcome : OutcomeClause :=
  {| oc_id := "read"; oc_description := "read only analysis";
     oc_effect_type := ET_ReadOnlyAnalysis; oc_required := true |}.

Definition default_budget : TimeBudget :=
  {| tb_max_duration_ms := 30000; tb_max_steps := 8; tb_max_retries_per_step := 1 |}.

Definition trust_of_labels (inputs : list TrustLabel) (sensitivity : list SensitivityLabel)
  : TrustContextSummary :=
  {| tc_input_labels := inputs; tc_sensitivity_labels := sensitivity; tc_taint_score := 0;
     tc_contains_external_metadata := false; tc_contains_tool_output := false;
     tc_contains_untrusted_text := false |}.

(** The envelope of a compile request.  Letters outside ASCII keep their case in the
    normalized goal, which the program only tests for emptiness. *)
Definition compiled_envelope (intent_id : IntentId) (now : Timestamp) (actor : option AuthActor)
    (req : IntentCompileRequest) : IntentEnvelope :=
  {| in_intent_id := intent_id; in_principal_id := ic_principal_id req;
     in_session_id := ic_session_id req; in_channel_id := ic_channel_id req;
     in_title := ic_title req; in_goal := ic_goal req;
     in_normalized_goal := str_to_lowercase (str_trim (ic_goal req));
     in_allowed_outcomes := [read_outcome]; in_forbidden_outcomes := [];
     in_resource_scope := ic_requested_resource_scope req;
     in_risk_tier := default RT_Medium (ic_requested_risk_tier req);
     in_approval_mode := default AM_None (ic_approval_mode req);
     in_default_rollback_class := infer_rollback_class (ic_requested_resource_scope req);
     in_time_budget := default_budget;
     in_trust_context := trust_of_labels (ic_raw_inputs req ≫= ii_trust_labels)
                           (ic_raw_inputs req ≫= ii_sensitivity_labels);
     in_derived_from_event_ids := omap ii_event_id (ic_raw_inputs req);
     in_tags := []; in_metadata := ic_metadata req; in_status := IS_Active; in_created_at := now;
     in_expires_at := (now + seconds (15 * 60))%Z; in_owner_actor_id := aa_actor_id <$> actor |}.

Definition compile_intent (app : App) (auth_actor : option AuthActor) (req : IntentCompileRequest)
  : prog (result IntentCompileResponse ApiProblem) :=
  let route := GR_IntentsCompile in
  now <- call op_now ;;
  intent_id <- call op_uuid ;;
  let envelope := compiled_envelope intent_id now auth_actor req in
  _ <-? require route (map_err (Problem BAD_REQUEST EC_ValidationError) (validate_intent envelope)) ;;
  _ <-? checked route (call (op_insert_intent envelope)) ;;
  governance_ok route {| icr_envelope := envelope; icr_warnings := [] |}.

(** ** policy_eval.rs *)

(** The first bundle with a matching rule. *)
Fixpoint first_matching_bundle (intent : IntentEnvelope) (proposal : ActionProposal)
    (trust : TrustContextSummary) (bundles : list PolicyBundle) : option EvaluateProposalResponse :=
  match bundles with
  | [] => None
  | bundle :: rest =>
      match evaluate_bundle_rules intent proposal trust bundle with
      | Some (rule_id, decision, reason) =>
          Some {| epr_decision := decision; epr_reason := reason; epr_matched_rule_ids := [rule_id];
                  epr_warnings := [] |}
      | None => first_matching_bundle intent proposal trust rest
      end
  end.

Definition evaluate_active_policy_bundles (intent : IntentEnvelope) (proposal : ActionProposal)
    (trust : TrustContextSummary) : prog (option EvaluateProposalResponse) :=
  r <- call (op_admin AO_list_active) ;;
  Ret (match r with
       | Ok bundles => first_matching_bundle intent proposal trust bundles
       | Err _ => None
       end).

Definition external_label (l : TrustLabel) : bool :=
  match l with
  | TL_ExternalWeb | TL_ExternalEmail | TL_ExternalRepoText | TL_ExternalToolMetadata
  | TL_ExternalToolOutput | TL_OCRExtracted | TL_Untrusted => true
  | _ => false
  end.

Definition intent_has_external_label (intent : IntentEnvelope) : bool :=
  existsb external_label (tc_input_labels (in_trust_context intent)).

Definition external_indicators : list string :=
  ["source"; "external"; "untrusted"; "tool_output"; "web_content"; "email_content"].

Definition proposal_has_external_metadata (proposal : ActionProposal) : bool :=
  existsb (λ kv, existsb (λ ind, str_contains ind (str_to_lowercase kv.1)) external_indicators)
    (pr_metadata proposal).

Definition has_tool_output_label (intent : IntentEnvelope) : bool :=
  existsb (λ l, match l with TL_ExternalToolOutput => true | _ => false end)
    (tc_input_labels (in_trust_context intent)).

Definition has_untrusted_text_label (intent : IntentEnvelope) : bool :=
  existsb (λ l, match l with TL_Untrusted => true | _ => false end)
    (tc_input_labels (in_trust_context intent)).

Definition bool_text (b : bool) : string := if b then "true" else "false".

(** A metadata entry as an attribute: strings and booleans only. *)
Definition metadata_attribute (attributes : gmap string string) (kv : string * json) : gmap string string :=
  match kv.2 with
  | JStr s => <[kv.1 := s]> attributes
  | JBool b => <[kv.1 := bool_text b]> attributes
  | _ => attributes
  end.

Definition firewall_attributes (proposal : ActionProposal) : gmap string string :=
  let action := match pr_requested_rollback_class proposal with
                | R0NativeReversible => "read" | _ => "write" end in
  foldl metadata_attribute
    (<["server_name" := pr_server_name proposal]>
       (<["tool_name" := pr_tool_name proposal]>
          (<["rollback_class" := rollback_class_name (pr_requested_rollback_class proposal)]>
             {["action" := action]})))
    (pr_metadata proposal).

Definition build_firewall_context (intent : IntentEnvelope) (proposal : ActionProposal)
    (is_external : bool) : FirewallContext :=
  {| fc_source := if str_is_empty (pr_server_name proposal) then pr_tool_name proposal
                  else pr_server_name proposal;
     fc_intent := if str_is_empty (in_normalized_goal intent) then None
                  else Some (in_normalized_goal intent);
     fc_trust_score := if is_external then 30 else 80;
     fc_is_external := is_external;
     fc_attributes := firewall_attributes proposal |}.

Definition minimal_intent_for (intent_id : IntentId) (rollback : RollbackClass) : prog IntentEnvelope :=
  now <- call op_now ;;
  principal_id <- call op_uuid ;;
  Ret {| in_intent_id := intent_id; in_principal_id := principal_id; in_session_id := None;
         in_channel_id := None; in_title := "scaffold-intent"; in_goal := "scaffold evaluation";
         in_normalized_goal := "scaffold evaluation"; in_allowed_outcomes := [read_outcome];
         in_forbidden_outcomes := []; in_resource_scope := []; in_risk_tier := RT_Medium;
         in_approval_mode := AM_None; in_default_rollback_class := rollback;
         in_time_budget := default_budget; in_trust_context := trust_of_labels [] [];
         in_derived_from_event_ids := []; in_tags := []; in_metadata := []; in_status := IS_Active;
         in_created_at := now; in_expires_at := (now + seconds (15 * 60))%Z;
         in_owner_actor_id := None |}.

(** ** proposals.rs *)

(** Is the proposal treated as coming from outside? *)
Definition is_external (intent : IntentEnvelope) (proposal : ActionProposal) : bool :=
  intent_has_external_label intent
  || match pr_taint_inputs proposal with [] => false | _ => true end
  || proposal_has_external_metadata proposal.

(** The trust context the policy sees: the labels of the intent, the taint score of
    the firewall. *)
Definition derived_trust (intent : IntentEnvelope) (proposal : ActionProposal) : TrustContextSummary :=
  let t := in_trust_context intent in
  {| tc_input_labels := tc_input_labels t; tc_sensitivity_labels := tc_sensitivity_labels t;
     tc_taint_score :=
       compute_taint_score (build_firewall_context intent proposal (is_external intent proposal));
     tc_contains_external_metadata :=
       tc_contains_external_metadata t || proposal_has_external_metadata proposal;
     tc_contains_tool_output := tc_contains_tool_output t || has_tool_output_label intent;
     tc_contains_untrusted_text := tc_contains_untrusted_text t || has_untrusted_text_label intent |}.

Definition default_allow : EvaluateProposalResponse :=
  {| epr_decision := D_Allow; epr_reason := "no active bundle matched; default allow";
     epr_matched_rule_ids := ["allow.default"]; epr_warnings := [] |}.

(** The engines of the policy decision point never fail. *)
Definition evaluate_proposal_decision (app : App) (intent : IntentEnvelope)
    (proposal : ActionProposal) (trust : TrustContextSummary) : prog EvaluateProposalResponse :=
  let static := pdp_evaluate (app_pdp app) intent proposal trust in
  match cfg_pdp_mode (app_config app) with
  | PM_Static => Ret static
  | PM_Bundles =>
      r <- evaluate_active_policy_bundles intent proposal trust ;; Ret (default default_allow r)
  | PM_Dual =>
      r <- evaluate_active_policy_bundles intent proposal trust ;; Ret (default static r)
  end.

(** [build_profiler] of behavioral.rs: none when anomaly detection is disabled. *)
Definition build_profiler (c : ServerConfig) : option ProfilerConfig :=
  if cfg_behavioral_anomaly_enabled c then
    Some {| pf_window_secs := cfg_behavioral_anomaly_window_secs c;
            pf_warning_threshold := cfg_behavioral_anomaly_warning_threshold c;
            pf_critical_threshold := cfg_behavioral_anomaly_critical_threshold c;
            pf_max_actors := cfg_behavioral_anomaly_max_actors c |}
  else None.

(** [state.profiler.inspect_proposal]: the clock is read and the actors are locked
    only for a target proposal. *)
Definition inspect_proposal (c : ServerConfig) (principal_id : string) (risk : RiskTier)
    (rollback : RollbackClass) : prog (option BehavioralFinding) :=
  match build_profiler c with
  | Some profiler =>
      if is_target risk rollback then
        now <- call op_instant ;;
        call (op_profile profiler principal_id now)
      else Ret None
  | None => Ret None
  end.

Definition severity_name (s : BehavioralSeverity) : string :=
  match s with BS_Warning => "warning" | BS_Critical => "critical" end.

Definition anomaly_meta (f : BehavioralFinding) : json :=
  JObj [("severity", JStr (severity_name (bf_severity f))); ("threshold", JInt (bf_threshold f));
        ("window_count", JInt (bf_window_count f)); ("window_secs", JInt (bf_window_secs f))].

(** Count and audit a finding. *)
Definition report_anomaly (app : App) (proposal_id : ProposalId) (finding : option BehavioralFinding)
  : prog (result unit ApiProblem) :=
  match finding with
  | None => Ret (Ok tt)
  | Some f =>
      _ <- call (op_metric (Met_behavioral_anomaly (bf_severity f))) ;;
      append_audit_checked app "ferrum-gateway" "behavioral_anomaly" "proposal" proposal_id "advisory"
        (Some (anomaly_meta f))
  end.

Definition policy_metadata (decision : Decision) (finding : option BehavioralFinding) : JsonMap :=
  let base := index_insert "reason" (JStr "policy_evaluation")
                (index_insert "decision" (JStr (debug_decision decision)) []) in
  match finding with
  | Some f => index_insert "behavioral_anomaly" (anomaly_meta f) base
  | None => base
  end.

Definition policy_event (event_id : EventId) (now : Timestamp) (proposal : ActionProposal)
    (metadata : JsonMap) : ProvenanceEvent :=
  governed_event event_id PK_PolicyEvaluated now gateway_actor
    {| or_object_type := OT_PolicyBundle; or_object_id := pr_proposal_id proposal;
       or_summary := Some "Policy evaluated for proposal" |}
    (Some (pr_intent_id proposal)) (Some (pr_proposal_id proposal)) metadata.

Definition new_hold (hold_id : string) (now : Timestamp) (timeout : Z) (intent : IntentEnvelope)
    (proposal : ActionProposal) (evaluation : EvaluateProposalResponse) : QuarantineHold :=
  {| qh_hold_id := hold_id; qh_intent_id := in_intent_id intent;
     qh_proposal_id := pr_proposal_id proposal; qh_reason := epr_reason evaluation;
     qh_matched_rule_ids := epr_matched_rule_ids evaluation; qh_policy_bundle_id := None;
     qh_state := QS_Pending; qh_expires_at := (now + seconds timeout)%Z; qh_created_at := now;
     qh_resolved_at := None; qh_resolved_by := None; qh_resolution_reason := None;
     qh_metadata := []; qh_owner_actor_id := pr_owner_actor_id proposal |}.

Definition create_quarantine_hold (app : App) (intent : IntentEnvelope) (proposal : ActionProposal)
    (evaluation : EvaluateProposalResponse) : prog (result unit ApiProblem) :=
  now <- call op_now ;;
  hold_id <- call op_uuid ;;
  let hold := new_hold hold_id now (cfg_quarantine_timeout_seconds (app_config app)) intent proposal
                evaluation in
  r <- call (op_insert_hold hold) ;;
  _ <-? Ret (map_err internal r) ;;
  event_id <- call op_uuid ;;
  r <- append_governance_event
    (governed_event event_id PK_QuarantineHoldCreated now gateway_actor
       {| or_object_type := OT_QuarantineHold; or_object_id := hold_id;
          or_summary := Some "Quarantine hold created for proposal" |}
       (Some (in_intent_id intent)) (Some (pr_proposal_id proposal))
       (index_insert "matched_rule_ids" (JArr (JStr <$> qh_matched_rule_ids hold))
          (index_insert "hold_id" (JStr hold_id) []))) ;;
  Ret (map_err internal r).

(** [proposal.owner_actor_id = o]. *)
Definition pr_set_owner (o : option string) (p : ActionProposal) : ActionProposal :=
  let '(mkActionProposal a b c d e f g h i j k l m _) := p in
  mkActionProposal a b c d e f g h i j k l m o.

(** The intent a proposal is evaluated against. *)
Definition intent_of_proposal (proposal : ActionProposal) : prog (result IntentEnvelope ApiProblem) :=
  r <- call (op_get_intent (pr_intent_id proposal)) ;;
  match r with
  | Ok (Some intent) => Ret (Ok intent)
  | Ok None =>
      intent <- minimal_intent_for (pr_intent_id proposal) (pr_requested_rollback_class proposal) ;;
      Ret (Ok intent)
  | Err e => governance_err GR_ProposalsEvaluate (internal e)
  end.

(** The end of an evaluation: the provenance event, and the hold of a quarantine. *)
Definition record_evaluation (app : App) (intent : IntentEnvelope) (proposal : ActionProposal)
    (out : EvaluateProposalResponse) (anomaly : option BehavioralFinding)
  : prog (result EvaluateProposalResponse ApiProblem) :=
  let route := GR_ProposalsEvaluate in
  event_id <- call op_uuid ;;
  now <- call op_now ;;
  _ <-? checked route (append_governance_event
          (policy_event event_id now proposal (policy_metadata (epr_decision out) anomaly))) ;;
  _ <-? guarded_by route
          (if bool_decide (epr_decision out = D_Quarantine) then
             create_quarantine_hold app intent proposal out
           else Ret (Ok tt)) ;;
  governance_ok route out.

Definition evaluate_proposal (app : App) (proposal : ActionProposal)
  : prog (result EvaluateProposalResponse ApiProblem) :=
  let route := GR_ProposalsEvaluate in
  intent <-? intent_of_proposal proposal ;;
  out <- evaluate_proposal_decision app intent proposal (derived_trust intent proposal) ;;
  let proposal := pr_set_owner (in_owner_actor_id intent) proposal in
  _ <-? checked route (call (op_insert_proposal proposal)) ;;
  anomaly <- inspect_proposal (app_config app) (in_principal_id intent) (pr_estimated_risk proposal)
               (pr_requested_rollback_class proposal) ;;
  _ <-? guarded_by route (report_anomaly app (pr_proposal_id proposal) anomaly) ;;
  record_evaluation app intent proposal out anomaly.
