(* ===== verification/Handlers.v ===== *)
(** * The execution handlers (crates/ferrum-gateway/src/execution)

    authorize.rs, prepare.rs, execute.rs, verify.rs, commit.rs, compensate.rs,
    cancel.rs and evaluate_outcome.rs, each as a program; the longer ones are
    split into their phases, in source order. *)

From S2P Require Import Prelude Json Proto Transitions CapService Store Adapter Effects Pdp.
From S2P Require Import RollbackSvc Validation Provenance CapBackend Lifecycle.

(** [serde_json::json!(map)] of a [JsonMap]: an object with sorted keys. *)
Definition json_of_map (m : JsonMap) : json :=
  JObj (foldl (λ acc kv, btree_insert kv.1 kv.2 acc) [] m).

(** [contract.metadata.insert(k, v)]. *)
Definition rc_insert_metadata (k : string) (v : json) (c : RollbackContract) : RollbackContract :=
  rc_set_metadata (index_insert k v (rc_metadata c)) c.

Section handlers.
Context (app : App).
Abbreviation ext := (app_ext app).

(** ** authorize.rs *)

(** The checks before the single-use transition: owner, binding, scope, approval. *)
Definition authorize_checks (auth_actor : option AuthActor) (request : AuthorizeExecutionRequest)
  : prog (result CapabilityLease ApiProblem) :=
  let route := GR_ExecutionsAuthorize in
  r <- get_capability_for_authorize (app_cap app) (aer_capability_id request) ;;
  lease <-? require route (map_err (λ e, match e with
                                         | CE_NotFound => object_not_found
                                         | _ => from_capability e
                                         end) r) ;;
  now <- call op_now ;;
  _ <-? require route (enforce_object_owner_guard auth_actor (cl_owner_actor_id lease)
          (cfg_auth_mode (app_config app))
          (cfg_legacy_object_compat_allow_until (app_config app)) now) ;;
  if negb (String.eqb (aer_proposal_id request) (cl_proposal_id lease)) then
    governance_err route (Problem FORBIDDEN EC_IntegrityMismatch
      "request proposal_id does not match capability lease proposal_id")
  else
    proposal <-? fetch route (op_get_proposal (aer_proposal_id request))
                   (Problem NOT_FOUND EC_NotFound "proposal not found for capability") ;;
    _ <-? require route (map_err (Problem FORBIDDEN EC_IntegrityMismatch)
                           (validate_capability_proposal_binding lease proposal)) ;;
    intent <-? fetch route (op_get_intent (cl_intent_id lease))
                 (Problem NOT_FOUND EC_NotFound "intent not found for capability") ;;
    fs <- call op_fs ;;
    _ <-? require route (map_err (Problem FORBIDDEN EC_PolicyDenied)
            (validate_resource_bindings_subset_of_scope ext fs (cl_resource_bindings lease)
               (in_resource_scope intent))) ;;
    match cl_approval_binding lease with
    | None => Ret (Ok lease)
    | Some binding =>
        r <- validate_approval_binding_digest ext binding (aer_proposal_id request) ;;
        _ <-? require route r ;;
        Ret (Ok lease)
    end.

(** The execution record and the outbox record of the authorization. *)
Definition authorization_record (execution_id : ExecutionId) (now : Timestamp)
    (request : AuthorizeExecutionRequest) (lease : CapabilityLease) : ExecutionRecord :=
  {| ex_execution_id := execution_id; ex_proposal_id := aer_proposal_id request;
     ex_intent_id := cl_intent_id lease; ex_capability_id := cl_capability_id lease;
     ex_rollback_contract_id := None; ex_decision := D_Allow;
     ex_state := if aer_dry_run request then ES_Authorized else ES_Prepared;
     ex_started_at := now; ex_finished_at := None; ex_result_digest := None; ex_metadata := [];
     ex_owner_actor_id := cl_owner_actor_id lease |}.

Definition authorization_outbox (outbox_id : LifecycleOutboxId) (now : Timestamp)
    (record : ExecutionRecord) : LifecycleOutboxRecord :=
  let r := outbox_pending outbox_id now (ex_execution_id record) None None (ex_state record) None
             None PK_ActionProposalSubmitted ("authorize:" +:+ ex_execution_id record) in
  ob_set_status (ob_status r) (ob_last_error r) (ob_attempt_count r) (ob_updated_at r)
    (index_insert "transition" (JStr "authorize") (ob_metadata r)) r.

(** [authorize_execution]. *)
Definition authorize_execution (auth_actor : option AuthActor) (request : AuthorizeExecutionRequest)
  : prog (result AuthorizeExecutionResponse ApiProblem) :=
  let route := GR_ExecutionsAuthorize in
  lease <-? authorize_checks auth_actor request ;;
  execution_id <- call op_uuid ;;
  started_at <- call op_now ;;
  let record := authorization_record execution_id started_at request lease in
  now <- call op_now ;;
  outbox_id <- call op_uuid ;;
  let outbox := authorization_outbox outbox_id now record in
  r <- call (op_record_authorization lease record outbox) ;;
  match r with
  | Err e => governance_err route (internal e)
  | Ok false =>
      err <- classify_authorization_cas_failure (aer_capability_id request) ;;
      governance_err route (match err with
                            | CE_NotFound => object_not_found
                            | _ => from_capability err
                            end)
  | Ok true =>
      _ <- cb_mark_used (app_cap app) (aer_capability_id request) ;;
      auth_event_id <-? emit route PK_ActionProposalSubmitted
        (object_ref OT_SideEffect (ex_execution_id record) "Execution authorized") record None
        (lifecycle_event_metadata outbox []) ;;
      _ <-? checked route (mark_lifecycle_transition_reconciled outbox auth_event_id) ;;
      governance_ok route {| aes_execution := record; aes_warnings := [] |}
  end.

(** ** prepare.rs *)

(** The guards and the adapter's prepare: the execution as loaded and the
    rollback service's response. *)
Definition prepare_checks (path : string) (auth_actor : option AuthActor)
  : prog (result (ExecutionRecord * RollbackPrepareResponse) ApiProblem) :=
  let route := GR_ExecutionsPrepare in
  execution <-? load_execution app route path auth_actor ;;
  match ex_state execution with
  | ES_Authorized | ES_Prepared =>
      proposal <-? fetch route (op_get_proposal (ex_proposal_id execution))
                     (Problem NOT_FOUND EC_NotFound "proposal not found") ;;
      intent <-? fetch route (op_get_intent (ex_intent_id execution))
                   (Problem NOT_FOUND EC_NotFound "intent not found") ;;
      if is_draft_only (in_approval_mode intent) then
        governance_err route (Problem FORBIDDEN EC_PolicyDenied
          "draft-only intent cannot proceed to prepare")
      else
        r <- build_prepare_request_for_proposal ext (ex_intent_id execution)
               (ex_execution_id execution) (pr_requested_rollback_class proposal) proposal
               (in_resource_scope intent) ;;
        request <-? require route (map_err (Problem BAD_REQUEST EC_ValidationError) r) ;;
        r <- rollback_prepare request ;;
        response <-? require route (map_err internal_text r) ;;
        Ret (Ok (execution, response))
  | s =>
      governance_err route (Problem CONFLICT EC_Conflict
        ("execution in state '" +:+ debug_execution_state s +:+ "' cannot be prepared; only '"
         +:+ debug_execution_state ES_Authorized +:+ "' or '" +:+ debug_execution_state ES_Prepared
         +:+ "' are preparable"))
  end.

(** The two provenance events of a preparation and the closing of its outbox
    record. *)
Definition prepare_events (execution : ExecutionRecord) (contract : RollbackContract)
    (outbox : LifecycleOutboxRecord) : prog (result unit ApiProblem) :=
  let route := GR_ExecutionsPrepare in
  prepare_event_id <-? emit route PK_SideEffectPrepared
    (object_ref OT_RollbackContract (rc_contract_id contract)
       "Execution prepared with rollback contract")
    execution (Some (rc_contract_id contract)) (lifecycle_event_metadata outbox []) ;;
  _ <-? checked route
    (mark_lifecycle_obligation_written outbox PK_SideEffectPrepared prepare_event_id) ;;
  tool_prepared_event_id <-? emit route PK_ToolCallPrepared
    (object_ref OT_SideEffect (ex_execution_id execution) "Tool call prepared for execution")
    execution (Some (rc_contract_id contract)) (lifecycle_event_metadata outbox []) ;;
  _ <-? checked route
    (mark_lifecycle_obligation_written outbox PK_ToolCallPrepared tool_prepared_event_id) ;;
  checked route (mark_reconciled (ob_outbox_id outbox) normal_path).

(** [prepare_execution]. *)
Definition prepare_execution (path : string) (auth_actor : option AuthActor)
  : prog (result PrepareExecutionResponse ApiProblem) :=
  let route := GR_ExecutionsPrepare in
  loaded <-? prepare_checks path auth_actor ;;
  let '(execution, response) := loaded in
  let contract := rps_contract response in
  let updated_execution := ex_set_rollback_contract_id (Some (rc_contract_id contract)) execution in
  outbox <-? checked route
    (record_lifecycle_transition_outbox_with_obligations "prepare" execution updated_execution
       None (Some contract) [PK_SideEffectPrepared; PK_ToolCallPrepared]) ;;
  _ <-? prepare_events execution contract outbox ;;
  governance_ok route
    {| pes_execution_id := ex_execution_id execution; pes_prepared := rps_accepted response;
       pes_rollback_contract := Some contract; pes_warnings := rps_warnings response |}.

(** ** execute.rs *)

(** The state guard of execute. *)
Definition execute_allowed (c : RollbackState) (e : ExecutionState) : bool :=
  match c, e with RbS_Prepared, (ES_Prepared | ES_Authorized | ES_Proposed) => true | _, _ => false end.

(** [contract.execution_id == execution.execution_id && ..]. *)
Definition contract_bound (c : RollbackContract) (e : ExecutionRecord) : bool :=
  String.eqb (rc_execution_id c) (ex_execution_id e)
  && String.eqb (rc_intent_id c) (ex_intent_id e)
  && String.eqb (rc_proposal_id c) (ex_proposal_id e).

(** The payload the adapter gets: the approved arguments, which a payload in the
    request must equal. *)
Definition adapter_payload (payload : json) (proposal : ActionProposal) : result json ApiProblem :=
  if is_null payload then Ok (pr_raw_arguments proposal)
  else if json_eqb payload (pr_raw_arguments proposal) then Ok payload
  else Err (Problem FORBIDDEN EC_PolicyDenied
              "execute payload must exactly match approved proposal arguments").

(** The load of the execution, its intent and its contract, and the guards on them. *)
Definition execute_load (path : string) (auth_actor : option AuthActor)
  : prog (result (ExecutionRecord * RollbackContract) ApiProblem) :=
  let route := GR_ExecutionsExecute in
  execution <-? load_execution app route path auth_actor ;;
  intent <-? fetch route (op_get_intent (ex_intent_id execution))
               (Problem NOT_FOUND EC_NotFound "intent not found") ;;
  if is_draft_only (in_approval_mode intent) then
    governance_err route (Problem FORBIDDEN EC_PolicyDenied
      "draft-only intent cannot proceed to execute")
  else
    contract <-? load_contract route execution ;;
    if negb (execute_allowed (rc_state contract) (ex_state execution)) then
      governance_err route (Problem CONFLICT EC_Conflict
        ("execute not allowed in current state: contract=" +:+ debug_rollback_state (rc_state contract)
         +:+ ", execution=" +:+ debug_execution_state (ex_state execution)))
    else if negb (contract_bound contract execution) then
      governance_err route (Problem FORBIDDEN EC_IntegrityMismatch
        "rollback contract binding does not match execution")
    else if unsafe_compensation (rc_rollback_class contract) (rc_action_type contract) then
      governance_err route (Problem CONFLICT EC_Conflict
        "R2Compensatable executions for HTTP/SQLite mutations are not supported")
    else Ret (Ok (execution, contract)).

(** The capability, payload and lineage checks: the payload for the adapter. *)
Definition execute_authorize (execution : ExecutionRecord) (request_payload : json)
  : prog (result json ApiProblem) :=
  let route := GR_ExecutionsExecute in
  capability <-? fetch route (op_get_capability (ex_capability_id execution))
                   (Problem NOT_FOUND EC_NotFound "capability not found for execution") ;;
  proposal <-? fetch route (op_get_proposal (ex_proposal_id execution))
                 (Problem NOT_FOUND EC_NotFound "proposal not found for execution") ;;
  _ <-? require route (map_err (Problem FORBIDDEN EC_IntegrityMismatch)
                         (validate_capability_proposal_binding capability proposal)) ;;
  payload <-? require route (adapter_payload request_payload proposal) ;;
  _ <-? require route (map_err (Problem FORBIDDEN EC_PolicyDenied)
          (validate_argument_constraints ext payload (cl_argument_constraints capability))) ;;
  r <- validate_minimum_lineage_chain execution ;;
  _ <-? require route (map_err (Problem CONFLICT EC_Conflict) r) ;;
  Ret (Ok payload).

(** The atomic claim of the execution. *)
Definition execute_claim (execution_id : ExecutionId) : prog (result unit ApiProblem) :=
  let route := GR_ExecutionsExecute in
  r <- call (op_cas_state execution_id [ES_Prepared; ES_Authorized; ES_Proposed] ES_Running) ;;
  match r with
  | Ok true => Ret (Ok tt)
  | Ok false =>
      governance_err route (Problem CONFLICT EC_Conflict
        "execute not allowed: execution was already claimed or state changed")
  | Err e => governance_err route (internal e)
  end.

(** After an adapter error: record that recovery is required. *)
Definition execute_recovery (execution : ExecutionRecord) (contract : RollbackContract)
    (payload : json) : prog (result (Z * ExecuteExecutionResponse) ApiProblem) :=
  let route := GR_ExecutionsExecute in
  let updated_contract :=
    rc_insert_metadata "execute_payload" payload
      (rc_insert_metadata "recovery_required" (JBool true) (rc_set_state RbS_RecoveryRequired contract)) in
  let updated_execution := ex_set_state ES_RecoveryRequired execution in
  let previous_execution := ex_set_state ES_Running execution in
  outbox <-? checked route
    (record_lifecycle_transition_outbox_with_obligations "execute-recovery" previous_execution
       updated_execution (Some contract) (Some updated_contract) [PK_ErrorRaised]) ;;
  recovery_event_id <-? emit route PK_ErrorRaised
    (object_ref OT_SideEffect (ex_execution_id execution)
       "Adapter error after Running; recovery required")
    updated_execution (ex_rollback_contract_id updated_execution)
    (lifecycle_event_metadata outbox
       (index_insert "bounded_reason"
          (JStr "adapter reported a recoverable error; execution requires manual review")
          (index_insert "recovery_required" (JBool true) []))) ;;
  _ <-? checked route (mark_lifecycle_transition_reconciled outbox recovery_event_id) ;;
  governance_ok route (ACCEPTED,
    {| ees_execution_id := ex_execution_id execution; ees_executed := false;
       ees_recovery_required := true; ees_result_digest := None;
       ees_rollback_contract := Some updated_contract;
       ees_warnings :=
         ["adapter reported a recoverable error; execution requires manual review"] |}).

(** The target of the contract after the execute receipt. *)
Definition target_after_execute (receipt : ExecuteReceipt) (t : RollbackTarget) : RollbackTarget :=
  match t with
  | RTg_FilePath path before _ => RTg_FilePath path before (exr_result_digest receipt)
  | RTg_HttpRequest method url digest =>
      RTg_HttpRequest method url
        (default digest (smap_get "request_digest" (exr_adapter_metadata receipt) ≫= as_str))
  | _ => t
  end.

Definition contract_after_execute (receipt : ExecuteReceipt) (payload : json)
    (contract : RollbackContract) : RollbackContract :=
  let c := rc_set_target (target_after_execute receipt (rc_target contract))
             (rc_set_state RbS_ExecutedAwaitingVerify contract) in
  rc_insert_metadata "execute_payload" payload
    (rc_set_metadata (merge_metadata (exr_adapter_metadata receipt) (rc_metadata c)) c).

(** After the adapter's success: the execution awaits verification. *)
Definition execute_success (execution : ExecutionRecord) (contract : RollbackContract)
    (payload : json) (receipt : ExecuteReceipt)
  : prog (result (Z * ExecuteExecutionResponse) ApiProblem) :=
  let route := GR_ExecutionsExecute in
  let updated_contract := contract_after_execute receipt payload contract in
  let previous_execution := ex_set_state ES_Running execution in
  let updated_execution :=
    ex_set_result_digest (exr_result_digest receipt) (ex_set_state ES_AwaitingVerification execution) in
  outbox <-? checked route
    (record_lifecycle_transition_outbox "execute" previous_execution updated_execution
       (Some contract) (Some updated_contract) PK_ToolCallExecuted) ;;
  event_id <-? emit route PK_ToolCallExecuted
    (object_ref OT_SideEffect (ex_execution_id execution) "Tool call executed")
    updated_execution (ex_rollback_contract_id updated_execution)
    (lifecycle_event_metadata outbox []) ;;
  _ <-? checked route (mark_lifecycle_transition_reconciled outbox event_id) ;;
  governance_ok route (OK,
    {| ees_execution_id := ex_execution_id execution; ees_executed := true;
       ees_recovery_required := false; ees_result_digest := exr_result_digest receipt;
       ees_rollback_contract := Some updated_contract; ees_warnings := [] |}).

(** [execute_execution]. *)
Definition execute_execution (path : string) (auth_actor : option AuthActor) (payload : json)
  : prog (result (Z * ExecuteExecutionResponse) ApiProblem) :=
  loaded <-? execute_load path auth_actor ;;
  let '(execution, contract) := loaded in
  payload <-? execute_authorize execution payload ;;
  _ <-? execute_claim (ex_execution_id execution) ;;
  adapter_result <- rollback_execute contract payload ;;
  match adapter_result with
  | Err _ => execute_recovery execution contract payload
  | Ok receipt => execute_success execution contract payload receipt
  end.

(** ** verify.rs *)

(** The state guard of verify. *)
Definition verify_allowed (c : RollbackState) (e : ExecutionState) : bool :=
  match c, e with
  | RbS_ExecutedAwaitingVerify, (ES_Running | ES_AwaitingVerification) => true
  | _, _ => false
  end.

Definition rc_set_auto_commit (b : bool) (c : RollbackContract) : RollbackContract :=
  let '(mkRollbackContract a b0 d e f g h i j k l _ n o p q) := c in
  mkRollbackContract a b0 d e f g h i j k l b n o p q.
Definition rc_set_verify_checks (l : list CheckSpec) (c : RollbackContract) : RollbackContract :=
  let '(mkRollbackContract a b0 d e f g h i j _ l0 m n o p q) := c in
  mkRollbackContract a b0 d e f g h i j l l0 m n o p q.

(** The contract verify works with: R3 never auto-commits, and the hash checks
    expect the digest of the execution's result. *)
Definition verify_contract (execution : ExecutionRecord) (contract : RollbackContract)
  : RollbackContract :=
  let c := if is_r3 (rc_rollback_class contract) then rc_set_auto_commit false contract
           else contract in
  match ex_result_digest execution with
  | None => c
  | Some result_digest =>
      let c := rc_set_verify_checks
        ((λ check, match cs_check_type check with
                   | CT_FileHashMatches =>
                       {| cs_check_type := CT_FileHashMatches;
                          cs_config := index_insert "expected_hash" (JStr result_digest)
                                         (cs_config check) |}
                   | _ => check
                   end) <$> rc_verify_checks c) c in
      match rc_target c with
      | RTg_FilePath path before _ => rc_set_target (RTg_FilePath path before (Some result_digest)) c
      | _ => c
      end
  end.

(** The load, the guard and the adapter's verification: the execution, the
    contract as loaded, the contract to persist and the outcome. *)
Definition verify_checks (path : string) (auth_actor : option AuthActor)
  : prog (result (ExecutionRecord * RollbackContract * RollbackContract * VerifyOutcomeReceipt)
            ApiProblem) :=
  let route := GR_ExecutionsVerify in
  execution <-? load_execution app route path auth_actor ;;
  contract <-? load_contract route execution ;;
  if negb (verify_allowed (rc_state contract) (ex_state execution)) then
    governance_err route (Problem CONFLICT EC_Conflict
      ("verify not allowed in current state: contract=" +:+ debug_rollback_state (rc_state contract)
       +:+ ", execution=" +:+ debug_execution_state (ex_state execution)))
  else
    let vc := verify_contract execution contract in
    r <- rollback_verify_with_outcome vc ;;
    receipt <-? require route (map_err internal_text r) ;;
    let updated_contract :=
      rc_insert_metadata "verify_outcome_receipt" (json_of_map (vor_adapter_metadata receipt)) vc in
    Ret (Ok (execution, contract, updated_contract, receipt)).

(** The indeterminate outcome: recovery is required. *)
Definition verify_recovery (execution : ExecutionRecord) (contract updated : RollbackContract)
  : prog (result (Z * VerifyExecutionResponse) ApiProblem) :=
  let route := GR_ExecutionsVerify in
  let updated_contract :=
    rc_insert_metadata "verify_outcome" (JStr "indeterminate")
      (rc_insert_metadata "recovery_required" (JBool true) (rc_set_state RbS_RecoveryRequired updated)) in
  let updated_execution := ex_set_state ES_RecoveryRequired execution in
  outbox <-? checked route
    (record_lifecycle_transition_outbox_with_obligations "verify-recovery" execution
       updated_execution (Some contract) (Some updated_contract) [PK_ErrorRaised]) ;;
  event_id <-? emit route PK_ErrorRaised
    (object_ref OT_RollbackContract (rc_contract_id updated_contract)
       "Verify outcome indeterminate; recovery required")
    updated_execution (Some (rc_contract_id updated_contract))
    (lifecycle_event_metadata outbox
       (index_insert "bounded_reason"
          (JStr "verification outcome is indeterminate; execution requires manual review")
          (index_insert "recovery_required" (JBool true) []))) ;;
  _ <-? checked route (mark_lifecycle_obligation_written outbox PK_ErrorRaised event_id) ;;
  governance_ok route (ACCEPTED,
    {| ves_execution_id := ex_execution_id execution; ves_verified := false;
       ves_recovery_required := true; ves_rollback_contract := Some updated_contract;
       ves_warnings :=
         ["verification outcome is indeterminate; execution requires manual review"] |}).

(** The states after a conclusive outcome. *)
Definition verified_execution (verified : bool) (c : RollbackContract) (e : ExecutionRecord)
  : ExecutionRecord :=
  if verified then if rc_auto_commit c then ex_set_state ES_Committed e else e
  else ex_set_state ES_Failed e.

(** The events of a conclusive verification. *)
Definition verify_events (verified commit : bool) (e : ExecutionRecord) (c : RollbackContract)
    (outbox : LifecycleOutboxRecord) : prog (result unit ApiProblem) :=
  let route := GR_ExecutionsVerify in
  verified_event_id <-? emit route PK_SideEffectVerified
    (object_ref OT_RollbackContract (rc_contract_id c) "Side effect verified")
    e (Some (rc_contract_id c))
    (lifecycle_event_metadata outbox (index_insert "verified" (JBool verified) [])) ;;
  _ <-? checked route (mark_lifecycle_obligation_written outbox PK_SideEffectVerified verified_event_id) ;;
  if negb commit then checked route (mark_reconciled (ob_outbox_id outbox) normal_path)
  else
    committed_event_id <-? emit route PK_SideEffectCommitted
      (object_ref OT_RollbackContract (rc_contract_id c) "Side effect committed")
      e (Some (rc_contract_id c)) (lifecycle_event_metadata outbox []) ;;
    _ <-? checked route
      (mark_lifecycle_obligation_written outbox PK_SideEffectCommitted committed_event_id) ;;
    checked route (mark_reconciled (ob_outbox_id outbox) normal_path).

(** A conclusive outcome: verified or failed. *)
Definition verify_conclude (verified : bool) (execution : ExecutionRecord)
    (contract updated : RollbackContract) : prog (result (Z * VerifyExecutionResponse) ApiProblem) :=
  let route := GR_ExecutionsVerify in
  let updated_contract := rc_set_state (if verified then RbS_Verified else RbS_Failed) updated in
  let updated_execution := verified_execution verified updated_contract execution in
  let commit := verified && rc_auto_commit updated_contract in
  outbox <-? checked route
    (record_lifecycle_transition_outbox_with_obligations "verify" execution updated_execution
       (Some contract) (Some updated_contract)
       (if commit then [PK_SideEffectVerified; PK_SideEffectCommitted] else [PK_SideEffectVerified])) ;;
  _ <-? verify_events verified commit updated_execution updated_contract outbox ;;
  governance_ok route (OK,
    {| ves_execution_id := ex_execution_id execution; ves_verified := verified;
       ves_recovery_required := false; ves_rollback_contract := Some updated_contract;
       ves_warnings := [] |}).

(** [verify_execution]. *)
Definition verify_execution (path : string) (auth_actor : option AuthActor)
  : prog (result (Z * VerifyExecutionResponse) ApiProblem) :=
  loaded <-? verify_checks path auth_actor ;;
  let '(execution, contract, updated, receipt) := loaded in
  match vor_outcome receipt with
  | VO_Applied => verify_conclude true execution contract updated
  | VO_NotApplied => verify_conclude false execution contract updated
  | VO_Indeterminate => verify_recovery execution contract updated
  end.

(** ** commit.rs *)

Definition commit_checks (path : string) (auth_actor : option AuthActor)
  : prog (result (ExecutionRecord * RollbackContract) ApiProblem) :=
  let route := GR_ExecutionsCommit in
  execution <-? load_execution app route path auth_actor ;;
  if execution_is_terminal_for_commit (ex_state execution) then
    governance_err route (Problem CONFLICT EC_Conflict
      ("commit not allowed: execution is already in terminal state "
       +:+ debug_execution_state (ex_state execution)))
  else
    contract <-? load_contract route execution ;;
    if negb (bool_decide (rc_state contract = RbS_Verified)) then
      governance_err route (Problem CONFLICT EC_Conflict
        ("commit not allowed: rollback contract is in state "
         +:+ debug_rollback_state (rc_state contract) +:+ ", expected Verified"))
    else if rc_auto_commit contract then
      governance_err route (Problem CONFLICT EC_Conflict
        "commit not allowed: contract was prepared with auto_commit=true (execution was already auto-committed by verify)")
    else
      verified_events <-? checked route (call (op_query
        {| pq_intent_id := None; pq_execution_id := Some (ex_execution_id execution);
           pq_capability_id := None; pq_event_kind := Some PK_SideEffectVerified;
           pq_since := None; pq_until := None; pq_edge_types := [] |})) ;;
      if is_empty verified_events then
        governance_err route (Problem CONFLICT EC_Conflict
          "commit not allowed: no SideEffectVerified provenance event found")
      else Ret (Ok (execution, contract)).

(** [commit_execution]. *)
Definition commit_execution (path : string) (auth_actor : option AuthActor)
  : prog (result CommitExecutionResponse ApiProblem) :=
  let route := GR_ExecutionsCommit in
  loaded <-? commit_checks path auth_actor ;;
  let '(execution, contract) := loaded in
  let updated_contract := rc_set_state RbS_Committed contract in
  let updated_execution := ex_set_state ES_Committed execution in
  outbox <-? checked route
    (record_lifecycle_transition_outbox "commit" execution updated_execution (Some contract)
       (Some updated_contract) PK_SideEffectCommitted) ;;
  event_id <-? emit route PK_SideEffectCommitted
    (object_ref OT_RollbackContract (rc_contract_id updated_contract) "Side effect committed")
    updated_execution (Some (rc_contract_id updated_contract)) (lifecycle_event_metadata outbox []) ;;
  _ <-? checked route (mark_lifecycle_transition_reconciled outbox event_id) ;;
  governance_ok route
    {| cms_execution_id := ex_execution_id execution; cms_committed := true;
       cms_rollback_contract := Some updated_contract; cms_warnings := [] |}.

(** ** compensate.rs *)

(** The state guard of compensate. *)
Definition compensate_allowed (c : RollbackState) (e : ExecutionState) : bool :=
  match c, e with
  | RbS_ExecutedAwaitingVerify, (ES_Running | ES_AwaitingVerification) => true
  | RbS_RecoveryRequired, ES_RecoveryRequired => true
  | _, _ => false
  end.

(** The load, the guard and the adapter's compensation. *)
Definition compensate_checks (path : string) (auth_actor : option AuthActor)
  : prog (result (ExecutionRecord * RollbackContract * RecoveryReceipt) ApiProblem) :=
  let route := GR_ExecutionsCompensate in
  execution <-? load_execution app route path auth_actor ;;
  contract <-? load_contract route execution ;;
  if negb (compensate_allowed (rc_state contract) (ex_state execution)) then
    governance_err route (Problem CONFLICT EC_Conflict
      ("compensate not allowed in current state: contract="
       +:+ debug_rollback_state (rc_state contract) +:+ ", execution="
       +:+ debug_execution_state (ex_state execution)))
  else
    let contract := enrich_http_compensation_if_needed contract in
    r <- rollback_compensate contract ;;
    receipt <-? require route (map_err internal_text r) ;;
    Ret (Ok (execution, contract, receipt)).

Definition from_recovery (c : RollbackContract) (e : ExecutionRecord) : bool :=
  match rc_state c, ex_state e with RbS_RecoveryRequired, ES_RecoveryRequired => true | _, _ => false end.

(** The contract after a compensation attempt. *)
Definition compensated_contract (receipt : RecoveryReceipt) (from_recovery : bool)
    (contract : RollbackContract) : RollbackContract :=
  let incomplete := negb (rr_recovered receipt) in
  let c := rc_set_state (if incomplete then if from_recovery then RbS_RecoveryRequired else RbS_Failed
                         else RbS_Compensated) contract in
  let c := rc_insert_metadata "recovery_action" (JStr "compensate")
             (rc_insert_metadata "recovered" (JBool (rr_recovered receipt)) c) in
  let c := if incomplete then
             let c := rc_insert_metadata "recovery_incomplete" (JBool true) c in
             if from_recovery then rc_insert_metadata "recovery_required" (JBool true) c else c
           else c in
  if is_empty (rr_adapter_metadata receipt) then c
  else rc_insert_metadata "recovery_adapter_metadata" (json_of_map (rr_adapter_metadata receipt)) c.

(** The metadata of the event of a compensation attempt. *)
Definition compensation_event_metadata (receipt : RecoveryReceipt) (from_recovery : bool) : JsonMap :=
  let incomplete := negb (rr_recovered receipt) in
  let m := index_insert "recovery_action" (JStr "compensate")
             (index_insert "recovered" (JBool (rr_recovered receipt)) []) in
  let m := if incomplete then
             index_insert "recovery_state" (JStr "incomplete")
               (index_insert "recovery_incomplete" (JBool true) m)
           else m in
  let m := if negb incomplete && from_recovery then
             index_insert "lineage_parent_optional" (JBool true) m else m in
  if is_empty (rr_adapter_metadata receipt) then m
  else index_insert "recovery_adapter_metadata" (json_of_map (rr_adapter_metadata receipt)) m.

(** The transition after the adapter's compensation, its event and response. *)
Definition compensate_conclude (execution : ExecutionRecord) (contract : RollbackContract)
    (receipt : RecoveryReceipt) : prog (result (Z * CompensateExecutionResponse) ApiProblem) :=
  let route := GR_ExecutionsCompensate in
  let incomplete := negb (rr_recovered receipt) in
  let from_recovery := from_recovery contract execution in
  let updated_contract := compensated_contract receipt from_recovery contract in
  finished_at <- call op_now ;;
  let updated_execution :=
    ex_set_finished_at (Some finished_at)
      (ex_set_state (if incomplete then if from_recovery then ES_RecoveryRequired else ES_Failed
                     else ES_Compensated) execution) in
  let terminal_kind := if incomplete then PK_ErrorRaised else PK_SideEffectCompensated in
  outbox <-? checked route
    (record_lifecycle_transition_outbox "compensate" execution updated_execution (Some contract)
       (Some updated_contract) terminal_kind) ;;
  event_id <-? emit route terminal_kind
    (object_ref OT_RollbackContract (rc_contract_id updated_contract)
       (if incomplete then "Recovery incomplete after compensation" else "Execution compensated"))
    updated_execution (Some (rc_contract_id updated_contract))
    (compensation_event_metadata receipt from_recovery) ;;
  _ <-? checked route (mark_lifecycle_transition_reconciled outbox event_id) ;;
  governance_ok route (if incomplete && from_recovery then ACCEPTED else OK,
    {| ces_execution_id := ex_execution_id execution; ces_compensated := negb incomplete;
       ces_recovery_required := incomplete && from_recovery;
       ces_rollback_contract := Some updated_contract;
       ces_warnings :=
         if incomplete then
           if from_recovery then
             ["recovery-required: compensation adapter did not report recovered=true; execution remains in recovery"]
           else ["recovery-incomplete: compensation adapter did not report recovered=true"]
         else [] |}).

(** [compensate_execution]. *)
Definition compensate_execution (path : string) (auth_actor : option AuthActor)
  : prog (result (Z * CompensateExecutionResponse) ApiProblem) :=
  loaded <-? compensate_checks path auth_actor ;;
  let '(execution, contract, receipt) := loaded in
  compensate_conclude execution contract receipt.

(** ** cancel.rs *)

(** [cancel_execution]. *)
Definition cancel_execution (path : string) (auth_actor : option AuthActor)
  : prog (result CancelExecutionResponse ApiProblem) :=
  let route := GR_ExecutionsCancel in
  execution <-? load_execution app route path auth_actor ;;
  let previous_state := ex_state execution in
  if negb (execution_is_cancelable_pre_side_effect previous_state) then
    governance_err route (Problem CONFLICT EC_Conflict
      "cancel not allowed: execution is not in a cancelable pre-side-effect state")
  else
    finished_at <- call op_now ;;
    let updated_execution := ex_set_finished_at (Some finished_at) (ex_set_state ES_Canceled execution) in
    outbox <-? checked route
      (record_lifecycle_transition_outbox "cancel" execution updated_execution None None
         PK_SideEffectRolledBack) ;;
    r <- append_audit_checked app "gateway" "execution_cancel" "execution"
           (ex_execution_id execution) "success"
           (Some (JObj [("previous_state", JStr (debug_execution_state previous_state))])) ;;
    _ <-? require route r ;;
    event_id <-? emit route PK_SideEffectRolledBack
      (object_ref OT_SideEffect (ex_execution_id execution) "Execution canceled")
      updated_execution (ex_rollback_contract_id updated_execution)
      (index_insert "lineage_parent_optional" (JBool true)
         (index_insert "previous_state" (JStr (debug_execution_state previous_state)) [])) ;;
    _ <-? checked route (mark_lifecycle_transition_reconciled outbox event_id) ;;
    _ <- call (op_metric (Met_success route)) ;;
    canceled_at <- call op_now ;;
    Ret (Ok {| cer_execution_id := ex_execution_id execution; cer_previous_state := previous_state;
               cer_current_state := ES_Canceled; cer_canceled_at := canceled_at |}).

(** ** evaluate_outcome.rs *)

(** [evaluate_outcome]. *)
Definition evaluate_outcome (path : string) (auth_actor : option AuthActor) (report : OutcomeReport)
  : prog (result EvaluateOutcomeResponse ApiProblem) :=
  let route := GR_ExecutionsEvaluateOutcome in
  execution_id <-? require route (parse_execution_id ext path) ;;
  if negb (String.eqb (orp_execution_id report) execution_id) then
    governance_err route (Problem BAD_REQUEST EC_ValidationError
      "execution_id in path does not match report")
  else
    execution <-? load_execution app route path auth_actor ;;
    intent <-? fetch route (op_get_intent (ex_intent_id execution))
                 (Problem NOT_FOUND EC_NotFound "intent not found for execution") ;;
    governance_ok route (pdp_evaluate_outcome (app_pdp app) intent report).

End handlers.
