(* ===== verification/Background.v ===== *)
(** * The background tasks of the gateway

    ha_reconciler.rs (stale in-flight executions after a crash) and the approval
    part of timeout_reconciler.rs, one pass each; the loops around them only wait
    for a timer and start the next pass. *)

From S2P Require Import Prelude Json Proto Transitions CapService Store Adapter Effects Pdp.
From S2P Require Import RollbackSvc Validation Provenance CapBackend Lifecycle Handlers.

(** ** ha_reconciler.rs *)

Definition PRE_SIDE_EFFECT_STATES : list ExecutionState :=
  [ES_Proposed; ES_Authorized; ES_Prepared; ES_AwaitingApproval].

Definition target_state_for (state : ExecutionState) : option ExecutionState :=
  if bool_decide (state ∈ PRE_SIDE_EFFECT_STATES) then Some ES_Canceled else None.

(** [chrono::Duration::num_seconds]: whole seconds, rounded towards zero. *)
Definition num_seconds (nanos : Z) : Z := Z.quot nanos (seconds 1).

(** The event of a cancellation; a failed append is counted, not reported. *)
Definition emit_ha_reconciler_provenance (execution : ExecutionRecord) (new_state : ExecutionState)
    (occurred_at : Timestamp) : prog unit :=
  event_id <- call op_uuid ;;
  r <- append_governance_event
    (gateway_event event_id PK_ErrorRaised occurred_at
       (object_ref OT_SideEffect (ex_execution_id execution)
          ("HA reconciler transitioned execution from " +:+ debug_execution_state (ex_state execution)
           +:+ " to " +:+ debug_execution_state new_state))
       execution (ex_rollback_contract_id execution)
       (index_insert "stale_for_secs" (JInt (num_seconds (occurred_at - ex_started_at execution)))
          (index_insert "new_state" (JStr (debug_execution_state new_state))
             (index_insert "previous_state" (JStr (debug_execution_state (ex_state execution)))
                (index_insert "reconciler" (JStr "ha") []))))) ;;
  match r with
  | Ok _ => Ret tt
  | Err _ => call (op_metric_add Met_ha_reconciler_errors 1)
  end.

(** The actor of the recovery events. *)
Definition ha_actor : ActorRef :=
  {| ar_actor_type := AT_Gateway; ar_actor_id := "ferrum-gateway";
     ar_display_name := Some "FerrumGate Gateway HA reconciler" |}.

Definition ev_set_actor (a : ActorRef) (e : ProvenanceEvent) : ProvenanceEvent :=
  {| ev_event_id := ev_event_id e; ev_kind := ev_kind e; ev_occurred_at := ev_occurred_at e;
     ev_actor := a; ev_object := ev_object e; ev_intent_id := ev_intent_id e;
     ev_proposal_id := ev_proposal_id e; ev_execution_id := ev_execution_id e;
     ev_capability_id := ev_capability_id e; ev_rollback_contract_id := ev_rollback_contract_id e;
     ev_policy_bundle_id := ev_policy_bundle_id e; ev_trust_labels := ev_trust_labels e;
     ev_sensitivity_labels := ev_sensitivity_labels e; ev_parent_edges := ev_parent_edges e;
     ev_hash_chain := ev_hash_chain e; ev_metadata := ev_metadata e;
     ev_source_runtime_id := ev_source_runtime_id e |}.

(** The recovery of a running execution whose contract is still prepared. *)
Definition ha_recover (execution : ExecutionRecord) (contract : RollbackContract)
    (occurred_at : Timestamp) : prog (result bool StoreError) :=
  let updated_execution := ex_set_state ES_RecoveryRequired execution in
  let updated_contract :=
    rc_insert_metadata "ha_reconciler" (JBool true)
      (rc_insert_metadata "recovery_required" (JBool true) (rc_set_state RbS_RecoveryRequired contract)) in
  outbox <-? record_lifecycle_transition_outbox_with_obligations "ha-recovery" execution
    updated_execution (Some contract) (Some updated_contract) [PK_ErrorRaised] ;;
  event_id <- call op_uuid ;;
  _ <-? append_governance_event
    (ev_set_actor ha_actor
       (gateway_event event_id PK_ErrorRaised occurred_at
          (object_ref OT_SideEffect (ex_execution_id execution)
             "HA reconciler detected stale Running+Prepared pair; recovery required")
          execution (ex_rollback_contract_id execution)
          (lifecycle_event_metadata outbox
             (index_insert "bounded_reason"
                (JStr "stale Running+Prepared pair detected after restart; recovery required")
                (index_insert "ha_reconciler" (JBool true)
                   (index_insert "recovery_required" (JBool true) [])))))) ;;
  _ <-? mark_lifecycle_transition_reconciled outbox event_id ;;
  Ret (Ok true).

Definition reconcile_running_prepared_pair (execution : ExecutionRecord) (occurred_at : Timestamp)
  : prog (result bool StoreError) :=
  match ex_rollback_contract_id execution with
  | None => Ret (Ok false)
  | Some contract_id =>
      contract <-? call (op_get_contract contract_id) ;;
      match contract with
      | None => Ret (Ok false)
      | Some contract =>
          if bool_decide (rc_state contract = RbS_Prepared) then ha_recover execution contract occurred_at
          else Ret (Ok false)
      end
  end.

(** The counters of a pass: canceled, recovery required, errors. *)
Record HaReport := mkHaReport { ha_canceled : nat; ha_recovery_required : nat; ha_errors : nat }.

(** One stale execution. *)
Definition ha_reconcile_one (now : Timestamp) (report : HaReport) (execution : ExecutionRecord)
  : prog HaReport :=
  let '(mkHaReport c r e) := report in
  if bool_decide (ex_state execution = ES_Running) then
    res <- reconcile_running_prepared_pair execution now ;;
    Ret (match res with
         | Ok true => mkHaReport c (S r) e
         | Ok false => report
         | Err _ => mkHaReport c r (S e)
         end)
  else match target_state_for (ex_state execution) with
  | None => Ret report
  | Some target_state =>
      res <- call (op_cas_state (ex_execution_id execution) [ex_state execution] target_state) ;;
      match res with
      | Ok true =>
          _ <- emit_ha_reconciler_provenance execution target_state now ;;
          Ret (if bool_decide (target_state = ES_Canceled) then mkHaReport (S c) r e else report)
      | Ok false => Ret report
      | Err _ => Ret (mkHaReport c r (S e))
      end
  end.

Fixpoint ha_reconcile_all (now : Timestamp) (report : HaReport) (executions : list ExecutionRecord)
  : prog HaReport :=
  match executions with
  | [] => Ret report
  | e :: rest => report' <- ha_reconcile_one now report e ;; ha_reconcile_all now report' rest
  end.

(** [if n > 0 { counter.fetch_add(n) }]. *)
Definition add_if_positive (m : Metric) (n : nat) : prog unit :=
  match n with O => Ret tt | _ => call (op_metric_add m n) end.

Definition run_ha_reconciler_pass (app : App) : prog HaReport :=
  now <- call op_now ;;
  let stale_before := (now - seconds (cfg_ha_reconciler_stale_threshold_secs (app_config app)))%Z in
  r <- call (op_list_stale stale_before (PRE_SIDE_EFFECT_STATES ++ [ES_Running])
               (cfg_ha_reconciler_batch_size (app_config app))) ;;
  match r with
  | Err _ =>
      _ <- call (op_metric_add Met_ha_reconciler_errors 1) ;;
      Ret (mkHaReport 0 0 1)
  | Ok executions =>
      report <- ha_reconcile_all now (mkHaReport 0 0 0) executions ;;
      _ <- add_if_positive Met_ha_reconciler_canceled (ha_canceled report) ;;
      _ <- add_if_positive Met_ha_reconciler_recovery_required (ha_recovery_required report) ;;
      _ <- add_if_positive Met_ha_reconciler_errors (ha_errors report) ;;
      Ret report
  end.

(** ** approvals.rs of the store: the methods of several statements *)

(** [resolve_approval_sqlite]. *)
Definition resolve_approval (approval_id : ApprovalId) (state : ApprovalState) (now : Timestamp)
  : prog (result bool StoreError) :=
  approval <-? call (op_get_approval approval_id) ;;
  match approval with
  | None => Ret (Ok false)
  | Some approval =>
      match state with
      | AS_Granted | AS_Denied =>
          if negb (bool_decide (ap_state approval = AS_Pending)) then Ret (Ok false)
          else
            call (op_resolve_approval
                    (ap_set_resolver_evidence_version (Some CURRENT_RESOLVER_EVIDENCE_VERSION)
                       (ap_set_state state approval)) approval_id now)
      | _ =>
          Ret (Err (SE_InvalidState ("invalid approval resolve target "
                 +:+ debug_approval_state state +:+ ": must be Granted or Denied")))
      end
  end.

(** The updates of [expire_stale_pending_sqlite]. *)
Fixpoint expire_rows (rows : list (string * ApprovalRequest)) (expired : list ApprovalRequest)
  : prog (result (list ApprovalRequest) StoreError) :=
  match rows with
  | [] => Ret (Ok expired)
  | (id, approval) :: rest =>
      let approval := ap_set_state AS_Expired approval in
      updated <-? call (op_expire_approval approval id) ;;
      expire_rows rest (if updated : bool then expired ++ [approval] else expired)
  end.

Definition expire_stale_pending (now : Timestamp) (max_age_seconds : Z) (batch_size : nat)
  : prog (result (list ApprovalRequest) StoreError) :=
  rows <-? call (op_select_stale now max_age_seconds batch_size) ;;
  expire_rows rows [].

(** ** timeout_reconciler.rs: approvals *)

Definition APPROVAL_TIMEOUT_BATCH_SIZE : nat := 100.

(** A failed append is only logged. *)
Definition emit_approval_timed_out_provenance (approval : ApprovalRequest) : prog unit :=
  event_id <- call op_uuid ;;
  now <- call op_now ;;
  let event :=
    {| ev_event_id := event_id; ev_kind := PK_ApprovalTimedOut; ev_occurred_at := now;
       ev_actor := gateway_actor;
       ev_object := object_ref OT_Approval (ap_approval_id approval)
                      "Approval timed out and was transitioned to Expired";
       ev_intent_id := Some (ap_intent_id approval); ev_proposal_id := Some (ap_proposal_id approval);
       ev_execution_id := ap_execution_id approval; ev_capability_id := None;
       ev_rollback_contract_id := None; ev_policy_bundle_id := None; ev_trust_labels := [];
       ev_sensitivity_labels := []; ev_parent_edges := []; ev_hash_chain := no_hashes;
       ev_metadata := index_insert "previous_state" (JStr (debug_approval_state (ap_state approval)))
                        (index_insert "approval_id" (JStr (ap_approval_id approval)) []);
       ev_source_runtime_id := None |} in
  _ <- call (op_append_event event []) ;;
  Ret tt.

Fixpoint announce_expired (expired : list ApprovalRequest) : prog unit :=
  match expired with
  | [] => Ret tt
  | a :: rest =>
      _ <- call (op_metric_add Met_approval_timeouts 1) ;;
      _ <- emit_approval_timed_out_provenance a ;;
      announce_expired rest
  end.

Definition reconcile_approval_timeouts_once (app : App) (now : Timestamp)
  : prog (list ApprovalRequest) :=
  r <- expire_stale_pending now (cfg_approval_timeout_seconds (app_config app))
         APPROVAL_TIMEOUT_BATCH_SIZE ;;
  match r with
  | Ok expired => _ <- announce_expired expired ;; Ret expired
  | Err _ => Ret []
  end.

(** A pass of the timer's loop. *)
Definition approval_timeout_pass (app : App) : prog (list ApprovalRequest) :=
  now <- call op_now ;; reconcile_approval_timeouts_once app now.
