(* ===== verification/Quarantine.v ===== *)
(** * Quarantine holds and approvals (crates/ferrum-gateway/src: quarantine.rs,
    approval.rs and the quarantine part of timeout_reconciler.rs; the methods of
    several statements of crates/ferrum-store/src/sqlite/quarantine.rs)

    The handlers through which an operator lists, reads and resolves what waits for a
    human decision. *)

From Stdlib Require Import Ascii.
From stdpp Require Import pretty.
From S2P Require Import Prelude Json Proto Admin Store Effects Validation Provenance Lifecycle Mfa.
From S2P Require Import Capabilities Proposals Background.

Definition DEFAULT_LIMIT : nat := 50.
Definition MAX_LIMIT : nat := 100.

(** [ListParams] and [PaginationParams]; a hold listing has no cursor. *)
Record PageParams := {
  pp_limit : option nat;
  pp_offset : option nat;
  pp_proposal_id : option string;
  pp_cursor : option string;
}.

(** [limit()]. *)
Definition page_limit (p : PageParams) : result nat ApiProblem :=
  match pp_limit p with
  | Some l =>
      if MAX_LIMIT <? l then
        Err (Problem BAD_REQUEST EC_ValidationError "limit exceeds maximum of 100")
      else Ok l
  | None => Ok DEFAULT_LIMIT
  end.

(** [offset()]. *)
Definition page_offset (p : PageParams) : nat := default 0 (pp_offset p).

Definition parse_or (ext : Ext) (msg value : string) : result string ApiProblem :=
  match ext_parse_uuid ext value with
  | Some id => Ok id
  | None => Err (Problem BAD_REQUEST EC_ValidationError msg)
  end.

Definition parse_hold_id (ext : Ext) : string → result string ApiProblem :=
  parse_or ext "path id is not a valid quarantine hold uuid".
Definition parse_proposal_id (ext : Ext) : string → result ProposalId ApiProblem :=
  parse_or ext "proposal_id is not a valid uuid".
Definition parse_approval_id (ext : Ext) : string → result ApprovalId ApiProblem :=
  parse_or ext "path id is not a valid approval uuid".

(** The cursor of a full page of holds: the next offset, in 32 bits. *)
Definition hold_cursor (items : list QuarantineHold) (limit offset : nat) : option string :=
  if length items =? limit then Some (pretty (u32_of (Z.of_nat (offset + limit)))) else None.

Definition list_quarantine_holds (app : App) (params : PageParams)
  : prog (result (list QuarantineHold * option string) ApiProblem) :=
  let route := GR_Quarantines in
  limit <-? require route (page_limit params) ;;
  let offset := page_offset params in
  match pp_proposal_id params with
  | Some proposal_id =>
      id <-? require route (parse_proposal_id (app_ext app) proposal_id) ;;
      hold <-? checked route (call (op_hold_of_proposal id)) ;;
      governance_ok route (option_list hold, None)
  | None =>
      items <-? checked route (call (op_list_pending_holds limit offset)) ;;
      governance_ok route (items, hold_cursor items limit offset)
  end.

Definition hold_missing : ApiProblem := Problem NOT_FOUND EC_NotFound "quarantine hold not found".

Definition get_quarantine_hold (app : App) (hold_id : string)
  : prog (result QuarantineHold ApiProblem) :=
  let route := GR_QuarantinesHoldId in
  id <-? require route (parse_hold_id (app_ext app) hold_id) ;;
  hold <-? fetch route (op_get_hold id) hold_missing ;;
  governance_ok route hold.

(** ** Resolving a hold *)

(** The request may not name another actor than the authenticated one. *)
Definition actor_matches (auth_actor : option AuthActor) (claimed : ActorRef) : result unit ApiProblem :=
  match auth_actor with
  | Some a =>
      if negb (str_is_empty (ar_actor_id claimed)) && negb (String.eqb (ar_actor_id claimed) (aa_actor_id a))
      then Err (Problem FORBIDDEN EC_Forbidden "request actor does not match authenticated actor")
      else Ok tt
  | None => Ok tt
  end.

(** The actor a resolution of a hold is attributed to. *)
Definition effective_actor (auth_actor : option AuthActor) (claimed : ActorRef) : ActorRef :=
  match auth_actor with
  | Some a =>
      {| ar_actor_type := if String.eqb (aa_source a) "agent" then AT_Agent else AT_Operator;
         ar_actor_id := aa_actor_id a; ar_display_name := None |}
  | None => claimed
  end.

(** The identity alone, for approvals. *)
Definition effective_actor_id (auth_actor : option AuthActor) (claimed : ActorRef) : string :=
  match auth_actor with Some a => aa_actor_id a | None => ar_actor_id claimed end.

Definition debug_hold_state (s : QuarantineHoldState) : string :=
  match s with
  | QS_Pending => "Pending" | QS_Allowed => "Allowed" | QS_Denied => "Denied" | QS_Expired => "Expired"
  end.

(** The hold after its resolution. *)
Definition resolved_hold (allow : bool) (actor : ActorRef) (reason : option string)
    (resolved_at : Timestamp) (h : QuarantineHold) : QuarantineHold :=
  {| qh_hold_id := qh_hold_id h; qh_intent_id := qh_intent_id h; qh_proposal_id := qh_proposal_id h;
     qh_reason := qh_reason h; qh_matched_rule_ids := qh_matched_rule_ids h;
     qh_policy_bundle_id := qh_policy_bundle_id h;
     qh_state := if allow then QS_Allowed else QS_Denied; qh_expires_at := qh_expires_at h;
     qh_created_at := qh_created_at h; qh_resolved_at := Some resolved_at;
     qh_resolved_by := Some actor; qh_resolution_reason := reason; qh_metadata := qh_metadata h;
     qh_owner_actor_id := qh_owner_actor_id h |}.

(** [SqliteQuarantineHoldRepo::resolve]. *)
Definition resolve_hold (hold_id : string) (allow : bool) (actor : ActorRef) (reason : option string)
    (resolved_at : Timestamp) : prog (result bool StoreError) :=
  hold <-? call (op_get_hold hold_id) ;;
  match hold with
  | None => Ret (Ok false)
  | Some hold =>
      if negb (bool_decide (qh_state hold = QS_Pending)) then Ret (Ok false)
      else call (op_update_pending_hold (resolved_hold allow actor reason resolved_at hold) hold_id)
  end.

Definition opt_json (s : option string) : json := match s with Some s => JStr s | None => JNull end.

Definition resolve_metadata (key : string) (decided : bool) (reason : option string) : json :=
  JObj [(key, JBool decided); ("reason", opt_json reason)].

Definition with_reason (reason : option string) (m : JsonMap) : JsonMap :=
  match reason with Some r => index_insert "reason" (JStr r) m | None => m end.

(** Second factor, when the configuration asks for it. *)
Definition second_factor (app : App) (check : prog (result unit ApiProblem))
  : prog (result unit ApiProblem) :=
  if cfg_approval_mfa_required (app_config app) then check else Ret (Ok tt).

(** The end of a resolution: the audit entry, the stored hold, the provenance event. *)
Definition record_hold_resolution (app : App) (id : string) (actor : ActorRef)
    (request : QuarantineResolveRequest) (hold : QuarantineHold) : prog (result QuarantineHold ApiProblem) :=
  let route := GR_QuarantinesResolve in
  _ <-? guarded_by route
    (append_audit_checked app (ar_actor_id actor) "quarantine_resolve" "quarantine_hold" id "success"
       (Some (resolve_metadata "allowed" (qr_allow request) (qr_reason request)))) ;;
  updated_hold <-? fetch route (op_get_hold id)
    (Problem NOT_FOUND EC_NotFound "quarantine hold not found after resolve") ;;
  event_id <- call op_uuid ;;
  now <- call op_now ;;
  _ <-? checked route (append_governance_event
    (governed_event event_id PK_QuarantineResolved now actor
       {| or_object_type := OT_QuarantineHold; or_object_id := id;
          or_summary := Some ("Quarantine hold " +:+ (if qr_allow request then "allowed" else "denied")
                              +:+ " for proposal") |}
       (Some (qh_intent_id hold)) (Some (qh_proposal_id hold))
       (with_reason (qr_reason request)
          (index_insert "allowed" (JBool (qr_allow request))
             (index_insert "actor_id" (JStr (ar_actor_id actor)) []))))) ;;
  governance_ok route updated_hold.

Definition resolve_quarantine_hold (app : App) (auth_actor : option AuthActor) (hold_id : string)
    (request : QuarantineResolveRequest) : prog (result QuarantineHold ApiProblem) :=
  let route := GR_QuarantinesResolve in
  id <-? require route (parse_hold_id (app_ext app) hold_id) ;;
  _ <-? require route (actor_matches auth_actor (qr_actor request)) ;;
  let actor := effective_actor auth_actor (qr_actor request) in
  _ <-? guarded_by route (second_factor app
          (verify_mfa_factor app (qr_mfa_factor request) (ar_actor_id actor))) ;;
  hold <-? fetch route (op_get_hold id) hold_missing ;;
  if negb (bool_decide (qh_state hold = QS_Pending)) then
    governance_err route (Problem CONFLICT EC_Conflict
      ("quarantine hold is in terminal state " +:+ debug_hold_state (qh_state hold)
       +:+ ", cannot resolve"))
  else
    now <- call op_now ;;
    if (qh_expires_at hold <? now)%Z then
      governance_err route (Problem FORBIDDEN EC_PolicyDenied "quarantine hold has expired, cannot resolve")
    else
      resolved_at <- call op_now ;;
      updated <-? checked route (resolve_hold id (qr_allow request) actor (qr_reason request) resolved_at) ;;
      if negb updated then
        governance_err route (Problem CONFLICT EC_Conflict "quarantine hold was already resolved")
      else
        record_hold_resolution app id actor request hold.

(** ** Timeouts of holds *)

Definition QUARANTINE_TIMEOUT_BATCH_SIZE : nat := 100.

(** [hold.state = s]. *)
Definition qh_set_state (s : QuarantineHoldState) (h : QuarantineHold) : QuarantineHold :=
  {| qh_hold_id := qh_hold_id h; qh_intent_id := qh_intent_id h; qh_proposal_id := qh_proposal_id h;
     qh_reason := qh_reason h; qh_matched_rule_ids := qh_matched_rule_ids h;
     qh_policy_bundle_id := qh_policy_bundle_id h; qh_state := s; qh_expires_at := qh_expires_at h;
     qh_created_at := qh_created_at h; qh_resolved_at := qh_resolved_at h;
     qh_resolved_by := qh_resolved_by h; qh_resolution_reason := qh_resolution_reason h;
     qh_metadata := qh_metadata h; qh_owner_actor_id := qh_owner_actor_id h |}.

(** The updates of [expire_stale_pending_sqlite]. *)
Fixpoint expire_holds (rows : list (string * QuarantineHold)) (expired : list QuarantineHold)
  : prog (result (list QuarantineHold) StoreError) :=
  match rows with
  | [] => Ret (Ok expired)
  | (id, hold) :: rest =>
      let hold := qh_set_state QS_Expired hold in
      updated <-? call (op_update_pending_hold hold id) ;;
      expire_holds rest (if updated : bool then expired ++ [hold] else expired)
  end.

Definition expire_stale_holds (now : Timestamp) (max_age_seconds : Z) (batch_size : nat)
  : prog (result (list QuarantineHold) StoreError) :=
  rows <-? call (op_select_stale_holds now max_age_seconds batch_size) ;;
  expire_holds rows [].

(** A failed append is only logged. *)
Definition emit_quarantine_timed_out_provenance (hold : QuarantineHold) : prog unit :=
  event_id <- call op_uuid ;;
  now <- call op_now ;;
  _ <- append_governance_event
    (governed_event event_id PK_QuarantineTimedOut now gateway_actor
       {| or_object_type := OT_QuarantineHold; or_object_id := qh_hold_id hold;
          or_summary := Some "Quarantine hold timed out and was transitioned to Expired" |}
       (Some (qh_intent_id hold)) (Some (qh_proposal_id hold))
       (index_insert "previous_state" (JStr (debug_hold_state (qh_state hold)))
          (index_insert "hold_id" (JStr (qh_hold_id hold)) []))) ;;
  Ret tt.

Fixpoint announce_expired_holds (expired : list QuarantineHold) : prog unit :=
  match expired with
  | [] => Ret tt
  | h :: rest =>
      _ <- call (op_metric_add Met_quarantine_timeouts 1) ;;
      _ <- emit_quarantine_timed_out_provenance h ;;
      announce_expired_holds rest
  end.

Definition reconcile_quarantine_timeouts_once (app : App) (now : Timestamp) : prog (list QuarantineHold) :=
  r <- expire_stale_holds now (cfg_quarantine_timeout_seconds (app_config app)) QUARANTINE_TIMEOUT_BATCH_SIZE ;;
  match r with
  | Ok expired => _ <- announce_expired_holds expired ;; Ret expired
  | Err _ => Ret []
  end.

(** ** Approvals *)

(** [encode_cursor]. *)
Definition encode_cursor (ext : Ext) (created_at : Timestamp) (approval_id : ApprovalId) : string :=
  ext_base64_encode ext (ext_rfc3339 ext created_at +:+ ":" +:+ approval_id).

(** [splitn(2, ':')]: what precedes and follows the first colon. *)
Fixpoint split_colon (s : string) : option (string * string) :=
  match s with
  | EmptyString => None
  | String c rest =>
      if Ascii.eqb c ":"%char then Some (EmptyString, rest)
      else match split_colon rest with
           | Some (a, b) => Some (String c a, b)
           | None => None
           end
  end.

Definition invalid_cursor (msg : string) : ApiProblem := Problem BAD_REQUEST EC_ValidationError msg.

Definition decode_cursor (ext : Ext) (cursor : string) : result (Timestamp * ApprovalId) ApiProblem :=
  match ext_base64_decode ext cursor with
  | None => Err (invalid_cursor "invalid cursor format")
  | Some decoded =>
      if negb (ext_is_utf8 ext decoded) then Err (invalid_cursor "invalid cursor encoding")
      else match split_colon decoded with
      | None => Err (invalid_cursor "invalid cursor structure")
      | Some (timestamp, id) =>
          match ext_parse_rfc3339 ext timestamp with
          | None => Err (invalid_cursor "invalid cursor timestamp")
          | Some created_at =>
              match ext_parse_uuid ext id with
              | None => Err (invalid_cursor "invalid cursor approval_id")
              | Some approval_id => Ok (created_at, approval_id)
              end
          end
      end
  end.

(** The filter of a listing. *)
Definition parse_filter (ext : Ext) (proposal_id : option string) : result (option ProposalId) ApiProblem :=
  match proposal_id with
  | None => Ok None
  | Some p => match parse_proposal_id ext p with Ok id => Ok (Some id) | Err e => Err e end
  end.

(** The page and its cursor, from one row more than the page. *)
Definition cursor_page (ext : Ext) (limit : nat) (approvals : list ApprovalRequest)
  : list ApprovalRequest * option string :=
  let items := take limit approvals in
  (items, if limit <? length approvals then
            (λ a, encode_cursor ext (ap_created_at a) (ap_approval_id a)) <$> last items
          else None).

Definition list_approvals (app : App) (params : PageParams)
  : prog (result (list ApprovalRequest * option string) ApiProblem) :=
  let route := GR_Approvals in
  limit <-? require route (page_limit params) ;;
  match pp_cursor params with
  | Some cursor =>
      key <-? require route (decode_cursor (app_ext app) cursor) ;;
      filter <-? require route (parse_filter (app_ext app) (pp_proposal_id params)) ;;
      approvals <-? checked route (call (op_list_approvals_after filter key.1 key.2 (limit + 1))) ;;
      governance_ok route (cursor_page (app_ext app) limit approvals)
  | None =>
      filter <-? require route (parse_filter (app_ext app) (pp_proposal_id params)) ;;
      approvals <-? checked route (call (op_list_approvals filter limit (page_offset params))) ;;
      governance_ok route (approvals, None)
  end.

Definition get_approval (app : App) (approval_id : string) : prog (result ApprovalRequest ApiProblem) :=
  let route := GR_ApprovalsApprovalId in
  id <-? require route (parse_approval_id (app_ext app) approval_id) ;;
  approval <-? fetch route (op_get_approval id) (Problem NOT_FOUND EC_NotFound "approval not found") ;;
  governance_ok route approval.

(** The evidence about the resolver that goes with a resolution. *)
Definition resolver_evidence (auth_actor : option AuthActor) (claimed : ActorRef) (m : JsonMap) : JsonMap :=
  match auth_actor with
  | Some a =>
      let m := index_insert "actor_authenticated" (JBool true)
                 (index_insert "actor_source" (JStr (aa_source a)) m) in
      match aa_role a with
      | Some role => index_insert "actor_role" (JStr (role_name role)) m
      | None => m
      end
  | None =>
      index_insert "claimed_actor_type" (JStr (actor_type_lower (ar_actor_type claimed)))
        (index_insert "actor_authenticated" (JBool false)
           (index_insert "actor_source" (JStr "request_body_legacy") m))
  end.

Definition resolution_event (event_id : EventId) (now : Timestamp) (id : ApprovalId)
    (auth_actor : option AuthActor) (request : ApprovalResolveRequest) (approval : ApprovalRequest)
  : ProvenanceEvent :=
  {| ev_event_id := event_id;
     ev_kind := if arq_approve request then PK_ApprovalGranted else PK_ApprovalDenied;
     ev_occurred_at := now; ev_actor := gateway_actor;
     ev_object := {| or_object_type := OT_Approval; or_object_id := id;
                     or_summary := Some ("Approval " +:+ (if arq_approve request then "ApprovalGranted"
                                                          else "ApprovalDenied") +:+ " for proposal") |};
     ev_intent_id := Some (ap_intent_id approval); ev_proposal_id := Some (ap_proposal_id approval);
     ev_execution_id := ap_execution_id approval; ev_capability_id := None;
     ev_rollback_contract_id := None; ev_policy_bundle_id := None; ev_trust_labels := [];
     ev_sensitivity_labels := []; ev_parent_edges := []; ev_hash_chain := no_hashes;
     ev_metadata :=
       with_reason (arq_reason request)
         (resolver_evidence auth_actor (arq_actor request)
            (index_insert "actor_id" (JStr (effective_actor_id auth_actor (arq_actor request)))
               (index_insert "approval_id" (JStr id) [])));
     ev_source_runtime_id := None |}.

(** The end of a resolution: the audit entry, the stored approval, the provenance
    event. *)
Definition record_approval_resolution (app : App) (id : ApprovalId) (auth_actor : option AuthActor)
    (request : ApprovalResolveRequest) (approval : ApprovalRequest) : prog (result ApprovalRequest ApiProblem) :=
  let route := GR_ApprovalsResolve in
  let actor_id := effective_actor_id auth_actor (arq_actor request) in
  _ <-? guarded_by route
    (append_audit_checked app actor_id "approval_resolve" "approval" id "success"
       (Some (resolve_metadata "approved" (arq_approve request) (arq_reason request)))) ;;
  updated <-? fetch route (op_get_approval id)
    (Problem NOT_FOUND EC_NotFound "approval not found after resolve") ;;
  event_id <- call op_uuid ;;
  now <- call op_now ;;
  _ <-? checked route
    (call (op_append_event (resolution_event event_id now id auth_actor request approval) [])) ;;
  governance_ok route updated.

(** The handler [resolve_approval]. *)
Definition resolve_approval_handler (app : App) (auth_actor : option AuthActor) (approval_id : string)
    (request : ApprovalResolveRequest) : prog (result ApprovalRequest ApiProblem) :=
  let route := GR_ApprovalsResolve in
  id <-? require route (parse_approval_id (app_ext app) approval_id) ;;
  _ <-? require route (actor_matches auth_actor (arq_actor request)) ;;
  let actor_id := effective_actor_id auth_actor (arq_actor request) in
  _ <-? guarded_by route (second_factor app (verify_approval_mfa app (arq_mfa_factor request) actor_id)) ;;
  approval <-? fetch route (op_get_approval id) (Problem NOT_FOUND EC_NotFound "approval not found") ;;
  if negb (bool_decide (ap_state approval = AS_Pending)) then
    governance_err route (Problem CONFLICT EC_Conflict
      ("approval is in terminal state " +:+ debug_approval_state (ap_state approval) +:+ ", cannot resolve"))
  else
    now <- call op_now ;;
    if (ap_expires_at approval <? now)%Z then
      governance_err route (Problem FORBIDDEN EC_PolicyDenied "approval has expired, cannot resolve")
    else
      won <-? checked route
        (resolve_approval id (if arq_approve request then AS_Granted else AS_Denied) now) ;;
      if negb won then
        governance_err route (Problem CONFLICT EC_Conflict
          "approval could not be resolved: it is no longer pending or has expired")
      else
        record_approval_resolution app id auth_actor request approval.
