(* ===== verification/Policies.v ===== *)
(** * Policy bundles (crates/ferrum-gateway/src/policy.rs; the methods of several
    statements of crates/ferrum-store/src/sqlite/policy_bundles.rs)

    The handlers that create, read, update, delete, activate, simulate, compare and
    roll back policy bundles.  Every change appends a row to the version history of its
    bundle.  YAML and serde are library functions of [Ext]. *)

From Stdlib Require Import Ascii.
From stdpp Require Import pretty.
From S2P Require Import Prelude Json Proto Admin Behavioral Store Effects Pdp Firewall Validation.
From S2P Require Import Provenance Lifecycle Capabilities Proposals.

(** ** The store *)

Definition new_version_row (id : string) (b : PolicyBundle) (version : Z) (note created_by : option string)
  : PolicyBundleVersion :=
  {| pv_id := id; pv_bundle_id := pb_bundle_id b; pv_version := version; pv_content := b;
     pv_active := pb_active b; pv_created_at := pb_created_at b; pv_created_by := created_by;
     pv_note := note |}.

(** [insert_version]: the number is read and the row inserted in two statements. *)
Definition insert_version (b : PolicyBundle) (note created_by : option string) : prog (result Z StoreError) :=
  new_version <-? call (op_admin (AO_next_version (pb_bundle_id b))) ;;
  id <- call op_uuid ;;
  _ <-? call (op_admin (AO_insert_version (new_version_row id b new_version note created_by))) ;;
  Ret (Ok new_version).

Definition bundle_insert (b : PolicyBundle) : prog (result unit StoreError) :=
  _ <-? call (op_admin (AO_insert_bundle b)) ;;
  _ <-? insert_version b (Some "Created") None ;;
  Ret (Ok tt).

Definition bundle_update (b : PolicyBundle) : prog (result unit StoreError) :=
  _ <-? call (op_admin (AO_update_bundle b)) ;;
  _ <-? insert_version b (Some "Updated") None ;;
  Ret (Ok tt).

(** [bundle.active = a] and the other assignments of the handlers. *)
Definition pb_set_active (a : bool) (b : PolicyBundle) : PolicyBundle :=
  {| pb_bundle_id := pb_bundle_id b; pb_version := pb_version b; pb_rules := pb_rules b; pb_active := a;
     pb_content_hash := pb_content_hash b; pb_created_at := pb_created_at b;
     pb_updated_at := pb_updated_at b |}.
Definition pb_set_times (created updated : Timestamp) (b : PolicyBundle) : PolicyBundle :=
  {| pb_bundle_id := pb_bundle_id b; pb_version := pb_version b; pb_rules := pb_rules b;
     pb_active := pb_active b; pb_content_hash := pb_content_hash b; pb_created_at := created;
     pb_updated_at := updated |}.
Definition pb_set_hash (h : option string) (b : PolicyBundle) : PolicyBundle :=
  {| pb_bundle_id := pb_bundle_id b; pb_version := pb_version b; pb_rules := pb_rules b;
     pb_active := pb_active b; pb_content_hash := h; pb_created_at := pb_created_at b;
     pb_updated_at := pb_updated_at b |}.

Definition bundle_set_active (bundle_id : string) (active : bool) : prog (result unit StoreError) :=
  bundle <-? call (op_admin (AO_get_bundle bundle_id)) ;;
  match bundle with
  | None => Ret (Ok tt)
  | Some bundle =>
      _ <-? bundle_update (pb_set_active active bundle) ;;
      call (op_admin (AO_update_version_active bundle_id active))
  end.

Definition bundle_rollback (bundle_id : string) (target_version : Z) (actor : option string)
  : prog (result Z StoreError) :=
  target <-? call (op_admin (AO_get_version bundle_id target_version)) ;;
  match target with
  | None => Ret (Err (SE_NotFound "policy_bundle_version" (pretty target_version)))
  | Some target =>
      now <- call op_now ;;
      let content := pv_content target in
      let new_bundle := pb_set_active true (pb_set_times (pb_created_at content) now content) in
      _ <-? call (op_admin (AO_update_bundle new_bundle)) ;;
      new_version <-? insert_version new_bundle (Some ("Rollback to v" +:+ pretty target_version)) actor ;;
      _ <-? call (op_admin (AO_update_version_active bundle_id true)) ;;
      Ret (Ok new_version)
  end.

(** ** Parsing *)

Definition compute_bundle_hash (ext : Ext) (b : PolicyBundle) : string :=
  ext_sha256_hex ext (ext_bundle_to_string ext b).

(** [parse_policy_bundle_yaml]. *)
Definition parse_policy_bundle_yaml (ext : Ext) (yaml : string) : prog (result PolicyBundle string) :=
  match ext_parse_yaml ext yaml with
  | Err e => Ret (Err ("YAML parsing error: " +:+ e))
  | Ok b => now <- call op_now ;; Ret (Ok (into_policy_bundle (compute_bundle_hash ext) now b))
  end.

Definition parse_bundle (app : App) (route : GovernanceRoute) (yaml : string)
  : prog (result PolicyBundle ApiProblem) :=
  r <- parse_policy_bundle_yaml (app_ext app) yaml ;;
  require route (map_err (λ e, Problem BAD_REQUEST EC_ValidationError ("invalid policy bundle YAML: " +:+ e)) r).

Definition bundle_missing (bundle_id : string) : string := "policy bundle '" +:+ bundle_id +:+ "' not found".

(** ** create, list, get, update, delete *)

Definition create_policy_bundle (app : App) (auth_actor : option AuthActor) (yaml : string)
  : prog (result PolicyBundleResponse ApiProblem) :=
  let route := GR_PolicyBundlesCreate in
  bundle <-? parse_bundle app route yaml ;;
  let content_hash := default "" (pb_content_hash bundle) in
  existing <- call (op_admin (AO_bundle_by_hash content_hash)) ;;
  match existing with
  | Ok (Some existing) =>
      governance_ok route {| pbr_bundle := existing; pbr_content_hash := content_hash |}
  | _ =>
      _ <-? checked route (bundle_insert bundle) ;;
      _ <-? guarded_by route
        (append_audit_checked app (audit_actor auth_actor) "policy_bundle_create" "policy_bundle"
           (pb_bundle_id bundle) "success"
           (Some (JObj [("content_hash", JStr content_hash); ("version", JStr (pb_version bundle))]))) ;;
      governance_ok route {| pbr_bundle := bundle; pbr_content_hash := content_hash |}
  end.

Definition list_policy_bundles : prog (result (list PolicyBundle * nat) ApiProblem) :=
  let route := GR_PolicyBundlesList in
  bundles <-? checked route (call (op_admin AO_list_bundles)) ;;
  governance_ok route (bundles, length bundles).

Definition get_policy_bundle (bundle_id : string) : prog (result PolicyBundleResponse ApiProblem) :=
  let route := GR_PolicyBundlesGet in
  bundle <-? fetch route (op_admin (AO_get_bundle bundle_id))
               (Problem NOT_FOUND EC_NotFound (bundle_missing bundle_id)) ;;
  governance_ok route {| pbr_bundle := bundle; pbr_content_hash := default "" (pb_content_hash bundle) |}.

Definition update_policy_bundle (app : App) (bundle_id yaml : string)
  : prog (result PolicyBundleResponse ApiProblem) :=
  let route := GR_PolicyBundlesUpdate in
  bundle <-? parse_bundle app route yaml ;;
  if negb (String.eqb (pb_bundle_id bundle) bundle_id) then
    governance_err route (Problem BAD_REQUEST EC_ValidationError
      ("bundle_id in YAML ('" +:+ pb_bundle_id bundle +:+ "') does not match path ('" +:+ bundle_id +:+ "')"))
  else
    existing <-? fetch route (op_admin (AO_get_bundle bundle_id))
                   (Problem NOT_FOUND EC_NotFound (bundle_missing bundle_id)) ;;
    now <- call op_now ;;
    let bundle := pb_set_times (pb_created_at existing) now bundle in
    let content_hash := compute_bundle_hash (app_ext app) bundle in
    let bundle := pb_set_hash (Some content_hash) bundle in
    _ <-? checked route (bundle_update bundle) ;;
    governance_ok route {| pbr_bundle := bundle; pbr_content_hash := content_hash |}.

Definition sanitize_json (app : App) (v : json) : json := sanitize_output (ext_replace_all (app_ext app)) v.
Definition sanitized_missing (app : App) (bundle_id : string) : ApiProblem :=
  Problem NOT_FOUND EC_NotFound (sanitize (ext_replace_all (app_ext app)) (bundle_missing bundle_id)).

Definition delete_policy_bundle (app : App) (bundle_id : string) : prog (result json ApiProblem) :=
  let route := GR_PolicyBundlesDelete in
  _ <-? fetch route (op_admin (AO_get_bundle bundle_id)) (sanitized_missing app bundle_id) ;;
  _ <-? checked route (call (op_admin (AO_delete_bundle bundle_id))) ;;
  governance_ok route (sanitize_json app (JObj [("bundle_id", JStr bundle_id); ("ok", JBool true)])).

(** ** Activation *)

(** An event about a bundle; it has no lineage parent and is appended as it is. *)
Definition bundle_event (ext : Ext) (event_id : EventId) (kind : ProvenanceEventKind) (now : Timestamp)
    (actor : ActorRef) (bundle_id : string) (summary : option string) (metadata : JsonMap) : ProvenanceEvent :=
  {| ev_event_id := event_id; ev_kind := kind; ev_occurred_at := now; ev_actor := actor;
     ev_object := {| or_object_type := OT_PolicyBundle; or_object_id := bundle_id; or_summary := summary |};
     ev_intent_id := None; ev_proposal_id := None; ev_execution_id := None; ev_capability_id := None;
     ev_rollback_contract_id := None; ev_policy_bundle_id := ext_parse_uuid ext bundle_id;
     ev_trust_labels := []; ev_sensitivity_labels := []; ev_parent_edges := [];
     ev_hash_chain := no_hashes; ev_metadata := metadata; ev_source_runtime_id := None |}.

Definition set_policy_bundle_active (app : App) (auth_actor : option AuthActor) (bundle_id : string)
    (active : bool) : prog (result json ApiProblem) :=
  let route := GR_PolicyBundlesSetActive in
  _ <-? fetch route (op_admin (AO_get_bundle bundle_id)) (sanitized_missing app bundle_id) ;;
  _ <-? checked route (bundle_set_active bundle_id active) ;;
  _ <-? guarded_by route
    (append_audit_checked app (audit_actor auth_actor) "policy_bundle_activate" "policy_bundle" bundle_id
       "success" (Some (JObj [("active", JBool active)]))) ;;
  event_id <- call op_uuid ;;
  now <- call op_now ;;
  _ <-? checked route (call (op_append_event
    (bundle_event (app_ext app) event_id
       (if active then PK_PolicyBundleActivated else PK_PolicyBundleDeactivated) now
       {| ar_actor_type := AT_Operator; ar_actor_id := audit_actor auth_actor; ar_display_name := None |}
       bundle_id None (index_insert "active" (JBool active) [])) [])) ;;
  governance_ok route
    (sanitize_json app (JObj [("active", JBool active); ("bundle_id", JStr bundle_id); ("ok", JBool true)])).

(** ** Simulation *)

Definition simulated_intent (intent : option IntentEnvelope) (proposal : ActionProposal) : prog IntentEnvelope :=
  match intent with
  | Some intent => Ret intent
  | None => minimal_intent_for (pr_intent_id proposal) (pr_requested_rollback_class proposal)
  end.

(** Always the active bundles first, then the policy decision point, whatever the
    configured mode. *)
Definition simulate_policy (app : App) (request : PolicySimulateRequest)
  : prog (result EvaluateProposalResponse ApiProblem) :=
  let proposal := psr_proposal request in
  intent <- simulated_intent (psr_intent request) proposal ;;
  let trust := derived_trust intent proposal in
  r <- evaluate_active_policy_bundles intent proposal trust ;;
  governance_ok GR_PolicySimulate (default (pdp_evaluate (app_pdp app) intent proposal trust) r).

Definition simulate_policy_bundle (app : App) (bundle_yaml : string) (request : PolicySimulateRequest)
  : prog (result EvaluateProposalResponse ApiProblem) :=
  let route := GR_PolicyBundlesSimulate in
  let proposal := psr_proposal request in
  bundle <-? parse_bundle app route bundle_yaml ;;
  intent <- simulated_intent (psr_intent request) proposal ;;
  governance_ok route
    match evaluate_bundle_rules intent proposal (derived_trust intent proposal) bundle with
    | Some (rule_id, decision, reason) =>
        {| epr_decision := decision; epr_reason := reason; epr_matched_rule_ids := [rule_id];
           epr_warnings := [] |}
    | None =>
        {| epr_decision := D_Allow; epr_reason := "no rules matched in the provided bundle";
           epr_matched_rule_ids := []; epr_warnings := [] |}
    end.

(** ** Versions *)

(** A store call whose failure is an internal error that is not counted. *)
Definition uncounted {T} (p : prog (result T StoreError)) : prog (result T ApiProblem) :=
  r <- p ;; Ret (map_err internal r).

Definition list_policy_bundle_versions (bundle_id : string)
  : prog (result (list PolicyBundleVersion * nat) ApiProblem) :=
  versions <-? uncounted (call (op_admin (AO_list_versions bundle_id))) ;;
  governance_ok GR_PolicyBundlesVersions (versions, length versions).

(** The object with those of the three parts that are not empty. *)
Definition diff_parts (added removed changed : list (string * json)) : json :=
  let part k m rest := match m with [] => rest | _ => btree_insert k (JObj m) rest end in
  JObj (part "changed" changed (part "removed" removed (part "added" added []))).

Definition is_empty_object (v : json) : bool := match v with JObj [] => true | _ => false end.

Section walks.
Context (diff : json → json → json).

(** The loop over the keys of the left object: what was removed, what changed. *)
Fixpoint object_walk (rm m : list (string * json)) (acc : list (string * json) * list (string * json))
  : list (string * json) * list (string * json) :=
  match m with
  | [] => acc
  | (k, lv) :: m' =>
      object_walk rm m'
        match smap_get k rm with
        | Some rv =>
            if json_eqb lv rv then acc
            else let child := diff lv rv in
                 if is_empty_object child then acc else (acc.1, btree_insert k child acc.2)
        | None => (btree_insert k lv acc.1, acc.2)
        end
  end.

(** The loop over the positions of the left array. *)
Fixpoint array_walk (i : nat) (l r : list json) (acc : list (string * json) * list (string * json))
  : list (string * json) * list (string * json) :=
  match l, r with
  | [], _ => acc
  | lv :: l', rv :: r' =>
      array_walk (S i) l' r'
        (if json_eqb lv rv then acc else (acc.1, btree_insert (pretty i) (diff lv rv) acc.2))
  | lv :: l', [] => array_walk (S i) l' [] (btree_insert (pretty i) lv acc.1, acc.2)
  end.
End walks.

(** [json_diff]. *)
Fixpoint json_diff (left right : json) {struct left} : json :=
  match left, right with
  | JObj lm, JObj rm =>
      let '(removed, changed) := object_walk json_diff rm lm ([], []) in
      let added := foldl (λ acc kv, if smap_contains_key kv.1 lm then acc else btree_insert kv.1 kv.2 acc) [] rm in
      diff_parts added removed changed
  | JArr la, JArr ra =>
      let '(removed, changed) := array_walk json_diff 0 la ra ([], []) in
      let added := foldl (λ acc iv, btree_insert (pretty iv.1) iv.2 acc) []
                     (imap (λ i v, (length la + i, v)) (drop (length la) ra)) in
      diff_parts added removed changed
  | _, _ =>
      if json_eqb left right then diff_parts [] [] []
      else diff_parts [] [] (btree_insert "_new" right (btree_insert "_old" left []))
  end.

(** [str::parse::<i64>]: an optional sign and at least one decimal digit, in range. *)
Fixpoint parse_digits (acc : Z) (s : string) : option Z :=
  match s with
  | EmptyString => Some acc
  | String c s =>
      let d := (Z.of_N (N_of_ascii c) - 48)%Z in
      if ((0 <=? d) && (d <=? 9))%Z then parse_digits (acc * 10 + d)%Z s else None
  end.

Definition parse_i64 (s : string) : option Z :=
  let '(sign, digits) := match s with
                         | String "-" s => ((-1)%Z, s)
                         | String "+" s => (1%Z, s)
                         | _ => (1%Z, s)
                         end in
  match digits with
  | EmptyString => None
  | _ => match parse_digits 0 digits with
         | Some n => let n := (sign * n)%Z in
             if ((-9223372036854775808 <=? n) && (n <=? 9223372036854775807))%Z then Some n else None
         | None => None
         end
  end.

(** The query parameter [name]. *)
Definition version_param (params : gmap string string) (name : string) : result Z ApiProblem :=
  ok_or (params !! name ≫= parse_i64)
    (Problem BAD_REQUEST EC_ValidationError ("missing or invalid '" +:+ name +:+ "' query parameter")).

Definition stored_version (bundle_id : string) (version : Z) : prog (result PolicyBundleVersion ApiProblem) :=
  r <-? uncounted (call (op_admin (AO_get_version bundle_id version))) ;;
  Ret (ok_or r (Problem NOT_FOUND EC_NotFound
                  ("version " +:+ pretty version +:+ " not found for bundle " +:+ bundle_id))).

Record DiffPolicyBundleVersionsResponse := {
  dpr_bundle_id : string;
  dpr_from_version : Z;
  dpr_to_version : Z;
  dpr_diff : json;
}.

Definition diff_policy_bundle_versions (app : App) (bundle_id : string) (params : gmap string string)
  : prog (result DiffPolicyBundleVersionsResponse ApiProblem) :=
  from_version <-? Ret (version_param params "from") ;;
  to_version <-? Ret (version_param params "to") ;;
  from_v <-? stored_version bundle_id from_version ;;
  to_v <-? stored_version bundle_id to_version ;;
  governance_ok GR_PolicyBundlesDiff
    {| dpr_bundle_id := bundle_id; dpr_from_version := from_version; dpr_to_version := to_version;
       dpr_diff := json_diff (ext_bundle_to_value (app_ext app) (pv_content from_v))
                             (ext_bundle_to_value (app_ext app) (pv_content to_v)) |}.

(** ** Rollback *)

(** The actor a rollback is attributed to. *)
Definition rollback_actor (auth_actor : option AuthActor) (claimed : option string) : string :=
  match auth_actor with Some a => aa_actor_id a | None => default "unknown" claimed end.

(** [Iterator::max]. *)
Definition max_version (versions : list Z) : option Z :=
  match versions with [] => None | v :: rest => Some (foldr Z.max v rest) end.

Definition rollback_policy_bundle (app : App) (auth_actor : option AuthActor) (bundle_id : string)
    (request : RollbackPolicyBundleRequest) : prog (result RollbackPolicyBundleResponse ApiProblem) :=
  let route := GR_PolicyBundlesRollback in
  versions <-? uncounted (call (op_admin (AO_list_versions bundle_id))) ;;
  let previous_version := default 0%Z (max_version (pv_version <$> versions)) in
  new_version <-? uncounted (bundle_rollback bundle_id (rpb_target_version request) (rpb_actor request)) ;;
  let actor := rollback_actor auth_actor (rpb_actor request) in
  let versions_json := [("new_version", JInt new_version); ("previous_version", JInt previous_version);
                        ("rolled_back_to_version", JInt (rpb_target_version request))] in
  _ <-? guarded_by route
    (append_audit_checked app actor "policy_bundle_rollback" "policy_bundle" bundle_id "success"
       (Some (JObj versions_json))) ;;
  event_id <- call op_uuid ;;
  now <- call op_now ;;
  _ <-? uncounted (call (op_append_event
    (bundle_event (app_ext app) event_id PK_PolicyBundleRolledBack now
       {| ar_actor_type := AT_Operator; ar_actor_id := actor; ar_display_name := Some actor |} bundle_id
       (Some ("Rollback from v" +:+ pretty previous_version +:+ " to v" +:+ pretty new_version))
       (index_insert "rolled_back_to_version" (JInt (rpb_target_version request))
          (index_insert "to_version" (JInt new_version)
             (index_insert "from_version" (JInt previous_version) [])))) [])) ;;
  governance_ok route
    {| rpr_bundle_id := bundle_id; rpr_new_version := new_version; rpr_previous_version := previous_version;
       rpr_rolled_back_to_version := rpb_target_version request |}.
