(* ===== verification/Auth.v ===== *)
(** * Authentication (crates/ferrum-gateway/src/auth.rs, the token hashing of server.rs,
    OidcJwksCache::get_key of state.rs)

    The middleware every request passes: in each mode it either lets the request
    through, with the authenticated actor, or answers with an error.  Hashes, base64,
    Ed25519, JSON parsing and the decoding of JWTs are library functions of
    [CryptoLib]. *)

From Stdlib Require Import Ascii.
From S2P Require Import Prelude Json Proto Admin Behavioral AuthState Store Effects Validation Lifecycle.

(** ** Libraries *)

(** The parts of [jsonwebtoken::Header] and [Validation] that are used. *)
Record JwtHeader := {
  jh_typ : option string;
  jh_alg : Algorithm;
  jh_kid : option string;
}.
Record JwtValidation := {
  jv_leeway : Z;
  jv_validate_nbf : bool;
  jv_issuer : list string;
  jv_audience : list string;
  jv_algorithms : list Algorithm;
}.

Record CryptoLib := {
  cl_blake3_hex : string → string;
  cl_sha256 : string → string;
  cl_base64_decode : string → option string;        (** standard alphabet *)
  cl_base64_url_decode : string → option string;    (** URL-safe alphabet, no padding *)
  cl_base64_url_encode : string → string;
  cl_uuid_bytes : string → string;
  cl_parse_json : string → option json;
  cl_serde_time : Timestamp → string;               (** [Serialize] of a [DateTime<Utc>] *)
  cl_ed25519_key : string → bool;                   (** [VerifyingKey::from_bytes] succeeds *)
  cl_ed25519_verify : string → string → string → bool;   (** key, message, signature *)
  cl_rsa_components : string → string → result unit string;
  cl_pem_key : KeyMaterial → result unit string;    (** [DecodingKey::from_rsa_pem] and the like *)
  cl_jwt_header : string → option JwtHeader;        (** [jsonwebtoken::decode_header] *)
  cl_jwt_decode : string → KeyMaterial → JwtValidation → Timestamp → option JsonMap;
}.

(** ** Requests and answers *)

(** A header is present if its value is text; [hq_body] is [None] if it cannot be read. *)
Record HttpRequest := {
  hq_method : string;
  hq_path : string;
  hq_headers : gmap string string;
  hq_body : option string;
}.

(** The request goes on, with the actor in its extensions and the token whose use is
    recorded by a task of its own, or is answered. *)
Inductive AuthOutcome :=
| AuthNext (actor : option AuthActor) (touched : option string)
| AuthProblem (p : ApiProblem)
| AuthText (status : Z) (message : string).

Definition UNAUTHORIZED := 401%Z.
Definition auth_error (message : string) : AuthOutcome :=
  AuthProblem (Problem UNAUTHORIZED EC_Unauthorized message).
Definition forbidden_error (message : string) : AuthOutcome :=
  AuthProblem (Problem FORBIDDEN EC_Forbidden message).

(** ** Scopes *)

(** [scopes.iter().any(|s| s == "*" || s == scope)]. *)
Definition scopes_allow (scopes : list string) (scope : string) : bool :=
  existsb (λ s, String.eqb s "*" || String.eqb s scope) scopes.
Definition token_has_scope (tok : ScopedToken) (scope : string) : bool := scopes_allow (st_scopes tok) scope.

(** [required_scope_for_path]: the first rule that matches; unknown paths need
    [admin:tokens]. *)
Definition required_scope_for_path (method path : string) : option string :=
  let on m := String.eqb method m in
  let at_ p := String.eqb path p in
  let under p := str_starts_with p path in
  let ends s := str_ends_with s path in
  if on "POST" && at_ "/v1/intents/compile" then Some "intent:submit"
  else if on "GET" && at_ "/v1/intents" then Some "intent:submit"
  else if on "POST" && (under "/v1/proposals/" && ends "/evaluate") then Some "proposal:evaluate"
  else if on "POST" && at_ "/v1/capabilities/mint" then Some "capability:mint"
  else if on "POST" && (under "/v1/capabilities/" && ends "/revoke") then Some "capability:mint"
  else if on "POST" && at_ "/v1/executions/authorize" then Some "execution:authorize"
  else if on "POST" && (under "/v1/executions/" && ends "/prepare") then Some "execution:prepare"
  else if on "POST" && (under "/v1/executions/" && ends "/execute") then Some "execution:execute"
  else if on "POST" && (under "/v1/executions/" && ends "/verify") then Some "execution:verify"
  else if on "POST" && (under "/v1/executions/" && ends "/commit") then Some "execution:commit"
  else if on "POST" && (under "/v1/executions/" && ends "/compensate") then Some "execution:compensate"
  else if on "POST" && (under "/v1/executions/" && ends "/cancel") then Some "execution:execute"
  else if on "POST" && (under "/v1/executions/" && ends "/evaluate-outcome") then Some "execution:verify"
  else if on "GET" && under "/v1/executions/" then Some "provenance:read"
  else if on "GET" && at_ "/v1/approvals" then Some "approval:read"
  else if on "GET" && (under "/v1/approvals/" && negb (ends "/resolve")) then Some "approval:read"
  else if on "POST" && (under "/v1/approvals/" && ends "/resolve") then Some "approval:resolve"
  else if on "GET" && at_ "/v1/quarantines" then Some "approval:read"
  else if on "GET" && (under "/v1/quarantines/" && negb (ends "/resolve")) then Some "approval:read"
  else if on "POST" && (under "/v1/quarantines/" && ends "/resolve") then Some "approval:resolve"
  else if on "POST" && at_ "/v1/policy-bundles" then Some "policy:write"
  else if on "GET" && at_ "/v1/policy-bundles" then Some "policy:read"
  else if on "GET" && (under "/v1/policy-bundles/" && ends "/versions") then Some "policy:read"
  else if on "GET" && (under "/v1/policy-bundles/" && ends "/diff") then Some "policy:read"
  else if on "POST" && (under "/v1/policy-bundles/" && ends "/rollback") then Some "policy:write"
  else if on "POST" && at_ "/v1/policy/simulate" then Some "policy:read"
  else if on "POST" && at_ "/v1/policy-bundles/simulate" then Some "policy:read"
  else if on "GET" && under "/v1/policy-bundles/" then Some "policy:read"
  else if on "PUT" && (under "/v1/policy-bundles/" && ends "/active") then Some "policy:write"
  else if on "PUT" && under "/v1/policy-bundles/" then Some "policy:write"
  else if on "DELETE" && under "/v1/policy-bundles/" then Some "policy:write"
  else if on "POST" && at_ "/v1/provenance/query" then Some "provenance:read"
  else if on "POST" && at_ "/v1/provenance/lineage" then Some "provenance:read"
  else if on "GET" && under "/v1/provenance/lineage/" then Some "provenance:read"
  else if on "POST" && at_ "/v1/provenance/ingest" then Some "provenance:write"
  else if on "GET" && at_ "/v1/bridges" then Some "provenance:read"
  else if on "GET" && (under "/v1/bridges/" && ends "/tools") then Some "provenance:read"
  else if on "POST" && at_ "/v1/admin/tokens" then Some "admin:tokens"
  else if on "GET" && at_ "/v1/admin/tokens" then Some "admin:tokens"
  else if on "DELETE" && under "/v1/admin/tokens/" then Some "admin:tokens"
  else if on "POST" && (under "/v1/admin/tokens/" && ends "/rotate") then Some "admin:tokens"
  else if on "POST" && at_ "/v1/admin/agents" then Some "admin:agents"
  else if on "GET" && at_ "/v1/admin/agents" then Some "admin:agents"
  else if on "DELETE" && under "/v1/admin/agents/" then Some "admin:agents"
  else if on "POST" && (under "/v1/admin/agents/" && ends "/mfa/enroll") then Some "admin:mfa"
  else if on "POST" && (under "/v1/admin/agents/" && ends "/mfa/verify") then Some "admin:mfa"
  else if on "POST" && (under "/v1/admin/agents/" && ends "/mfa/disable") then Some "admin:mfa"
  else if on "POST" && (under "/v1/admin/agents/" && ends "/mfa/rotate") then Some "admin:mfa"
  else if on "GET" && (under "/v1/admin/agents/" && ends "/mfa") then Some "admin:mfa"
  else if on "GET" && (under "/v1/admin/agents/" && str_contains "/mfa/" path && negb (ends "/mfa"))
  then Some "admin:mfa"
  else if on "GET" && at_ "/v1/admin/lifecycle-outbox" then Some "admin:lifecycle-outbox:read"
  else if on "GET" && under "/v1/admin/lifecycle-outbox/" then Some "admin:lifecycle-outbox:read"
  else if on "POST" && (under "/v1/admin/lifecycle-outbox/" && (ends "/retry" || ends "/resolve"))
  then Some "admin:lifecycle-outbox:write"
  else if on "GET" && at_ "/v1/admin/audit-logs" then Some "admin:audit"
  else if on "GET" && at_ "/v1/admin/audit-logs/export" then Some "admin:audit"
  else if on "GET" && at_ "/v1/admin/audit/verify" then Some "admin:audit"
  else if on "GET" && at_ "/v1/admin/audit/merkle-verify" then Some "admin:audit"
  else if on "GET" && at_ "/v1/admin/audit/merkle-roots" then Some "admin:audit"
  else if on "POST" && at_ "/v1/admin/audit/checkpoints" then Some "admin:audit"
  else if on "GET" && at_ "/v1/admin/audit/checkpoints" then Some "admin:audit"
  else if on "GET" && (under "/v1/admin/audit/checkpoints/" && ends "/verify") then Some "admin:audit"
  else Some "admin:tokens".

Section auth.
Context (lib : CryptoLib) (app : App).
Let config := app_config app.

(** ** Tokens (server.rs) *)

(** [hash_token_value] and [hash_token_with_salt]. *)
Definition hash_token_value (token_value : string) : string := cl_blake3_hex lib token_value.
Definition hash_token_with_salt (token_value salt : string) : string := cl_blake3_hex lib (salt +:+ token_value).

(** The part of the header after [Bearer ]. *)
Definition bearer_value (request : HttpRequest) : result string AuthOutcome :=
  match hq_headers request !! "Authorization" with
  | None => Err (auth_error "missing authorization header")
  | Some header =>
      if negb (str_starts_with "Bearer " header) then Err (auth_error "invalid authorization header format")
      else Ok (String.substring 7 (String.length header - 7) header)
  end.

Definition bearer_auth (request : HttpRequest) : AuthOutcome :=
  match bearer_value request with
  | Err e => e
  | Ok provided =>
      if String.eqb provided (default "" (cfg_bearer_token config)) then AuthNext None None
      else auth_error "invalid bearer token"
  end.

(** The actor has the scope that the path needs. *)
Definition scope_granted (scopes : list string) (method path : string) : result unit string :=
  match required_scope_for_path method path with
  | Some scope => if scopes_allow scopes scope then Ok tt else Err ("required scope " +:+ scope)
  | None => Ok tt
  end.

Definition scoped_auth (request : HttpRequest) : prog AuthOutcome :=
  match bearer_value request with
  | Err e => Ret e
  | Ok provided =>
      r <- call (op_admin (AO_token_by_lookup_hash (hash_token_value provided))) ;;
      match r with
      | Err _ => Ret (auth_error "token lookup failed")
      | Ok None => Ret (auth_error "invalid scoped token")
      | Ok (Some tok) =>
          if negb (String.eqb (hash_token_with_salt provided (st_token_salt tok)) (st_token_hash tok))
          then Ret (auth_error "invalid scoped token")
          else if bool_decide (is_Some (st_revoked_at tok)) then Ret (auth_error "token revoked")
          else
            now <- call op_now ;;
            if (st_expires_at tok <? now)%Z then Ret (auth_error "token expired")
            else match scope_granted (st_scopes tok) (hq_method request) (hq_path request) with
            | Err e => Ret (forbidden_error e)
            | Ok _ =>
                Ret (AuthNext (Some {| aa_actor_id := st_actor_id tok; aa_source := "scoped";
                                       aa_scopes := st_scopes tok; aa_role := Some (st_role tok) |})
                       (Some (st_token_id tok)))
            end
      end
  end.

(** The task that records the use of a token. *)
Definition touch_token (token_id : string) : prog (result unit StoreError) :=
  now <- call op_now ;; call (op_admin (AO_token_touch token_id now)).

(** ** Agents *)

Inductive AgentAuthError := AgentUnauthorized (msg : string) | AgentForbidden (msg : string).

Definition agent_header (request : HttpRequest) (name : string) : result string AgentAuthError :=
  ok_or (hq_headers request !! name) (AgentUnauthorized ("missing " +:+ name)).

(** A condition of the agent's request. *)
Definition agent_check (ok : bool) (msg : string) : result unit AgentAuthError :=
  if ok then Ok tt else Err (AgentUnauthorized msg).

(** How long a nonce is remembered. *)
Definition nonce_ttl : Z :=
  if (0 <? cfg_nonce_cache_ttl_secs config)%Z then seconds (cfg_nonce_cache_ttl_secs config)
  else seconds (Z.max (cfg_agent_clock_skew_secs config * 2) 60).

(** The limit of [axum::body::to_bytes]. *)
Definition MAX_BODY : Z := 10 * 1024 * 1024.

Definition body_hash (request : HttpRequest) : result string AgentAuthError :=
  match hq_body request with
  | Some bytes =>
      if (MAX_BODY <? Z.of_nat (String.length bytes))%Z then Err (AgentUnauthorized "failed to read body")
      else Ok (if str_is_empty bytes then "null" else cl_blake3_hex lib bytes)
  | None => Err (AgentUnauthorized "failed to read body")
  end.

Definition canonical_payload (agent_id timestamp nonce body_hash method path : string) : string :=
  agent_id +:+ ":" +:+ timestamp +:+ ":" +:+ nonce +:+ ":" +:+ body_hash +:+ ":" +:+ method +:+ ":" +:+ path.

Definition verify_signature (agent : AgentRecord) (signature_b64 payload : string) : result unit AgentAuthError :=
  let? sig := ok_or (cl_base64_decode lib signature_b64) (AgentUnauthorized "invalid signature encoding") in
  let? _ := agent_check (String.length sig =? 64)%nat "invalid signature length" in
  let? pk := ok_or (cl_base64_decode lib (ag_public_key agent)) (AgentUnauthorized "invalid public key encoding") in
  let? _ := agent_check (String.length pk =? 32)%nat "invalid public key length" in
  let? _ := agent_check (cl_ed25519_key lib pk) "invalid public key" in
  agent_check (cl_ed25519_verify lib pk payload sig) "signature verification failed".

(** The headers a request must have: agent, timestamp, nonce, body hash, signature. *)
Definition agent_headers (request : HttpRequest)
  : result (string * string * string * string * string) AgentAuthError :=
  let? agent_id := agent_header request "X-Ferrum-Agent-Id" in
  let? timestamp := agent_header request "X-Ferrum-Timestamp" in
  let? nonce := agent_header request "X-Ferrum-Nonce" in
  let? body_hash_header := agent_header request "X-Ferrum-Body-Hash" in
  let? signature_b64 := agent_header request "X-Ferrum-Signature" in
  Ok (agent_id, timestamp, nonce, body_hash_header, signature_b64).

(** The timestamp is within the allowed skew. *)
Definition within_skew (ts now : Timestamp) : bool :=
  let skew := seconds (cfg_agent_clock_skew_secs config) in
  negb ((ts <? now - skew)%Z || (now + skew <? ts)%Z).

(** Header values are visible ASCII: the nonce has as many characters as bytes. *)
Definition verify_agent_request (request : HttpRequest) : prog (result AuthOutcome AgentAuthError) :=
  match agent_headers request with
  | Err e => Ret (Err e)
  | Ok (agent_id, timestamp, nonce, body_hash_header, signature_b64) =>
      match ext_parse_rfc3339 (app_ext app) timestamp with
      | None => Ret (Err (AgentUnauthorized "invalid timestamp format"))
      | Some ts =>
          now <- call op_now ;;
          if negb (within_skew ts now) then Ret (Err (AgentUnauthorized "timestamp out of skew window"))
          else if (256 <? String.length nonce)%nat then Ret (Err (AgentUnauthorized "nonce exceeds maximum length"))
          else
            fresh <- call (op_nonce (cfg_nonce_cache_max_entries config) nonce nonce_ttl) ;;
            match fresh with
            | Err _ => Ret (Err (AgentUnauthorized "nonce cache unavailable"))
            | Ok false => Ret (Err (AgentUnauthorized "replayed nonce"))
            | Ok true =>
                match (let? computed := body_hash request in
                       agent_check (String.eqb computed body_hash_header) "body hash mismatch") with
                | Err e => Ret (Err e)
                | Ok _ =>
                    r <- call (op_admin (AO_agent_get agent_id)) ;;
                    match r with
                    | Err _ => Ret (Err (AgentUnauthorized "agent lookup failed"))
                    | Ok None => Ret (Err (AgentUnauthorized "agent not found"))
                    | Ok (Some agent) =>
                        Ret (let? _ := agent_check (bool_decide (ag_revoked_at agent = None)) "agent revoked" in
                             let? _ := verify_signature agent signature_b64
                                         (canonical_payload agent_id timestamp nonce body_hash_header
                                            (hq_method request) (hq_path request)) in
                             let? _ := map_err AgentForbidden
                                         (scope_granted (ag_allowed_scopes agent) (hq_method request) (hq_path request)) in
                             Ok (AuthNext (Some {| aa_actor_id := agent_id; aa_source := "agent";
                                                   aa_scopes := ag_allowed_scopes agent; aa_role := None |}) None))
                    end
                end
            end
      end
  end.

(** An audit entry about a failed authentication, whose failure is ignored. *)
Definition audit_failure (action resource outcome reason : string) : prog unit :=
  discard (append_audit (app_ext app) "unknown" action "auth" resource outcome
             (Some (JObj [("reason", JStr reason)]))).

Definition agent_auth (request : HttpRequest) : prog AuthOutcome :=
  r <- verify_agent_request request ;;
  match r with
  | Ok outcome => Ret outcome
  | Err (AgentUnauthorized msg) =>
      _ <- audit_failure "agent_auth_failed" "agent" "unauthorized" msg ;; Ret (auth_error msg)
  | Err (AgentForbidden msg) => Ret (forbidden_error msg)
  end.

(** ** OIDC *)

Inductive OidcAuthError := OidcUnauthorized (msg : string) | OidcForbidden (msg : string).

(** The text before the first dot. *)
Fixpoint before_dot (s : string) : string :=
  match s with
  | EmptyString => ""
  | String c s' => if Ascii.eqb c "."%char then "" else String c (before_dot s')
  end.

(** [to_ascii_lowercase], as [eq_ignore_ascii_case] compares. *)
Fixpoint to_ascii_lowercase (s : string) : string :=
  match s with
  | EmptyString => ""
  | String c s' => String (ascii_to_lower c) (to_ascii_lowercase s')
  end.

Definition jwt_header_alg_is_none (token : string) : bool :=
  let header_b64 := before_dot token in
  if str_is_empty header_b64 then false
  else match cl_base64_url_decode lib header_b64 with
  | None => false
  | Some decoded =>
      match cl_parse_json lib decoded with
      | None => false
      | Some raw => match text_field "alg" raw with
                    | Some s => String.eqb (to_ascii_lowercase s) "none"
                    | None => false
                    end
      end
  end.

(** [KeyMaterial::to_decoding_key]: a secret always makes a key. *)
Definition to_decoding_key (km : KeyMaterial) : result unit string :=
  match km with
  | KM_Hmac _ => Ok tt
  | KM_RsaJwk n e => cl_rsa_components lib n e
  | km => cl_pem_key lib km
  end.

(** [OidcJwksCache::fetch_and_cache] and [get_key]. *)
Definition fetch_and_cache (url : string) : prog (result unit string) :=
  a <- call (op_jwks_fetch url) ;;
  match parse_jwks (cl_rsa_components lib) a with
  | Err e => Ret (Err e)
  | Ok keys => _ <- call (op_jwks_store keys) ;; Ret (Ok tt)
  end.
Definition get_key (url : string) (ttl_secs : Z) (kid : string) : prog (result (option KeyMaterial) string) :=
  hit <- call (op_jwks_cached kid (seconds ttl_secs)) ;;
  match hit with
  | Some key => Ret (Ok (Some key))
  | None =>
      _ <-? fetch_and_cache url ;;
      key <- call (op_jwks_lookup kid) ;;
      Ret (Ok key)
  end.

(** The key for the [kid] of the header: static keys first. *)
Definition select_key (oidc : OidcConfig) (kid : string) : prog (result KeyMaterial OidcAuthError) :=
  match oc_static_keys oidc !! kid, oc_jwks_url oidc with
  | Some km, _ => Ret (Ok km)
  | None, Some url =>
      r <- get_key url (oc_jwks_cache_ttl_secs oidc) kid ;;
      Ret match r with
          | Ok (Some km) => Ok km
          | Ok None => Err (OidcUnauthorized "jwt key not found")
          | Err _ => Err (OidcUnauthorized "jwt key unavailable")
          end
  | None, None => Ret (Err (OidcUnauthorized "jwt key not found"))
  end.

(** The checks of the header before any key is used. *)
Definition check_header (oidc : OidcConfig) (token : string) : result JwtHeader OidcAuthError :=
  if jwt_header_alg_is_none token then Err (OidcUnauthorized "invalid jwt")
  else
    let? header := ok_or (cl_jwt_header lib token) (OidcUnauthorized "invalid jwt") in
    let typ_ok := match oc_token_profile oidc, jh_typ header with
                  | LegacyJwt, _ => true
                  | Rfc9068AccessToken, Some t => String.eqb t "at+jwt" || String.eqb t "application/at+jwt"
                  | Rfc9068AccessToken, None => false
                  end in
    if negb typ_ok then Err (OidcUnauthorized "invalid jwt")
    else if negb (bool_decide (jh_alg header ∈ oc_allowed_algorithms oidc))
    then Err (OidcUnauthorized "unsupported jwt algorithm")
    else Ok header.

Definition jwt_validation (oidc : OidcConfig) : JwtValidation :=
  {| jv_leeway := Z.max (oc_clock_skew_secs oidc) 0; jv_validate_nbf := true;
     jv_issuer := [oc_issuer oidc]; jv_audience := oc_audiences oidc;
     jv_algorithms := oc_allowed_algorithms oidc |}.

(** [iat] must not be in the future; a token without it passes. *)
Definition check_iat (oidc : OidcConfig) (claims : JsonMap) : prog (result unit OidcAuthError) :=
  match smap_get "iat" claims ≫= as_i64 with
  | None => Ret (Ok tt)
  | Some iat =>
      now <- call op_now ;;
      Ret (if (now / seconds 1 + Z.max (oc_clock_skew_secs oidc) 0 <? iat)%Z
           then Err (OidcUnauthorized "invalid jwt") else Ok tt)
  end.

(** The values of the role claim. *)
Definition role_source_values (oidc : OidcConfig) (claims : JsonMap) : option (list string) :=
  match smap_get (oc_role_source_claim oidc) claims with
  | Some (JArr arr) => Some (omap as_str arr)
  | Some (JStr s) => Some [s]
  | _ => None
  end.

(** Actor and role of the claims. *)
Definition claims_identity (oidc : OidcConfig) (claims : JsonMap) : result (string * TokenRole) OidcAuthError :=
  let verified := default false (smap_get "email_verified" claims ≫= as_bool) in
  if oc_require_email_verified oidc && negb verified then Err (OidcUnauthorized "email not verified")
  else
    let? actor_id := match smap_get (oc_actor_id_claim oidc) claims ≫= as_str with
                     | Some s => if str_is_empty s then Err (OidcUnauthorized "missing actor_id claim") else Ok s
                     | None => Err (OidcUnauthorized "missing actor_id claim")
                     end in
    let? values := ok_or (role_source_values oidc claims) (OidcForbidden "unmapped role") in
    let? role := ok_or (head (omap (λ name, oc_role_mappings oidc !! name) values)) (OidcForbidden "unmapped role") in
    Ok (actor_id, role).

Definition validate_oidc_token (token : string) (oidc : OidcConfig) (method path : string)
  : prog (result (string * list string * TokenRole) OidcAuthError) :=
  match check_header oidc token with
  | Err e => Ret (Err e)
  | Ok header =>
      key_material <-? select_key oidc (default "" (jh_kid header)) ;;
      match to_decoding_key key_material with
      | Err _ => Ret (Err (OidcUnauthorized "jwt key invalid"))
      | Ok _ =>
          now <- call op_now ;;
          match cl_jwt_decode lib token key_material (jwt_validation oidc) now with
          | None => Ret (Err (OidcUnauthorized "invalid jwt"))
          | Some claims =>
              _ <-? check_iat oidc claims ;;
              Ret (let? id := claims_identity oidc claims in
                   let? _ := map_err OidcForbidden (scope_granted (default_scopes id.2) method path) in
                   Ok (id.1, default_scopes id.2, id.2))
          end
      end
  end.

Definition oidc_auth (request : HttpRequest) : prog AuthOutcome :=
  match bearer_value request with
  | Err e => Ret e
  | Ok provided =>
      match cfg_oidc_config config with
      | None =>
          _ <- audit_failure "auth_failed" "oidc" "oidc auth misconfigured" "oidc config missing" ;;
          Ret (auth_error "oidc auth misconfigured")
      | Some oidc =>
          r <- validate_oidc_token provided oidc (hq_method request) (hq_path request) ;;
          match r with
          | Ok (actor_id, scopes, role) =>
              Ret (AuthNext (Some {| aa_actor_id := actor_id; aa_source := "oidc"; aa_scopes := scopes;
                                     aa_role := Some role |}) None)
          | Err (OidcUnauthorized msg) =>
              _ <- audit_failure "auth_failed" "oidc" "unauthorized" msg ;; Ret (auth_error msg)
          | Err (OidcForbidden msg) =>
              _ <- audit_failure "auth_failed" "oidc" "forbidden" msg ;; Ret (AuthText FORBIDDEN msg)
          end
      end
  end.

(** ** The middleware *)

Definition auth_middleware (request : HttpRequest) : prog AuthOutcome :=
  if String.eqb (hq_path request) "/v1/healthz" || String.eqb (hq_path request) "/v1/readyz"
  then Ret (AuthNext None None)
  else match cfg_auth_mode config with
  | Auth_Disabled => Ret (AuthNext None None)
  | Auth_Bearer => Ret (bearer_auth request)
  | Auth_Oidc => oidc_auth request
  | Auth_Scoped => scoped_auth request
  | Auth_Agent => agent_auth request
  end.
End auth.
