(* ===== verification/Principals.v ===== *)
(** * Tokens and agents (crates/ferrum-gateway/src/admin: tokens.rs, agents.rs,
    scope_attenuation.rs; token generation of server.rs)

    The handlers that issue, list, revoke and rotate scoped tokens, and register, list
    and revoke agents.  What is issued may not exceed what the issuer holds. *)

From Stdlib Require Import Ascii.
From S2P Require Import Prelude Json Proto Admin Behavioral AuthState Store Effects Firewall Validation.
From S2P Require Import Lifecycle Quarantine Policies Auth.

(** ** Attenuation *)

Definition has_wildcard (scopes : list string) : bool := existsb (λ s, String.eqb s "*") scopes.

Fixpoint scopes_within (issuer : AuthActor) (requested : list string) : result unit ApiProblem :=
  match requested with
  | [] => Ok tt
  | scope :: rest =>
      if has_scope issuer scope then scopes_within issuer rest
      else Err (Problem FORBIDDEN EC_Forbidden ("requested scope '" +:+ scope +:+ "' exceeds issuer scopes"))
  end.

Definition check_scope_attenuation (issuer : AuthActor) (requested : list string) : result unit ApiProblem :=
  if has_wildcard (aa_scopes issuer) then Ok tt
  else if has_wildcard requested
  then Err (Problem FORBIDDEN EC_Forbidden "wildcard scope requires issuer wildcard authority")
  else scopes_within issuer requested.

Section principals.
Context (lib : CryptoLib) (app : App).

(** ** Answers *)

(** [sanitized_api_error_response]. *)
Definition sanitized_problem (p : ApiProblem) : ApiProblem :=
  mkProblem (prob_status p) (prob_code p) (sanitize (ext_replace_all (app_ext app)) (prob_message p))
    (sanitize_json app (prob_details p)).

Definition refuse {T} (p : ApiProblem) : prog (result T ApiProblem) := Ret (Err (sanitized_problem p)).

(** A field that is left out when it is [None]. *)
Definition opt_field (key : string) (v : option json) : JsonMap :=
  match v with Some v => [(key, v)] | None => [] end.

(** [Debug] and [Serialize] of a role. *)
Definition debug_role (r : TokenRole) : string :=
  match r with
  | TR_Admin => "Admin" | TR_Operator => "Operator" | TR_PolicyAuthor => "PolicyAuthor"
  | TR_Auditor => "Auditor" | TR_Agent => "Agent" | TR_ReadOnly => "ReadOnly"
  end.

Definition time_json (t : Timestamp) : json := JStr (cl_serde_time lib t).

(** [ScopedTokenMeta]: the token without its hashes and salt. *)
Definition token_meta_json (tok : ScopedToken) : json :=
  JObj ([("actor_id", JStr (st_actor_id tok)); ("created_at", time_json (st_created_at tok))]
        ++ opt_field "description" (JStr <$> st_description tok)
        ++ [("expires_at", time_json (st_expires_at tok))]
        ++ opt_field "last_used_at" (time_json <$> st_last_used_at tok)
        ++ opt_field "revoked_at" (time_json <$> st_revoked_at tok)
        ++ opt_field "revoked_reason" (JStr <$> st_revoked_reason tok)
        ++ [("role", JStr (debug_role (st_role tok)))]
        ++ opt_field "rotated_from" (JStr <$> st_rotated_from tok)
        ++ [("scopes", JArr (JStr <$> st_scopes tok)); ("token_id", JStr (st_token_id tok))]).

(** [CreateTokenResponse]. *)
Definition create_token_response (tok : ScopedToken) (token_value : string) : json :=
  sanitize_json app (JObj [("token", token_meta_json tok); ("token_value", JStr token_value)]).

Definition agent_json (a : AgentRecord) : json :=
  JObj ([("agent_id", JStr (ag_agent_id a)); ("allowed_scopes", JArr (JStr <$> ag_allowed_scopes a));
         ("created_at", time_json (ag_created_at a))]
        ++ opt_field "description" (JStr <$> ag_description a)
        ++ [("key_fingerprint", JStr (ag_key_fingerprint a)); ("public_key", JStr (ag_public_key a))]
        ++ opt_field "revoked_at" (time_json <$> ag_revoked_at a)).

(** ** Tokens *)

(** [generate_token_value] and [generate_token_salt]. *)
Definition generate_token_value : prog string :=
  u1 <- call op_uuid ;;
  u2 <- call op_uuid ;;
  u3 <- call op_uuid ;;
  Ret ("fgt_" +:+ cl_base64_url_encode lib (cl_uuid_bytes lib u1 +:+ cl_uuid_bytes lib u2 +:+ cl_uuid_bytes lib u3)).

Fixpoint remove_hyphens (s : string) : string :=
  match s with
  | EmptyString => ""
  | String c s' => if Ascii.eqb c "-"%char then remove_hyphens s' else String c (remove_hyphens s')
  end.
Definition generate_token_salt : prog string := u <- call op_uuid ;; Ret (remove_hyphens u).

(** 90 days. *)
Definition max_ttl : Z := seconds (90 * 86400).

Definition ttl_exceeded : ApiProblem :=
  Problem BAD_REQUEST EC_ValidationError "expires_at exceeds maximum TTL of 90 days".
Definition unknown_caller : ApiProblem :=
  Problem FORBIDDEN EC_Forbidden "caller identity and scopes could not be established".

(** The issuer is known, may issue the role, and holds the scopes. *)
Definition may_issue (auth_actor : option AuthActor) (role : TokenRole) (scopes : list string)
    (admin_message : string) : result AuthActor ApiProblem :=
  match auth_actor with
  | None => Err unknown_caller
  | Some issuer =>
      if bool_decide (role = TR_Admin) && negb (has_wildcard (aa_scopes issuer))
      then Err (Problem FORBIDDEN EC_Forbidden admin_message)
      else let? _ := check_scope_attenuation issuer scopes in Ok issuer
  end.

(** A new token with its value: the secrets are drawn, then the identifier and the time. *)
Definition new_token (actor_id : string) (role : TokenRole) (scopes : list string) (description : option string)
    (expires_at : Timestamp) (rotated_from : option string) : prog (ScopedToken * string) :=
  token_value <- generate_token_value ;;
  token_salt <- generate_token_salt ;;
  id <- call op_uuid ;;
  now <- call op_now ;;
  Ret (mkScopedToken ("tok_" +:+ remove_hyphens id) actor_id role scopes description expires_at now
         None None None rotated_from (hash_token_value lib token_value)
         (hash_token_with_salt lib token_value token_salt) token_salt, token_value).

Definition create_token (auth_actor : option AuthActor) (req : CreateTokenRequest) : prog (result json ApiProblem) :=
  now <- call op_now ;;
  if (now + max_ttl <? ctr_expires_at req)%Z then refuse ttl_exceeded
  else
    let scopes := default (default_scopes (ctr_role req)) (ctr_scopes req) in
    match may_issue auth_actor (ctr_role req) scopes "Admin role issuance requires issuer wildcard authority" with
    | Err p => refuse p
    | Ok issuer =>
        fresh <- new_token (ctr_actor_id req) (ctr_role req) scopes (ctr_description req) (ctr_expires_at req) None ;;
        let '(tok, token_value) := fresh in
        r <- call (op_admin (AO_token_insert tok)) ;;
        match r with
        | Err _ => refuse (Problem INTERNAL_SERVER_ERROR EC_Internal "failed to create token")
        | Ok _ =>
            _ <-? append_audit_checked app (st_actor_id tok) "token_create" "token" (st_token_id tok) "success"
                    (Some (JObj [("issuer", JStr (aa_actor_id issuer)); ("role", JStr (debug_role (ctr_role req)))])) ;;
            Ret (Ok (create_token_response tok token_value))
        end
    end.

(** [ListTokensQuery]; the cursor is passed on and ignored. *)
Record ListTokensQuery := {
  ltq_actor_id : option string;
  ltq_role : option string;
  ltq_active_only : option bool;
  ltq_limit : option nat;
}.

Definition list_tokens (params : ListTokensQuery) : prog (result json ApiProblem) :=
  r <- call (op_admin (AO_token_list (ltq_actor_id params) (ltq_role params)
                         (default false (ltq_active_only params)) (default 50 (ltq_limit params) `min` 200))) ;;
  match r with
  | Err _ => refuse (Problem INTERNAL_SERVER_ERROR EC_Internal "failed to list tokens")
  | Ok (tokens, next_cursor) =>
      Ret (Ok (sanitize_json app
        (JObj ([("items", JArr (token_meta_json <$> tokens))]
               ++ opt_field "next_cursor" (JStr <$> next_cursor) ++ [("total", JInt 0)]))))
  end.

(** [SqliteTokenRepo::revoke] reads the time before the statement. *)
Definition token_revoke (token_id : string) (reason : option string) : prog (result bool StoreError) :=
  now <- call op_now ;; call (op_admin (AO_token_revoke token_id reason now)).

Definition revoke_token (auth_actor : option AuthActor) (token_id : string) (reason : option string)
  : prog (result unit ApiProblem) :=
  r <- token_revoke token_id reason ;;
  match r with
  | Err _ => refuse (Problem INTERNAL_SERVER_ERROR EC_Internal "failed to revoke token")
  | Ok false => refuse (Problem NOT_FOUND EC_NotFound "token not found or already revoked")
  | Ok true =>
      append_audit_checked app (audit_actor auth_actor) "token_revoke" "token" token_id "success"
        (Some (JObj [("reason", opt_json reason)]))
  end.

(** A token that is revoked or expired is not rotated. *)
Definition token_usable (tok : ScopedToken) : prog bool :=
  if bool_decide (is_Some (st_revoked_at tok)) then Ret false
  else now <- call op_now ;; Ret (negb (st_expires_at tok <? now)%Z).

(** The expiry of the new token: the one asked for, within the limit, or the limit. *)
Definition rotated_expiry (requested : option Timestamp) : prog (result Timestamp ApiProblem) :=
  match requested with
  | None => now <- call op_now ;; Ret (Ok (now + max_ttl)%Z)
  | Some t => now <- call op_now ;; Ret (if (now + max_ttl <? t)%Z then Err ttl_exceeded else Ok t)
  end.

Definition rotate_token (auth_actor : option AuthActor) (token_id : string) (req : RotateTokenRequest)
  : prog (result json ApiProblem) :=
  r <- call (op_admin (AO_token_get token_id)) ;;
  match r with
  | Err _ => refuse (Problem INTERNAL_SERVER_ERROR EC_Internal "failed to rotate token")
  | Ok None => refuse (Problem NOT_FOUND EC_NotFound "token not found")
  | Ok (Some old_token) =>
      usable <- token_usable old_token ;;
      if negb usable then refuse (Problem CONFLICT EC_ValidationError "token is already revoked or expired")
      else
        expiry <- rotated_expiry (rtr_expires_at req) ;;
        match expiry with
        | Err p => refuse p
        | Ok expires_at =>
            match may_issue auth_actor (st_role old_token) (st_scopes old_token)
                    "Admin role token rotation requires issuer wildcard authority" with
            | Err p => refuse p
            | Ok issuer =>
                _ <- token_revoke token_id (rtr_reason req) ;;
                fresh <- new_token (st_actor_id old_token) (st_role old_token) (st_scopes old_token)
                           (st_description old_token) expires_at (Some token_id) ;;
                let '(tok, token_value) := fresh in
                r <- call (op_admin (AO_token_insert tok)) ;;
                match r with
                | Err _ => refuse (Problem INTERNAL_SERVER_ERROR EC_Internal "failed to rotate token")
                | Ok _ =>
                    _ <-? append_audit_checked app (st_actor_id tok) "token_rotate" "token" (st_token_id tok) "success"
                            (Some (JObj [("issuer", JStr (aa_actor_id issuer)); ("old_token_id", JStr token_id);
                                         ("reason", opt_json (rtr_reason req))])) ;;
                    Ret (Ok (create_token_response tok token_value))
                end
            end
        end
  end.

(** ** Agents *)

(** An error of a handler is counted before it is returned. *)
Definition refuse_counted {T} (route : GovernanceRoute) (p : ApiProblem) : prog (result T ApiProblem) :=
  _ <- call (op_metric (Met_error route)) ;; refuse p.

Definition default_agent_scopes : list string :=
  ["intent:submit"; "proposal:evaluate"; "capability:mint"; "execution:authorize"; "execution:prepare";
   "execution:execute"; "execution:verify"; "execution:compensate"].

(** The fingerprint of a valid public key. *)
Definition key_fingerprint (public_key : string) : result string ApiProblem :=
  match cl_base64_decode lib public_key with
  | None => Err (Problem BAD_REQUEST EC_ValidationError "invalid public_key: must be valid base64")
  | Some pk =>
      if negb (String.length pk =? 32)%nat
      then Err (Problem BAD_REQUEST EC_ValidationError "invalid public_key: must decode to 32 bytes")
      else Ok (cl_base64_url_encode lib (cl_sha256 lib pk))
  end.

(** The key, the issuer and the scopes of a registration. *)
Definition registration (auth_actor : option AuthActor) (req : RegisterAgentRequest)
  : result (string * AuthActor * list string) ApiProblem :=
  let? fingerprint := key_fingerprint (rar_public_key req) in
  let allowed_scopes := default default_agent_scopes (rar_scopes req) in
  let? issuer := ok_or auth_actor unknown_caller in
  let? _ := check_scope_attenuation issuer allowed_scopes in
  Ok (fingerprint, issuer, allowed_scopes).

Definition registration_failed : ApiProblem :=
  Problem INTERNAL_SERVER_ERROR EC_Internal "failed to register agent".

(** Neither the identifier nor the key is registered. *)
Definition check_duplicates (agent_id fingerprint : string) : prog (result unit ApiProblem) :=
  r <- call (op_admin (AO_agent_get agent_id)) ;;
  match r with
  | Err _ => Ret (Err registration_failed)
  | Ok (Some _) => Ret (Err (Problem CONFLICT EC_Conflict ("agent_id '" +:+ agent_id +:+ "' already exists")))
  | Ok None =>
      r <- call (op_admin (AO_agent_by_fingerprint fingerprint)) ;;
      Ret match r with
          | Err _ => Err registration_failed
          | Ok (Some existing) =>
              Err (Problem CONFLICT EC_Conflict
                     ("public_key already registered for agent '" +:+ ag_agent_id existing +:+ "'"))
          | Ok None => Ok tt
          end
  end.

Definition create_agent (auth_actor : option AuthActor) (req : RegisterAgentRequest)
  : prog (result json ApiProblem) :=
  let route := GR_AgentsCreate in
  match registration auth_actor req with
  | Err p => refuse_counted route p
  | Ok (fingerprint, issuer, allowed_scopes) =>
      dup <- check_duplicates (rar_agent_id req) fingerprint ;;
      match dup with
      | Err p => refuse_counted route p
      | Ok _ =>
          now <- call op_now ;;
          let agent := mkAgentRecord (rar_agent_id req) (rar_public_key req) fingerprint allowed_scopes now None
                         (rar_description req) in
          r <- call (op_admin (AO_agent_insert agent)) ;;
          match r with
          | Err _ => refuse_counted route registration_failed
          | Ok _ =>
              _ <- call (op_metric (Met_success route)) ;;
              _ <-? append_audit_checked app (rar_agent_id req) "agent_register" "agent" (rar_agent_id req) "success"
                      (Some (JObj [("fingerprint", JStr fingerprint); ("issuer", JStr (aa_actor_id issuer))])) ;;
              Ret (Ok (sanitize_json app (JObj [("agent", agent_json agent)])))
          end
      end
  end.

Definition list_agents (active_only : option bool) (limit : option nat) : prog (result json ApiProblem) :=
  let route := GR_AgentsList in
  let active := default false active_only in
  r <- call (op_admin (AO_agent_list active (default 50 limit `min` 200))) ;;
  match r with
  | Err _ => refuse_counted route (Problem INTERNAL_SERVER_ERROR EC_Internal "failed to list agents")
  | Ok (agents, next_cursor) =>
      c <- call (op_admin (AO_agent_count active)) ;;
      let total := match c with Ok n => n | Err _ => length agents end in
      _ <- call (op_metric (Met_success route)) ;;
      Ret (Ok (sanitize_json app
        (JObj ([("items", JArr (agent_json <$> agents))]
               ++ opt_field "next_cursor" (JStr <$> next_cursor) ++ [("total", JInt (Z.of_nat total))]))))
  end.

Definition revoke_agent (auth_actor : option AuthActor) (agent_id : string) (reason : option string)
  : prog (result unit ApiProblem) :=
  let route := GR_AgentsRevoke in
  now <- call op_now ;;
  r <- call (op_admin (AO_agent_revoke agent_id now)) ;;
  match r with
  | Err _ => refuse_counted route (Problem INTERNAL_SERVER_ERROR EC_Internal "failed to revoke agent")
  | Ok false => refuse_counted route (Problem NOT_FOUND EC_NotFound "agent not found or already revoked")
  | Ok true =>
      _ <- call (op_metric (Met_success route)) ;;
      append_audit_checked app (audit_actor auth_actor) "agent_revoke" "agent" agent_id "success"
        (Some (JObj [("reason", opt_json reason)]))
  end.
End principals.
