(* ===== verification/MfaAdmin.v ===== *)
(** * Administration of second factors (crates/ferrum-gateway/src/admin/mfa.rs)

    Enrolment, first verification, removal and rotation of an agent's TOTP factor.
    Randomness is an argument of the handlers that draw it; the cipher, base32 and URL
    encodings are library code and parameters. *)

From stdpp Require Import pretty.
From S2P Require Import Prelude Json Proto Admin Behavioral AuthState Store Effects Firewall Validation Lifecycle Mfa.
From S2P Require Import Policies Auth Principals.

(** What the handlers use of libraries. *)
Record MfaLib := {
  ml_aes_gcm_encrypt : string → string → string → option string;
  ml_base64 : string → string;
  ml_base32_nopad : string → string;
  ml_url_encode : string → string;
}.

(** The random bytes of a new factor: the secret, and the nonce of its encryption. *)
Record Entropy := { en_secret : string; en_nonce : string }.

Record MfaDisableRequest := { mdr_code : option string; mdr_reason : option string }.
(** [MfaRotateRequest] has the same fields. *)
Abbreviation MfaRotateRequest := MfaDisableRequest.
Definition no_code : MfaDisableRequest := {| mdr_code := None; mdr_reason := None |}.

Section mfa_admin.
Context (lib : CryptoLib) (mlib : MfaLib) (app : App) (issuer : string).

(** ** Secrets (mfa.rs) *)

(** [encrypt_secret]. *)
Definition encrypt_secret (key_bytes plaintext nonce : string) : result (string * string) MfaError :=
  if negb (String.length key_bytes =? 32)%nat then
    Err (ME_Crypto ("AES-256 key must be 32 bytes, got " +:+ pretty (String.length key_bytes)))
  else match ml_aes_gcm_encrypt mlib key_bytes nonce plaintext with
       | Some ciphertext => Ok (ml_base64 mlib ciphertext, ml_base64 mlib nonce)
       | None => Err (ME_Crypto "encryption failed")
       end.

(** [build_otpauth_uri]. *)
Definition build_otpauth_uri (secret account : string) : string :=
  "otpauth://totp/" +:+ ml_url_encode mlib issuer +:+ ":" +:+ ml_url_encode mlib account
  +:+ "?secret=" +:+ ml_base32_nopad mlib secret +:+ "&issuer=" +:+ ml_url_encode mlib issuer.

(** [MfaCredentialRecord::new]. *)
Definition new_factor (id : string) (now : Timestamp) (agent_id : string) (factor_type : MfaFactorType)
    (encrypted_secret secret_nonce encryption_key_id : string) : MfaCredentialRecord :=
  mkMfaCredentialRecord id agent_id factor_type MF_Pending encrypted_secret secret_nonce encryption_key_id None now
    None None None None 0 None None 0 JNull.

(** ** Refusals *)

Definition broken (message : string) : ApiProblem := Problem INTERNAL_SERVER_ERROR EC_Internal message.
Definition invalid_code : ApiProblem := mfa_invalid "invalid TOTP code".

(** [resolve_mfa_key]. *)
Definition resolve_mfa_key : prog (result string ApiProblem) :=
  match mfa_key app with Ok key => Ret (Ok key) | Err p => refuse app p end.

(** [totp_verify_result_to_response]; not called with a success. *)
Definition totp_refusal {T} (route : GovernanceRoute) (r : TotpVerifyResult) : prog (result T ApiProblem) :=
  match r with
  | TV_Locked retry_after => refuse app (mfa_locked_problem retry_after)
  | TV_Invalid => refuse_counted app route invalid_code
  | TV_Internal | TV_Success _ => refuse_counted app route (broken "MFA verification failed")
  end.

(** A database call whose failure is an internal error with its own text. *)
Definition or_broken {T} (route : GovernanceRoute) (message : string) (p : prog (result T StoreError))
  : prog (result T ApiProblem) :=
  r <- p ;;
  match r with Ok x => Ret (Ok x) | Err _ => refuse_counted app route (broken message) end.

Definition totp_check (key_bytes agent_id : string) (record : MfaCredentialRecord) (code : string) : prog TotpVerifyResult :=
  verify_totp_with_lockout (app_ext app) key_bytes agent_id record code
    (cfg_mfa_lockout_max_attempts (app_config app)) (cfg_mfa_lockout_duration_secs (app_config app)).

(** A code that was accepted: its counter is used up and the lockouts are reset. *)
Definition use_code (route : GovernanceRoute) (key_bytes agent_id : string) (record : MfaCredentialRecord) (code : string)
  : prog (result unit ApiProblem) :=
  r <- totp_check key_bytes agent_id record code ;;
  match r with
  | TV_Success counter =>
      used <-? or_broken route "MFA state update failed" (record_use (mc_mfa_factor_id record) counter) ;;
      if negb used then refuse_counted app route invalid_code
      else or_broken route "MFA state update failed" (reset_mfa_lockout_after_success agent_id (mc_mfa_factor_id record))
  | other => totp_refusal route other
  end.

(** [verify_or_breakglass]. *)
Definition verify_or_breakglass (active : MfaCredentialRecord) (code reason : option string)
    (auth_actor : option AuthActor) (route : GovernanceRoute) : prog (result unit ApiProblem) :=
  match code with
  | Some code =>
      key_bytes <-? resolve_mfa_key ;;
      use_code route key_bytes (mc_agent_id active) active code
  | None =>
      if negb (match auth_actor with Some a => has_scope a "admin:mfa:breakglass" | None => false end) then
        refuse_counted app route (Problem FORBIDDEN EC_MfaRequired "MFA code required or break-glass scope needed")
      else if str_trim_is_empty (default "" reason) then
        refuse_counted app route (Problem BAD_REQUEST EC_ValidationError "break-glass reason is required")
      else Ret (Ok tt)
  end.

Definition mfa_answer (v : json) : prog (result json ApiProblem) := Ret (Ok (sanitize_json app v)).
Definition enrolled_json (id uri : string) : json := JObj [("mfa_factor_id", JStr id); ("otpauth_uri", JStr uri)].

(** The audit entry of a handler on a factor. *)
Definition mfa_audit (auth_actor : option AuthActor) (action factor_id : string) (details : list (string * json))
  : prog (result unit ApiProblem) :=
  append_audit_checked app (audit_actor auth_actor) action "mfa_credential" factor_id "success" (Some (JObj details)).

(** ** Enrolment *)

(** A new pending factor of the agent, stored; [text] names what failed. *)
Definition store_new_factor (route : GovernanceRoute) (text key_bytes agent_id : string) (entropy : Entropy)
  : prog (result MfaCredentialRecord ApiProblem) :=
  match encrypt_secret key_bytes (en_secret entropy) (en_nonce entropy) with
  | Err _ => refuse_counted app route (broken "failed to encrypt MFA secret")
  | Ok (encrypted_secret, nonce) =>
      id <- call op_uuid ;;
      now <- call op_now ;;
      let record := new_factor id now agent_id MT_Totp encrypted_secret nonce "default" in
      _ <-? or_broken route text (call (op_admin (AO_mfa_insert record))) ;;
      Ret (Ok record)
  end.

(** [enroll_mfa]. *)
Definition enroll_mfa (agent_id : string) (auth_actor : option AuthActor) (entropy : Entropy)
  : prog (result json ApiProblem) :=
  key_bytes <-? resolve_mfa_key ;;
  record <-? store_new_factor GR_MfaEnroll "failed to enroll MFA factor" key_bytes agent_id entropy ;;
  _ <- call (op_metric (Met_success GR_MfaEnroll)) ;;
  _ <-? mfa_audit auth_actor "mfa_enroll" (mc_mfa_factor_id record) [("agent_id", JStr agent_id)] ;;
  mfa_answer (enrolled_json (mc_mfa_factor_id record) (build_otpauth_uri (en_secret entropy) agent_id)).

(** ** First verification *)

Definition pending_factor (r : MfaCredentialRecord) : bool :=
  bool_decide (mc_status r = MF_Pending) && bool_decide (mc_revoked_at r = None).

(** [verify_mfa]. *)
Definition verify_mfa (agent_id : string) (auth_actor : option AuthActor) (code : string) : prog (result json ApiProblem) :=
  let route := GR_MfaVerify in
  key_bytes <-? resolve_mfa_key ;;
  records <-? or_broken route "failed to list MFA factors" (call (op_admin (AO_mfa_list agent_id))) ;;
  match List.find pending_factor records with
  | None => refuse_counted app route (Problem NOT_FOUND EC_NotFound "no pending MFA factor found for agent")
  | Some record =>
      lockout <-? or_broken route "MFA lockout check failed" (check_agent_mfa_lockout agent_id) ;;
      match lockout with
      | Some retry_after_secs => refuse_counted app route (mfa_locked_problem retry_after_secs)
      | None =>
          _ <-? use_code route key_bytes agent_id record code ;;
          activated <-? or_broken route "failed to activate MFA factor"
                          (call (op_admin (AO_mfa_activate (mc_mfa_factor_id record)))) ;;
          if negb activated then refuse_counted app route (Problem CONFLICT EC_Conflict "factor was not pending or already activated")
          else
            _ <- call (op_metric (Met_success route)) ;;
            _ <-? mfa_audit auth_actor "mfa_verify" (mc_mfa_factor_id record) [("agent_id", JStr agent_id)] ;;
            mfa_answer (JObj [("verified", JBool true)])
      end
  end.

(** ** Removal *)

Definition mode_of (req : MfaDisableRequest) : string :=
  match mdr_code req with Some _ => "reverify" | None => "break_glass" end.

(** [SqliteMfaCredentialRepo::revoke]. *)
Definition revoke_factor (id : string) : prog (result bool StoreError) :=
  now <- call op_now ;; call (op_admin (AO_mfa_revoke id now)).

(** [disable_mfa]. *)
Definition disable_mfa (agent_id : string) (auth_actor : option AuthActor) (request : option MfaDisableRequest)
  : prog (result json ApiProblem) :=
  let route := GR_MfaDisable in
  let req := default no_code request in
  found <-? or_broken route "failed to retrieve active MFA factor" (call (op_admin (AO_mfa_active_for_agent agent_id))) ;;
  match found with
  | None => refuse_counted app route (Problem NOT_FOUND EC_NotFound "no active MFA factor found for agent")
  | Some active =>
      let id := mc_mfa_factor_id active in
      _ <-? verify_or_breakglass active (mdr_code req) (mdr_reason req) auth_actor route ;;
      revoked <-? or_broken route "failed to disable MFA factor" (revoke_factor id) ;;
      if negb revoked then refuse_counted app route (Problem NOT_FOUND EC_NotFound "factor not found or already revoked")
      else
        _ <- call (op_metric (Met_success route)) ;;
        _ <-? mfa_audit auth_actor "mfa_disable" id
                ([("agent_id", JStr agent_id); ("mode", JStr (mode_of req))]
                 ++ opt_field "reason" (JStr <$> mdr_reason req)
                 ++ (if bool_decide (is_Some (mdr_code req)) then [("reverified_factor_id", JStr id)] else [])) ;;
        mfa_answer (JObj [("disabled", JBool true)])
  end.

(** ** Rotation *)

(** The factor in use is verified and revoked; without one there is nothing to check. *)
Definition retire_active (agent_id : string) (auth_actor : option AuthActor) (req : MfaRotateRequest)
  : prog (result (option MfaCredentialRecord) ApiProblem) :=
  let route := GR_MfaRotate in
  found <-? or_broken route "failed to retrieve active MFA factor" (call (op_admin (AO_mfa_active_for_agent agent_id))) ;;
  match found with
  | None => Ret (Ok None)
  | Some active =>
      _ <-? verify_or_breakglass active (mdr_code req) (mdr_reason req) auth_actor route ;;
      _ <-? or_broken route "failed to revoke existing MFA factor" (revoke_factor (mc_mfa_factor_id active)) ;;
      Ret (Ok (Some active))
  end.

(** [rotate_mfa]. *)
Definition rotate_mfa (agent_id : string) (auth_actor : option AuthActor) (request : option MfaRotateRequest)
    (entropy : Entropy) : prog (result json ApiProblem) :=
  let req := default no_code request in
  key_bytes <-? resolve_mfa_key ;;
  active <-? retire_active agent_id auth_actor req ;;
  record <-? store_new_factor GR_MfaRotate "failed to create new MFA factor" key_bytes agent_id entropy ;;
  _ <- call (op_metric (Met_success GR_MfaRotate)) ;;
  let mode := match active with Some _ => mode_of req | None => "no_active_factor" end in
  _ <-? mfa_audit auth_actor "mfa_rotate" (mc_mfa_factor_id record)
          ([("agent_id", JStr agent_id); ("mode", JStr mode)]
           ++ opt_field "previous_factor_id" ((λ a, JStr (mc_mfa_factor_id a)) <$> active)
           ++ opt_field "reason" (JStr <$> mdr_reason req)
           ++ match active, mdr_code req with
              | Some a, Some _ => [("reverified_factor_id", JStr (mc_mfa_factor_id a))]
              | _, _ => []
              end) ;;
  mfa_answer (enrolled_json (mc_mfa_factor_id record) (build_otpauth_uri (en_secret entropy) agent_id)).

(** ** Listing *)

Definition factor_type_json (t : MfaFactorType) : json := JStr (match t with MT_Totp => "totp" end).
Definition factor_status_json (s : MfaFactorStatus) : json :=
  JStr (match s with MF_Pending => "Pending" | MF_Active => "Active" | MF_Inactive => "Inactive" end).
Definition opt_json {A} (f : A → json) (o : option A) : json := match o with Some a => f a | None => JNull end.

(** [MfaFactorSummary]: everything but the secret, its nonce and key, and the agent. *)
Definition factor_summary (r : MfaCredentialRecord) : json :=
  JObj [("created_at", time_json lib (mc_created_at r)); ("factor_type", factor_type_json (mc_factor_type r));
        ("failed_attempts", JInt (mc_failed_attempts r)); ("label", opt_json JStr (mc_label r));
        ("last_failed_at", opt_json (time_json lib) (mc_last_failed_at r));
        ("last_used_at", opt_json (time_json lib) (mc_last_used_at r));
        ("last_used_counter", opt_json JInt (mc_last_used_counter r));
        ("locked_until", opt_json (time_json lib) (mc_locked_until r)); ("lockout_count", JInt (mc_lockout_count r));
        ("mfa_factor_id", JStr (mc_mfa_factor_id r)); ("revoked_at", opt_json (time_json lib) (mc_revoked_at r));
        ("status", factor_status_json (mc_status r)); ("verified_at", opt_json (time_json lib) (mc_verified_at r))].

(** [list_mfa_factors]. *)
Definition list_mfa_factors (agent_id : string) : prog (result json ApiProblem) :=
  records <-? or_broken GR_MfaList "failed to list MFA factors" (call (op_admin (AO_mfa_list agent_id))) ;;
  _ <- call (op_metric (Met_success GR_MfaList)) ;;
  mfa_answer (JObj [("items", JArr (factor_summary <$> records)); ("total", JInt (Z.of_nat (length records)))]).

(** [get_mfa_factor]. *)
Definition get_mfa_factor (agent_id mfa_factor_id : string) : prog (result json ApiProblem) :=
  found <-? or_broken GR_MfaGet "failed to retrieve MFA factor" (call (op_admin (AO_mfa_get mfa_factor_id))) ;;
  match found with
  | None => refuse_counted app GR_MfaGet (Problem NOT_FOUND EC_NotFound "MFA factor not found")
  | Some record =>
      if negb (String.eqb (mc_agent_id record) agent_id)
      then refuse_counted app GR_MfaGet (Problem NOT_FOUND EC_NotFound "MFA factor not found for agent")
      else
        _ <- call (op_metric (Met_success GR_MfaGet)) ;;
        mfa_answer (factor_summary record)
  end.
End mfa_admin.
