(* ===== verification/LineageApi.v ===== *)
(** * The lineage endpoints (crates/ferrum-gateway/src/lineage.rs)

    The events of an execution, the bounded traversal of the provenance graph from a
    seed event, and the detail of an execution.  Responses are serialized, sanitized and
    read back; the composition of the three is a parameter, as its code is generated.

    The second part holds the bridges to external runtimes. *)

From S2P Require Import Prelude Json Proto Admin Behavioral Graph Store Effects Firewall Validation Provenance.
From S2P Require Import Lifecycle Policies.

(** [serde_json::from_value(sanitize_json(serde_json::to_value(response)?))]: the answer, or
    the text of an error. *)
Record LineageLib := {
  ll_lineage : list ProvenanceEvent * list ProvenanceEdge → result (list ProvenanceEvent * list ProvenanceEdge) string;
  ll_detail : ExecutionRecord * option RollbackContract → result (ExecutionRecord * option RollbackContract) string;
}.

Section lineage_api.
Context (lib : LineageLib) (app : App).

(** The end of a handler: the rendered response. *)
Definition sanitized_ok {T} (route : GovernanceRoute) (r : result T string) : prog (result T ApiProblem) :=
  match r with
  | Ok v => governance_ok route v
  | Err e => governance_err route (internal_text e)
  end.

(** ** The events of an execution *)

(** The edges to every event, collected in order. *)
Fixpoint edges_of_events (route : GovernanceRoute) (events : list ProvenanceEvent)
  : prog (result (list (EventId * list ProvenanceEdge)) ApiProblem) :=
  match events with
  | [] => Ret (Ok [])
  | event :: rest =>
      edges <-? checked route (call (op_edges_to (ev_event_id event))) ;;
      others <-? edges_of_events route rest ;;
      Ret (Ok ((ev_event_id event, edges) :: others))
  end.

(** The graph of the events and their edges. *)
Definition lineage_graph (events : list ProvenanceEvent) (edges : list (EventId * list ProvenanceEdge)) : LineageGraph :=
  build ((AddEvent <$> events)
         ++ mjoin ((λ p : EventId * list ProvenanceEdge, (λ e, AddEdge (ed_from_event_id e) p.1) <$> p.2) <$> edges)).

(** [get_execution_lineage]: the graph is built and not used. *)
Definition get_execution_lineage (auth_actor : option AuthActor) (execution_id : string)
  : prog (result (ExecutionId * list ProvenanceEvent) ApiProblem) :=
  let route := GR_ProvenanceLineageExecutionId in
  execution <-? load_execution app route execution_id auth_actor ;;
  let id := ex_execution_id execution in
  events <-? checked route (call (op_query
      {| pq_intent_id := None; pq_execution_id := Some id; pq_capability_id := None; pq_event_kind := None;
         pq_since := None; pq_until := None; pq_edge_types := [] |})) ;;
  edges <-? edges_of_events route events ;;
  let _graph := lineage_graph events edges in
  r <-? sanitized_ok route (ll_lineage lib (events, [])) ;;
  Ret (Ok (id, r.1)).

(** ** Traversal *)

Inductive LineageDirection := LD_Ancestors | LD_Descendants | LD_Both.
Definition goes_up (d : LineageDirection) : bool := match d with LD_Descendants => false | _ => true end.
Definition goes_down (d : LineageDirection) : bool := match d with LD_Ancestors => false | _ => true end.

Record LineageQueryRequest := {
  lq_event_id : EventId;
  lq_direction : LineageDirection;
  lq_max_hops : nat;
}.

(** [max_hops.clamp(1, 10)]. *)
Definition clamp_hops (n : nat) : nat := 1 `max` (n `min` 10).

(** What the traversal carries. *)
Record Traversal := mkTraversal {
  tv_visited : gset string;
  tv_events : list ProvenanceEvent;
  tv_edges : list ProvenanceEdge;
  tv_next : list EventId;
}.

(** One edge: its other end is visited once, and followed if its event is stored. *)
Definition visit_edge (target : ProvenanceEdge → option EventId) (edge : ProvenanceEdge) (s : Traversal)
  : prog (result Traversal ApiProblem) :=
  let push s := mkTraversal (tv_visited s) (tv_events s) (tv_edges s ++ [edge]) (tv_next s) in
  match target edge with
  | Some id =>
      if decide (id ∈ tv_visited s) then Ret (Ok (push s))
      else
        let visited := {[id]} ∪ tv_visited s in
        e <-? checked GR_ProvenanceLineage (call (op_get_event id)) ;;
        Ret (Ok (push match e with
                      | Some event => mkTraversal visited (tv_events s ++ [event]) (tv_edges s) (tv_next s ++ [id])
                      | None => mkTraversal visited (tv_events s) (tv_edges s) (tv_next s)
                      end))
  | None => Ret (Ok (push s))
  end.
Fixpoint visit_edges (target : ProvenanceEdge → option EventId) (edges : list ProvenanceEdge) (s : Traversal)
  : prog (result Traversal ApiProblem) :=
  match edges with
  | [] => Ret (Ok s)
  | edge :: rest => s <-? visit_edge target edge s ;; visit_edges target rest s
  end.

(** One event of the frontier: its parents, then its children. *)
Definition expand (direction : LineageDirection) (id : EventId) (s : Traversal) : prog (result Traversal ApiProblem) :=
  s <-? (if goes_up direction then
           edges <-? checked GR_ProvenanceLineage (call (op_edges_to id)) ;;
           visit_edges (λ e, Some (ed_from_event_id e)) edges s
         else Ret (Ok s)) ;;
  if goes_down direction then
    edges <-? checked GR_ProvenanceLineage (call (op_read (RO_edges_from id))) ;;
    visit_edges ed_to_event_id edges s
  else Ret (Ok s).
Fixpoint expand_all (direction : LineageDirection) (frontier : list EventId) (s : Traversal)
  : prog (result Traversal ApiProblem) :=
  match frontier with
  | [] => Ret (Ok s)
  | id :: rest => s <-? expand direction id s ;; expand_all direction rest s
  end.

(** The hops: the events found in one are the frontier of the next. *)
Fixpoint traverse (direction : LineageDirection) (hops : nat) (frontier : list EventId) (s : Traversal)
  : prog (result Traversal ApiProblem) :=
  match hops, frontier with
  | O, _ | _, [] => Ret (Ok s)
  | S hops, _ =>
      s <-? expand_all direction frontier s ;;
      traverse direction hops (tv_next s) (mkTraversal (tv_visited s) (tv_events s) (tv_edges s) [])
  end.

(** [query_lineage]. *)
Definition query_lineage (request : LineageQueryRequest)
  : prog (result (list ProvenanceEvent * list ProvenanceEdge) ApiProblem) :=
  let id := lq_event_id request in
  seed_event <-? fetch GR_ProvenanceLineage (op_get_event id) (Problem NOT_FOUND EC_NotFound "seed event not found") ;;
  s <-? traverse (lq_direction request) (clamp_hops (lq_max_hops request)) [id]
          (mkTraversal {[id]} [seed_event] [] []) ;;
  sanitized_ok GR_ProvenanceLineage (ll_lineage lib (tv_events s, tv_edges s)).

(** ** The detail of an execution *)

(** [get_execution]. *)
Definition get_execution (auth_actor : option AuthActor) (execution_id : string)
  : prog (result (ExecutionRecord * option RollbackContract) ApiProblem) :=
  let route := GR_ExecutionsExecutionId in
  record <-? load_execution app route execution_id auth_actor ;;
  contract <-? match ex_rollback_contract_id record with
               | Some contract_id => checked route (call (op_get_contract contract_id))
               | None => Ret (Ok None)
               end ;;
  sanitized_ok route (ll_detail lib (record, contract)).
End lineage_api.

(** * Bridges to external runtimes (crates/ferrum-gateway/src/bridge.rs and
      crates/ferrum-sync/src/mcp_bridge.rs)

    A bridge is an object shared by all requests; a handler sees it as it is at one
    moment.  Provenance of external runtimes enters through [ingest_provenance], which
    accepts two kinds of event only. *)


(** ** Runtime bridges *)

Inductive SyncError := SyE_Transport (msg : string) | SyE_Probe (msg : string) | SyE_Internal (msg : string).

Definition sync_error_text (e : SyncError) : string :=
  match e with
  | SyE_Transport m => "transport error: " +:+ m
  | SyE_Probe m => "probe error: " +:+ m
  | SyE_Internal m => "internal: " +:+ m
  end.

Record BridgeToolInfo := mkTool {
  bt_name : string;
  bt_description : string;
  bt_input_schema : option json;
}.

Record BridgeSubmitResult := { bs_accepted : bool; bs_message : option string }.

(** What the trait [RuntimeBridge], with its supertrait [ExternalEventSource], promises a
    handler: a state and the methods on it. *)
Class RuntimeBridge (B : Type) := {
  runtime_id : B → string;
  is_connected : B → bool;
  try_connect : B → result unit SyncError * B;
  poll_events : B → result (list ProvenanceEvent) SyncError * B;
  list_tools : B → result (list BridgeToolInfo) SyncError;
  submit_event : ProvenanceEvent → B → result BridgeSubmitResult SyncError * B;
}.

Record McpBridge := mkMcpBridge {
  mb_runtime_id : string;
  mb_connected : bool;
  mb_tools : list BridgeToolInfo;
  mb_pending_events : list ProvenanceEvent;
}.

Definition mcp_new (runtime_id : string) : McpBridge := mkMcpBridge runtime_id false [] [].
Definition with_tools (tools : list BridgeToolInfo) (b : McpBridge) : McpBridge :=
  mkMcpBridge (mb_runtime_id b) (mb_connected b) tools (mb_pending_events b).

Definition mcp_try_connect (b : McpBridge) : result unit SyncError * McpBridge :=
  (Ok tt, mkMcpBridge (mb_runtime_id b) true (mb_tools b) (mb_pending_events b)).

Definition not_connected : SyncError := SyE_Transport "not connected".

Definition mcp_poll_events (b : McpBridge) : result (list ProvenanceEvent) SyncError * McpBridge :=
  if negb (mb_connected b) then (Err not_connected, b)
  else (Ok (mb_pending_events b), mkMcpBridge (mb_runtime_id b) (mb_connected b) (mb_tools b) []).

Definition mcp_list_tools (b : McpBridge) : result (list BridgeToolInfo) SyncError :=
  if negb (mb_connected b) then Err not_connected else Ok (mb_tools b).

Definition mcp_submit_event (event : ProvenanceEvent) (b : McpBridge) : result BridgeSubmitResult SyncError * McpBridge :=
  if negb (mb_connected b) then (Err not_connected, b)
  else (Ok {| bs_accepted := true; bs_message := Some "event accepted by MCP runtime" |},
        mkMcpBridge (mb_runtime_id b) (mb_connected b) (mb_tools b) (mb_pending_events b ++ [event])).

#[export] Instance McpBridge_runtime : RuntimeBridge McpBridge := {|
  runtime_id := mb_runtime_id;
  is_connected := mb_connected;
  try_connect := mcp_try_connect;
  poll_events := mcp_poll_events;
  list_tools := mcp_list_tools;
  submit_event := mcp_submit_event;
|}.

(** ** Requests and answers *)

Record ProvenanceIngestRequest := {
  ig_source_runtime_id : string;
  ig_kind : ProvenanceEventKind;
  ig_description : string;
  ig_execution_id : option ExecutionId;
  ig_intent_id : option IntentId;
  ig_trust_labels : list TrustLabel;
  ig_sensitivity_labels : list SensitivityLabel;
  ig_metadata : JsonMap;
}.
Record ProvenanceIngestResponse := { ia_event_id : EventId; ia_linked : bool }.

Record BridgeInfo := { bi_runtime_id : string; bi_connected : bool }.
Record BridgeToolsResponse := mkToolsResponse { br_runtime_id : string; br_tools : list BridgeToolInfo }.

(** [serde_json::to_value] of an answer, and [serde_json::from_value] back. *)
Definition tool_json (t : BridgeToolInfo) : json :=
  JObj [("description", JStr (bt_description t)); ("input_schema", default JNull (bt_input_schema t));
        ("name", JStr (bt_name t))].
Definition tools_response_json (r : BridgeToolsResponse) : json :=
  JObj [("runtime_id", JStr (br_runtime_id r)); ("tools", JArr (tool_json <$> br_tools r))].

Definition tool_of_json (v : json) : option BridgeToolInfo :=
  m ← as_object v;
  name ← smap_get "name" m ≫= as_str;
  description ← smap_get "description" m ≫= as_str;
  Some (mkTool name description
          match smap_get "input_schema" m with None | Some JNull => None | Some schema => Some schema end).
Definition tools_response_of_json (v : json) : option BridgeToolsResponse :=
  m ← as_object v;
  id ← smap_get "runtime_id" m ≫= as_str;
  tools ← match smap_get "tools" m with Some (JArr l) => mapM tool_of_json l | _ => None end;
  Some (mkToolsResponse id tools).

Section handlers.
Context (app : App) {B : Type} `{!RuntimeBridge B} (bridges : list B).

(** The first registered bridge of that id. *)
Definition find_bridge (id : string) : option B := List.find (λ b, String.eqb (runtime_id b) id) bridges.

(** [query_provenance]. *)
Definition query_provenance (request : ProvenanceQueryRequest) : prog (result (list ProvenanceEvent) ApiProblem) :=
  events <-? checked GR_ProvenanceQuery (call (op_query request)) ;;
  governance_ok GR_ProvenanceQuery events.

(** [is_externally_ingestible_kind]. *)
Definition is_externally_ingestible_kind (kind : ProvenanceEventKind) : bool :=
  match kind with PK_ExternalEventReceived | PK_UserGoalReceived => true | _ => false end.

(** The event of an accepted request. *)
Definition ingested_event (event_id : EventId) (now : Timestamp) (request : ProvenanceIngestRequest) : ProvenanceEvent :=
  {| ev_event_id := event_id;
     ev_kind := ig_kind request;
     ev_occurred_at := now;
     ev_actor := {| ar_actor_type := AT_Gateway; ar_actor_id := ig_source_runtime_id request; ar_display_name := None |};
     ev_object := {| or_object_type := OT_ProvenanceEvent; or_object_id := ig_source_runtime_id request;
                     or_summary := Some (ig_description request) |};
     ev_intent_id := ig_intent_id request;
     ev_proposal_id := None;
     ev_execution_id := ig_execution_id request;
     ev_capability_id := None;
     ev_rollback_contract_id := None;
     ev_policy_bundle_id := None;
     ev_trust_labels := ig_trust_labels request;
     ev_sensitivity_labels := ig_sensitivity_labels request;
     ev_parent_edges := [];
     ev_hash_chain := {| hc_content_hash := None; hc_manifest_hash := None; hc_policy_bundle_hash := None;
                         hc_previous_ledger_hash := None |};
     ev_metadata := ig_metadata request;
     ev_source_runtime_id := Some (ig_source_runtime_id request) |}.

(** [ingest_provenance]. *)
Definition ingest_provenance (request : ProvenanceIngestRequest) : prog (result ProvenanceIngestResponse ApiProblem) :=
  match find_bridge (ig_source_runtime_id request) with
  | None => governance_err GR_ProvenanceIngest
              (Problem BAD_REQUEST EC_ValidationError ("unknown source_runtime_id: " +:+ ig_source_runtime_id request))
  | Some _ =>
      if negb (is_externally_ingestible_kind (ig_kind request)) then
        governance_err GR_ProvenanceIngest
          (Problem BAD_REQUEST EC_ValidationError
             ("provenance event kind is not externally ingestible: " +:+ debug_event_kind (ig_kind request)))
      else
        event_id <- call op_uuid ;;
        now <- call op_now ;;
        _ <-? checked GR_ProvenanceIngest (call (op_append_event (ingested_event event_id now request) [])) ;;
        governance_ok GR_ProvenanceIngest {| ia_event_id := event_id; ia_linked := true |}
  end.

(** [list_bridges]. *)
Definition list_bridges : list BridgeInfo :=
  (λ b, {| bi_runtime_id := runtime_id b; bi_connected := is_connected b |}) <$> bridges.

(** [list_bridge_tools]. *)
Definition list_bridge_tools (bridge_id : string) : prog (result BridgeToolsResponse ApiProblem) :=
  let route := GR_BridgesBridgeIdTools in
  match find_bridge bridge_id with
  | None => governance_err route (Problem NOT_FOUND EC_NotFound ("bridge not found: " +:+ bridge_id))
  | Some bridge =>
      if negb (is_connected bridge) then
        governance_err route
          (Problem SERVICE_UNAVAILABLE EC_Internal ("bridge '" +:+ bridge_id +:+ "' is not connected"))
      else
        match list_tools bridge with
        | Err e => governance_err route (internal_text (sync_error_text e))
        | Ok tools =>
            match tools_response_of_json (sanitize_json app (tools_response_json (mkToolsResponse bridge_id tools))) with
            | None => governance_err route (internal_text "malformed response")
            | Some response => governance_ok route response
            end
        end
  end.
End handlers.
