(* ===== verification/FsRestore.v ===== *)
(** * Rollback of the file-system adapter restores the tree

    For each action: when prepare, execute and rollback ran one after the other on a
    file system without faults and rollback reports that it recovered, the tree is what
    it was before, outside the directory of the snapshots. *)

From stdpp Require Import pretty.
From S2P Require Import Prelude Json Proto Adapter RollbackSvc Lifecycle Handlers FileSystem FsAdapter FsPhases FsFacts FsSnapshot.

#[local] Opaque walk.

Lemma recovering_inv {A E} (text : E → string) op path (m : io (result A E)) k h s rr s' :
  recovering text op path m k h s = (Ok rr, s') → rr_recovered rr = true →
  ∃ a s1, m h s = (Ok a, s1) ∧ k a h s1 = (Ok rr, s').
Proof.
  intros (r & s1 & Hm & Hk)%io_bind_inv Hr. destruct r; [eauto |]. unfold io_ret in Hk. by simplify_eq.
Qed.

Lemma fs_require_inv b phase msg h s u s' :
  fs_require b phase msg h s = (Ok u, s') → b = true ∧ s' = s.
Proof. destruct b; by intros [= <- <-]. Qed.

Lemma execute_fs_inv {A} msg path (m : io (result A FsAdapterError)) h s a s' :
  execute_fs msg path m h s = (Ok a, s') → m h s = (Ok a, s').
Proof. apply io_map_err_inv. Qed.
Lemma execute_io_inv {A} msg path (m : io (result A IoError)) h s a s' :
  execute_io msg path m h s = (Ok a, s') → m h s = (Ok a, s').
Proof. apply io_map_err_inv. Qed.

(** The modes of a tree are permission bits. *)
Definition modes_ok (t : Tree) : Prop := ∀ x c m, t !! x = Some (File c m) → Z.land m 4095 = m.

Section restore.
Context (lib : FsLib) (fa : FsAdapter) (h : Host) (root : Loc).
Context (Hcalm : calm h) (Hsym : fb_allow_symlinks (fa_bounds fa) = false).
Implicit Types (t : Tree) (s : Fs) (path : string).

(** The snapshots of an execution are below [root]. *)
Definition snapshots_below (eid : ExecutionId) : Prop :=
  ∀ p, ∃ names, related root names ∧
    compute_snapshot_path lib (snapshot_dir h) eid p = RootDir :: (Normal <$> names).

(** The trees agree outside the area of the snapshots. *)
Definition restored t t' : Prop := ∀ x, ¬ related root x → t' !! x = t !! x.

Lemma restored_at t0 t1 t3 l :
  area_step root t0 t1 → (∀ x, x ≠ l → t3 !! x = t1 !! x) → t3 !! l = t0 !! l → restored t0 t3.
Proof.
  intros Hs Ho Hl x Hx. destruct (decide (x = l)) as [-> | Hne]; [done |].
  rewrite Ho by done. by apply (as_outside _ _ _ Hs).
Qed.

Lemma unrelated_ne l : ¬ related root l → l ≠ [].
Proof. intros Hl ->. apply Hl. left. apply prefix_nil. Qed.

(** A file that a plain path leads to. *)
Lemma lookup_node t f path l n :
  plain h t path → ¬ related root (spelled h path) → lookup_path h t f (kernel_path path) = Ok (l, n) →
  l = spelled h path ∧ t !! spelled h path = Some n.
Proof.
  intros Hp Hu Hl. pose proof (lookup_spelled h t f path l n Hp Hl) as ->. split; [done |].
  apply lookup_path_inv in Hl as [_ Hn]. by rewrite node_at_cons in Hn by (by apply unrelated_ne).
Qed.

(** ** Steps shared by the actions *)

(** [take_snapshot] on an existing file. *)
Lemma take_snapshot_inv phase action eid path s snap s' l c m :
  snapshots_below eid → area_plain root (fs_tree s) → ¬ related root l →
  lookup_path h (fs_tree s) true (kernel_path path) = Ok (l, File c m) →
  take_snapshot lib phase action eid path h s = (Ok snap, s') →
  snap = compute_snapshot_path lib (snapshot_dir h) eid path ∧ area_step root (fs_tree s) (fs_tree s') ∧
  ∃ names, related root names ∧ lookup_path h (fs_tree s') true snap = Ok (names, File c (Z.land m 4095)).
Proof.
  intros Hb Hp Hl Hlk (snap' & s1 & [= <- <-] & H)%io_bind_inv.
  apply io_try_inv in H as (u & s2 & H%io_map_err_inv & [= <- <-]). split; [done |].
  destruct (Hb path) as (names & Hr & Heq). rewrite Heq in *.
  eapply capture_snapshot_inv in H as (c' & m' & Hcm & Hs & Hn); [| done..]. simplify_eq. eauto.
Qed.

Lemma snapshot_tail eid path : snapshots_below eid →
  RootDir ∉ tl (compute_snapshot_path lib (snapshot_dir h) eid path).
Proof.
  intros Hb. destruct (Hb path) as (names & _ & ->). simpl. by intros (? & ? & _)%list_elem_of_fmap.
Qed.

(** A snapshot stays while files outside the area change. *)
Lemma snapshot_kept t t' snap names c m :
  RootDir ∉ tl snap → related root names → lookup_path h t true snap = Ok (names, File c m) →
  same_shape t t' → t' !! names = t !! names → lookup_path h t' true snap = Ok (names, File c m).
Proof.
  intros Htl Hr Hl Hs Heq. eapply lookup_agree; [done | done | done | | done].
  apply lookup_path_inv in Hl as [_ Hn]. destruct names; [done |]. simpl in *. congruence.
Qed.

(** Copying the snapshot back. *)
Lemma copy_back snap path s u s' names c m :
  lookup_path h (fs_tree s) true snap = Ok (names, File c m) → related root names →
  plain h (fs_tree s) path → ¬ related root (spelled h path) →
  copy_file snap (kernel_path path) h s = (Ok u, s') →
  fs_tree s' = <[spelled h path := File c (Z.land m 4095)]> (fs_tree s).
Proof.
  intros Hsn Hr Hp Hu H. apply copy_file_inv in H as (lf & c' & m' & lt & Hf & Ht & _ & _ & ->); [| done].
  rewrite Hsn in Hf. simplify_eq. apply resolve_spelled in Ht as ->; [| done].
  rewrite decide_False; [done |]. intros Heq. apply Hu. by rewrite <- Heq.
Qed.

Lemma write_file_nofollow_inv path data s u s' :
  plain h (fs_tree s) path → write_file_nofollow path data h s = (Ok u, s') →
  resolve h (fs_tree s) false (kernel_path path) = Ok (spelled h path) ∧
  file_or_free (fs_tree s) (spelled h path) ∧
  fs_tree s' = <[spelled h path := File data (written_mode (fs_tree s) (spelled h path) (file_mode h))]> (fs_tree s).
Proof.
  intros Hp H%io_map_err_inv. apply write_contents_inv in H as (l & Hr & _ & Hn & Ht); [| done].
  pose proof (resolve_spelled _ _ _ _ _ Hp Hr) as ->. done.
Qed.

(** [delete_created] on the file that the action created. *)
Lemma delete_created_inv action path s rr s' :
  plain h (fs_tree s) path → delete_created action path h s = (Ok rr, s') → rr_recovered rr = true →
  (∃ c m, lookup_path h (fs_tree s) true (kernel_path path) = Ok (spelled h path, File c m)) →
  fs_tree s' = delete (spelled h path) (fs_tree s).
Proof.
  intros Hp (b & s1 & Hb & H)%io_bind_inv Hrr (c & m & Hl).
  apply is_existing_file_inv in Hb as [-> Ht]; [| done].
  rewrite Hl in H. apply recovering_inv in H as ([] & s2 & H & [= <- <-]); [| done].
  apply remove_file_inv in H as (l & n & Hlk & _ & ->); [| done]. rewrite Ht in *. f_equal.
  by eapply lookup_spelled.
Qed.

(** ** The phases *)

Lemma extract_path_inv target path :
  extract_path lib target = Ok path → ∃ b a, target = RTg_FilePath path b a.
Proof. destruct target; naive_solver. Qed.

Lemma prepare_inv request prep s s' :
  fs_prepare lib fa request h s = (Ok prep, s') →
  ∃ path b a now s1,
    rpr_target request = RTg_FilePath path b a ∧ plain h (fs_tree s) path ∧ fs_tree s1 = fs_tree s ∧
    (fs_file_action (rpr_action_type request) = true → ∀ l c m,
      lookup_path h (fs_tree s) true (kernel_path path) = Ok (l, File c m) →
      (Z.of_nat (String.length c) ≤ fb_max_file_size (fa_bounds fa))%Z) ∧
    prepare_action lib request path [("adapter_kind", JStr ADAPTER_KIND); ("prepared_at", JStr now)] h s1
      = (Ok (prep_adapter_metadata prep), s').
Proof.
  unfold fs_prepare. destruct (extract_path lib _) as [path|] eqn:E; [| done].
  apply extract_path_inv in E as (b & a & E). destruct (negb _); [done |].
  intros ([] & s1 & H1 & H)%io_try_inv. pose proof (revalidate_plain _ Hcalm _ _ _ _ _ Hsym H1) as Hp.
  apply reading_tree in H1 as Ht1; [| auto with reading nocore].
  apply io_try_inv in H as ([] & s2 & H2 & H). apply reading_tree in H2 as Ht2; [| auto with reading nocore].
  apply io_try_inv in H as ([] & s3 & H3 & H). apply reading_tree in H3 as Ht3; [| auto with reading nocore].
  apply io_bind_inv in H as (now & s4 & [= <- <-] & H).
  apply io_try_inv in H as (md & s5 & H & [= <- <-]).
  exists path, b, a, (h_now h (fs_tick s3)), s3. split_and!; [done.. | congruence | | done].
  intros Hf l c m Hl. unfold prepare_size in H2. rewrite Hf in H2.
  apply io_bind_inv in H2 as (old & s6 & [-> Ht6]%is_existing_file_inv & H2); [| done].
  rewrite Ht1, Hl in H2. apply io_map_err_inv, io_try_inv in H2 as (md' & s7 & H7%io_map_err_inv & H2).
  apply metadata_inv in H7 as (_ & l' & Hl'); [| done]. rewrite Ht6, Ht1, Hl in Hl'.
  injection Hl' as _ Hn. rewrite <- Hn in H2. simpl in H2. unfold io_ret in H2.
  destruct (_ <? _)%Z eqn:Elt; [done |]. lia.
Qed.

Lemma fs_execute_inv contract payload path b a r s s' :
  rc_target contract = RTg_FilePath path b a →
  fs_execute lib fa contract payload h s = (Ok r, s') →
  plain h (fs_tree s) path ∧
  ∃ s1, fs_tree s1 = fs_tree s ∧ execute_action lib fa contract path payload h s1 = (Ok r, s').
Proof.
  intros Ht. unfold fs_execute. rewrite Ht. simpl. intros ([] & s1 & H1 & H)%io_try_inv.
  split; [by eapply revalidate_plain |]. exists s1. split; [| done].
  by eapply reading_tree; [apply reading_revalidate_path |].
Qed.

Lemma rollback_inv contract path b a r s s' :
  rc_target contract = RTg_FilePath path b a →
  fs_rollback lib fa contract h s = (Ok r, s') →
  plain h (fs_tree s) path ∧
  ∃ s1, fs_tree s1 = fs_tree s ∧ FsPhases.rollback_action lib fa contract path h s1 = (Ok r, s').
Proof.
  intros Ht. unfold fs_rollback. destruct (negb _); [done |]. rewrite Ht. simpl.
  intros ([] & s1 & H1 & H)%io_try_inv.
  split; [by eapply revalidate_plain |]. exists s1. split; [| done].
  by eapply reading_tree; [apply reading_revalidate_path |].
Qed.

(** ** FileWrite and FileDelete *)

(** Rollback after the target alone has changed since the snapshot. *)
Lemma content_restores contract path s0 s1 s2 rr s3 f c m phase action snap :
  let l := spelled h path in
  snapshots_below (rc_execution_id contract) → area_plain root (fs_tree s0) → modes_ok (fs_tree s0) →
  ¬ related root l → lookup_path h (fs_tree s0) true (kernel_path path) = Ok (l, File c m) →
  take_snapshot lib phase action (rc_execution_id contract) path h s0 = (Ok snap, s1) →
  plain h (fs_tree s1) path → resolve h (fs_tree s1) f (kernel_path path) = Ok l →
  same_shape (fs_tree s1) (fs_tree s2) → (∀ x, x ≠ l → fs_tree s2 !! x = fs_tree s1 !! x) →
  plain h (fs_tree s2) path → meta_flag "created_new_file" (rc_metadata contract) = false →
  rollback_content lib contract path h s2 = (Ok rr, s3) → rr_recovered rr = true →
  restored (fs_tree s0) (fs_tree s3).
Proof.
  intros l Hb Hap Hm Hu Hlk Hsn Hp1 Hres Hsh Hsame Hp2 Hflag Hroll Hrr.
  eapply take_snapshot_inv in Hsn as (-> & Hstep & names & Hrn & Hsn); [| done..].
  assert (fs_tree s0 !! l = Some (File c m)) as Hl0.
  { apply lookup_path_inv in Hlk as [_ Hn]. by rewrite node_at_cons in Hn by (by apply (unrelated_ne)). }
  apply (snapshot_kept _ (fs_tree s2)) in Hsn; [| by apply snapshot_tail | done | done |].
  2: { apply Hsame. by intros ->. }
  unfold rollback_content in Hroll. rewrite Hflag in Hroll.
  apply io_bind_inv in Hroll as (snap & s4 & [= <- <-] & H).
  apply io_bind_inv in H as (there & s5 & [_ Ht5]%path_exists_inv & H); [| done].
  apply io_try_inv in H as (u & s6 & [_ ->]%fs_require_inv & H).
  apply recovering_inv in H as ([] & s7 & H7 & H); [| done].
  eapply ensure_parent_inv in H7 as [_ Ht7]; [| done | exact Hp1 | done | by rewrite Ht5].
  apply recovering_inv in H as ([] & s8 & H8 & H); [| done].
  apply recovering_inv in H as (hash & s9 & H9 & [= <- <-]); [| done].
  apply reading_tree in H9 as Ht9; [| auto with reading nocore].
  rewrite <- Ht5, <- Ht7 in Hsn, Hp2. eapply copy_back in H8; [| done..].
  apply (restored_at _ (fs_tree s1) _ l); [done | |].
  - intros x Hx. rewrite Ht9, H8, lookup_insert_ne, Ht7, Ht5 by done. by apply Hsame.
  - rewrite Ht9, H8, lookup_insert_eq, Hl0. repeat f_equal.
    rewrite <- Z.land_assoc. change (Z.land 4095 4095) with 4095%Z. by eapply Hm.
Qed.

(** The file at a location after it was written. *)
Lemma lookup_after_write t path f n :
  resolve h t f (kernel_path path) = Ok (spelled h path) → file_or_free t (spelled h path) →
  ¬ related root (spelled h path) → (∀ tg, n ≠ Link tg) →
  lookup_path h (<[spelled h path := n]> t) f (kernel_path path) = Ok (spelled h path, n).
Proof.
  intros Hr Hf Hu Hn. apply lookup_path_inv. rewrite node_at_insert by (by apply unrelated_ne).
  split; [| done]. eapply resolve_agree; [by apply same_shape_insert | | apply kernel_path_tail | done].
  rewrite node_at_insert by (by apply unrelated_ne). naive_solver.
Qed.

Lemma write_restores request contract payload path md0 md s0 s1 s1' r s2 s2' rr s3 :
  snapshots_below (rc_execution_id contract) → rc_execution_id contract = rpr_execution_id request →
  area_plain root (fs_tree s0) → modes_ok (fs_tree s0) → ¬ related root (spelled h path) →
  smap_get "created_new_file" md0 = None →
  plain h (fs_tree s0) path → prepare_write lib request path md0 h s0 = (Ok md, s1) →
  fs_tree s1' = fs_tree s1 → plain h (fs_tree s1') path →
  execute_write lib path payload h s1' = (Ok r, s2) →
  fs_tree s2' = fs_tree s2 → plain h (fs_tree s2') path →
  meta_flag "created_new_file" (rc_metadata contract) = meta_flag "created_new_file" md →
  rollback_content lib contract path h s2' = (Ok rr, s3) → rr_recovered rr = true →
  restored (fs_tree s0) (fs_tree s3).
Proof.
  intros Hb Heid Hap Hm Hu Hmd0 Hp0 Hprep Ht1 Hp1 Hexec Ht2 Hp2 Hflag Hroll Hrr.
  unfold execute_write in Hexec. destruct (write_content payload) as [data|]; [| done].
  apply io_try_inv in Hexec as ([] & s2a & Hw%execute_fs_inv & [= <- <-]).
  destruct (write_file_nofollow_inv _ _ _ _ _ Hp1 Hw) as (Hres & Hfree & Htw).
  unfold prepare_write in Hprep. apply io_bind_inv in Hprep as (old & s0a & Hold & Hprep).
  destruct old.
  - apply existing_file_inv in Hold as (Ht0 & l & c & m & Hlk); [| done].
    destruct (lookup_node _ _ _ _ _ Hp0 Hu Hlk) as [-> Hl0]. rewrite <- Ht0 in *.
    apply io_try_inv in Hprep as (snap & s1a & Hsn & [= <- <-]).
    unfold meta_flag, put_str in Hflag. rewrite !index_insert_get, Hmd0 in Hflag. simpl in Hflag.
    rewrite <- Heid in Hsn. rewrite Ht1 in *.
    apply (content_restores contract path s0a s1a s2' rr s3 false c m PHASE_PREPARE "FileWrite" snap); try assumption.
    + rewrite Ht2, Htw. auto with ferrum.
    + intros x Hx. rewrite Ht2, Htw. by apply lookup_insert_ne.
  - apply is_existing_file_inv in Hold as [Hnf Ht0]; [| done].
    apply io_try_inv in Hprep as (u & s1a & Hpar & [= <- <-]).
    assert (fs_tree s1a = fs_tree s0) as Ht1a.
    { rewrite <- Ht0. revert Hpar. apply reading_tree. solve_reading. }
    unfold meta_flag, put_str, put_bool in Hflag. rewrite !index_insert_get in Hflag. simpl in Hflag.
    unfold rollback_content in Hroll. unfold meta_flag in Hroll. rewrite Hflag in Hroll.
    apply delete_created_inv in Hroll; [| done..|].
    2: { rewrite Ht2, Htw. eexists _, _. apply lookup_after_write; [| done..].
         by eapply resolve_nofollow. }
    assert (fs_tree s0 !! spelled h path = None) as Hnone.
    { destruct (fs_tree s0 !! spelled h path) as [n|] eqn:En; [| done]. exfalso.
      rewrite Ht1, Ht1a in *. rewrite <- node_at_cons in En by (by apply unrelated_ne).
      destruct (Hfree n En) as (c & m & ->).
      rewrite (proj2 (lookup_path_inv h (fs_tree s0) true (kernel_path path) _ _)
                 (conj (resolve_nofollow h _ _ true _ _ Hp1 Hres) En)) in Hnf. done. }
    apply (restored_at _ (fs_tree s0) _ (spelled h path)); [by apply area_step_refl | |].
    + intros x Hx. rewrite Hroll, lookup_delete_ne, Ht2, Htw, lookup_insert_ne by done. congruence.
    + by rewrite Hroll, lookup_delete_eq.
Qed.

Lemma delete_restores request contract path md0 md s0 s1 s1' r s2 s2' rr s3 :
  snapshots_below (rc_execution_id contract) → rc_execution_id contract = rpr_execution_id request →
  area_plain root (fs_tree s0) → modes_ok (fs_tree s0) → ¬ related root (spelled h path) →
  plain h (fs_tree s0) path → prepare_delete lib request path md0 h s0 = (Ok md, s1) →
  fs_tree s1' = fs_tree s1 → plain h (fs_tree s1') path →
  execute_delete path h s1' = (Ok r, s2) →
  fs_tree s2' = fs_tree s2 → plain h (fs_tree s2') path →
  meta_flag "created_new_file" (rc_metadata contract) = false →
  rollback_content lib contract path h s2' = (Ok rr, s3) → rr_recovered rr = true →
  restored (fs_tree s0) (fs_tree s3).
Proof.
  intros Hb Heid Hap Hm Hu Hp0 Hprep Ht1 Hp1 Hexec Ht2 Hp2 Hflag Hroll Hrr.
  apply io_try_inv in Hexec as ([] & s2a & Hw%execute_io_inv & [= <- <-]).
  apply remove_file_inv in Hw as (l & n & Hrm & Hnd & Htw); [| done].
  destruct (lookup_node _ _ _ _ _ Hp1 Hu Hrm) as [-> Hl1].
  assert (∀ tg, n ≠ Link tg) as Hnl.
  { intros tg ->. apply lookup_path_inv in Hrm as [Hrm Hn].
    destruct (kernel_path path) as [|k0 k] eqn:Ek; [done |].
    eapply (plain_unlinked _ _ _ Hp1 (kernel_path path)); [done | by rewrite Ek | rewrite Ek; exact Hrm | exact Hn]. }
  unfold prepare_delete in Hprep. apply io_try_inv in Hprep as (u & sa & Ha & Hprep).
  assert (fs_tree sa = fs_tree s0) as Hta.
  { revert Ha. apply reading_tree. destruct (rpr_prepare_checks request); solve_reading. }
  apply io_bind_inv in Hprep as (old & sb & Hold & Hprep).
  destruct n as [cn mn| |]; [| by destruct (Hnd mode) | by destruct (Hnl target)]. destruct old.
  - apply existing_file_inv in Hold as (Htb & l & c & m & Hlk); [| done].
    rewrite Hta in Htb, Hlk. destruct (lookup_node _ _ _ _ _ Hp0 Hu Hlk) as [-> Hl0].
    rewrite <- Htb in *. apply io_try_inv in Hprep as (snap & s1a & Hsn & [= <- <-]).
    rewrite <- Heid in Hsn. rewrite Ht1 in *. pose proof Hrm as [Hres Hn1]%lookup_path_inv.
    apply (content_restores contract path sb s1a s2' rr s3 false c m PHASE_PREPARE "FileDelete" snap); try assumption.
    + rewrite Ht2, Htw. eauto with ferrum.
    + intros x Hx. rewrite Ht2, Htw. by apply lookup_delete_ne.
  - exfalso. apply is_existing_file_inv in Hold as [Hnf Htb]; [| done]. injection Hprep as _ <-.
    rewrite Hta in Htb, Hnf. rewrite Ht1, Htb in *.
    by rewrite (lookup_nofollow h _ _ true _ _ Hp1 Hrm) in Hnf.
Qed.

(** ** FileMove *)

Lemma restored_at2 t0 t1 t3 l l' :
  area_step root t0 t1 → (∀ x, x ≠ l → x ≠ l' → t3 !! x = t1 !! x) →
  t3 !! l = t0 !! l → t3 !! l' = t0 !! l' → restored t0 t3.
Proof.
  intros Hs Ho Hl Hl' x Hx. destruct (decide (x = l)) as [-> | Hne]; [done |].
  destruct (decide (x = l')) as [-> | Hne']; [done |].
  rewrite Ho by done. by apply (as_outside _ _ _ Hs).
Qed.

Lemma compare_with_snapshot_inv context path snap k s rr s' :
  compare_with_snapshot lib context path snap k h s = (Ok rr, s') → rr_recovered rr = true →
  ∃ hash s1, fs_tree s1 = fs_tree s ∧ k hash h s1 = (Ok rr, s').
Proof.
  intros H Hrr. apply recovering_inv in H as (rh & s1 & H1 & H); [| done].
  apply recovering_inv in H as (sh & s2 & H2 & H); [| done].
  apply io_try_inv in H as (u & s3 & [_ ->]%fs_require_inv & H). exists rh, s2. split; [| done].
  rewrite (reading_tree _ (reading_compute_hash_at _ _) _ _ _ _ H2).
  by apply (reading_tree _ (reading_compute_file_hash _ _) _ _ _ _ H1).
Qed.

(** The source of a move, still there when the snapshot has been taken. *)
Lemma lookup_after_step t0 t1 path c m :
  area_step root t0 t1 → ¬ related root (spelled h path) → t0 !! spelled h path = Some (File c m) →
  lookup_path h t0 true (kernel_path path) = Ok (spelled h path, File c m) →
  lookup_path h t1 true (kernel_path path) = Ok (spelled h path, File c m).
Proof.
  intros Hs Hu Hl Hlk. eapply lookup_agree; [apply Hs | apply kernel_path_tail | exact Hlk | | done].
  rewrite node_at_cons by (by apply unrelated_ne). by rewrite (as_outside _ _ _ Hs).
Qed.

(** A path still leads to its location after files have changed. *)
Lemma resolve_after t t' path f f' n :
  plain h t path → lookup_path h t f (kernel_path path) = Ok (spelled h path, n) → same_shape t t' →
  (∀ tg, node_at t' (spelled h path) ≠ Some (Link tg)) →
  resolve h t' f' (kernel_path path) = Ok (spelled h path).
Proof.
  intros Hp [Hr _]%lookup_path_inv Hs Hn.
  apply (resolve_agree h t t'); [done | done | apply kernel_path_tail |].
  by apply (resolve_nofollow h t f f').
Qed.

(** The tree after a move. *)
Definition moved_tree t (from to : Loc) (n : Node) : Tree := <[to := n]> (delete from t).

Lemma moved_shape t from to c m n :
  t !! from = Some (File c m) → t !! to = None → from ≠ [] → to ≠ [] →
  same_shape t (moved_tree t from to n).
Proof.
  intros Hf Ht H1 H2. apply (same_shape_trans _ (delete from t)).
  - apply same_shape_delete. eapply file_is_file_or_free. by rewrite node_at_cons.
  - apply same_shape_insert, free_is_file_or_free. rewrite node_at_cons by done.
    apply lookup_delete_None. by right.
Qed.

Lemma move_executes t1 path payload dest c m r s s' :
  fs_tree s = t1 → payload_destination payload = Some dest →
  ¬ related root (spelled h path) → ¬ related root (spelled h dest) → plain h t1 path →
  lookup_path h t1 true (kernel_path path) = Ok (spelled h path, File c m) →
  t1 !! spelled h dest = None →
  execute_move fa path payload h s = (Ok r, s') →
  plain h t1 dest ∧ spelled h path ≠ spelled h dest ∧
  smap_get "destination_path" (exr_adapter_metadata r) = Some (JStr dest) ∧
  ∃ m', fs_tree s' = moved_tree t1 (spelled h path) (spelled h dest) (File c m') ∧
    (smap_get "cross_filesystem_move" (exr_adapter_metadata r) = Some (JBool true) ∨
     smap_get "cross_filesystem_move" (exr_adapter_metadata r) = None ∧ m' = m).
Proof.
  intros <- Hd Hu Hud Hp Hlk Hnone. unfold execute_move. rewrite Hd. intros H.
  assert (spelled h path ≠ spelled h dest) as Hne.
  { intros Heq. rewrite <- Heq in Hnone. apply lookup_path_inv in Hlk as [_ Hn].
    rewrite node_at_cons in Hn by (by apply unrelated_ne). congruence. }
  apply io_try_inv in H as ([] & s1 & H1 & H). pose proof (revalidate_plain _ Hcalm _ _ _ _ _ Hsym H1) as Hpd.
  apply reading_tree in H1 as Ht1; [| auto with reading nocore]. split; [done |]. split; [done |].
  apply io_bind_inv in H as (renamed & s2 & H2 & H). destruct renamed as [|e].
  - injection H as <- <-. split; [done |].
    eapply rename_file_inv in H2 as (lt & Hr & _ & H2);
      [| done | rewrite Ht1; by eapply lookup_nofollow]. rewrite Ht1 in *.
    apply resolve_spelled in Hr as ->; [| done]. destruct H2 as [[? _] | [_ ->]]; [done |].
    exists m. split; [done |]. by right.
  - apply rename_err in H2 as Ht2; [| done]. destruct e; try done.
    apply io_try_inv in H as ([] & s3 & H3%execute_fs_inv & [= <- <-]). split; [done |].
    apply io_try_inv in H3 as ([] & s4 & H4%io_map_err_inv & H5%io_map_err_inv).
    apply copy_file_inv in H4 as (lf & c' & m' & lt & Hf & Hr & _ & Hfree & Ht4); [| done].
    rewrite Ht2, Ht1 in *. rewrite Hlk in Hf. simplify_eq. apply resolve_spelled in Hr as ->; [| done].
    rewrite decide_False in Ht4 by done. exists (Z.land m' 4095). split; [| by left].
    apply remove_file_inv in H5 as (l & n & Hrm & _ & ->); [| done].
    assert (l = spelled h path) as ->.
    { apply lookup_path_inv in Hrm as [Hrm _].
      assert (resolve h (fs_tree s4) false (kernel_path path) = Ok (spelled h path)) as Hr4; [| congruence].
      eapply (resolve_after (fs_tree s)); [exact Hp | exact Hlk | rewrite Ht4; by apply same_shape_insert |].
      apply lookup_path_inv in Hlk as [_ Hn]. rewrite node_at_cons in * by (by apply unrelated_ne).
      rewrite Ht4, lookup_insert_ne by done. by rewrite Hn. }
    unfold moved_tree. rewrite Ht4. by rewrite delete_insert_ne.
Qed.

(** The two ways back from a move. *)
Lemma move_back_cross t1 path dest snap names c m0 m' ms s rr s' :
  let L := spelled h path in let M := spelled h dest in
  ¬ related root L → ¬ related root M → L ≠ M → plain h t1 path → plain h (fs_tree s) dest →
  lookup_path h t1 true (kernel_path path) = Ok (L, File c m0) → same_shape t1 (fs_tree s) →
  fs_tree s = moved_tree t1 L M (File c m') → RootDir ∉ tl snap → related root names →
  lookup_path h (fs_tree s) true snap = Ok (names, File c ms) →
  rollback_move_back lib true path dest snap h s = (Ok rr, s') → rr_recovered rr = true →
  fs_tree s' = <[L := File c (Z.land ms 4095)]> (delete M (fs_tree s)).
Proof.
  intros L M Hu Hud Hne Hp1 Hpd Hlk1 Hsh Hts Htl Hrn Hsn H Hrr. unfold rollback_move_back in H.
  apply io_bind_inv in H as (moved & se & [_ Hte]%is_existing_file_inv & H); [| done].
  apply io_try_inv in H as (u' & sf & [_ ->]%fs_require_inv & H).
  apply recovering_inv in H as ([] & sg & H3 & H); [| done].
  apply remove_file_inv in H3 as (l & n & Hrm & _ & Htg); [| done]. rewrite Hte in Hrm, Htg.
  pose proof (lookup_spelled h _ _ _ _ _ Hpd Hrm) as ->. fold M in Htg.
  apply recovering_inv in H as ([] & sh & H4 & H); [| done].
  apply compare_with_snapshot_inv in H as (hash & si & Hti & [= <- <-]); [| done].
  assert (same_shape (fs_tree s) (fs_tree sg)) as Hsg.
  { rewrite Htg. apply same_shape_delete. eapply file_is_file_or_free.
    rewrite Hts. unfold moved_tree. rewrite node_at_insert; [done | by apply unrelated_ne]. }
  apply copy_file_inv in H4 as (lf & c' & m'' & lt & Hf & Hr & _ & _ & Hth); [| done].
  apply (snapshot_kept _ (fs_tree sg)) in Hsn; [| done.. |].
  2: { rewrite Htg. apply lookup_delete_ne. by intros ->. }
  rewrite Hsn in Hf. simplify_eq.
  assert (lt = L) as ->.
  { assert (resolve h (fs_tree sg) true (kernel_path path) = Ok L) as HrL; [| congruence].
    eapply (resolve_after t1); [exact Hp1 | exact Hlk1 | by eapply same_shape_trans |].
    rewrite node_at_cons, Htg, Hts by (by apply unrelated_ne). unfold moved_tree.
    fold L. by rewrite lookup_delete_ne, lookup_insert_ne, lookup_delete_eq by done. }
  rewrite decide_False in Hth by (by intros ->). by rewrite Hti, Hth, Htg.
Qed.

Lemma move_back_rename t1 path dest snap c m s rr s' :
  let L := spelled h path in let M := spelled h dest in
  ¬ related root M → L ≠ M → plain h (fs_tree s) path → plain h (fs_tree s) dest →
  fs_tree s = moved_tree t1 L M (File c m) →
  rollback_move_back lib false path dest snap h s = (Ok rr, s') → rr_recovered rr = true →
  fs_tree s' = <[L := File c m]> (delete M (fs_tree s)).
Proof.
  intros L M Hud Hne Hp Hpd Hts H Hrr. unfold rollback_move_back in H.
  apply io_bind_inv in H as (moved & se & Hmv & H).
  apply io_try_inv in H as (u' & sf & [-> ->]%fs_require_inv & H).
  apply existing_file_inv in Hmv as (Hte & l & c2 & m2 & Hlk2); [| done].
  pose proof (lookup_spelled h _ _ _ _ _ Hpd Hlk2) as ->.
  apply recovering_inv in H as ([] & sg & H3 & H); [| done].
  eapply rename_file_inv in H3 as (lt & Hr & _ & H3);
    [| done | rewrite Hte; by eapply lookup_nofollow]. rewrite Hte in *.
  apply resolve_spelled in Hr as ->; [| done]. destruct H3 as [[? _] | [_ Htg]]; [done |].
  apply compare_with_snapshot_inv in H as (hash & si & Hti & [= <- <-]); [| done].
  assert (File c2 m2 = File c m) as Heq.
  { apply lookup_path_inv in Hlk2 as [_ Hn2]. rewrite Hts in Hn2. unfold moved_tree in Hn2.
    rewrite node_at_insert in Hn2 by (by apply unrelated_ne). congruence. }
  rewrite Heq in Htg. by rewrite Hti, Htg.
Qed.

Lemma move_restores request contract payload dest path md0 md s0 s1 s1' r s2 s2' rr s3 :
  snapshots_below (rc_execution_id contract) → rc_execution_id contract = rpr_execution_id request →
  area_plain root (fs_tree s0) → modes_ok (fs_tree s0) → ¬ related root (spelled h path) →
  payload_destination payload = Some dest → ¬ related root (spelled h dest) →
  fs_tree s0 !! spelled h dest = None →
  plain h (fs_tree s0) path → prepare_move lib request path md0 h s0 = (Ok md, s1) →
  fs_tree s1' = fs_tree s1 → plain h (fs_tree s1') path →
  execute_move fa path payload h s1' = (Ok r, s2) →
  fs_tree s2' = fs_tree s2 → plain h (fs_tree s2') path →
  meta_string "destination_path" (rc_metadata contract) = meta_string "destination_path" (exr_adapter_metadata r) →
  meta_flag "cross_filesystem_move" (rc_metadata contract)
    = meta_flag "cross_filesystem_move" (exr_adapter_metadata r) →
  rollback_move lib fa contract path h s2' = (Ok rr, s3) → rr_recovered rr = true →
  restored (fs_tree s0) (fs_tree s3).
Proof.
  intros Hb Heid Hap Hm Hu Hd Hud Hnone Hp0 Hprep Ht1 Hp1 Hexec Ht2 Hp2 Hdest Hflag Hroll Hrr.
  set (L := spelled h path) in *. set (M := spelled h dest) in *.
  apply io_try_inv in Hprep as (u & sa & (Hta & l & c & m & Hlk)%require_file_inv & Hprep); [| done].
  destruct (lookup_node _ _ _ _ _ Hp0 Hu Hlk) as [-> Hl0]. rewrite <- Hta in *. fold L in Hl0.
  apply io_try_inv in Hprep as (snap & s1a & Hsn & [= <- <-]). rewrite <- Heid in Hsn.
  apply (take_snapshot_inv _ _ _ _ _ _ _ L c m) in Hsn as (-> & Hstep & names & Hrn & Hsn); [| done..].
  pose proof (lookup_after_step _ _ _ _ _ Hstep Hu Hl0 Hlk) as Hlk1. rewrite Ht1 in *.
  assert (fs_tree s1a !! M = None) as HM1 by (by rewrite (as_outside _ _ _ Hstep)).
  assert (fs_tree s1a !! L = Some (File c m)) as HL1 by (by rewrite (as_outside _ _ _ Hstep)).
  destruct (move_executes _ _ _ _ _ _ _ _ _ Ht1 Hd Hu Hud Hp1 Hlk1 HM1 Hexec)
    as (Hpd & Hne & Hdr & m' & Htw & Hcross). fold L M in Htw, Hne.
  assert (same_shape (fs_tree s1a) (fs_tree s2')) as Hsh.
  { rewrite Ht2, Htw. eapply moved_shape; [done | done | by apply unrelated_ne..]. }
  unfold rollback_move in Hroll. rewrite Hdest in Hroll. unfold meta_string in Hroll. rewrite Hdr in Hroll.
  simpl in Hroll. apply io_try_inv in Hroll as ([] & sb & H1 & H).
  pose proof (revalidate_plain _ Hcalm _ _ _ _ _ Hsym H1) as Hpd2.
  apply reading_tree in H1 as Htb; [| auto with reading nocore].
  apply io_bind_inv in H as (snap & sc & [= <- <-] & H).
  apply recovering_inv in H as ([] & sd & H2 & H); [| done].
  eapply ensure_parent_inv in H2 as [_ Htd]; [| done | exact Hp1
    | apply lookup_path_inv in Hlk1 as [Hr _]; exact Hr | by rewrite Htb].
  apply (snapshot_kept _ (fs_tree s2')) in Hsn; [| by apply snapshot_tail | done | done |].
  2: { rewrite Ht2, Htw. unfold moved_tree. rewrite lookup_insert_ne, lookup_delete_ne; [done | by intros ->..]. }
  assert (∃ m3, m3 = m ∧ fs_tree s3 = <[L := File c m3]> (delete M (fs_tree s2'))) as (m3 & -> & Ht3).
  { rewrite <- Htb, <- Htd in *. rewrite Hflag in H. unfold meta_flag in H.
    destruct Hcross as [Hcr | [Hcr ->]]; rewrite Hcr in H; simpl in H.
    - exists (Z.land (Z.land m 4095) 4095). split; [rewrite !(Hm L c m Hl0); done |].
      eapply (move_back_cross (fs_tree s1a)); try done; [by rewrite Ht2 | by apply snapshot_tail].
    - exists m. split; [done |]. eapply (move_back_rename (fs_tree s1a)); try done. by rewrite Ht2. }
  apply (restored_at2 _ (fs_tree s1a) _ L M); [done | | |].
  - intros x Hx Hx'. rewrite Ht3, Ht2, Htw. unfold moved_tree.
    by rewrite lookup_insert_ne, lookup_delete_ne, lookup_insert_ne, lookup_delete_ne.
  - by rewrite Ht3, lookup_insert_eq, Hl0.
  - rewrite Ht3, lookup_insert_ne, lookup_delete_eq by done. done.
Qed.
End restore.
