(* ===== verification/FsRestoreRest.v ===== *)
(** * Rollback of the file-system adapter: copies, appends, modes and directories

    The remaining actions of FsRestore, and the theorem over all of them. *)

From stdpp Require Import pretty.
From S2P Require Import Prelude Json Proto Adapter RollbackSvc Lifecycle Handlers FileSystem FsAdapter FsPhases FsFacts FsSnapshot FsRestore.

#[local] Opaque walk.

(** The directory of a destination exists. *)
Definition parent_present (h : Host) (t : Tree) (path : string) : Prop :=
  match parent_path (components path) with
  | Some (c :: p) => is_ok (lookup_path h t true (c :: p)) = true
  | _ => True
  end.

Section rest.
Context (lib : FsLib) (fa : FsAdapter) (h : Host) (root : Loc).
Context (Hcalm : calm h) (Hsym : fb_allow_symlinks (fa_bounds fa) = false).
Implicit Types (t : Tree) (s : Fs) (path : string).

Lemma plain_not_link t f path l tg :
  plain h t path → lookup_path h t f (kernel_path path) ≠ Ok (l, Link tg).
Proof.
  intros Hp Hl. apply (lookup_nofollow h _ _ false) in Hl; [| done].
  apply lookup_path_inv in Hl as [Hr Hn]. destruct Hp as [Hp].
  destruct (kernel_path path) as [|c p]; [done |]. by eapply (Hp (c :: p)).
Qed.

(** ** FileCopy *)

Lemma parent_present_noop path s r s' :
  parent_present h (fs_tree s) path → ensure_parent path h s = (r, s') → r = Ok tt ∧ fs_tree s' = fs_tree s.
Proof.
  unfold parent_present, ensure_parent. destruct (parent_path _) as [[|c p]|]; [| |].
  - intros _ (e & s1 & [_ Ht]%path_exists_inv & H)%io_bind_inv; [| done].
    destruct e; by injection H as <- <-.
  - intros Hp (e & s1 & [-> Ht]%path_exists_inv & H)%io_bind_inv; [| done]. rewrite Hp in H.
    by injection H as <- <-.
  - by intros _ [= <- <-].
Qed.

(** What a copy leaves: the snapshot of a destination that was there, and the new file. *)
Lemma copy_executes contract payload dest path r s s' :
  let M := spelled h dest in
  snapshots_below lib h root (rc_execution_id contract) → area_plain root (fs_tree s) →
  payload_destination payload = Some dest → ¬ related root M → parent_present h (fs_tree s) dest →
  execute_copy lib fa contract path payload h s = (Ok r, s') →
  plain h (fs_tree s) dest ∧ smap_get "destination_path" (exr_adapter_metadata r) = Some (JStr dest) ∧
  ∃ t1 n, area_step root (fs_tree s) t1 ∧ same_shape t1 (fs_tree s') ∧ fs_tree s' = <[M := n]> t1 ∧
    (∀ tg, n ≠ Link tg) ∧ lookup_path h (fs_tree s') true (kernel_path dest) = Ok (M, n) ∧
    (smap_get "created_new_dest" (exr_adapter_metadata r) = Some (JBool true) ∧ t1 = fs_tree s ∧
       fs_tree s !! M = None ∧ (∃ c m, n = File c m) ∨
     smap_get "created_new_dest" (exr_adapter_metadata r) = Some (JBool false) ∧
     ∃ c m names, fs_tree s !! M = Some (File c m) ∧ related root names ∧
       lookup_path h t1 true (compute_snapshot_path lib (snapshot_dir h) (rc_execution_id contract) dest)
         = Ok (names, File c (Z.land m 4095))).
Proof.
  intros M Hb Hap Hd Hu Hpar. unfold execute_copy. rewrite Hd.
  intros ([] & s1 & H1 & H)%io_try_inv. pose proof (revalidate_plain _ Hcalm _ _ _ _ _ Hsym H1) as Hpd.
  apply reading_tree in H1 as Ht1; [| auto with reading nocore].
  apply io_bind_inv in H as (there & s2 & [Hth Ht2]%path_exists_inv & H); [| done]. rewrite Ht1 in Hth, Ht2.
  apply io_try_inv in H as (u & s3 & Hsnap & H).
  apply io_try_inv in H as (u1 & s4 & H4%execute_io_inv & H).
  apply io_try_inv in H as (u2 & s5 & H5%execute_io_inv & H).
  apply io_try_inv in H as (hash & s6 & H6 & [= <- <-]).
  apply (reading_tree _ (reading_map_err _ _ (reading_compute_file_hash _ _))) in H6 as Ht6.
  apply copy_file_inv in H5 as (lf & cf & mf & lt & _ & Hr & _ & Hfree & Ht5); [| done].
  split; [done |]. split; [done |]. set (n := File _ _) in Ht5.
  assert (∀ t1, fs_tree s3 = t1 → area_step root (fs_tree s) t1 → fs_tree s4 = t1 → lt = M →
    area_step root (fs_tree s) t1 ∧ same_shape t1 (fs_tree s6) ∧ fs_tree s6 = <[M := n]> t1 ∧
    (∀ tg, n ≠ Link tg) ∧ lookup_path h (fs_tree s6) true (kernel_path dest) = Ok (M, n)) as Hfin.
  { intros t1 Ht3 Hst Ht4 ->. rewrite Ht4 in *. rewrite Ht6, Ht5.
    split_and!; [done | by apply same_shape_insert | done | done |].
    by apply (lookup_after_write h root). }
  destruct (lookup_path h (fs_tree s) true (kernel_path dest)) as [[l n0]|e] eqn:Hlk; simpl in Hth; subst there.
  - pose proof (lookup_spelled h _ _ _ _ _ Hpd Hlk) as ->.
    apply io_bind_inv in Hsnap as (snap & s2a & [= <- <-] & Hsnap%execute_fs_inv).
    destruct (Hb dest) as (names & Hrn & Heq).
    eapply (capture_snapshot_inv root h Hcalm _ _ names _ _ _ M n0) in Hsnap as (c & m & -> & Hst & Hsn);
      [| exact Heq | done | by rewrite Ht2 | done | by rewrite Ht2 | intros tg ->; by eapply plain_not_link].
    rewrite Ht2 in Hst.
    assert (fs_tree s4 = fs_tree s3) as Ht4.
    { apply lookup_path_inv in Hlk as [Hrs _].
      eapply ensure_parent_inv in H4 as [_ ?]; [done | done | exact Hpd | exact Hrs | apply Hst]. }
    assert (lt = M) as HltM.
    { assert (resolve h (fs_tree s4) true (kernel_path dest) = Ok M); [| congruence].
      rewrite Ht4. eapply (resolve_after h); [exact Hpd | exact Hlk | apply Hst |].
      rewrite node_at_cons, (as_outside _ _ _ Hst) by (done || by apply (unrelated_ne root)).
      apply lookup_path_inv in Hlk as [_ Hn]. rewrite node_at_cons in Hn by (by apply (unrelated_ne root)).
      by rewrite Hn. }
    destruct (Hfin (fs_tree s3)) as (? & ? & ? & ? & ?); [done.. |].
    exists (fs_tree s3), n. split_and!; [done.. |]. right. split; [done |]. exists c, m, names.
    split_and!; [| done | done].
    apply lookup_path_inv in Hlk as [_ Hn]. by rewrite node_at_cons in Hn by (by apply (unrelated_ne root)).
  - injection Hsnap as _ <-. apply parent_present_noop in H4 as [_ Ht4]; [| by rewrite Ht2].
    rewrite Ht2 in Ht4. rewrite Ht4 in Hr. pose proof (resolve_spelled _ _ _ _ _ Hpd Hr) as HltM.
    destruct (Hfin (fs_tree s)) as (? & ? & ? & ? & ?); [done | by apply area_step_refl | done.. |].
    exists (fs_tree s), n. split_and!; [done.. |]. left. split_and!; [done | done | | by eexists _, _].
    rewrite <- node_at_cons by (by apply (unrelated_ne root)).
    destruct (node_at (fs_tree s) M) as [n1|] eqn:En; [| done]. exfalso.
    rewrite HltM in Hr. rewrite (proj2 (lookup_path_inv h _ _ _ M n1)) in Hlk; done.
Qed.

Lemma copy_restores contract payload dest path s0 s1 s1' r s2 s2' rr s3 c0 md0 md :
  snapshots_below lib h root (rc_execution_id contract) → rc_execution_id contract = rc_execution_id c0 →
  area_plain root (fs_tree s0) → modes_ok (fs_tree s0) →
  payload_destination payload = Some dest → ¬ related root (spelled h dest) →
  parent_present h (fs_tree s0) dest →
  prepare_copy lib path md0 h s0 = (Ok md, s1) → fs_tree s1' = fs_tree s1 →
  execute_copy lib fa c0 path payload h s1' = (Ok r, s2) → fs_tree s2' = fs_tree s2 →
  meta_string "destination_path" (rc_metadata contract) = meta_string "destination_path" (exr_adapter_metadata r) →
  meta_flag "created_new_dest" (rc_metadata contract) = meta_flag "created_new_dest" (exr_adapter_metadata r) →
  rollback_copy lib fa contract h s2' = (Ok rr, s3) → rr_recovered rr = true →
  restored root (fs_tree s0) (fs_tree s3).
Proof.
  intros Hb Heid Hap Hm Hd Hu Hpar Hprep Ht1 Hexec Ht2 Hdest Hflag Hroll Hrr.
  assert (fs_tree s1 = fs_tree s0) as Ht0.
  { revert Hprep. apply reading_tree. unfold prepare_copy. solve_reading. }
  rewrite Ht0 in Ht1. rewrite <- Ht1 in *. set (M := spelled h dest) in *. rewrite Heid in Hb.
  destruct (copy_executes _ _ _ _ _ _ _ Hb Hap Hd Hu Hpar Hexec)
    as (Hpd & Hdr & t1 & n & Hst & Hsh & Htw & Hnl & Hlk & Hcase). fold M in Htw, Hcase, Hlk.
  unfold rollback_copy in Hroll. rewrite Hdest in Hroll. unfold meta_string in Hroll. rewrite Hdr in Hroll.
  simpl in Hroll. apply io_try_inv in Hroll as ([] & sb & H1 & H).
  pose proof (revalidate_plain _ Hcalm _ _ _ _ _ Hsym H1) as Hpd2.
  apply reading_tree in H1 as Htb; [| auto with reading nocore]. rewrite <- Htb in *.
  rewrite Hflag in H. unfold meta_flag in H.
  destruct Hcase as [(Hcr & -> & Hnone & c & m & ->) | (Hcr & c & m & names & Hl0 & Hrn & Hsn)];
    rewrite Hcr in H; simpl in H.
  - apply delete_created_inv in H; [| done.. | eexists _, _; rewrite Ht2; exact Hlk].
    apply (restored_at root _ (fs_tree s1') _ M); [done | |].
    + intros x Hx. rewrite H, lookup_delete_ne, Ht2, Htw by done. by apply lookup_insert_ne.
    + rewrite H. fold M. by rewrite lookup_delete_eq.
  - apply (snapshot_kept h root _ (fs_tree s2)) in Hsn; [| by apply (snapshot_tail _ _ root) | done | done |].
    2: { rewrite Htw. apply lookup_insert_ne. by intros ->. }
    rewrite Heid in H. apply io_bind_inv in H as (snap & sc & [= <- <-] & H).
    apply io_bind_inv in H as (there & sd & [-> Htd]%path_exists_inv & H); [| done].
    rewrite Ht2, Hsn in H. simpl in H.
    apply recovering_inv in H as ([] & se & H2 & H); [| done].
    apply recovering_inv in H as (hash & sf & H3 & [= <- <-]); [| done].
    apply reading_tree in H3 as Ht3; [| auto with reading nocore].
    rewrite <- Ht2, <- Htd in Hsn. rewrite <- Htd in Hpd2.
    eapply (copy_back h root) in H2; [| done..]. fold M in H2.
    apply (restored_at root _ t1 _ M); [done | |].
    + intros x Hx. rewrite Ht3, H2, lookup_insert_ne, Htd, Ht2, Htw by done. by apply lookup_insert_ne.
    + rewrite Ht3, H2, lookup_insert_eq, Hl0. by rewrite !(Hm M c m Hl0).
Qed.

(** ** FileAppend *)

Lemma substring_app c d : String.substring 0 (String.length c) (c +:+ d) = c.
Proof. induction c as [|a c IH]; [by destruct d |]. exact (f_equal (String a) IH). Qed.

(** Cutting a file back to its original length. *)
Lemma truncate_back c data :
  (if (Z.of_nat (String.length c) <? Z.of_nat (String.length (c +:+ data)))%Z
   then String.substring 0 (Z.to_nat (Z.of_nat (String.length c))) (c +:+ data) else c +:+ data) = c.
Proof.
  rewrite str_length_app. destruct (_ <? _)%Z eqn:E; [by rewrite Nat2Z.id, substring_app |].
  apply Z.ltb_ge in E. destruct data; [apply str_app_nil |]. simpl in E. lia.
Qed.

Lemma prepare_append_inv path md0 md s s' :
  plain h (fs_tree s) path → ¬ related root (spelled h path) →
  prepare_append lib path md0 h s = (Ok md, s') →
  fs_tree s' = fs_tree s ∧ ∃ c m,
    lookup_path h (fs_tree s) true (kernel_path path) = Ok (spelled h path, File c m) ∧
    fs_tree s !! spelled h path = Some (File c m) ∧
    smap_get "original_length" md = Some (JStr (pretty (Z.of_nat (String.length c)))).
Proof.
  intros Hp Hu (u & s1 & (Ht1 & l & c & m & Hlk)%require_file_inv & H)%io_try_inv; [| done].
  destruct (lookup_node _ _ _ _ _ _ _ Hp Hu Hlk) as [-> Hl].
  apply io_try_inv in H as (hash & s2 & H2 & H). apply reading_tree in H2 as Ht2; [| auto with reading nocore].
  apply io_try_inv in H as (m' & s3 & H3%io_map_err_inv & [= <- <-]).
  apply metadata_inv in H3 as (Ht3 & l' & Hlk'); [| done]. rewrite Ht2, Ht1 in *. split; [done |].
  exists c, m. split_and!; [done.. |]. rewrite Hlk in Hlk'. injection Hlk' as _ Hn.
  unfold put_str. rewrite !index_insert_get. simpl. by rewrite <- Hn.
Qed.

Lemma append_executes path payload r s s' c m :
  plain h (fs_tree s) path → ¬ related root (spelled h path) →
  lookup_path h (fs_tree s) true (kernel_path path) = Ok (spelled h path, File c m) →
  execute_append lib path payload h s = (Ok r, s') →
  smap_get "original_length" (exr_adapter_metadata r) = None ∧
  ∃ data, fs_tree s' = <[spelled h path := File (c +:+ data) m]> (fs_tree s).
Proof.
  intros Hp Hu Hlk. unfold execute_append. destruct (append_data payload) as [[|a data']|]; [done | | done].
  set (data := String a data'). intros (l & s1 & H1%execute_fs_inv%io_map_err_inv & H)%io_try_inv.
  apply kernel_read_inv in H1 as [H1 Ht1]; [| done].
  rewrite (lookup_nofollow h _ _ false _ _ Hp Hlk) in H1. injection H1 as <-.
  apply io_try_inv in H as (u & s2 & H2%execute_io_inv & H).
  apply write_all_inv in H2 as [_ Ht2]; [| done].
  apply io_try_inv in H as (nh & s3 & H3%execute_fs_inv & H).
  apply reading_tree in H3 as Ht3; [| auto with reading nocore].
  apply io_try_inv in H as (md & s4 & H4%execute_io_inv & [= <- <-]).
  apply reading_tree in H4 as Ht4; [| auto with reading nocore]. split; [done |]. exists data.
  apply lookup_path_inv in Hlk as [_ Hn]. rewrite Ht1, Hn in Ht2. by rewrite Ht4, Ht3, Ht2.
Qed.

Lemma append_restores contract payload path md0 md s0 s1 s1' r s2 s2' rr s3 :
  ¬ related root (spelled h path) → (fb_max_file_size (fa_bounds fa) ≤ u64_max)%Z →
  area_plain root (fs_tree s0) → plain h (fs_tree s0) path →
  (∀ l c m, lookup_path h (fs_tree s0) true (kernel_path path) = Ok (l, File c m) →
     (Z.of_nat (String.length c) ≤ fb_max_file_size (fa_bounds fa))%Z) →
  prepare_append lib path md0 h s0 = (Ok md, s1) → fs_tree s1' = fs_tree s1 →
  execute_append lib path payload h s1' = (Ok r, s2) →
  fs_tree s2' = fs_tree s2 → plain h (fs_tree s2') path →
  (smap_get "original_length" (exr_adapter_metadata r) = None →
   meta_string "original_length" (rc_metadata contract) = meta_string "original_length" md) →
  rollback_append lib contract path h s2' = (Ok rr, s3) → rr_recovered rr = true →
  restored root (fs_tree s0) (fs_tree s3).
Proof.
  intros Hu Hmax Hap Hp0 Hsize Hprep Ht1 Hexec Ht2 Hp2 Hmeta Hroll Hrr.
  destruct (prepare_append_inv _ _ _ _ _ Hp0 Hu Hprep) as (Ht0 & c & m & Hlk & Hl0 & Hlen).
  rewrite Ht0 in Ht1. rewrite <- Ht1 in *.
  destruct (append_executes _ _ _ _ _ _ _ Hp0 Hu Hlk Hexec) as (Hnone & data & Htw).
  unfold rollback_append, original_length in Hroll. rewrite (Hmeta Hnone) in Hroll.
  unfold meta_string in Hroll. rewrite Hlen in Hroll. cbn [mbind option_bind as_str ok_or] in Hroll.
  specialize (Hsize _ _ _ Hlk).
  rewrite (from_str_radix_pretty u64_max (Z.of_nat (String.length c))) in Hroll by lia. cbn [map_err] in Hroll.
  apply recovering_inv in Hroll as (cur & sa & Ha%io_map_err_inv & H); [| done].
  apply read_file_inv in Ha as (Hta & l & mc & Hcur); [| done].
  pose proof (lookup_spelled h _ _ _ _ _ Hp2 Hcur) as ->. apply lookup_path_inv in Hcur as [_ Hcur].
  rewrite node_at_cons, Ht2, Htw, lookup_insert_eq in Hcur by (by apply (unrelated_ne root)).
  injection Hcur as <- <-.
  apply recovering_inv in H as ([] & sb & Hb & H); [| done]. rewrite <- Hta in Hp2.
  apply write_file_nofollow_inv in Hb as (_ & _ & Htb); [| done..]. rewrite Hta in Htb.
  assert (fs_tree s3 = fs_tree sb) as Ht3.
  { revert H. apply reading_tree. unfold recovering_fs, recovering, recovered_receipt. solve_reading. }
  apply (restored_at root _ (fs_tree s1') _ (spelled h path)); [by apply area_step_refl | |].
  - intros x Hx. rewrite Ht3, Htb, lookup_insert_ne, Ht2, Htw by done. by apply lookup_insert_ne.
  - rewrite Ht3, Htb, lookup_insert_eq, Hl0. unfold written_mode.
    rewrite node_at_cons, Ht2, Htw, lookup_insert_eq by (by apply (unrelated_ne root)). by rewrite truncate_back.
Qed.

(** ** FileChmod *)

Lemma chmod_restores request contract c0 path md0 md s0 s1 s1' r s2 s2' rr s3 :
  ¬ related root (spelled h path) → area_plain root (fs_tree s0) → modes_ok (fs_tree s0) →
  plain h (fs_tree s0) path →
  prepare_chmod request path md0 h s0 = (Ok md, s1) → fs_tree s1' = fs_tree s1 →
  execute_chmod c0 path h s1' = (Ok r, s2) →
  fs_tree s2' = fs_tree s2 → plain h (fs_tree s2') path →
  (smap_get "original_mode" (exr_adapter_metadata r) = None →
   meta_string "original_mode" (rc_metadata contract) = meta_string "original_mode" md) →
  rollback_chmod contract path h s2' = (Ok rr, s3) → rr_recovered rr = true →
  restored root (fs_tree s0) (fs_tree s3).
Proof.
  intros Hu Hap Hm Hp0 Hprep Ht1 Hexec Ht2 Hp2 Hmeta Hroll Hrr. unfold prepare_chmod in Hprep.
  apply io_try_inv in Hprep as (u & sa & (Hta & l & c & m & Hlk)%require_file_inv & H); [| done].
  destruct (lookup_node _ _ _ _ _ _ _ Hp0 Hu Hlk) as [-> Hl0].
  assert (fs_tree s1 = fs_tree s0 ∧ meta_string "original_mode" md = Some (octal m)) as [Ht0 Hom].
  { destruct (meta_string "mode" _) as [[|a mode]|]; [done | | done].
    apply io_try_inv in H as (md' & sb & Hb%io_map_err_inv & [= <- <-]).
    apply metadata_inv in Hb as (Htb & l' & Hlk'); [| done]. rewrite Hta in *. split; [done |].
    rewrite Hlk in Hlk'. injection Hlk' as _ Hn. unfold meta_string, put_str.
    rewrite !index_insert_get. cbn. rewrite <- Hn. cbn [node_mode]. by rewrite (Hm _ _ _ Hl0). }
  rewrite Ht0 in Ht1. rewrite <- Ht1 in *. unfold execute_chmod in Hexec.
  destruct (meta_string "new_mode" _) as [nm|]; [| done]. destruct (parse_mode_string nm) as [pm|]; [| done].
  apply io_try_inv in Hexec as ([] & sc & Hc%execute_io_inv & H').
  apply io_try_inv in H' as (md' & sd & Hd%execute_io_inv & [= <- <-]).
  apply reading_tree in Hd as Htd; [| auto with reading nocore].
  eapply set_permissions_inv in Hc; [| done | exact Hlk].
  unfold rollback_chmod in Hroll. rewrite (Hmeta eq_refl), Hom in Hroll. cbn [ok_or] in Hroll.
  assert (0 ≤ m < 4096)%Z as Hrange by (rewrite <- (Hm _ _ _ Hl0); apply permission_bits).
  rewrite (parse_mode_octal m Hrange) in Hroll. cbn [map_err] in Hroll.
  apply recovering_inv in Hroll as ([] & se & He & H'); [| done].
  apply recovering_inv in H' as (md'' & sf & Hf & H'); [| done].
  apply reading_tree in Hf as Htf; [| auto with reading nocore].
  apply io_try_inv in H' as (u' & sg & [_ ->]%fs_require_inv & [= <- <-]).
  eapply (set_permissions_inv h Hcalm _ _ _ _ _ (spelled h path) c (Z.land pm 4095)) in He.
  2: { rewrite Ht2, Htd, Hc. apply (lookup_after_write h root); [| | done | done].
       - by apply lookup_path_inv in Hlk as [Hr _].
       - eapply file_is_file_or_free. rewrite node_at_cons by (by apply (unrelated_ne root)). exact Hl0. }
  apply (restored_at root _ (fs_tree s1') _ (spelled h path)); [by apply area_step_refl | |].
  - intros x Hx. rewrite Htf, He, lookup_insert_ne, Ht2, Htd, Hc by done. by apply lookup_insert_ne.
  - rewrite Htf, He, lookup_insert_eq, Hl0. by rewrite (Hm _ _ _ Hl0).
Qed.

(** ** Directories *)

Lemma unlinked_prefix k t cur p q : unlinked k t cur (p ++ q) → unlinked k t cur p.
Proof. intros Hu x l tg Hx. apply Hu. by apply prefix_app_r. Qed.

Lemma lex_app cur p q : lex cur (p ++ q) = lex (lex cur p) q.
Proof. apply foldl_app. Qed.

(** What [mkdir] walks is the path, up to a trailing slash. *)
Lemma kernel_path_mkdir path :
  kernel_path path = mkdir_path path ∨ kernel_path path = mkdir_path path ++ [CurDir].
Proof.
  unfold mkdir_path, kernel_path. destruct (str_ends_with "/." path); [by left |].
  destruct (str_ends_with "/" path); simpl; [by right | left; by rewrite app_nil_r].
Qed.

Lemma mkdir_spelled path : lex (h_cwd h) (mkdir_path path) = spelled h path.
Proof.
  unfold spelled. destruct (kernel_path_mkdir path) as [-> | ->]; [done |]. by rewrite lex_app.
Qed.

Lemma mkdir_unlinked t path : plain h t path → unlinked max_links t (h_cwd h) (mkdir_path path).
Proof.
  intros [Hp]. destruct (kernel_path_mkdir path) as [E | E]; rewrite E in Hp; [done |].
  by eapply unlinked_prefix.
Qed.

Lemma mkdir_tail path : RootDir ∉ tl (mkdir_path path).
Proof.
  pose proof (kernel_path_tail path) as H. destruct (kernel_path_mkdir path) as [E | E]; rewrite E in H; [done |].
  destruct (mkdir_path path); [set_solver |]. simpl in *. rewrite elem_of_app in H. naive_solver.
Qed.

Lemma walk_curdir k t f cur p l :
  unlinked k t cur p → walk k t f cur p = Ok l → is_dir_node (node_at t l) = true →
  walk k t f cur (p ++ [CurDir]) = Ok l.
Proof.
  intros Hu Hw Hd. revert cur Hu Hw. induction p as [|c p IH]; intros cur Hu; simpl.
  { rewrite (walk_unfold k t f cur []), (walk_unfold k t f cur [CurDir]). intros [= ->].
    rewrite Hd. by rewrite walk_unfold. }
  rewrite (walk_unfold k t f cur (c :: p)), (walk_unfold k t f cur (c :: (p ++ [CurDir]))).
  destruct c as [| | |n].
  - apply IH. eapply unlinked_step; [done |]. intros ?. by rewrite walk_unfold.
  - case_match eqn:E; [| done]. apply IH. eapply unlinked_step; [done |]. intros ?. by rewrite walk_unfold, E.
  - case_match eqn:E; [| done]. apply IH. eapply unlinked_step; [done |]. intros ?. by rewrite walk_unfold, E.
  - case_match eqn:E; [| done]. cbn zeta. destruct (t !! (cur ++ [n])) as [[c m|m|tg]|] eqn:En.
    1-2: apply IH; eapply unlinked_step; [done |]; intros ?; rewrite walk_unfold, E; simpl; by rewrite En.
    + exfalso. apply (Hu [Normal n] (cur ++ [n]) tg); [apply prefix_cons, prefix_nil | done | | ].
      * rewrite walk_unfold, E. simpl. by rewrite En.
      * by rewrite node_at_snoc.
    + destruct p; [| done]. intros [= <-]. by rewrite node_at_snoc, En in Hd.
Qed.

Lemma create_dir_spelled path s u s' :
  plain h (fs_tree s) path → ¬ related root (spelled h path) →
  create_dir (mkdir_path path) h s = (Ok u, s') →
  resolve h (fs_tree s) false (mkdir_path path) = Ok (spelled h path) ∧
  fs_tree s !! spelled h path = None ∧ fs_tree s' = <[spelled h path := Dir (dir_mode h)]> (fs_tree s).
Proof.
  intros Hp Hu H. apply create_dir_inv in H as (l & Hr & Hn & Ht); [| done].
  pose proof (walk_lex _ _ _ _ _ _ _ (mkdir_unlinked _ _ Hp) (resolve_walk _ _ _ _ _ Hr)) as Hl.
  rewrite mkdir_spelled in Hl. subst l. by rewrite node_at_cons in Hn by (by apply (unrelated_ne root)).
Qed.

(** A directory that was just created is found by its path. *)
Lemma lookup_created t path m :
  resolve h t false (mkdir_path path) = Ok (spelled h path) → t !! spelled h path = None →
  ¬ related root (spelled h path) → plain h (<[spelled h path := Dir m]> t) path →
  lookup_path h (<[spelled h path := Dir m]> t) true (kernel_path path) = Ok (spelled h path, Dir m).
Proof.
  intros Hr Hn Hu Hp. set (t' := <[_ := _]> t) in *.
  assert (node_at t' (spelled h path) = Some (Dir m)) as Hd.
  { apply node_at_insert. by apply (unrelated_ne root). }
  apply lookup_path_inv. split; [| done].
  assert (resolve h t' false (mkdir_path path) = Ok (spelled h path)) as Hr'.
  { apply (resolve_agree h t); [| by rewrite Hd | apply mkdir_tail | done].
    apply same_shape_insert, free_is_file_or_free. by rewrite node_at_cons by (by apply (unrelated_ne root)). }
  apply (resolve_nofollow h t' false); [done |]. pose proof (mkdir_unlinked _ _ Hp) as Hmk.
  destruct (kernel_path_mkdir path) as [-> | ->]; [done |]. apply resolve_walk in Hr' as Hw.
  pose proof (walk_curdir _ _ _ _ _ _ Hmk Hw) as Hc. rewrite Hd in Hc. specialize (Hc eq_refl).
  by destruct (mkdir_path path).
Qed.

Lemma dir_create_restores path md0 md s0 s1 s1' r s2 s2' rr s3 :
  ¬ related root (spelled h path) → area_plain root (fs_tree s0) → plain h (fs_tree s0) path →
  prepare_dir_create path md0 h s0 = (Ok md, s1) → fs_tree s1' = fs_tree s1 →
  execute_dir_create path h s1' = (Ok r, s2) →
  fs_tree s2' = fs_tree s2 → plain h (fs_tree s2') path →
  rollback_dir_create path h s2' = (Ok rr, s3) → rr_recovered rr = true →
  restored root (fs_tree s0) (fs_tree s3).
Proof.
  intros Hu Hap Hp0 Hprep Ht1 Hexec Ht2 Hp2 Hroll Hrr.
  assert (fs_tree s1 = fs_tree s0) as Ht0.
  { revert Hprep. apply reading_tree. unfold prepare_dir_create. solve_reading. }
  rewrite Ht0 in Ht1. rewrite <- Ht1 in *.
  apply io_try_inv in Hexec as ([] & sa & Ha%execute_io_inv & [= <- <-]).
  apply create_dir_spelled in Ha as (Hr & Hn & Hta); [| done..].
  apply io_bind_inv in Hroll as (there & sb & [-> Htb]%is_existing_dir_inv & H); [| done].
  rewrite Ht2, Hta in *. rewrite (lookup_created _ _ _ Hr Hn Hu Hp2) in H.
  apply recovering_inv in H as ([] & sc & Hc & H); [| done].
  apply remove_dir_inv in Hc as (l & m & Hlk & _ & Htc); [| done]. rewrite Htb in Hlk, Htc.
  pose proof (lookup_spelled h _ _ _ _ _ Hp2 Hlk) as ->.
  assert (fs_tree s3 = fs_tree sc) as Ht3.
  { revert H. apply reading_tree. unfold recovered_receipt. solve_reading. }
  apply (restored_at root _ (fs_tree s1') _ (spelled h path)); [by apply area_step_refl | |].
  - intros x Hx. rewrite Ht3, Htc, lookup_delete_ne by done. by apply lookup_insert_ne.
  - by rewrite Ht3, Htc, lookup_delete_eq, Hn.
Qed.

Lemma dir_delete_restores path md0 md s0 s1 s1' r s2 s2' rr s3 :
  ¬ related root (spelled h path) → area_plain root (fs_tree s0) → plain h (fs_tree s0) path →
  fs_tree s0 !! spelled h path = Some (Dir (dir_mode h)) →
  prepare_dir_delete path md0 h s0 = (Ok md, s1) → fs_tree s1' = fs_tree s1 →
  execute_dir_delete path h s1' = (Ok r, s2) →
  fs_tree s2' = fs_tree s2 → plain h (fs_tree s2') path →
  rollback_dir_delete path h s2' = (Ok rr, s3) → rr_recovered rr = true →
  restored root (fs_tree s0) (fs_tree s3).
Proof.
  intros Hu Hap Hp0 Hl0 Hprep Ht1 Hexec Ht2 Hp2 Hroll Hrr.
  assert (fs_tree s1 = fs_tree s0) as Ht0.
  { revert Hprep. apply reading_tree. unfold prepare_dir_delete. solve_reading. }
  rewrite Ht0 in Ht1. rewrite <- Ht1 in *.
  apply io_try_inv in Hexec as ([] & sa & Ha%execute_io_inv & [= <- <-]).
  apply remove_dir_inv in Ha as (l & m & Hlk & _ & Hta); [| done].
  pose proof (lookup_spelled h _ _ _ _ _ Hp0 Hlk) as ->.
  apply io_bind_inv in Hroll as (there & sb & [-> Htb]%path_exists_inv & H); [| done].
  destruct (lookup_path h (fs_tree s2') true (kernel_path path)) as [[l n]|] eqn:E; simpl in H.
  { exfalso. destruct (lookup_node h root _ _ _ _ _ Hp2 Hu E) as [_ Hn].
    by rewrite Ht2, Hta, lookup_delete_eq in Hn. }
  apply recovering_inv in H as ([] & sc & Hc & H); [| done]. rewrite <- Htb in Hp2.
  apply create_dir_spelled in Hc as (_ & _ & Htc); [| done..].
  assert (fs_tree s3 = fs_tree sc) as Ht3.
  { revert H. apply reading_tree. unfold recovered_receipt. solve_reading. }
  apply (restored_at root _ (fs_tree s1') _ (spelled h path)); [by apply area_step_refl | |].
  - intros x Hx. rewrite Ht3, Htc, lookup_insert_ne, Htb, Ht2, Hta by done. by apply lookup_delete_ne.
  - by rewrite Ht3, Htc, lookup_insert_eq, Hl0.
Qed.
End rest.
