(* ===== verification/FsSpec.v ===== *)
(** * What the file-system adapter promises

    A receipt that says "recovered" tells the truth; every change of [execute] stays in
    the working directory. *)

From stdpp Require Import pretty.
From S2P Require Import Prelude Json Proto Adapter RollbackSvc Lifecycle Handlers FileSystem FsAdapter FsPhases FsFacts FsSnapshot FsRestore FsRestoreRest.

#[local] Opaque walk.

(** ** The metadata of a contract *)

Lemma index_insert_keys {A} k (v : A) m : (index_insert k v m).*1 = if decide (k ∈ m.*1) then m.*1 else m.*1 ++ [k].
Proof.
  induction m as [|[k' v'] m IH]; [done |]. cbn [index_insert].
  destruct (String.eqb_spec k k') as [-> | Hne]; rewrite !fmap_cons; cbn [fst].
  - rewrite decide_True by (by left). done.
  - rewrite IH. destruct (decide (k ∈ m.*1)) as [H | H].
    + by rewrite decide_True by (by right).
    + rewrite decide_False; [done |]. rewrite elem_of_cons. naive_solver.
Qed.

Lemma index_insert_nodup {A} k (v : A) m : NoDup m.*1 → NoDup (index_insert k v m).*1.
Proof.
  intros H. rewrite index_insert_keys. case_decide; [done |].
  apply NoDup_app. split_and!; [done | set_solver | apply NoDup_singleton].
Qed.

Lemma merge_metadata_get k es md :
  NoDup es.*1 →
  smap_get k (merge_metadata es md) = match smap_get k es with Some v => Some v | None => smap_get k md end.
Proof.
  unfold merge_metadata. revert md. induction es as [|[k' v'] es IH]; intros md Hnd; [done |].
  apply NoDup_cons in Hnd as [Hni Hnd]. simpl. rewrite IH by done. rewrite index_insert_get.
  destruct (String.eqb_spec k k') as [-> | Hne]; [| by rewrite decide_False].
  rewrite decide_True by done. destruct (smap_get k' es) eqn:E; [| done].
  destruct Hni. apply smap_get_keys. eauto.
Qed.

(** The contract that the rollback service makes of an accepted request. *)
Record contract_of (request : RollbackPrepareRequest) (prep : PrepareReceipt) (c : RollbackContract) : Prop := {
  co_action : rc_action_type c = rpr_action_type request;
  co_target : rc_target c = rpr_target request;
  co_execution : rc_execution_id c = rpr_execution_id request;
  co_metadata : rc_metadata c = merge_metadata (prep_adapter_metadata prep) (rpr_metadata request);
}.

Lemma after_execute_fields r payload c :
  rc_action_type (contract_after_execute r payload c) = rc_action_type c ∧
  rc_execution_id (contract_after_execute r payload c) = rc_execution_id c ∧
  rc_target (contract_after_execute r payload c) = target_after_execute r (rc_target c) ∧
  rc_metadata (contract_after_execute r payload c)
    = index_insert "execute_payload" payload (merge_metadata (exr_adapter_metadata r) (rc_metadata c)).
Proof. by destruct c. Qed.

(** The metadata that rollback reads. *)
Lemma after_execute_get request prep c r payload k :
  contract_of request prep c → NoDup (prep_adapter_metadata prep).*1 → NoDup (exr_adapter_metadata r).*1 →
  k ≠ "execute_payload" →
  smap_get k (rc_metadata (contract_after_execute r payload c)) =
  match smap_get k (exr_adapter_metadata r) with
  | Some v => Some v
  | None => match smap_get k (prep_adapter_metadata prep) with
            | Some v => Some v
            | None => smap_get k (rpr_metadata request)
            end
  end.
Proof.
  intros Hc H1 H2 Hk. destruct (after_execute_fields r payload c) as (_ & _ & _ & ->).
  rewrite index_insert_get, decide_False by done. rewrite merge_metadata_get by done.
  rewrite (co_metadata _ _ _ Hc), merge_metadata_get by done. done.
Qed.

Ltac solve_nodup := cbn; apply NoDup_ListNoDup; repeat constructor; simpl; intuition discriminate.

(** The branches of a computation that end in a receipt. *)
Ltac io_cases H :=
  repeat first
    [ apply io_try_inv in H as (? & ? & _ & H)
    | apply io_bind_inv in H as (? & ? & _ & H)
    | match type of H with (match ?x with _ => _ end) _ _ = _ => destruct x; try done end
    | match type of H with io_ret (match ?x with _ => _ end) _ _ = _ => destruct x; try done end ];
  try done; injection H as <- _.

(** The keys of a receipt are distinct. *)
Lemma prepare_action_nodup lib request path md0 h s md s' :
  prepare_action lib request path md0 h s = (Ok md, s') → NoDup md0.*1 → NoDup md.*1.
Proof.
  intros H Hnd. unfold prepare_action, prepare_write, prepare_delete, prepare_move, prepare_copy,
    prepare_append, prepare_chmod, prepare_dir_create, prepare_dir_delete, put_str, put_bool in H.
  destruct (rpr_action_type request); try (injection H as <- _; done).
  all: io_cases H; by repeat apply index_insert_nodup.
Qed.

Lemma execute_action_nodup lib fa c path payload h s r s' :
  execute_action lib fa c path payload h s = (Ok r, s') → NoDup (exr_adapter_metadata r).*1.
Proof.
  intros H. unfold execute_action, execute_write, execute_delete, execute_move, execute_copy, execute_append,
    execute_chmod, execute_dir_create, execute_dir_delete in H.
  destruct (rc_action_type c); try done.
  all: io_cases H; solve_nodup.
Qed.

(** The keys that rollback reads, in the receipts of the other phases. *)
Section keys.
Context (lib : FsLib) (fa : FsAdapter) (h : Host) (request : RollbackPrepareRequest) (c : RollbackContract).
Context (path : string) (payload : json) (md0 md : JsonMap) (r : ExecuteReceipt) (s s' : Fs).

Lemma execute_write_keys :
  execute_write lib path payload h s = (Ok r, s') → smap_get "created_new_file" (exr_adapter_metadata r) = None.
Proof. intros H. unfold execute_write in H. by io_cases H. Qed.
Lemma execute_delete_keys :
  execute_delete path h s = (Ok r, s') → smap_get "created_new_file" (exr_adapter_metadata r) = None.
Proof. intros H. unfold execute_delete in H. by io_cases H. Qed.
Lemma prepare_delete_keys :
  prepare_delete lib request path md0 h s = (Ok md, s') → smap_get "created_new_file" md0 = None →
  smap_get "created_new_file" md = None.
Proof.
  intros H H0. unfold prepare_delete, put_str in H. io_cases H; rewrite ?index_insert_get; simpl; done.
Qed.
Lemma execute_move_keys :
  execute_move fa path payload h s = (Ok r, s') →
  ∃ dest, payload_destination payload = Some dest ∧
          smap_get "destination_path" (exr_adapter_metadata r) = Some (JStr dest).
Proof.
  intros H. unfold execute_move in H. destruct (payload_destination payload) as [dest|]; [| done].
  exists dest. split; [done |]. by io_cases H.
Qed.
Lemma prepare_move_keys :
  prepare_move lib request path md0 h s = (Ok md, s') → smap_get "cross_filesystem_move" md0 = None →
  smap_get "cross_filesystem_move" md = None.
Proof.
  intros H H0. unfold prepare_move, put_str in H. io_cases H; rewrite ?index_insert_get; simpl; done.
Qed.
Lemma execute_copy_keys :
  execute_copy lib fa c path payload h s = (Ok r, s') →
  ∃ dest b, payload_destination payload = Some dest ∧
    smap_get "destination_path" (exr_adapter_metadata r) = Some (JStr dest) ∧
    smap_get "created_new_dest" (exr_adapter_metadata r) = Some (JBool b).
Proof.
  intros H. unfold execute_copy in H. destruct (payload_destination payload) as [dest|]; [| done].
  exists dest. io_cases H; by eexists.
Qed.
Lemma prepare_append_keys :
  prepare_append lib path md0 h s = (Ok md, s') → is_Some (smap_get "original_length" md).
Proof.
  intros H. unfold prepare_append, put_str in H. io_cases H; rewrite ?index_insert_get; simpl; by eexists.
Qed.
Lemma prepare_chmod_keys :
  prepare_chmod request path md0 h s = (Ok md, s') → is_Some (smap_get "original_mode" md).
Proof.
  intros H. unfold prepare_chmod, put_str in H. io_cases H; rewrite ?index_insert_get; simpl; by eexists.
Qed.
End keys.

(** ** Rollback *)

(** What rollback can undo: not a move over an existing file, a copy that creates
    directories, or the mode of a deleted directory. *)
Definition reversible (h : Host) (root : Loc) (request : RollbackPrepareRequest) (payload : json) (t : Tree) : Prop :=
  match rpr_target request with
  | RTg_FilePath path _ _ =>
      ¬ related root (spelled h path) ∧
      match rpr_action_type request with
      | Act_FileMove => ∀ dest, payload_destination payload = Some dest →
          ¬ related root (spelled h dest) ∧ t !! spelled h dest = None
      | Act_FileCopy => ∀ dest, payload_destination payload = Some dest →
          ¬ related root (spelled h dest) ∧ parent_present h t dest
      | Act_DirDelete => t !! spelled h path = Some (Dir (dir_mode h))
      | _ => True
      end
  | _ => True
  end.

(** The machine: no faults, snapshots in a directory of their own that no symbolic link
    leads to, modes that are permission bits. *)
Record fs_setting (lib : FsLib) (fa : FsAdapter) (h : Host) (root : Loc) (eid : ExecutionId) (t : Tree) : Prop := {
  fst_calm : calm h;
  fst_links : fb_allow_symlinks (fa_bounds fa) = false;
  fst_size : (fb_max_file_size (fa_bounds fa) ≤ u64_max)%Z;
  fst_snapshots : snapshots_below lib h root eid;
  fst_area : area_plain root t;
  fst_modes : modes_ok t;
}.

(** The flags that only the adapter may set are not set by the caller. *)
Definition unflagged (md : JsonMap) : Prop :=
  meta_flag "created_new_file" md = false ∧ meta_flag "cross_filesystem_move" md = false.

(** The restore lemma [L] of an action, between the states before prepare, execute and
    rollback; what is left are the keys of the metadata it reads. *)
Tactic Notation "restoring" constr(L) constr(a) constr(b) constr(c) constr(r0) :=
  eapply L with (s0 := a) (s1' := b) (s2' := c) (r := r0); try eassumption; try done.

