(* ===== verification/FsConfine.v ===== *)
(** * The file-system adapter stays in its working directory

    Every change that [execute] makes to the tree, whether it succeeds or fails, is
    below the working directory or in the area of the snapshots. *)

From S2P Require Import Prelude Json Proto Adapter FileSystem FsAdapter FsPhases FsFacts FsSnapshot FsRestore FsRestoreRest.

#[local] Opaque walk.

(** Every node lies in a directory. *)
Definition tree_wf (t : Tree) : Prop :=
  ∀ l n, t !! l = Some n → is_dir_node (node_at t (parent_loc l)) = true.

Lemma io_try_cases {A B E} (m : io (result A E)) (k : A → io (result B E)) h s r s' :
  (x <~? m ; k x) h s = (r, s') →
  (∃ e, m h s = (Err e, s')) ∨ ∃ a s1, m h s = (Ok a, s1) ∧ k a h s1 = (r, s').
Proof.
  intros (a & s1 & Hm & Hk)%io_bind_inv. destruct a; [right; eauto |]. injection Hk as _ <-. left. eauto.
Qed.

Lemma io_map_err_run {A E F} (f : E → F) (m : io (result A E)) h s r s' :
  io_map_err f m h s = (r, s') → ∃ r', m h s = (r', s').
Proof. intros (r' & s1 & Hm & [= _ <-])%io_bind_inv. eauto. Qed.

(** Only locations in [P] change. *)
Definition changes_in (P : Loc → Prop) (t t' : Tree) : Prop := ∀ x, t' !! x ≠ t !! x → P x.

Lemma changes_in_refl P t : changes_in P t t.
Proof. by intros x []. Qed.
Lemma changes_in_eq P t t' : t' = t → changes_in P t t'.
Proof. intros ->. apply changes_in_refl. Qed.
Lemma changes_in_trans P t1 t2 t3 : changes_in P t1 t2 → changes_in P t2 t3 → changes_in P t1 t3.
Proof.
  intros H1 H2 x Hx. destruct (decide (t2 !! x = t1 !! x)) as [Heq | Hne]; [| by apply H1].
  apply H2. by rewrite Heq.
Qed.
Lemma changes_in_insert (P : Loc → Prop) t l n : P l → changes_in P t (<[l := n]> t).
Proof. intros Hl x Hx. destruct (decide (l = x)) as [<- | Hne]; [done |]. by rewrite lookup_insert_ne in Hx. Qed.
Lemma changes_in_delete (P : Loc → Prop) t l : P l → changes_in P t (delete l t).
Proof. intros Hl x Hx. destruct (decide (l = x)) as [<- | Hne]; [done |]. by rewrite lookup_delete_ne in Hx. Qed.
#[export] Hint Resolve changes_in_refl changes_in_eq changes_in_insert changes_in_delete : ferrum.

(** A directory that moves changes only what is below its old and new place. *)
Lemma move_tree_lookup from to t x n :
  ¬ from `prefix_of` x → ¬ to `prefix_of` x →
  move_tree from to t !! x = Some n ↔ t !! x = Some n.
Proof.
  intros Hf Ht. unfold move_tree. set (g := λ kn : Loc * Node, _).
  assert (∀ y m, (x, m) = g (y, m) → y = x) as Hg.
  { intros y m [= Hx]. case_bool_decide; [| done]. destruct Ht. rewrite Hx. by apply prefix_app_r. }
  assert (g (x, n) = (x, n)) as Hid by (unfold g; simpl; by rewrite bool_decide_false).
  split.
  - intros H%elem_of_list_to_map_2. apply list_elem_of_fmap in H as ([y m] & Heq & Hin).
    assert (m = n) as -> by (by injection Heq). apply Hg in Heq as ->. by apply elem_of_map_to_list.
  - intros H. destruct (list_to_map (g <$> map_to_list t) !! x) as [n'|] eqn:E.
    + apply elem_of_list_to_map_2, list_elem_of_fmap in E as ([y m] & Heq & Hin).
      assert (m = n') as -> by (by injection Heq). apply Hg in Heq as ->.
      apply elem_of_map_to_list in Hin. congruence.
    + exfalso. apply not_elem_of_list_to_map in E. apply E. apply list_elem_of_fmap.
      exists (x, n). split; [done |]. apply list_elem_of_fmap. exists (x, n).
      split; [done |]. by apply elem_of_map_to_list.
Qed.

Lemma move_tree_changes from to t :
  changes_in (λ x, from `prefix_of` x ∨ to `prefix_of` x) t (move_tree from to t).
Proof.
  intros x Hx. destruct (decide (from `prefix_of` x)) as [| Hf]; [by left |].
  destruct (decide (to `prefix_of` x)) as [| Ht]; [by right |]. destruct Hx.
  apply option_eq. intros n. by apply move_tree_lookup.
Qed.

(** ** The calls, whatever their result *)

Section calls.
Context (h : Host) (Hcalm : calm h).

Lemma remove_file_changes p s r s' :
  remove_file p h s = (r, s') →
  changes_in (λ x, resolve h (fs_tree s) false p = Ok x) (fs_tree s) (fs_tree s').
Proof.
  intros H. destruct r as [u|e].
  - apply remove_file_inv in H as (l & n & [Hr _]%lookup_path_inv & _ & ->); [| done]. by apply changes_in_delete.
  - apply kernel_call_inv in H; [| done].
    assert (fs_tree s' = fs_tree s) as -> by (repeat case_match; congruence). apply changes_in_refl.
Qed.

Lemma create_dir_changes p s r s' :
  create_dir p h s = (r, s') →
  changes_in (λ x, resolve h (fs_tree s) false p = Ok x ∧ node_at (fs_tree s) x = None) (fs_tree s) (fs_tree s').
Proof.
  intros H. destruct r as [u|e].
  - apply create_dir_inv in H as (l & Hr & Hn & ->); [| done]. by apply changes_in_insert.
  - apply kernel_call_inv in H; [| done].
    assert (fs_tree s' = fs_tree s) as -> by (repeat case_match; congruence). apply changes_in_refl.
Qed.

Lemma remove_dir_changes path s r s' :
  remove_dir path h s = (r, s') →
  changes_in (λ x, resolve h (fs_tree s) false (kernel_path path) = Ok x) (fs_tree s) (fs_tree s').
Proof.
  intros H. destruct r as [u|e].
  - apply remove_dir_inv in H as (l & m & [Hr _]%lookup_path_inv & _ & ->); [| done]. by apply changes_in_delete.
  - apply kernel_call_inv in H; [| done].
    assert (fs_tree s' = fs_tree s) as -> by (repeat case_match; congruence). apply changes_in_refl.
Qed.

Lemma set_permissions_changes p mode s r s' :
  set_permissions p mode h s = (r, s') →
  changes_in (λ x, resolve h (fs_tree s) true p = Ok x) (fs_tree s) (fs_tree s').
Proof.
  intros H%kernel_call_inv; [| done]. destruct (lookup_path h (fs_tree s) true p) as [[l n]|] eqn:E.
  - apply lookup_path_inv in E as [Hr _].
    destruct n, l; injection H as _ <-; by (apply changes_in_refl || apply changes_in_insert).
  - injection H as _ <-. apply changes_in_refl.
Qed.

Lemma write_all_changes l data s r s' :
  write_all l data h s = (r, s') → changes_in (λ x, x = l) (fs_tree s) (fs_tree s').
Proof.
  intros [_ ->]%write_all_inv; [| done].
  repeat case_match; by (apply changes_in_refl || apply changes_in_insert).
Qed.

Lemma open_truncate_changes f mode p s r s' :
  open_truncate f mode p h s = (r, s') →
  changes_in (λ x, resolve h (fs_tree s) f p = Ok x) (fs_tree s) (fs_tree s').
Proof.
  intros H. destruct r as [l|e].
  - apply open_truncate_inv in H as (Hr & _ & _ & ->); [| done]. by apply changes_in_insert.
  - apply kernel_call_inv in H; [| done].
    assert (fs_tree s' = fs_tree s) as -> by (repeat case_match; congruence). apply changes_in_refl.
Qed.

Lemma write_contents_changes f mode p data s r s' :
  (l <~? open_truncate f mode p ; write_all l data) h s = (r, s') →
  changes_in (λ x, resolve h (fs_tree s) f p = Ok x) (fs_tree s) (fs_tree s').
Proof.
  intros [(e & H) | (l & s1 & H1 & H2)]%io_try_cases; [by eapply open_truncate_changes |].
  pose proof (open_truncate_changes _ _ _ _ _ _ H1) as Hc.
  apply open_truncate_inv in H1 as (Hr & _); [| done]. eapply changes_in_trans; [done |].
  intros x Hx. by apply (write_all_changes _ _ _ _ _ H2) in Hx as ->.
Qed.

(** A copy writes its destination, a file. *)
Lemma copy_file_changes from to s r s' :
  copy_file from to h s = (r, s') →
  fs_tree s' = fs_tree s ∨
  ∃ lt n, resolve h (fs_tree s) true to = Ok lt ∧ lt ≠ [] ∧ file_or_free (fs_tree s) lt ∧
    (∃ c m, n = File c m) ∧ fs_tree s' = <[lt := n]> (fs_tree s).
Proof.
  intros [(e & H) | (src & s1 & H1 & H)]%io_try_cases.
  { left. revert H. apply reading_tree, reading_kernel. }
  apply reading_tree in H1 as Ht1; [| apply reading_kernel].
  apply io_try_cases in H as [(e & H) | (lt & s2 & H2 & H)].
  { left. rewrite <- Ht1. apply kernel_call_inv in H; [| done]. repeat case_match; congruence. }
  apply open_truncate_inv in H2 as (Hr & Hne & Hn & Ht2); [| done]. rewrite Ht1 in *. right. exists lt.
  apply io_try_cases in H as [(e & H3) | (u & s3 & H3 & H)]; apply kernel_call_inv in H3; try done;
    rewrite Ht2, node_at_insert in H3 by done; [done |]. injection H3 as _ Ht3. rewrite insert_insert_eq in Ht3.
  apply io_try_cases in H as [(e & H4) | (data & s4 & H4 & H)];
    apply reading_tree in H4 as Ht4; try apply reading_kernel.
  { eexists. split_and!; [done.. | by eexists _, _ | by rewrite Ht4, <- Ht3]. }
  apply write_all_inv in H as [_ Ht5]; [| done].
  rewrite Ht4, <- Ht3, node_at_insert, insert_insert_eq in Ht5 by done.
  eexists. split_and!; [done.. | by eexists _, _ | done].
Qed.

Lemma rename_changes from to s r s' :
  rename from to h s = (r, s') →
  changes_in (λ x, ∃ l, l `prefix_of` x ∧
    (resolve h (fs_tree s) false from = Ok l ∨ resolve h (fs_tree s) false to = Ok l)) (fs_tree s) (fs_tree s').
Proof.
  intros H. destruct r as [u|e]; [| apply rename_err in H as ->; [apply changes_in_refl | done]].
  apply kernel_call_inv in H; [| done].
  destruct (resolve h (fs_tree s) false from) as [lf|]; [| done].
  destruct (resolve h (fs_tree s) false to) as [lt|]; [| done].
  set (P := λ x : Loc, lf `prefix_of` x ∨ lt `prefix_of` x).
  assert (∀ t', changes_in P (fs_tree s) t' →
     changes_in (λ x, ∃ l, l `prefix_of` x ∧ (Ok lf = Ok (E := IoError) l ∨ Ok lt = Ok (E := IoError) l)) (fs_tree s) t') as HP.
  { intros t' Hc x [Hx | Hx]%Hc; eauto. }
  apply HP. destruct (negb _); [done |]. destruct (node_at (fs_tree s) lf) as [n|]; [| done].
  case_bool_decide; [injection H as _ <-; apply changes_in_refl |].
  assert (∀ t, changes_in P t (move_tree lf lt t)) as Hmv by apply move_tree_changes.
  assert (∀ m, changes_in P (fs_tree s) (<[lt := m]> (delete lf (fs_tree s)))) as Hmf.
  { intros m. eapply changes_in_trans; [apply (changes_in_delete P); by left | apply changes_in_insert; by right]. }
  destruct n as [c m|m|tg].
  2: { case_bool_decide; [done |]. destruct (node_at (fs_tree s) lt) as [[]|]; try done.
       - destruct (has_child _ _); [done |]. injection H as _ <-.
         eapply changes_in_trans; [apply (changes_in_delete P); by right | apply Hmv].
       - injection H as _ <-. apply Hmv. }
  all: destruct (node_at (fs_tree s) lt) as [[]|]; try done; injection H as _ <-; apply Hmf.
Qed.
End calls.

(** ** The working directory *)

Lemma absolute_head path : is_absolute path = true → ∃ p, components path = RootDir :: p.
Proof. unfold components. intros ->. by eexists. Qed.

(** Trees with the same directories and links have the same plain paths. *)
Lemma plain_agree h t t' path : same_shape t' t → plain h t path → plain h t' path.
Proof.
  intros Hs [Hp]. split. intros q l tg Hq Hne Hw Hn.
  assert (node_at t l = Some (Link tg)) as Hn'.
  { rewrite <- Hn. apply Hs; rewrite Hn; [done | by eexists]. }
  apply (Hp q l tg Hq Hne); [| done]. eapply walk_agree_link; [exact Hs | | | exact Hw].
  - intros tg' Htg. congruence.
  - pose proof (kernel_path_tail path) as Ht. destruct Hq as [q' Heq]. rewrite Heq in Ht.
    destruct q; [done |]. simpl in *. rewrite elem_of_app in Ht. naive_solver.
Qed.

Section workdir.
Context (lib : FsLib) (fa : FsAdapter) (h : Host) (root W : Loc) (wd : string).
Context (Hcalm : calm h) (Hsym : fb_allow_symlinks (fa_bounds fa) = false).
Context (Hsand : fb_sandbox_to_workdir (fa_bounds fa) = true) (Hwd : fa_workdir fa = Some wd).
Implicit Types (t : Tree) (s : Fs) (path : string).

Definition workdir_at t : Prop := ∃ n, lookup_path h t true (kernel_path wd) = Ok (W, n).

Lemma canonicalize_inv p s r s' :
  canonicalize p h s = (r, s') →
  r = (let? x := lookup_path h (fs_tree s) true p in Ok x.1) ∧ fs_tree s' = fs_tree s.
Proof. by intros [<- ?]%kernel_read_inv. Qed.

(** What the check compares is below the working directory. *)
Lemma enforce_workdir_inv path s s' :
  workdir_at (fs_tree s) → enforce_workdir path wd h s = (Ok tt, s') →
  ∃ s1 s2 resolved, fs_tree s1 = fs_tree s ∧ resolve_for_sandbox path W h s1 = (resolved, s2) ∧
    W `prefix_of` resolved.
Proof.
  intros [n Hn] (cw & s1 & H1%io_map_err_inv & H)%io_try_inv.
  apply canonicalize_inv in H1 as [Hcw Ht1]. rewrite Hn in Hcw. injection Hcw as ->.
  apply io_bind_inv in H as (resolved & s2 & H2 & H). exists s1, s2, resolved. split; [done |].
  split; [done |]. case_bool_decide; [done |]. by injection H.
Qed.

(** The location of a path that cannot be canonicalised is directly below the location
    of its directory. *)
Lemma spelled_in_parent t f path q parent :
  tree_wf t → unlinked max_links t (h_cwd h) (components path ++ q) →
  resolve h t f (components path ++ q) = Ok (spelled h path) → node_at t (spelled h path) = None → parent_path (components path) = Some parent → parent ≠ [] →
  ∃ m, lookup_path h t true parent = Ok (lex (h_cwd h) parent, Dir m) ∧
       lex (h_cwd h) parent `prefix_of` spelled h path.
Proof.
  intros Hwf Hp Hr Hnone Hpar Hne. destruct (parent_exists_tail h t f path q parent _ Hp Hr Hpar Hne) as (m & Hm).
  exists m. split; [done |]. apply parent_path_spec in Hpar as (c & Hcs & Hc).
  assert (spelled h path = lex_step (lex (h_cwd h) parent) c) as Hsp.
  { unfold spelled, kernel_path. rewrite Hcs, !lex_app. by destruct (_ || _). }
  destruct c as [| | |n]; [done | by rewrite Hsp | | rewrite Hsp; by apply prefix_app_r].
  exfalso. rewrite Hsp in Hnone. simpl in Hnone. apply lookup_path_inv in Hm as [_ Hd].
  destruct (lex (h_cwd h) parent) as [|x l] eqn:E; [done |].
  apply (Hwf (x :: l)) in Hd. by rewrite Hnone in Hd.
Qed.

Lemma within_workdir_tail path q s s' f :
  workdir_at (fs_tree s) → tree_wf (fs_tree s) →
  unlinked max_links (fs_tree s) (h_cwd h) (components path ++ q) → is_absolute path = true →
  enforce_workdir path wd h s = (Ok tt, s') →
  resolve h (fs_tree s) f (components path ++ q) = Ok (spelled h path) →
  (∀ n, node_at (fs_tree s) (spelled h path) = Some n →
    lookup_path h (fs_tree s) true (kernel_path path) = Ok (spelled h path, n)) →
  (∀ l n, lookup_path h (fs_tree s) true (kernel_path path) = Ok (l, n) → l = spelled h path) →
  W `prefix_of` spelled h path.
Proof.
  intros HW Hwf Hp Habs He Hr Hsome Hsp.
  destruct (enforce_workdir_inv _ _ _ HW He) as (s1 & s2 & resolved & Ht1 & Hres & Hpre).
  apply io_bind_inv in Hres as (c & s3 & [-> Ht3]%canonicalize_inv & H). rewrite Ht1 in H, Ht3.
  destruct (lookup_path h (fs_tree s) true (kernel_path path)) as [[l n]|] eqn:El.
  { rewrite (Hsp l n eq_refl) in H. by injection H as <- _. }
  destruct (node_at (fs_tree s) (spelled h path)) as [n|] eqn:En; [by specialize (Hsome n eq_refl) |].
  destruct (absolute_head path Habs) as [p Hcs]. destruct (parent_path (components path)) as [parent|] eqn:Epar.
  - assert (parent ≠ []) as Hne.
    { intros ->. apply parent_path_spec in Epar as (c & E & Hc). rewrite Hcs in E. by injection E. }
    destruct (spelled_in_parent _ _ _ _ _ Hwf Hp Hr En Epar Hne) as (m & Hm & Hpp).
    apply io_bind_inv in H as (c & s4 & [-> _]%canonicalize_inv & [= <- _]). rewrite Ht3, Hm in Hpre.
    by etrans.
  - exfalso. pose proof (components_tail path) as Htl. rewrite Hcs in Epar, Htl. simpl in Htl.
    assert (p = []) as ->.
    { destruct p as [|q' p _] using rev_ind; [done |]. unfold parent_path in Epar.
      rewrite app_comm_cons, rev_app_distr in Epar. simpl in Epar.
      destruct q'; [set_solver | ..]; by destruct (rev p). }
    assert (spelled h path = []) as Hs; [| by rewrite Hs in En].
    unfold spelled, kernel_path. rewrite Hcs. by destruct (_ || _).
Qed.

Lemma within_workdir path s s' f l :
  workdir_at (fs_tree s) → tree_wf (fs_tree s) → plain h (fs_tree s) path → is_absolute path = true →
  enforce_workdir path wd h s = (Ok tt, s') → resolve h (fs_tree s) f (kernel_path path) = Ok l →
  W `prefix_of` l.
Proof.
  intros HW Hwf Hp Habs He Hr. pose proof (resolve_spelled _ _ _ _ _ Hp Hr) as ->.
  eapply within_workdir_tail; [done | done | apply Hp | done | exact He | exact Hr | |].
  - intros n Hn. apply lookup_path_inv. split; [| done]. exact (resolve_nofollow h _ _ true _ _ Hp Hr).
  - intros l n Hl. exact (lookup_spelled h _ _ _ _ _ Hp Hl).
Qed.

(** .. and the directory that [mkdir] is to create. *)
Lemma mkdir_within path s s' l :
  workdir_at (fs_tree s) → tree_wf (fs_tree s) → plain h (fs_tree s) path → is_absolute path = true →
  enforce_workdir path wd h s = (Ok tt, s') →
  resolve h (fs_tree s) false (mkdir_path path) = Ok l → node_at (fs_tree s) l = None →
  W `prefix_of` l.
Proof.
  intros HW Hwf Hp Habs He Hr Hnone. pose proof (mkdir_unlinked h _ _ Hp) as Hu.
  pose proof (walk_lex _ _ _ _ _ _ _ Hu (resolve_walk _ _ _ _ _ Hr)) as Hl.
  rewrite mkdir_spelled in Hl. subst l.
  assert (∃ q, mkdir_path path = components path ++ q) as [q Hq].
  { unfold mkdir_path, kernel_path. destruct (str_ends_with "/." path); [by eexists |].
    exists []. by rewrite app_nil_r. }
  rewrite Hq in Hu, Hr. eapply within_workdir_tail; [done | done | exact Hu | done | exact He | exact Hr | |].
  - intros n Hn. congruence.
  - intros l n Hl. exact (lookup_spelled h _ _ _ _ _ Hp Hl).
Qed.

(** A path that passed the checks of a phase leads into the working directory. *)
Lemma revalidate_allowed phase path s s' :
  workdir_at (fs_tree s) → tree_wf (fs_tree s) → is_absolute path = true →
  revalidate_path fa phase path h s = (Ok tt, s') →
  fs_tree s' = fs_tree s ∧ plain h (fs_tree s) path ∧
  (∀ f l, resolve h (fs_tree s) f (kernel_path path) = Ok l → W `prefix_of` l) ∧
  (∀ l, resolve h (fs_tree s) false (mkdir_path path) = Ok l → node_at (fs_tree s) l = None → W `prefix_of` l).
Proof.
  intros HW Hwf Habs H. split; [by eapply reading_tree; [apply reading_revalidate_path |] |].
  pose proof (revalidate_plain _ Hcalm _ _ _ _ _ Hsym H) as Hp. split; [done |].
  unfold revalidate_path in H. destruct (validate_path_depth _ _); [| done]. apply io_map_err_inv in H.
  unfold validate_path_sandbox in H. rewrite Hsym, Hsand, Hwd in H.
  apply io_try_inv in H as ([] & s1 & H1 & H2).
  apply reading_tree in H1 as Ht1; [| apply reading_reject_symlinks]. rewrite <- Ht1 in *. split.
  - intros f l Hr. exact (within_workdir _ _ _ _ _ HW Hwf Hp Habs H2 Hr).
  - intros l Hr Hn. exact (mkdir_within _ _ _ _ HW Hwf Hp Habs H2 Hr Hn).
Qed.

(** ** execute *)

Definition allowed (x : Loc) : Prop := W `prefix_of` x ∨ related root x.

Lemma allowed_below l x : W `prefix_of` l → l `prefix_of` x → allowed x.
Proof. intros. left. by etrans. Qed.

Lemma changes_allowed t t' (P : Loc → Prop) :
  changes_in P t t' → (∀ x, P x → allowed x) → changes_in allowed t t'.
Proof. intros H HP x Hx. by apply HP, H. Qed.

Lemma area_changes t t' : area_step root t t' → changes_in allowed t t'.
Proof.
  intros Hs x Hx. destruct (decide (x `prefix_of` root)) as [? | H1]; [right; by left |].
  destruct (decide (root `prefix_of` x)) as [? | H2]; [right; by right |].
  destruct Hx. apply (as_outside _ _ _ Hs). by intros [? | ?].
Qed.

(** A snapshot changes the area of the snapshots only, also when it fails. *)
Lemma capture_area eid path s r s' :
  snapshots_below lib h root eid → area_plain root (fs_tree s) →
  capture_snapshot path (compute_snapshot_path lib (snapshot_dir h) eid path) h s = (r, s') →
  area_step root (fs_tree s) (fs_tree s').
Proof.
  intros Hb Hap. destruct (Hb path) as (names & Hr & ->).
  assert (∀ s1 r1, io_map_err FE_Io
            match parent_path (RootDir :: (Normal <$> names)) with
            | Some parent => create_dir_all parent
            | None => io_ret (Ok tt)
            end h s = (r1, s1) → area_step root (fs_tree s) (fs_tree s1)) as Hdirs.
  { intros s1 r1 (r' & H)%io_map_err_run. destruct (parent_path _) as [q|] eqn:E;
      [| injection H as _ <-; by apply area_step_refl].
    apply parent_path_inv_names in E as (p & n & -> & ->).
    eapply create_dir_all_area; [done | done | | done]. eapply related_prefix; [by apply prefix_app_r | done]. }
  intros [(e & H) | (u & s1 & H1 & H)]%io_try_cases; [by eapply Hdirs |].
  apply Hdirs in H1. eapply area_step_trans; [done |]. apply io_map_err_run in H as (r' & H).
  apply copy_file_changes in H as [-> | (lt & n & Hlt & _ & Hf & (c & m & ->) & ->)]; [| | done].
  - apply area_step_refl, H1.
  - eapply resolve_area in Hlt as ->; [| apply H1 | done]. by apply area_step_insert; [apply H1 | ..].
Qed.

Lemma write_confined path payload s r s' :
  (∀ f l, resolve h (fs_tree s) f (kernel_path path) = Ok l → W `prefix_of` l) →
  execute_write lib path payload h s = (r, s') → changes_in allowed (fs_tree s) (fs_tree s').
Proof.
  intros Hl. unfold execute_write. destruct (write_content payload); [| by intros [= <- <-]; apply changes_in_refl].
  intros [(e & (r' & H)%io_map_err_run) | (u & s1 & (r' & H)%io_map_err_run & [= <- <-])]%io_try_cases.
  all: apply io_map_err_run in H as (r'' & H);
       apply (changes_allowed _ _ _ (write_contents_changes h Hcalm _ _ _ _ _ _ _ H)).
  all: intros x Hx; left; exact (Hl _ _ Hx).
Qed.

Lemma move_confined path payload s r s' :
  workdir_at (fs_tree s) → tree_wf (fs_tree s) → plain h (fs_tree s) path →
  (∀ f l, resolve h (fs_tree s) f (kernel_path path) = Ok l → W `prefix_of` l) →
  (∀ dest, payload_destination payload = Some dest → is_absolute dest = true) →
  execute_move fa path payload h s = (r, s') → changes_in allowed (fs_tree s) (fs_tree s').
Proof.
  intros HW Hwf Hp Hl Habs. unfold execute_move.
  destruct (payload_destination payload) as [dest|]; [| by intros [= <- <-]; apply changes_in_refl].
  specialize (Habs dest eq_refl). intros [(e & H) | ([] & s1 & H1 & H)]%io_try_cases.
  { apply changes_in_eq. by eapply reading_tree; [apply reading_revalidate_path |]. }
  apply (revalidate_allowed _ _ s) in H1 as (Ht1 & Hpd & Hld & _); [| done..].
  apply io_bind_inv in H as (renamed & s2 & H2 & H).
  assert (changes_in allowed (fs_tree s) (fs_tree s2)) as Hren.
  { rewrite <- Ht1 in *. apply (changes_allowed _ _ _ (rename_changes h Hcalm _ _ _ _ _ H2)).
    intros x (l & Hpre & [Hr | Hr]); (apply (allowed_below l); [| exact Hpre]);
      [exact (Hl _ _ Hr) | exact (Hld _ _ Hr)]. }
  destruct renamed as [u|e]; [injection H as _ <-; done |].
  apply rename_err in H2 as Ht2; [| done]. rewrite Ht1 in Ht2.
  destruct e; try (by injection H as _ <-).
  assert (∀ r1 s4, io_map_err FE_Io (copy_file (kernel_path path) (kernel_path dest)) h s2 = (r1, s4) →
            changes_in allowed (fs_tree s) (fs_tree s4) ∧ same_shape (fs_tree s4) (fs_tree s)) as Hcopy.
  { intros r1 s4 (r' & Hc)%io_map_err_run. rewrite <- Ht2 in *.
    apply copy_file_changes in Hc as [-> | (lt & n & Hlt & Hne & Hf & (c & m & ->) & ->)]; [| | done].
    - split; [apply changes_in_refl | apply same_shape_refl].
    - split; [apply changes_in_insert; left; exact (Hld _ _ Hlt) |].
      intros x Hx Hs. destruct (decide (x = lt)) as [-> | Hnx].
      + exfalso. eapply Hx. by rewrite node_at_insert.
      + destruct x; [done |]. simpl. by rewrite lookup_insert_ne. }
  assert (∀ r1 s5, cross_filesystem_move path dest h s2 = (r1, s5) →
            changes_in allowed (fs_tree s) (fs_tree s5)) as Hcross.
  { intros r1 s5 [(e & Hc) | ([] & s4 & Hc & Hr)]%io_try_cases; [by eapply Hcopy |].
    destruct (Hcopy _ _ Hc) as [Hch Hsh]. eapply changes_in_trans; [exact Hch |].
    apply io_map_err_run in Hr as (r' & Hr). apply (changes_allowed _ _ _ (remove_file_changes h Hcalm _ _ _ _ Hr)).
    intros x Hx. pose proof (plain_agree h _ _ path Hsh Hp) as Hp4.
    pose proof (resolve_spelled _ _ _ _ _ Hp4 Hx) as ->. left.
    apply io_map_err_inv, copy_file_inv in Hc as (lf & c & m & lt & Hlf & _); [| done].
    rewrite Ht2 in Hlf. pose proof (lookup_spelled h _ _ _ _ _ Hp Hlf) as ->.
    apply lookup_path_inv in Hlf as [Hlf _]. exact (Hl _ _ Hlf). }
  apply io_try_cases in H as [(e & (r' & H)%io_map_err_run) | (u & s5 & (r' & H)%io_map_err_run & [= <- <-])];
    by eapply Hcross.
Qed.

Lemma copy_confined c path payload s r s' :
  workdir_at (fs_tree s) → tree_wf (fs_tree s) →
  snapshots_below lib h root (rc_execution_id c) → area_plain root (fs_tree s) →
  (∀ dest, payload_destination payload = Some dest →
     is_absolute dest = true ∧ parent_present h (fs_tree s) dest) →
  execute_copy lib fa c path payload h s = (r, s') → changes_in allowed (fs_tree s) (fs_tree s').
Proof.
  intros HW Hwf Hb Hap Habs. unfold execute_copy.
  destruct (payload_destination payload) as [dest|]; [| by intros [= <- <-]; apply changes_in_refl].
  destruct (Habs dest eq_refl) as [Ha Hpar]. intros [(e & H) | ([] & s1 & H1 & H)]%io_try_cases.
  { apply changes_in_eq. by eapply reading_tree; [apply reading_revalidate_path |]. }
  apply (revalidate_allowed _ _ s) in H1 as (Ht1 & Hpd & Hld & _); [| done..].
  apply io_bind_inv in H as (there & s2 & [Hth Ht2]%path_exists_inv & H); [| done]. rewrite Ht1 in Hth, Ht2.
  (* the tree when the copy starts *)
  assert (∀ r3 s3, (if negb there then io_ret (Ok tt)
             else snapshot <~ snapshot_path lib (rc_execution_id c) dest ;
                  execute_fs "FileCopy snapshot capture failed for " dest (capture_snapshot dest snapshot)) h s2
           = (r3, s3) → area_step root (fs_tree s) (fs_tree s3) ∧ (there = false → fs_tree s3 = fs_tree s)) as Hsnap.
  { intros r3 s3. destruct there; simpl.
    - intros (snap & s2a & [= <- <-] & (r' & H3)%io_map_err_run)%io_bind_inv. rewrite <- Ht2 in *.
      split; [by eapply capture_area | done].
    - intros [= _ <-]. rewrite Ht2. split; [by apply area_step_refl | done]. }
  apply io_try_cases in H as [(e & H) | (u3 & s3 & H3 & H)]; [by eapply area_changes, Hsnap |].
  apply Hsnap in H3 as [Hst Hfree]. clear Hsnap.
  assert (∀ r4 s4, ensure_parent dest h s3 = (r4, s4) → fs_tree s4 = fs_tree s3) as Hens.
  { intros r4 s4 H4. destruct (lookup_path h (fs_tree s) true (kernel_path dest)) as [[l n]|] eqn:El.
    - apply lookup_path_inv in El as [Hr _].
      by eapply ensure_parent_inv in H4 as [_ ?]; [done | done | exact Hpd | exact Hr | apply Hst].
    - simpl in Hth. apply parent_present_noop in H4 as [_ ?]; [done | done |]. by rewrite (Hfree Hth). }
  assert (∀ lt, resolve h (fs_tree s3) true (kernel_path dest) = Ok lt → W `prefix_of` lt) as Hdest.
  { intros lt Hr. destruct (lookup_path h (fs_tree s) true (kernel_path dest)) as [[l n]|] eqn:El.
    - pose proof (lookup_spelled h _ _ _ _ _ Hpd El) as ->. pose proof El as [Hr0 _]%lookup_path_inv.
      assert (resolve h (fs_tree s3) true (kernel_path dest) = Ok (spelled h dest)) as Hr3.
      { eapply (resolve_after h); [exact Hpd | exact El | apply Hst |]. intros tg Htg.
        destruct (decide (spelled h dest = [])) as [E0 | E0]; [by rewrite E0 in Htg |].
        destruct (decide (spelled h dest `prefix_of` root)) as [? | N1];
          [by eapply (as_plain _ _ _ Hst); [left | exact Htg] |].
        destruct (decide (root `prefix_of` spelled h dest)) as [? | N2];
          [by eapply (as_plain _ _ _ Hst); [right | exact Htg] |].
        rewrite node_at_cons, (as_outside _ _ _ Hst) in Htg by (done || by intros [? | ?]).
        rewrite <- node_at_cons in Htg by done.
        eapply (plain_not_link h _ true dest); [exact Hpd |]. apply lookup_path_inv. by split. }
      assert (lt = spelled h dest) as -> by congruence. exact (Hld _ _ Hr0).
    - simpl in Hth. rewrite (Hfree Hth) in Hr. exact (Hld _ _ Hr). }
  eapply changes_in_trans; [by apply area_changes |]. clear Hst Hfree.
  apply io_try_cases in H as [(e & (r' & H)%io_map_err_run) | (u4 & s4 & (r' & H4)%io_map_err_run & H)].
  { apply changes_in_eq. exact (Hens _ _ H). }
  apply Hens in H4. rewrite <- H4 in *.
  assert (∀ r5 s5, copy_file (kernel_path path) (kernel_path dest) h s4 = (r5, s5) →
            changes_in allowed (fs_tree s4) (fs_tree s5)) as Hcopy.
  { intros r5 s5 [-> | (lt & n & Hlt & _ & _ & _ & ->)]%copy_file_changes; [apply changes_in_refl | | done].
    apply changes_in_insert. left. exact (Hdest _ Hlt). }
  apply io_try_cases in H as [(e & (r5 & H)%io_map_err_run) | (u5 & s5 & (r5 & H5)%io_map_err_run & H)];
    [exact (Hcopy _ _ H) |].
  eapply changes_in_trans; [exact (Hcopy _ _ H5) |]. apply changes_in_eq. revert H. apply reading_tree.
  unfold execute_fs. solve_reading.
Qed.

(** The paths of the action are absolute; a copy does not have to create directories. *)
Definition confinable (c : RollbackContract) (payload : json) t : Prop :=
  (∀ path b a, rc_target c = RTg_FilePath path b a → is_absolute path = true) ∧
  match rc_action_type c with
  | Act_FileMove => ∀ dest, payload_destination payload = Some dest → is_absolute dest = true
  | Act_FileCopy => ∀ dest, payload_destination payload = Some dest →
      is_absolute dest = true ∧ parent_present h t dest
  | _ => True
  end.

Lemma execute_io_run {A} msg path (m : io (result A IoError)) s r s' :
  execute_io msg path m h s = (r, s') → ∃ r', m h s = (r', s').
Proof. apply io_map_err_run. Qed.

(** An action that is one call, and then a receipt. *)
Lemma call_then_receipt {A} msg path (m : io (result A IoError)) (k : A → io (result ExecuteReceipt AdapterError))
    s r s' (P : Loc → Prop) :
  (∀ r1 s1, m h s = (r1, s1) → changes_in P (fs_tree s) (fs_tree s1)) → (∀ x, P x → W `prefix_of` x) →
  (∀ a, Reading (k a)) → (x <~? execute_io msg path m ; k x) h s = (r, s') →
  changes_in allowed (fs_tree s) (fs_tree s').
Proof.
  intros Hm HP Hk [(e & (r' & H)%execute_io_run) | (a & s1 & (r' & H)%execute_io_run & H1)]%io_try_cases.
  - apply (changes_allowed _ _ _ (Hm _ _ H)). intros x Hx. left. by apply HP.
  - rewrite (reading_tree _ (Hk a) _ _ _ _ H1). apply (changes_allowed _ _ _ (Hm _ _ H)).
    intros x Hx. left. by apply HP.
Qed.

Lemma append_confined path payload s r s' :
  (∀ f l, resolve h (fs_tree s) f (kernel_path path) = Ok l → W `prefix_of` l) →
  execute_append lib path payload h s = (r, s') → changes_in allowed (fs_tree s) (fs_tree s').
Proof.
  intros Hl. unfold execute_append.
  destruct (append_data payload) as [[|a data]|]; [by intros [= <- <-]; apply changes_in_refl | |
    by intros [= <- <-]; apply changes_in_refl].
  intros [(e & H) | (l & s1 & H1 & H)]%io_try_cases.
  { apply changes_in_eq. revert H. apply reading_tree. unfold execute_fs. solve_reading. }
  apply execute_fs_inv, io_map_err_inv, kernel_read_inv in H1 as [Hlk Ht1]; [| done].
  assert (W `prefix_of` l) as HWl.
  { destruct (lookup_path h (fs_tree s) false (kernel_path path)) as [[l' n]|] eqn:E; [| done].
    destruct n; try done. injection Hlk as <-. apply lookup_path_inv in E as [E _]. exact (Hl _ _ E). }
  rewrite <- Ht1. eapply call_then_receipt; [| | | exact H].
  - intros r1 s2. apply write_all_changes, Hcalm.
  - by intros x ->.
  - intros u. unfold execute_fs, execute_io. solve_reading.
Qed.

(** The action of the contract, below the working directory. *)
Lemma action_confined c path payload s r s' :
  workdir_at (fs_tree s) → tree_wf (fs_tree s) →
  snapshots_below lib h root (rc_execution_id c) → area_plain root (fs_tree s) →
  plain h (fs_tree s) path → (∀ f l, resolve h (fs_tree s) f (kernel_path path) = Ok l → W `prefix_of` l) →
  (∀ l, resolve h (fs_tree s) false (mkdir_path path) = Ok l → node_at (fs_tree s) l = None → W `prefix_of` l) →
  confinable c payload (fs_tree s) →
  execute_action lib fa c path payload h s = (r, s') → changes_in allowed (fs_tree s) (fs_tree s').
Proof.
  intros HW Hwf Hb Hap Hp Hl Hmk [_ Hc]. unfold execute_action.
  destruct (rc_action_type c); try (by intros [= <- <-]; apply changes_in_refl).
  - by apply write_confined.
  - unfold execute_delete. apply (call_then_receipt _ _ _ _ _ _ _ _ (remove_file_changes h Hcalm _ _)).
    + intros x Hx. exact (Hl _ _ Hx).
    + intros u. apply reading_ret.
  - by apply move_confined.
  - by apply copy_confined.
  - by apply append_confined.
  - unfold execute_chmod. destruct (meta_string _ _) as [nm|]; [| by intros [= <- <-]; apply changes_in_refl].
    destruct (parse_mode_string nm); [| by intros [= <- <-]; apply changes_in_refl].
    apply (call_then_receipt _ _ _ _ _ _ _ _ (set_permissions_changes h Hcalm _ _ _)).
    + intros x Hx. exact (Hl _ _ Hx).
    + intros u. unfold execute_io. solve_reading.
  - unfold execute_dir_create. apply (call_then_receipt _ _ _ _ _ _ _ _ (create_dir_changes h Hcalm _ _)).
    + intros x [Hx Hn]. exact (Hmk _ Hx Hn).
    + intros u. apply reading_ret.
  - unfold execute_dir_delete. apply (call_then_receipt _ _ _ _ _ _ _ _ (remove_dir_changes h Hcalm _ _)).
    + intros x Hx. exact (Hl _ _ Hx).
    + intros u. apply reading_ret.
Qed.
End workdir.

