(* ===== verification/FsScenario.v ===== *)
(** * The file-system adapter on a concrete machine

    A small tree, the inputs of the theorems on the adapter, and what the adapter does
    where they do not apply. *)

From stdpp Require Import pretty.
From S2P Require Import Prelude Json Proto Adapter RollbackSvc Lifecycle Handlers FileSystem FsAdapter FsPhases FsFacts FsSnapshot FsRestore FsRestoreRest FsSpec FsConfine.
From Stdlib Require Import Ascii.

(** ** The machine *)

(** A digest without slashes that differs for different contents. *)
Fixpoint marks (s : string) : string :=
  match s with
  | EmptyString => ""
  | String c s => String (if Ascii.eqb c "/" then "#" else c) (marks s)
  end.
Definition toy_lib : FsLib :=
  {| fl_sha256_hex s := "x" +:+ marks s; fl_json_text _ := ""; fl_debug_target _ := "" |}.

Definition machine : Host :=
  {| h_cwd := ["home"]; h_temp_dir := "/tmp"; h_umask := 18%Z; h_device _ := 1%Z;
     h_fault _ := None; h_now _ := "2025-01-01T00:00:00+00:00" |}.

(** [/wd] with two files and an empty directory, [/tmp] and [/home]. *)
Definition tree0 : Tree :=
  {[ ["tmp"] := Dir 511; ["home"] := Dir 493; ["wd"] := Dir 493;
     ["wd"; "f"] := File "old" 420; ["wd"; "g"] := File "other" 384; ["wd"; "d"] := Dir 493 ]}.
Definition fs0 : Fs := mkFs tree0 0.

Definition sandboxed : FsAdapter :=
  {| fa_key := "fs"; fa_bounds := default_bounds; fa_workdir := Some "/wd" |}.

Definition request_for (a : ActionType) (path : string) (md : JsonMap) : RollbackPrepareRequest :=
  {| rpr_intent_id := "i"; rpr_proposal_id := "p"; rpr_execution_id := "e"; rpr_action_type := a;
     rpr_rollback_class := R0NativeReversible; rpr_adapter_key := "fs";
     rpr_target := RTg_FilePath path None None; rpr_prepare_checks := []; rpr_verify_checks := [];
     rpr_compensation_plan := []; rpr_auto_commit := true; rpr_metadata := md |}.

Definition contract_for (request : RollbackPrepareRequest) (prep : PrepareReceipt) (checks : list CheckSpec)
  : RollbackContract :=
  {| rc_contract_id := "c"; rc_intent_id := rpr_intent_id request; rc_proposal_id := rpr_proposal_id request;
     rc_execution_id := rpr_execution_id request; rc_action_type := rpr_action_type request;
     rc_rollback_class := rpr_rollback_class request; rc_adapter_key := rpr_adapter_key request;
     rc_target := rpr_target request; rc_prepare_checks := []; rc_verify_checks := checks;
     rc_compensation_plan := []; rc_auto_commit := rpr_auto_commit request; rc_state := RbS_Prepared;
     rc_created_at := 0%Z; rc_expires_at := None;
     rc_metadata := merge_metadata (prep_adapter_metadata prep) (rpr_metadata request) |}.

Lemma contract_for_of request prep checks : contract_of request prep (contract_for request prep checks).
Proof. by split. Qed.

(** Prepare, execute, verify, rollback on the machine; the trees after execute and after
    rollback, and what verify and rollback report. *)
Definition cycle (fa : FsAdapter) (request : RollbackPrepareRequest) (payload : json) (checks : list CheckSpec) (s : Fs)
  : option (Tree * result bool AdapterError * bool * Tree) :=
  let '(r1, s1) := fs_prepare toy_lib fa request machine s in
  match r1 with
  | Err _ => None
  | Ok prep =>
      let c := contract_for request prep checks in
      let '(r2, s2) := fs_execute toy_lib fa c payload machine s1 in
      match r2 with
      | Err _ => None
      | Ok receipt =>
          let c := contract_after_execute receipt payload c in
          let '(v, s3) := fs_verify toy_lib c machine s2 in
          let '(r3, s4) := fs_rollback toy_lib fa c machine s3 in
          match r3 with
          | Ok rr => Some (fs_tree s2, match v with Ok x => Ok (vr_verified x) | Err e => Err e end,
                           rr_recovered rr, fs_tree s4)
          | Err _ => None
          end
      end
  end.

Definition move_to (dest : string) : json := JObj [("destination", JStr dest)].

(** ** The hypotheses of the theorems *)

Definition snap_root : Loc := ["tmp"; "ferrum-fs-snapshots"].

Fixpoint slash_free (s : string) : bool :=
  match s with EmptyString => true | String c s => negb (Ascii.eqb c "/") && slash_free s end.

Lemma slash_parts_free acc s : slash_free s = true → slash_parts_from acc s = [acc +:+ s].
Proof.
  revert acc. induction s as [|c s IH]; intros acc H; cbn in *; [by rewrite str_app_nil |].
  apply andb_true_iff in H as [H1 H2]. destruct (Ascii.eqb c "/"); [done |].
  rewrite IH by done. f_equal. clear. induction acc as [|a acc IH]; [done |]. exact (f_equal (String a) IH).
Qed.

Lemma marks_free n s : slash_free (String.substring 0 n (marks s)) = true.
Proof.
  revert n. induction s as [|c s IH]; intros [|n]; try done. cbn. rewrite IH, andb_true_r.
  destruct (Ascii.eqb c "/") eqn:E; cbn; [done | by rewrite E].
Qed.

Lemma toy_snapshots : snapshots_below toy_lib machine snap_root "e".
Proof.
  intros p. set (n := String "x" (String.substring 0 15 (marks p))).
  exists (snap_root ++ ["e"; n]). split; [right; by apply prefix_app_r |].
  unfold compute_snapshot_path, join_name at 1. cbn [fl_sha256_hex toy_lib].
  change (String.substring 0 16 ("x" +:+ marks p)) with n.
  unfold slash_parts. rewrite (slash_parts_free "" n) by (cbn; apply marks_free).
  assert (part_component ("" +:+ n) = [Normal n]) as Hn.
  { unfold part_component. cbn -[marks String.substring]. by destruct (String.substring 0 15 (marks p)). }
  cbn [mbind list_bind]. rewrite Hn. reflexivity.
Qed.

Lemma machine_calm : calm machine.
Proof. done. Qed.

Lemma tree_forallb (f : Loc * Node → bool) (t : Tree) l n :
  forallb f (map_to_list t) = true → t !! l = Some n → f (l, n) = true.
Proof. rewrite forallb_forall. intros H Hl. apply H, list_elem_of_In. by apply elem_of_map_to_list. Qed.

Lemma tree0_plain : area_plain snap_root tree0.
Proof.
  intros [|x l] tg _ Hn; [done |]. cbn [node_at] in Hn.
  by apply (tree_forallb (λ kn, match kn.2 with Link _ => false | _ => true end)) in Hn.
Qed.

Lemma tree0_modes : modes_ok tree0.
Proof.
  intros x c m Hn.
  apply (tree_forallb (λ kn, match kn.2 with File _ m => (Z.land m 4095 =? m)%Z | _ => true end)) in Hn;
    [by apply Z.eqb_eq in Hn | by vm_compute].
Qed.

Lemma tree0_wf : tree_wf tree0.
Proof.
  intros l n Hn. by apply (tree_forallb (λ kn, is_dir_node (node_at tree0 (parent_loc kn.1)))) in Hn.
Qed.

Lemma setting0 : fs_setting toy_lib sandboxed machine snap_root "e" tree0.
Proof.
  split; [apply machine_calm | done | by vm_compute | apply toy_snapshots | apply tree0_plain | apply tree0_modes].
Qed.

(** Each theorem at a concrete input. *)

Definition run_prepare (request : RollbackPrepareRequest) :=
  fs_prepare toy_lib sandboxed request machine fs0.

(** The receipt of a computation that succeeds. *)
Definition get_ok {A E} (r : result A E) : option A := match r with Ok a => Some a | Err _ => None end.

Definition write_request := request_for Act_FileWrite "/wd/f" [].
Definition empty_prep : PrepareReceipt := {| prep_accepted := false; prep_adapter_metadata := [] |}.
Definition write_prep : PrepareReceipt :=
  Eval vm_compute in default empty_prep (get_ok (run_prepare write_request).1).
Definition write_s1 : Fs := (run_prepare write_request).2.
Definition write_contract := contract_for write_request write_prep [].
Definition write_exec := fs_execute toy_lib sandboxed write_contract (JStr "new") machine write_s1.
Definition empty_receipt : ExecuteReceipt :=
  {| exr_external_id := None; exr_result_digest := None; exr_adapter_metadata := [] |}.
Definition write_receipt : ExecuteReceipt := Eval vm_compute in default empty_receipt (get_ok write_exec.1).
Definition write_rollback :=
  fs_rollback toy_lib sandboxed (contract_after_execute write_receipt (JStr "new") write_contract) machine write_exec.2.
Definition empty_recovery : RecoveryReceipt := {| rr_recovered := false; rr_adapter_metadata := [] |}.
Definition write_recovery : RecoveryReceipt := Eval vm_compute in default empty_recovery (get_ok write_rollback.1).

Lemma pair_run {A B} (p : A * B) a : p.1 = a → p = (a, p.2).
Proof. destruct p. by intros <-. Qed.

Lemma related_dec_neg (root x : Loc) :
  bool_decide (x `prefix_of` root) = false → bool_decide (root `prefix_of` x) = false → ¬ related root x.
Proof. intros ?%bool_decide_eq_false ?%bool_decide_eq_false [?|?]; done. Qed.

Lemma write_prep_ok : (run_prepare write_request).1 = Ok write_prep.
Proof. vm_compute. reflexivity. Qed.
Lemma write_exec_ok : write_exec.1 = Ok write_receipt.
Proof. vm_compute. reflexivity. Qed.
Lemma write_rollback_ok : write_rollback.1 = Ok write_recovery.
Proof. vm_compute. reflexivity. Qed.


Definition copy_request := request_for Act_FileCopy "/wd/f" [].
Definition copy_prep : PrepareReceipt :=
  Eval vm_compute in default empty_prep (get_ok (run_prepare copy_request).1).
Definition copy_contract := contract_for copy_request copy_prep [].
Definition copy_exec (dest : string) :=
  fs_execute toy_lib sandboxed copy_contract (move_to dest) machine (run_prepare copy_request).2.

Lemma copy_prep_tree : fs_tree (run_prepare copy_request).2 = tree0.
Proof. vm_cast_no_check (eq_refl tree0). Qed.


(** ** Where the theorems do not apply *)

(** A move over an existing file: rollback reports success, the file it replaced is gone. *)
Theorem move_over_existing_lost :
  tree0 !! ["wd"; "g"] = Some (File "other" 384) ∧
  option_map (λ x, (x.1.2, x.2 !! ["wd"; "g"]))
    (cycle sandboxed (request_for Act_FileMove "/wd/f" []) (move_to "/wd/g") [] fs0) = Some (true, None).
Proof. split; vm_compute; reflexivity. Qed.

(** The mode of a deleted directory is not restored. *)
Definition private_tree : Tree := <[["wd"; "d"] := Dir 448]> tree0.
Theorem dir_delete_loses_mode :
  option_map (λ x, (x.1.2, x.2 !! ["wd"; "d"]))
    (cycle sandboxed (request_for Act_DirDelete "/wd/d" []) JNull [] (mkFs private_tree 0))
  = Some (true, Some (Dir 493)).
Proof. vm_compute. reflexivity. Qed.

(** A copy whose destination directory is missing leaves the working directory, and
    rollback then refuses to undo it. *)
Definition rollback_after (exec : result ExecuteReceipt AdapterError * Fs) (dest : string) (c : RollbackContract) :=
  fs_rollback toy_lib sandboxed
    (contract_after_execute (default empty_receipt (get_ok exec.1)) (move_to dest) c) machine exec.2.

Theorem copy_escapes_workdir :
  let dest := "/out/x/n" in
  is_ok (copy_exec dest).1 = true ∧
  fs_tree (copy_exec dest).2 !! ["out"; "x"; "n"] = Some (File "old" 420) ∧
  (rollback_after (copy_exec dest) dest copy_contract).1 =
  Err (AE_Validation "[rollback] path escapes sandbox: path /out/x/n resolves to /out/x/n which escapes workdir /wd").
Proof. split_and!; vm_compute; reflexivity. Qed.

(** So does a move to a bare file name, which is taken relative to the working directory
    of the process. *)
Definition move_request := request_for Act_FileMove "/wd/f" [].
Definition move_contract := contract_for move_request (default empty_prep (get_ok (run_prepare move_request).1)) [].
Definition move_exec (dest : string) :=
  fs_execute toy_lib sandboxed move_contract (move_to dest) machine (run_prepare move_request).2.

Theorem bare_name_escapes_workdir :
  is_ok (move_exec "n").1 = true ∧
  fs_tree (move_exec "n").2 !! ["home"; "n"] = Some (File "old" 420) ∧
  fs_tree (move_exec "n").2 !! ["wd"; "f"] = None ∧
  is_ok (rollback_after (move_exec "n") "n" move_contract).1 = false.
Proof. split_and!; vm_compute; reflexivity. Qed.

(** A fault while the parent is canonicalised makes the check fall back to the working
    directory: one such fault in [execute], and a file outside is written. *)
Definition faulty_at (k : nat) : Host :=
  {| h_cwd := ["home"]; h_temp_dir := "/tmp"; h_umask := 18%Z; h_device _ := 1%Z;
     h_fault n := if (n =? k)%nat then Some (EOther "Input/output error (os error 5)", 0) else None;
     h_now _ := "2025-01-01T00:00:00+00:00" |}.
Definition outside_write (h : Host) :=
  fs_execute toy_lib sandboxed (contract_for (request_for Act_FileWrite "/home/n" []) empty_prep []) (JStr "new") h fs0.

Theorem canonicalize_fault_escapes :
  is_ok (outside_write machine).1 = false ∧ fs_tree (outside_write machine).2 !! ["home"; "n"] = None ∧
  is_ok (outside_write (faulty_at 6)).1 = true ∧
  fs_tree (outside_write (faulty_at 6)).2 !! ["home"; "n"] = Some (File "new" 420).
Proof. split_and!; vm_compute; reflexivity. Qed.

(** [exists] takes an error for absence: with one failing [stat] in prepare, a write to
    an existing file is undone by deleting it, and rollback reports success. *)
Definition flaky : Host :=
  {| h_cwd := ["home"]; h_temp_dir := "/tmp"; h_umask := 18%Z; h_device _ := 1%Z;
     h_fault n := if (n =? 11)%nat then Some (EOther "Input/output error (os error 5)", 0) else None;
     h_now _ := "2025-01-01T00:00:00+00:00" |}.
Definition flaky_cycle : option (bool * option Node) :=
  let '(r1, s1) := fs_prepare toy_lib sandboxed write_request flaky fs0 in
  match r1 with
  | Err _ => None
  | Ok prep =>
      let c := contract_for write_request prep [] in
      let '(r2, s2) := fs_execute toy_lib sandboxed c (JStr "new") flaky s1 in
      let c := contract_after_execute (default empty_receipt (get_ok r2)) (JStr "new") c in
      let '(r3, s3) := fs_rollback toy_lib sandboxed c flaky s2 in
      Some (rr_recovered (default empty_recovery (get_ok r3)), fs_tree s3 !! ["wd"; "f"])
  end.

Theorem stat_fault_loses_file :
  tree0 !! ["wd"; "f"] = Some (File "old" 420) ∧ flaky_cycle = Some (true, None).
Proof. split; vm_compute; reflexivity. Qed.

(** ** The plans of planner.rs *)

Definition planned_checks (a : ActionType) (path : string) : list CheckSpec :=
  match (PlannableFsAdapter 1 a (RTg_FilePath path None None)).1 with
  | Ok (Some plan) => pl_verify_checks plan
  | _ => []
  end.

(** A planned write never verifies: its hash check names no hash. *)
Theorem planned_write_never_verifies lib c path b a h s :
  rc_action_type c = Act_FileWrite → rc_target c = RTg_FilePath path b a →
  rc_verify_checks c = planned_checks Act_FileWrite path →
  is_ok (fs_verify lib c h s).1 = false.
Proof.
  intros Ha Ht Hc. unfold fs_verify. rewrite Ht. cbn [extract_path].
  destruct ((_ <~? verify_action lib c path ;
             _ <~? run_checks lib (rc_verify_checks c) path "verify" ;
             io_ret (Ok {| vr_verified := true; vr_adapter_metadata := [] |})) h s) as [[v|e] s'] eqn:Ev; [| done].
  exfalso. apply io_try_inv in Ev as (u & s1 & _ & H). apply io_try_inv in H as (u' & s2 & H & _).
  rewrite Hc in H. cbn in H. rewrite String.eqb_refl in H. cbn in H. done.
Qed.

(** Nor does a planned delete: the file must be absent and must exist. *)
Theorem planned_delete_never_verifies lib c path b a h s :
  calm h → rc_action_type c = Act_FileDelete → rc_target c = RTg_FilePath path b a →
  rc_verify_checks c = planned_checks Act_FileDelete path →
  is_ok (fs_verify lib c h s).1 = false.
Proof.
  intros Hcalm Ha Ht Hc. unfold fs_verify. rewrite Ht. cbn [extract_path].
  destruct ((_ <~? verify_action lib c path ;
             _ <~? run_checks lib (rc_verify_checks c) path "verify" ;
             io_ret (Ok {| vr_verified := true; vr_adapter_metadata := [] |})) h s) as [[v|e] s'] eqn:Ev; [| done].
  exfalso. apply io_try_inv in Ev as (u & s1 & H1 & H). apply io_try_inv in H as (u' & s2 & H & _).
  unfold verify_action in H1. rewrite Ha in H1. apply io_bind_inv in H1 as (there & s3 & H3 & H1).
  apply fs_require_inv in H1 as [Hn ->]. apply negb_true_iff in Hn as ->.
  apply is_existing_file_inv in H3 as [Hf Ht3]; [| done].
  rewrite Hc in H. apply io_try_inv in H as (u'' & s4 & H & _). unfold run_check in H. cbn [cs_check_type] in H.
  cbn in H. rewrite String.eqb_refl in H. apply io_bind_inv in H as (ok & s5 & Hok & H).
  apply is_existing_file_inv in Hok as [-> _]; [| done]. rewrite Ht3, <- Hf in H. done.
Qed.

(** ** What the gateway asks for *)

(** The gateway gives directory actions no path, so the adapter refuses them. *)
Theorem gateway_directories_refused lib fa tx scope a request h s :
  fs_dir_action a = true → rpr_target request = infer_target_from_scope tx scope a →
  rpr_action_type request = a → is_ok (fs_prepare lib fa request h s).1 = false.
Proof.
  intros Hd Ht Ha. assert (infer_target_from_scope tx scope a = RTg_Generic "mcp" "tool-call") as Hg.
  { unfold infer_target_from_scope, first_selector.
    assert (omap (selector_target tx a) scope = []) as ->; [| done].
    clear Ht. induction scope as [|x scope IH]; [done |]. cbn.
    destruct x; destruct a; try done; cbn; exact IH. }
  unfold fs_prepare. rewrite Ht, Hg. done.
Qed.

(** The gateway passes no mode, so [FileChmod] is always refused. *)
Theorem gateway_chmod_refused lib fa request h s :
  rpr_action_type request = Act_FileChmod → rpr_metadata request = [] →
  is_ok (fs_prepare lib fa request h s).1 = false.
Proof.
  intros Ha Hmd. destruct (fs_prepare lib fa request h s) as [[prep|e] s'] eqn:E; [exfalso | done].
  unfold fs_prepare in E. destruct (extract_path lib _) as [path|]; [| done]. rewrite Ha in E. cbn [negb orb] in E.
  apply io_try_inv in E as (? & s1 & _ & E). apply io_try_inv in E as (? & s2 & _ & E).
  apply io_try_inv in E as (? & s3 & _ & E). apply io_bind_inv in E as (? & s4 & _ & E).
  apply io_try_inv in E as (md & s5 & E & _). unfold prepare_action in E. rewrite Ha in E.
  unfold prepare_chmod in E. apply io_try_inv in E as (? & s6 & _ & E). by rewrite Hmd in E.
Qed.
