(* ===== verification/StoreFacts.v ===== *)
(** * What the store's transactions do

    Characterizations of the transactions of file Store: every outcome, and the
    exact change of the database in each.  The transactions are all or nothing. *)

From S2P Require Import Prelude Json Proto Transitions Store.

(** ** Tables under updates *)

(** Reduce a table of an updated database. *)
Ltac simpl_db := repeat match goal with d : Db |- _ => destruct d end; simpl in *.

(** The tables a lifecycle transaction leaves alone. *)
Record same_rest (d d' : Db) : Prop := {
  sr_intents : db_intents d' = db_intents d;
  sr_proposals : db_proposals d' = db_proposals d;
  sr_approvals : db_approvals d' = db_approvals d;
  sr_events : db_events d' = db_events d;
  sr_edges : db_edges d' = db_edges d;
  sr_audit_log : db_audit_log d' = db_audit_log d;
  sr_holds : db_holds d' = db_holds d;
  sr_admin : db_admin d' = db_admin d;
}.

Lemma transaction_ok {A} (s : stmt A) d a d' : transaction s d = (Ok a, d') → s d = (Ok a, d').
Proof. unfold transaction. destruct (s d) as [[] ?]; intros; by simplify_eq. Qed.

Lemma transaction_err {A} (s : stmt A) d e d' : transaction s d = (Err e, d') → d' = d.
Proof. unfold transaction. destruct (s d) as [[] ?]; intros; by simplify_eq. Qed.

Lemma then_ok {A B} (s : stmt A) (k : A → stmt B) d b d' :
  then_ s k d = (Ok b, d') ↔ ∃ a d1, s d = (Ok a, d1) ∧ k a d1 = (Ok b, d').
Proof.
  unfold then_. destruct (s d) as [[a|e] d1]; split.
  - intros H. by exists a, d1.
  - intros (a' & d1' & H & H'). by simplify_eq.
  - done.
  - intros (a' & d1' & H & H'). by simplify_eq.
Qed.

(** ** The outbox insert *)

(** What the insert of an outbox record has found and done. *)
Record outbox_inserted (r : LifecycleOutboxRecord) (d d' : Db) : Prop := {
  oi_key_fresh : key_taken (ob_idempotency_key r) d = false;
  oi_id_fresh : db_outbox d !! ob_outbox_id r = None;
  oi_outbox : db_outbox d' = <[ob_outbox_id r := mkOutboxRow r None None 0]> (db_outbox d);
}.

Lemma has_lookup {A} k (m : gmap string A) : has k m = false ↔ m !! k = None.
Proof. unfold has. rewrite bool_decide_eq_false, <- eq_None_not_Some. done. Qed.

Lemma insert_outbox_ok r d d' :
  insert_outbox_record_tx r d = (Ok tt, d') →
  outbox_inserted r d d' ∧ same_rest d d' ∧ db_capabilities d' = db_capabilities d ∧
  db_executions d' = db_executions d ∧ db_contracts d' = db_contracts d.
Proof.
  unfold insert_outbox_record_tx. destruct (key_taken _ _) eqn:Hk; [done|].
  destruct (has _ _) eqn:Hh; [done|]. destruct (negb _); [done|]. intros. simplify_eq.
  apply has_lookup in Hh. destruct d; simpl in *. split_and!; try done; by split.
Qed.

(** ** Lifecycle transitions *)

(** What a transition does to its contract. *)
Definition contract_step (c : option RollbackContract) (prev : option RollbackState) (d d' : Db) : Prop :=
  match c with
  | None => db_contracts d' = db_contracts d
  | Some c =>
      db_contracts d' = <[rc_contract_id c := c]> (db_contracts d) ∧
      match prev with
      | Some s => ∃ c0, db_contracts d !! rc_contract_id c = Some c0 ∧ rc_state c0 = s ∧
                    is_valid_rollback_transition s (rc_state c) = true
      | None => db_contracts d !! rc_contract_id c = None
      end
  end.

Record transition_done (e : ExecutionRecord) (c : option RollbackContract)
    (ob : LifecycleOutboxRecord) (d d' : Db) : Prop := {
  td_execution : ∃ e0, db_executions d !! ex_execution_id e = Some e0 ∧
    ob_previous_execution_state ob = Some (ex_state e0) ∧
    is_valid_execution_transition (ex_state e0) (ex_state e) = true;
  td_executions : db_executions d' = <[ex_execution_id e := e]> (db_executions d);
  td_contract : contract_step c (ob_previous_rollback_state ob) d d';
  td_outbox : outbox_inserted ob d d';
  td_capabilities : db_capabilities d' = db_capabilities d;
  td_rest : same_rest d d';
}.

Lemma update_execution_where_ok e s d d' :
  sql_update_execution_where e s d = (Ok true, d') →
  (∃ e0, db_executions d !! ex_execution_id e = Some e0 ∧ ex_state e0 = s) ∧
  d' = set_executions (<[ex_execution_id e := e]> (db_executions d)) d.
Proof. unfold sql_update_execution_where. repeat case_match; intros; simplify_eq; eauto. Qed.

Lemma update_contract_where_ok c s d d' :
  sql_update_contract_where c s d = (Ok true, d') →
  (∃ c0, db_contracts d !! rc_contract_id c = Some c0 ∧ rc_state c0 = s) ∧
  d' = set_contracts (<[rc_contract_id c := c]> (db_contracts d)) d.
Proof. unfold sql_update_contract_where. repeat case_match; intros; simplify_eq; eauto. Qed.

Lemma insert_contract_ok c d d' :
  sql_insert_contract c d = (Ok tt, d') →
  db_contracts d !! rc_contract_id c = None ∧
  d' = set_contracts (<[rc_contract_id c := c]> (db_contracts d)) d.
Proof.
  unfold sql_insert_contract. destruct (has _ _) eqn:Hh; [done|]. destruct (negb _); [done|].
  intros. simplify_eq. by apply has_lookup in Hh.
Qed.

(** The contract write of a transition. *)
Definition write_contract (rollback_contract : option RollbackContract) (prev : option RollbackState)
  : stmt unit :=
  match rollback_contract with
  | None => return_ tt
  | Some contract =>
      match prev with
      | Some expected_rollback =>
          do! updated <- sql_update_contract_where contract expected_rollback;
          if negb updated then
            fail_ (SE_InvalidState ("rollback contract " +:+ rc_contract_id contract
                                    +:+ " state changed before lifecycle transition"))
          else return_ tt
      | None => sql_insert_contract contract
      end
  end.

Lemma write_contract_ok c prev d d' :
  write_contract c prev d = (Ok tt, d') →
  (match c, prev with
   | Some c, Some s => is_valid_rollback_transition s (rc_state c) = true | _, _ => True end) →
  contract_step c prev d d' ∧ same_rest d d' ∧ db_capabilities d' = db_capabilities d ∧
  db_executions d' = db_executions d ∧ db_outbox d' = db_outbox d.
Proof.
  intros H Hv. destruct c as [c|]; [destruct prev as [s|]|]; simpl in *.
  - apply then_ok in H as (u & d1 & Hu & H). destruct u; [|done].
    apply update_contract_where_ok in Hu as [(c0 & Hc0 & Hs) ->]. unfold return_ in H.
    destruct d; simplify_eq/=. split_and!; eauto; by split.
  - apply insert_contract_ok in H as [Hn ->]. destruct d; simpl in *. split_and!; eauto; by split.
  - unfold return_ in H. simplify_eq. split_and!; eauto; by split.
Qed.

Lemma check_transition_ok e c ob s :
  check_transition e c ob = Ok s →
  ob_previous_execution_state ob = Some s ∧ is_valid_execution_transition s (ex_state e) = true ∧
  match c, ob_previous_rollback_state ob with
  | Some c, Some s => is_valid_rollback_transition s (rc_state c) = true
  | _, _ => True
  end.
Proof.
  unfold check_transition. destruct (ob_previous_execution_state ob) as [s0|]; [|done].
  destruct (is_valid_execution_transition s0 (ex_state e)) eqn:Hv; simpl; [|done].
  destruct c as [c|]; [destruct (ob_previous_rollback_state ob) as [r|] |].
  - destruct (is_valid_rollback_transition r (rc_state c)) eqn:Hr; simpl; [|done].
    intros. by simplify_eq.
  - intros. by simplify_eq.
  - intros. by simplify_eq.
Qed.

Lemma record_transition_done e c ob d d' :
  record_lifecycle_transition e c ob d = (Ok tt, d') → transition_done e c ob d d'.
Proof.
  unfold record_lifecycle_transition. intros H. apply transaction_ok in H. cbv beta in H.
  destruct (check_transition e c ob) as [s|] eqn:Hc; [|done].
  apply check_transition_ok in Hc as (Hp & Hv & Hr).
  apply then_ok in H as (u & d1 & Hu & H). destruct u; [simpl in H | done].
  apply update_execution_where_ok in Hu as [(e0 & He0 & Hs) ->].
  apply then_ok in H as ([] & d2 & Hw & H).
  change (write_contract c (ob_previous_rollback_state ob)
            (set_executions (<[ex_execution_id e := e]> (db_executions d)) d) = (Ok tt, d2)) in Hw.
  apply write_contract_ok in Hw as (Hstep & Hrest & Hcaps & Hex & Hob); [|done].
  apply insert_outbox_ok in H as ([Hk Hid Hout] & Hrest' & Hcaps' & Hex' & Hcon').
  assert (db_contracts (set_executions (<[ex_execution_id e:=e]> (db_executions d)) d) = db_contracts d
          ∧ db_outbox (set_executions (<[ex_execution_id e:=e]> (db_executions d)) d) = db_outbox d
          ∧ db_capabilities (set_executions (<[ex_execution_id e:=e]> (db_executions d)) d) = db_capabilities d
          ∧ db_executions (set_executions (<[ex_execution_id e:=e]> (db_executions d)) d)
            = <[ex_execution_id e:=e]> (db_executions d)
          ∧ same_rest d (set_executions (<[ex_execution_id e:=e]> (db_executions d)) d)) as (E1 & E2 & E3 & E4 & E5).
  { by destruct d. }
  split.
  - exists e0. rewrite Hs. done.
  - congruence.
  - destruct c as [c|]; simpl in *; rewrite E1 in Hstep; [|congruence].
    destruct Hstep as [Hd Hm]. split; [congruence | done].
  - split; [|congruence|congruence]. unfold key_taken in *. by rewrite <- E2, <- Hob.
  - congruence.
  - destruct E5, Hrest, Hrest'. split; congruence.
Qed.

Lemma record_transition_err e c ob d err d' :
  record_lifecycle_transition e c ob d = (Err err, d') → d' = d.
Proof. apply transaction_err. Qed.

(** ** Authorizations *)

Record authorization_done (l : CapabilityLease) (e : ExecutionRecord) (ob : LifecycleOutboxRecord)
    (now : Timestamp) (d d' : Db) : Prop := {
  ad_lease : ∃ l0, db_capabilities d !! cl_capability_id l = Some l0 ∧ cl_status l0 = CS_Active ∧
    (now < cl_expires_at l0)%Z ∧
    db_capabilities d' = <[cl_capability_id l := cl_set_status CS_Used l0]> (db_capabilities d);
  ad_execution : db_executions d !! ex_execution_id e = None;
  ad_executions : db_executions d' = <[ex_execution_id e := e]> (db_executions d);
  ad_contracts : db_contracts d' = db_contracts d;
  ad_outbox : outbox_inserted ob d d';
  ad_rest : same_rest d d';
}.

Lemma record_authorization_done l e ob now d d' :
  record_authorization l e ob now d = (Ok true, d') → authorization_done l e ob now d d'.
Proof.
  unfold record_authorization. intros H. apply transaction_ok in H. apply then_ok in H as (u & d1 & Hu & H).
  destruct u; [|by unfold return_ in H; simpl in H; simplify_eq]. simpl in H.
  apply then_ok in H as ([] & d2 & He & H). apply then_ok in H as ([] & d3 & Ho & H).
  unfold return_ in H. simplify_eq.
  unfold sql_capability_set_status_if_active in Hu.
  destruct (db_capabilities d !! cl_capability_id l) as [l0|] eqn:Hl; [|done].
  destruct (bool_decide _ && _) eqn:Hg; [|done]. simplify_eq. destruct_andb.
  unfold sql_insert_execution in He. destruct (has _ _) eqn:Hh; [done|].
  destruct (negb _); [done|]. simplify_eq. apply has_lookup in Hh.
  apply insert_outbox_ok in Ho as ([Hk Hid Hout] & [] & Hcaps & Hex & Hcon).
  match goal with H : bool_decide _ = true |- _ => apply bool_decide_eq_true in H end.
  match goal with H : (_ <? _)%Z = true |- _ => apply Z.ltb_lt in H end.
  destruct d; simpl in *. split; simpl; try done. by exists l0.
Qed.

(** Without success nothing is stored; a lost single-use race is no error. *)
Lemma record_authorization_false l e ob now d d' :
  record_authorization l e ob now d = (Ok false, d') → d' = d.
Proof.
  unfold record_authorization. intros H. apply transaction_ok in H. apply then_ok in H as (u & d1 & Hu & H). destruct u; simpl in H.
  - apply then_ok in H as ([] & d2 & _ & H). apply then_ok in H as ([] & d3 & _ & H). done.
  - unfold return_ in H. simplify_eq. revert Hu. unfold sql_capability_set_status_if_active.
    repeat case_match; intros; by simplify_eq.
Qed.

Lemma record_authorization_err l e ob now d err d' :
  record_authorization l e ob now d = (Err err, d') → d' = d.
Proof. apply transaction_err. Qed.

(** ** The claim of an execution *)

Lemma compare_and_set_ok id expected new now d d' :
  compare_and_set_state id expected new now d = (Ok true, d') →
  ∃ e e', db_executions d !! id = Some e ∧ ex_state e ∈ expected ∧
    d' = set_executions (<[id := e']> (db_executions d)) d ∧
    (e' = ex_set_state new e ∨ e' = ex_set_finished_at (Some now) (ex_set_state new e)).
Proof.
  unfold compare_and_set_state. destruct expected as [|s l]; [done|].
  destruct (db_executions d !! id) as [e|]; [|done]. case_bool_decide as Hin; [|done].
  intros. simplify_eq. eexists e, _. split_and!; [done|done|done|].
  destruct (execution_state_is_terminal new); [by right | by left].
Qed.

Lemma compare_and_set_not id expected new now d r d' :
  compare_and_set_state id expected new now d = (r, d') → r ≠ Ok true → d' = d.
Proof. unfold compare_and_set_state. repeat case_match; intros; simplify_eq; done. Qed.
