(* ===== verification/Evolution.v ===== *)
(** * How the world may evolve

    [evolves] is the order between an earlier and a later world of the gateway:
    identities and terms never change, states move along the transition matrices,
    histories only grow.  It is what one handler may rely on while the others run.
    Most operations are quiet: they touch neither the executions, nor the
    contracts, nor ask an adapter to act.

    The last part is about second factors: they keep their agents and counters. *)

From S2P Require Import Prelude Json Proto Admin Behavioral AuthState Transitions CapService Store Adapter Effects.

(** ** Growing tables *)

Section grows.
Context {A : Type} (R : A → A → Prop).

(** Every row of [m] is still in [m'], changed along [R]. *)
Definition grows (m m' : gmap string A) : Prop :=
  ∀ k a, m !! k = Some a → ∃ a', m' !! k = Some a' ∧ R a a'.

#[export] Instance grows_preorder `{!PreOrder R} : PreOrder grows.
Proof.
  split.
  - intros m k a Hk. by exists a.
  - intros m1 m2 m3 H12 H23 k a Hk. destruct (H12 k a Hk) as (b & Hb & Hab).
    destruct (H23 k b Hb) as (c & Hc & Hbc). exists c. split; [done | by trans b].
Qed.

Lemma grows_insert `{!Reflexive R} m k a :
  (∀ a0, m !! k = Some a0 → R a0 a) → grows m (<[k := a]> m).
Proof.
  intros HR k' a' Hk'. destruct (decide (k = k')) as [-> | Hne].
  - exists a. rewrite lookup_insert_eq. auto.
  - exists a'. by rewrite lookup_insert_ne.
Qed.

Lemma grows_refl `{!Reflexive R} m : grows m m.
Proof. intros k a Hk. by exists a. Qed.
End grows.

(** ** What a row keeps *)

Definition execution_identity (e : ExecutionRecord) :=
  (ex_execution_id e, ex_intent_id e, ex_proposal_id e, ex_capability_id e, ex_owner_actor_id e).

Definition contract_identity (c : RollbackContract) :=
  (rc_contract_id c, rc_execution_id c, rc_intent_id c, rc_proposal_id c, rc_action_type c,
   rc_rollback_class c, rc_adapter_key c).

Definition lease_terms (l : CapabilityLease) :=
  (cl_capability_id l, cl_intent_id l, cl_proposal_id l, cl_tool_binding l,
   cl_resource_bindings l, cl_argument_constraints l, cl_approval_binding l, cl_expires_at l).

Definition execution_advances (e e' : ExecutionRecord) : Prop :=
  execution_identity e' = execution_identity e ∧ tg_reach (ex_state e) (ex_state e').
Definition contract_advances (c c' : RollbackContract) : Prop :=
  contract_identity c' = contract_identity c ∧ tg_reach (rc_state c) (rc_state c').
Definition lease_steps (l l' : CapabilityLease) : Prop :=
  lease_terms l' = lease_terms l ∧ tg_reach (cl_status l) (cl_status l').

(** A revocation that raced with another transition may overwrite its status. *)
Definition lease_advances (l l' : CapabilityLease) : Prop :=
  lease_terms l' = lease_terms l ∧
  (tg_reach (cl_status l) (cl_status l') ∨ cl_status l' = CS_Revoked).

#[export] Instance tg_reach_preorder {S} `{!TransitionGuard S} : PreOrder (tg_reach (S := S)).
Proof. unfold tg_reach. split; apply _. Qed.
#[export] Instance execution_advances_preorder : PreOrder execution_advances.
Proof.
  split; [by intros e | intros e1 e2 e3 [Hi Hs] [Hi' Hs']].
  split; [congruence | by etrans].
Qed.
#[export] Instance contract_advances_preorder : PreOrder contract_advances.
Proof.
  split; [by intros c | intros c1 c2 c3 [Hi Hs] [Hi' Hs']].
  split; [congruence | by etrans].
Qed.
#[export] Instance lease_steps_preorder : PreOrder lease_steps.
Proof.
  split; [by intros l | intros l1 l2 l3 [Hi Hs] [Hi' Hs']].
  split; [congruence | by etrans].
Qed.

Lemma revoked_stuck s : tg_reach CS_Revoked s → s = CS_Revoked.
Proof. by apply tg_terminal_stuck. Qed.

#[export] Instance lease_advances_preorder : PreOrder lease_advances.
Proof.
  split; [intros l; by split; [|left] | intros l1 l2 l3 [Hi Hs] [Hi' Hs']].
  split; [congruence|]. destruct Hs' as [Hs'|]; [|by right].
  destruct Hs as [Hs|Hs]; [left; by etrans | right]. rewrite Hs in Hs'. by apply revoked_stuck.
Qed.

Lemma lease_steps_advances l l' : lease_steps l l' → lease_advances l l'.
Proof. intros [Ht Hr]. by split; [|left]. Qed.

(** By the matrix a used lease stays used; in any case it is never active again. *)
Lemma lease_steps_used l l' :
  lease_steps l l' → cl_status l = CS_Used → cl_status l' = CS_Used.
Proof. intros [_ Hr] Hu. rewrite Hu in Hr. by apply tg_terminal_stuck in Hr. Qed.

Lemma lease_advances_spent l l' :
  lease_advances l l' → lease_spent l = true → lease_spent l' = true.
Proof.
  intros [_ [Hr|Hr]]; unfold lease_spent; [|by rewrite Hr].
  destruct (cl_status l) eqn:Hs; try done; intros _; rewrite Hs in Hr || idtac;
    by apply tg_terminal_stuck in Hr as ->.
Qed.

(** ** The order on databases and worlds *)

(** Leases are stored under their own ids. *)
Definition leases_keyed (t : gmap string CapabilityLease) : Prop :=
  ∀ id l, t !! id = Some l → cl_capability_id l = id.

Lemma leases_keyed_insert t id l :
  cl_capability_id l = id → leases_keyed t → leases_keyed (<[id := l]> t).
Proof. intros Hl Ht id' l'. rewrite lookup_insert_Some. intros [[<- <-]|[_ ?]]; [done | by apply Ht]. Qed.

(** A lease with the terms of a stored one. *)
Lemma leases_keyed_update t id l l0 :
  t !! id = Some l0 → lease_terms l = lease_terms l0 → leases_keyed t → leases_keyed (<[id := l]> t).
Proof.
  intros Hl0 Hl Ht. apply leases_keyed_insert; [|done]. specialize (Ht _ _ Hl0).
  unfold lease_terms in Hl. congruence.
Qed.

Record db_evolves (d d' : Db) : Prop := {
  evo_intents : grows eq (db_intents d) (db_intents d');
  evo_proposals : grows eq (db_proposals d) (db_proposals d');
  evo_capabilities : grows lease_advances (db_capabilities d) (db_capabilities d');
  evo_executions : grows execution_advances (db_executions d) (db_executions d');
  evo_contracts : grows contract_advances (db_contracts d) (db_contracts d');
  evo_events : ∀ e, e ∈ db_events d → e ∈ db_events d';
  evo_edges : ∀ e, e ∈ db_edges d → e ∈ db_edges d';
  evo_keyed : leases_keyed (db_capabilities d) → leases_keyed (db_capabilities d');
}.

#[export] Instance db_evolves_preorder : PreOrder db_evolves.
Proof.
  split.
  - intros d. split; try done; apply grows_refl, _.
  - intros d1 d2 d3 [] []. split; try (by etrans); auto.
Qed.

Record evolves (w w' : World) : Prop := {
  evo_db : db_evolves (w_db w) (w_db w');
  evo_log : w_adapter_log w `prefix_of` w_adapter_log w';
}.

#[export] Instance evolves_preorder : PreOrder evolves.
Proof.
  split.
  - intros w. by split.
  - intros w1 w2 w3 [] []. split; by etrans.
Qed.

Lemma evolves_log w w' a : evolves w w' → a ∈ w_adapter_log w → a ∈ w_adapter_log w'.
Proof. intros [_ [l ->]] Ha. apply elem_of_app. by left. Qed.

(** ** Quiet statements: executions and contracts untouched *)

Record quiet (d d' : Db) : Prop := {
  quiet_evolves : db_evolves d d';
  quiet_executions : db_executions d' = db_executions d;
  quiet_contracts : db_contracts d' = db_contracts d;
  quiet_leases : grows lease_steps (db_capabilities d) (db_capabilities d');
}.

#[export] Instance quiet_refl : Reflexive quiet.
Proof. intros d. split; [done..|]. apply grows_refl, _. Qed.
#[export] Instance quiet_trans : Transitive quiet.
Proof. intros d1 d2 d3 [] []. split; [by etrans | congruence | congruence | by etrans]. Qed.

(** Close [quiet d d'] when the tables of [d'] are those of [d] up to outbox,
    approvals or audit log. *)
Ltac solve_quiet :=
  match goal with d : Db |- _ => destruct d; simpl in *; split; [split; try done; apply grows_refl, _ | done | done | apply grows_refl, _] end.

Lemma quiet_set_outbox d t : quiet d (set_outbox t d).
Proof. solve_quiet. Qed.
Lemma quiet_set_approvals d t : quiet d (set_approvals t d).
Proof. solve_quiet. Qed.
Lemma quiet_set_audit_log d t : quiet d (set_audit_log t d).
Proof. solve_quiet. Qed.
Lemma quiet_set_capabilities d t :
  grows lease_steps (db_capabilities d) t →
  (leases_keyed (db_capabilities d) → leases_keyed t) → quiet d (set_capabilities t d).
Proof.
  intros Ht Hk. destruct d; simpl in *. split; [split; try done; try apply grows_refl, _ | done | done | done].
  simpl. intros k l Hl. destruct (Ht k l Hl) as (l' & ? & ?). eauto using lease_steps_advances.
Qed.
Lemma quiet_set_events d t :
  (∀ e, e ∈ db_events d → e ∈ t) → quiet d (set_events t d).
Proof. intros Ht. destruct d; simpl in *. split; [split; try done; apply grows_refl, _ | done | done | apply grows_refl, _]. Qed.
Lemma quiet_set_edges d t :
  (∀ e, e ∈ db_edges d → e ∈ t) → quiet d (set_edges t d).
Proof. intros Ht. destruct d; simpl in *. split; [split; try done; apply grows_refl, _ | done | done | apply grows_refl, _]. Qed.

Lemma quiet_set_holds d t : quiet d (set_holds t d).
Proof. solve_quiet. Qed.
Lemma quiet_set_admin d t : quiet d (set_admin t d).
Proof. solve_quiet. Qed.
Lemma quiet_set_intents d t : grows eq (db_intents d) t → quiet d (set_intents t d).
Proof.
  intros Ht. destruct d; simpl in *.
  split; [split; try done; apply grows_refl, _ | done | done | apply grows_refl, _].
Qed.
Lemma quiet_set_proposals d t : grows eq (db_proposals d) t → quiet d (set_proposals t d).
Proof.
  intros Ht. destruct d; simpl in *.
  split; [split; try done; apply grows_refl, _ | done | done | apply grows_refl, _].
Qed.

#[export] Hint Resolve quiet_set_outbox quiet_set_approvals quiet_set_audit_log quiet_set_holds
  quiet_set_admin quiet_refl : ferrum.

(** The database after a statement. *)
Abbreviation after s d := (snd (s d)).

Lemma transaction_quiet {A} (s : stmt A) d :
  (∀ d, quiet d (after s d)) → quiet d (after (transaction s) d).
Proof. intros Hs. unfold transaction. specialize (Hs d). by destruct (s d) as [[] d']. Qed.

Lemma then_quiet {A B} (s : stmt A) (k : A → stmt B) d :
  (∀ d, quiet d (after s d)) → (∀ a d, quiet d (after (k a) d)) → quiet d (after (then_ s k) d).
Proof.
  intros Hs Hk. unfold then_. specialize (Hs d). destruct (s d) as [[a|e] d']; simpl in *; [|done].
  trans d'; [done | apply Hk].
Qed.

Lemma update_outbox_record_quiet r clear override d :
  quiet d (after (update_outbox_record r clear override) d).
Proof. unfold update_outbox_record. repeat case_match; simpl; auto with ferrum. Qed.

Lemma insert_outbox_record_tx_quiet r d : quiet d (after (insert_outbox_record_tx r) d).
Proof. unfold insert_outbox_record_tx. repeat case_match; simpl; auto with ferrum. Qed.

Lemma update_outbox_record_claimed_quiet r l clear now d :
  quiet d (after (update_outbox_record_claimed r l clear now) d).
Proof. unfold update_outbox_record_claimed. repeat case_match; simpl; auto with ferrum. Qed.

Lemma claim_all_quiet owner now exp ids d : quiet d (snd (claim_all owner now exp ids d)).
Proof.
  revert d. induction ids as [|id ids IH]; intros d; simpl; [reflexivity|].
  destruct (claim_one owner now exp id d) as [c d1] eqn:Hc.
  assert (quiet d d1) as H1.
  { revert Hc. unfold claim_one. repeat case_match; intros; simplify_eq; auto with ferrum. }
  specialize (IH d1). destruct (claim_all owner now exp ids d1) as [cs d2]. by trans d1.
Qed.

Lemma claim_pending_quiet limit owner ttl now d :
  quiet d (after (claim_pending_reconciliation limit owner ttl now) d).
Proof.
  unfold claim_pending_reconciliation. destruct limit; [reflexivity|].
  match goal with |- context [claim_all ?a ?b ?c ?e ?d] => pose proof (claim_all_quiet a b c e d) end.
  by destruct (claim_all _ _ _ _ _).
Qed.

Lemma renew_quiet l ttl now now2 d : quiet d (after (renew_reconciliation_lease l ttl now now2) d).
Proof. unfold renew_reconciliation_lease. repeat case_match; simpl; auto with ferrum. Qed.

(** A lease that is still active may get any terminal status. *)
Lemma set_lease_quiet (d : Db) id l l' :
  db_capabilities d !! id = Some l → lease_steps l l' →
  quiet d (set_capabilities (<[id := l']> (db_capabilities d)) d).
Proof.
  intros Hl Hadv. apply quiet_set_capabilities; [|by eapply leases_keyed_update, Hadv].
  apply grows_insert; [apply _|]. intros l0 Hl0. by simplify_eq.
Qed.

Lemma revoke_if_active_quiet id t d : quiet d (after (revoke_if_active id t) d).
Proof.
  unfold revoke_if_active. destruct (db_capabilities d !! id) as [l|] eqn:Hl; [|reflexivity].
  destruct (bool_decide _ && _) eqn:Hg; [|reflexivity]. destruct_andb.
  eapply set_lease_quiet; [done|]. split; [done|]. simpl. apply rtc_once.
  by match goal with H : bool_decide _ = true |- _ => apply bool_decide_eq_true in H; rewrite H end.
Qed.

Lemma set_status_quiet id s now d :
  capability_status_is_terminal s = true →
  quiet d (after (sql_capability_set_status_if_active id s now) d).
Proof.
  intros Hs. unfold sql_capability_set_status_if_active.
  destruct (db_capabilities d !! id) as [l|] eqn:Hl; [|reflexivity].
  destruct (bool_decide _ && _) eqn:Hg; [|reflexivity]. destruct_andb.
  eapply set_lease_quiet; [done|]. split; [done|]. simpl. apply rtc_once.
  match goal with H : bool_decide _ = true |- _ => apply bool_decide_eq_true in H; rewrite H end.
  by destruct s.
Qed.

Lemma has_false {A} k (m : gmap string A) : has k m = false → m !! k = None.
Proof. unfold has. rewrite bool_decide_eq_false, <- eq_None_not_Some. done. Qed.
Lemma has_true {A} k (m : gmap string A) : has k m = true → ∃ a, m !! k = Some a.
Proof. unfold has. by rewrite bool_decide_eq_true. Qed.

Lemma insert_intent_quiet i d : quiet d (after (insert_intent i) d).
Proof.
  unfold insert_intent. destruct (has _ _) eqn:Hh; [reflexivity|]. apply quiet_set_intents.
  apply grows_insert; [apply _|]. intros i0 Hi0. apply has_false in Hh. by simplify_eq.
Qed.
Lemma insert_proposal_quiet p d : quiet d (after (insert_proposal p) d).
Proof.
  unfold insert_proposal. destruct (has _ (db_proposals d)) eqn:Hh; [reflexivity|].
  destruct (negb _); [reflexivity|]. apply quiet_set_proposals.
  apply grows_insert; [apply _|]. intros p0 Hp0. apply has_false in Hh. by simplify_eq.
Qed.
Lemma insert_hold_quiet h d : quiet d (after (insert_hold h) d).
Proof. unfold insert_hold. repeat case_match; simpl; auto with ferrum. Qed.
Lemma update_pending_hold_quiet h id d : quiet d (after (sql_update_pending_hold h id) d).
Proof. unfold sql_update_pending_hold. repeat case_match; simpl; auto with ferrum. Qed.
Lemma admin_quiet {A} (s : astmt A) d : quiet d (after (sql_admin s) d).
Proof. unfold sql_admin. destruct (s _). simpl. auto with ferrum. Qed.

Lemma insert_capability_quiet l d : quiet d (after (insert_capability l) d).
Proof.
  unfold insert_capability. destruct (has _ _) eqn:Hh; [reflexivity|].
  destruct (negb _); [reflexivity|].
  apply quiet_set_capabilities; [|by apply leases_keyed_insert]. apply grows_insert; [apply _|].
  intros l0 Hl0. apply has_false in Hh. by simplify_eq.
Qed.

Lemma insert_edges_quiet id edges d : quiet d (after (sql_insert_edges id edges) d).
Proof.
  revert d. induction edges as [|e edges IH]; intros d; simpl; [reflexivity|].
  destruct (_ && _); [|reflexivity]. etrans; [|apply IH].
  apply quiet_set_edges. intros x Hx. apply elem_of_app. by left.
Qed.

Lemma append_edge_quiet id e d : quiet d (after (append_edge id e) d).
Proof. apply insert_edges_quiet. Qed.

Lemma append_event_quiet e edges d : quiet d (after (append_event_with_edges e edges) d).
Proof.
  unfold append_event_with_edges. destruct (existsb _ _); [reflexivity|].
  apply transaction_quiet. intros d'. apply then_quiet; [|intros; apply insert_edges_quiet].
  intros d''. unfold sql_insert_event. destruct (has_event _ _); [reflexivity|].
  apply quiet_set_events. intros x Hx. apply elem_of_app. by left.
Qed.

Lemma resolve_approval_quiet a id now d : quiet d (after (sql_resolve_approval a id now) d).
Proof. unfold sql_resolve_approval. repeat case_match; simpl; auto with ferrum. Qed.
Lemma expire_approval_quiet a id d : quiet d (after (sql_expire_approval a id) d).
Proof. unfold sql_expire_approval. repeat case_match; simpl; auto with ferrum. Qed.

#[export] Hint Resolve update_outbox_record_quiet update_outbox_record_claimed_quiet
  claim_pending_quiet renew_quiet revoke_if_active_quiet set_status_quiet insert_capability_quiet
  append_event_quiet append_edge_quiet resolve_approval_quiet expire_approval_quiet
  insert_intent_quiet insert_proposal_quiet insert_hold_quiet update_pending_hold_quiet admin_quiet
  : ferrum.

(** ** Quiet operations *)

(** The operations outside the five that decide the fate of an execution or
    overwrite a capability. *)
Definition quiet_op {X} (o : op X) : Prop :=
  match o with
  | op_record_transition _ _ _ | op_record_authorization _ _ _ | op_cas_state _ _ _
  | op_update_capability _ | op_adapter_execute _ _ => False
  | op_set_status_if_active _ s => capability_status_is_terminal s = true
  | _ => True
  end.

(** Does the log entry ask an adapter to execute execution [id]? *)
Definition executes (id : ExecutionId) (a : AdapterCall) : bool :=
  match a with AC_execute c _ _ => String.eqb (rc_execution_id c) id | _ => false end.

Record quiet_world (w w' : World) : Prop := {
  qw_db : quiet (w_db w) (w_db w');
  qw_log : ∃ l, w_adapter_log w' = w_adapter_log w ++ l ∧ ∀ c p r, AC_execute c p r ∉ l;
}.

Lemma quiet_world_evolves w w' : quiet_world w w' → evolves w w'.
Proof. intros [Hq (l & Hl & _)]. split; [apply Hq | by exists l]. Qed.

Lemma quiet_log (l : list AdapterCall) : ∃ l', l = l ++ l' ∧ ∀ c p r, AC_execute c p r ∉ l'.
Proof. exists []. rewrite app_nil_r. split; [done | intros; apply not_elem_of_nil]. Qed.

Lemma exec_db_quiet {A} env (s : stmt A) w x w' :
  (∀ d, quiet d (after s d)) → exec_db env s w = (x, w') → quiet_world w w'.
Proof.
  intros Hs. destruct w as [d caps m l t]; simpl. specialize (Hs d).
  destruct (env_fault env t) as [[]|]; [| |destruct (s d)]; intros; simplify_eq;
    (split; [done || reflexivity | apply quiet_log]).
Qed.

Lemma exec_cap_quiet {A} (f : CapMap → A * CapMap) w x w' : exec_cap f w = (x, w') → quiet_world w w'.
Proof.
  destruct w as [d mem m l t]; simpl. destruct (f (mem_caps mem)). intros. simplify_eq.
  split; [reflexivity | apply quiet_log].
Qed.

Lemma exec_profiler_quiet {A} (f : Actors → A * Actors) w x w' :
  exec_profiler f w = (x, w') → quiet_world w w'.
Proof.
  destruct w as [d mem m l t]; simpl. destruct (f (mem_actors mem)). intros. simplify_eq.
  split; [reflexivity | apply quiet_log].
Qed.

Lemma exec_auth_quiet {A} (f : AuthMemory → A * AuthMemory) w x w' :
  exec_auth f w = (x, w') → quiet_world w w'.
Proof.
  destruct w as [d mem m l t]; simpl. destruct (f (mem_auth mem)). intros. simplify_eq.
  split; [reflexivity | apply quiet_log].
Qed.

Lemma exec_pure_quiet {A} (a : A) w x w' : exec_pure a w = (x, w') → quiet_world w w'.
Proof. destruct w. simpl. intros. simplify_eq. split; [reflexivity | apply quiet_log]. Qed.

Lemma exec_adapter_quiet {A} (f : A → AdapterCall) a w x w' :
  (∀ c p r, f a ≠ AC_execute c p r) → exec_adapter f a w = (x, w') → quiet_world w w'.
Proof.
  destruct w as [d caps m l t]; simpl. intros Hf ?. simplify_eq. split; [reflexivity|].
  exists [f x]. split; [done|]. intros c p r Hin%list_elem_of_singleton. by eapply Hf.
Qed.

(** Every quiet operation moves the world quietly. *)
Lemma exec_op_quiet {X} env (o : op X) w x w' :
  quiet_op o → exec_op env o w = (x, w') → quiet_world w w'.
Proof.
  destruct o; simpl; intros Hq Hx; try done;
    try (by eapply exec_pure_quiet); try (by eapply exec_cap_quiet); try (by eapply exec_profiler_quiet);
    try (by eapply exec_auth_quiet);
    try (eapply exec_adapter_quiet; [|exact Hx]; done);
    try (eapply exec_db_quiet; [|exact Hx]; intros; first [reflexivity | by auto with ferrum]).
  - destruct w. simplify_eq. split; [reflexivity | apply quiet_log].
  - destruct w. simplify_eq. split; [reflexivity | apply quiet_log].
  - eapply exec_db_quiet; [|exact Hx]. intros. apply quiet_set_audit_log.
Qed.

(** * What the statements over the administrative tables keep

    No statement removes an MFA factor, changes whose it is or its secret, or lowers
    the counter of its last accepted code; none removes a token or an agent, changes
    what it may do or undoes a revocation. *)


(** ** Counters only increase *)

(** What no statement changes of a factor, and the order of its counter. *)
Definition counter_le (a b : option Z) : Prop :=
  match a, b with
  | None, _ => True
  | Some a, Some b => (a ≤ b)%Z
  | Some _, None => False
  end.

Definition factor_evolves (r r' : MfaCredentialRecord) : Prop :=
  mc_agent_id r' = mc_agent_id r ∧ mc_encrypted_secret r' = mc_encrypted_secret r ∧
  mc_secret_nonce r' = mc_secret_nonce r ∧
  counter_le (mc_last_used_counter r) (mc_last_used_counter r').

Lemma counter_le_refl c : counter_le c c.
Proof. unfold counter_le. by destruct c. Qed.

#[export] Instance factor_evolves_preorder : PreOrder factor_evolves.
Proof.
  split.
  - intros r. split_and!; try done. apply counter_le_refl.
  - intros r1 r2 r3 (? & ? & ? & H12) (? & ? & ? & H23). split_and!; try congruence.
    revert H12 H23. unfold counter_le.
    destruct (mc_last_used_counter r1), (mc_last_used_counter r2), (mc_last_used_counter r3); try done; lia.
Qed.

Abbreviation mfa_evolves d d' := (grows factor_evolves (ad_mfa d) (ad_mfa d')).

Lemma update_factor_evolves id cond f d :
  (∀ r, cond r = true → factor_evolves r (f r)) → mfa_evolves d (snd (update_factor id cond f d)).
Proof.
  intros Hf. unfold update_factor. destruct (ad_mfa d !! id) as [r|] eqn:Hr; [|by apply grows_refl, _].
  destruct (cond r) eqn:Hc; [|by apply grows_refl, _]. simpl. apply grows_insert; [apply _|].
  intros r0 Hr0. assert (r0 = r) as -> by congruence. auto.
Qed.

Lemma status_evolves st verified revoked r : factor_evolves r (mc_set_status st verified revoked r).
Proof. destruct r. split_and!; try done. apply counter_le_refl. Qed.
Lemma lockout_evolves failed locked last count r : factor_evolves r (mc_set_lockout failed locked last count r).
Proof. destruct r. split_and!; try done. apply counter_le_refl. Qed.

Lemma activate_evolves id now d : mfa_evolves d (snd (sql_mfa_activate id now d)).
Proof.
  unfold sql_mfa_activate. destruct (ad_mfa d !! id) as [target|]; [|by apply grows_refl, _].
  etrans; [|apply update_factor_evolves; intros; apply status_evolves].
  simpl. intros k r Hr. eexists. rewrite map_lookup_imap, Hr. split; [done|].
  unfold deactivate_others. case_match; [apply status_evolves | done].
Qed.

Lemma record_use_evolves id counter now d : mfa_evolves d (snd (sql_mfa_record_use id counter now d)).
Proof.
  apply update_factor_evolves. intros r Hc. destruct (mc_last_used_counter r) as [c|] eqn:Hl.
  - apply Z.ltb_lt in Hc. destruct r; simpl in *. split_and!; try done. simpl. rewrite Hl. simpl. lia.
  - destruct r; simpl in *. split_and!; try done. simpl. by rewrite Hl.
Qed.

(** Every statement keeps the factors and never lowers a counter. *)
Lemma admin_exec_evolves now {T} (o : admin_op T) d : mfa_evolves d (snd (admin_exec now o d)).
Proof.
  destruct o; cbn [admin_exec];
    try (by apply grows_refl, _);
    try (apply update_factor_evolves; intros; first [apply status_evolves | apply lockout_evolves]).
  all: try apply activate_evolves; try apply record_use_evolves.
  all: unfold sql_insert_bundle, sql_update_bundle, sql_insert_version, sql_lockout_fail, sql_lockout_reset,
    sql_token_insert, sql_token_revoke, sql_token_touch, sql_agent_insert, sql_agent_revoke, sql_audit;
    repeat case_match; simpl; try (by apply grows_refl, _).
  unfold sql_mfa_insert. destruct (ad_mfa d !! mc_mfa_factor_id r) eqn:Hr; [by apply grows_refl, _|].
  apply grows_insert; [apply _|]. intros r0 Hr0. congruence.
Qed.

(** ** Tokens and agents *)

(** What is fixed when a token is issued. *)
Definition token_grant (t : ScopedToken) :=
  (st_token_id t, st_actor_id t, st_role t, st_scopes t, st_expires_at t,
   (st_token_lookup_hash t, st_token_hash t, st_token_salt t)).
(** What is fixed when an agent is registered. *)
Definition agent_grant (a : AgentRecord) :=
  (ag_agent_id a, ag_public_key a, ag_key_fingerprint a, ag_allowed_scopes a).

Definition token_evolves (t t' : ScopedToken) : Prop :=
  token_grant t' = token_grant t ∧ (is_Some (st_revoked_at t) → st_revoked_at t' = st_revoked_at t).
Definition agent_evolves (a a' : AgentRecord) : Prop :=
  agent_grant a' = agent_grant a ∧ (is_Some (ag_revoked_at a) → ag_revoked_at a' = ag_revoked_at a).

#[export] Instance token_evolves_preorder : PreOrder token_evolves.
Proof.
  split; [by intros t|]. intros t1 t2 t3 [H12 R12] [H23 R23]. split; [congruence|].
  intros [x Hx]. rewrite R23 by (rewrite R12; [rewrite Hx|]; eauto). by apply R12.
Qed.
#[export] Instance agent_evolves_preorder : PreOrder agent_evolves.
Proof.
  split; [by intros t|]. intros t1 t2 t3 [H12 R12] [H23 R23]. split; [congruence|].
  intros [x Hx]. rewrite R23 by (rewrite R12; [rewrite Hx|]; eauto). by apply R12.
Qed.

(** Every statement keeps tokens and agents as they were issued, and revocations. *)
Lemma admin_exec_principals now {T} (o : admin_op T) d :
  grows token_evolves (ad_tokens d) (ad_tokens (snd (admin_exec now o d))) ∧
  grows agent_evolves (ad_agents d) (ad_agents (snd (admin_exec now o d))).
Proof.
  split; destruct o; cbn [admin_exec]; unfold sql_mfa_activate, update_factor, sql_insert_bundle, sql_update_bundle,
    sql_insert_version, sql_lockout_fail, sql_lockout_reset, sql_mfa_insert, sql_mfa_record_use, sql_mfa_failed,
    sql_mfa_reset, sql_mfa_revoke, update_factor, sql_token_insert, sql_token_revoke, sql_token_touch,
    sql_agent_insert, sql_agent_revoke, sql_audit; repeat case_match; simpl; try (by apply grows_refl, _);
    (apply grows_insert; [apply _|]); intros r0 Hr0; simplify_eq; try congruence;
    match goal with |- token_evolves ?t _ => destruct t | |- agent_evolves ?a _ => destruct a end;
    (split; [done|]); intros [x Hx]; simpl in *; try done;
    match goal with H : bool_decide _ = true |- _ => apply bool_decide_eq_true in H end; congruence.
Qed.
