(* ===== verification/Discipline.v ===== *)
(** * The discipline of the execution handlers

    Evidence: what a stored execution, a stored contract and an adapter call must
    be backed by in the world.  The evidence predicates are stable: once they hold
    they hold of every later world.  [inv] states them of all rows, together with
    the two counting rules: a capability backs one execution, and an execution has
    one dispatch, spent when the adapter is called.  [allowed] is what an operation
    must satisfy when it is issued; every allowed operation preserves [inv]. *)

From S2P Require Import Prelude Json Proto Transitions CapService Store Adapter Effects Pdp.
From S2P Require Import RollbackSvc Validation Provenance CapBackend Lifecycle Handlers StoreFacts.
From S2P Require Import Evolution.

(** ** Evidence in the adapter log *)

Definition executed (w : World) (id : ExecutionId) : Prop :=
  ∃ c payload r, AC_execute c payload (Ok r) ∈ w_adapter_log w ∧ rc_execution_id c = id.
Definition verified_applied (w : World) (id : ExecutionId) : Prop :=
  ∃ c r, AC_verify c (Ok r) ∈ w_adapter_log w ∧ rc_execution_id c = id ∧ vor_outcome r = VO_Applied.
Definition recovered (w : World) (id : ExecutionId) : Prop :=
  ∃ c r, AC_compensate c (Ok r) ∈ w_adapter_log w ∧ rc_execution_id c = id ∧ rr_recovered r = true.

(** ** The governed chain of provenance events *)

(** [parent] is stored, has the kind and context expected of a parent of [child],
    and an edge of the expected type links them. *)
Definition linked_parent (d : Db) (child parent : ProvenanceEvent) (kind : ProvenanceEventKind)
    (edge : ProvenanceEdgeType) : Prop :=
  parent ∈ db_events d ∧ ev_kind parent = kind ∧ same_context child parent = true ∧
  ∃ summary, {| er_to_event_id := ev_event_id child; er_from_event_id := ev_event_id parent;
                er_edge_type := edge; er_summary := summary |} ∈ db_edges d.

(** The policy allowed the effect, or required an approval that was granted no
    earlier than the evaluation. *)
Definition policy_permits (d : Db) (e : ExecutionRecord) (policy : ProvenanceEvent) : Prop :=
  decision_from_policy_event policy = Some D_Allow ∨
  (decision_from_policy_event policy = Some D_RequireApproval ∧
   ∃ granted, granted ∈ db_events d ∧ ev_kind granted = PK_ApprovalGranted ∧
     ev_intent_id granted = Some (ex_intent_id e) ∧
     ev_proposal_id granted = Some (ex_proposal_id e) ∧
     (ev_occurred_at policy ≤ ev_occurred_at granted)%Z).

Definition governed_chain (d : Db) (e : ExecutionRecord) : Prop :=
  ∃ policy capability submitted prepared tool_prepared,
    tool_prepared ∈ db_events d ∧ ev_kind tool_prepared = PK_ToolCallPrepared ∧
    of_execution e tool_prepared = true ∧
    linked_parent d tool_prepared prepared PK_SideEffectPrepared PE_Caused ∧
    of_execution e prepared = true ∧
    linked_parent d prepared submitted PK_ActionProposalSubmitted PE_Caused ∧
    of_execution e submitted = true ∧
    linked_parent d submitted capability PK_CapabilityMinted PE_AuthorizedBy ∧
    ev_capability_id capability = Some (ex_capability_id e) ∧
    linked_parent d capability policy PK_PolicyEvaluated PE_EvaluatedByPolicy ∧
    ev_proposal_id policy = Some (ex_proposal_id e) ∧
    policy_permits d e policy ∧
    (ev_occurred_at policy ≤ ev_occurred_at capability ≤ ev_occurred_at submitted)%Z ∧
    (ev_occurred_at submitted ≤ ev_occurred_at prepared ≤ ev_occurred_at tool_prepared)%Z.

(** ** What an adapter call must be backed by *)

Definition effect_authorized (ext : Ext) (w : World) (c : RollbackContract) (payload : json) : Prop :=
  ∃ e proposal lease intent,
    db_executions (w_db w) !! rc_execution_id c = Some e ∧
    contract_bound c e = true ∧
    db_intents (w_db w) !! ex_intent_id e = Some intent ∧
    is_draft_only (in_approval_mode intent) = false ∧
    db_proposals (w_db w) !! ex_proposal_id e = Some proposal ∧
    (payload = pr_raw_arguments proposal ∨ json_eqb payload (pr_raw_arguments proposal) = true) ∧
    db_capabilities (w_db w) !! ex_capability_id e = Some lease ∧
    lease_spent lease = true ∧
    validate_capability_proposal_binding lease proposal = Ok tt ∧
    validate_argument_constraints ext payload (cl_argument_constraints lease) = Ok tt ∧
    unsafe_compensation (rc_rollback_class c) (rc_action_type c) = false ∧
    governed_chain (w_db w) e.

(** ** What the stored rows must be backed by *)

Definition contract_evidence (w : World) (c : RollbackContract) : Prop :=
  (rc_rollback_class c = R3IrreversibleHighConsequence → rc_auto_commit c = false) ∧
  (rc_state c ∈ [RbS_ExecutedAwaitingVerify; RbS_Verified; RbS_Committed] →
     executed w (rc_execution_id c)) ∧
  (rc_state c ∈ [RbS_Verified; RbS_Committed] → verified_applied w (rc_execution_id c)) ∧
  (rc_state c = RbS_Compensated → recovered w (rc_execution_id c)).

Definition execution_evidence (w : World) (e : ExecutionRecord) : Prop :=
  (∃ l, db_capabilities (w_db w) !! ex_capability_id e = Some l ∧ lease_spent l = true) ∧
  (∀ cid, ex_rollback_contract_id e = Some cid →
     ∃ c, db_contracts (w_db w) !! cid = Some c ∧ rc_execution_id c = ex_execution_id e) ∧
  (ex_state e = ES_Compensated → recovered w (ex_execution_id e)).

(** A stored event says the side effect of [id] was verified. *)
Definition verified_event (d : Db) (id : ExecutionId) : Prop :=
  ∃ ev, ev ∈ db_events d ∧ ev_kind ev = PK_SideEffectVerified ∧ ev_execution_id ev = Some id.

(** How a committed execution and its contract came to rest. *)
Definition settles (d : Db) (e : ExecutionRecord) (c : RollbackContract) : Prop :=
  (rc_state c = RbS_Verified ∧ rc_auto_commit c = true) ∨
  (rc_state c = RbS_Committed ∧ verified_event d (ex_execution_id e)).

Definition settled (d : Db) (e : ExecutionRecord) : Prop :=
  ex_state e = ES_Committed →
  ∃ cid c, ex_rollback_contract_id e = Some cid ∧ db_contracts d !! cid = Some c ∧ settles d e c.

(** ** Stability of the evidence *)

Section stable.
Context (w w' : World) (Hw : evolves w w').

Lemma executed_stable id : executed w id → executed w' id.
Proof using Hw. intros (c & p & r & Hin & Hid). exists c, p, r. eauto using evolves_log. Qed.
Lemma verified_applied_stable id : verified_applied w id → verified_applied w' id.
Proof using Hw. intros (c & r & Hin & Hid). exists c, r. eauto using evolves_log. Qed.
Lemma recovered_stable id : recovered w id → recovered w' id.
Proof using Hw. intros (c & r & Hin & Hid). exists c, r. eauto using evolves_log. Qed.

Lemma linked_parent_stable child parent kind edge :
  linked_parent (w_db w) child parent kind edge → linked_parent (w_db w') child parent kind edge.
Proof using Hw.
  destruct Hw as [[] _]. intros (Hp & Hk & Hc & s & He). split_and!; eauto.
Qed.

(** The chain only depends on the identity of the execution. *)
Lemma governed_chain_stable e e' :
  execution_identity e' = execution_identity e →
  governed_chain (w_db w) e → governed_chain (w_db w') e'.
Proof using Hw.
  intros Hid. unfold execution_identity in Hid. simplify_eq.
  unfold governed_chain, policy_permits, of_execution.
  repeat match goal with H : _ _ = _ _ |- _ => rewrite H; clear H end.
  intros (policy & capability & submitted & prepared & tool & H).
  destruct_and! H. exists policy, capability, submitted, prepared, tool.
  split_and!; eauto using linked_parent_stable; [by apply (evo_events _ _ (evo_db _ _ Hw))|].
  match goal with H : _ ∨ _ |- _ => destruct H as [? | (? & g & ? & ?)] end; [by left|].
  right. split; [done|]. exists g. split; [by apply (evo_events _ _ (evo_db _ _ Hw)) | done].
Qed.

Lemma contract_evidence_stable c : contract_evidence w c → contract_evidence w' c.
Proof using Hw.
  intros (H1 & H2 & H3 & H4).
  split_and!; eauto using executed_stable, verified_applied_stable, recovered_stable.
Qed.

Lemma spent_stable id :
  (∃ l, db_capabilities (w_db w) !! id = Some l ∧ lease_spent l = true) →
  ∃ l, db_capabilities (w_db w') !! id = Some l ∧ lease_spent l = true.
Proof using Hw.
  intros (l & Hl & Hu). destruct (evo_capabilities _ _ (evo_db _ _ Hw) _ _ Hl) as (l' & Hl' & Hadv).
  exists l'. split; [done | by eapply lease_advances_spent].
Qed.

Lemma execution_evidence_stable e : execution_evidence w e → execution_evidence w' e.
Proof using Hw.
  intros (Hc & Hl & Hr). split_and!; [by apply spent_stable | | eauto using recovered_stable].
  intros cid Hcid. destruct (Hl cid Hcid) as (c & Hc' & Hid).
  destruct (evo_contracts _ _ (evo_db _ _ Hw) _ _ Hc') as (c' & Hc'' & [Hadv _]).
  exists c'. split; [done|]. unfold contract_identity in Hadv. congruence.
Qed.

Lemma verified_event_stable id : verified_event (w_db w) id → verified_event (w_db w') id.
Proof using Hw. intros (ev & Hin & H). exists ev. split; [by apply (evo_events _ _ (evo_db _ _ Hw)) | done]. Qed.

Lemma effect_authorized_stable ext c payload :
  effect_authorized ext w c payload → effect_authorized ext w' c payload.
Proof using Hw.
  intros (e & proposal & lease & intent & He & Hb & Hi & Hd & Hp & Hpl & Hl & Hu & Hv & Ha & Hs & Hg).
  pose proof (evo_db _ _ Hw) as Hdb.
  destruct (evo_executions _ _ Hdb _ _ He) as (e' & He' & [Hid _]).
  destruct (evo_proposals _ _ Hdb _ _ Hp) as (p' & Hp' & <-).
  destruct (evo_intents _ _ Hdb _ _ Hi) as (i' & Hi' & <-).
  destruct (evo_capabilities _ _ Hdb _ _ Hl) as (l' & Hl' & Hadv).
  pose proof (lease_advances_spent _ _ Hadv Hu) as Hu'. destruct Hadv as [Hterms _].
  pose proof (governed_chain_stable e e' Hid Hg) as Hg'.
  exists e', proposal, l', intent.
  unfold execution_identity in Hid. unfold lease_terms in Hterms. simplify_eq.
  unfold contract_bound, validate_capability_proposal_binding in *.
  repeat match goal with H : ex_execution_id _ = _ |- _ => rewrite H; clear H
         | H : ex_intent_id _ = _ |- _ => rewrite H; clear H
         | H : ex_proposal_id _ = _ |- _ => rewrite H; clear H
         | H : ex_capability_id _ = _ |- _ => rewrite H; clear H
         | H : cl_proposal_id _ = _ |- _ => rewrite H; clear H
         | H : cl_intent_id _ = _ |- _ => rewrite H; clear H
         | H : cl_tool_binding _ = _ |- _ => rewrite H; clear H
         | H : cl_argument_constraints _ = _ |- _ => rewrite H; clear H end.
  done.
Qed.
End stable.

#[export] Hint Resolve executed_stable verified_applied_stable recovered_stable
  contract_evidence_stable execution_evidence_stable verified_event_stable
  effect_authorized_stable spent_stable : ferrum.

(** ** Counting dispatches *)

(** A handler that has won the claim of an execution and has not yet called its
    adapter holds the permit of that execution. *)
Abbreviation Permit := (option ExecutionId).

Definition calls (id : ExecutionId) (log : list AdapterCall) : nat :=
  length (filter (λ a, executes id a = true) log).
Definition permits (id : ExecutionId) (gs : list Permit) : nat :=
  length (filter (λ g, g = Some id) gs).
Definition budget (d : Db) (id : ExecutionId) : nat :=
  match db_executions d !! id with
  | Some e => if dispatched (ex_state e) then 1 else 0
  | None => 0
  end.

Definition holds (id : ExecutionId) (g : Permit) : nat := if decide (g = Some id) then 1 else 0.

Lemma permits_cons id g gs : permits id (g :: gs) = holds id g + permits id gs.
Proof. unfold permits, holds. rewrite filter_cons. by case_decide. Qed.

Lemma permits_app id gs gs' : permits id (gs ++ gs') = permits id gs + permits id gs'.
Proof. unfold permits. by rewrite filter_app, length_app. Qed.

(** Replacing one thread's permit. *)
Lemma permits_insert id gs i g g' :
  gs !! i = Some g → permits id (<[i := g']> gs) + holds id g = permits id gs + holds id g'.
Proof.
  revert i. induction gs as [|g0 gs IH]; intros [|i] Hi; simplify_eq/=.
  - rewrite !permits_cons. lia.
  - specialize (IH i Hi). rewrite !permits_cons. lia.
Qed.

Lemma calls_app id l l' : calls id (l ++ l') = calls id l + calls id l'.
Proof. unfold calls. by rewrite filter_app, length_app. Qed.

Lemma calls_execute id c p r :
  calls id [AC_execute c p r] = if String.eqb (rc_execution_id c) id then 1 else 0.
Proof. unfold calls. rewrite filter_cons. simpl. by destruct (String.eqb _ _). Qed.

Lemma calls_none id l : (∀ c p r, AC_execute c p r ∉ l) → calls id l = 0.
Proof.
  intros Hl. unfold calls. induction l as [|a l IH]; [done|].
  destruct a as [c p r| | |].
  1: { exfalso. eapply Hl. by left. }
  all: rewrite filter_cons_False by done; apply IH; intros c' p' r' Hin; eapply Hl; by right.
Qed.

(** ** The invariant *)

Section invariant.
Context (ext : Ext).

Record inv (w : World) (gs : list Permit) : Prop := {
  inv_executions : ∀ id e, db_executions (w_db w) !! id = Some e →
    ex_execution_id e = id ∧ execution_evidence w e ∧ settled (w_db w) e;
  inv_contracts : ∀ id c, db_contracts (w_db w) !! id = Some c →
    rc_contract_id c = id ∧ contract_evidence w c;
  inv_single_use : ∀ id1 id2 e1 e2,
    db_executions (w_db w) !! id1 = Some e1 → db_executions (w_db w) !! id2 = Some e2 →
    ex_capability_id e1 = ex_capability_id e2 → id1 = id2;
  inv_budget : ∀ id, calls id (w_adapter_log w) + permits id gs ≤ budget (w_db w) id;
  inv_effects : ∀ c payload r, AC_execute c payload r ∈ w_adapter_log w →
    effect_authorized ext w c payload;
  inv_leases : leases_keyed (db_capabilities (w_db w));
}.

(** A deployment that has not authorized anything yet. *)
Definition initial (w : World) : Prop :=
  db_executions (w_db w) = ∅ ∧ db_contracts (w_db w) = ∅ ∧ w_adapter_log w = [] ∧
  leases_keyed (db_capabilities (w_db w)).

Lemma initial_inv w : initial w → inv w [].
Proof.
  intros (He & Hc & Hl & Hk). split; rewrite ?He, ?Hc, ?Hl.
  - intros id e. by rewrite lookup_empty.
  - intros id c. by rewrite lookup_empty.
  - intros id1 id2 e1 e2. by rewrite lookup_empty.
  - intros id. unfold budget. rewrite He. done.
  - intros c p r Hin. set_solver.
  - done.
Qed.

Lemma inv_spawn w gs : inv w gs → inv w (gs ++ [None]).
Proof.
  intros []. split; auto. intros id. rewrite permits_app. unfold permits at 2. simpl. rewrite Nat.add_0_r. auto.
Qed.

(** Executions and contracts as they were, and no execute call. *)
Lemma calm_inv w w' gs :
  evolves w w' → db_executions (w_db w') = db_executions (w_db w) →
  db_contracts (w_db w') = db_contracts (w_db w) →
  (∃ l, w_adapter_log w' = w_adapter_log w ++ l ∧ ∀ c p r, AC_execute c p r ∉ l) →
  inv w gs → inv w' gs.
Proof.
  intros Hev Heq Hceq (l & Hl & Hno) [He Hc Hs Hb Hx Hk]. split.
  - intros id e. rewrite Heq. intros Hid. destruct (He id e Hid) as (? & ? & Hset).
    split_and!; [done | by eauto with ferrum |]. intros Hcom.
    destruct (Hset Hcom) as (cid & c & ? & ? & Hor). exists cid, c. rewrite Hceq.
    split_and!; [done..|]. destruct Hor as [?|[? ?]]; [by left | right; eauto with ferrum].
  - intros id c. rewrite Hceq. intros Hid. destruct (Hc id c Hid). eauto with ferrum.
  - intros id1 id2 e1 e2. rewrite Heq. apply Hs.
  - intros id. unfold budget. rewrite Heq, Hl, calls_app, (calls_none _ l) by done.
    specialize (Hb id). unfold budget in Hb. lia.
  - intros c p r. rewrite Hl. intros [Hin|Hin]%elem_of_app; [by eauto with ferrum|].
    by apply Hno in Hin.
  - by apply (evo_keyed _ _ (evo_db _ _ Hev)).
Qed.

Lemma quiet_inv w w' gs : quiet_world w w' → inv w gs → inv w' gs.
Proof.
  intros Hq. pose proof (quiet_world_evolves _ _ Hq). destruct Hq as [[] ?]. by apply calm_inv.
Qed.

(** ** What an operation must satisfy *)

(** The states from which the claim of an execution starts. *)
Definition claimable : list ExecutionState := [ES_Prepared; ES_Authorized; ES_Proposed].

(** The execution of a transition is a stored one with its state, finish time,
    result or contract link changed; its contract is its own, with the evidence
    its new state asks for. *)
Record transition_allowed (w : World) (e : ExecutionRecord) (c : option RollbackContract)
    (ob : LifecycleOutboxRecord) : Prop := {
  ta_identity : ∃ e0, db_executions (w_db w) !! ex_execution_id e = Some e0 ∧
    execution_identity e = execution_identity e0;
  ta_compensated : ex_state e = ES_Compensated → recovered w (ex_execution_id e);
  ta_contract : match c with
    | None => ex_state e ≠ ES_Committed ∧
        ∀ cid, ex_rollback_contract_id e = Some cid →
          ∃ c0, db_contracts (w_db w) !! cid = Some c0 ∧ rc_execution_id c0 = ex_execution_id e
    | Some c =>
        ex_rollback_contract_id e = Some (rc_contract_id c) ∧
        rc_execution_id c = ex_execution_id e ∧ contract_evidence w c ∧
        (ob_previous_rollback_state ob ≠ None →
           ∃ c0, db_contracts (w_db w) !! rc_contract_id c = Some c0 ∧
             contract_identity c = contract_identity c0) ∧
        (ex_state e = ES_Committed → settles (w_db w) e c)
    end;
}.

(** A compare-and-set claims an execution, or cancels one before its dispatch. *)
Definition cas_allowed (expected : list ExecutionState) (new : ExecutionState) : Prop :=
  (expected = claimable ∧ new = ES_Running) ∨
  (Forall (λ s, pre_dispatch s = true) expected ∧ new = ES_Canceled).

Definition allowed (g : Permit) {X} (o : op X) (w : World) : Prop :=
  match o with
  | op_record_transition e c ob => transition_allowed w e c ob
  | op_record_authorization l e _ =>
      ex_capability_id e = cl_capability_id l ∧ ex_rollback_contract_id e = None ∧
      pre_dispatch (ex_state e) = true
  | op_cas_state _ expected new => cas_allowed expected new
  | op_update_capability l =>
      cl_status l = CS_Revoked ∧
      ∃ l0, db_capabilities (w_db w) !! cl_capability_id l = Some l0 ∧ lease_terms l0 = lease_terms l
  | op_adapter_execute c payload => g = Some (rc_execution_id c) ∧ effect_authorized ext w c payload
  | o => quiet_op o
  end.

(** The permit after an operation. *)
Definition next (g : Permit) {X} (o : op X) : X → Permit :=
  match o in op X return X → Permit with
  | op_cas_state id _ new => λ r, match r, new with Ok true, ES_Running => Some id | _, _ => g end
  | op_adapter_execute _ _ => λ _, None
  | _ => λ _, g
  end.

(** ** Lifecycle transitions preserve the invariant *)

Lemma dispatched_closed s t :
  dispatched s = true → is_valid_execution_transition s t = true → dispatched t = true.
Proof. by destruct s, t. Qed.

Section transition.
Context (w w' : World) (e : ExecutionRecord) (c : option RollbackContract)
  (ob : LifecycleOutboxRecord) (gs : list Permit).
Context (Hinv : inv w gs) (Hallowed : transition_allowed w e c ob)
  (Hdone : transition_done e c ob (w_db w) (w_db w'))
  (Hlog : w_adapter_log w' = w_adapter_log w).

Lemma transition_evolves : evolves w w'.
Proof using Hallowed Hdone Hlog.
  destruct Hdone as [(e0 & He0 & _ & Hv) Hex Hstep _ Hcaps [Hi Hp _ Hev Hed _]].
  destruct Hallowed as [(e1 & He1 & Hid) _ Hc]. assert (e1 = e0) as -> by congruence. split; [split|].
  - rewrite Hi. apply grows_refl, _.
  - rewrite Hp. apply grows_refl, _.
  - rewrite Hcaps. apply grows_refl, _.
  - rewrite Hex. apply grows_insert; [apply _|]. intros e2 He2. assert (e2 = e0) as -> by congruence.
    split; [done | by apply rtc_once].
  - destruct c as [c'|]; simpl in *; [|rewrite Hstep; apply grows_refl, _].
    destruct Hstep as [-> Hprev]. destruct Hc as (_ & _ & _ & Hc0 & _).
    apply grows_insert; [apply _|]. intros c1 Hc1.
    destruct (ob_previous_rollback_state ob) as [s|]; [|congruence].
    destruct Hprev as (c2 & Hc2 & <- & Hvr). destruct Hc0 as (c3 & Hc3 & Hcid); [done|].
    assert (c2 = c1) as -> by congruence. assert (c3 = c1) as -> by congruence.
    split; [done | by apply rtc_once].
  - by rewrite Hev.
  - by rewrite Hed.
  - by rewrite Hcaps.
  - by rewrite Hlog.
Qed.

(** A committed execution's contract is not touched by the transition of another. *)
Lemma transition_settled id e1 :
  id ≠ ex_execution_id e → db_executions (w_db w) !! id = Some e1 → settled (w_db w') e1.
Proof using Hallowed Hdone Hlog Hinv.
  intros Hne He1. destruct (inv_executions _ _ Hinv _ _ He1) as (Hid1 & (_ & Hlink & _) & Hset).
  intros Hcom. destruct (Hset Hcom) as (cid & c1 & Hl & Hc1 & Hor).
  exists cid, c1. split; [done|]. split.
  2: { destruct Hor as [?|[? ?]]; [by left | right; split; [done|]].
       eauto using verified_event_stable, transition_evolves. }
  pose proof (td_contract _ _ _ _ _ Hdone) as Hstep. destruct Hallowed as [_ _ Hc].
  destruct c as [c'|]; simpl in *; [|by rewrite Hstep].
  destruct Hstep as [-> Hprev]. destruct Hc as (_ & Hce & _ & Hc0 & _).
  rewrite lookup_insert_ne; [done|]. intros <-.
  destruct (ob_previous_rollback_state ob) as [s|]; [|congruence].
  destruct Hc0 as (c3 & Hc3 & Hcid); [done|]. destruct (Hlink _ Hl) as (c4 & Hc4 & Hc4e).
  unfold contract_identity in Hcid. simplify_eq. congruence.
Qed.

Lemma transition_new_row :
  ex_execution_id e = ex_execution_id e ∧ execution_evidence w' e ∧ settled (w_db w') e.
Proof using Hallowed Hdone Hlog Hinv.
  pose proof transition_evolves as Hev.
  pose proof (td_contract _ _ _ _ _ Hdone) as Hstep.
  destruct Hallowed as [(e0 & He0 & Hid) Hcomp Hc].
  destruct (inv_executions _ _ Hinv _ _ He0) as (_ & (Hcap & _ & _) & _).
  unfold execution_identity in Hid. simplify_eq.
  split; [done|]. split; [split_and!|].
  - replace (ex_capability_id e) with (ex_capability_id e0) by congruence. eauto with ferrum.
  - intros cid Hcid. destruct c as [c'|]; simpl in *.
    + destruct Hstep as [-> _]. destruct Hc as (Hl & Hce & _). rewrite Hl in Hcid. simplify_eq.
      exists c'. by rewrite lookup_insert_eq.
    + rewrite Hstep. by apply Hc.
  - eauto with ferrum.
  - intros Hcom. destruct c as [c'|]; simpl in *; [|by destruct Hc].
    destruct Hstep as [Hs _]. destruct Hc as (Hl & _ & _ & _ & Hset).
    exists (rc_contract_id c'), c'. rewrite Hs, lookup_insert_eq. split_and!; [done..|].
    destruct (Hset Hcom) as [?|[? ?]]; [by left | right; eauto with ferrum].
Qed.

Lemma transition_row id e1 :
  db_executions (w_db w') !! id = Some e1 →
  (id = ex_execution_id e ∧ e1 = e) ∨
  (id ≠ ex_execution_id e ∧ db_executions (w_db w) !! id = Some e1).
Proof using Hdone.
  rewrite (td_executions _ _ _ _ _ Hdone).
  rewrite lookup_insert_Some. intros [[? ?]|[? ?]]; [left | right]; by split.
Qed.

Lemma transition_capability id e1 :
  db_executions (w_db w') !! id = Some e1 →
  ∃ e2, db_executions (w_db w) !! id = Some e2 ∧ ex_capability_id e2 = ex_capability_id e1.
Proof using Hdone Hallowed.
  intros He1. destruct (transition_row _ _ He1) as [[-> ->]|[_ He2]]; [|by exists e1].
  destruct Hallowed as [(e0 & He0 & Hid) _ _]. exists e0. unfold execution_identity in Hid.
  split; [done | congruence].
Qed.

Lemma transition_budget id : budget (w_db w) id ≤ budget (w_db w') id.
Proof using Hdone.
  unfold budget. rewrite (td_executions _ _ _ _ _ Hdone).
  destruct (decide (id = ex_execution_id e)) as [->|Hne]; [|by rewrite lookup_insert_ne].
  rewrite lookup_insert_eq. destruct (td_execution _ _ _ _ _ Hdone) as (e0 & -> & _ & Hv).
  destruct (dispatched (ex_state e0)) eqn:Hd; [|lia].
  by rewrite (dispatched_closed _ _ Hd Hv).
Qed.

Lemma transition_inv : inv w' gs.
Proof using Hallowed Hdone Hlog Hinv.
  pose proof transition_evolves as Hev. pose proof Hinv as [He Hc Hs Hb Hx Hk]. split.
  - intros id e1 He1. destruct (transition_row _ _ He1) as [[-> ->]|[Hne He2]].
    + apply transition_new_row.
    + destruct (He _ _ He2) as (? & ? & _). split_and!; [done | eauto with ferrum |].
      by eapply transition_settled.
  - intros id c1. pose proof (td_contract _ _ _ _ _ Hdone) as Hstep.
    destruct Hallowed as [_ _ Ha]. destruct c as [c'|]; simpl in *.
    + destruct Hstep as [-> _]. rewrite lookup_insert_Some.
      intros [[<- <-]|[_ Hc1]]; [|destruct (Hc _ _ Hc1); eauto with ferrum].
      destruct Ha as (_ & _ & ? & _). eauto with ferrum.
    + rewrite Hstep. intros Hc1. destruct (Hc _ _ Hc1). eauto with ferrum.
  - intros id1 id2 e1 e2 H1 H2 Heq. destruct (transition_capability _ _ H1) as (e3 & H3 & ?).
    destruct (transition_capability _ _ H2) as (e4 & H4 & ?). eapply Hs; [done..|congruence].
  - intros id. rewrite Hlog. etrans; [apply Hb | apply transition_budget].
  - intros c1 p r. rewrite Hlog. intros Hin. eauto with ferrum.
  - by apply (evo_keyed _ _ (evo_db _ _ Hev)).
Qed.
End transition.

(** ** Authorizations preserve the invariant *)

Section authorization.
Context (w w' : World) (l : CapabilityLease) (e : ExecutionRecord) (ob : LifecycleOutboxRecord)
  (now : Timestamp) (gs : list Permit).
Context (Hinv : inv w gs) (Hdone : authorization_done l e ob now (w_db w) (w_db w'))
  (Hcap : ex_capability_id e = cl_capability_id l) (Hlink : ex_rollback_contract_id e = None)
  (Hpre : pre_dispatch (ex_state e) = true) (Hlog : w_adapter_log w' = w_adapter_log w).

Lemma authorization_evolves : evolves w w'.
Proof using Hdone Hlog.
  destruct Hdone as [(l0 & Hl0 & Hact & _ & Hcaps) Hfresh Hex Hcon _ [Hi Hp _ Hev Hed _]].
  split; [split|].
  - rewrite Hi. apply grows_refl, _.
  - rewrite Hp. apply grows_refl, _.
  - rewrite Hcaps. apply grows_insert; [apply _|]. intros l1 Hl1.
    assert (l1 = l0) as -> by congruence. split; [done|]. left. simpl. rewrite Hact. by apply rtc_once.
  - rewrite Hex. apply grows_insert; [apply _|]. intros e1 He1. congruence.
  - rewrite Hcon. apply grows_refl, _.
  - by rewrite Hev.
  - by rewrite Hed.
  - rewrite Hcaps. by eapply leases_keyed_update.
  - by rewrite Hlog.
Qed.

Lemma authorization_row id e1 :
  db_executions (w_db w') !! id = Some e1 →
  (id = ex_execution_id e ∧ e1 = e) ∨
  (id ≠ ex_execution_id e ∧ db_executions (w_db w) !! id = Some e1).
Proof using Hdone.
  rewrite (ad_executions _ _ _ _ _ _ Hdone).
  rewrite lookup_insert_Some. intros [[? ?]|[? ?]]; [left | right]; by split.
Qed.

(** No stored execution was backed by the capability that is being used. *)
Lemma authorization_unused id e1 :
  db_executions (w_db w) !! id = Some e1 → ex_capability_id e1 ≠ ex_capability_id e.
Proof using Hdone Hinv Hcap.
  intros He1 Heq. destruct (inv_executions _ _ Hinv _ _ He1) as (_ & ((l1 & Hl1 & Hu) & _) & _).
  destruct (ad_lease _ _ _ _ _ _ Hdone) as (l0 & Hl0 & Hact & _).
  rewrite Heq, Hcap, Hl0 in Hl1. unfold lease_spent in Hu. simplify_eq. by rewrite Hact in Hu.
Qed.

Lemma authorization_inv : inv w' gs.
Proof using Hdone Hinv Hcap Hlink Hpre Hlog.
  pose proof authorization_evolves as Hev. pose proof Hinv as [He Hc Hs Hb Hx Hk]. split.
  - intros id e1 He1. destruct (authorization_row _ _ He1) as [[-> ->]|[_ He2]].
    + split_and!; [done | split_and! | ].
      * destruct (ad_lease _ _ _ _ _ _ Hdone) as (l0 & Hl0 & _ & _ & ->).
        exists (cl_set_status CS_Used l0). by rewrite Hcap, lookup_insert_eq.
      * by rewrite Hlink.
      * by intros Hst; rewrite Hst in Hpre.
      * by intros Hst; rewrite Hst in Hpre.
    + destruct (He _ _ He2) as (? & ? & Hset). split_and!; [done | eauto with ferrum |].
      intros Hcom. destruct (Hset Hcom) as (cid & c & ? & ? & Hor). exists cid, c.
      rewrite (ad_contracts _ _ _ _ _ _ Hdone).
      split_and!; [done..|]. destruct Hor as [?|[? ?]]; [by left | right; eauto with ferrum].
  - intros id c. rewrite (ad_contracts _ _ _ _ _ _ Hdone). intros Hid.
    destruct (Hc _ _ Hid). eauto with ferrum.
  - intros id1 id2 e1 e2 H1 H2 Heq.
    destruct (authorization_row _ _ H1) as [[-> ->]|[_ H1']];
      destruct (authorization_row _ _ H2) as [[-> ->]|[_ H2']]; [done | | | by eapply Hs].
    + by destruct (authorization_unused _ _ H2').
    + by destruct (authorization_unused _ _ H1').
  - intros id. rewrite Hlog. etrans; [apply Hb|]. unfold budget.
    rewrite (ad_executions _ _ _ _ _ _ Hdone).
    destruct (decide (id = ex_execution_id e)) as [->|Hne]; [|by rewrite lookup_insert_ne].
    rewrite (ad_execution _ _ _ _ _ _ Hdone). lia.
  - intros c p r. rewrite Hlog. intros Hin. eauto with ferrum.
  - by apply (evo_keyed _ _ (evo_db _ _ Hev)).
Qed.
End authorization.

(** ** The compare-and-set of an execution's state *)

Section cas.
Context (w w' : World) (id : ExecutionId) (e e' : ExecutionRecord) (gs : list Permit).
Context (Hinv : inv w gs) (He : db_executions (w_db w) !! id = Some e)
  (Hid : execution_identity e' = execution_identity e)
  (Hl : ex_rollback_contract_id e' = ex_rollback_contract_id e)
  (Hvalid : is_valid_execution_transition (ex_state e) (ex_state e') = true)
  (Hnew : ex_state e' ∉ [ES_Committed; ES_Compensated])
  (Hdb : w_db w' = set_executions (<[id := e']> (db_executions (w_db w))) (w_db w))
  (Hlog : w_adapter_log w' = w_adapter_log w).

Lemma cas_tables :
  db_executions (w_db w') = <[id := e']> (db_executions (w_db w)) ∧
  db_contracts (w_db w') = db_contracts (w_db w) ∧
  db_capabilities (w_db w') = db_capabilities (w_db w).
Proof using Hdb. rewrite Hdb. clear. by destruct (w_db w). Qed.

Lemma cas_evolves : evolves w w'.
Proof using Hdb Hlog He Hid Hvalid.
  split; [|by rewrite Hlog]. rewrite Hdb. destruct (w_db w) as [? ? ? exs ? ? ? ? ? ?]; simpl in *.
  split; simpl; try done; try apply grows_refl, _.
  apply grows_insert; [apply _|]. intros e1 He1. assert (e1 = e) as -> by congruence.
  split; [done | by apply rtc_once].
Qed.

Lemma cas_row id1 e1 :
  db_executions (w_db w') !! id1 = Some e1 →
  (id1 = id ∧ e1 = e') ∨ (id1 ≠ id ∧ db_executions (w_db w) !! id1 = Some e1).
Proof using Hdb.
  rewrite (proj1 cas_tables). rewrite lookup_insert_Some.
  intros [[? ?]|[? ?]]; [left | right]; by split.
Qed.

Lemma cas_inv gs' :
  (∀ id1, calls id1 (w_adapter_log w) + permits id1 gs' ≤ budget (w_db w') id1) → inv w' gs'.
Proof using Hinv He Hid Hl Hvalid Hnew Hdb Hlog.
  intros Hgs. pose proof cas_evolves as Hev.
  pose proof Hinv as [Hex Hc Hs Hb Hx Hk]. pose proof cas_tables as (Ht & Htc & _).
  assert (ex_capability_id e' = ex_capability_id e) as Hcapeq.
  { unfold execution_identity in Hid. congruence. }
  destruct (Hex _ _ He) as (Hide & (Hcap & Hlink & _) & _). split.
  - intros id1 e1 H1. destruct (cas_row _ _ H1) as [[-> ->]|[_ H1']].
    + split_and!; [unfold execution_identity in Hid; congruence | split_and! |].
      * rewrite Hcapeq. eauto with ferrum.
      * rewrite Hl, Htc. unfold execution_identity in Hid. intros cid Hcid.
        destruct (Hlink _ Hcid) as (c & ? & ?). exists c. split; congruence.
      * intros Hcom. rewrite Hcom in Hnew. set_solver.
      * intros Hcom. rewrite Hcom in Hnew. set_solver.
    + destruct (Hex _ _ H1') as (? & ? & Hset). split_and!; [done | eauto with ferrum |].
      intros Hcom. destruct (Hset Hcom) as (cid & c & ? & ? & Hor). exists cid, c. rewrite Htc.
      split_and!; [done..|]. destruct Hor as [?|[? ?]]; [by left | right; eauto with ferrum].
  - intros cid c. rewrite Htc. intros Hcid. destruct (Hc _ _ Hcid). eauto with ferrum.
  - intros id1 id2 e1 e2 H1 H2 Heq.
    destruct (cas_row _ _ H1) as [[-> ->]|[_ H1']]; destruct (cas_row _ _ H2) as [[-> ->]|[_ H2']];
      [done | | | by eapply Hs]; rewrite Hcapeq in Heq; by eapply Hs.
  - intros id1. rewrite Hlog. apply Hgs.
  - intros c p r. rewrite Hlog. intros Hin. eauto with ferrum.
  - by apply (evo_keyed _ _ (evo_db _ _ Hev)).
Qed.

(** Before the dispatch nothing was called and no permit is out. *)
Lemma cas_budget gs' :
  dispatched (ex_state e) = false →
  (∀ id1, permits id1 gs' ≤ permits id1 gs +
            (if decide (id1 = id ∧ dispatched (ex_state e') = true) then 1 else 0)) →
  ∀ id1, calls id1 (w_adapter_log w) + permits id1 gs' ≤ budget (w_db w') id1.
Proof using Hinv He Hdb.
  intros Hd Hgs id1. pose proof (inv_budget _ _ Hinv id1) as Hb. specialize (Hgs id1).
  unfold budget in *. rewrite (proj1 cas_tables).
  destruct (decide (id1 = id)) as [->|Hne].
  - rewrite lookup_insert_eq. rewrite He, Hd in Hb. destruct (dispatched (ex_state e')).
    + destruct (decide _); lia.
    + rewrite decide_False in Hgs by naive_solver. lia.
  - rewrite lookup_insert_ne by done. rewrite decide_False in Hgs by naive_solver. lia.
Qed.
End cas.

(** ** The adapter call spends the permit *)

Lemma execute_inv w w' gs i c payload r :
  inv w gs → gs !! i = Some (Some (rc_execution_id c)) → effect_authorized ext w c payload →
  w_db w' = w_db w → w_adapter_log w' = w_adapter_log w ++ [AC_execute c payload r] →
  evolves w w' ∧ inv w' (<[i := None]> gs).
Proof.
  intros [He Hc Hs Hb Hx Hk] Hi Heff Hdb Hlog.
  assert (evolves w w') as Hev.
  { split; [by rewrite Hdb|]. rewrite Hlog. by eexists. }
  split; [done|]. split; rewrite ?Hdb.
  - intros id e Hid. destruct (He _ _ Hid) as (? & ? & ?). eauto with ferrum.
  - intros id c1 Hid. destruct (Hc _ _ Hid). eauto with ferrum.
  - done.
  - intros id. rewrite Hlog, calls_app. specialize (Hb id).
    pose proof (permits_insert id gs i _ None Hi) as Hp. unfold holds in Hp.
    rewrite (decide_False (P := None = Some id)) in Hp by done.
    rewrite calls_execute. destruct (String.eqb_spec (rc_execution_id c) id) as [<-|Hne].
    + rewrite decide_True in Hp by done. lia.
    + rewrite decide_False in Hp by congruence. lia.
  - intros c1 p1 r1. rewrite Hlog. intros [Hin|Hin]%elem_of_app; [eauto with ferrum|].
    apply list_elem_of_singleton in Hin. simplify_eq. eauto with ferrum.
  - done.
Qed.

(** ** Every allowed operation preserves the invariant *)

Lemma exec_db_cases {A} env (s : stmt A) w r w' :
  exec_db env s w = (r, w') →
  w_adapter_log w' = w_adapter_log w ∧
  ((w_db w' = w_db w ∧ ∃ msg, r = Err (SE_Database msg)) ∨
   (w_db w' = after s (w_db w) ∧ (r = fst (s (w_db w)) ∨ ∃ msg, r = Err (SE_Database msg)))).
Proof.
  destruct w as [d caps m l t]; simpl.
  destruct (env_fault env t) as [[]|]; [| |destruct (s d) eqn:Hs]; intros; simplify_eq/=; eauto 8.
Qed.

(** A world with the same database and log. *)
Lemma unchanged_inv w w' gs :
  w_db w' = w_db w → w_adapter_log w' = w_adapter_log w → inv w gs → evolves w w' ∧ inv w' gs.
Proof.
  intros Hdb Hlog Hinv. assert (quiet_world w w') as Hq.
  { split; [by rewrite Hdb | rewrite Hlog; apply quiet_log]. }
  split; [by apply quiet_world_evolves | by eapply quiet_inv].
Qed.

Lemma record_transition_step env w gs e c ob r w' :
  inv w gs → transition_allowed w e c ob →
  exec_op env (op_record_transition e c ob) w = (r, w') → evolves w w' ∧ inv w' gs.
Proof.
  intros Hinv Hta Hx. apply exec_db_cases in Hx as [Hlog [[Hdb _] | [Hdb _]]];
    [by apply unchanged_inv|].
  destruct (record_lifecycle_transition e c ob (w_db w)) as [[[]|err] d'] eqn:Hs; simpl in Hdb.
  - apply record_transition_done in Hs. rewrite <- Hdb in Hs.
    split; [by eapply transition_evolves | by eapply transition_inv].
  - apply record_transition_err in Hs. subst d'. by apply unchanged_inv.
Qed.

Lemma record_authorization_step env w gs l e ob r w' :
  inv w gs → ex_capability_id e = cl_capability_id l → ex_rollback_contract_id e = None →
  pre_dispatch (ex_state e) = true →
  exec_op env (op_record_authorization l e ob) w = (r, w') → evolves w w' ∧ inv w' gs.
Proof.
  intros Hinv Hcap Hlink Hpre Hx. apply exec_db_cases in Hx as [Hlog [[Hdb _] | [Hdb _]]];
    [by apply unchanged_inv|].
  destruct (record_authorization l e ob _ (w_db w)) as [[[]|err] d'] eqn:Hs; simpl in Hdb.
  - apply record_authorization_done in Hs. rewrite <- Hdb in Hs.
    split; [by eapply authorization_evolves | by eapply authorization_inv].
  - apply record_authorization_false in Hs. subst d'. by apply unchanged_inv.
  - apply record_authorization_err in Hs. subst d'. by apply unchanged_inv.
Qed.

Lemma cas_allowed_spec expected new s :
  cas_allowed expected new → s ∈ expected →
  dispatched s = false ∧ is_valid_execution_transition s new = true ∧
  new ∉ [ES_Committed; ES_Compensated] ∧ (dispatched new = true ↔ new = ES_Running).
Proof.
  intros [[-> ->] | [Hall ->]] Hs.
  - unfold claimable in Hs. rewrite !elem_of_cons, elem_of_nil in Hs.
    destruct Hs as [-> | [-> | [-> | []]]]; (split_and!; [done | done | set_solver | done]).
  - rewrite Forall_forall in Hall. specialize (Hall _ Hs).
    split_and!; [by destruct s | by destruct s | set_solver | done].
Qed.

Lemma cas_step env w gs i g id expected new r w' :
  inv w gs → gs !! i = Some g → cas_allowed expected new →
  exec_op env (op_cas_state id expected new) w = (r, w') →
  evolves w w' ∧ inv w' (<[i := next g (op_cas_state id expected new) r]> gs).
Proof.
  intros Hinv Hi Ha Hx. apply exec_db_cases in Hx as [Hlog [[Hdb [msg ->]] | [Hdb Hr]]].
  { simpl. rewrite list_insert_id by done. by apply unchanged_inv. }
  destruct (compare_and_set_state id expected new _ (w_db w)) as [r0 d'] eqn:Hs; simpl in Hdb, Hr.
  assert (r0 = Ok true ∨ r0 ≠ Ok true) as [-> | Hne] by (destruct r0 as [[]|]; auto).
  - apply compare_and_set_ok in Hs as (e & e' & He & Hst & -> & Heq).
    destruct (cas_allowed_spec _ _ _ Ha Hst) as (Hd & Hv & Hn & Hdn).
    assert (execution_identity e' = execution_identity e ∧
      ex_rollback_contract_id e' = ex_rollback_contract_id e ∧ ex_state e' = new) as (Hid & Hl & <-)
      by (destruct Heq as [-> | ->]; by destruct e).
    split; [by eapply cas_evolves|]. eapply cas_inv; [done..|]. eapply cas_budget; [done..|].
    intros id1. destruct Hr as [-> | [msg ->]]; simpl; [|rewrite list_insert_id by done; lia].
    pose proof (permits_insert id1 gs i g (Some id) Hi) as Hp. unfold holds in Hp.
    destruct (decide (ex_state e' = ES_Running)) as [Hrun|Hrun].
    + rewrite Hrun. destruct (decide (Some id = Some id1)), (decide (id1 = id ∧ _)); try lia.
      all: naive_solver congruence.
    + replace (match ex_state e' with ES_Running => Some id | _ => g end) with g
        by (by destruct (ex_state e')).
      rewrite list_insert_id by done. lia.
  - pose proof (compare_and_set_not _ _ _ _ _ _ _ Hs Hne). subst d'.
    replace (<[i := _]> gs) with gs; [by apply unchanged_inv|].
    symmetry. apply list_insert_id. rewrite Hi. f_equal.
    destruct Hr as [-> | [msg ->]]; [|done]. by destruct r0 as [[]|].
Qed.

(** A revocation that overwrites a lease with its own terms. *)
Lemma update_capability_step env w gs l l0 r w' :
  inv w gs → cl_status l = CS_Revoked →
  db_capabilities (w_db w) !! cl_capability_id l = Some l0 → lease_terms l0 = lease_terms l →
  exec_op env (op_update_capability l) w = (r, w') → evolves w w' ∧ inv w' gs.
Proof.
  intros Hinv Hs Hl0 Ht Hx. apply exec_db_cases in Hx as [Hlog [[Hdb _] | [Hdb _]]];
    [by apply unchanged_inv|].
  unfold update_capability in Hdb. destruct (has _ _); [|by apply unchanged_inv].
  destruct w as [d caps m lg t], w' as [d' caps' m' lg' t']. simpl in *. subst lg' d'.
  assert (evolves (mkWorld d caps m lg t)
    (mkWorld (set_capabilities (<[cl_capability_id l := l]> (db_capabilities d)) d) caps' m' lg t')) as Hev.
  { split; [|done]. destruct d; simpl in *. split; simpl; try done; try apply grows_refl, _.
    apply grows_insert; [apply _|]. intros l1 Hl1. assert (l1 = l0) as -> by congruence.
    by split; [|right]. by eapply leases_keyed_update. }
  split; [done|]. eapply calm_inv; [done | by destruct d | by destruct d | apply quiet_log | done].
Qed.

Lemma step_inv {X} env (o : op X) w x w' gs i g :
  gs !! i = Some g → inv w gs → allowed g o w → exec_op env o w = (x, w') →
  evolves w w' ∧ inv w' (<[i := next g o x]> gs).
Proof.
  intros Hi Hinv Ha Hx.
  assert (quiet_op o → next g o x = g → evolves w w' ∧ inv w' (<[i := next g o x]> gs)) as Hquiet.
  { intros Hq ->. rewrite list_insert_id by done. pose proof (exec_op_quiet _ _ _ _ _ Hq Hx).
    split; [by apply quiet_world_evolves | by eapply quiet_inv]. }
  destruct o; try (apply Hquiet; [exact Ha | reflexivity]).
  - simpl next. rewrite list_insert_id by done. by eapply record_transition_step.
  - destruct Ha as (? & ? & ?). simpl next. rewrite list_insert_id by done.
    by eapply record_authorization_step.
  - by eapply cas_step.
  - destruct Ha as (Hs & l0 & Hl0 & Ht). simpl next. rewrite list_insert_id by done.
    by eapply update_capability_step.
  - destruct Ha as [-> Heff]. destruct w as [d caps m lg t]. simpl in Hx. simplify_eq.
    by eapply execute_inv.
Qed.
End invariant.
