(* ===== verification/Logic.v ===== *)
(** * A program logic for the handlers

    [wp p g Q w]: the program [p], started with permit [g] in any world that
    evolved from [w], issues only allowed operations, whatever the other programs
    do in between, and every result it returns satisfies [Q].  [pool_safe] is the
    soundness of the logic: a pool of programs verified this way keeps the
    invariant in every interleaving, under every environment. *)

From S2P Require Import Prelude Json Proto Transitions CapService Store Adapter Effects Pdp.
From S2P Require Import RollbackSvc Validation Provenance CapBackend Lifecycle Handlers StoreFacts.
From S2P Require Import Evolution Discipline.

Section logic.
Context (ext : Ext) (env : Env).

(** The world satisfies the invariant for some set of outstanding permits. *)
Definition wf (w : World) : Prop := ∃ gs, inv ext w gs.

Fixpoint wp {A} (p : prog A) (g : Permit) (Q : Permit → A → World → Prop) (w : World) : Prop :=
  match p with
  | Ret a => ∀ w', evolves w w' → Q g a w'
  | Do o k => ∀ w1, evolves w w1 → wf w1 →
      allowed ext g o w1 ∧
      ∀ x w2, exec_op env o w1 = (x, w2) → evolves w1 w2 → wf w2 → wp (k x) (next g o x) Q w2
  end.

Lemma wp_evolves {A} (p : prog A) g Q w w' : evolves w w' → wp p g Q w → wp p g Q w'.
Proof.
  intros Hw. destruct p as [a|X o k]; simpl.
  - intros H w1 Hw1. apply H. by trans w'.
  - intros H w1 Hw1. apply H. by trans w'.
Qed.

Lemma wp_mono {A} (p : prog A) g (Q Q' : Permit → A → World → Prop) w :
  (∀ g a w', evolves w w' → Q g a w' → Q' g a w') → wp p g Q w → wp p g Q' w.
Proof.
  revert g w. induction p as [a|X o k IH]; simpl; intros g w HQ H.
  - auto.
  - intros w1 Hw1 Hwf. destruct (H w1 Hw1 Hwf) as [Ha Hk]. split; [done|].
    intros x w2 Hx Hw2 Hwf2. apply IH; [|by apply Hk].
    intros g' a w' Hw'. apply HQ. trans w1; [done|]. by trans w2.
Qed.

Lemma wp_bind {A B} (p : prog A) (f : A → prog B) g Q w :
  wp p g (λ g' a w', wp (f a) g' Q w') w → wp (bind p f) g Q w.
Proof.
  revert g w. induction p as [a|X o k IH]; simpl; intros g w H; [by apply H|].
  intros w1 Hw1 Hwf. destruct (H w1 Hw1 Hwf) as [Ha Hk]. split; [done|].
  intros x w2 Hx Hw2 Hwf2. apply IH. by apply Hk.
Qed.

(** ** Soundness *)

Definition Done {A} : Permit → A → World → Prop := λ _ _ _, True.

Record pool_ok {A} (p : Pool A) (gs : list Permit) : Prop := {
  po_inv : inv ext (p_world p) gs;
  po_threads : Forall2 (λ t g, wp t g Done (p_world p)) (p_threads p) gs;
}.

Lemma pool_step_ok {A} (admitted : prog A → Prop) p p' gs :
  (∀ t w, admitted t → wp t None Done w) →
  pool_ok p gs → pool_step admitted env p p' →
  evolves (p_world p) (p_world p') ∧ ∃ gs', pool_ok p' gs'.
Proof.
  intros Hadm [Hinv Hts] Hstep. destruct Hstep as [i X o k ts w x w' Hi Hx | t ts w Ht]; simpl in *.
  - destruct (Forall2_lookup_l _ _ _ _ _ Hts Hi) as (g & Hg & Hwp). simpl in Hwp.
    destruct (Hwp w) as [Ha Hk]; [done | by exists gs |].
    destruct (step_inv ext env o w x w' gs i g Hg Hinv Ha Hx) as [Hev Hinv'].
    split; [done|]. exists (<[i := next g o x]> gs). split; simpl; [done|].
    apply Forall2_insert; [|apply Hk; [done | done | by eexists]].
    eapply Forall2_impl; [done|]. intros t' g'. by apply wp_evolves.
  - split; [done|]. exists (gs ++ [None]). split; simpl; [by apply inv_spawn|].
    apply Forall2_app; [done|]. constructor; [by apply Hadm | done].
Qed.

Lemma pool_reach_ok {A} (admitted : prog A → Prop) p p' gs :
  (∀ t w, admitted t → wp t None Done w) →
  pool_ok p gs → pool_reach admitted env p p' →
  evolves (p_world p) (p_world p') ∧ ∃ gs', pool_ok p' gs'.
Proof.
  intros Hadm Hok Hr. revert gs Hok.
  induction Hr as [p|p p1 p' Hstep _ IH]; intros gs Hok; [split; [done | by exists gs]|].
  destruct (pool_step_ok _ _ _ _ Hadm Hok Hstep) as [Hev [gs1 Hok1]].
  destruct (IH gs1 Hok1) as [Hev' H]. split; [by etrans | done].
Qed.

(** The invariant holds in every world reachable from an initial one. *)
Lemma pool_safe {A} (admitted : prog A → Prop) w p' :
  (∀ t w, admitted t → wp t None Done w) →
  initial w → pool_reach admitted env (mkPool [] w) p' → wf (p_world p').
Proof.
  intros Hadm Hw Hr. assert (pool_ok (A := A) (mkPool [] w) []) as Hok.
  { split; [by apply initial_inv | constructor]. }
  destruct (pool_reach_ok admitted _ _ [] Hadm Hok Hr) as [_ [gs Hok']]. exists gs. apply Hok'.
Qed.

(** ** Specifications of fallible programs

    [spec g w p Φ]: [p] keeps the permit, and an [Ok] result satisfies [Φ]. *)

Definition okpost {T E} (g : Permit) (Φ : T → World → Prop) : Permit → result T E → World → Prop :=
  λ g' r w, g' = g ∧ match r with Ok x => Φ x w | Err _ => True end.

Definition spec {T E} (g : Permit) (w : World) (p : prog (result T E)) (Φ : T → World → Prop) : Prop :=
  wp p g (okpost g Φ) w.

Lemma spec_try {T T' E} g w (p : prog (result T E)) (k : T → prog (result T' E)) Φ Ψ :
  spec g w p Φ → (∀ x w', evolves w w' → Φ x w' → spec g w' (k x) Ψ) →
  spec g w (bind p (λ r, match r with Ok x => k x | Err e => Ret (Err e) end)) Ψ.
Proof.
  intros Hp Hk. apply wp_bind. eapply wp_mono; [|exact Hp].
  intros g' [x|e] w' Hw' [-> HΦ]; [by apply Hk | by intros w'' _].
Qed.

Lemma spec_weaken {T E} g w (p : prog (result T E)) Φ Ψ :
  (∀ x w', evolves w w' → Φ x w' → Ψ x w') → spec g w p Φ → spec g w p Ψ.
Proof.
  intros H. apply wp_mono. intros g' [x|e] w' Hw' [-> HΦ]; split; auto.
Qed.

Lemma spec_ok {T E} g w (x : T) (Φ : T → World → Prop) :
  (∀ w', evolves w w' → Φ x w') → spec g w (Ret (Ok x : result T E)) Φ.
Proof. intros H w' Hw'. split; auto. Qed.

Lemma spec_err {T E} g w (e : E) (Φ : T → World → Prop) : spec g w (Ret (Err e)) Φ.
Proof. by intros w' Hw'. Qed.

Lemma spec_done {T E} g w (p : prog (result T E)) Φ : spec g w p Φ → wp p g Done w.
Proof. by apply wp_mono. Qed.

(** ** Quiet programs *)

Fixpoint quiet_prog {A} (p : prog A) : Prop :=
  match p with
  | Ret _ => True
  | Do o k => quiet_op o ∧ ∀ x, quiet_prog (k x)
  end.

Lemma quiet_bind {A B} (p : prog A) (f : A → prog B) :
  quiet_prog p → (∀ a, quiet_prog (f a)) → quiet_prog (bind p f).
Proof. induction p as [a|X o k IH]; simpl; [auto|]. intros [Ho Hk] Hf. split; auto. Qed.

Lemma quiet_call {X} (o : op X) : quiet_op o → quiet_prog (call o).
Proof. by intros Ho. Qed.

Lemma quiet_allowed {X} (o : op X) g w : quiet_op o → allowed ext g o w ∧ ∀ x, next g o x = g.
Proof. by destruct o. Qed.

(** A quiet program keeps the permit; what all its results satisfy can be used. *)
Lemma quiet_wp {A} (p : prog A) (P : A → Prop) g w :
  quiet_prog p → returns P p → wp p g (λ g' a _, g' = g ∧ P a) w.
Proof.
  revert w. induction p as [a|X o k IH]; simpl; intros w; [auto|].
  intros [Ho Hk] HP w1 _ _. destruct (quiet_allowed o g w1 Ho) as [Ha Hn]. split; [done|].
  intros x w2 _ _ _. rewrite Hn. by apply IH.
Qed.

Lemma quiet_spec {T E} (p : prog (result T E)) g w : quiet_prog p → spec g w p (λ _ _, True).
Proof.
  intros Hp. eapply wp_mono; [|by eapply (quiet_wp _ (λ _, True)), returns_top].
  intros g' [x|e] w' _ [-> _]; by split.
Qed.

Lemma quiet_spec_returns {T E} (p : prog (result T E)) (P : T → Prop) g w :
  quiet_prog p → returns (λ r, match r with Ok x => P x | Err _ => True end) p →
  spec g w p (λ x _, P x).
Proof.
  intros Hp HP. eapply wp_mono; [|by apply (quiet_wp _ _ g w Hp HP)].
  intros g' [x|e] w' _ [-> H]; by split.
Qed.

(** A quiet operation in front of a program. *)
Lemma wp_quiet_bind {A B} (p : prog A) (f : A → prog B) g Q w :
  quiet_prog p → (∀ a w', evolves w w' → wp (f a) g Q w') → wp (bind p f) g Q w.
Proof.
  intros Hp Hf. apply wp_bind. eapply wp_mono; [|by eapply (quiet_wp _ (λ _, True)), returns_top].
  intros g' a w' Hw' [-> _]. by apply Hf.
Qed.

(** What a read returns is what the database holds at that moment. *)
Lemma exec_db_read {T} (s : stmt T) w x w' :
  exec_db env s w = (Ok x, w') → s (w_db w) = (Ok x, w_db w) → w_db w' = w_db w.
Proof.
  intros Hx Hs. apply exec_db_cases in Hx as [_ [[? _] | [Hdb _]]]; [done|]. by rewrite Hdb, Hs.
Qed.
End logic.

Arguments spec_try {ext env T T' E g w p k} Φ {Ψ} _ _.

(** A quiet program run alone. *)
Lemma quiet_run {A} env (p : prog A) w : quiet_prog p → quiet_world w (run env p w).2.
Proof.
  revert w. induction p as [a|X o k IH]; intros w; simpl.
  - split; [reflexivity | apply quiet_log].
  - intros [Ho Hk]. destruct (exec_op env o w) as [x w'] eqn:Hx.
    pose proof (exec_op_quiet _ _ _ _ _ Ho Hx) as Hq1. pose proof (IH x w' (Hk x)) as Hq2.
    destruct Hq1 as [Hd1 (l1 & Hl1 & Hn1)], Hq2 as [Hd2 (l2 & Hl2 & Hn2)].
    split; [by etrans|]. exists (l1 ++ l2). rewrite Hl2, Hl1, app_assoc. split; [done|].
    intros c p r [Hin|Hin]%elem_of_app; [by eapply Hn1 | by eapply Hn2].
Qed.
