(* ===== verification/HandlerSafety.v ===== *)
(** * The execution handlers follow the discipline

    Each handler is verified in the program logic: quiet helpers by automation,
    the loads by what they read, the transitions by the evidence collected on the
    way.  The result is [handler_safe], for all the handlers the gateway admits. *)

From S2P Require Import Prelude Json Proto Transitions CapService Store Adapter Effects Pdp.
From S2P Require Import RollbackSvc Validation Provenance CapBackend Lifecycle Handlers StoreFacts.
From S2P Require Import Evolution Discipline Logic.

(** ** Quiet helpers *)

Create HintDb quiet.

(** Decompose a program along its binds and branches; close the quiet leaves. *)
Ltac solve_quiet_prog :=
  repeat first
    [ exact I
    | apply quiet_call; exact I
    | solve [auto with quiet nocore]
    | apply quiet_bind; [|intros ?]
    | case_match
    | match goal with |- quiet_prog (match ?x with _ => _ end) => destruct x end ].

Lemma governance_err_quiet {R} route e : quiet_prog (governance_err (R := R) route e).
Proof. unfold governance_err. solve_quiet_prog. Qed.
Lemma governance_ok_quiet {R} route (r : R) : quiet_prog (governance_ok route r).
Proof. unfold governance_ok. solve_quiet_prog. Qed.
#[export] Hint Resolve governance_err_quiet governance_ok_quiet : quiet.

Lemma require_quiet {T} route (r : result T ApiProblem) : quiet_prog (require route r).
Proof. unfold require. solve_quiet_prog. Qed.
Lemma checked_quiet {T} route (p : prog (result T StoreError)) :
  quiet_prog p → quiet_prog (checked route p).
Proof. intros Hp. unfold checked. solve_quiet_prog; done. Qed.
#[export] Hint Resolve require_quiet checked_quiet : quiet.

Lemma mark_provenance_obligation_written_quiet id kind ev :
  quiet_prog (mark_provenance_obligation_written id kind ev).
Proof. unfold mark_provenance_obligation_written. solve_quiet_prog. Qed.
Lemma mark_reconciled_quiet id md : quiet_prog (mark_reconciled id md).
Proof. unfold mark_reconciled. solve_quiet_prog. Qed.
#[export] Hint Resolve mark_provenance_obligation_written_quiet mark_reconciled_quiet : quiet.
Lemma mark_lifecycle_obligation_written_quiet ob kind ev :
  quiet_prog (mark_lifecycle_obligation_written ob kind ev).
Proof. unfold mark_lifecycle_obligation_written. solve_quiet_prog. Qed.
#[export] Hint Resolve mark_lifecycle_obligation_written_quiet : quiet.
Lemma mark_lifecycle_transition_reconciled_quiet ob ev :
  quiet_prog (mark_lifecycle_transition_reconciled ob ev).
Proof. unfold mark_lifecycle_transition_reconciled. solve_quiet_prog. Qed.
#[export] Hint Resolve mark_lifecycle_transition_reconciled_quiet : quiet.

Lemma append_governance_event_quiet ev : quiet_prog (append_governance_event ev).
Proof. unfold append_governance_event, append_with. solve_quiet_prog. Qed.
#[export] Hint Resolve append_governance_event_quiet : quiet.
Lemma emit_quiet route kind obj e cid md : quiet_prog (emit route kind obj e cid md).
Proof. unfold emit. solve_quiet_prog. Qed.
#[export] Hint Resolve emit_quiet : quiet.

(** ** The capability service

    What the lifecycle needs of it: its methods change no lifecycle row. *)
Class QuietBackend (b : CapBackend) : Prop := {
  qb_mint r : quiet_prog (cb_mint b r);
  qb_get id : quiet_prog (cb_get b id);
  qb_mark_used id : quiet_prog (cb_mark_used b id);
  qb_revoke id : quiet_prog (cb_revoke b id);
}.
#[export] Hint Resolve qb_mint qb_get qb_mark_used qb_revoke : quiet.

#[export] Instance in_memory_quiet : QuietBackend InMemoryCapabilityService.
Proof.
  split; intros; cbn [cb_mint cb_get cb_mark_used cb_revoke InMemoryCapabilityService]; solve_quiet_prog.
Qed.

#[export] Instance store_quiet : QuietBackend StoreCapabilityService.
Proof.
  split; intros; cbn [cb_mint cb_get cb_mark_used cb_revoke StoreCapabilityService];
    unfold mint_capability_with_owner, store_get, store_mark_used, store_revoke, store_conclude,
      store_lost, store_lease; solve_quiet_prog; apply quiet_call; reflexivity.
Qed.

Lemma append_audit_checked_quiet app a b c d e md : quiet_prog (append_audit_checked app a b c d e md).
Proof. unfold append_audit_checked, append_audit, audit_append. solve_quiet_prog. Qed.
Lemma get_capability_for_authorize_quiet b `{!QuietBackend b} id :
  quiet_prog (get_capability_for_authorize b id).
Proof. unfold get_capability_for_authorize. solve_quiet_prog. Qed.
Lemma classify_authorization_cas_failure_quiet id : quiet_prog (classify_authorization_cas_failure id).
Proof. unfold classify_authorization_cas_failure. solve_quiet_prog. Qed.
Lemma validate_approval_binding_digest_quiet ext b id :
  quiet_prog (validate_approval_binding_digest ext b id).
Proof. unfold validate_approval_binding_digest, fetch_or. solve_quiet_prog. Qed.
Lemma build_prepare_request_quiet ext i e c p s :
  quiet_prog (build_prepare_request_for_proposal ext i e c p s).
Proof. unfold build_prepare_request_for_proposal. solve_quiet_prog. Qed.
Lemma find_plan_quiet i n a t : quiet_prog (find_plan i n a t).
Proof. revert i. induction n as [|n IH]; intros i; simpl; [done|].
  split; [done|]. intros x. solve_quiet_prog; apply IH. Qed.
#[export] Hint Resolve append_audit_checked_quiet get_capability_for_authorize_quiet
  classify_authorization_cas_failure_quiet validate_approval_binding_digest_quiet
  build_prepare_request_quiet find_plan_quiet : quiet.
Lemma choose_plan_quiet r : quiet_prog (choose_plan r).
Proof. unfold choose_plan. solve_quiet_prog. Qed.
#[export] Hint Resolve choose_plan_quiet : quiet.
Lemma rollback_prepare_quiet r : quiet_prog (rollback_prepare r).
Proof. unfold rollback_prepare. solve_quiet_prog. Qed.
Lemma fetch_quiet {T} route (o : op (result (option T) StoreError)) missing :
  quiet_op o → quiet_prog (fetch route o missing).
Proof. intros Ho. unfold fetch. solve_quiet_prog. by apply quiet_call. Qed.
#[export] Hint Resolve rollback_prepare_quiet : quiet.
#[export] Hint Extern 1 (quiet_prog (fetch _ _ _)) => apply fetch_quiet; exact I : quiet.
Lemma prepare_events_quiet e c ob : quiet_prog (prepare_events e c ob).
Proof. unfold prepare_events. solve_quiet_prog. Qed.
Lemma verify_events_quiet v cm e c ob : quiet_prog (verify_events v cm e c ob).
Proof. unfold verify_events. solve_quiet_prog. Qed.
#[export] Hint Resolve prepare_events_quiet verify_events_quiet : quiet.
Lemma authorize_checks_quiet app `{!QuietBackend (app_cap app)} actor req :
  quiet_prog (authorize_checks app actor req).
Proof. unfold authorize_checks. solve_quiet_prog. Qed.
#[export] Hint Resolve authorize_checks_quiet : quiet.

(** ** What a handler knows of the rows it loaded *)

(** The row of [e] is stored under its id with the same identity, and [e] has the
    evidence of a stored row. *)
Definition knows_execution (w : World) (e : ExecutionRecord) : Prop :=
  (∃ e0, db_executions (w_db w) !! ex_execution_id e = Some e0 ∧
         execution_identity e0 = execution_identity e) ∧
  execution_evidence w e.

(** [c] is the contract [e] is linked to; it is stored with the same identity, and
    has the evidence of a stored row. *)
Definition knows_contract (w : World) (e : ExecutionRecord) (c : RollbackContract) : Prop :=
  ex_rollback_contract_id e = Some (rc_contract_id c) ∧
  rc_execution_id c = ex_execution_id e ∧ contract_evidence w c ∧
  ∃ c0, db_contracts (w_db w) !! rc_contract_id c = Some c0 ∧
        contract_identity c0 = contract_identity c.

Lemma knows_execution_stable w w' e :
  evolves w w' → knows_execution w e → knows_execution w' e.
Proof.
  intros Hw [(e0 & He0 & Hid) Hev]. split; [|eauto with ferrum].
  destruct (evo_executions _ _ (evo_db _ _ Hw) _ _ He0) as (e1 & He1 & [Hid1 _]).
  exists e1. split; [done | congruence].
Qed.

Lemma knows_contract_stable w w' e c :
  evolves w w' → knows_contract w e c → knows_contract w' e c.
Proof.
  intros Hw (Hl & Hx & Hev & c0 & Hc0 & Hid). split_and!; [done | done | eauto with ferrum |].
  destruct (evo_contracts _ _ (evo_db _ _ Hw) _ _ Hc0) as (c1 & Hc1 & [Hid1 _]).
  exists c1. split; [done | congruence].
Qed.
#[export] Hint Resolve knows_execution_stable knows_contract_stable : ferrum.

Section safety.
Context (app : App) (env : Env) `{!QuietBackend (app_cap app)}.
Abbreviation ext := (app_ext app).
Abbreviation spec := (Logic.spec ext env).
Abbreviation wp := (Logic.wp ext env).
Abbreviation wf := (Logic.wf ext).

(** Skip a quiet program. *)
Ltac skip x := apply wp_quiet_bind; [solve_quiet_prog | intros x ? ?].
Ltac finish := eapply quiet_spec; solve_quiet_prog.

Lemma governance_err_spec {T} g w route e (Φ : T → World → Prop) :
  spec g w (governance_err route e) Φ.
Proof. unfold governance_err. skip u. apply spec_err. Qed.

Lemma require_spec {T} g w route (r : result T ApiProblem) :
  spec g w (require route r) (λ x _, r = Ok x).
Proof. destruct r; [by apply spec_ok | apply governance_err_spec]. Qed.

Lemma checked_spec {T} g w route (p : prog (result T StoreError)) (Φ : T → World → Prop) :
  (∀ x w w', evolves w w' → Φ x w → Φ x w') →
  spec g w p Φ → spec g w (checked route p) Φ.
Proof.
  intros Hst Hp. apply wp_bind. eapply wp_mono; [|exact Hp].
  intros g' [x|e] w' Hw' [-> HΦ]; [|apply governance_err_spec].
  apply spec_ok. eauto.
Qed.

(** A table read that succeeds tells a stable fact. *)
Lemma fetch_spec {T} g w route (o : op (result (option T) StoreError)) missing (Φ : T → World → Prop) :
  quiet_op o →
  (∀ x w w', evolves w w' → Φ x w → Φ x w') →
  (∀ w1 x w2, evolves w w1 → wf w1 → exec_op env o w1 = (Ok (Some x), w2) → Φ x w1) →
  spec g w (fetch route o missing) Φ.
Proof.
  intros Ho Hst Hread. apply wp_bind. intros w1 Hw1 Hwf. destruct (quiet_allowed ext o g w1 Ho) as [Ha Hn].
  split; [done|]. intros x w2 Hx Hw2 Hwf2. rewrite Hn. intros w3 Hw3.
  destruct x as [[x|]|e]; [|apply governance_err_spec..].
  intros w4 Hw4. split; [done|]. eapply Hst, Hread; [|exact Hw1 | done | exact Hx].
  trans w2; [done|]. by trans w3.
Qed.

Lemma sql_get_read {T} (table : Db → gmap string T) id w x w' :
  exec_db env (sql_get table id) w = (Ok (Some x), w') → table (w_db w) !! id = Some x.
Proof.
  intros Hx. apply exec_db_cases in Hx as [_ [[_ [m Hm]] | [_ [Hr | [m Hm]]]]]; [done| |done].
  unfold sql_get in Hr. simpl in Hr. by simplify_eq.
Qed.

Lemma fetch_intent_spec g w route id missing :
  spec g w (fetch route (op_get_intent id) missing) (λ i w', db_intents (w_db w') !! id = Some i).
Proof.
  apply fetch_spec; [done | |].
  - intros i w1 w2 Hw Hi. by destruct (evo_intents _ _ (evo_db _ _ Hw) _ _ Hi) as (? & ? & <-).
  - intros w1 x w2 _ _ Hx. by apply sql_get_read in Hx.
Qed.

Lemma fetch_proposal_spec g w route id missing :
  spec g w (fetch route (op_get_proposal id) missing) (λ p w', db_proposals (w_db w') !! id = Some p).
Proof.
  apply fetch_spec; [done | |].
  - intros i w1 w2 Hw Hi. by destruct (evo_proposals _ _ (evo_db _ _ Hw) _ _ Hi) as (? & ? & <-).
  - intros w1 x w2 _ _ Hx. by apply sql_get_read in Hx.
Qed.

(** A capability keeps its terms. *)
Lemma fetch_capability_spec g w route id missing :
  spec g w (fetch route (op_get_capability id) missing)
    (λ l w', ∃ l0, db_capabilities (w_db w') !! id = Some l0 ∧ lease_terms l0 = lease_terms l).
Proof.
  apply fetch_spec; [done | |].
  - intros l w1 w2 Hw (l0 & Hl0 & Ht).
    destruct (evo_capabilities _ _ (evo_db _ _ Hw) _ _ Hl0) as (l1 & Hl1 & [Ht1 _]).
    exists l1. split; [done | congruence].
  - intros w1 x w2 _ _ Hx. apply sql_get_read in Hx. by exists x.
Qed.

Lemma load_execution_spec g w route path actor :
  spec g w (load_execution app route path actor) (λ e w', knows_execution w' e).
Proof.
  eapply spec_try; [finish | intros id w1 _ _].
  eapply spec_try.
  { apply (fetch_spec _ _ _ (op_get_execution id) _ (λ e w', knows_execution w' e)); [done | |].
    - intros. eauto with ferrum.
    - intros w2 e w3 _ [gs Hinv] Hx. apply sql_get_read in Hx.
      destruct (inv_executions _ _ _ Hinv _ _ Hx) as (Hid & Hev & _).
      split; [|done]. exists e. by rewrite Hid. }
  intros e w2 _ Hk. skip now. eapply spec_try; [finish | intros u w4 ? _].
  apply spec_ok. intros w5 Hw5. eapply knows_execution_stable; [|exact Hk].
  etrans; [done|]. by etrans.
Qed.

Lemma load_contract_spec g w route e :
  knows_execution w e → spec g w (load_contract route e) (λ c w', knows_contract w' e c).
Proof.
  intros Hk. unfold load_contract. destruct (ex_rollback_contract_id e) as [cid|] eqn:Hl;
    [|apply governance_err_spec].
  apply fetch_spec; [done | intros; eauto with ferrum |].
  intros w1 c w2 Hw1 [gs Hinv] Hx. apply sql_get_read in Hx.
  destruct (knows_execution_stable _ _ _ Hw1 Hk) as [_ (_ & Hlink & _)].
  destruct (Hlink _ Hl) as (c0 & Hc0 & Hxid). assert (c0 = c) as -> by congruence.
  destruct (inv_contracts _ _ _ Hinv _ _ Hx) as [Hid Hev]. subst cid.
  split_and!; [done | done | done |]. by exists c.
Qed.

(** ** Transitions *)

Lemma record_transition_spec g w name prev upd pc uc kinds :
  (∀ w' ob, evolves w w' → ob_previous_rollback_state ob = rc_state <$> pc →
     transition_allowed w' upd uc ob) →
  spec g w (record_lifecycle_transition_outbox_with_obligations name prev upd pc uc kinds)
    (λ _ _, True).
Proof.
  intros H. skip now. skip oid. intros w1 Hw1 Hwf. split.
  - apply H; [etrans; [done|]; by etrans|]. by unfold transition_outbox, pending_with_obligations.
  - intros x w2 _ _ _. by destruct x; intros w3 _.
Qed.

Lemma allow_contract w e upd c' ob :
  knows_execution w e → execution_identity upd = execution_identity e →
  ex_rollback_contract_id upd = Some (rc_contract_id c') →
  rc_execution_id c' = ex_execution_id e → contract_evidence w c' →
  (ob_previous_rollback_state ob ≠ None →
     ∃ c0, db_contracts (w_db w) !! rc_contract_id c' = Some c0 ∧
           contract_identity c' = contract_identity c0) →
  (ex_state upd = ES_Compensated → recovered w (ex_execution_id e)) →
  (ex_state upd = ES_Committed → settles (w_db w) e c') →
  transition_allowed w upd (Some c') ob.
Proof.
  intros [(e0 & He0 & Hid0) _] Hid Hl Hx Hev Hc0 Hcomp Hset.
  assert (ex_execution_id upd = ex_execution_id e) as Hxe.
  { unfold execution_identity in Hid. congruence. }
  split.
  - exists e0. rewrite Hxe. split; [done | congruence].
  - by rewrite Hxe.
  - split_and!; [done | by rewrite Hxe | done | done |].
    unfold settles in *. by rewrite Hxe.
Qed.

(** The update of a known contract of a known execution. *)
Lemma allow_update w e c upd c' ob :
  knows_execution w e → knows_contract w e c → execution_identity upd = execution_identity e →
  ex_rollback_contract_id upd = ex_rollback_contract_id e →
  contract_identity c' = contract_identity c → contract_evidence w c' →
  (ex_state upd = ES_Compensated → recovered w (ex_execution_id e)) →
  (ex_state upd = ES_Committed → settles (w_db w) e c') →
  transition_allowed w upd (Some c') ob.
Proof.
  intros Hk (Hl & Hx & _ & c0 & Hc0 & Hcid0) Hid Hlu Hcid Hev Hcomp Hset.
  assert (rc_contract_id c' = rc_contract_id c ∧ rc_execution_id c' = rc_execution_id c) as [E1 E2].
  { unfold contract_identity in Hcid. split; congruence. }
  eapply allow_contract; try done; [congruence | congruence |].
  intros _. exists c0. rewrite E1. split; [done | congruence].
Qed.

(** The evidence of an updated contract, from that of the old one. *)
Lemma evidence_update w c c' :
  contract_evidence w c → contract_identity c' = contract_identity c →
  (rc_auto_commit c' = rc_auto_commit c ∨ rc_auto_commit c' = false) →
  (rc_state c' ∈ [RbS_ExecutedAwaitingVerify; RbS_Verified; RbS_Committed] →
     executed w (rc_execution_id c)) →
  (rc_state c' ∈ [RbS_Verified; RbS_Committed] → verified_applied w (rc_execution_id c)) →
  (rc_state c' = RbS_Compensated → recovered w (rc_execution_id c)) →
  contract_evidence w c'.
Proof.
  intros (Hr3 & _) Hid Hac H1 H2 H3. unfold contract_identity in Hid. simplify_eq.
  assert (rc_execution_id c' = rc_execution_id c) as Hx by congruence.
  unfold contract_evidence. rewrite Hx. split_and!; auto. intros Hc'. destruct Hac as [-> | ->]; [|done]. apply Hr3. congruence.
Qed.

(** What the handlers' updates of a contract keep. *)
Lemma rc_set_state_fields s c :
  contract_identity (rc_set_state s c) = contract_identity c ∧
  rc_auto_commit (rc_set_state s c) = rc_auto_commit c ∧ rc_state (rc_set_state s c) = s.
Proof. by destruct c. Qed.

Lemma rc_insert_metadata_fields k v c :
  contract_identity (rc_insert_metadata k v c) = contract_identity c ∧
  rc_auto_commit (rc_insert_metadata k v c) = rc_auto_commit c ∧
  rc_state (rc_insert_metadata k v c) = rc_state c.
Proof. by destruct c. Qed.

Lemma contract_after_execute_fields r p c :
  contract_identity (contract_after_execute r p c) = contract_identity c ∧
  rc_auto_commit (contract_after_execute r p c) = rc_auto_commit c ∧
  rc_state (contract_after_execute r p c) = RbS_ExecutedAwaitingVerify.
Proof. by destruct c. Qed.

Lemma verify_contract_fields e c :
  contract_identity (verify_contract e c) = contract_identity c ∧
  (rc_auto_commit (verify_contract e c) = rc_auto_commit c ∨ rc_auto_commit (verify_contract e c) = false) ∧
  rc_state (verify_contract e c) = rc_state c.
Proof.
  destruct c as [? ? ? ? ? class ? target ? ? ? ? ? ? ? ?]. unfold verify_contract; simpl.
  destruct (ex_result_digest e), class, target; simpl; auto.
Qed.

Lemma enrich_fields c :
  contract_identity (enrich_http_compensation_if_needed c) = contract_identity c ∧
  rc_auto_commit (enrich_http_compensation_if_needed c) = rc_auto_commit c ∧
  rc_state (enrich_http_compensation_if_needed c) = rc_state c.
Proof.
  destruct c. unfold enrich_http_compensation_if_needed; simpl.
  repeat (case_match; simpl; try done).
Qed.

Lemma compensated_contract_fields r b c :
  contract_identity (compensated_contract r b c) = contract_identity c ∧
  rc_auto_commit (compensated_contract r b c) = rc_auto_commit c ∧
  rc_state (compensated_contract r b c) =
    if rr_recovered r then RbS_Compensated else if b then RbS_RecoveryRequired else RbS_Failed.
Proof. destruct c, b. all: unfold compensated_contract; destruct (rr_recovered r); simpl; by case_match. Qed.

Lemma ex_set_state_fields s e :
  execution_identity (ex_set_state s e) = execution_identity e ∧
  ex_rollback_contract_id (ex_set_state s e) = ex_rollback_contract_id e ∧
  ex_state (ex_set_state s e) = s.
Proof. by destruct e. Qed.

(** Move what is known of an earlier world to the later one. *)
Ltac carry :=
  cbv beta in *;
  repeat match goal with
  | Hw : evolves ?w ?w', H : knows_execution ?w _ |- _ => apply (knows_execution_stable _ _ _ Hw) in H
  | Hw : evolves ?w ?w', H : knows_contract ?w _ _ |- _ => apply (knows_contract_stable _ _ _ _ Hw) in H
  | Hw : evolves ?w ?w', H : executed ?w _ |- _ => apply (executed_stable _ _ Hw) in H
  | Hw : evolves ?w ?w', H : verified_applied ?w _ |- _ => apply (verified_applied_stable _ _ Hw) in H
  | Hw : evolves ?w ?w', H : recovered ?w _ |- _ => apply (recovered_stable _ _ Hw) in H
  | Hw : evolves ?w ?w', H : verified_event (w_db ?w) _ |- _ => apply (verified_event_stable _ _ Hw) in H
  | Hw : evolves ?w ?w', H : contract_evidence ?w _ |- _ => apply (contract_evidence_stable _ _ Hw) in H
  | Hw : evolves ?w ?w', H : effect_authorized _ ?w _ _ |- _ => apply (effect_authorized_stable _ _ Hw) in H
  end.

(** ** authorize *)

Lemma authorize_safe actor req g w : wp (authorize_execution app actor req) g Done w.
Proof.
  apply (spec_done _ _ _ _ _ (λ _ _, True)).
  eapply spec_try; [finish | intros lease w1 _ _].
  skip eid. skip started. skip now. skip oid.
  intros w2 _ _. split; [by simpl; destruct (aer_dry_run req)|].
  intros r w3 _ _ _. destruct r as [[]|]; finish.
Qed.

(** ** prepare *)

Lemma build_prepare_request_returns i x class p scope :
  returns (λ r, match r with Ok q => rpr_execution_id q = x | Err _ => True end)
    (build_prepare_request_for_proposal ext i x class p scope).
Proof.
  unfold build_prepare_request_for_proposal.
  destruct (infer_action_type_and_adapter _ _ _) as [[a key]|]; [|done].
  apply returns_bind. eapply returns_mono, returns_top. intros tx _. done.
Qed.

Lemma prepare_checks_spec g w path actor :
  spec g w (prepare_checks app path actor) (λ er w', knows_execution w' er.1 ∧
    ex_state er.1 ∈ [ES_Authorized; ES_Prepared] ∧
    rc_state (rps_contract er.2) = RbS_Prepared ∧
    rc_execution_id (rps_contract er.2) = ex_execution_id er.1 ∧
    (rc_rollback_class (rps_contract er.2) = R3IrreversibleHighConsequence →
       rc_auto_commit (rps_contract er.2) = false)).
Proof.
  eapply spec_try; [apply load_execution_spec | intros e w1 _ Hk].
  destruct (ex_state e) eqn:Hs; try apply governance_err_spec.
  all: eapply spec_try; [finish | intros proposal w2 ? _].
  all: eapply spec_try; [finish | intros intent w3 ? _].
  all: destruct (is_draft_only _); [apply governance_err_spec|].
  all: apply wp_bind; eapply wp_mono;
    [|apply (quiet_wp _ _ _ (λ r, match r with Ok q => rpr_execution_id q = ex_execution_id e
                                         | Err _ => True end));
      [auto with quiet | apply build_prepare_request_returns]].
  all: intros g' r w4 ? [-> Hr]; eapply spec_try; [apply require_spec | intros q w5 ? Hq].
  all: destruct r as [q'|]; [|done]; simpl in Hq; simplify_eq.
  all: apply wp_bind; eapply wp_mono;
    [|apply (quiet_wp _ _ _ _ _ _ (rollback_prepare_quiet q) (rollback_prepare_returns q))].
  all: intros g' r w6 ? [-> Hrp]; eapply spec_try; [apply require_spec | intros resp w7 ? Hresp].
  all: destruct r as [resp'|]; [|done]; simpl in Hresp; simplify_eq.
  all: destruct Hrp as (? & _ & _ & ? & _ & _ & _ & ? & _).
  all: apply spec_ok; intros w8 ?; carry; simpl; rewrite ?Hs; split_and!;
    [done | set_solver | done | congruence | done].
Qed.

Lemma prepare_safe path actor g w : wp (prepare_execution app path actor) g Done w.
Proof.
  apply (spec_done _ _ _ _ _ (λ _ _, True)).
  eapply spec_try; [apply prepare_checks_spec | intros [e resp] w1 _ (Hk & Hst & Hc & Hx & Hr3)].
  cbn [fst snd] in *. set (c := rps_contract resp) in *.
  eapply (spec_try (λ _ _, True)); [|intros ob w2 _ _; finish].
  apply checked_spec; [done|]. apply record_transition_spec. intros w2 ob Hw2 Hob. carry.
  assert (ex_state (ex_set_rollback_contract_id (Some (rc_contract_id c)) e) = ex_state e) as Hse
    by by destruct e.
  eapply allow_contract; [exact Hk | by destruct e | by destruct e | done | | | |].
  - split_and!; [done | rewrite Hc; set_solver | rewrite Hc; set_solver | by rewrite Hc].
  - by rewrite Hob.
  - rewrite Hse. intros Hs. rewrite Hs in Hst. set_solver.
  - rewrite Hse. intros Hs. rewrite Hs in Hst. set_solver.
Qed.

(** ** cancel *)

Lemma cancel_safe path actor g w : wp (cancel_execution app path actor) g Done w.
Proof.
  apply (spec_done _ _ _ _ _ (λ _ _, True)).
  eapply spec_try; [apply load_execution_spec | intros e w1 _ Hk].
  destruct (negb _); [finish|]. skip finished.
  eapply (spec_try (λ _ _, True)); [|intros ob w2 _ _; finish].
  apply checked_spec; [done|]. apply record_transition_spec. intros w2 ob Hw2 Hob. carry.
  destruct Hk as [(e0 & He0 & Hid) (_ & Hlink & _)].
  split; destruct e; simpl in *; [by exists e0 | done | done].
Qed.

(** ** commit *)

Lemma commit_checks_spec g w path actor :
  spec g w (commit_checks app path actor) (λ ec w', knows_execution w' ec.1 ∧
    knows_contract w' ec.1 ec.2 ∧ rc_state ec.2 = RbS_Verified ∧
    verified_event (w_db w') (ex_execution_id ec.1)).
Proof.
  eapply spec_try; [apply load_execution_spec | intros e w1 _ Hk].
  destruct (execution_is_terminal_for_commit _); [apply governance_err_spec|].
  eapply spec_try; [by apply load_contract_spec | intros c w2 ? Hc].
  case_bool_decide as Hv; cbn [negb]; [|apply governance_err_spec].
  destruct (rc_auto_commit c); [apply governance_err_spec|].
  eapply (spec_try (λ evs w', evs ≠ [] → verified_event (w_db w') (ex_execution_id e))).
  - apply checked_spec; [intros; eauto with ferrum|].
    intros w3 Hw3 Hwf. split; [done|]. intros r w4 Hx Hw4 Hwf4 w5 Hw5. split; [done|].
    destruct r as [evs|]; [|done]. intros Hne.
    eapply verified_event_stable; [by trans w4|].
    apply exec_db_cases in Hx as [_ [[_ [m ?]] | [_ [Hr | [m ?]]]]]; [done| |done].
    unfold query in Hr. simpl in Hr. simplify_eq.
    destruct (filter _ _) as [|ev evs] eqn:Hf; [done|].
    assert (ev ∈ ev :: evs) as Hin by left. rewrite <- Hf in Hin.
    apply list_elem_of_filter in Hin as [Hm Hin]. exists ev.
    unfold by_occurred_at in Hin. rewrite sort_desc_perm in Hin.
    apply Is_true_true in Hm. unfold query_matches in Hm. simpl in Hm. destruct_andb.
    repeat match goal with H : bool_decide _ = true |- _ => apply bool_decide_eq_true in H end. done.
  - intros evs w3 ? Hevs. destruct evs as [|ev evs]; cbn [is_empty]; [apply governance_err_spec|].
    apply spec_ok. intros w4 ?. specialize (Hevs ltac:(done)). carry. done.
Qed.

Lemma commit_safe path actor g w : wp (commit_execution app path actor) g Done w.
Proof.
  apply (spec_done _ _ _ _ _ (λ _ _, True)).
  eapply spec_try; [apply commit_checks_spec | intros [e c] w1 _ (Hk & Hc & Hst & Hev)].
  cbn [fst snd] in *.
  eapply (spec_try (λ _ _, True)); [|intros ob w2 _ _; finish].
  apply checked_spec; [done|]. apply record_transition_spec. intros w2 ob Hw2 Hob. carry.
  destruct (rc_set_state_fields RbS_Committed c) as (Hid & Hac & Hs).
  destruct (ex_set_state_fields ES_Committed e) as (Hide & Hl & Hse).
  pose proof Hc as (_ & _ & Hcev & _). pose proof Hcev as (_ & Hex & Hva & _).
  eapply allow_update; [done | done | done | done | done | | by rewrite Hse |].
  - eapply evidence_update; [done | done | by left | | | by rewrite Hs].
    + intros _. apply Hex. rewrite Hst. set_solver.
    + intros _. apply Hva. rewrite Hst. set_solver.
  - intros _. right. by rewrite Hs.
Qed.

(** ** verify *)

(** A call forwarded to an adapter that is not [execute]. *)
Lemma forward_spec {R} g w c (o : op (result R AdapterError)) (Φ : R → World → Prop) :
  quiet_op o → (∀ x w w', evolves w w' → Φ x w → Φ x w') →
  (∀ w1 x w2, exec_op env o w1 = (Ok x, w2) → Φ x w2) →
  spec g w (forward c o) Φ.
Proof.
  intros Ho Hst Hcall. unfold forward. skip registered. destruct registered; simpl negb; [|apply spec_err].
  intros w1 Hw1 _. destruct (quiet_allowed ext o g w1 Ho) as [Ha Hn]. split; [done|].
  intros x w2 Hx _ _ w3 Hw3. rewrite Hn. split; [done|]. destruct x as [x|]; [|done].
  simpl. eapply Hst; [done|]. by eapply Hcall.
Qed.

(** A problem-valued result of the rollback service. *)
Lemma require_call_spec {R} g w route (p : prog (result R string)) (f : string → ApiProblem)
    (Φ : R → World → Prop) {T} (k : R → prog (result T ApiProblem)) Ψ :
  spec g w p Φ → (∀ x w w', evolves w w' → Φ x w → Φ x w') →
  (∀ x w', evolves w w' → Φ x w' → spec g w' (k x) Ψ) →
  spec g w (r <- p ;; x <-? require route (map_err f r) ;; k x) Ψ.
Proof.
  intros Hp Hst Hk. apply wp_bind. eapply wp_mono; [|exact Hp].
  intros g' r w1 Hw1 [-> HΦ]. eapply spec_try; [apply require_spec|].
  intros x w2 Hw2 Hx. destruct r as [x'|]; simpl in Hx; simplify_eq.
  apply Hk; [by trans w1 | eauto].
Qed.

Lemma adapter_verify_spec g w c :
  spec g w (rollback_verify_with_outcome c)
    (λ r w', vor_outcome r = VO_Applied → verified_applied w' (rc_execution_id c)).
Proof.
  apply forward_spec; [done | intros; eauto with ferrum |].
  intros [d caps m l t] r w2 Hx Hr. simpl in Hx. injection Hx as Hx <-.
  exists c, r. split_and!; [|done | done]. apply elem_of_app. right. rewrite Hx. by left.
Qed.

Lemma adapter_compensate_spec g w c :
  spec g w (rollback_compensate c)
    (λ r w', rr_recovered r = true → recovered w' (rc_execution_id c)).
Proof.
  apply forward_spec; [done | intros; eauto with ferrum |].
  intros [d caps m l t] r w2 Hx Hr. simpl in Hx. injection Hx as Hx <-.
  exists c, r. split_and!; [|done | done]. apply elem_of_app. right. rewrite Hx. by left.
Qed.

(** What the load of verify hands to its conclusion. *)
Definition verify_loaded (l : ExecutionRecord * RollbackContract * RollbackContract * VerifyOutcomeReceipt)
    (w : World) : Prop :=
  let '(e, c, u, r) := l in
  knows_execution w e ∧ knows_contract w e c ∧
  verify_allowed (rc_state c) (ex_state e) = true ∧
  contract_identity u = contract_identity c ∧
  (rc_auto_commit u = rc_auto_commit c ∨ rc_auto_commit u = false) ∧
  (vor_outcome r = VO_Applied → verified_applied w (ex_execution_id e)).

Lemma verify_checks_spec g w path actor : spec g w (verify_checks app path actor) verify_loaded.
Proof.
  eapply spec_try; [apply load_execution_spec | intros e w1 _ Hk].
  eapply spec_try; [by apply load_contract_spec | intros c w2 ? Hc].
  destruct (verify_allowed _ _) eqn:Hg; cbn [negb]; [|apply governance_err_spec].
  destruct (verify_contract_fields e c) as (Hid & Hac & _).
  eapply require_call_spec; [apply adapter_verify_spec | cbv beta; eauto with ferrum |].
  intros r w3 Hw3 Hr. apply spec_ok. intros w4 Hw4. carry.
  destruct (rc_insert_metadata_fields "verify_outcome_receipt" (json_of_map (vor_adapter_metadata r))
              (verify_contract e c)) as (Hid' & Hac' & _).
  pose proof Hc as (_ & Hx & _). unfold verify_loaded. rewrite Hid', Hac', Hid, <- Hx.
  split_and!; try done. intros Ho. specialize (Hr Ho). carry.
  unfold contract_identity in Hid. by replace (rc_execution_id c) with (rc_execution_id (verify_contract e c)) by congruence.
Qed.

Lemma verify_allowed_states c e :
  verify_allowed c e = true →
  c = RbS_ExecutedAwaitingVerify ∧ e ≠ ES_Committed ∧ e ≠ ES_Compensated.
Proof. by destruct c, e. Qed.

Lemma verified_execution_fields v c e :
  execution_identity (verified_execution v c e) = execution_identity e ∧
  ex_rollback_contract_id (verified_execution v c e) = ex_rollback_contract_id e ∧
  (ex_state (verified_execution v c e) = ex_state e ∨ ex_state (verified_execution v c e) = ES_Failed ∨
   (ex_state (verified_execution v c e) = ES_Committed ∧ v = true ∧ rc_auto_commit c = true)).
Proof. unfold verified_execution. destruct v, (rc_auto_commit c), e; simpl; auto 8. Qed.

Lemma verify_conclude_spec g w verified e c u r :
  verify_loaded (e, c, u, r) w → (verified = true → vor_outcome r = VO_Applied) →
  spec g w (verify_conclude verified e c u) (λ _ _, True).
Proof.
  intros (Hk & Hc & Hg & Hid & Hac & Hv) Hver.
  destruct (verify_allowed_states _ _ Hg) as (Hst & Hn1 & Hn2).
  set (s := if verified then RbS_Verified else RbS_Failed).
  destruct (rc_set_state_fields s u) as (Hid' & Hac' & Hs').
  destruct (verified_execution_fields verified (rc_set_state s u) e) as (Hide & Hl & Hse).
  eapply (spec_try (λ _ _, True)); [|intros ob w2 _ _; finish].
  apply checked_spec; [done|]. apply record_transition_spec. intros w2 ob Hw2 Hob.
  assert (verified = true → verified_applied w2 (ex_execution_id e)) as Hva by eauto with ferrum.
  carry. pose proof Hc as (_ & Hx & Hcev & _). pose proof Hcev as (_ & Hex & _ & _).
  rewrite <- Hx in Hva.
  eapply allow_update; [done | done | done | done | by rewrite <- Hid | | |].
  - eapply evidence_update; [done | by rewrite <- Hid | by rewrite <- Hac' in Hac | | |]; fold s; rewrite Hs'; unfold s.
    + intros _. apply Hex. rewrite Hst. set_solver.
    + destruct verified; [auto | set_solver].
    + by destruct verified.
  - intros Hcomp. fold s in Hcomp. destruct Hse as [He | [He | [He _]]]; congruence.
  - intros Hcom. fold s in Hcom. destruct Hse as [He | [He | (_ & -> & Ha)]]; [congruence..|].
    by left.
Qed.

(** A transition to RecoveryRequired asks for no evidence. *)
Lemma allow_recovery w e c upd c' ob :
  knows_execution w e → knows_contract w e c → execution_identity upd = execution_identity e →
  ex_rollback_contract_id upd = ex_rollback_contract_id e → ex_state upd = ES_RecoveryRequired →
  contract_identity c' = contract_identity c →
  (rc_auto_commit c' = rc_auto_commit c ∨ rc_auto_commit c' = false) →
  rc_state c' = RbS_RecoveryRequired →
  transition_allowed w upd (Some c') ob.
Proof using.
  clear dependent app.
  intros Hk Hc Hid Hl Hs Hcid Hac Hcs. eapply allow_update; [done..| | by rewrite Hs | by rewrite Hs].
  destruct Hc as (_ & _ & Hev & _).
  eapply evidence_update; [done | done | done | | | by rewrite Hcs]; rewrite Hcs; set_solver.
Qed.

Lemma verify_recovery_spec g w e c u r :
  verify_loaded (e, c, u, r) w → spec g w (verify_recovery e c u) (λ _ _, True).
Proof.
  intros (Hk & Hc & _ & Hid & Hac & _).
  eapply (spec_try (λ _ _, True)); [|intros ob w2 _ _; finish].
  apply checked_spec; [done|]. apply record_transition_spec. intros w2 ob Hw2 Hob. carry.
  destruct (ex_set_state_fields ES_RecoveryRequired e) as (Hide & Hl & Hse).
  eapply allow_recovery; [done..| | |]; destruct u; [done | done | done].
Qed.

Lemma verify_safe path actor g w : wp (verify_execution app path actor) g Done w.
Proof.
  apply (spec_done _ _ _ _ _ (λ _ _, True)).
  eapply spec_try; [apply verify_checks_spec | intros [[[e c] u] r] w1 _ Hl].
  destruct (vor_outcome r) eqn:Ho;
    [by eapply verify_conclude_spec | by eapply verify_conclude_spec | by eapply verify_recovery_spec].
Qed.

(** ** compensate *)

Lemma compensate_checks_spec g w path actor :
  spec g w (compensate_checks app path actor) (λ l w', let '(e, c, r) := l in
    knows_execution w' e ∧ knows_contract w' e c ∧
    (rr_recovered r = true → recovered w' (ex_execution_id e))).
Proof.
  eapply spec_try; [apply load_execution_spec | intros e w1 _ Hk].
  eapply spec_try; [by apply load_contract_spec | intros c w2 ? Hc].
  destruct (compensate_allowed _ _) eqn:Hg; cbn [negb]; [|apply governance_err_spec].
  destruct (enrich_fields c) as (Hid & Hac & Hst).
  set (c' := enrich_http_compensation_if_needed c) in *.
  assert (knows_contract w2 e c') as Hc'.
  { destruct Hc as (Hl & Hx & (H1 & H2 & H3 & H4) & c0 & Hc0 & Hid0).
    unfold knows_contract, contract_evidence. rewrite Hid, Hst, Hac.
    unfold contract_identity in Hid.
    assert (rc_contract_id c' = rc_contract_id c ∧ rc_execution_id c' = rc_execution_id c ∧
            rc_rollback_class c' = rc_rollback_class c) as (-> & -> & ->) by (split_and!; congruence).
    split_and!; try done. by exists c0. }
  eapply require_call_spec; [apply adapter_compensate_spec | cbv beta; eauto with ferrum |].
  intros r w3 Hw3 Hr. apply spec_ok. intros w4 Hw4. carry. split_and!; [done | done |].
  intros Hrec. specialize (Hr Hrec). carry. destruct Hc' as (_ & Hx & _). by rewrite <- Hx.
Qed.

Lemma compensate_safe path actor g w : wp (compensate_execution app path actor) g Done w.
Proof.
  apply (spec_done _ _ _ _ _ (λ _ _, True)).
  eapply spec_try; [apply compensate_checks_spec | intros [[e c] r] w1 _ (Hk & Hc & Hr)].
  skip finished.
  eapply (spec_try (λ _ _, True)); [|intros ob w2 _ _; finish].
  apply checked_spec; [done|]. apply record_transition_spec. intros w2 ob Hw2 Hob.
  assert (rr_recovered r = true → recovered w2 (ex_execution_id e)) as Hr2.
  { intros Hrec. specialize (Hr Hrec). carry. done. }
  carry. destruct (compensated_contract_fields r (from_recovery c e) c) as (Hid & Hac & Hs).
  pose proof Hc as (_ & Hx & Hcev & _).
  eapply allow_update; [done | done | by destruct e | by destruct e | done | | |].
  - eapply evidence_update; [done | done | by left | | |]; rewrite Hs;
      destruct (rr_recovered r) eqn:Hrec, (from_recovery c e); try set_solver; rewrite Hx; auto.
  - destruct e; simpl in *. destruct (rr_recovered r), (from_recovery c _); simpl; try done; auto.
  - destruct e; simpl in *. destruct (rr_recovered r), (from_recovery c _); simpl; done.
Qed.

(** ** The lineage check *)

Lemma find_event_ok events pred label ev :
  find_event events pred label = Ok ev → ev ∈ events ∧ pred ev = true.
Proof.
  unfold find_event. rewrite ok_or_ok. intros [Hin Hp]%find_some. split; [|done].
  rewrite <- in_rev in Hin. by apply list_elem_of_In.
Qed.

Lemma parent_via_edges_ok child events kind type edges p :
  parent_via_edges child events kind type edges = Some p →
  p ∈ events ∧ ev_kind p = kind ∧ same_context child p = true ∧
  ∃ edge, edge ∈ edges ∧ ed_edge_type edge = type ∧ ed_from_event_id edge = ev_event_id p.
Proof.
  induction edges as [|edge edges IH]; simpl; [done|]. intros H.
  assert (parent_via_edges child events kind type edges = Some p →
    p ∈ events ∧ ev_kind p = kind ∧ same_context child p = true ∧
    ∃ edge0, edge0 ∈ edge :: edges ∧ ed_edge_type edge0 = type ∧ ed_from_event_id edge0 = ev_event_id p) as IH'.
  { intros H'. destruct (IH H') as (? & ? & ? & edge0 & ? & ?). split_and!; try done.
    exists edge0. split; [by right | done]. }
  destruct (bool_decide (ed_edge_type edge = type) && _) eqn:Hg; [|by apply IH'].
  destruct (List.find _ events) as [q|] eqn:Hf; [|by apply IH'].
  destruct (bool_decide (ev_kind q = kind) && same_context child q) eqn:Hq; [|by apply IH'].
  simplify_eq. destruct_andb. apply find_some in Hf as [Hin Heq].
  repeat match goal with H : bool_decide _ = true |- _ => apply bool_decide_eq_true in H end.
  apply String.eqb_eq in Heq. split_and!; [by apply list_elem_of_In | done | done |].
  exists edge. split_and!; [by left | done | done].
Qed.

Lemma edges_to_row d id edge :
  edge ∈ edges_to d id →
  {| er_to_event_id := id; er_from_event_id := ed_from_event_id edge;
     er_edge_type := ed_edge_type edge; er_summary := ed_summary edge |} ∈ db_edges d.
Proof.
  unfold edges_to. rewrite list_elem_of_fmap. intros ([to from ty s] & -> & Hin).
  apply list_elem_of_filter in Hin as [Hto Hin]. simpl in *. by subst.
Qed.

Lemma require_parent_spec g w child events kind type label :
  (∀ ev, ev ∈ events → ev ∈ db_events (w_db w)) →
  spec g w (require_parent_event child events kind type label)
    (λ p w', linked_parent (w_db w') child p kind type).
Proof.
  intros Hevs w1 Hw1 _. split; [done|]. intros r w2 Hx Hw2 _ w3 Hw3. split; [done|].
  destruct r as [edges|]; [|done]. destruct (ok_or _ _) as [p|] eqn:Hp; [|done].
  apply ok_or_ok, parent_via_edges_ok in Hp as (Hin & Hk & Hs & edge & Hedge & Ht & Hf).
  eapply linked_parent_stable; [by trans w2|]. split_and!; [|done|done|].
  - apply (evo_events _ _ (evo_db _ _ Hw1)). auto.
  - apply exec_db_cases in Hx as [_ [[_ [m ?]] | [_ [Hr | [m ?]]]]]; [done| |done].
    unfold get_edges_to in Hr. simpl in Hr. simplify_eq. apply edges_to_row in Hedge.
    rewrite Hf in Hedge. by eexists.
Qed.

Lemma check_policy_decision_ok d events e policy :
  (∀ ev, ev ∈ events → ev ∈ db_events d) →
  check_policy_decision events e policy = Ok tt → policy_permits d e policy.
Proof.
  intros Hevs. unfold check_policy_decision, policy_permits.
  destruct (decision_from_policy_event policy) as [[]|]; try done; [by left|].
  destruct (has_approval_granted_for_policy events e policy) eqn:Ha; [|done]. intros _. right.
  split; [done|]. unfold has_approval_granted_for_policy in Ha.
  apply existsb_exists in Ha as (ev & Hin & Hev). destruct_andb.
  repeat match goal with H : bool_decide _ = true |- _ => apply bool_decide_eq_true in H end.
  exists ev. split_and!; [apply Hevs; by apply list_elem_of_In | done | done | done | by apply Z.leb_le].
Qed.

Lemma query_elem d r events :
  fst (query r d) = Ok events → ∀ ev, ev ∈ events → ev ∈ db_events d.
Proof.
  unfold query. simpl. intros ? ev Hin. simplify_eq. apply list_elem_of_filter in Hin as [_ Hin].
  unfold by_occurred_at in Hin. by rewrite sort_desc_perm in Hin.
Qed.

(** A query answers with stored events. *)
Lemma query_call_wp {B} g w r (k : result (list ProvenanceEvent) StoreError → prog B) Q :
  (∀ msg w', evolves w w' → wp (k (Err msg)) g Q w') →
  (∀ events w', evolves w w' → (∀ ev, ev ∈ events → ev ∈ db_events (w_db w')) →
     wp (k (Ok events)) g Q w') →
  wp (bind (call (op_query r)) k) g Q w.
Proof.
  intros He Ho w1 Hw1 _. split; [done|]. intros x w2 Hx Hw2 _.
  destruct x as [events|msg]; [|apply He; by trans w1]. apply Ho; [by trans w1|].
  intros ev Hin. apply (evo_events _ _ (evo_db _ _ Hw2)).
  apply exec_db_cases in Hx as [_ [[_ [m ?]] | [_ [Hr | [m ?]]]]]; [done| |done].
  by eapply query_elem.
Qed.

Lemma check_order_ok a b c d e :
  check_order [a; b; c; d; e] = Ok tt →
  (ev_occurred_at a ≤ ev_occurred_at b ≤ ev_occurred_at c)%Z ∧
  (ev_occurred_at c ≤ ev_occurred_at d ≤ ev_occurred_at e)%Z.
Proof.
  simpl. do 4 (case_match; [done|]). intros _.
  repeat match goal with H : (_ <? _)%Z = false |- _ => apply Z.ltb_ge in H end. lia.
Qed.

Lemma lineage_spec g w e :
  spec g w (validate_minimum_lineage_chain e) (λ _ w', governed_chain (w_db w') e).
Proof.
  apply query_call_wp; [intros; apply spec_err | intros events w1 Hw1 Hevs].
  destruct (find_event _ _ _) as [tool|] eqn:Ht; [|apply spec_err].
  apply find_event_ok in Ht as [Htin Ht]. apply andb_true_iff in Ht as [Htk Hto].
  apply bool_decide_eq_true in Htk.
  assert (∀ w2, evolves w1 w2 → ∀ ev, ev ∈ events → ev ∈ db_events (w_db w2)) as Hevs'.
  { intros w2 Hw2 ev Hin. apply (evo_events _ _ (evo_db _ _ Hw2)). auto. }
  eapply spec_try; [by apply require_parent_spec | intros prepared w2 Hw2 Hp].
  destruct (of_execution e prepared) eqn:Hpo; cbn [negb]; [|apply spec_err].
  eapply spec_try; [by apply require_parent_spec, Hevs' | intros submitted w3 Hw3 Hs].
  destruct (of_execution e submitted) eqn:Hso; cbn [negb]; [|apply spec_err].
  assert (evolves w1 w3) as Hw13 by by etrans.
  eapply spec_try; [by apply require_parent_spec, Hevs' | intros capability w4 Hw4 Hcap].
  destruct (bool_decide (ev_proposal_id capability = _) && _) eqn:Hco; cbn [negb]; [|apply spec_err].
  apply andb_true_iff in Hco as [_ Hci]. apply bool_decide_eq_true in Hci.
  assert (evolves w1 w4) as Hw14 by by etrans.
  eapply spec_try; [by apply require_parent_spec, Hevs' | intros policy w5 Hw5 Hpol].
  case_bool_decide as Hpp; cbn [negb]; [|apply spec_err].
  assert (evolves w1 w5) as Hw15 by by etrans.
  intros w6 Hw6. split; [done|]. cbv beta in *.
  destruct (check_policy_decision _ _ _) as [[]|] eqn:Hpd; [|done].
  destruct (check_order _) as [[]|] eqn:Hord; [|done]. apply check_order_ok in Hord as [Ho1 Ho2].
  eapply (governed_chain_stable w5 w6 Hw6); [done|].
  assert (evolves w2 w5 ∧ evolves w3 w5) as [Hw25 Hw35].
  { split; [trans w3; [done|]|]; trans w4; done. }
  exists policy, capability, submitted, prepared, tool.
  split_and!; eauto using linked_parent_stable, check_policy_decision_ok; lia.
Qed.

(** ** execute *)

(** What execute knows after its loads and guards. *)
Definition execute_loaded (ec : ExecutionRecord * RollbackContract) (w : World) : Prop :=
  let '(e, c) := ec in
  knows_execution w e ∧ knows_contract w e c ∧ contract_bound c e = true ∧
  unsafe_compensation (rc_rollback_class c) (rc_action_type c) = false ∧
  ∃ intent, db_intents (w_db w) !! ex_intent_id e = Some intent ∧
            is_draft_only (in_approval_mode intent) = false.

Lemma execute_loaded_stable ec w w' : evolves w w' → execute_loaded ec w → execute_loaded ec w'.
Proof.
  destruct ec as [e c]. intros Hw (Hk & Hc & Hb & Hu & i & Hi & Hd).
  split_and!; [eauto with ferrum | eauto with ferrum | done | done |]. exists i. split; [|done].
  by destruct (evo_intents _ _ (evo_db _ _ Hw) _ _ Hi) as (? & ? & <-).
Qed.

Lemma execute_load_spec g w path actor : spec g w (execute_load app path actor) execute_loaded.
Proof.
  eapply spec_try; [apply load_execution_spec | intros e w1 _ Hk].
  eapply spec_try; [apply fetch_intent_spec | intros intent w2 ? Hi].
  destruct (is_draft_only _) eqn:Hd; [apply governance_err_spec|].
  carry. eapply spec_try; [by apply load_contract_spec | intros c w3 Hw3 Hc].
  destruct (negb (execute_allowed _ _)); [apply governance_err_spec|].
  destruct (contract_bound c e) eqn:Hb; cbn [negb]; [|apply governance_err_spec].
  destruct (unsafe_compensation _ _) eqn:Hu; [apply governance_err_spec|].
  assert (execute_loaded (e, c) w3); [|apply spec_ok; intros; by eapply execute_loaded_stable].
  carry. split_and!; try done. exists intent. split; [|done].
  by destruct (evo_intents _ _ (evo_db _ _ Hw3) _ _ Hi) as (? & ? & <-).
Qed.

Lemma adapter_payload_ok payload proposal p :
  adapter_payload payload proposal = Ok p →
  p = pr_raw_arguments proposal ∨ json_eqb p (pr_raw_arguments proposal) = true.
Proof. unfold adapter_payload. repeat case_match; intros; simplify_eq; auto. Qed.

Lemma execute_authorize_spec g w e c request :
  execute_loaded (e, c) w →
  spec g w (execute_authorize app e request) (λ payload w', effect_authorized ext w' c payload).
Proof.
  intros Hload. eapply spec_try; [apply fetch_capability_spec | intros lease w1 Hw1 Hl].
  eapply spec_try; [apply fetch_proposal_spec | intros proposal w2 Hw2 Hp].
  eapply spec_try; [apply require_spec | intros [] w3 Hw3 Hbind].
  eapply spec_try; [apply require_spec | intros payload w4 Hw4 Hpay].
  eapply spec_try; [apply require_spec | intros [] w5 Hw5 Hargs].
  eapply (require_call_spec _ _ _ _ _ (λ _ w', governed_chain (w_db w') e));
    [apply lineage_spec | intros; by eapply governed_chain_stable |].
  intros [] w6 Hw6 Hchain. apply spec_ok. intros w7 Hw7. cbv beta in *.
  assert (evolves w1 w7 ∧ evolves w2 w7 ∧ evolves w w7) as (Hw17 & Hw27 & Hw07).
  { assert (evolves w2 w7) by (do 4 (etrans; [done|]); done). split_and!; [by etrans | done |].
    trans w1; [done|]. by trans w2. }
  eapply governed_chain_stable in Hchain; [|exact Hw7 | done].
  eapply execute_loaded_stable in Hload; [|exact Hw07].
  destruct Hload as ([(e0 & He0 & Hid) ((l1 & Hl1 & Hused) & _)] & (_ & Hx & _) & Hb & Hu & intent & Hi & Hd).
  destruct Hl as (l0 & Hl0 & Hterms).
  destruct (evo_capabilities _ _ (evo_db _ _ Hw17) _ _ Hl0) as (l2 & Hl2 & [Ht2 _]).
  assert (l2 = l1) as -> by congruence.
  destruct (evo_proposals _ _ (evo_db _ _ Hw27) _ _ Hp) as (p' & Hp' & <-).
  pose proof (governed_chain_stable w7 w7 ltac:(done) e e0 Hid Hchain) as Hchain0.
  exists e0, proposal, l1, intent. apply adapter_payload_ok in Hpay.
  unfold execution_identity in Hid. unfold lease_terms in Ht2, Hterms.
  destruct (validate_capability_proposal_binding lease proposal) as [[]|] eqn:Hbind'; [|done].
  destruct (validate_argument_constraints _ _ (cl_argument_constraints lease)) as [[]|] eqn:Hargs'; [|done].
  unfold contract_bound, validate_capability_proposal_binding in *. rewrite Hx.
  assert (cl_argument_constraints l1 = cl_argument_constraints lease) as -> by congruence.
  assert (cl_proposal_id l1 = cl_proposal_id lease) as -> by congruence.
  assert (cl_intent_id l1 = cl_intent_id lease) as -> by congruence.
  assert (cl_tool_binding l1 = cl_tool_binding lease) as -> by congruence.
  assert (ex_execution_id e0 = ex_execution_id e) as -> by congruence.
  assert (ex_intent_id e0 = ex_intent_id e) as -> by congruence.
  assert (ex_proposal_id e0 = ex_proposal_id e) as -> by congruence.
  assert (ex_capability_id e0 = ex_capability_id e) as -> by congruence.
  rewrite Hx in Hb. split_and!; done.
Qed.

Lemma wp_try {T T' E} g w (p : prog (result T E)) (k : T → prog (result T' E)) Φ :
  spec g w p Φ → (∀ x w', evolves w w' → Φ x w' → wp (k x) g Done w') →
  wp (bind p (λ r, match r with Ok x => k x | Err e => Ret (Err e) end)) g Done w.
Proof.
  intros Hp Hk. apply wp_bind. eapply wp_mono; [|exact Hp].
  intros g' [x|e] w' Hw' [-> HΦ]; [by apply Hk | by intros w'' _].
Qed.

Lemma execute_recovery_spec g w e c payload :
  knows_execution w e → knows_contract w e c →
  spec g w (execute_recovery e c payload) (λ _ _, True).
Proof.
  intros Hk Hc. eapply (spec_try (λ _ _, True)); [|intros ob w2 _ _; finish].
  apply checked_spec; [done|]. apply record_transition_spec. intros w2 ob Hw2 Hob. carry.
  destruct (ex_set_state_fields ES_RecoveryRequired e) as (Hide & Hl & Hse).
  eapply allow_recovery; [done..| | |]; destruct c; [done | by left | done].
Qed.

Lemma execute_success_spec g w e c payload receipt :
  knows_execution w e → knows_contract w e c → executed w (rc_execution_id c) →
  spec g w (execute_success e c payload receipt) (λ _ _, True).
Proof.
  intros Hk Hc Hx. eapply (spec_try (λ _ _, True)); [|intros ob w2 _ _; finish].
  apply checked_spec; [done|]. apply record_transition_spec. intros w2 ob Hw2 Hob. carry.
  destruct (contract_after_execute_fields receipt payload c) as (Hid & Hac & Hs).
  pose proof Hc as (_ & _ & Hcev & _).
  eapply allow_update; [done | done | by destruct e | by destruct e | done | | by destruct e | by destruct e].
  eapply evidence_update; [done | done | by left | done | | by rewrite Hs]. rewrite Hs. set_solver.
Qed.

(** The claim: without an error the handler holds the permit of the execution. *)
Lemma execute_claim_wp g w id :
  wp (execute_claim id) g (λ g' r _, match r with Ok _ => g' = Some id | Err _ => True end) w.
Proof.
  intros w1 _ _. split; [by left|]. intros r w2 _ _ _.
  assert (∀ g e, wp (governance_err (R := unit) GR_ExecutionsExecute e) g
            (λ g' r _, match r with Ok _ => g' = Some id | Err _ => True end) w2) as Herr.
  { intros g' e w3 _ _. split; [done|]. by intros x w4 _ _ _ w5 _. }
  destruct r as [[]|]; [by intros w3 _ | apply Herr | apply Herr].
Qed.

(** The adapter call spends the permit and leaves its trace in the log. *)
Lemma rollback_execute_wp w c payload :
  effect_authorized ext w c payload →
  wp (rollback_execute c payload) (Some (rc_execution_id c))
    (λ _ r w', match r with Ok _ => executed w' (rc_execution_id c) | Err _ => True end) w.
Proof.
  intros Heff. unfold rollback_execute, forward. skip registered.
  destruct registered; cbn [negb]; [|by intros w3 _].
  intros w1 Hw1 _. carry. split; [done|].
  intros r w2 Hx _ _ w3 Hw3. destruct r as [r|]; [|done]. simpl.
  eapply executed_stable; [done|]. destruct w1 as [d caps m l t]. simpl in Hx. injection Hx as Hx <-.
  exists c, payload, r. split; [|done]. apply elem_of_app. right. rewrite Hx. by left.
Qed.

Lemma execute_safe path actor payload w : wp (execute_execution app path actor payload) None Done w.
Proof.
  eapply wp_try; [apply execute_load_spec | intros [e c] w1 _ Hload].
  eapply wp_try; [by apply execute_authorize_spec | intros p w2 Hw2 Heff].
  eapply execute_loaded_stable in Hload; [|exact Hw2]. destruct Hload as (Hk & Hc & _).
  apply wp_bind. eapply wp_mono; [|apply execute_claim_wp].
  intros g' [[]|err] w3 Hw3; [intros -> | by intros _ w4 _]. carry.
  pose proof Hc as (_ & Hx & _). rewrite <- Hx.
  apply wp_bind. eapply wp_mono; [|by apply rollback_execute_wp].
  intros g'' r w4 Hw4 Hr. cbv beta in Hr. carry. destruct r as [receipt|err].
  - eapply spec_done. by apply execute_success_spec.
  - eapply spec_done. by apply execute_recovery_spec.
Qed.
End safety.
