(* ===== verification/BackgroundSafety.v ===== *)
(** * The background tasks follow the discipline

    The high-availability pass cancels only executions that were never dispatched
    and moves a running one to recovery together with its contract; the approval
    tasks touch no lifecycle row. *)

From stdpp Require Import sorting.
From S2P Require Import Prelude Json Proto Transitions CapService Store Adapter Effects Pdp.
From S2P Require Import RollbackSvc Validation Provenance CapBackend Lifecycle Handlers Background.
From S2P Require Import StoreFacts Evolution Discipline Logic HandlerSafety.

(** ** Quiet parts *)

Lemma emit_ha_reconciler_provenance_quiet e s t : quiet_prog (emit_ha_reconciler_provenance e s t).
Proof. unfold emit_ha_reconciler_provenance. solve_quiet_prog. Qed.
Lemma add_if_positive_quiet m n : quiet_prog (add_if_positive m n).
Proof. by destruct n. Qed.
#[export] Hint Resolve emit_ha_reconciler_provenance_quiet add_if_positive_quiet : quiet.

Lemma resolve_approval_prog_quiet id s now : quiet_prog (resolve_approval id s now).
Proof. unfold resolve_approval. solve_quiet_prog. Qed.

Lemma expire_rows_quiet rows expired : quiet_prog (expire_rows rows expired).
Proof.
  revert expired. induction rows as [|[id a] rows IH]; intros expired; [done|].
  split; [done|]. intros [u|e]; [apply IH | done].
Qed.
Lemma announce_expired_quiet expired : quiet_prog (announce_expired expired).
Proof.
  induction expired as [|a expired IH]; [done|]. split; [done|]. intros u.
  apply quiet_bind; [unfold emit_approval_timed_out_provenance; solve_quiet_prog | by intros].
Qed.
#[export] Hint Resolve expire_rows_quiet announce_expired_quiet : quiet.

Lemma approval_timeout_pass_quiet app : quiet_prog (approval_timeout_pass app).
Proof.
  unfold approval_timeout_pass, reconcile_approval_timeouts_once, expire_stale_pending.
  solve_quiet_prog.
Qed.

(** ** The high-availability pass *)

Section ha.
Context (app : App) (env : Env).
Abbreviation ext := (app_ext app).
Abbreviation spec := (Logic.spec ext env).
Abbreviation wp := (Logic.wp ext env).

Lemma listed_is_stored before states limit d e :
  e ∈ match fst (list_stale_in_flight before states limit d) with Ok l => l | Err _ => [] end →
  ∃ id, db_executions d !! id = Some e.
Proof.
  simpl. intros Hin. apply elem_of_take in Hin as (i & Hin & _). apply list_elem_of_lookup_2 in Hin.
  rewrite merge_sort_Permutation in Hin. apply list_elem_of_filter in Hin as [_ Hin].
  apply list_elem_of_fmap in Hin as ([id e'] & -> & Hin). apply elem_of_map_to_list in Hin. eauto.
Qed.

(** A listed execution is known. *)
Lemma list_stale_wp {A} before states limit (k : result (list ExecutionRecord) StoreError → prog A) g Q w :
  (∀ r w', evolves w w' →
     (∀ l e, r = Ok l → e ∈ l → knows_execution w' e) → wp (k r) g Q w') →
  wp (bind (call (op_list_stale before states limit)) k) g Q w.
Proof.
  intros Hk w1 Hw1 [gs Hinv]. split; [done|]. intros r w2 Hx Hw2 _. apply Hk; [by etrans|].
  intros l e -> Hin. simpl in Hx. eapply knows_execution_stable; [exact Hw2|].
  apply exec_db_cases in Hx as [_ [[_ [m Hm]] | [_ [Hr | [m Hm]]]]]; [done| |done].
  destruct (listed_is_stored before states limit (w_db w1) e) as [id He]; [by rewrite <- Hr|].
  destruct (inv_executions _ _ _ Hinv _ _ He) as (Hid & Hev & _).
  split; [|done]. exists e. by rewrite Hid.
Qed.

Lemma ha_recover_spec g w e c t :
  knows_execution w e → knows_contract w e c → spec g w (ha_recover e c t) (λ _ _, True).
Proof.
  intros Hk Hc. eapply (spec_try (λ _ _, True)); [|intros ob w2 _ _; eapply quiet_spec; solve_quiet_prog].
  apply record_transition_spec. intros w2 ob Hw2 Hob.
  apply (knows_execution_stable _ _ _ Hw2) in Hk. apply (knows_contract_stable _ _ _ _ Hw2) in Hc.
  destruct (ex_set_state_fields ES_RecoveryRequired e) as (Hide & Hl & Hse).
  eapply allow_recovery; [done..| | |]; destruct c; [done | by left | done].
Qed.

Lemma pair_spec g w e t :
  knows_execution w e → spec g w (reconcile_running_prepared_pair e t) (λ _ _, True).
Proof.
  intros Hk. unfold reconcile_running_prepared_pair.
  destruct (ex_rollback_contract_id e) as [cid|] eqn:Hl; [|by apply spec_ok].
  intros w1 Hw1 [gs Hinv]. split; [done|]. intros r w2 Hx Hw2 _.
  destruct r as [[c|]|err]; [|by apply spec_ok | by apply spec_err].
  cbn [next call bind]. destruct (bool_decide (rc_state c = RbS_Prepared)); [|by apply spec_ok]. apply sql_get_read in Hx.
  apply ha_recover_spec; [eapply knows_execution_stable; [by trans w1 | done]|].
  eapply knows_contract_stable; [exact Hw2|].
  destruct (knows_execution_stable _ _ _ Hw1 Hk) as [_ (_ & Hlink & _)].
  destruct (Hlink _ Hl) as (c0 & Hc0 & Hxid). assert (c0 = c) as -> by congruence.
  destruct (inv_contracts _ _ _ Hinv _ _ Hx) as [Hid Hev]. subst cid.
  split_and!; [done | done | done |]. by exists c.
Qed.

(** The permit is kept: a pass never claims an execution for dispatch. *)
Abbreviation keeps g := (λ (g' : Permit) (_ : HaReport) (_ : World), g' = g).

Lemma ha_reconcile_one_wp g w t report e :
  knows_execution w e → wp (ha_reconcile_one t report e) g (keeps g) w.
Proof.
  intros Hk. destruct report as [c r n]. unfold ha_reconcile_one.
  case_bool_decide as Hrun.
  { apply wp_bind. eapply wp_mono; [|by apply pair_spec].
    intros g' res w1 _ [-> _]. by destruct res as [[]|]; intros w2 _. }
  unfold target_state_for. case_bool_decide as Hpre; [|by intros w1 _].
  intros w1 _ _. split.
  { right. split; [|done]. apply Forall_singleton. unfold PRE_SIDE_EFFECT_STATES in Hpre.
    rewrite !elem_of_cons, elem_of_nil in Hpre.
    by destruct Hpre as [-> | [-> | [-> | [-> | []]]]]. }
  intros res w2 _ _ _. destruct res as [[]|]; cbn [next bind]; [|by intros w3 _..].
  apply wp_quiet_bind; [solve_quiet_prog | intros u w3 _]. by intros w4 _.
Qed.

Lemma ha_reconcile_all_wp g w t report es :
  (∀ e, e ∈ es → knows_execution w e) → wp (ha_reconcile_all t report es) g (keeps g) w.
Proof.
  revert w report. induction es as [|e es IH]; intros w report Hes; [by intros w1 _|].
  apply wp_bind. eapply wp_mono; [|apply ha_reconcile_one_wp, Hes; by left].
  intros g' report' w1 Hw1 ->. apply IH. intros e' He'. eapply knows_execution_stable; [exact Hw1|].
  apply Hes. by right.
Qed.

Lemma ha_pass_safe g w : wp (run_ha_reconciler_pass app) g (λ _ _ _, True) w.
Proof.
  apply wp_quiet_bind; [solve_quiet_prog | intros now w1 _]. apply list_stale_wp.
  intros [es|err] w2 _ Hes.
  - apply wp_bind. eapply wp_mono; [|apply ha_reconcile_all_wp; by eauto].
    intros g' report w3 _ ->.
    do 3 (apply wp_quiet_bind; [solve_quiet_prog | intros ? ? _]). by intros w7 _.
  - apply wp_quiet_bind; [solve_quiet_prog | intros u w3 _]. by intros w4 _.
Qed.
End ha.

(** ** What a pass does to the executions *)

Section pass.
Context (app : App) (env : Env) (stale_before : Timestamp).

(** [e] was still in flight and started before the threshold. *)
Definition stale (e : ExecutionRecord) : Prop :=
  (ex_started_at e < stale_before)%Z ∧ ex_finished_at e = None.

(** What may become of a row. *)
Definition reaped (e e' : ExecutionRecord) : Prop :=
  e' = e ∨
  (stale e ∧ ex_state e ∈ PRE_SIDE_EFFECT_STATES ∧
   ∃ t, e' = ex_set_finished_at (Some t) (ex_set_state ES_Canceled e)) ∨
  (stale e ∧ ex_state e = ES_Running ∧ e' = ex_set_state ES_RecoveryRequired e).

Definition moves (d d' : Db) : Prop :=
  ∀ id, option_Forall2 reaped (db_executions d !! id) (db_executions d' !! id).

#[local] Instance reaped_refl : Reflexive reaped.
Proof. by left. Qed.
#[local] Instance moves_refl : Reflexive moves.
Proof. intros d id. reflexivity. Qed.

(** Only a row that is as it was at the start is in one of the states a pass acts on. *)
Lemma reaped_actable e e' :
  reaped e e' → ex_state e' ∈ PRE_SIDE_EFFECT_STATES ++ [ES_Running] → e' = e.
Proof.
  intros [?|[(_ & _ & t & ->)|(_ & _ & ->)]] Hin; [done| |]; destruct e; simpl in Hin;
    unfold PRE_SIDE_EFFECT_STATES in Hin; set_solver.
Qed.

Context (d0 : Db) (Hkeyed : ∀ id e, db_executions d0 !! id = Some e → ex_execution_id e = id).

(** Run from a database that [d0] can move to, [p] ends in one. *)
Definition within {A} (p : prog A) : Prop :=
  ∀ w, moves d0 (w_db w) → moves d0 (w_db (run env p w).2).

Lemma within_bind {A B} (p : prog A) (f : A → prog B) :
  within p → (∀ a, within (f a)) → within (bind p f).
Proof.
  intros Hp Hf w Hw. rewrite run_bind. specialize (Hp w Hw).
  destruct (run env p w) as [a w']. by apply Hf.
Qed.

Lemma within_quiet {A} (p : prog A) : quiet_prog p → within p.
Proof.
  intros Hp w Hw id. destruct (quiet_run env p w Hp) as [[_ Heq _] _]. rewrite Heq. apply Hw.
Qed.

Lemma within_db {A} (o : op (result A StoreError)) (s : World → stmt A) :
  (∀ w, exec_op env o w = exec_db env (s w) w) →
  (∀ w d, moves d0 d → moves d0 (after (s w) d)) → within (call o).
Proof.
  intros Ho Hs w Hw. simpl. rewrite Ho. destruct (exec_db env (s w) w) as [r w'] eqn:Hx.
  simpl.
  apply exec_db_cases in Hx as [_ [[-> _] | [-> _]]]; auto.
Qed.

(** One row moves. *)
Lemma moves_insert d d' id e1 e' :
  moves d0 d → db_executions d !! id = Some e1 →
  ex_state e1 ∈ PRE_SIDE_EFFECT_STATES ++ [ES_Running] → reaped e1 e' →
  db_executions d' = <[id := e']> (db_executions d) → moves d0 d'.
Proof.
  intros Hd He1 Hin Hr Heq id'. rewrite Heq. destruct (decide (id' = id)) as [->|Hne];
    [|rewrite lookup_insert_ne by done; apply Hd].
  rewrite lookup_insert_eq. specialize (Hd id). rewrite He1 in Hd. inversion Hd as [e ? He|]; subst.
  apply reaped_actable in He as ->; [|done]. by constructor.
Qed.

Lemma moves_row d id e1 :
  moves d0 d → db_executions d !! id = Some e1 →
  ex_state e1 ∈ PRE_SIDE_EFFECT_STATES ++ [ES_Running] → db_executions d0 !! id = Some e1.
Proof.
  intros Hd He1 Hin. specialize (Hd id). rewrite He1 in Hd. inversion Hd as [e ? He|]; subst.
  by apply reaped_actable in He as ->.
Qed.

(** The cancellation of a listed execution. *)
Lemma within_cancel e :
  db_executions d0 !! ex_execution_id e = Some e → stale e → ex_state e ∈ PRE_SIDE_EFFECT_STATES →
  within (call (op_cas_state (ex_execution_id e) [ex_state e] ES_Canceled)).
Proof.
  intros He Hst Hpre. eapply within_db; [by intros|]. intros w d Hd. cbv beta.
  destruct (compare_and_set_state _ _ _ _ d) as [r d'] eqn:Hs. simpl.
  assert (r = Ok true ∨ r ≠ Ok true) as [-> | Hne] by (destruct r as [[]|]; auto);
    [|by rewrite (compare_and_set_not _ _ _ _ _ _ _ Hs Hne)].
  unfold compare_and_set_state in Hs. destruct (db_executions d !! _) as [e1|] eqn:He1; [|done].
  case_bool_decide as Hin; [|done]. apply list_elem_of_singleton in Hin. simpl in Hs. simplify_eq.
  assert (ex_state e1 ∈ PRE_SIDE_EFFECT_STATES ++ [ES_Running]) as Hact by (rewrite Hin; set_solver).
  pose proof (moves_row _ _ _ Hd He1 Hact) as H1. assert (e1 = e) as -> by congruence.
  eapply moves_insert; [done | done | done | | by destruct d]. right; left. eauto.
Qed.

(** The recovery of a listed execution. *)
Lemma within_recover e c t :
  db_executions d0 !! ex_execution_id e = Some e → stale e → ex_state e = ES_Running →
  within (ha_recover e c t).
Proof.
  intros He Hst Hrun. apply within_bind; [|intros [ob|]; apply within_quiet; solve_quiet_prog].
  do 2 (apply within_bind; [by apply within_quiet | intros ?]).
  apply within_bind; [|intros [[]|]; by apply within_quiet].
  eapply within_db; [by intros|]. intros w d Hd. cbv beta.
  match goal with |- moves d0 (after (record_lifecycle_transition ?u ?v ?ob) d) => set (rec := ob) end.
  destruct (record_lifecycle_transition _ _ rec d) as [[[]|err] d'] eqn:Hs; simpl;
    [|by apply record_transition_err in Hs as ->].
  apply record_transition_done in Hs as [(e1 & He1 & Hp & _) Hex _ _ _ _].
  assert (ex_state e1 = ES_Running) as Hr1.
  { unfold rec, transition_outbox in Hp. simpl in Hp. congruence. }
  destruct (ex_set_state_fields ES_RecoveryRequired e) as (Hid & _ & _).
  assert (ex_execution_id (ex_set_state ES_RecoveryRequired e) = ex_execution_id e) as Heq by by destruct e.
  rewrite Heq in *.
  assert (ex_state e1 ∈ PRE_SIDE_EFFECT_STATES ++ [ES_Running]) as Hact by (rewrite Hr1; set_solver).
  pose proof (moves_row _ _ _ Hd He1 Hact) as H1. assert (e1 = e) as -> by congruence.
  eapply moves_insert; [done | done | done | | done]. by right; right.
Qed.

(** What the pass acts on. *)
Definition listed (e : ExecutionRecord) : Prop :=
  db_executions d0 !! ex_execution_id e = Some e ∧ stale e.

Lemma within_one t report e : listed e → within (ha_reconcile_one t report e).
Proof.
  intros [He Hst]. destruct report as [c r n]. unfold ha_reconcile_one.
  case_bool_decide as Hrun.
  { apply within_bind; [|intros [[]|]; by apply within_quiet].
    unfold reconcile_running_prepared_pair. destruct (ex_rollback_contract_id e); [|by apply within_quiet].
    apply within_bind; [by apply within_quiet|]. intros [[contract|]|]; [|by apply within_quiet..].
    case_bool_decide; [by apply within_recover | by apply within_quiet]. }
  unfold target_state_for. case_bool_decide as Hpre; [|by apply within_quiet].
  apply within_bind; [by apply within_cancel|].
  intros [[]|]; apply within_quiet; solve_quiet_prog.
Qed.

Lemma within_all t report es : (∀ e, e ∈ es → listed e) → within (ha_reconcile_all t report es).
Proof.
  revert report. induction es as [|e es IH]; intros report Hes; [by apply within_quiet|].
  apply within_bind; [apply within_one, Hes; by left|]. intros report'. apply IH.
  intros e' He'. apply Hes. by right.
Qed.

Lemma list_stale_listed states limit es d' :
  list_stale_in_flight stale_before states limit d0 = (Ok es, d') → ∀ e, e ∈ es → listed e.
Proof using Hkeyed.
  intros Hl e Hin. unfold list_stale_in_flight in Hl. simplify_eq.
  apply elem_of_take in Hin as (i & Hin & _). apply list_elem_of_lookup_2 in Hin.
  rewrite merge_sort_Permutation in Hin. apply list_elem_of_filter in Hin as [Hf Hin].
  apply Is_true_true in Hf. destruct_andb.
  repeat match goal with H : bool_decide _ = true |- _ => apply bool_decide_eq_true in H end.
  apply list_elem_of_fmap in Hin as ([id e'] & -> & Hin). apply elem_of_map_to_list in Hin. simpl in *.
  split; [by rewrite (Hkeyed _ _ Hin)|]. split; [by apply Z.ltb_lt | done].
Qed.
End pass.

(** a background pass that runs alone touches only executions that are still
    unfinished and started before the configured threshold: one that had no side
    effect yet may be canceled (and gets its finish time), a running one may be moved
    to recovery, with nothing else of the record changed; every other execution is
    left as it is, none is added or removed, whatever fails on the way. *)
Theorem ha_pass_touches_only_stale app env w :
  (∀ id e, db_executions (w_db w) !! id = Some e → ex_execution_id e = id) →
  moves (env_clock env (w_tick w) - seconds (cfg_ha_reconciler_stale_threshold_secs (app_config app)))
    (w_db w) (w_db (run env (run_ha_reconciler_pass app) w).2).
Proof.
  intros Hk. set (before := (_ - _)%Z). unfold run_ha_reconciler_pass.
  assert (∀ d, moves before d d) as Hrefl by (intros d id; by destruct (_ !! id); constructor; left).
  destruct w as [d caps m l t]. rewrite run_bind. cbn [run call exec_op exec_pure w_tick].
  change (env_clock env t - _)%Z with before. rewrite run_bind. cbn [run call exec_op].
  destruct (exec_db env _ _) as [r w'] eqn:Hx.
  apply exec_db_cases in Hx as [_ [[Hd [msg ->]] | [Hd Hr]]]; cbn [w_db] in *.
  { apply (within_quiet env before d); [solve_quiet_prog | by rewrite Hd]. }
  assert (w_db w' = d) as Hd' by by rewrite Hd.
  destruct r as [es|]; [|apply (within_quiet env before d); [solve_quiet_prog | by rewrite Hd']].
  destruct Hr as [Hr|[? ?]]; [|done].
  apply (within_bind env before d); [|intros report; apply within_quiet; solve_quiet_prog | by rewrite Hd'].
  apply within_all; [done|]. eapply (list_stale_listed before d Hk).
  rewrite (surjective_pairing (list_stale_in_flight _ _ _ d)). by rewrite <- Hr.
Qed.
