(* ===== verification/GovernanceSafety.v ===== *)
(** * The capability handlers follow the discipline

    Minting touches no lifecycle row.  A revocation overwrites the stored lease when
    the capability service misses it; with a store-backed service the lease it
    writes has the terms of the stored one.

    The second part does the same for the handlers of governance: intents, proposals,
    approvals, quarantine holds and policy bundles. *)

From S2P Require Import Prelude Json Proto Admin Behavioral Transitions Pdp CapService Store Adapter Effects.
From S2P Require Import CapBackend Validation RollbackSvc Provenance Lifecycle Mfa Capabilities Proposals Handlers Background Quarantine.
From S2P Require Import Policies StoreFacts Evolution Discipline Logic HandlerSafety.

Lemma latest_policy_decision_quiet pid iid : quiet_prog (latest_policy_decision_for_proposal pid iid).
Proof. unfold latest_policy_decision_for_proposal. solve_quiet_prog. Qed.
Lemma validate_quarantine_hold_quiet pid : quiet_prog (validate_quarantine_hold_for_proposal pid).
Proof. unfold validate_quarantine_hold_for_proposal. solve_quiet_prog. Qed.
#[export] Hint Resolve latest_policy_decision_quiet validate_quarantine_hold_quiet : quiet.
Lemma mint_permitted_quiet app r d : quiet_prog (mint_permitted app r d).
Proof. unfold mint_permitted. solve_quiet_prog. Qed.
Lemma mint_with_owner_quiet r owner : quiet_prog (mint_capability_with_owner r owner).
Proof. unfold mint_capability_with_owner. solve_quiet_prog. Qed.
#[export] Hint Resolve mint_permitted_quiet mint_with_owner_quiet : quiet.
Lemma mint_checks_quiet app r : quiet_prog (mint_checks app r).
Proof. unfold mint_checks, guarded_by. solve_quiet_prog. Qed.
#[export] Hint Resolve mint_checks_quiet : quiet.

Lemma mint_capability_quiet app actor r : quiet_prog (mint_capability app actor r).
Proof. unfold mint_capability. solve_quiet_prog. Qed.

Section revoke.
Context (app : App) (env : Env) `{!QuietBackend (app_cap app)}.
Abbreviation spec := (Logic.spec (app_ext app) env).
Abbreviation wp := (Logic.wp (app_ext app) env).

(** [l] is stored under [id], at least with these terms. *)
Definition knows_lease (w : World) (id : CapabilityId) (l : CapabilityLease) : Prop :=
  cl_capability_id l = id ∧
  ∃ l0, db_capabilities (w_db w) !! id = Some l0 ∧ lease_terms l0 = lease_terms l.

Lemma knows_lease_stable w w' id l : evolves w w' → knows_lease w id l → knows_lease w' id l.
Proof using.
  intros Hev (Hid & l0 & Hl0 & Ht). split; [done|].
  destruct (evo_capabilities _ _ (evo_db _ _ Hev) _ _ Hl0) as (l1 & Hl1 & [Ht1 _]).
  exists l1. split; [done | congruence].
Qed.

Lemma fetch_lease_spec g w route id missing :
  spec g w (fetch route (op_get_capability id) missing) (λ l w', knows_lease w' id l).
Proof using.
  apply fetch_spec; [done | intros l w1 w2; apply knows_lease_stable|].
  intros w1 l w2 _ [gs Hinv] Hx. apply sql_get_read in Hx.
  split; [by eapply (inv_leases _ _ _ Hinv)|]. by exists l.
Qed.

Lemma revoke_stored_spec g w id : spec g w (revoke_stored id) (λ _ _, True).
Proof using.
  eapply spec_try; [apply fetch_lease_spec|]. intros l w1 _ Hl.
  assert (∀ w', evolves w1 w' → spec g w' (
    now <- call op_now ;;
    if (cl_expires_at l <? now)%Z then governance_err GR_CapabilitiesRevoke (from_capability CE_Expired)
    else
      revoked_at <- call op_now ;;
      let lease := revoked_lease revoked_at l in
      _ <-? checked GR_CapabilitiesRevoke (call (op_update_capability lease)) ;;
      Ret (Ok lease)) (λ _ _, True)) as Hlive.
  { intros w' Hw'. apply wp_quiet_bind; [solve_quiet_prog|]. intros now w2 Hw2.
    destruct (_ <? _)%Z; [eapply quiet_spec; solve_quiet_prog|].
    apply wp_quiet_bind; [solve_quiet_prog|]. intros t w3 Hw3.
    eapply (spec_try (λ _ _, True)); [|intros [] w4 _ _; by apply spec_ok].
    intros w4 Hw4 _. split.
    - split; [done|]. destruct (knows_lease_stable w1 w4 id l) as (Hid & l0 & Hl0 & Ht);
        [by repeat (etrans; [eassumption|]) | done |].
      exists l0. cbn. by rewrite Hid.
    - intros r w5 _ _ _. cbn [next bind call]. destruct r; [by apply spec_ok|].
      eapply quiet_spec. solve_quiet_prog. }
  destruct (cl_status l); try (by apply Hlive); eapply quiet_spec; solve_quiet_prog.
Qed.

Context (Hstore : cb_is_store_backed (app_cap app) = true).

Lemma revoke_lease_spec g w id : spec g w (revoke_lease app id) (λ x _, x.2 = false).
Proof using All.
  apply wp_quiet_bind; [apply qb_revoke|]. intros [l|e] w1 _.
  { apply spec_ok. intros. cbn. by rewrite Hstore. }
  assert (spec g w1 (governance_err GR_CapabilitiesRevoke (from_capability e))
    (λ (x : CapabilityLease * bool) _, x.2 = false)) as Herr.
  { apply governance_err_spec. }
  destruct e; try exact Herr. eapply spec_try; [apply revoke_stored_spec|].
  intros l w2 _ _. by apply spec_ok.
Qed.

Lemma revoke_capability_safe path actor w : wp (revoke_capability app path actor) None Done w.
Proof using All.
  eapply (spec_done _ _ _ _ _ (λ _ _, True)).
  eapply (spec_try (λ _ _, True)); [eapply quiet_spec; solve_quiet_prog | intros id w1 _ _].
  eapply (spec_try (λ _ _, True)); [eapply quiet_spec; solve_quiet_prog | intros stored w2 _ _].
  apply wp_quiet_bind; [solve_quiet_prog|]. intros now w3 _.
  eapply (spec_try (λ _ _, True)); [eapply quiet_spec; solve_quiet_prog | intros [] w4 _ _].
  eapply spec_try; [apply revoke_lease_spec|]. intros [l persist] w5 _ Hp. cbn in Hp. subst persist.
  eapply quiet_spec. solve_quiet_prog.
Qed.
End revoke.

(** * The other handlers of the gateway leave executions alone

    Compiling intents, evaluating proposals, resolving approvals and quarantine holds,
    their timeouts, and managing policy bundles issue no operation that the discipline
    of executions restricts: they may run at any time, in any number, beside the
    execution handlers. *)


Lemma guarded_by_quiet {T} route (p : prog (result T ApiProblem)) :
  quiet_prog p → quiet_prog (guarded_by route p).
Proof. intros Hp. unfold guarded_by. solve_quiet_prog; done. Qed.
Lemma uncounted_quiet {T} (p : prog (result T StoreError)) : quiet_prog p → quiet_prog (uncounted p).
Proof. intros Hp. unfold uncounted. solve_quiet_prog; done. Qed.
#[export] Hint Extern 1 (quiet_prog (guarded_by _ _)) => apply guarded_by_quiet : quiet.
#[export] Hint Extern 1 (quiet_prog (uncounted _)) => apply uncounted_quiet : quiet.

(** ** Second factors *)

Lemma record_totp_failure_quiet agent r m dur : quiet_prog (record_totp_failure agent r m dur).
Proof.
  unfold record_totp_failure, record_agent_failed_attempt, record_failed_attempt, retry_secs. solve_quiet_prog.
Qed.
#[export] Hint Resolve record_totp_failure_quiet : quiet.

Lemma consume_code_quiet app key id r code : quiet_prog (consume_code app key id r code).
Proof.
  unfold consume_code, verify_totp_with_lockout, check_agent_mfa_lockout, check_factor_lockout, record_use,
    reset_mfa_lockout_after_success. solve_quiet_prog.
Qed.
#[export] Hint Resolve consume_code_quiet : quiet.

Lemma verify_factor_quiet app factor actor :
  quiet_prog (verify_approval_mfa app factor actor) ∧ quiet_prog (verify_mfa_factor app factor actor).
Proof.
  unfold verify_approval_mfa, verify_mfa_factor, agent_unlocked, check_agent_mfa_lockout, active_factor.
  split; solve_quiet_prog.
Qed.
Lemma second_factor_quiet app (check : prog (result unit ApiProblem)) :
  quiet_prog check → quiet_prog (second_factor app check).
Proof. intros H. unfold second_factor. by case_match. Qed.

(** ** Intents and proposals *)

Lemma compile_intent_quiet app actor req : quiet_prog (compile_intent app actor req).
Proof. unfold compile_intent. solve_quiet_prog. Qed.

Lemma active_bundles_quiet i p t : quiet_prog (evaluate_active_policy_bundles i p t).
Proof. unfold evaluate_active_policy_bundles. solve_quiet_prog. Qed.
#[export] Hint Resolve active_bundles_quiet : quiet.

Lemma evaluate_proposal_quiet app p : quiet_prog (evaluate_proposal app p).
Proof.
  unfold evaluate_proposal, intent_of_proposal, minimal_intent_for, evaluate_proposal_decision, inspect_proposal,
    report_anomaly, record_evaluation, create_quarantine_hold. solve_quiet_prog.
Qed.

(** ** Approvals and holds *)

Lemma resolve_hold_handler_quiet app actor id req : quiet_prog (resolve_quarantine_hold app actor id req).
Proof.
  unfold resolve_quarantine_hold, resolve_hold, record_hold_resolution.
  repeat (solve_quiet_prog || apply second_factor_quiet || apply verify_factor_quiet).
Qed.

Lemma resolve_approval_handler_quiet app actor id req : quiet_prog (resolve_approval_handler app actor id req).
Proof.
  unfold resolve_approval_handler, resolve_approval, record_approval_resolution.
  repeat (solve_quiet_prog || apply second_factor_quiet || apply verify_factor_quiet).
Qed.

Lemma expire_holds_quiet rows expired : quiet_prog (expire_holds rows expired).
Proof.
  revert expired. induction rows as [|[id h] rows IH]; intros expired; [done|]. simpl.
  split; [done|]. intros [u|e]; [apply IH | done].
Qed.
Lemma announce_holds_quiet expired : quiet_prog (announce_expired_holds expired).
Proof.
  induction expired as [|h expired IH]; [done|]. cbn [announce_expired_holds].
  unfold emit_quarantine_timed_out_provenance. solve_quiet_prog; apply IH.
Qed.
#[export] Hint Resolve expire_holds_quiet announce_holds_quiet : quiet.
Lemma quarantine_timeouts_quiet app now : quiet_prog (reconcile_quarantine_timeouts_once app now).
Proof. unfold reconcile_quarantine_timeouts_once, expire_stale_holds. solve_quiet_prog. Qed.

(** ** Policy bundles *)

Lemma insert_version_quiet b note by_ : quiet_prog (insert_version b note by_).
Proof. unfold insert_version. solve_quiet_prog. Qed.
Lemma parse_bundle_quiet app route yaml : quiet_prog (parse_bundle app route yaml).
Proof. unfold parse_bundle, parse_policy_bundle_yaml. solve_quiet_prog. Qed.
#[export] Hint Resolve insert_version_quiet parse_bundle_quiet : quiet.

(** ** All of them *)

Lemma discard_quiet {A} (p : prog A) : quiet_prog p → quiet_prog (discard p).
Proof. intros Hp. by apply quiet_bind. Qed.

Inductive governance_call (app : App) : prog unit → Prop :=
| gc_compile actor req : governance_call app (discard (compile_intent app actor req))
| gc_evaluate p : governance_call app (discard (evaluate_proposal app p))
| gc_list_approvals params : governance_call app (discard (list_approvals app params))
| gc_get_approval id : governance_call app (discard (get_approval app id))
| gc_resolve_approval actor id req : governance_call app (discard (resolve_approval_handler app actor id req))
| gc_list_holds params : governance_call app (discard (list_quarantine_holds app params))
| gc_get_hold id : governance_call app (discard (get_quarantine_hold app id))
| gc_resolve_hold actor id req : governance_call app (discard (resolve_quarantine_hold app actor id req))
| gc_hold_timeouts now : governance_call app (discard (reconcile_quarantine_timeouts_once app now))
| gc_create_bundle actor yaml : governance_call app (discard (create_policy_bundle app actor yaml))
| gc_list_bundles : governance_call app (discard list_policy_bundles)
| gc_get_bundle id : governance_call app (discard (get_policy_bundle id))
| gc_update_bundle id yaml : governance_call app (discard (update_policy_bundle app id yaml))
| gc_delete_bundle id : governance_call app (discard (delete_policy_bundle app id))
| gc_activate_bundle actor id a : governance_call app (discard (set_policy_bundle_active app actor id a))
| gc_simulate req : governance_call app (discard (simulate_policy app req))
| gc_simulate_bundle yaml req : governance_call app (discard (simulate_policy_bundle app yaml req))
| gc_versions id : governance_call app (discard (list_policy_bundle_versions id))
| gc_diff id params : governance_call app (discard (diff_policy_bundle_versions app id params))
| gc_rollback actor id req : governance_call app (discard (rollback_policy_bundle app actor id req)).

Lemma governance_call_quiet app p : governance_call app p → quiet_prog p.
Proof.
  intros []; apply discard_quiet;
    auto using compile_intent_quiet, evaluate_proposal_quiet, resolve_approval_handler_quiet,
      resolve_hold_handler_quiet, quarantine_timeouts_quiet;
    unfold list_approvals, get_approval, list_quarantine_holds, get_quarantine_hold, create_policy_bundle,
      list_policy_bundles, get_policy_bundle, update_policy_bundle, delete_policy_bundle,
      set_policy_bundle_active, simulate_policy, simulate_policy_bundle, simulated_intent, minimal_intent_for,
      list_policy_bundle_versions, diff_policy_bundle_versions, stored_version, rollback_policy_bundle,
      bundle_insert, bundle_update, bundle_set_active, bundle_rollback;
    solve_quiet_prog.
Qed.
