(* ===== verification/Safety.v ===== *)
(** * Safety of the execution lifecycle

    The theorems about every world the gateway can reach: any number of handler
    calls, in any interleaving of their operations, with any storage faults, clock
    readings and adapter answers.  Witnesses are in file Scenario. *)

From S2P Require Import Prelude Json Proto Transitions CapService Store Adapter Effects Pdp.
From S2P Require Import RollbackSvc Validation Provenance CapBackend Lifecycle Handlers StoreFacts.
From S2P Require Import Evolution Discipline Logic HandlerSafety Background BackgroundSafety.
From S2P Require Import Capabilities GovernanceSafety.

(** What the gateway runs: the execution handlers and the minting and revocation of
    capabilities, with any arguments (revocation with a service that stores its
    leases, as the daemon's does: with another one the handler itself would store
    whatever lease the service returned), the background pass over stale executions,
    the handlers for intents, proposals, approvals, quarantine holds and policy bundles,
    and any program that is quiet (it reads, inserts capabilities or retires active
    ones, resolves or expires approvals, appends provenance and audit records, works
    the outbox, or asks an adapter to verify, compensate or roll back; the lifecycle
    reconciler and the approval timeouts are such programs). *)
Inductive admitted (app : App) : prog unit → Prop :=
| adm_authorize actor request : admitted app (discard (authorize_execution app actor request))
| adm_prepare path actor : admitted app (discard (prepare_execution app path actor))
| adm_execute path actor payload : admitted app (discard (execute_execution app path actor payload))
| adm_verify path actor : admitted app (discard (verify_execution app path actor))
| adm_commit path actor : admitted app (discard (commit_execution app path actor))
| adm_compensate path actor : admitted app (discard (compensate_execution app path actor))
| adm_cancel path actor : admitted app (discard (cancel_execution app path actor))
| adm_evaluate path actor report : admitted app (discard (evaluate_outcome app path actor report))
| adm_mint actor request : admitted app (discard (mint_capability app actor request))
| adm_revoke path actor : cb_is_store_backed (app_cap app) = true →
    admitted app (discard (revoke_capability app path actor))
| adm_ha : admitted app (discard (run_ha_reconciler_pass app))
| adm_governance p : governance_call app p → admitted app p
| adm_quiet p : quiet_prog p → admitted app p.

Lemma discard_wp {A} ext env (p : prog A) g w : wp ext env p g Done w → wp ext env (discard p) g Done w.
Proof. intros Hp. apply wp_bind. eapply wp_mono; [|exact Hp]. intros. by intros w'' _. Qed.

Lemma load_execution_quiet app route path actor : quiet_prog (load_execution app route path actor).
Proof. unfold load_execution. solve_quiet_prog. Qed.

Lemma evaluate_outcome_quiet app path actor report : quiet_prog (evaluate_outcome app path actor report).
Proof.
  unfold evaluate_outcome. solve_quiet_prog.
  all: try apply load_execution_quiet.
Qed.

(** Every admitted program follows the discipline. *)
Lemma admitted_safe app `{!QuietBackend (app_cap app)} env p w : admitted app p → wp (app_ext app) env p None Done w.
Proof.
  intros []; try apply discard_wp;
    auto using authorize_safe, prepare_safe, execute_safe, verify_safe, commit_safe,
      compensate_safe, cancel_safe.
  - eapply spec_done, quiet_spec, evaluate_outcome_quiet.
  - eapply spec_done, quiet_spec, mint_capability_quiet.
  - by apply revoke_capability_safe.
  - apply ha_pass_safe.
  - eapply wp_mono; [|eapply (quiet_wp _ _ _ (λ _, True)); [by eapply governance_call_quiet | apply returns_top]]; done.
  - eapply wp_mono; [|eapply (quiet_wp _ _ _ (λ _, True)), returns_top]; done.
Qed.

Section theorems.
Context (app : App) (env : Env) `{!QuietBackend (app_cap app)}.

(** The pool after any interleaving from an empty pool. *)
Definition reachable (w0 : World) (p : Pool unit) : Prop :=
  initial w0 ∧ pool_reach (admitted app) env (mkPool [] w0) p.

Lemma reachable_inv w0 p : reachable w0 p → wf (app_ext app) (p_world p).
Proof. intros [Hi Hr]. eapply (pool_safe _ env); [|done|done]. intros. by apply admitted_safe. Qed.

(** Executions are stored under their own ids. *)
Lemma reachable_keyed w0 p :
  reachable w0 p → ∀ id e, db_executions (w_db (p_world p)) !! id = Some e → ex_execution_id e = id.
Proof.
  intros Hr id e He. destruct (reachable_inv _ _ Hr) as [gs Hinv].
  by destruct (inv_executions _ _ _ Hinv _ _ He).
Qed.

Lemma reachable_evolves w0 p p' :
  reachable w0 p → pool_reach (admitted app) env p p' → evolves (p_world p) (p_world p').
Proof.
  intros [Hi Hr] Hr'.
  destruct (pool_reach_ok (app_ext app) env (admitted app) (mkPool [] w0) p [])
    as [_ [gs Hok]]; [intros; by apply admitted_safe | | done |].
  - split; [by apply initial_inv | constructor].
  - eapply pool_reach_ok; [|done..]. intros. by apply admitted_safe.
Qed.

Lemma reachable_trans w0 p p' :
  reachable w0 p → pool_reach (admitted app) env p p' → reachable w0 p'.
Proof. intros [Hi Hr] Hr'. split; [done | by etrans]. Qed.

(** C2: however the handlers are interleaved and whatever fails, the adapter is
    asked to execute a given execution at most once; when it was, that execution
    is stored and its state is one of a dispatched side effect. *)
Theorem dispatched_at_most_once w0 p id :
  reachable w0 p →
  calls id (w_adapter_log (p_world p)) ≤ 1 ∧
  (calls id (w_adapter_log (p_world p)) = 1 →
   ∃ e, db_executions (w_db (p_world p)) !! id = Some e ∧ dispatched (ex_state e) = true).
Proof.
  intros Hr. destruct (reachable_inv _ _ Hr) as [gs Hinv].
  pose proof (inv_budget _ _ _ Hinv id) as Hb. unfold budget in Hb.
  destruct (db_executions (w_db (p_world p)) !! id) as [e|]; [|split; [lia | intros; lia]].
  destruct (dispatched (ex_state e)) eqn:Hd; [|split; [lia | intros; lia]].
  split; [lia|]. by exists e.
Qed.

(** C1: every side effect an adapter was asked for is backed by the records: a
    stored execution bound to the contract, an intent that is not draft-only, the
    approved arguments of its proposal, a capability that is spent (used, or revoked
    since), matches the proposal and whose argument constraints hold, a supported rollback class, and
    the complete governed chain of provenance events from an allowing policy
    decision (or a granted approval) to the prepared tool call. *)
Theorem effects_are_authorized w0 p c payload r :
  reachable w0 p → AC_execute c payload r ∈ w_adapter_log (p_world p) →
  effect_authorized (app_ext app) (p_world p) c payload.
Proof. intros Hr Hin. destruct (reachable_inv _ _ Hr) as [gs Hinv]. by eapply inv_effects. Qed.

(** C4: no two executions are ever backed by the same capability, and the
    capability of every stored execution is spent: used, or revoked since. *)
Theorem capability_backs_one_execution w0 p id1 id2 e1 e2 :
  reachable w0 p →
  db_executions (w_db (p_world p)) !! id1 = Some e1 →
  db_executions (w_db (p_world p)) !! id2 = Some e2 →
  ex_capability_id e1 = ex_capability_id e2 →
  id1 = id2 ∧
  ∃ l, db_capabilities (w_db (p_world p)) !! ex_capability_id e1 = Some l ∧ lease_spent l = true.
Proof.
  intros Hr H1 H2 Heq. destruct (reachable_inv _ _ Hr) as [gs Hinv].
  split; [by eapply inv_single_use|]. destruct (inv_executions _ _ _ Hinv _ _ H1) as (_ & (Hl & _) & _).
  done.
Qed.

(** C3: an execution is committed only when an adapter reported its success, a
    verification found the effect applied, and its contract came to rest as
    Verified with automatic commit or as Committed by hand; an irreversible (R3)
    execution is committed only by hand, after a recorded verification event. *)
Theorem committed_is_verified w0 p id e :
  reachable w0 p →
  db_executions (w_db (p_world p)) !! id = Some e → ex_state e = ES_Committed →
  executed (p_world p) id ∧ verified_applied (p_world p) id ∧
  ∃ cid c, ex_rollback_contract_id e = Some cid ∧
    db_contracts (w_db (p_world p)) !! cid = Some c ∧
    settles (w_db (p_world p)) e c ∧
    (rc_rollback_class c = R3IrreversibleHighConsequence →
       rc_state c = RbS_Committed ∧ verified_event (w_db (p_world p)) id).
Proof.
  intros Hr He Hst. destruct (reachable_inv _ _ Hr) as [gs Hinv].
  destruct (inv_executions _ _ _ Hinv _ _ He) as (Hid & (_ & Hlink & _) & Hset).
  destruct (Hset Hst) as (cid & c & Hl & Hc & Hor).
  destruct (Hlink _ Hl) as (c' & Hc' & Hx). assert (c' = c) as -> by congruence.
  destruct (inv_contracts _ _ _ Hinv _ _ Hc) as (_ & Hr3 & Hex & Hva & _).
  rewrite Hx, Hid in *.
  assert (rc_state c ∈ [RbS_Verified; RbS_Committed]) as Hin
    by (destruct Hor as [[-> _]|[-> _]]; set_solver).
  split_and!; [apply Hex; set_solver | by apply Hva |].
  exists cid, c. split_and!; [done | done | done |]. intros Hclass.
  destruct Hor as [[_ Hac]|[? Hv]]; [|by rewrite Hid in Hv]. specialize (Hr3 Hclass). congruence.
Qed.

(** C5: a canceled execution never had a side effect and never will: no adapter
    was or will be asked to execute it, whatever runs afterwards, and it stays
    canceled. *)
Theorem canceled_never_dispatched w0 p p' id e :
  reachable w0 p → db_executions (w_db (p_world p)) !! id = Some e → ex_state e = ES_Canceled →
  pool_reach (admitted app) env p p' →
  calls id (w_adapter_log (p_world p')) = 0 ∧
  ∃ e', db_executions (w_db (p_world p')) !! id = Some e' ∧ ex_state e' = ES_Canceled.
Proof.
  intros Hr He Hst Hr'. pose proof (reachable_evolves _ _ _ Hr Hr') as Hev.
  destruct (reachable_inv _ _ (reachable_trans _ _ _ Hr Hr')) as [gs Hinv].
  destruct (evo_executions _ _ (evo_db _ _ Hev) _ _ He) as (e' & He' & [_ Hreach]).
  rewrite Hst in Hreach. apply tg_terminal_stuck in Hreach; [|done].
  split; [|by exists e']. pose proof (inv_budget _ _ _ Hinv id) as Hb. unfold budget in Hb.
  rewrite He', Hreach in Hb. simpl in Hb. lia.
Qed.

(** C6: an execution is marked compensated only when an adapter reported the
    compensation of that execution as recovered. *)
Theorem compensated_is_recovered w0 p id e :
  reachable w0 p → db_executions (w_db (p_world p)) !! id = Some e →
  ex_state e = ES_Compensated → recovered (p_world p) id.
Proof.
  intros Hr He Hst. destruct (reachable_inv _ _ Hr) as [gs Hinv].
  destruct (inv_executions _ _ _ Hinv _ _ He) as (<- & (_ & _ & Hrec) & _). auto.
Qed.

(** C7: between any two moments, a stored execution keeps its identity (intent,
    proposal, capability, owner) and moves along the execution matrix, its
    contract keeps its binding, class and adapter and moves along the rollback
    matrix, a capability keeps its terms and moves along the capability matrix, except
    that a revocation may overwrite any status, also Used, with Revoked (the run
    [revocation_overwrites_used] of file Findings shows that it does), and the adapter
    log and the provenance only grow. *)
Theorem rows_follow_matrices w0 p p' :
  reachable w0 p → pool_reach (admitted app) env p p' → evolves (p_world p) (p_world p').
Proof. apply reachable_evolves. Qed.
End theorems.
