(* ===== verification/StoreSafety.v ===== *)
(** * What the store enforces against any program

    Properties the SQL statements guarantee by themselves, for all programs over
    the operations, in all interleavings: a superseded reconciliation lease is
    fenced off, and a resolved approval is final. *)

From stdpp Require Import sorting.
From S2P Require Import Prelude Json Proto Admin Transitions CapService Store Adapter Effects.
From S2P Require Import StoreFacts Evolution.

(** ** Lease generations and approvals under any operation *)

Definition generation_le (r r' : OutboxRow) : Prop :=
  (row_lease_generation r ≤ row_lease_generation r')%Z.

(** A resolved approval is never written again. *)
Definition approval_frozen (a a' : ApprovalRequest) : Prop := ap_state a ≠ AS_Pending → a' = a.

(** Nor is a resolved or expired quarantine hold. *)
Definition hold_frozen (h h' : QuarantineHold) : Prop := qh_state h ≠ QS_Pending → h' = h.

#[export] Instance generation_le_preorder : PreOrder generation_le.
Proof. unfold generation_le. split; [by intros r | intros r1 r2 r3; lia]. Qed.
#[export] Instance approval_frozen_preorder : PreOrder approval_frozen.
Proof.
  split; [by intros a | intros a1 a2 a3 H12 H23 Hs]. rewrite (H12 Hs) in H23. by rewrite (H23 Hs).
Qed.

#[export] Instance hold_frozen_preorder : PreOrder hold_frozen.
Proof.
  split; [by intros h | intros h1 h2 h3 H12 H23 Hs]. rewrite (H12 Hs) in H23. by rewrite (H23 Hs).
Qed.

Record guarded (d d' : Db) : Prop := {
  gd_outbox : grows generation_le (db_outbox d) (db_outbox d');
  gd_approvals : grows approval_frozen (db_approvals d) (db_approvals d');
  gd_holds : grows hold_frozen (db_holds d) (db_holds d');
  gd_mfa : mfa_evolves (db_admin d) (db_admin d');
}.

#[export] Instance guarded_preorder : PreOrder guarded.
Proof.
  split.
  - intros d. split; apply grows_refl, _.
  - intros d1 d2 d3 [] []. split; by etrans.
Qed.

Lemma guarded_same d d' :
  db_outbox d' = db_outbox d → db_approvals d' = db_approvals d → db_holds d' = db_holds d →
  db_admin d' = db_admin d → guarded d d'.
Proof. intros Ho Ha Hh Had. split; rewrite ?Ho, ?Ha, ?Hh, ?Had; apply grows_refl, _. Qed.

(** The write of an outbox row that keeps or raises the generation. *)
Lemma guarded_outbox d id row :
  (∀ row0, db_outbox d !! id = Some row0 → generation_le row0 row) →
  guarded d (set_outbox (<[id := row]> (db_outbox d)) d).
Proof.
  intros Hrow. destruct d; simpl in *. split; simpl; [|apply grows_refl, _..].
  apply grows_insert; [apply _ | done].
Qed.

Lemma guarded_approval d id a a0 :
  db_approvals d !! id = Some a0 → ap_state a0 = AS_Pending →
  guarded d (set_approvals (<[id := a]> (db_approvals d)) d).
Proof.
  intros Ha0 Hs. destruct d; simpl in *. split; simpl; [apply grows_refl, _ | | apply grows_refl, _..].
  apply grows_insert; [apply _|]. intros a1 Ha1 Hn. congruence.
Qed.

(** The write of a hold that is new or still pending. *)
Lemma guarded_hold d id h :
  (∀ h0, db_holds d !! id = Some h0 → qh_state h0 = QS_Pending) →
  guarded d (set_holds (<[id := h]> (db_holds d)) d).
Proof.
  intros Hs. destruct d; simpl in *. split; simpl; [apply grows_refl, _.. | | apply grows_refl, _].
  apply grows_insert; [apply _|]. intros h1 Hh1 Hn. by rewrite (Hs _ Hh1) in Hn.
Qed.

Lemma update_outbox_guarded r clear override d :
  guarded d (after (update_outbox_record r clear override) d).
Proof.
  unfold update_outbox_record. destruct (db_outbox d !! ob_outbox_id r) as [row|] eqn:Hr; [|done].
  destruct (_ || _); [|done]. destruct (negb _); [done|]. simpl. apply guarded_outbox.
  intros row0 Hr0. assert (row0 = row) as -> by congruence. unfold generation_le. by destruct clear.
Qed.

Lemma update_claimed_guarded r l clear now d :
  guarded d (after (update_outbox_record_claimed r l clear now) d).
Proof.
  unfold update_outbox_record_claimed.
  destruct (db_outbox d !! ls_outbox_id l) as [row|] eqn:Hr; [|done].
  destruct (lease_current _ _ _); [|done]. destruct (negb _); [done|]. simpl. apply guarded_outbox.
  intros row0 Hr0. assert (row0 = row) as -> by congruence. unfold generation_le. by destruct clear.
Qed.

Lemma renew_guarded l ttl now now2 d : guarded d (after (renew_reconciliation_lease l ttl now now2) d).
Proof.
  unfold renew_reconciliation_lease.
  destruct (db_outbox d !! ls_outbox_id l) as [row|] eqn:Hr; [|done].
  destruct (_ && _); [|done]. simpl. apply guarded_outbox.
  intros row0 Hr0. assert (row0 = row) as -> by congruence. unfold generation_le. done.
Qed.

Lemma claim_one_guarded owner now exp id d : guarded d (snd (claim_one owner now exp id d)).
Proof.
  unfold claim_one. destruct (db_outbox d !! id) as [row|] eqn:Hr; [|done].
  destruct (lease_free _ _); [|done]. simpl. apply guarded_outbox.
  intros row0 Hr0. assert (row0 = row) as -> by congruence. unfold generation_le. simpl. lia.
Qed.

Lemma claim_all_guarded owner now exp ids d : guarded d (snd (claim_all owner now exp ids d)).
Proof.
  revert d. induction ids as [|id ids IH]; intros d; simpl; [done|].
  pose proof (claim_one_guarded owner now exp id d) as H1.
  destruct (claim_one owner now exp id d) as [c d1]. specialize (IH d1).
  destruct (claim_all owner now exp ids d1) as [cs d2]. by trans d1.
Qed.

Lemma claim_pending_guarded limit owner ttl now d :
  guarded d (after (claim_pending_reconciliation limit owner ttl now) d).
Proof.
  unfold claim_pending_reconciliation. destruct limit; [done|].
  match goal with |- context [claim_all ?a ?b ?c ?e ?d] => pose proof (claim_all_guarded a b c e d) end.
  by destruct (claim_all _ _ _ _ _).
Qed.

Lemma outbox_inserted_guarded ob d d' :
  outbox_inserted ob d d' → same_rest d d' → guarded d d'.
Proof.
  intros [_ Hid Hout] [_ _ Ha _ _ _ Hh Had].
  split; [rewrite Hout | rewrite Ha; apply grows_refl, _ | rewrite Hh; apply grows_refl, _
         | rewrite Had; apply grows_refl, _].
  apply grows_insert; [apply _|]. intros r Hr. congruence.
Qed.

Lemma record_transition_guarded e c ob d : guarded d (after (record_lifecycle_transition e c ob) d).
Proof.
  destruct (record_lifecycle_transition e c ob d) as [[[]|err] d'] eqn:H; simpl.
  - apply record_transition_done in H as [_ _ _ Hob _ Hrest].
    by eapply outbox_inserted_guarded.
  - apply record_transition_err in H. by subst.
Qed.

Lemma record_authorization_guarded l e ob now d :
  guarded d (after (record_authorization l e ob now) d).
Proof.
  destruct (record_authorization l e ob now d) as [[[]|err] d'] eqn:H; simpl.
  - apply record_authorization_done in H as [_ _ _ _ Hob Hrest].
    by eapply outbox_inserted_guarded.
  - apply record_authorization_false in H. by subst.
  - apply record_authorization_err in H. by subst.
Qed.

Lemma resolve_approval_guarded a id now d : guarded d (after (sql_resolve_approval a id now) d).
Proof.
  unfold sql_resolve_approval. destruct (db_approvals d !! id) as [a0|] eqn:Ha; [|done].
  destruct (bool_decide _ && _) eqn:Hg; [|done]. destruct_andb. simpl.
  eapply guarded_approval; [done | by eapply bool_decide_eq_true].
Qed.

Lemma expire_approval_guarded a id d : guarded d (after (sql_expire_approval a id) d).
Proof.
  unfold sql_expire_approval. destruct (db_approvals d !! id) as [a0|] eqn:Ha; [|done].
  case_decide; [|done]. simpl. by eapply guarded_approval.
Qed.

(** The statements on the other tables. *)
Lemma cas_guarded id l s now d : guarded d (after (compare_and_set_state id l s now) d).
Proof. unfold compare_and_set_state. repeat case_match; try done; destruct d; by apply guarded_same. Qed.
Lemma set_status_guarded id s now d :
  guarded d (after (sql_capability_set_status_if_active id s now) d).
Proof. unfold sql_capability_set_status_if_active. repeat case_match; try done; destruct d; by apply guarded_same. Qed.
Lemma revoke_guarded id t d : guarded d (after (revoke_if_active id t) d).
Proof. unfold revoke_if_active. repeat case_match; try done; destruct d; by apply guarded_same. Qed.
Lemma insert_capability_guarded l d : guarded d (after (insert_capability l) d).
Proof. unfold insert_capability. repeat case_match; try done; destruct d; by apply guarded_same. Qed.
Lemma update_capability_guarded l d : guarded d (after (update_capability l) d).
Proof. unfold update_capability. repeat case_match; try done; destruct d; by apply guarded_same. Qed.
Lemma insert_audit_guarded e h p d : guarded d (after (sql_insert_audit e h p) d).
Proof. destruct d; by apply guarded_same. Qed.
Lemma insert_edges_guarded id edges d : guarded d (after (sql_insert_edges id edges) d).
Proof.
  revert d. induction edges as [|e edges IH]; intros d; simpl; [done|].
  destruct (_ && _); [|done]. etrans; [|apply IH]. destruct d; by apply guarded_same.
Qed.
Lemma append_edge_guarded id e d : guarded d (after (append_edge id e) d).
Proof. apply insert_edges_guarded. Qed.
Lemma append_event_guarded e edges d : guarded d (after (append_event_with_edges e edges) d).
Proof.
  unfold append_event_with_edges. destruct (existsb _ _); [done|]. unfold transaction, then_.
  unfold sql_insert_event. destruct (has_event _ _); [done|].
  match goal with |- context [sql_insert_edges ?a ?b ?d'] =>
    pose proof (insert_edges_guarded a b d') as H; destruct (sql_insert_edges a b d') as [[] d''] end;
    simpl in *; [|done]. etrans; [|exact H]. destruct d; by apply guarded_same.
Qed.

Lemma insert_intent_guarded i d : guarded d (after (insert_intent i) d).
Proof. unfold insert_intent. case_match; [done|]. destruct d; by apply guarded_same. Qed.
Lemma insert_proposal_guarded p d : guarded d (after (insert_proposal p) d).
Proof. unfold insert_proposal. repeat case_match; try done; destruct d; by apply guarded_same. Qed.
Lemma admin_guarded {A} now (a : admin_op A) d : guarded d (after (sql_admin (admin_exec now a)) d).
Proof.
  pose proof (admin_exec_evolves now a (db_admin d)) as Hm. unfold sql_admin.
  destruct (admin_exec now a (db_admin d)) as [r t]. destruct d; simpl in *. split; simpl; [apply grows_refl, _..|done].
Qed.
Lemma insert_hold_guarded h d : guarded d (after (insert_hold h) d).
Proof.
  unfold insert_hold. destruct (has _ (db_holds d)) eqn:Hh; [done|]. destruct (negb _); [done|].
  apply guarded_hold. intros h0 Hh0. apply has_false in Hh. congruence.
Qed.
Lemma update_pending_hold_guarded h id d : guarded d (after (sql_update_pending_hold h id) d).
Proof.
  unfold sql_update_pending_hold. destruct (db_holds d !! id) as [h0|] eqn:Hh; [|done].
  case_decide; [|done]. apply guarded_hold. intros h1 Hh1. congruence.
Qed.

#[export] Hint Resolve update_outbox_guarded update_claimed_guarded renew_guarded
  claim_pending_guarded record_transition_guarded record_authorization_guarded
  resolve_approval_guarded expire_approval_guarded cas_guarded set_status_guarded revoke_guarded
  insert_capability_guarded update_capability_guarded append_edge_guarded append_event_guarded
  insert_intent_guarded insert_proposal_guarded admin_guarded insert_hold_guarded
  update_pending_hold_guarded : ferrum.

Lemma exec_db_guarded {A} env (s : stmt A) w x w' :
  (∀ d, guarded d (after s d)) → exec_db env s w = (x, w') → guarded (w_db w) (w_db w').
Proof.
  intros Hs. destruct w as [d caps m l t]; simpl. specialize (Hs d).
  destruct (env_fault env t) as [[]|]; [| |destruct (s d)]; intros; simplify_eq; done.
Qed.

Lemma exec_op_guarded {X} env (o : op X) w x w' :
  exec_op env o w = (x, w') → guarded (w_db w) (w_db w').
Proof.
  assert (∀ w w' : World, w_db w' = w_db w → guarded (w_db w) (w_db w')) as Hsame by (by intros ? ? ->).
  destruct o; simpl; intros Hx;
    try (apply Hsame; destruct w; simpl in Hx;
         repeat (match goal with H : context [let '(_, _) := ?e in _] |- _ => destruct e end);
         by simplify_eq);
    eapply exec_db_guarded; try exact Hx; intros; first [done | by auto with ferrum | apply insert_audit_guarded].
Qed.

(** Any interleaving of any programs. *)
Abbreviation any := (λ _, True).

Lemma pool_reach_guarded {A} env (p p' : Pool A) :
  pool_reach any env p p' → guarded (w_db (p_world p)) (w_db (p_world p')).
Proof.
  intros Hr. induction Hr as [p|p p1 p' Hstep _ IH]; [done|]. etrans; [|exact IH].
  destruct Hstep as [i X o k ts w x w' Hi Hx | t ts w _]; simpl; [|done].
  by eapply exec_op_guarded.
Qed.

(** ** Claims of reconciliation leases *)

(** A row's record carries the row's key. *)
Definition outbox_keyed (d : Db) : Prop :=
  ∀ id row, db_outbox d !! id = Some row → ob_outbox_id (row_record row) = id.

(** The claim [c] took a free row of [d] and left it, in [d'], under its lease. *)
Definition claimed_row (owner : string) (now expires : Timestamp) (d d' : Db)
    (c : LifecycleOutboxClaim) : Prop :=
  ∃ row0, db_outbox d !! ls_outbox_id (lc_lease c) = Some row0 ∧ lease_free row0 now = true ∧
    lc_record c = row_record row0 ∧ ls_owner (lc_lease c) = owner ∧
    ls_expires_at (lc_lease c) = expires ∧
    ls_generation (lc_lease c) = (row_lease_generation row0 + 1)%Z ∧
    db_outbox d' !! ls_outbox_id (lc_lease c) =
      Some (mkOutboxRow (row_record row0) (Some owner) (Some expires) (row_lease_generation row0 + 1)).

Lemma claim_one_some owner now exp id d c d' :
  outbox_keyed d → claim_one owner now exp id d = (Some c, d') →
  ls_outbox_id (lc_lease c) = id ∧ claimed_row owner now exp d d' c.
Proof.
  intros Hk. unfold claim_one. destruct (db_outbox d !! id) as [row|] eqn:Hr; [|done].
  destruct (lease_free row now) eqn:Hf; [|done]. intros. simplify_eq/=.
  pose proof (Hk _ _ Hr) as Hid. split; [done|]. exists row. simpl. rewrite Hid.
  split_and!; try done. destruct d; simpl. by rewrite lookup_insert_eq.
Qed.

Lemma claim_one_other owner now exp id d c d' id' :
  claim_one owner now exp id d = (c, d') → id' ≠ id → db_outbox d' !! id' = db_outbox d !! id'.
Proof.
  unfold claim_one. repeat case_match; intros; simplify_eq; try done.
  destruct d; simpl. by rewrite lookup_insert_ne.
Qed.

Lemma claim_one_keyed owner now exp id d c d' :
  outbox_keyed d → claim_one owner now exp id d = (c, d') → outbox_keyed d'.
Proof.
  intros Hk. unfold claim_one. destruct (db_outbox d !! id) as [row|] eqn:Hr;
    [|intros; by simplify_eq]. destruct (lease_free row now); intros; simplify_eq; [|done].
  intros id' row'. destruct d; simpl in *. rewrite lookup_insert_Some.
  intros [[<- <-]|[_ H]]; [by apply (Hk _ _ Hr) | by apply (Hk _ _ H)].
Qed.

Lemma claim_all_spec owner now exp ids d cs d' :
  NoDup ids → outbox_keyed d → claim_all owner now exp ids d = (cs, d') →
  (∀ id, id ∉ ids → db_outbox d' !! id = db_outbox d !! id) ∧
  (∀ c, c ∈ cs → ls_outbox_id (lc_lease c) ∈ ids ∧ claimed_row owner now exp d d' c) ∧
  length cs ≤ length ids.
Proof.
  intros Hnd. revert d cs d'. induction Hnd as [|id ids Hid Hnd IH]; intros d cs d' Hk; simpl.
  { intros. simplify_eq. split_and!; [done | set_solver | done]. }
  destruct (claim_one owner now exp id d) as [c d1] eqn:H1.
  destruct (claim_all owner now exp ids d1) as [cs2 d2] eqn:H2.
  destruct (IH d1 cs2 d2) as (Hother & Hin & Hlen); [by eapply claim_one_keyed | done |].
  assert (∀ c0, c0 ∈ cs2 → ls_outbox_id (lc_lease c0) ∈ id :: ids ∧ claimed_row owner now exp d d2 c0) as Hrest.
  { intros c0 Hc0. destruct (Hin c0 Hc0) as [Hi (row0 & Hrow & ?)]. split; [by right|].
    exists row0. rewrite (claim_one_other _ _ _ _ _ _ _ _ H1) in Hrow; [done|].
    intros Heq. by rewrite Heq in Hi. }
  intros Heq. assert (d' = d2) as -> by (destruct c; congruence). split_and!.
  - intros id' Hn. apply not_elem_of_cons in Hn as [Hne Hn]. rewrite Hother by done.
    by eapply claim_one_other.
  - destruct c as [c|]; simplify_eq; [|done]. intros c0 [->|Hc0]%elem_of_cons; [|by apply Hrest].
    destruct (claim_one_some _ _ _ _ _ _ _ Hk H1) as [Hidc (row0 & ? & ? & ? & ? & ? & ? & Hd1)].
    rewrite Hidc. split; [by left|]. exists row0. rewrite Hidc in *. split_and!; try done.
    by rewrite Hother.
  - destruct c; simplify_eq/=; lia.
Qed.

Lemma claim_pending_spec limit owner ttl now d cs d' :
  outbox_keyed d → claim_pending_reconciliation limit owner ttl now d = (Ok cs, d') →
  (∀ c, c ∈ cs → claimed_row owner now (now + ttl) d d' c) ∧ length cs ≤ limit.
Proof.
  intros Hk. unfold claim_pending_reconciliation. destruct limit as [|limit].
  { intros. simplify_eq. split; [set_solver | done]. }
  set (ids := (take (S limit) _).*1). destruct (claim_all _ _ _ ids d) as [cs2 d2] eqn:H2.
  assert (NoDup ids) as Hnd.
  { unfold ids. rewrite fmap_take. eapply sublist_NoDup; [|apply sublist_take].
    rewrite merge_sort_Permutation.
    eapply sublist_NoDup; [apply (NoDup_fst_map_to_list (db_outbox d))|].
    apply fmap_sublist, sublist_filter. }
  destruct (claim_all_spec _ _ _ _ _ _ _ Hnd Hk H2) as (_ & Hin & Hlen).
  intros. simplify_eq. split; [intros c Hc; by apply Hin|].
  etrans; [exact Hlen|]. unfold ids. rewrite length_fmap, length_take. lia.
Qed.

(** ** Fencing *)

(** A lease older than the row's generation is refused by every fenced statement,
    which then changes nothing. *)
Definition fenced (lease : LifecycleOutboxLease) (d : Db) : Prop :=
  ∀ r clear ttl t1 t2,
    update_outbox_record_claimed r lease clear t1 d = (Ok false, d) ∧
    renew_reconciliation_lease lease ttl t1 t2 d = (Ok false, d) ∧
    lease_is_current lease t1 d = (Ok false, d).

Lemma older_generation_fenced lease d row :
  db_outbox d !! ls_outbox_id lease = Some row →
  (ls_generation lease < row_lease_generation row)%Z → fenced lease d.
Proof.
  intros Hrow Hlt r clear ttl t1 t2.
  assert (∀ t, lease_current lease row t = false) as Hl.
  { intros t. unfold lease_current. rewrite (proj2 (Z.eqb_neq _ _)) by lia. by rewrite andb_false_r. }
  unfold update_outbox_record_claimed, renew_reconciliation_lease, lease_is_current.
  rewrite Hrow, !Hl. done.
Qed.

(** C10: a successful claim grants leases on rows nobody holds, at most as many as
    asked, each current until it expires; and every lease issued on such a row
    before is fenced off for good: whatever programs run afterwards, the fenced
    updates and renewals with the old lease touch nothing. *)
Theorem claim_fences_older_leases {A} env (p p' : Pool A) limit owner ttl now cs d1 c old row :
  outbox_keyed (w_db (p_world p)) →
  claim_pending_reconciliation limit owner ttl now (w_db (p_world p)) = (Ok cs, d1) → c ∈ cs →
  length cs ≤ limit ∧ claimed_row owner now (now + ttl) (w_db (p_world p)) d1 c ∧
  (∀ t, lease_is_current (lc_lease c) t d1 = (Ok (t <? now + ttl)%Z, d1)) ∧
  (w_db (p_world p') = d1 →
   db_outbox (w_db (p_world p)) !! ls_outbox_id old = Some row →
   ls_outbox_id old = ls_outbox_id (lc_lease c) → (ls_generation old ≤ row_lease_generation row)%Z →
   ∀ p'', pool_reach any env p' p'' → fenced old (w_db (p_world p''))).
Proof.
  intros Hk Hclaim Hc. destruct (claim_pending_spec _ _ _ _ _ _ _ Hk Hclaim) as [Hrows Hlen].
  pose proof (Hrows c Hc) as Hrow. pose proof Hrow as (row0 & Hr0 & _ & _ & Ho & _ & Hg & Hd1).
  split_and!; [done | done | |].
  - intros t. unfold lease_is_current, lease_current. rewrite Hd1. simpl. rewrite Ho, Hg.
    by rewrite bool_decide_eq_true_2, Z.eqb_refl.
  - intros Hp' Hold Hid Hle p'' Hr. pose proof (pool_reach_guarded _ _ _ Hr) as [Hgr _ _ _].
    rewrite Hp' in Hgr. rewrite <- Hid in Hd1, Hr0.
    destruct (Hgr _ _ Hd1) as (row2 & Hrow2 & Hle2).
    unfold generation_le in Hle2. simpl in Hle2. assert (row0 = row) as -> by congruence.
    eapply older_generation_fenced; [done | lia].
Qed.

(** C11: the resolution of an approval and of a quarantine hold is final: once it was
    granted, denied, allowed or has expired, no program, in any interleaving, changes
    the record again, and a late resolution or expiry is refused. *)
Theorem resolution_is_final {A} env (p p' : Pool A) :
  pool_reach any env p p' →
  (∀ id a, db_approvals (w_db (p_world p)) !! id = Some a → ap_state a ≠ AS_Pending →
    db_approvals (w_db (p_world p')) !! id = Some a ∧
    ∀ a' now, sql_resolve_approval a' id now (w_db (p_world p')) = (Ok false, w_db (p_world p')) ∧
              sql_expire_approval a' id (w_db (p_world p')) = (Ok false, w_db (p_world p'))) ∧
  (∀ id h, db_holds (w_db (p_world p)) !! id = Some h → qh_state h ≠ QS_Pending →
    db_holds (w_db (p_world p')) !! id = Some h ∧
    ∀ h', sql_update_pending_hold h' id (w_db (p_world p')) = (Ok false, w_db (p_world p'))).
Proof.
  intros Hr. pose proof (pool_reach_guarded _ _ _ Hr) as [_ Hap Hho _]. split.
  - intros id a Ha Hs. destruct (Hap _ _ Ha) as (a1 & Ha1 & Hf). rewrite (Hf Hs) in Ha1. split; [done|].
    intros a' now. unfold sql_resolve_approval, sql_expire_approval. rewrite Ha1.
    rewrite bool_decide_eq_false_2, decide_False by done. done.
  - intros id h Hh Hs. destruct (Hho _ _ Hh) as (h1 & Hh1 & Hf). rewrite (Hf Hs) in Hh1. split; [done|].
    intros h'. unfold sql_update_pending_hold. by rewrite Hh1, decide_False.
Qed.

(** ** Lifecycle transitions are all or nothing *)

(** The contract of a transition moves along the matrix from the state its outbox
    record names, or is a new one of stored rows. *)
Definition contract_permitted (c : option RollbackContract) (prev : option RollbackState) (d : Db) : Prop :=
  match c with
  | None => True
  | Some c =>
      match prev with
      | Some s => ∃ c0, db_contracts d !! rc_contract_id c = Some c0 ∧ rc_state c0 = s ∧
                    is_valid_rollback_transition s (rc_state c) = true
      | None => db_contracts d !! rc_contract_id c = None ∧
                  is_Some (db_intents d !! rc_intent_id c) ∧ is_Some (db_proposals d !! rc_proposal_id c) ∧
                  is_Some (db_executions d !! rc_execution_id c)
      end
  end.

(** What the database must hold for a transition. *)
Record transition_permitted (e : ExecutionRecord) (c : option RollbackContract)
    (ob : LifecycleOutboxRecord) (d : Db) : Prop := {
  tp_execution : ∃ e0, db_executions d !! ex_execution_id e = Some e0 ∧
    ob_previous_execution_state ob = Some (ex_state e0) ∧
    is_valid_execution_transition (ex_state e0) (ex_state e) = true;
  tp_contract : contract_permitted c (ob_previous_rollback_state ob) d;
  tp_key : ∀ id row, db_outbox d !! id = Some row →
    ob_idempotency_key (row_record row) ≠ ob_idempotency_key ob;
  tp_id : db_outbox d !! ob_outbox_id ob = None;
  tp_of_execution : is_Some (db_executions d !! ob_execution_id ob);
  tp_of_contract : ∀ id, ob_rollback_contract_id ob = Some id →
    is_Some (db_contracts d !! id) ∨ rc_contract_id <$> c = Some id;
  tp_of_event : ∀ id, ob_provenance_event_id ob = Some id →
    ∃ ev, ev ∈ db_events d ∧ ev_event_id ev = id;
}.

Lemma has_stored {A} k (m : gmap string A) : has k m = true ↔ is_Some (m !! k).
Proof. apply bool_decide_eq_true. Qed.

Lemma has_event_true id d : has_event id d = true ↔ ∃ ev, ev ∈ db_events d ∧ ev_event_id ev = id.
Proof.
  unfold has_event. rewrite existsb_exists. setoid_rewrite String.eqb_eq.
  by setoid_rewrite list_elem_of_In.
Qed.

Lemma key_taken_false key d :
  key_taken key d = false ↔
  ∀ id row, db_outbox d !! id = Some row → ob_idempotency_key (row_record row) ≠ key.
Proof.
  unfold key_taken. rewrite <- not_true_iff_false, existsb_exists. split.
  - intros Hn id row Hrow Hk. apply Hn. exists (id, row). split; [|by apply String.eqb_eq].
    by apply list_elem_of_In, elem_of_map_to_list.
  - intros Hf ([id row] & Hin & Hk). apply String.eqb_eq in Hk.
    apply list_elem_of_In, elem_of_map_to_list in Hin. by apply (Hf id row).
Qed.

(** The statements of a transition succeed exactly on these databases. *)
Lemma update_execution_where_accepts e s d :
  (sql_update_execution_where e s d).1 = Ok true ↔
  ∃ e0, db_executions d !! ex_execution_id e = Some e0 ∧ ex_state e0 = s.
Proof. unfold sql_update_execution_where. repeat case_match; naive_solver. Qed.

Lemma write_contract_accepts c prev d :
  match c, prev with
  | Some c, Some s => is_valid_rollback_transition s (rc_state c) = true | _, _ => True end →
  (write_contract c prev d).1 = Ok tt ↔ contract_permitted c prev d.
Proof.
  intros Hv. destruct c as [c|]; [destruct prev as [s|]|]; cbn in *; [| |done].
  - unfold then_, sql_update_contract_where. repeat case_match; cbn in *; naive_solver.
  - unfold sql_insert_contract. rewrite <- has_lookup, <- !has_stored.
    destruct (has _ _), (has _ _), (has _ _), (has _ _); cbn; naive_solver.
Qed.

Lemma insert_outbox_accepts r d :
  (insert_outbox_record_tx r d).1 = Ok tt ↔
  key_taken (ob_idempotency_key r) d = false ∧ db_outbox d !! ob_outbox_id r = None ∧
  outbox_references_ok r d = true.
Proof.
  unfold insert_outbox_record_tx. rewrite <- has_lookup.
  destruct (key_taken _ _), (has _ _), (outbox_references_ok _ _); cbn; naive_solver.
Qed.

Lemma check_transition_accepts e c ob s :
  check_transition e c ob = Ok s ↔
  ob_previous_execution_state ob = Some s ∧ is_valid_execution_transition s (ex_state e) = true ∧
  match c, ob_previous_rollback_state ob with
  | Some c, Some s => is_valid_rollback_transition s (rc_state c) = true
  | _, _ => True
  end.
Proof.
  split; [apply check_transition_ok|]. unfold check_transition.
  intros (-> & -> & Hr). destruct c, (ob_previous_rollback_state ob); cbn; by rewrite ?Hr.
Qed.

Lemma transaction_outcome {A} (s : stmt A) d : (transaction s d).1 = (s d).1.
Proof. unfold transaction. by destruct (s d) as [[] ?]. Qed.

Lemma then_outcome {A B} (s : stmt A) (k : A → stmt B) d b :
  (then_ s k d).1 = Ok b ↔ ∃ a, (s d).1 = Ok a ∧ (k a (s d).2).1 = Ok b.
Proof. unfold then_. destruct (s d) as [[a|e] d']; cbn; naive_solver. Qed.

Lemma record_transition_outcome e c ob d :
  (record_lifecycle_transition e c ob d).1 = Ok tt ↔
  ∃ s, check_transition e c ob = Ok s ∧ (sql_update_execution_where e s d).1 = Ok true ∧
    let d1 := (sql_update_execution_where e s d).2 in
    let r := write_contract c (ob_previous_rollback_state ob) d1 in
    r.1 = Ok tt ∧ (insert_outbox_record_tx ob r.2).1 = Ok tt.
Proof.
  unfold record_lifecycle_transition. rewrite transaction_outcome. cbv beta.
  destruct (check_transition e c ob) as [s|]; [|naive_solver]. rewrite then_outcome. split.
  - intros ([] & Hu & H); [|done]. cbn [negb] in H. apply then_outcome in H as ([] & Hw & Ho).
    exists s. done.
  - intros (s' & [= <-] & Hu & Hw & Ho). exists true. split; [done|]. apply then_outcome. by exists tt.
Qed.

(** The execution's update leaves the same ids stored. *)
Section written.
Context (e : ExecutionRecord) (c : option RollbackContract) (ob : LifecycleOutboxRecord).
Context (prev : option RollbackState) (d : Db) (e0 : ExecutionRecord).
Context (He0 : db_executions d !! ex_execution_id e = Some e0).

Abbreviation d1 := (set_executions (<[ex_execution_id e := e]> (db_executions d)) d).

Lemma executions_kept id : is_Some (<[ex_execution_id e := e]> (db_executions d) !! id) ↔ is_Some (db_executions d !! id).
Proof using He0.
  destruct (decide (ex_execution_id e = id)) as [<- | Hne].
  - rewrite lookup_insert_eq, He0. split; by eexists.
  - by rewrite lookup_insert_ne.
Qed.

Lemma contract_permitted_written : contract_permitted c prev d1 ↔ contract_permitted c prev d.
Proof using He0.
  destruct c as [c'|]; [|done]. pose proof executions_kept as Hk.
  destruct prev as [s|]; destruct d; cbn in *; [done | by rewrite Hk].
Qed.

(** The outbox insert of a transition sees the contract just written. *)
Lemma outbox_accepts_written d2 :
  contract_step c prev d1 d2 → same_rest d1 d2 → db_executions d2 = db_executions d1 →
  db_outbox d2 = db_outbox d1 →
  (insert_outbox_record_tx ob d2).1 = Ok tt ↔
  (∀ id row, db_outbox d !! id = Some row →
    ob_idempotency_key (row_record row) ≠ ob_idempotency_key ob) ∧
  db_outbox d !! ob_outbox_id ob = None ∧ is_Some (db_executions d !! ob_execution_id ob) ∧
  (∀ id, ob_rollback_contract_id ob = Some id →
    is_Some (db_contracts d !! id) ∨ rc_contract_id <$> c = Some id) ∧
  (∀ id, ob_provenance_event_id ob = Some id → ∃ ev, ev ∈ db_events d ∧ ev_event_id ev = id).
Proof using He0.
  intros Hstep [_ _ _ Hev _ _ _ _] Hex Hout. rewrite insert_outbox_accepts, key_taken_false.
  assert (db_events d1 = db_events d ∧ db_outbox d1 = db_outbox d ∧ db_contracts d1 = db_contracts d ∧
    db_executions d1 = <[ex_execution_id e := e]> (db_executions d)) as (E1 & E2 & E3 & E4) by by destruct d.
  rewrite Hout, E2. unfold outbox_references_ok. rewrite !andb_true_iff, has_stored, Hex, E4, executions_kept.
  assert (∀ id, is_Some (db_contracts d2 !! id) ↔ is_Some (db_contracts d !! id) ∨ rc_contract_id <$> c = Some id) as Hc.
  { intros id. unfold contract_step in Hstep. rewrite E3 in Hstep. destruct c as [c'|]; cbn.
    - destruct Hstep as [-> _]. rewrite lookup_insert_is_Some'. naive_solver.
    - rewrite Hstep. naive_solver. }
  assert (match ob_rollback_contract_id ob with Some x => has x (db_contracts d2) | None => true end = true ↔
    ∀ id, ob_rollback_contract_id ob = Some id → is_Some (db_contracts d !! id) ∨ rc_contract_id <$> c = Some id) as ->.
  { setoid_rewrite <- Hc. destruct (ob_rollback_contract_id ob); rewrite ?has_stored; naive_solver. }
  assert (match ob_provenance_event_id ob with Some x => has_event x d2 | None => true end = true ↔
    ∀ id, ob_provenance_event_id ob = Some id → ∃ ev, ev ∈ db_events d ∧ ev_event_id ev = id) as ->.
  { rewrite <- E1, <- Hev. destruct (ob_provenance_event_id ob); rewrite ?has_event_true; naive_solver. }
  tauto.
Qed.
End written.

Lemma record_transition_accepts e c ob d :
  (record_lifecycle_transition e c ob d).1 = Ok tt ↔ transition_permitted e c ob d.
Proof.
  rewrite record_transition_outcome. split.
  - intros (s & Hck & Hu & Hw & Ho). apply check_transition_accepts in Hck as (Hp & Hv & Hr).
    destruct (sql_update_execution_where e s d) as [ru d1] eqn:Hx. cbn in *. subst ru.
    apply update_execution_where_ok in Hx as [(e0 & He0 & Hs) ->].
    pose proof Hw as Hperm. apply write_contract_accepts in Hperm; [|done].
    destruct (write_contract _ _ _) as [rw d2] eqn:Hx. cbn in *. subst rw.
    apply write_contract_ok in Hx as (Hstep & Hrest & _ & Hex & Hob); [|done].
    apply (outbox_accepts_written e c ob (ob_previous_rollback_state ob) d e0 He0 d2) in Ho as (? & ? & ? & ? & ?); [|done..].
    split; try done; [by exists e0; rewrite Hs|]. by eapply contract_permitted_written.
  - intros [(e0 & He0 & Hp & Hv) Hc Hk Hid Hoe Hoc Hoev]. exists (ex_state e0).
    assert ((sql_update_execution_where e (ex_state e0) d).1 = Ok true) as Hu
      by (apply update_execution_where_accepts; eauto).
    assert (match c, ob_previous_rollback_state ob with
      | Some c, Some s => is_valid_rollback_transition s (rc_state c) = true | _, _ => True end) as Hr.
    { destruct c, (ob_previous_rollback_state ob); cbn in Hc; naive_solver. }
    split; [by apply check_transition_accepts|]. split; [done|].
    destruct (sql_update_execution_where _ _ d) as [ru d1] eqn:Hx. cbn in *. subst ru.
    apply update_execution_where_ok in Hx as [_ ->].
    assert ((write_contract c (ob_previous_rollback_state ob)
      (set_executions (<[ex_execution_id e := e]> (db_executions d)) d)).1 = Ok tt) as Hw
      by (apply write_contract_accepts; [done | by eapply contract_permitted_written]).
    split; [done|]. destruct (write_contract _ _ _) as [rw d2] eqn:Hx. cbn in *. subst rw.
    apply write_contract_ok in Hx as (Hstep & Hrest & _ & Hex & Hob); [|done].
    by apply (outbox_accepts_written e c ob (ob_previous_rollback_state ob) d e0 He0 d2).
Qed.

(** C25: a lifecycle transition is all or nothing.  It is accepted exactly when the
    execution is stored in the state the outbox record names and the execution matrix
    permits the move, its contract likewise (or is new, of stored rows), and the outbox
    record is new by id and idempotency key and refers to stored rows; then execution,
    contract and outbox record are all written and nothing else changes.  In every other
    case the call fails and the database is what it was. *)
Theorem lifecycle_transition_atomic e c ob d :
  ((record_lifecycle_transition e c ob d).1 = Ok tt ↔ transition_permitted e c ob d) ∧
  match record_lifecycle_transition e c ob d with
  | (Ok _, d') => transition_done e c ob d d'
  | (Err _, d') => d' = d
  end.
Proof.
  split; [apply record_transition_accepts|].
  destruct (record_lifecycle_transition e c ob d) as [[[]|err] d'] eqn:H.
  - by apply record_transition_done.
  - by apply record_transition_err in H.
Qed.

(** An authorization is all or nothing: it succeeds only for a lease that is
    active and unexpired at the database's clock, and then the lease becomes used,
    the execution and its outbox record are inserted under fresh ids, and nothing
    else changes; a lost single-use race and every error leave the database as it
    was. *)
Theorem authorization_atomic l e ob now d :
  match record_authorization l e ob now d with
  | (Ok true, d') => authorization_done l e ob now d d'
  | (Ok false, d') => d' = d
  | (Err _, d') => d' = d
  end.
Proof.
  destruct (record_authorization l e ob now d) as [[[]|err] d'] eqn:H.
  - by apply record_authorization_done.
  - by apply record_authorization_false in H.
  - by apply record_authorization_err in H.
Qed.
