(* ===== verification/WellTyped.v ===== *)
(** * Well-typed databases

    The rows of the lifecycle tables are stored under their own identifiers and refer to
    stored rows, events have different identifiers and edges join stored events.  Rows
    keep what identifies them while the gateway runs ([db_evolves]), so it is enough that
    each statement only adds rows that are well typed. *)

From S2P Require Import Prelude Json Proto Admin Transitions CapService Store Adapter Effects.
From S2P Require Import StoreFacts Evolution Discipline Logic CapBackend Lifecycle GovernanceSafety HandlerSafety Safety.

(** ** Types of rows *)

Definition stored {A} (id : string) (t : gmap string A) : Prop := is_Some (t !! id).

Definition intent_typed (d : Db) (id : string) (i : IntentEnvelope) : Prop := in_intent_id i = id.
Definition proposal_typed (d : Db) (id : string) (p : ActionProposal) : Prop :=
  pr_proposal_id p = id ∧ stored (pr_intent_id p) (db_intents d).
Definition lease_typed (d : Db) (id : string) (l : CapabilityLease) : Prop :=
  cl_capability_id l = id ∧ stored (cl_intent_id l) (db_intents d) ∧ stored (cl_proposal_id l) (db_proposals d).
Definition execution_typed (d : Db) (id : string) (e : ExecutionRecord) : Prop :=
  ex_execution_id e = id ∧ stored (ex_intent_id e) (db_intents d) ∧ stored (ex_proposal_id e) (db_proposals d) ∧
  stored (ex_capability_id e) (db_capabilities d).
Definition contract_typed (d : Db) (id : string) (c : RollbackContract) : Prop :=
  rc_contract_id c = id ∧ stored (rc_intent_id c) (db_intents d) ∧ stored (rc_proposal_id c) (db_proposals d) ∧
  stored (rc_execution_id c) (db_executions d).
Definition edge_typed (d : Db) (r : EdgeRow) : Prop :=
  has_event (er_to_event_id r) d = true ∧ has_event (er_from_event_id r) d = true.

(** Every row of the table [t] has the type [P]. *)
Definition rows_typed {A} (P : string → A → Prop) (t : gmap string A) : Prop := ∀ id a, t !! id = Some a → P id a.

Record well_typed (d : Db) : Prop := {
  wt_intents : rows_typed (intent_typed d) (db_intents d);
  wt_proposals : rows_typed (proposal_typed d) (db_proposals d);
  wt_leases : rows_typed (lease_typed d) (db_capabilities d);
  wt_executions : rows_typed (execution_typed d) (db_executions d);
  wt_contracts : rows_typed (contract_typed d) (db_contracts d);
  wt_events : NoDup (ev_event_id <$> db_events d);
  wt_edges : ∀ r, r ∈ db_edges d → edge_typed d r;
}.

(** ** Well-typed additions *)

(** The rows of [t'] whose identifier is new have the type [P]. *)
Definition adds {A} (P : string → A → Prop) (t t' : gmap string A) : Prop :=
  ∀ id a, t' !! id = Some a → stored id t ∨ P id a.

Lemma adds_refl {A} (P : string → A → Prop) t : adds P t t.
Proof. intros id a H. left. by exists a. Qed.
Lemma adds_new {A} (P : string → A → Prop) t id a : P id a → adds P t (<[id := a]> t).
Proof. intros HP id' a' [[<- <-]|[_ H]]%lookup_insert_Some; [by right|left; by exists a']. Qed.
Lemma adds_old {A} (P : string → A → Prop) t id a : stored id t → adds P t (<[id := a]> t).
Proof. intros Hs id' a' [[<- _]|[_ H]]%lookup_insert_Some; [by left|left; by exists a']. Qed.

Record adds_typed (d d' : Db) : Prop := {
  at_intents : adds (intent_typed d') (db_intents d) (db_intents d');
  at_proposals : adds (proposal_typed d') (db_proposals d) (db_proposals d');
  at_leases : adds (lease_typed d') (db_capabilities d) (db_capabilities d');
  at_executions : adds (execution_typed d') (db_executions d) (db_executions d');
  at_contracts : adds (contract_typed d') (db_contracts d) (db_contracts d');
  at_events : NoDup (ev_event_id <$> db_events d) → NoDup (ev_event_id <$> db_events d');
  at_edges : ∀ r, r ∈ db_edges d' → r ∈ db_edges d ∨ edge_typed d' r;
}.

#[export] Instance adds_typed_refl : Reflexive adds_typed.
Proof. intros d. split; try apply adds_refl; [done|auto]. Qed.

Lemma grows_stored {A} (R : A → A → Prop) t t' id : grows R t t' → stored id t → stored id t'.
Proof. intros Hg [a Ha]. destruct (Hg _ _ Ha) as (a' & Ha' & _). by exists a'. Qed.

Lemma has_event_grows d d' id :
  (∀ e, e ∈ db_events d → e ∈ db_events d') → has_event id d = true → has_event id d' = true.
Proof.
  unfold has_event. rewrite !existsb_exists. intros Hg (e & He & Hid). exists e. split; [|done].
  apply list_elem_of_In, Hg. by apply list_elem_of_In.
Qed.

(** A table that grows along [R] keeps its type if [R] does. *)
Lemma rows_typed_grows {A} (R : A → A → Prop) (P P' : string → A → Prop) t t' :
  grows R t t' → adds P' t t' → (∀ id a a', R a a' → P id a → P' id a') → rows_typed P t → rows_typed P' t'.
Proof.
  intros Hg Ha HR Ht id a' Ha'. destruct (Ha _ _ Ha') as [[a Hs]|?]; [|done].
  destruct (Hg _ _ Hs) as (b & Hb & Hab). simplify_eq. eapply HR; [done|]. by apply Ht.
Qed.

Lemma well_typed_evolves d d' : db_evolves d d' → adds_typed d d' → well_typed d → well_typed d'.
Proof.
  intros Hev Hadd Hwt. destruct Hev, Hadd, Hwt. split.
  - eapply rows_typed_grows; [done..| |done]. by intros id a a' <-.
  - eapply rows_typed_grows; [done..| |done]. intros id a a' <- [? ?]. split; [done|by eapply grows_stored].
  - eapply rows_typed_grows; [done..| |done]. intros id l l' [Ht _] (? & ? & ?). unfold lease_terms in Ht.
    unfold lease_typed. injection Ht as -> -> -> _. split_and!; [done|by eapply grows_stored..].
  - eapply rows_typed_grows; [done..| |done]. intros id e e' [Ht _] (? & ? & ? & ?). unfold execution_identity in Ht.
    unfold execution_typed. injection Ht as -> -> -> -> _. split_and!; [done|by eapply grows_stored..].
  - eapply rows_typed_grows; [done..| |done]. intros id c c' [Ht _] (? & ? & ? & ?). unfold contract_identity in Ht.
    unfold contract_typed. injection Ht as -> -> -> -> _. split_and!; [done|by eapply grows_stored..].
  - auto.
  - intros r Hr. destruct (at_edges0 r Hr) as [Hold|?]; [|done]. destruct (wt_edges0 r Hold). split; by eapply has_event_grows.
Qed.

(** ** Statements *)

(** The tables of rows above are those of [d]. *)
Definition same_rows (d d' : Db) : Prop :=
  (db_intents d', db_proposals d', db_capabilities d', db_executions d', db_contracts d', db_events d', db_edges d') =
  (db_intents d, db_proposals d, db_capabilities d, db_executions d, db_contracts d, db_events d, db_edges d).

Lemma same_rows_adds d d' : same_rows d d' → adds_typed d d'.
Proof.
  intros H. injection H as H1 H2 H3 H4 H5 H6 H7. split; rewrite ?H1, ?H2, ?H3, ?H4, ?H5, ?H6, ?H7; try apply adds_refl; auto.
Qed.
#[export] Instance same_rows_refl : Reflexive same_rows.
Proof. by intros d. Qed.
#[export] Instance same_rows_trans : Transitive same_rows.
Proof. unfold same_rows. intros a b c. congruence. Qed.

Lemma same_set_outbox d t : same_rows d (set_outbox t d).
Proof. by destruct d. Qed.
Lemma same_set_approvals d t : same_rows d (set_approvals t d).
Proof. by destruct d. Qed.
Lemma same_set_audit_log d t : same_rows d (set_audit_log t d).
Proof. by destruct d. Qed.
Lemma same_set_holds d t : same_rows d (set_holds t d).
Proof. by destruct d. Qed.
Lemma same_set_admin d t : same_rows d (set_admin t d).
Proof. by destruct d. Qed.

Create HintDb typed.
#[export] Hint Resolve same_set_outbox same_set_approvals same_set_audit_log same_set_holds same_set_admin same_rows_refl
  same_rows_adds adds_typed_refl : typed.

Ltac stored_rows :=
  repeat match goal with
  | H : _ && _ = true |- _ => apply andb_true_iff in H as [? ?]
  | H : negb _ = false |- _ => apply negb_false_iff in H
  | H : has _ _ = true |- _ => apply has_true in H
  end.

Lemma claim_all_same owner now exp ids d : same_rows d (claim_all owner now exp ids d).2.
Proof.
  revert d. induction ids as [|id ids IH]; intros d; simpl; [done|].
  destruct (claim_one owner now exp id d) as [c d1] eqn:Hc.
  assert (same_rows d d1) as H1.
  { revert Hc. unfold claim_one. repeat case_match; intros; simplify_eq; auto with typed. }
  specialize (IH d1). destruct (claim_all owner now exp ids d1) as [cs d2]. by trans d1.
Qed.
Lemma claim_pending_same limit owner ttl now d : same_rows d (after (claim_pending_reconciliation limit owner ttl now) d).
Proof.
  unfold claim_pending_reconciliation. destruct limit; [reflexivity|].
  match goal with |- context [claim_all ?a ?b ?c ?e ?d] => pose proof (claim_all_same a b c e d) end.
  by destruct (claim_all _ _ _ _ _).
Qed.
Lemma admin_same {A} (s : astmt A) d : same_rows d (after (sql_admin s) d).
Proof. unfold sql_admin. destruct (s _). simpl. auto with typed. Qed.
Lemma insert_outbox_same r d : same_rows d (after (insert_outbox_record_tx r) d).
Proof. unfold insert_outbox_record_tx. repeat case_match; simpl; auto with typed. Qed.
#[export] Hint Resolve claim_pending_same admin_same insert_outbox_same : typed.

(** Additions followed by a statement that leaves the rows alone. *)
Lemma adds_typed_same d d1 d2 : adds_typed d d1 → same_rows d1 d2 → adds_typed d d2.
Proof.
  intros [] H. injection H as H1 H2 H3 H4 H5 H6 H7.
  split; unfold intent_typed, proposal_typed, lease_typed, execution_typed, contract_typed, edge_typed, has_event in *;
    rewrite ?H1, ?H2, ?H3, ?H4, ?H5, ?H6, ?H7; done.
Qed.

(** One table changes. *)
Lemma adds_intents d t : adds (intent_typed (set_intents t d)) (db_intents d) t → adds_typed d (set_intents t d).
Proof. destruct d. split; try apply adds_refl; simpl; auto. Qed.
Lemma adds_proposals d t : adds (proposal_typed (set_proposals t d)) (db_proposals d) t → adds_typed d (set_proposals t d).
Proof. destruct d. split; try apply adds_refl; simpl; auto. Qed.
Lemma adds_leases d t : adds (lease_typed (set_capabilities t d)) (db_capabilities d) t → adds_typed d (set_capabilities t d).
Proof. destruct d. split; try apply adds_refl; simpl; auto. Qed.
Lemma adds_executions d d1 t :
  adds_typed d d1 → db_executions d1 = db_executions d → db_contracts d1 = db_contracts d →
  adds (execution_typed (set_executions t d1)) (db_executions d) t → adds_typed d (set_executions t d1).
Proof. intros [] He Hc. destruct d1; simpl in *. subst. split; try done. apply adds_refl. Qed.
Lemma adds_contracts d d1 t :
  adds_typed d d1 → db_contracts d1 = db_contracts d →
  adds (contract_typed (set_contracts t d1)) (db_contracts d) t → adds_typed d (set_contracts t d1).
Proof. intros [] Hc. destruct d1; simpl in *. subst. by split. Qed.

Lemma insert_intent_typed i d : adds_typed d (after (insert_intent i) d).
Proof. unfold insert_intent. case_match; [done|]. by apply adds_intents, adds_new. Qed.
Lemma insert_proposal_typed p d : adds_typed d (after (insert_proposal p) d).
Proof.
  unfold insert_proposal. repeat case_match; [done..|]. stored_rows. apply adds_proposals, adds_new. destruct d. by split.
Qed.
Lemma insert_capability_typed l d : adds_typed d (after (insert_capability l) d).
Proof.
  unfold insert_capability. repeat case_match; [done..|]. stored_rows. apply adds_leases, adds_new. destruct d. by split_and!.
Qed.
Lemma update_capability_typed l d : adds_typed d (after (update_capability l) d).
Proof. unfold update_capability. case_match; [|done]. stored_rows. by apply adds_leases, adds_old. Qed.
Lemma set_status_typed id s now d : adds_typed d (after (sql_capability_set_status_if_active id s now) d).
Proof.
  unfold sql_capability_set_status_if_active. destruct (_ !! id) eqn:Hl; [|done]. case_match; [|done].
  apply adds_leases, adds_old. by eexists.
Qed.
Lemma revoke_typed id ts d : adds_typed d (after (revoke_if_active id ts) d).
Proof. unfold revoke_if_active. destruct (_ !! id) eqn:Hl; [|done]. case_match; [|done]. apply adds_leases, adds_old. by eexists. Qed.
Lemma cas_typed id expected new now d : adds_typed d (after (compare_and_set_state id expected new now) d).
Proof.
  unfold compare_and_set_state. destruct expected; [done|]. destruct (_ !! id) eqn:He; [|done]. case_match; [|done].
  apply adds_executions; [done..|]. apply adds_old. by eexists.
Qed.

Lemma transaction_typed {A} (s : stmt A) d : (∀ a d', s d = (Ok a, d') → adds_typed d d') → adds_typed d (after (transaction s) d).
Proof. intros Hs. unfold transaction. destruct (s d) as [[] d'] eqn:Hd; [by eapply Hs|done]. Qed.

(** The last statement of a transaction of the lifecycle. *)
Lemma outbox_last d d1 o u d2 : adds_typed d d1 → insert_outbox_record_tx o d1 = (Ok u, d2) → adds_typed d d2.
Proof. intros Hd Hr. eapply adds_typed_same; [exact Hd|]. pose proof (insert_outbox_same o d1) as Hs. by rewrite Hr in Hs. Qed.

Lemma update_execution_typed e expected d b d' : sql_update_execution_where e expected d = (Ok b, d') →
  adds_typed d d' ∧ db_contracts d' = db_contracts d.
Proof.
  unfold sql_update_execution_where. destruct (db_executions d !! _) eqn:He; [|by intros [= _ <-]].
  destruct (decide _); intros [= _ <-]; [|done]. split; [|by destruct d].
  apply adds_executions; [done..|]. apply adds_old. by eexists.
Qed.
Lemma update_contract_typed d c expected d1 b d2 : adds_typed d d1 → db_contracts d1 = db_contracts d →
  sql_update_contract_where c expected d1 = (Ok b, d2) → adds_typed d d2.
Proof.
  intros Hd Hc. unfold sql_update_contract_where. destruct (db_contracts d1 !! _) eqn:Hl; [|by intros [= _ <-]].
  destruct (decide _); intros [= _ <-]; [|done]. apply adds_contracts; [done..|]. rewrite Hc in *. apply adds_old. by eexists.
Qed.
Lemma insert_contract_typed d c d1 u d2 : adds_typed d d1 → db_contracts d1 = db_contracts d →
  sql_insert_contract c d1 = (Ok u, d2) → adds_typed d d2.
Proof.
  intros Hd Hc. unfold sql_insert_contract. repeat case_match; intros [= _ <-]. stored_rows.
  apply adds_contracts; [done..|]. rewrite Hc. apply adds_new. destruct d1. by split_and!.
Qed.

Lemma record_transition_typed e c o d : adds_typed d (after (record_lifecycle_transition e c o) d).
Proof.
  apply transaction_typed. intros u d'. destruct (check_transition e c o); [|done].
  intros (b & d1 & [Hd1 Hc1]%update_execution_typed & H)%then_ok. destruct (negb b); [done|].
  apply then_ok in H as (u1 & d2 & H2 & Ho). eapply outbox_last; [|exact Ho].
  destruct c as [c|]; [|by injection H2 as _ <-]. destruct (ob_previous_rollback_state o); [|by eapply insert_contract_typed].
  apply then_ok in H2 as (b2 & d3 & H3 & H4). destruct (negb b2); [done|]. injection H4 as _ <-. by eapply update_contract_typed.
Qed.
Lemma record_authorization_typed l e o now d : adds_typed d (after (record_authorization l e o now) d).
Proof.
  apply transaction_typed. intros u d' (b & d1 & H1 & H)%then_ok.
  pose proof (set_status_typed (cl_capability_id l) CS_Used now d) as Hd1. rewrite H1 in Hd1. cbn [snd] in Hd1.
  assert (db_executions d1 = db_executions d ∧ db_contracts d1 = db_contracts d) as [He Hc].
  { revert H1. unfold sql_capability_set_status_if_active. repeat case_match; intros [= _ <-]; by destruct d. }
  destruct (negb b); [by injection H as _ <-|]. apply then_ok in H as (u1 & d2 & H2 & H).
  apply then_ok in H as (u2 & d3 & H3 & [= _ <-]). eapply outbox_last; [|exact H3].
  revert H2. unfold sql_insert_execution. repeat case_match; intros [= _ <-]. stored_rows.
  apply adds_executions; [done..|]. rewrite <- He. apply adds_new. destruct d1. by split_and!.
Qed.

(** Edges join stored events, and a new event has a new identifier. *)
Lemma insert_edges_typed id edges d d1 : adds_typed d d1 → adds_typed d (after (sql_insert_edges id edges) d1).
Proof.
  revert d1. induction edges as [|e edges IH]; intros d1 Hd1; simpl; [done|].
  destruct (_ && _) eqn:Hh; [|done]. stored_rows. apply IH. destruct Hd1, d1; simpl in *. split; simpl; try done.
  intros r [Hr|Hr]%elem_of_app; [by apply at_edges0|]. apply list_elem_of_singleton in Hr as ->. by right.
Qed.
Lemma insert_event_typed e d d' u : sql_insert_event e d = (Ok u, d') → adds_typed d d'.
Proof.
  unfold sql_insert_event. destruct (has_event _ _) eqn:Hh; [done|]. intros [= _ <-].
  destruct d; split; try apply adds_refl; simpl in *; [|by left].
  intros Hn. rewrite fmap_app. apply NoDup_app. split_and!; [done| |apply NoDup_singleton].
  intros x (e0 & -> & He0)%list_elem_of_fmap Hx. apply list_elem_of_singleton in Hx.
  unfold has_event in Hh. simpl in Hh. apply not_true_iff_false in Hh. apply Hh, existsb_exists.
  exists e0. split; [by apply list_elem_of_In|]. rewrite Hx. apply String.eqb_refl.
Qed.
Lemma append_event_typed e edges d : adds_typed d (after (append_event_with_edges e edges) d).
Proof.
  unfold append_event_with_edges. destruct (existsb _ _); [done|]. apply transaction_typed.
  intros u d' (u1 & d1 & H1 & H2)%then_ok. pose proof (insert_event_typed _ _ _ _ H1) as Hd1.
  pose proof (insert_edges_typed (ev_event_id e) edges d d1 Hd1) as H. by rewrite H2 in H.
Qed.

(** ** Operations *)

Lemma exec_db_typed {A} env (s : stmt A) w x w' :
  (∀ d, adds_typed d (after s d)) → exec_db env s w = (x, w') → adds_typed (w_db w) (w_db w').
Proof.
  intros Hs. destruct w as [d mem m l t]; simpl. specialize (Hs d).
  by destruct (env_fault env t) as [[]|]; [| |destruct (s d)]; intros; simplify_eq/=.
Qed.

#[export] Hint Resolve insert_intent_typed insert_proposal_typed insert_capability_typed update_capability_typed
  set_status_typed revoke_typed cas_typed record_transition_typed record_authorization_typed append_event_typed
  insert_edges_typed : typed.

(** Whatever operation runs, the rows it adds are well typed. *)
Lemma exec_op_typed env {X} (o : op X) w x w' : exec_op env o w = (x, w') → adds_typed (w_db w) (w_db w').
Proof.
  destruct o; simpl; intros Hx;
    try (eapply exec_db_typed; [|exact Hx]; intros d';
         first [ reflexivity | solve [eauto with typed]
               | unfold insert_hold, sql_update_pending_hold, sql_resolve_approval, sql_expire_approval, update_outbox_record,
                   renew_reconciliation_lease, update_outbox_record_claimed, append_edge, update_status_if_active;
                 solve [repeat case_match; simpl; eauto with typed] ]);
    unfold exec_pure, exec_cap, exec_profiler, exec_auth, exec_adapter in Hx; destruct w; simpl in *;
    repeat case_match; by simplify_eq.
Qed.

(** ** The theorem *)

Section theorem.
Context (app : App) (env : Env) `{!QuietBackend (app_cap app)}.

(** C30: However handlers and background passes are interleaved and whatever fails, the
    lifecycle tables stay well typed if they were at the start: every intent, proposal,
    lease, execution and contract is stored under its own identifier, the rows it refers
    to are stored, no two provenance events share an identifier and every edge joins two
    stored events. *)
Theorem database_well_typed w0 p :
  well_typed (w_db w0) → reachable app env w0 p → well_typed (w_db (p_world p)).
Proof.
  intros Hwt [Hi Hr]. assert (reachable app env w0 (mkPool [] w0)) as H0 by by split.
  assert (∀ q q', reachable app env w0 q → pool_reach (admitted app) env q q' →
    well_typed (w_db (p_world q)) → well_typed (w_db (p_world q'))) as H; [|by apply (H _ _ H0 Hr)].
  clear p Hr H0. intros q q' Hq Hr. induction Hr as [q|q q1 q' Hstep _ IH]; [done|]. intros Hwtq.
  pose proof (rtc_once _ _ Hstep) as Hone. apply IH; [by eapply reachable_trans|].
  eapply well_typed_evolves; [by apply evo_db, (reachable_evolves app env w0 q q1)| |done].
  destruct Hstep as [i X o k ts w x w' _ Hx|]; [by eapply exec_op_typed|done].
Qed.
End theorem.
