(* ===== verification/Reconcile.v ===== *)
(** * Lifecycle reconciliation (crates/ferrum-store/src/reconciliation.rs)

    The background worker that closes outbox records whose provenance was not
    written by the handler that made the transition: it claims records under a
    lease, checks that the stored states are those the record announces, finds or
    repairs the missing events, and marks the record reconciled or in need of
    review.  The store's claimed and operator outbox methods are here too.

    The second part holds the endpoints of operators for the outbox. *)

From stdpp Require Import pretty.
From S2P Require Import Prelude Json Proto Admin Behavioral Transitions CapService Store Adapter Effects Firewall.
From S2P Require Import CapBackend Validation Provenance Lifecycle Policies Auth Principals.

(** ** Outbox methods of the store that take several statements *)

(** The record with a status and error, one more attempt. *)
Definition ob_failed (status : LifecycleOutboxStatus) (error : string) (now : Timestamp)
    (r : LifecycleOutboxRecord) : LifecycleOutboxRecord :=
  ob_set_status status (Some error) (u32_saturating_add (ob_attempt_count r) 1) now (ob_metadata r) r.

(** A read of the record, a change, and a fenced write. *)
Definition update_claimed_with (lease : LifecycleOutboxLease) (clear_lease : bool)
    (f : Timestamp → LifecycleOutboxRecord → LifecycleOutboxRecord) : prog (result bool StoreError) :=
  row <-? call (op_get_outbox (ls_outbox_id lease)) ;;
  match row with
  | None => Ret (Ok false)
  | Some row =>
      now <- call op_now ;;
      call (op_update_claimed (f now (row_record row)) lease clear_lease)
  end.

(** [mark_provenance_obligation_written_claimed]. *)
Definition mark_provenance_obligation_written_claimed (lease : LifecycleOutboxLease)
    (event_kind : ProvenanceEventKind) (event_id : EventId) : prog (result bool StoreError) :=
  update_claimed_with lease false (mark_obligation_written event_kind event_id).

(** [mark_provenance_written_claimed]. *)
Definition mark_provenance_written_claimed (lease : LifecycleOutboxLease) (event_id : EventId)
  : prog (result bool StoreError) :=
  row <-? call (op_get_outbox (ls_outbox_id lease)) ;;
  match row with
  | None => Ret (Ok false)
  | Some row =>
      mark_provenance_obligation_written_claimed lease
        (ob_intended_provenance_kind (row_record row)) event_id
  end.

(** The reconciled record. *)
Definition ob_reconciled (result : JsonMap) (now : Timestamp) (r : LifecycleOutboxRecord)
  : LifecycleOutboxRecord :=
  ob_set_status LO_Reconciled (ob_last_error r) (ob_attempt_count r) now
    (index_insert "reconciliation_result" (JObj result) (ob_metadata r)) r.

(** [mark_reconciled_claimed]. *)
Definition mark_reconciled_claimed (lease : LifecycleOutboxLease) (result : JsonMap)
  : prog (Prelude.result bool StoreError) :=
  current <-? call (op_lease_current lease) ;;
  if negb current then Ret (Ok false)
  else
    row <-? call (op_get_outbox (ls_outbox_id lease)) ;;
    match row with
    | None => Ret (Ok false)
    | Some row =>
        now <- call op_now ;;
        let record := ob_reconciled result now (row_record row) in
        match require_all_obligations_satisfied record with
        | Err e => Ret (Err e)
        | Ok _ => call (op_update_claimed record lease true)
        end
    end.

(** [mark_needs_operator_review_claimed]. *)
Definition mark_needs_operator_review_claimed (lease : LifecycleOutboxLease) (reason : string)
  : prog (result bool StoreError) :=
  update_claimed_with lease true (ob_failed LO_NeedsOperatorReview reason).

(** [record_reconciliation_failure]. *)
Definition record_reconciliation_failure (lease : LifecycleOutboxLease) (error : string)
    (max_attempts : Z) : prog (result ReconciliationFailureDisposition StoreError) :=
  row <-? call (op_get_outbox (ls_outbox_id lease)) ;;
  match row with
  | None => Ret (Ok RF_LeaseLost)
  | Some row =>
      let record := row_record row in
      now <- call op_now ;;
      let exhausted := (max_attempts <=? u32_saturating_add (ob_attempt_count record) 1)%Z in
      let record' := ob_failed (if exhausted then LO_NeedsOperatorReview else ob_status record)
                       error now record in
      updated <-? call (op_update_claimed record' lease true) ;;
      Ret (Ok (if updated : bool
               then if exhausted then RF_NeedsOperatorReview else RF_Retryable
               else RF_LeaseLost))
  end.

(** [mark_needs_operator_review]. *)
Definition mark_needs_operator_review (outbox_id : LifecycleOutboxId) (reason : string)
  : prog (result unit StoreError) :=
  row <-? call (op_get_outbox outbox_id) ;;
  match row with
  | None => Ret (Ok tt)
  | Some row =>
      now <- call op_now ;;
      updated <-? call (op_update_outbox (ob_failed LO_NeedsOperatorReview reason now (row_record row))
                          true false) ;;
      Ret (require_updated updated)
  end.

(** The operator's decision on a record; [time_json] is how serde writes a
    timestamp. *)
Definition ob_decided (time_json : Timestamp → json) (status : LifecycleOutboxStatus)
    (key time_key actor_id : string) (reason : option string) (now : Timestamp)
    (r : LifecycleOutboxRecord) : LifecycleOutboxRecord :=
  ob_set_status status None (ob_attempt_count r) now
    (index_insert key
       (JObj [("actor_id", JStr actor_id);
              ("reason", match reason with Some s => JStr s | None => JNull end);
              (time_key, time_json now)]) (ob_metadata r)) r.

(** [reset_for_retry] and [mark_operator_resolved]. *)
Definition operator_decision (time_json : Timestamp → json) (status : LifecycleOutboxStatus)
    (key time_key : string) (outbox_id : LifecycleOutboxId) (actor_id : string)
    (reason : option string) : prog (result (option LifecycleOutboxRecord) StoreError) :=
  row <-? call (op_get_outbox outbox_id) ;;
  match row with
  | None => Ret (Ok None)
  | Some row =>
      now <- call op_now ;;
      let record := ob_decided time_json status key time_key actor_id reason now (row_record row) in
      updated <-? call (op_update_outbox record true true) ;;
      Ret match require_updated updated with Ok _ => Ok (Some record) | Err e => Err e end
  end.

Definition reset_for_retry (time_json : Timestamp → json) (outbox_id : LifecycleOutboxId)
    (actor_id : string) (reason : option string) :=
  operator_decision time_json LO_PendingProvenance "operator_retry" "requested_at" outbox_id actor_id
    reason.
Definition mark_operator_resolved (time_json : Timestamp → json) (outbox_id : LifecycleOutboxId)
    (actor_id reason : string) :=
  operator_decision time_json LO_Reconciled "operator_resolved" "resolved_at" outbox_id actor_id
    (Some reason).

(** ** reconciliation.rs *)

Definition DEFAULT_RECONCILIATION_LEASE_TTL_SECS : Z := 120.
Definition MAX_RECONCILIATION_ATTEMPTS : Z := 3.
Definition MAX_CLAIMS_PER_LEASE_BATCH : nat := 3.
Definition RECONCILIATION_RECORD_TIMEOUT_SECS : Z := 30.

Record LifecycleReconciliationReport := mkReport {
  rp_scanned : nat;
  rp_already_reconciled : nat;
  rp_repaired_missing_provenance : nat;
  rp_needs_operator_review : nat;
  rp_failures : nat;
  rp_retryable_failures : nat;
  rp_claim_conflicts : nat;
  rp_timed_out : nat;
}.

Inductive ReconcileOutcome :=
| RO_AlreadyReconciled | RO_RepairedMissingProvenance | RO_NeedsOperatorReview.

Definition require_fence (updated : bool) : result unit StoreError :=
  if updated then Ok tt
  else Err (SE_Other "lifecycle reconciliation lease fencing token is stale").

Definition renew_or_fence (lease : LifecycleOutboxLease) (lease_ttl : Z) : prog (result unit StoreError) :=
  updated <-? call (op_renew lease lease_ttl) ;;
  Ret (require_fence updated).

(** [outbox.mark_needs_operator_review_claimed(..).await.and_then(require_fence)?]
    followed by the outcome. *)
Definition needs_review {T} (lease : LifecycleOutboxLease) (reason : string)
    (k : prog (result T StoreError)) : prog (result T StoreError) :=
  updated <-? mark_needs_operator_review_claimed lease reason ;;
  match require_fence updated with Ok _ => k | Err e => Ret (Err e) end.

Definition obligations_for_record (record : LifecycleOutboxRecord) : list ProvenanceObligation :=
  match ob_provenance_obligations record with
  | [] =>
      let o := obligation_pending (ob_intended_provenance_kind record) in
      [{| po_event_kind := po_event_kind o; po_parent_kind := po_parent_kind o;
          po_edge_type := po_edge_type o; po_event_id := ob_provenance_event_id record |}]
  | l => l
  end.

(** A query by execution or capability, and kind. *)
Definition query_kind (execution_id : option ExecutionId) (capability_id : option CapabilityId)
    (kind : ProvenanceEventKind) : ProvenanceQueryRequest :=
  {| pq_intent_id := None; pq_execution_id := execution_id; pq_capability_id := capability_id;
     pq_event_kind := Some kind; pq_since := None; pq_until := None; pq_edge_types := [] |}.

(** The event was written for this outbox record. *)
Definition event_of_record (record : LifecycleOutboxRecord) (event : ProvenanceEvent) : bool :=
  match ob_rollback_contract_id record with
  | None => true
  | Some c => bool_decide (ev_rollback_contract_id event = Some c)
  end
  && bool_decide (smap_get "lifecycle_outbox_id" (ev_metadata event) ≫= as_str = Some (ob_outbox_id record))
  && bool_decide (smap_get "idempotency_key" (ev_metadata event) ≫= as_str
                  = Some (ob_idempotency_key record)).

Definition discover_matching_event (record : LifecycleOutboxRecord) (obligation : ProvenanceObligation)
  : prog (result (option ProvenanceEvent) StoreError) :=
  events <-? call (op_query (query_kind (Some (ob_execution_id record)) None (po_event_kind obligation))) ;;
  Ret (Ok match filter (λ e, event_of_record record e) events with [e] => Some e | _ => None end).

(** The edge to the unique candidate parent, when there is exactly one. *)
Definition unique_parent_edge (edge_type : ProvenanceEdgeType) (event_id : EventId)
    (candidates : list ProvenanceEvent) : option ProvenanceEdge :=
  match candidates with
  | [parent] => Some {| ed_edge_type := edge_type; ed_from_event_id := ev_event_id parent;
                        ed_to_event_id := Some event_id;
                        ed_summary := Some "reconciled lifecycle causality edge" |}
  | _ => None
  end.

Definition required_parent_edge (record : LifecycleOutboxRecord) (execution : ExecutionRecord)
    (obligation : ProvenanceObligation) (event_id : EventId)
  : prog (result (option ProvenanceEdge) StoreError) :=
  match po_parent_kind obligation with
  | None => Ret (Ok None)
  | Some parent_kind =>
      let edge_type := default PE_Caused (po_edge_type obligation) in
      candidates <-? call (op_query (query_kind (Some (ob_execution_id record)) None parent_kind)) ;;
      match candidates, parent_kind with
      | [], PK_CapabilityMinted =>
          candidates <-? call (op_query (query_kind None (Some (ex_capability_id execution)) parent_kind)) ;;
          Ret (Ok (unique_parent_edge edge_type event_id candidates))
      | _, _ => Ret (Ok (unique_parent_edge edge_type event_id candidates))
      end
  end.

Definition ensure_required_parent_edge (claim : LifecycleOutboxClaim) (execution : ExecutionRecord)
    (obligation : ProvenanceObligation) (event_id : EventId) (lease_ttl : Z)
  : prog (result bool StoreError) :=
  existing_edges <-? call (op_edges_to event_id) ;;
  match po_edge_type obligation with
  | None => Ret (Ok true)
  | Some expected_edge_type =>
      if existsb (λ edge, bool_decide (ed_edge_type edge = expected_edge_type)) existing_edges
      then Ret (Ok true)
      else
        edge <-? required_parent_edge (lc_record claim) execution obligation event_id ;;
        match edge with
        | None => Ret (Ok false)
        | Some edge =>
            _ <-? renew_or_fence (lc_lease claim) lease_ttl ;;
            _ <-? call (op_append_edge event_id edge) ;;
            Ret (Ok true)
        end
  end.

Definition ambiguous_parent : string := "required parent edge is ambiguous or missing".

Definition repaired_event (event_id : EventId) (now : Timestamp) (record : LifecycleOutboxRecord)
    (execution : ExecutionRecord) (rollback_contract : option RollbackContract)
    (event_kind : ProvenanceEventKind) : ProvenanceEvent :=
  {| ev_event_id := event_id; ev_kind := event_kind; ev_occurred_at := now;
     ev_actor := {| ar_actor_type := AT_Gateway; ar_actor_id := "ferrum-store-reconciler";
                    ar_display_name := Some "FerrumGate Store Reconciler" |};
     ev_object :=
       match rollback_contract with
       | Some c => object_ref OT_RollbackContract (rc_contract_id c)
                     "Lifecycle provenance repaired from outbox"
       | None => object_ref OT_SideEffect (ex_execution_id execution)
                   "Lifecycle provenance repaired from outbox"
       end;
     ev_intent_id := Some (ex_intent_id execution); ev_proposal_id := Some (ex_proposal_id execution);
     ev_execution_id := Some (ex_execution_id execution);
     ev_capability_id := Some (ex_capability_id execution);
     ev_rollback_contract_id := rc_contract_id <$> rollback_contract;
     ev_policy_bundle_id := None; ev_trust_labels := []; ev_sensitivity_labels := [];
     ev_parent_edges := []; ev_hash_chain := no_hashes;
     ev_metadata :=
       [("reconciled", JBool true); ("lifecycle_outbox_id", JStr (ob_outbox_id record));
        ("idempotency_key", JStr (ob_idempotency_key record))];
     ev_source_runtime_id := None |}.

(** What happened to one obligation. *)
Inductive ObligationOutcome := OO_Present | OO_Discovered | OO_Repaired | OO_Review.

(** The body of the loop over the obligations. *)
Definition reconcile_obligation (claim : LifecycleOutboxClaim) (execution : ExecutionRecord)
    (contract : option RollbackContract) (lease_ttl : Z) (obligation : ProvenanceObligation)
  : prog (result ObligationOutcome StoreError) :=
  let record := lc_record claim in
  let lease := lc_lease claim in
  let review := needs_review lease ambiguous_parent (Ret (Ok OO_Review)) in
  let mark event_id outcome :=
    updated <-? mark_provenance_obligation_written_claimed lease (po_event_kind obligation) event_id ;;
    Ret match require_fence updated with Ok _ => Ok outcome | Err e => Err e end in
  present <-? match po_event_id obligation with
              | Some event_id => call (op_get_event event_id)
              | None => Ret (Ok None)
              end ;;
  match present, po_event_id obligation with
  | Some _, Some event_id =>
      ok <-? ensure_required_parent_edge claim execution obligation event_id lease_ttl ;;
      if negb ok then review else Ret (Ok OO_Present)
  | _, _ =>
      found <-? discover_matching_event record obligation ;;
      match found with
      | Some event =>
          ok <-? ensure_required_parent_edge claim execution obligation (ev_event_id event) lease_ttl ;;
          if negb ok then review else mark (ev_event_id event) OO_Discovered
      | None =>
          event_id <- call op_uuid ;;
          now <- call op_now ;;
          let event := repaired_event event_id now record execution contract (po_event_kind obligation) in
          edge <-? required_parent_edge record execution obligation event_id ;;
          match edge with
          | None => review
          | Some parent_edge =>
              _ <-? renew_or_fence lease lease_ttl ;;
              _ <-? call (op_append_event event [parent_edge]) ;;
              mark event_id OO_Repaired
          end
      end
  end.

(** The loop: the flags [repaired] and [discovered], or [None] after a return. *)
Fixpoint reconcile_obligations (claim : LifecycleOutboxClaim) (execution : ExecutionRecord)
    (contract : option RollbackContract) (lease_ttl : Z) (repaired discovered : bool)
    (obligations : list ProvenanceObligation) : prog (result (option (bool * bool)) StoreError) :=
  match obligations with
  | [] => Ret (Ok (Some (repaired, discovered)))
  | obligation :: rest =>
      outcome <-? reconcile_obligation claim execution contract lease_ttl obligation ;;
      match outcome with
      | OO_Review => Ret (Ok None)
      | OO_Present => reconcile_obligations claim execution contract lease_ttl repaired discovered rest
      | OO_Discovered => reconcile_obligations claim execution contract lease_ttl repaired true rest
      | OO_Repaired => reconcile_obligations claim execution contract lease_ttl true discovered rest
      end
  end.

Definition reconciliation_result (status : string) : JsonMap := [("status", JStr status)].

Definition debug_option_rollback_state (s : option RollbackState) : string :=
  match s with Some s => "Some(" +:+ debug_rollback_state s +:+ ")" | None => "None" end.

(** The load of the contract and its drift check: [None] when the record has none. *)
Definition reconcile_contract {T} (claim : LifecycleOutboxClaim)
    (review : string → prog (result T StoreError))
    (k : option RollbackContract → prog (result T StoreError)) : prog (result T StoreError) :=
  let record := lc_record claim in
  match ob_rollback_contract_id record with
  | None => k None
  | Some contract_id =>
      contract <-? call (op_get_contract contract_id) ;;
      match contract with
      | None => review "rollback contract missing during lifecycle reconciliation"
      | Some contract =>
          if negb (bool_decide (Some (rc_state contract) = ob_new_rollback_state record)) then
            review ("rollback state drift: stored=" +:+ debug_rollback_state (rc_state contract)
                    +:+ ", outbox_expected=" +:+ debug_option_rollback_state (ob_new_rollback_state record))
          else k (Some contract)
      end
  end.

(** [reconcile_record]. *)
Definition reconcile_record (claim : LifecycleOutboxClaim) (lease_ttl : Z)
  : prog (result ReconcileOutcome StoreError) :=
  let record := lc_record claim in
  let lease := lc_lease claim in
  let review reason := needs_review lease reason (Ret (Ok RO_NeedsOperatorReview)) in
  match ob_status record with
  | LO_Reconciled => Ret (Ok RO_AlreadyReconciled)
  | _ =>
      execution <-? call (op_get_execution (ob_execution_id record)) ;;
      match execution with
      | None => review "execution missing during lifecycle reconciliation"
      | Some execution =>
          if negb (bool_decide (ex_state execution = ob_new_execution_state record)) then
            review ("execution state drift: stored=" +:+ debug_execution_state (ex_state execution)
                    +:+ ", outbox_expected=" +:+ debug_execution_state (ob_new_execution_state record))
          else
            reconcile_contract claim review (λ contract,
              flags <-? reconcile_obligations claim execution contract lease_ttl false false
                          (obligations_for_record record) ;;
              match flags with
              | None => Ret (Ok RO_NeedsOperatorReview)
              | Some (repaired, discovered) =>
                  updated <-? mark_reconciled_claimed lease
                    (reconciliation_result
                       (if repaired then "missing_provenance_repaired"
                        else if discovered then "event_discovered" else "event_present")) ;;
                  Ret match require_fence updated with
                      | Err e => Err e
                      | Ok _ => Ok (if repaired then RO_RepairedMissingProvenance else RO_AlreadyReconciled)
                      end
              end)
      end
  end.

(** [tokio::time::timeout]: the future is dropped after [n] of its operations. *)
Fixpoint timeout {A} (n : nat) (p : prog A) : prog (option A) :=
  match p with
  | Ret a => Ret (Some a)
  | Do o k => match n with O => Ret None | S n => Do o (λ x, timeout n (k x)) end
  end.

(** [record_failure]. *)
Definition record_failure (lease : LifecycleOutboxLease) (error : string)
    (report : LifecycleReconciliationReport) : prog LifecycleReconciliationReport :=
  let '(mkReport s a rep n f rt c t) := report in
  r <- record_reconciliation_failure lease error MAX_RECONCILIATION_ATTEMPTS ;;
  Ret match r with
      | Ok RF_Retryable => mkReport s a rep n (S f) (S rt) c t
      | Ok RF_NeedsOperatorReview => mkReport s a rep (S n) (S f) rt c t
      | Ok RF_LeaseLost | Err _ => mkReport s a rep n (S f) rt (S c) t
      end.

(** One claim of the batch, cut after [budget] operations. *)
Definition reconcile_claim (lease_ttl : Z) (budget : nat) (claim : LifecycleOutboxClaim)
    (report : LifecycleReconciliationReport) : prog LifecycleReconciliationReport :=
  r <- timeout budget (reconcile_record claim lease_ttl) ;;
  let '(mkReport s a rep n f rt c t) := report in
  match r with
  | Some (Ok RO_AlreadyReconciled) => Ret (mkReport s (S a) rep n f rt c t)
  | Some (Ok RO_RepairedMissingProvenance) => Ret (mkReport s a (S rep) n f rt c t)
  | Some (Ok RO_NeedsOperatorReview) => Ret (mkReport s a rep (S n) f rt c t)
  | Some (Err error) => record_failure (lc_lease claim) (store_error_text error) report
  | None => record_failure (lc_lease claim) "lifecycle reconciliation timed out after 30 seconds"
              (mkReport s a rep n f rt c (S t))
  end.

Fixpoint reconcile_claims (lease_ttl : Z) (budget : LifecycleOutboxClaim → nat)
    (claims : list LifecycleOutboxClaim) (report : LifecycleReconciliationReport)
  : prog LifecycleReconciliationReport :=
  match claims with
  | [] => Ret report
  | claim :: rest =>
      report <- reconcile_claim lease_ttl (budget claim) claim report ;;
      reconcile_claims lease_ttl budget rest report
  end.

(** The claims not seen before, and the ids seen. *)
Fixpoint split_fresh (seen : list LifecycleOutboxId) (claims : list LifecycleOutboxClaim)
  : list LifecycleOutboxClaim * list LifecycleOutboxId :=
  match claims with
  | [] => ([], seen)
  | claim :: rest =>
      let id := ls_outbox_id (lc_lease claim) in
      if existsb (String.eqb id) seen then split_fresh seen rest
      else let '(fresh, seen') := split_fresh (id :: seen) rest in (claim :: fresh, seen')
  end.

(** The [while remaining > 0] loop; every iteration that continues scans at least
    one fresh claim, so [remaining] iterations are enough. *)
Fixpoint reconcile_loop (fuel : nat) (lease_owner : string) (lease_ttl : Z)
    (budget : LifecycleOutboxClaim → nat) (remaining : nat) (seen : list LifecycleOutboxId)
    (report : LifecycleReconciliationReport)
  : prog (result (option LifecycleReconciliationReport) StoreError) :=
  match remaining with
  | O => Ret (Ok (Some report))
  | S _ =>
      match fuel with
      | O => Ret (Ok None)
      | S fuel =>
          claims <-? call (op_claim (remaining `min` MAX_CLAIMS_PER_LEASE_BATCH) lease_owner lease_ttl) ;;
          let '(fresh_claims, seen') := split_fresh seen claims in
          match fresh_claims with
          | [] => Ret (Ok (Some report))
          | _ =>
              let '(mkReport s a rep n f rt c t) := report in
              report <- reconcile_claims lease_ttl budget fresh_claims
                          (mkReport (s + length fresh_claims) a rep n f rt c t) ;;
              if length fresh_claims <? length claims then Ret (Ok (Some report))
              else reconcile_loop fuel lease_owner lease_ttl budget
                     (remaining - length fresh_claims) seen' report
          end
      end
  end.

(** [reconcile_lifecycle_outbox_with_lease]; [budget] says after how many
    operations the record of a claim would time out. *)
Definition reconcile_lifecycle_outbox_with_lease (budget : LifecycleOutboxClaim → nat) (limit : nat)
    (lease_owner : string) (lease_ttl : Z)
  : prog (result (option LifecycleReconciliationReport) StoreError) :=
  reconcile_loop limit lease_owner lease_ttl budget limit [] (mkReport 0 0 0 0 0 0 0 0).

(** [reconcile_lifecycle_outbox]; the owner's text is drawn by the caller. *)
Definition reconcile_lifecycle_outbox (budget : LifecycleOutboxClaim → nat) (lease_owner : string)
    (limit : nat) :=
  reconcile_lifecycle_outbox_with_lease budget limit lease_owner
    (seconds DEFAULT_RECONCILIATION_LEASE_TTL_SECS).

(** The renewal task of [spawn_lease_renewal], stopped after at most [n] ticks. *)
Fixpoint lease_renewal (n : nat) (lease : LifecycleOutboxLease) (lease_ttl : Z) : prog unit :=
  match n with
  | O => Ret tt
  | S n =>
      r <- call (op_renew lease lease_ttl) ;;
      match r with
      | Ok false => Ret tt
      | _ => lease_renewal n lease lease_ttl
      end
  end.

(** * The operator's view of the lifecycle outbox
      (crates/ferrum-gateway/src/admin/lifecycle_outbox.rs)

    Listing and reading records, retrying one, and closing one by decision.  The JSON of
    a record is written by generated code and is a parameter, as is the process id. *)


Record ListLifecycleOutboxQuery := { lob_status : option string; lob_limit : option nat }.
Record LifecycleOutboxRetryRequest := { rtr_actor_id : string; rtr_reason : option string }.
Record LifecycleOutboxResolveRequest := { rsr_actor_id : string; rsr_reason : string }.

Section outbox_api.
Context (app : App) (record_json : LifecycleOutboxRecord → json) (time_json : Timestamp → json).
(** The time budget of each claim, and the process id. *)
Context (budget : LifecycleOutboxClaim → nat) (process_id : string).

(** [not_found] and [internal_error]. *)
Definition outbox_not_found (outbox_id : LifecycleOutboxId) : ApiProblem :=
  mkProblem NOT_FOUND EC_NotFound "lifecycle outbox record not found" (JObj [("outbox_id", JStr outbox_id)]).
Definition outbox_failed (message : string) : ApiProblem := Problem INTERNAL_SERVER_ERROR EC_Internal message.

Definition outbox_answer (v : json) : prog (result json ApiProblem) := Ret (Ok (sanitize_json app v)).

(** The filter of a listing. *)
Definition parse_outbox_status (status : option string) : result LifecycleOutboxStatus string :=
  match status with
  | None => Ok LO_NeedsOperatorReview
  | Some s =>
      if String.eqb s "needs_operator_review" then Ok LO_NeedsOperatorReview
      else if String.eqb s "pending" || String.eqb s "pending_provenance" then Ok LO_PendingProvenance
      else if String.eqb s "provenance_written" then Ok LO_ProvenanceWritten
      else if String.eqb s "reconciled" then Ok LO_Reconciled
      else Err s
  end.

(** [list_lifecycle_outbox]. *)
Definition list_lifecycle_outbox (params : ListLifecycleOutboxQuery) : prog (result json ApiProblem) :=
  let limit := Nat.min (default 50 (lob_limit params)) 200 in
  match parse_outbox_status (lob_status params) with
  | Err other =>
      refuse app (Problem BAD_REQUEST EC_ValidationError ("unsupported lifecycle outbox status filter: " +:+ other))
  | Ok status =>
      r <- call (op_read (RO_outbox_by_status status limit)) ;;
      match r with
      | Ok items => outbox_answer (JObj [("items", JArr (record_json <$> items)); ("total", JInt (Z.of_nat (length items)))])
      | Err _ => refuse app (outbox_failed "failed to list lifecycle outbox records")
      end
  end.

(** [get_lifecycle_outbox]. *)
Definition get_lifecycle_outbox (outbox_id : LifecycleOutboxId) : prog (result json ApiProblem) :=
  r <- call (op_get_outbox outbox_id) ;;
  match r with
  | Ok (Some row) => outbox_answer (record_json (row_record row))
  | Ok None => refuse app (outbox_not_found outbox_id)
  | Err _ => refuse app (outbox_failed "failed to get lifecycle outbox record")
  end.

(** The summary of a reconciliation run; without a report there is none to give. *)
Definition report_json (r : result (option LifecycleReconciliationReport) StoreError) : json :=
  match r with
  | Ok (Some report) =>
      JObj [("already_reconciled", JInt (Z.of_nat (rp_already_reconciled report)));
            ("needs_operator_review", JInt (Z.of_nat (rp_needs_operator_review report)));
            ("repaired_missing_provenance", JInt (Z.of_nat (rp_repaired_missing_provenance report)));
            ("scanned", JInt (Z.of_nat (rp_scanned report)))]
  | Ok None => JNull
  | Err e => JObj [("error", JStr (store_error_text e))]
  end.

(** The reconciliation a retry starts: up to 1000 records under a new owner. *)
Definition retry_reconciliation : prog (result (option LifecycleReconciliationReport) StoreError) :=
  id <- call op_uuid ;;
  reconcile_lifecycle_outbox budget ("lifecycle-reconciler:" +:+ process_id +:+ ":" +:+ id) 1000.

(** [retry_lifecycle_outbox]. *)
Definition retry_lifecycle_outbox (outbox_id : LifecycleOutboxId) (req : LifecycleOutboxRetryRequest)
  : prog (result json ApiProblem) :=
  r <- reset_for_retry time_json outbox_id (rtr_actor_id req) (rtr_reason req) ;;
  match r with
  | Err _ => refuse app (outbox_failed "failed to reset lifecycle outbox record")
  | Ok None => refuse app (outbox_not_found outbox_id)
  | Ok (Some record) =>
      run <- retry_reconciliation ;;
      let report := report_json run in
      again <- call (op_get_outbox outbox_id) ;;
      let refreshed := match again with Ok (Some row) => row_record row | _ => record end in
      _ <-? append_audit_checked app (rtr_actor_id req) "lifecycle_outbox_retry" "lifecycle_outbox" outbox_id "success"
              (Some (JObj [("reason", default JNull (JStr <$> rtr_reason req)); ("reconciliation_report", report)])) ;;
      outbox_answer (JObj [("reconciliation_report", report); ("record", record_json refreshed)])
  end.

(** [resolve_lifecycle_outbox]. *)
Definition resolve_lifecycle_outbox (outbox_id : LifecycleOutboxId) (req : LifecycleOutboxResolveRequest)
  : prog (result json ApiProblem) :=
  if str_trim_is_empty (rsr_reason req) then
    refuse app (Problem BAD_REQUEST EC_ValidationError "reason is required to resolve lifecycle outbox operator review")
  else
    r <- mark_operator_resolved time_json outbox_id (rsr_actor_id req) (rsr_reason req) ;;
    match r with
    | Err _ => refuse app (outbox_failed "failed to resolve lifecycle outbox record")
    | Ok None => refuse app (outbox_not_found outbox_id)
    | Ok (Some record) =>
        _ <-? append_audit_checked app (rsr_actor_id req) "lifecycle_outbox_resolve" "lifecycle_outbox" outbox_id "success"
                (Some (JObj [("reason", JStr (rsr_reason req))])) ;;
        outbox_answer (JObj [("record", record_json record)])
    end.
End outbox_api.
