(* ===== verification/OutboxSafety.v ===== *)
(** * Safety of the lifecycle outbox

    A record is closed only when for each of its provenance obligations the store holds
    an event of that kind and execution (or by an operator), by the handlers, the
    reconciler and the operator's actions alike: a program is followed with what it has
    got to know of the database, the events it has seen stored and the records it has
    seen, and marks an obligation only with an event it knows; reconciliation terminates, accounts for every record it scanned and never
    touches the lifecycle itself. *)

From S2P Require Import Prelude Json Proto Transitions CapService Store Adapter Effects Pdp.
From S2P Require Import RollbackSvc Validation Provenance CapBackend Lifecycle Handlers StoreFacts.
From S2P Require Import Evolution Discipline Logic HandlerSafety Safety Reconcile Background.
From S2P Require Import Capabilities Auth Principals.

(** ** Honest closing of records *)

(** A record that is marked reconciled has its obligations met, or was resolved by
    an operator. *)
Definition honest (r : LifecycleOutboxRecord) : Prop :=
  ob_status r = LO_Reconciled →
  obligations_satisfied r = true ∨ smap_contains_key "operator_resolved" (ob_metadata r) = true.

(** The records, without their leases. *)
Definition outbox_records (d : Db) : gmap LifecycleOutboxId LifecycleOutboxRecord := row_record <$> db_outbox d.

(** What a program may know of the database, and what stays true whatever runs: an event
    is stored, and a record is about an execution. *)
Inductive fact :=
| Event_stored (id : EventId) (kind : ProvenanceEventKind) (execution : option ExecutionId)
| Record_of (outbox : LifecycleOutboxId) (execution : ExecutionId).

Definition holds (d : Db) (f : fact) : Prop :=
  match f with
  | Event_stored id kind execution =>
      ∃ e, e ∈ db_events d ∧ ev_event_id e = id ∧ ev_kind e = kind ∧ ev_execution_id e = execution
  | Record_of outbox execution => ∃ r, outbox_records d !! outbox = Some r ∧ ob_execution_id r = execution
  end.

Definition known : Type := fact → Prop.

(** Every obligation of the record that names an event names one of its kind and of the
    record's execution. *)
Definition backed (K : known) (r : LifecycleOutboxRecord) : Prop :=
  ∀ o id, o ∈ obligations_for_record r → po_event_id o = Some id →
    K (Event_stored id (po_event_kind o) (Some (ob_execution_id r))).

Record honest_db (d : Db) : Prop := {
  hd_keyed : ∀ id r, outbox_records d !! id = Some r → ob_outbox_id r = id;
  hd_honest : ∀ id r, outbox_records d !! id = Some r → honest r;
  hd_backed : ∀ id r, outbox_records d !! id = Some r → backed (holds d) r;
  hd_executions : ∀ id e, db_executions d !! id = Some e → ex_execution_id e = id;
}.

(** What an operation writes is honest and backed by what is known. *)
Definition writes_honestly {X} (K : known) (o : op X) : Prop :=
  match o with
  | op_update_outbox r _ _ => honest r ∧ backed K r ∧ K (Record_of (ob_outbox_id r) (ob_execution_id r))
  | op_update_claimed r l _ =>
      honest r ∧ backed K r ∧ K (Record_of (ob_outbox_id r) (ob_execution_id r)) ∧ ob_outbox_id r = ls_outbox_id l
  | op_record_transition _ _ r | op_record_authorization _ _ r => honest r ∧ backed K r
  | _ => True
  end.

(** What an operation answers on an honest database. *)
Definition answers_honestly {X} (K : known) (o : op X) : X → Prop :=
  match o in op X return X → Prop with
  | op_get_outbox id => λ r, ∀ row, r = Ok (Some row) → honest (row_record row) ∧
      ob_outbox_id (row_record row) = id ∧ ∀ x, K (Record_of id x) → ob_execution_id (row_record row) = x
  | op_get_execution id => λ r, ∀ e, r = Ok (Some e) → ex_execution_id e = id
  | op_query q => λ r, ∀ evs e, r = Ok evs → e ∈ evs →
      (∀ k, pq_event_kind q = Some k → ev_kind e = k) ∧ (∀ x, pq_execution_id q = Some x → ev_execution_id e = Some x)
  | _ => λ _, True
  end.

(** What its answer tells about the database. *)
Definition learns {X} (o : op X) : X → known :=
  match o in op X return X → known with
  | op_append_event e _ => λ r f, r = Ok tt ∧ f = Event_stored (ev_event_id e) (ev_kind e) (ev_execution_id e)
  | op_query _ => λ r f, ∃ evs e, r = Ok evs ∧ e ∈ evs ∧ f = Event_stored (ev_event_id e) (ev_kind e) (ev_execution_id e)
  | op_get_outbox id => λ r f, ∃ row, r = Ok (Some row) ∧
      (f = Record_of id (ob_execution_id (row_record row)) ∨
       ∃ o eid, o ∈ obligations_for_record (row_record row) ∧ po_event_id o = Some eid ∧
         f = Event_stored eid (po_event_kind o) (Some (ob_execution_id (row_record row))))
  | op_record_transition _ _ ob => λ r f, r = Ok tt ∧ f = Record_of (ob_outbox_id ob) (ob_execution_id ob)
  | op_record_authorization _ _ ob => λ r f, r = Ok true ∧ f = Record_of (ob_outbox_id ob) (ob_execution_id ob)
  | op_claim _ _ _ => λ r f, ∃ cs c, r = Ok cs ∧ c ∈ cs ∧
      f = Record_of (ls_outbox_id (lc_lease c)) (ob_execution_id (lc_record c))
  | _ => λ _ _, False
  end.

(** [known_after K p Φ]: with the facts [K] known, the program [p] writes honestly as long
    as it is answered honestly, and its result satisfies [Φ] with what is known then. *)
Fixpoint known_after {A} (K : known) (p : prog A) (Φ : known → A → Prop) : Prop :=
  match p with
  | Ret a => Φ K a
  | Do o k => writes_honestly K o ∧
      ∀ x, answers_honestly K o x → known_after (λ f, K f ∨ learns o x f) (k x) Φ
  end.

Definition top_post {A} (_ : known) (_ : A) : Prop := True.
Definition honest_from {A} (K : known) (p : prog A) : Prop := known_after K p top_post.

(** A program that needs to know nothing. *)
Definition honest_prog {A} (p : prog A) : Prop := ∀ K, honest_from K p.

Lemma known_after_conseq {A} (p : prog A) : ∀ K0 K (Φ Ψ : known → A → Prop),
  (∀ K' a, (∀ f, K0 f → K' f) → Φ K' a → Ψ K' a) → (∀ f, K0 f → K f) →
  known_after K p Φ → known_after K p Ψ.
Proof.
  induction p as [a|X o k IH]; intros K0 K Φ Ψ H Hsub; simpl; [by apply H|].
  intros [Ho Hk]. split; [done|]. intros x Hx. eapply (IH x K0); [exact H | auto | by apply Hk].
Qed.

(** Sequencing: what was known before is still known. *)
Lemma known_bind {A B} K (p : prog A) (f : A → prog B) Φ Ψ :
  known_after K p Φ → (∀ K' a, (∀ f, K f → K' f) → Φ K' a → known_after K' (f a) Ψ) →
  known_after K (bind p f) Ψ.
Proof.
  intros Hp Hf. assert (known_after K p (λ K' a, known_after K' (f a) Ψ)) as H.
  { eapply (known_after_conseq p K); [|done|exact Hp]. auto. }
  clear Hp Hf Φ. revert K H. induction p as [a|X o k IH]; intros K; simpl; [done|].
  intros [Ho Hk]. split; [done|]. auto.
Qed.

Lemma known_weaken {A} K (p : prog A) Φ : known_after K p Φ → honest_from K p.
Proof. intros H. eapply (known_after_conseq p K); [|done|exact H]. done. Qed.

Lemma honest_bind {A B} (p : prog A) (f : A → prog B) :
  honest_prog p → (∀ a, honest_prog (f a)) → honest_prog (bind p f).
Proof. intros Hp Hf K. eapply known_bind; [apply Hp|]. intros K' a _ _. apply Hf. Qed.

Lemma honest_call {X} (o : op X) : (∀ K, writes_honestly K o) → honest_prog (call o).
Proof. intros Ho K. by split. Qed.

(** ** The operations keep an honest database honest *)

(** At most one record was written: honest, backed, and about the same execution. *)
Definition record_written (d d' : Db) : Prop :=
  outbox_records d' = outbox_records d ∨
  ∃ r, outbox_records d' = <[ob_outbox_id r := r]> (outbox_records d) ∧ honest r ∧ backed (holds d) r ∧
    ∀ r0, outbox_records d !! ob_outbox_id r = Some r0 → ob_execution_id r0 = ob_execution_id r.

Record honest_change (d d' : Db) : Prop := {
  hc_records : record_written d d';
  hc_events : ∀ e, e ∈ db_events d → e ∈ db_events d';
  hc_executions : (∀ id e, db_executions d !! id = Some e → ex_execution_id e = id) →
    ∀ id e, db_executions d' !! id = Some e → ex_execution_id e = id;
}.

Lemma holds_kept d d' f : honest_change d d' → holds d f → holds d' f.
Proof.
  intros [Hrec Hev _]. destruct f as [id kind x|ob x]; cbn.
  - intros (e & He & H). exists e. auto.
  - intros (r & Hr & <-). destruct Hrec as [->|(r' & -> & _ & _ & Hx)]; [by exists r|].
    destruct (decide (ob_outbox_id r' = ob)) as [<-|Hne].
    + exists r'. rewrite lookup_insert_eq. split; [done | by rewrite (Hx r Hr)].
    + exists r. by rewrite lookup_insert_ne.
Qed.

Lemma backed_kept d d' r : honest_change d d' → backed (holds d) r → backed (holds d') r.
Proof. intros Hc Hb o id Ho Hid. eapply holds_kept, Hb; done. Qed.

Lemma honest_kept d d' : honest_change d d' → honest_db d → honest_db d'.
Proof.
  intros Hc [Hk Hh Hb He]. pose proof Hc as [Hrec Hev Hex].
  assert (∀ id r, outbox_records d' !! id = Some r → ob_outbox_id r = id ∧ honest r ∧ backed (holds d') r) as H.
  { intros id r. destruct Hrec as [->|(r' & -> & Hh' & Hb' & _)].
    - intros Hr. split_and!; [by eapply Hk | by eapply Hh | by eapply backed_kept, Hb].
    - rewrite lookup_insert_Some. intros [[<- <-]|[_ Hr]].
      + split_and!; [done | done | by eapply backed_kept].
      + split_and!; [by eapply Hk | by eapply Hh | by eapply backed_kept, Hb]. }
  split; [intros id r Hr; by destruct (H id r Hr) as (? & ? & ?).. | by apply Hex].
Qed.

Lemma honest_change_refl d : honest_change d d.
Proof. split; [by left | done | done]. Qed.

Lemma outbox_records_set t d : outbox_records (set_outbox t d) = row_record <$> t.
Proof. by destruct d. Qed.

Lemma records_lookup d id row : db_outbox d !! id = Some row → outbox_records d !! id = Some (row_record row).
Proof. intros H. unfold outbox_records. by rewrite lookup_fmap, H. Qed.

(** A row whose record is as before, or written honestly. *)
Lemma row_written d id row row' :
  db_outbox d !! id = Some row → row_record row' = row_record row →
  outbox_records (set_outbox (<[id := row']> (db_outbox d)) d) = outbox_records d.
Proof.
  intros Hr Heq. rewrite outbox_records_set, fmap_insert, Heq.
  apply insert_id. by apply records_lookup.
Qed.

Lemma write_record K d r row' :
  (∀ f, K f → holds d f) → honest r → backed K r → K (Record_of (ob_outbox_id r) (ob_execution_id r)) →
  row_record row' = r → record_written d (set_outbox (<[ob_outbox_id r := row']> (db_outbox d)) d).
Proof.
  intros HK Hh Hb Hx Hrow. right. exists r. rewrite outbox_records_set, fmap_insert, Hrow. split_and!; [done..| |].
  - intros o id Ho Hid. by apply HK, Hb.
  - intros r0 Hr0. destruct (HK _ Hx) as (r1 & Hr1 & H1). congruence.
Qed.

Lemma update_outbox_written K r clear override d :
  (∀ f, K f → holds d f) → writes_honestly K (op_update_outbox r clear override) →
  record_written d (after (update_outbox_record r clear override) d).
Proof.
  intros HK (Hh & Hb & Hx). unfold update_outbox_record. repeat case_match; try (by left); by eapply write_record.
Qed.

Lemma update_claimed_written K r l clear now d :
  (∀ f, K f → holds d f) → writes_honestly K (op_update_claimed r l clear) →
  record_written d (after (update_outbox_record_claimed r l clear now) d).
Proof.
  intros HK (Hh & Hb & Hx & Hid). unfold update_outbox_record_claimed. rewrite <- Hid.
  repeat case_match; try (by left); by eapply write_record.
Qed.

Lemma renew_written l ttl now now2 d : record_written d (after (renew_reconciliation_lease l ttl now now2) d).
Proof.
  left. unfold renew_reconciliation_lease. destruct (db_outbox d !! ls_outbox_id l) as [row|] eqn:Hr; [|done].
  destruct (_ && _); [|done]. by eapply row_written.
Qed.

Lemma claim_one_records owner now exp id d : outbox_records (claim_one owner now exp id d).2 = outbox_records d.
Proof.
  unfold claim_one. destruct (db_outbox d !! id) as [row|] eqn:Hr; [|done].
  destruct (lease_free row now); [|done]. by eapply row_written.
Qed.

(** A claim tells which execution its record is about. *)
Lemma claim_all_records owner now exp ids d : honest_db d →
  outbox_records (claim_all owner now exp ids d).2 = outbox_records d ∧
  ∀ c, c ∈ (claim_all owner now exp ids d).1 →
    holds d (Record_of (ls_outbox_id (lc_lease c)) (ob_execution_id (lc_record c))).
Proof.
  intros Hd. enough (∀ d', outbox_records d' = outbox_records d →
    outbox_records (claim_all owner now exp ids d').2 = outbox_records d ∧
    ∀ c, c ∈ (claim_all owner now exp ids d').1 →
      holds d (Record_of (ls_outbox_id (lc_lease c)) (ob_execution_id (lc_record c)))) as H by by apply H.
  induction ids as [|id ids IH]; intros d' Hd'; simpl; [split; [done | by intros c ?%not_elem_of_nil]|].
  pose proof (claim_one_records owner now exp id d') as H1. rewrite Hd' in H1.
  destruct (claim_one owner now exp id d') as [c0 d1] eqn:Hc. cbn in H1. destruct (IH d1 H1) as [H2 H3].
  destruct (claim_all owner now exp ids d1) as [cs d2]. cbn in H2, H3. split; [by destruct c0|].
  assert (∀ c, c0 = Some c → holds d (Record_of (ls_outbox_id (lc_lease c)) (ob_execution_id (lc_record c)))) as H4.
  { intros c ->. revert Hc. unfold claim_one. destruct (db_outbox d' !! id) as [row|] eqn:Hr; [|done].
    destruct (lease_free row now); [|done]. intros [= <- _]. cbn. apply records_lookup in Hr. rewrite Hd' in Hr.
    rewrite (hd_keyed d Hd _ _ Hr). by exists (row_record row). }
  destruct c0 as [c1|]; cbn; [|exact H3]. intros c [->|Hin]%elem_of_cons; [by apply H4 | by apply H3].
Qed.

Lemma claim_pending_records limit owner ttl now d : honest_db d →
  outbox_records (after (claim_pending_reconciliation limit owner ttl now) d) = outbox_records d ∧
  ∀ cs c, (claim_pending_reconciliation limit owner ttl now d).1 = Ok cs → c ∈ cs →
    holds d (Record_of (ls_outbox_id (lc_lease c)) (ob_execution_id (lc_record c))).
Proof.
  intros Hd. unfold after, claim_pending_reconciliation.
  destruct limit; [split; [done | by intros cs c [= <-] ?%not_elem_of_nil]|].
  match goal with |- context [claim_all ?a ?b ?c ?e ?d] => pose proof (claim_all_records a b c e d Hd) as [H1 H2] end.
  destruct (claim_all _ _ _ _ _) as [cs' d']. cbn in *. split; [done|]. intros cs c [= <-]. apply H2.
Qed.

Lemma outbox_inserted_written ob d d' :
  outbox_inserted ob d d' → honest ob → backed (holds d) ob → record_written d d'.
Proof.
  intros [_ Hfresh Hout] Hh Hb. right. exists ob. unfold outbox_records.
  rewrite Hout, fmap_insert. split_and!; [done..|]. rewrite lookup_fmap, Hfresh. by intros r0.
Qed.

Lemma insert_keyed (m : gmap string ExecutionRecord) e :
  (∀ id e, m !! id = Some e → ex_execution_id e = id) →
  ∀ id e', <[ex_execution_id e := e]> m !! id = Some e' → ex_execution_id e' = id.
Proof. intros H id e'. rewrite lookup_insert_Some. intros [[<- <-]|[_ ?]]; [done | by apply H]. Qed.

Lemma quiet_change d d' : quiet d d' → record_written d d' → honest_change d d'.
Proof. intros [Hev He _ _] Hw. split; [done | apply Hev | by rewrite He]. Qed.

Lemma record_transition_change K e c ob d :
  (∀ f, K f → holds d f) → writes_honestly K (op_record_transition e c ob) →
  honest_change d (after (record_lifecycle_transition e c ob) d) ∧
  ((record_lifecycle_transition e c ob d).1 = Ok tt →
   holds (after (record_lifecycle_transition e c ob) d) (Record_of (ob_outbox_id ob) (ob_execution_id ob))).
Proof.
  intros HK [Hh Hb]. unfold after. destruct (record_lifecycle_transition e c ob d) as [[[]|err] d'] eqn:H; simpl.
  - apply record_transition_done in H as [_ Hex _ Hi _ Hrest]. split.
    + split; [eapply outbox_inserted_written; [done..|]; intros o id Ho Hid; by apply HK, Hb | |].
      * by rewrite (sr_events _ _ Hrest).
      * rewrite Hex. by apply insert_keyed.
    + intros _. exists ob. unfold outbox_records. by rewrite (oi_outbox _ _ _ Hi), fmap_insert, lookup_insert_eq.
  - apply record_transition_err in H as ->. split; [apply honest_change_refl | done].
Qed.

Lemma record_authorization_change K l e ob now d :
  (∀ f, K f → holds d f) → writes_honestly K (op_record_authorization l e ob) →
  honest_change d (after (record_authorization l e ob now) d) ∧
  ((record_authorization l e ob now d).1 = Ok true →
   holds (after (record_authorization l e ob now) d) (Record_of (ob_outbox_id ob) (ob_execution_id ob))).
Proof.
  intros HK [Hh Hb]. unfold after. destruct (record_authorization l e ob now d) as [[[]|err] d'] eqn:H; simpl.
  - apply record_authorization_done in H as [_ _ Hex _ Hi Hrest]. split.
    + split; [eapply outbox_inserted_written; [done..|]; intros o id Ho Hid; by apply HK, Hb | |].
      * by rewrite (sr_events _ _ Hrest).
      * rewrite Hex. by apply insert_keyed.
    + intros _. exists ob. unfold outbox_records. by rewrite (oi_outbox _ _ _ Hi), fmap_insert, lookup_insert_eq.
  - apply record_authorization_false in H as ->. split; [apply honest_change_refl | done].
  - apply record_authorization_err in H as ->. split; [apply honest_change_refl | done].
Qed.

Lemma cas_state_change id expected s now d : honest_change d (after (compare_and_set_state id expected s now) d).
Proof.
  unfold after, compare_and_set_state. destruct expected as [|s0 l]; [apply honest_change_refl|].
  destruct (db_executions d !! id) as [e|] eqn:He; [|apply honest_change_refl].
  case_bool_decide; [|apply honest_change_refl]. destruct d; cbn in *. split; [by left | done|]. cbn.
  intros Hk id' e'. rewrite lookup_insert_Some. intros [[<- <-]|[_ ?]]; [|by apply Hk].
  rewrite <- (Hk _ _ He). by case_match; destruct e.
Qed.

Lemma insert_edges_outbox id edges d : db_outbox (after (sql_insert_edges id edges) d) = db_outbox d.
Proof.
  revert d. induction edges as [|e edges IH]; intros d; simpl; [done|].
  destruct (_ && _); [|done]. rewrite IH. by destruct d.
Qed.

Lemma insert_edges_events id edges d : db_events (after (sql_insert_edges id edges) d) = db_events d.
Proof.
  revert d. induction edges as [|e edges IH]; intros d; simpl; [done|].
  destruct (_ && _); [|done]. rewrite IH. by destruct d.
Qed.

Lemma append_edge_change id e d : honest_change d (after (append_edge id e) d).
Proof. apply quiet_change; [apply append_edge_quiet|]. left. unfold outbox_records, append_edge. by rewrite insert_edges_outbox. Qed.

Lemma append_event_change e edges d :
  honest_change d (after (append_event_with_edges e edges) d) ∧
  ((append_event_with_edges e edges d).1 = Ok tt → e ∈ db_events (after (append_event_with_edges e edges) d)).
Proof.
  pose proof (append_event_quiet e edges d) as Hq.
  assert (db_outbox (after (append_event_with_edges e edges) d) = db_outbox d ∧
    ((append_event_with_edges e edges d).1 = Ok tt → e ∈ db_events (after (append_event_with_edges e edges) d)))
    as [Ho He].
  { unfold after, append_event_with_edges. destruct (existsb _ _); [done|]. unfold transaction, then_, sql_insert_event.
    destruct (has_event _ _); [done|].
    match goal with |- context [sql_insert_edges ?a ?b ?d'] =>
      pose proof (insert_edges_outbox a b d') as H1; pose proof (insert_edges_events a b d') as H2;
      unfold after in H1, H2; destruct (sql_insert_edges a b d') as [[] d''] end; cbn in *; [|done].
    rewrite H1, H2. destruct d; cbn. split; [done|]. intros _. apply elem_of_app. right. by left. }
  split; [|done]. apply quiet_change; [done|]. left. unfold outbox_records. by rewrite Ho.
Qed.

(** A statement on other tables. *)
Ltac other_tables :=
  unfold after, sql_get, query, compare_and_set_state, update_status_if_active,
    sql_capability_set_status_if_active, revoke_if_active,
    insert_capability, update_capability, sql_resolve_approval, sql_expire_approval, sql_insert_audit,
    insert_intent, insert_proposal, insert_hold, sql_update_pending_hold, sql_admin;
  repeat case_match; simplify_eq/=; try apply honest_change_refl;
  match goal with d : Db |- _ => destruct d; cbn in *; split; [by left | done | done] end.

Lemma exec_db_change {A} env (s : stmt A) w x w' :
  honest_change (w_db w) (after s (w_db w)) → exec_db env s w = (x, w') → honest_change (w_db w) (w_db w').
Proof.
  intros Hs Hx. destruct (exec_db_cases _ _ _ _ _ Hx) as [_ [[-> _] | [-> _]]]; [apply honest_change_refl | done].
Qed.

Lemma exec_op_change {X} env (K : known) (o : op X) w x w' :
  honest_db (w_db w) → (∀ f, K f → holds (w_db w) f) → writes_honestly K o → exec_op env o w = (x, w') →
  honest_change (w_db w) (w_db w').
Proof.
  intros Hd HK Ho Hx. destruct o; simpl in Hx;
    try (destruct w; simpl in Hx;
         repeat (match goal with H : context [let '(_, _) := ?e in _] |- _ => destruct e end);
         simplify_eq; apply honest_change_refl);
    eapply exec_db_change; try exact Hx;
    first [ apply honest_change_refl
          | apply quiet_change; [apply update_outbox_record_quiet | by eapply update_outbox_written]
          | apply quiet_change; [apply update_outbox_record_claimed_quiet | by eapply update_claimed_written]
          | apply quiet_change; [apply renew_quiet | apply renew_written]
          | apply quiet_change; [apply claim_pending_quiet | left; by apply claim_pending_records]
          | by eapply record_transition_change | by eapply record_authorization_change
          | apply append_event_change | apply append_edge_change | apply cas_state_change | generalize (w_db w); intros d; other_tables ].
Qed.

(** A failed operation tells nothing. *)
Ltac no_answer :=
  split; cbn; [intros; discriminate || done|];
  let f := fresh in let Hf := fresh in intros f Hf;
  repeat match type of Hf with False => destruct Hf | ∃ _, _ => destruct Hf as [? Hf] | _ ∧ _ => destruct Hf as [? Hf]; try discriminate end.

Lemma query_answer d q evs e : (query q d).1 = Ok evs → e ∈ evs →
  e ∈ db_events d ∧ (∀ k, pq_event_kind q = Some k → ev_kind e = k) ∧
  (∀ x, pq_execution_id q = Some x → ev_execution_id e = Some x).
Proof.
  intros [= <-] [Hm%Is_true_true Hin]%list_elem_of_filter. unfold by_occurred_at in Hin. rewrite sort_desc_perm in Hin.
  unfold query_matches in Hm. destruct_andb. split_and!; [done | |].
  - intros k Hk. rewrite Hk in *. by match goal with H : bool_decide (ev_kind _ = _) = true |- _ => apply bool_decide_eq_true in H end.
  - intros x Hk. rewrite Hk in *. by match goal with H : bool_decide (ev_execution_id _ = _) = true |- _ => apply bool_decide_eq_true in H end.
Qed.

Lemma exec_op_answers {X} env (K : known) (o : op X) w x w' :
  honest_db (w_db w) → (∀ f, K f → holds (w_db w) f) → writes_honestly K o →
  honest_change (w_db w) (w_db w') → exec_op env o w = (x, w') →
  answers_honestly K o x ∧ ∀ f, learns o x f → holds (w_db w') f.
Proof.
  intros Hd HK Ho Hc Hx.
  destruct o; try (split; [exact I | by intros f]); simpl in Hx;
    destruct (exec_db_cases _ _ _ _ _ Hx) as [_ [[_ [m ->]] | [Hw [-> | [m ->]]]]]; try solve [no_answer].
  - split; [|by intros f]. intros e [= He]. by eapply hd_executions.
  - split.
    + intros row [= Hr%records_lookup]. split_and!; [by eapply hd_honest | by eapply hd_keyed|].
      intros y (r & Hr' & <-)%HK. congruence.
    + intros f (row & [= Hr%records_lookup] & [->|(ob & eid & Hin & Hid & ->)]); eapply holds_kept; try exact Hc.
      * by exists (row_record row).
      * by eapply hd_backed.
  - split.
    + intros evs e Hq Hin. by destruct (query_answer _ _ _ _ Hq Hin).
    + intros f (evs & e & Hq & Hin & ->). eapply holds_kept; [exact Hc|].
      destruct (query_answer _ _ _ _ Hq Hin) as [He _]. by exists e.
  - split; [done|]. intros f [Hr ->]. rewrite Hw. by eapply record_transition_change.
  - split; [done|]. intros f [Hr ->]. rewrite Hw. by eapply record_authorization_change.
  - split; [done|]. intros f [Hr ->]. rewrite Hw. eexists. split; [by apply append_event_change | done].
  - split; [done|]. intros f (cs & c & Hr & Hin & ->). eapply holds_kept; [exact Hc|].
    by eapply claim_pending_records.
Qed.

Lemma exec_op_honest {X} env (K : known) (o : op X) w x w' :
  honest_db (w_db w) → (∀ f, K f → holds (w_db w) f) → writes_honestly K o → exec_op env o w = (x, w') →
  honest_db (w_db w') ∧ answers_honestly K o x ∧ ∀ f, K f ∨ learns o x f → holds (w_db w') f.
Proof.
  intros Hd HK Ho Hx. pose proof (exec_op_change env K o w x w' Hd HK Ho Hx) as Hc.
  destruct (exec_op_answers env K o w x w' Hd HK Ho Hc Hx) as [Ha Hl].
  split_and!; [by eapply honest_kept | done|]. intros f [Hf|Hf]; [|by apply Hl]. by eapply holds_kept, HK.
Qed.

(** ** The programs write honestly *)

Lemma open_honest r : ob_status r ≠ LO_Reconciled → honest r.
Proof. intros Hs Hr. congruence. Qed.

(** Steps of a program from what is known. *)
Lemma honest_from_bind {A B} K (p : prog A) (f : A → prog B) :
  honest_prog p → (∀ K' a, (∀ f, K f → K' f) → honest_from K' (f a)) → honest_from K (bind p f).
Proof. intros Hp Hf. eapply known_bind; [apply Hp|]. intros K' a Hsub _. by apply Hf. Qed.

Lemma honest_from_try {A B E} K (p : prog (result A E)) (f : A → prog (result B E)) Ψ :
  known_after K p (λ K' r, ∀ x, r = Ok x → Ψ K' x) →
  (∀ K' x, (∀ f, K f → K' f) → Ψ K' x → honest_from K' (f x)) →
  honest_from K (bind p (λ r, match r with Ok x => f x | Err e => Ret (Err e) end)).
Proof. intros Hp Hf. eapply known_bind; [exact Hp|]. intros K' [x|e] Hsub H; [by apply Hf; [|apply H] | exact I]. Qed.

Lemma honest_from_then {A B E} K (p : prog (result A E)) (f : A → prog (result B E)) :
  honest_from K p → (∀ K' x, (∀ f, K f → K' f) → honest_from K' (f x)) →
  honest_from K (bind p (λ r, match r with Ok x => f x | Err e => Ret (Err e) end)).
Proof. intros Hp Hf. eapply known_bind; [exact Hp|]. intros K' [x|e] Hsub _; [by apply Hf | exact I]. Qed.

Lemma honest_any {A} K (p : prog A) : honest_prog p → honest_from K p.
Proof. by intros H. Qed.

Lemma known_step {X A} K (o : op X) (f : X → prog A) Φ :
  writes_honestly K o → (∀ x, answers_honestly K o x → known_after (λ f, K f ∨ learns o x f) (f x) Φ) →
  known_after K (bind (call o) f) Φ.
Proof. by intros Ho Hf. Qed.

Lemma honest_from_call {X A} K (o : op X) (f : X → prog A) :
  writes_honestly K o → (∀ x, answers_honestly K o x → honest_from (λ f, K f ∨ learns o x f) (f x)) →
  honest_from K (bind (call o) f).
Proof. apply known_step. Qed.

Lemma honest_from_op {X A} K (o : op X) (f : X → prog A) :
  writes_honestly K o →
  (∀ K' x, (∀ f, K f → K' f) → (∀ f, learns o x f → K' f) → answers_honestly K o x → honest_from K' (f x)) →
  honest_from K (bind (call o) f).
Proof. intros Ho Hf. apply honest_from_call; [done|]. intros x Hx. apply Hf; auto. Qed.

(** Facts at hand, after a step. *)
Ltac keep_known Hsub :=
  repeat match type of Hsub with ∀ f, ?K f → ?K' f =>
    match goal with H : K _ |- _ => apply Hsub in H end end; clear Hsub.

Create HintDb honest.
#[export] Hint Extern 0 (honest_prog (call _)) => apply honest_call; intros ?; exact I : honest.

(** Decompose a program; close the leaves that write no outbox record. *)
Ltac solve_honest :=
  repeat first
    [ intros ?; exact I
    | apply honest_call; intros ?; exact I
    | solve [auto with honest nocore]
    | match goal with |- honest_prog (bind _ _) => apply honest_bind; [|intros ?] end
    | case_match
    | match goal with |- honest_prog (match ?x with _ => _ end) => destruct x end ].

(** ** Reading a record and writing it back *)

(** What the read of a record tells. *)
Lemma read_backed K id row :
  answers_honestly K (op_get_outbox id) (Ok (Some row)) →
  let K' := λ f, K f ∨ learns (op_get_outbox id) (Ok (Some row)) f in
  honest (row_record row) ∧ ob_outbox_id (row_record row) = id ∧ backed K' (row_record row) ∧
  K' (Record_of (ob_outbox_id (row_record row)) (ob_execution_id (row_record row))) ∧
  ∀ x, K (Record_of id x) → ob_execution_id (row_record row) = x.
Proof.
  intros H K'. destruct (H row eq_refl) as (Hh & Hid & Hx). split_and!; [done | done | | | done].
  - intros o eid Ho Heid. right. exists row. split; [done|]. right. by exists o, eid.
  - right. exists row. split; [done|]. left. by rewrite Hid.
Qed.

(** A record about the same execution, with the same obligations. *)
Definition same_obligations (r r' : LifecycleOutboxRecord) : Prop :=
  ob_outbox_id r' = ob_outbox_id r ∧ ob_execution_id r' = ob_execution_id r ∧
  obligations_for_record r' = obligations_for_record r.

Lemma backed_same K r r' : same_obligations r r' → backed K r → backed K r'.
Proof. intros (_ & Hx & Ho) Hb. unfold backed. rewrite Hx, Ho. exact Hb. Qed.

(** More is known after a step. *)
Lemma backed_more K (L : known) r : backed K r → backed (λ f, K f ∨ L f) r.
Proof. intros Hb o id Ho Hid. left. by apply Hb. Qed.

Lemma set_status_same s err n now md r : same_obligations r (ob_set_status s err n now md r).
Proof. by destruct r. Qed.

Lemma satisfy_first_elem kind id l o :
  o ∈ satisfy_first kind id l → o ∈ l ∨ (po_event_kind o = kind ∧ po_event_id o = Some id).
Proof.
  induction l as [|o' l IH]; simpl.
  - intros ->%list_elem_of_singleton. right. unfold obligation_pending. by repeat case_match.
  - case_decide as Hk.
    + intros [->|Hin]%elem_of_cons; [by right | left; by right].
    + intros [->|Hin]%elem_of_cons; [left; left | destruct (IH Hin); [left; by right | by right]].
Qed.

(** Marking an obligation with a stored event of its kind and of the execution. *)
Lemma mark_backed K kind id now r :
  backed K r → K (Event_stored id kind (Some (ob_execution_id r))) →
  let r' := mark_obligation_written kind id now r in
  backed K r' ∧ honest r' ∧ ob_outbox_id r' = ob_outbox_id r ∧ ob_execution_id r' = ob_execution_id r.
Proof.
  intros Hb Hid r'. destruct r as [oid xid a b c d e f g s pid obs h i j k md] eqn:Hr. rewrite <- Hr in *.
  assert (ob_outbox_id r' = ob_outbox_id r ∧ ob_execution_id r' = ob_execution_id r ∧ ob_status r' = LO_ProvenanceWritten)
    as (H1 & H2 & H3) by (subst r' r; done).
  split_and!; [|apply open_honest; by rewrite H3 | done | done].
  intros o eid Ho Heid. rewrite H2.
  assert (o ∈ satisfy_first kind id (match obs with [] => [obligation_pending (ob_intended_provenance_kind r)] | l => l end)) as Hin.
  { subst r' r. unfold obligations_for_record in Ho. cbn in Ho |- *.
    destruct obs as [|o1 obs]; cbn in Ho |- *; case_decide; exact Ho. }
  destruct (satisfy_first_elem _ _ _ _ Hin) as [Hold|[<- Hsome]]; [|congruence].
  destruct obs as [|o1 obs].
  - apply list_elem_of_singleton in Hold as ->. unfold obligation_pending in Heid. by repeat case_match.
  - apply Hb; [by subst r | done].
Qed.

(** A read of a record before an honest write. *)
Ltac read_row row Hh Hid Hb Hk Hx :=
  apply honest_from_call; [exact I|];
  let H := fresh in intros [[row|]|] H; [|exact I..];
  apply read_backed in H as (Hh & Hid & Hb & Hk & Hx).

Lemma require_satisfied_honest r : require_all_obligations_satisfied r = Ok tt → honest r.
Proof.
  unfold require_all_obligations_satisfied. destruct (obligations_satisfied r) eqn:H; [|done].
  intros _ _. by left.
Qed.

(** The update of a record that was read: its obligations as they were. *)
Lemma write_back K r r' : honest r' → same_obligations r r' → backed K r →
  K (Record_of (ob_outbox_id r) (ob_execution_id r)) →
  honest r' ∧ backed K r' ∧ K (Record_of (ob_outbox_id r') (ob_execution_id r')).
Proof. intros Hh Hs Hb Hk. split_and!; [done | by eapply backed_same |]. by destruct Hs as (-> & -> & _). Qed.


Lemma ob_failed_honest s err now r : s = LO_NeedsOperatorReview ∨ s = ob_status r → honest r →
  honest (ob_failed s err now r).
Proof. destruct r. unfold honest, obligations_satisfied; simpl. by intros [-> | ->]. Qed.

Lemma mark_reconciled_honest id md : honest_prog (mark_reconciled id md).
Proof.
  intros K. unfold mark_reconciled. read_row row Hh Hid Hb Hk Hx. apply honest_from_call; [exact I|]. intros now _.
  destruct (require_all_obligations_satisfied _) as [[]|] eqn:Hr; [|exact I].
  apply honest_from_call; [|intros [[]|] _; exact I].
  eapply write_back; [by apply require_satisfied_honest | apply set_status_same | |].
  - by apply backed_more.
  - by left.
Qed.

Lemma mark_reconciled_claimed_honest lease md : honest_prog (mark_reconciled_claimed lease md).
Proof.
  intros K. unfold mark_reconciled_claimed. apply honest_from_call; [exact I|]. intros [[]|] _; try exact I.
  cbn [negb]. read_row row Hh Hid Hb Hk Hx. apply honest_from_call; [exact I|]. intros now _. cbn zeta.
  destruct (require_all_obligations_satisfied _) as [[]|] eqn:Hr; [|exact I].
  match goal with |- honest_from ?K' _ => destruct (write_back K' (row_record row) (ob_reconciled md now (row_record row))) as (? & ? & ?) end.
  - by apply require_satisfied_honest.
  - apply set_status_same.
  - by apply backed_more.
  - by left.
  - split; [|by intros]. split_and!; [done..|]. unfold ob_reconciled. by destruct (row_record row).
Qed.

(** A mark names an event that is known to be stored. *)
Lemma mark_written_from K oid x kind ev :
  K (Record_of oid x) → K (Event_stored ev kind (Some x)) →
  honest_from K (mark_provenance_obligation_written oid kind ev).
Proof.
  intros Hrec Hev. unfold mark_provenance_obligation_written. read_row row Hh Hid Hb Hk Hx.
  apply honest_from_call; [exact I|]. intros now _. rewrite <- (Hx _ Hrec) in Hev.
  match goal with |- honest_from ?K' _ =>
    destruct (mark_backed K' kind ev now (row_record row)) as (H1 & H2 & H3 & H4) end.
  { by apply backed_more. }
  { by left; left. }
  split; [|by intros]. cbn. split_and!; [done | done|]. rewrite H3, H4. by left.
Qed.

Lemma mark_written_claimed_from K lease x kind ev :
  K (Record_of (ls_outbox_id lease) x) → K (Event_stored ev kind (Some x)) →
  honest_from K (mark_provenance_obligation_written_claimed lease kind ev).
Proof.
  intros Hrec Hev. unfold mark_provenance_obligation_written_claimed, update_claimed_with.
  read_row row Hh Hid Hb Hk Hx. apply honest_from_call; [exact I|]. intros now _. rewrite <- (Hx _ Hrec) in Hev.
  match goal with |- honest_from ?K' _ =>
    destruct (mark_backed K' kind ev now (row_record row)) as (H1 & H2 & H3 & H4) end.
  { by apply backed_more. }
  { by left; left. }
  split; [|by intros]. cbn. split_and!; [done | done | |congruence]. rewrite H3, H4. by left.
Qed.

(** The other updates of a claimed record. *)
Lemma ob_failed_same s err now r : same_obligations r (ob_failed s err now r).
Proof. apply set_status_same. Qed.

Lemma failed_claimed_honest {A} K s err lease clear (row : OutboxRow) now (f : result bool StoreError → prog A) :
  (s = LO_NeedsOperatorReview ∨ s = ob_status (row_record row)) → honest (row_record row) →
  ob_outbox_id (row_record row) = ls_outbox_id lease → backed K (row_record row) →
  K (Record_of (ob_outbox_id (row_record row)) (ob_execution_id (row_record row))) → (∀ r, honest_prog (f r)) →
  honest_from K (bind (call (op_update_claimed (ob_failed s err now (row_record row)) lease clear)) f).
Proof.
  intros Hs Hh Hid Hb Hk Hf. apply honest_from_call; [|intros; apply Hf].
  destruct (write_back K _ _ (ob_failed_honest s err now _ Hs Hh) (ob_failed_same s err now _) Hb Hk) as (? & ? & ?).
  split_and!; try done. by destruct (row_record row).
Qed.

Lemma mark_review_claimed_honest lease reason :
  honest_prog (mark_needs_operator_review_claimed lease reason).
Proof.
  intros K. unfold mark_needs_operator_review_claimed, update_claimed_with. read_row row Hh Hid Hb Hk Hx.
  apply honest_from_call; [exact I|]. intros now _.
  eapply (failed_claimed_honest _ _ _ _ _ _ _ (λ r, Ret r)); [by left | done | done | | |done].
  - by apply backed_more.
  - by left.
Qed.

Lemma record_reconciliation_failure_honest lease err max :
  honest_prog (record_reconciliation_failure lease err max).
Proof.
  intros K. unfold record_reconciliation_failure. read_row row Hh Hid Hb Hk Hx.
  apply honest_from_call; [exact I|]. intros now _. cbn zeta.
  apply failed_claimed_honest; [case_match; auto | done | done | | |].
  - by apply backed_more.
  - by left.
  - by intros [[]|].
Qed.

Lemma mark_needs_operator_review_honest id reason : honest_prog (mark_needs_operator_review id reason).
Proof.
  intros K. unfold mark_needs_operator_review. read_row row Hh Hid Hb Hk Hx. apply honest_from_call; [exact I|]. intros now _.
  apply honest_from_call; [|intros [[]|] _; exact I].
  eapply write_back; [by apply ob_failed_honest; [left|] | apply ob_failed_same | |].
  - by apply backed_more.
  - by left.
Qed.

Lemma ob_decided_key tj s k tk actor reason now r :
  smap_contains_key k (ob_metadata (ob_decided tj s k tk actor reason now r)) = true.
Proof.
  unfold ob_decided. match goal with |- context [index_insert k ?v] => set (x := v) end.
  replace (ob_metadata (ob_set_status s None (ob_attempt_count r) now (index_insert k x (ob_metadata r)) r))
    with (index_insert k x (ob_metadata r)) by by destruct r.
  unfold smap_contains_key. rewrite index_insert_get. by rewrite decide_True.
Qed.

Lemma operator_decision_honest tj s k tk id actor reason :
  s = LO_PendingProvenance ∨ (s = LO_Reconciled ∧ k = "operator_resolved") →
  honest_prog (operator_decision tj s k tk id actor reason).
Proof.
  intros Hs K. unfold operator_decision. read_row row Hh Hid Hb Hk Hx. apply honest_from_call; [exact I|]. intros now _.
  cbn zeta. apply honest_from_call; [|intros [[]|] _; exact I].
  eapply write_back; [| apply set_status_same | |].
  - destruct Hs as [-> | [-> ->]]; [apply open_honest; by destruct (row_record row)|].
    intros _. right. apply ob_decided_key.
  - by apply backed_more.
  - by left.
Qed.

#[export] Hint Resolve mark_reconciled_honest mark_reconciled_claimed_honest mark_review_claimed_honest
  record_reconciliation_failure_honest mark_needs_operator_review_honest : honest.

(** A program that writes no outbox record. *)
Lemma governance_err_honest {R} route e : honest_prog (governance_err (R := R) route e).
Proof. unfold governance_err. solve_honest. Qed.
Lemma governance_ok_honest {R} route (r : R) : honest_prog (governance_ok route r).
Proof. unfold governance_ok. solve_honest. Qed.
#[export] Hint Resolve governance_err_honest governance_ok_honest : honest.
Lemma require_honest {T} route (r : result T ApiProblem) : honest_prog (require route r).
Proof. unfold require. solve_honest. Qed.
Lemma checked_honest {T} route (p : prog (result T StoreError)) :
  honest_prog p → honest_prog (checked route p).
Proof. intros Hp. unfold checked. apply honest_bind; [done|]. intros. solve_honest. Qed.
Lemma fetch_honest {T} route (o : op (result (option T) StoreError)) missing :
  (∀ K, writes_honestly K o) → honest_prog (fetch route o missing).
Proof. intros Ho. unfold fetch. apply honest_bind; [by apply honest_call|]. intros. solve_honest. Qed.
#[export] Hint Resolve require_honest checked_honest : honest.
#[export] Hint Extern 1 (honest_prog (fetch _ _ _)) => apply fetch_honest; intros ?; exact I : honest.

(** ** Events and records a handler gets to know *)

Lemma known_checked {T} K route (p : prog (result T StoreError)) Ψ :
  known_after K p (λ K' r, ∀ x, r = Ok x → Ψ K' x) →
  known_after K (checked route p) (λ K' r, ∀ x, r = Ok x → Ψ K' x).
Proof.
  intros Hp. unfold checked. eapply known_bind; [exact Hp|]. intros K' [x|e] _ H.
  - intros y [= <-]. by apply H.
  - unfold governance_err. split; [exact I|]. by intros [] _.
Qed.

Lemma known_call {T} K (o : op (result T StoreError)) Ψ :
  writes_honestly K o → (∀ x, Ψ (λ f, K f ∨ learns o (Ok x) f) x) →
  known_after K (call o) (λ K' r, ∀ x, r = Ok x → Ψ K' x).
Proof. intros Ho HΨ. split; [done|]. intros r _ x ->. apply HΨ. Qed.

(** An appended event is stored under its identity. *)
Lemma append_governance_event_known K ev :
  known_after K (append_governance_event ev) (λ K' r, ∀ x, r = Ok x →
    K' (Event_stored (ev_event_id ev) (ev_kind ev) (ev_execution_id ev))).
Proof.
  assert (∀ K md edges, known_after K (append_with (ev_with md edges ev)) (λ K' r, ∀ x, r = Ok x →
    K' (Event_stored (ev_event_id ev) (ev_kind ev) (ev_execution_id ev)))) as Hw.
  { intros K' md edges. apply (known_call K' _ (λ K' _, K' _)); [exact I|]. intros []. by right. }
  unfold append_governance_event. destruct (lineage_parent_spec _) as [[pk et]|]; [|apply Hw].
  eapply known_bind; [by apply (honest_call (op_query _)); intros; exact I|].
  intros K' [evs|e] _ _; [|done]. repeat case_match; try apply Hw. done.
Qed.

Lemma emit_known K route kind obj e cid md :
  known_after K (emit route kind obj e cid md) (λ K' r, ∀ id, r = Ok id →
    K' (Event_stored id kind (Some (ex_execution_id e)))).
Proof.
  unfold emit. do 2 (apply known_step; [exact I | intros ? _]).
  eapply known_bind; [apply known_checked, append_governance_event_known|].
  intros K' [[]|err] _ H; [|done]. intros ? [= <-]. by apply (H tt).
Qed.

(** The record of a transition is stored, about the execution. *)
Definition recorded (x : ExecutionId) (kinds : list ProvenanceEventKind) (K : known) (ob : LifecycleOutboxRecord) : Prop :=
  K (Record_of (ob_outbox_id ob) x) ∧ ob_intended_provenance_kind ob = default PK_ErrorRaised (head kinds).

Lemma pending_backed K oid now x c ps s pr nr kinds key : backed K (pending_with_obligations oid now x c ps s pr nr kinds key).
Proof.
  intros o id Ho Hid. exfalso. unfold obligations_for_record in Ho. cbn in Ho.
  assert (∀ k, po_event_id (obligation_pending k) = None) as Hp by (intros k; unfold obligation_pending; by repeat case_match).
  destruct kinds as [|k kinds]; cbn in Ho.
  - apply list_elem_of_singleton in Ho as ->. done.
  - change (o ∈ obligation_pending <$> (k :: kinds)) in Ho. apply list_elem_of_fmap in Ho as (k' & -> & _).
    by rewrite Hp in Hid.
Qed.

Lemma record_transition_known K name prev upd pc uc kinds :
  known_after K (record_lifecycle_transition_outbox_with_obligations name prev upd pc uc kinds)
    (λ K' r, ∀ ob, r = Ok ob → recorded (ex_execution_id upd) kinds K' ob).
Proof.
  unfold record_lifecycle_transition_outbox_with_obligations.
  apply known_step; [exact I | intros now _]. apply known_step; [exact I | intros oid _]. cbn zeta.
  eapply known_bind; [apply (known_call _ _ (λ K' _, K' (Record_of oid (ex_execution_id upd))))|].
  - split; [by apply open_honest | eapply backed_same; [apply set_status_same | apply pending_backed]].
  - intros []. by right.
  - intros K' [[]|err] _ H; [|done]. intros ob [= <-]. split; [by apply (H tt) | done].
Qed.

(** Closing a record whose event is stored. *)
Lemma mark_lifecycle_from K ob x kind ev :
  K (Record_of (ob_outbox_id ob) x) → K (Event_stored ev kind (Some x)) →
  honest_from K (mark_lifecycle_obligation_written ob kind ev).
Proof.
  intros Hr He. unfold mark_lifecycle_obligation_written.
  eapply known_bind; [by eapply mark_written_from|]. by intros K' [[]|] _ _.
Qed.

Lemma mark_transition_from K ob x kind kinds ev :
  K (Record_of (ob_outbox_id ob) x) → ob_intended_provenance_kind ob = default PK_ErrorRaised (head (kind :: kinds)) →
  K (Event_stored ev kind (Some x)) → honest_from K (mark_lifecycle_transition_reconciled ob ev).
Proof.
  intros Hr Hk He. unfold mark_lifecycle_transition_reconciled. cbn in Hk. rewrite Hk.
  eapply known_bind; [by eapply mark_lifecycle_from|]. intros K' [[]|] _ _; [apply mark_reconciled_honest | done].
Qed.

Lemma checked_from {T} K route (p : prog (result T StoreError)) : honest_from K p → honest_from K (checked route p).
Proof.
  intros Hp. eapply known_bind; [exact Hp|]. intros K' [x|e] _ _; [done | apply governance_err_honest].
Qed.

Lemma append_governance_event_honest ev : honest_prog (append_governance_event ev).
Proof. intros K. eapply known_weaken, append_governance_event_known. Qed.
#[export] Hint Resolve append_governance_event_honest : honest.

Lemma load_execution_honest app route path actor : honest_prog (load_execution app route path actor).
Proof. unfold load_execution. solve_honest. Qed.
Lemma load_contract_honest route e : honest_prog (load_contract route e).
Proof. unfold load_contract. solve_honest. Qed.
Lemma forward_honest {R} c (o : op (result R AdapterError)) :
  (∀ K, writes_honestly K o) → honest_prog (forward c o).
Proof.
  intros Ho. unfold forward. apply honest_bind; [by apply honest_call|]. intros []; [|by intros ?].
  apply honest_bind; [by apply honest_call | by intros ? ?].
Qed.
#[export] Hint Resolve load_execution_honest load_contract_honest : honest.
#[export] Hint Extern 1 (honest_prog (rollback_verify_with_outcome _)) => apply forward_honest; intros ?; exact I : honest.
#[export] Hint Extern 1 (honest_prog (rollback_execute _ _)) => apply forward_honest; intros ?; exact I : honest.
#[export] Hint Extern 1 (honest_prog (rollback_compensate _)) => apply forward_honest; intros ?; exact I : honest.

(** A quiet program that writes no outbox record: its binds and calls again. *)
Lemma find_plan_honest i n a t : honest_prog (find_plan i n a t).
Proof.
  revert i. induction n as [|n IH]; intros i; cbn [find_plan]; [by intros ?|].
  solve_honest; apply IH.
Qed.
#[export] Hint Resolve find_plan_honest : honest.
Lemma rollback_prepare_honest r : honest_prog (rollback_prepare r).
Proof. unfold rollback_prepare, choose_plan. solve_honest. Qed.
Lemma build_prepare_request_honest ext i e c p s :
  honest_prog (build_prepare_request_for_proposal ext i e c p s).
Proof. unfold build_prepare_request_for_proposal. solve_honest. Qed.
Lemma validate_approval_binding_digest_honest ext b id :
  honest_prog (validate_approval_binding_digest ext b id).
Proof. unfold validate_approval_binding_digest, fetch_or. solve_honest. Qed.
(** A capability service that leaves the outbox alone. *)
Class HonestBackend (b : CapBackend) : Prop := {
  hb_get id : honest_prog (cb_get b id);
  hb_mark_used id : honest_prog (cb_mark_used b id);
  hb_revoke id : honest_prog (cb_revoke b id);
}.
#[export] Hint Resolve hb_get hb_mark_used hb_revoke : honest.

#[export] Instance in_memory_honest : HonestBackend InMemoryCapabilityService.
Proof. split; intros; cbn [cb_get cb_mark_used cb_revoke InMemoryCapabilityService]; solve_honest. Qed.
#[export] Instance store_honest : HonestBackend StoreCapabilityService.
Proof.
  split; intros; cbn [cb_get cb_mark_used cb_revoke StoreCapabilityService];
    unfold store_get, store_mark_used, store_revoke, store_conclude, store_lost, store_lease; solve_honest.
Qed.

Lemma get_capability_for_authorize_honest b `{!HonestBackend b} id :
  honest_prog (get_capability_for_authorize b id).
Proof. unfold get_capability_for_authorize. solve_honest. Qed.
Lemma append_audit_checked_honest app a b c d e md : honest_prog (append_audit_checked app a b c d e md).
Proof. unfold append_audit_checked, append_audit, audit_append. solve_honest. Qed.
Lemma lineage_honest e : honest_prog (validate_minimum_lineage_chain e).
Proof. unfold validate_minimum_lineage_chain, require_parent_event. solve_honest. Qed.
#[export] Hint Resolve rollback_prepare_honest build_prepare_request_honest
  validate_approval_binding_digest_honest get_capability_for_authorize_honest
  append_audit_checked_honest lineage_honest : honest.


(** ** The handlers *)

(** The transition is recorded; an event is appended; the record is marked with it. *)
Ltac step_record ob Hr Hk :=
  eapply honest_from_try; [apply known_checked, record_transition_known|];
  let Hsub := fresh in intros ? ob Hsub [Hr Hk]; keep_known Hsub.
Ltac step_emit id Hev :=
  eapply honest_from_try; [apply emit_known|]; let Hsub := fresh in intros ? id Hsub Hev; keep_known Hsub.
Ltac step_mark :=
  apply honest_from_then;
    [apply checked_from; first [eapply mark_transition_from; eassumption | eapply mark_lifecycle_from; eassumption] |];
  let Hsub := fresh in intros ? ? Hsub; keep_known Hsub.

Lemma execute_success_honest e c payload r : honest_prog (execute_success e c payload r).
Proof.
  intros K. unfold execute_success, record_lifecycle_transition_outbox. destruct e. cbn zeta.
  step_record ob Hr Hk. step_emit eid Hev. step_mark. apply governance_ok_honest.
Qed.
Lemma execute_recovery_honest e c payload : honest_prog (execute_recovery e c payload).
Proof.
  intros K. unfold execute_recovery. destruct e. cbn zeta.
  step_record ob Hr Hk. step_emit eid Hev. step_mark. apply governance_ok_honest.
Qed.
Lemma verify_recovery_honest e c u : honest_prog (verify_recovery e c u).
Proof.
  intros K. unfold verify_recovery. destruct e. cbn zeta.
  step_record ob Hr Hk. step_emit eid Hev. step_mark. apply governance_ok_honest.
Qed.
Lemma compensate_conclude_honest e c r : honest_prog (compensate_conclude e c r).
Proof.
  intros K. unfold compensate_conclude, record_lifecycle_transition_outbox. destruct e. cbn zeta.
  apply honest_from_bind; [auto with honest|]. intros ? finished _.
  step_record ob Hr Hk. step_emit eid Hev. step_mark. apply governance_ok_honest.
Qed.
#[export] Hint Resolve execute_success_honest execute_recovery_honest verify_recovery_honest
  compensate_conclude_honest : honest.

Lemma prepare_events_from K e c ob :
  K (Record_of (ob_outbox_id ob) (ex_execution_id e)) → honest_from K (prepare_events e c ob).
Proof.
  intros Hr. unfold prepare_events. step_emit eid Hev. step_mark. step_emit eid2 Hev2. step_mark.
  apply checked_from, mark_reconciled_honest.
Qed.

Lemma verify_events_from K v commit e c ob :
  K (Record_of (ob_outbox_id ob) (ex_execution_id e)) → honest_from K (verify_events v commit e c ob).
Proof.
  intros Hr. unfold verify_events. step_emit eid Hev. step_mark. case_match; [apply checked_from, mark_reconciled_honest|].
  step_emit eid2 Hev2. step_mark. apply checked_from, mark_reconciled_honest.
Qed.

Lemma verify_conclude_honest v e c u : honest_prog (verify_conclude v e c u).
Proof.
  intros K. unfold verify_conclude. cbn zeta. step_record ob Hr Hk.
  apply honest_from_then; [by apply verify_events_from|]. intros. apply governance_ok_honest.
Qed.
#[export] Hint Resolve verify_conclude_honest : honest.

Lemma authorize_honest app `{!HonestBackend (app_cap app)} actor req : honest_prog (authorize_execution app actor req).
Proof.
  intros K. unfold authorize_execution. apply honest_from_then; [apply honest_any; unfold authorize_checks; solve_honest|].
  intros K1 lease _. do 4 (apply honest_from_call; [exact I | intros ? _]). cbn zeta.
  apply honest_from_call.
  { split; [by apply open_honest | eapply backed_same; [apply set_status_same | apply pending_backed]]. }
  intros [[]|] _; cbn beta iota.
  - apply honest_from_bind; [auto with honest nocore|]. intros K2 u Hsub.
    match goal with |- context [mark_lifecycle_transition_reconciled ?ob _] =>
      assert (K2 (Record_of (ob_outbox_id ob) (ob_execution_id ob))) as Hr by (apply Hsub; by right);
      assert (ob_intended_provenance_kind ob = default PK_ErrorRaised (head [PK_ActionProposalSubmitted])) as Hk by done end.
    clear Hsub. step_emit eid Hev. step_mark. apply governance_ok_honest.
  - apply honest_any. unfold classify_authorization_cas_failure. solve_honest.
  - apply governance_err_honest.
Qed.
Lemma prepare_honest app path actor : honest_prog (prepare_execution app path actor).
Proof.
  intros K. unfold prepare_execution. apply honest_from_then; [apply honest_any; unfold prepare_checks; solve_honest|].
  intros K1 [e response] _. cbn zeta. destruct e. step_record ob Hr Hk.
  apply honest_from_then; [by apply prepare_events_from|]. intros. apply governance_ok_honest.
Qed.
Lemma execute_honest app path actor payload : honest_prog (execute_execution app path actor payload).
Proof. unfold execute_execution, execute_load, execute_authorize, execute_claim. solve_honest. Qed.
Lemma verify_honest app path actor : honest_prog (verify_execution app path actor).
Proof. unfold verify_execution, verify_checks. solve_honest. Qed.
Lemma commit_honest app path actor : honest_prog (commit_execution app path actor).
Proof.
  intros K. unfold commit_execution, record_lifecycle_transition_outbox.
  apply honest_from_then; [apply honest_any; unfold commit_checks; solve_honest|]. intros K1 [e c] _. cbn zeta. destruct e.
  step_record ob Hr Hk. step_emit eid Hev. step_mark. apply governance_ok_honest.
Qed.
Lemma compensate_honest app path actor : honest_prog (compensate_execution app path actor).
Proof. unfold compensate_execution, compensate_checks. solve_honest. Qed.
Lemma cancel_honest app path actor : honest_prog (cancel_execution app path actor).
Proof.
  intros K. unfold cancel_execution, record_lifecycle_transition_outbox.
  apply honest_from_then; [apply honest_any; auto with honest nocore|]. intros K1 e _. cbn zeta.
  case_match; [apply governance_err_honest|].
  apply honest_from_call; [exact I | intros finished _]. destruct e. step_record ob Hr Hk.
  apply honest_from_bind; [auto with honest nocore|]. intros K3 r Hsub. keep_known Hsub.
  apply honest_from_then; [apply require_honest|]. intros K4 u Hsub. keep_known Hsub.
  step_emit eid Hev. step_mark. apply honest_any. solve_honest.
Qed.

Lemma mint_honest app actor req : honest_prog (mint_capability app actor req).
Proof.
  unfold mint_capability, mint_checks, guarded_by, mint_permitted, latest_policy_decision_for_proposal,
    validate_quarantine_hold_for_proposal, mint_capability_with_owner. solve_honest.
Qed.
Lemma revoke_honest app `{!HonestBackend (app_cap app)} path actor :
  honest_prog (revoke_capability app path actor).
Proof. unfold revoke_capability, revoke_lease, revoke_stored. solve_honest. Qed.

(** ** The reconciler *)

Lemma timeout_from {A} n K (p : prog A) Φ : known_after K p Φ → honest_from K (timeout n p).
Proof.
  revert n K. induction p as [a|X o k IH]; intros [|n] K; simpl; try done.
  intros [Ho Hk]. split; [done|]. intros x Hx. by apply IH, Hk.
Qed.

Lemma needs_review_honest {T} lease reason (k : prog (result T StoreError)) :
  honest_prog k → honest_prog (needs_review lease reason k).
Proof.
  intros Hk. unfold needs_review. apply honest_bind; [auto with honest nocore|].
  intros [[]|]; [exact Hk | by intros ?..].
Qed.

Lemma required_parent_edge_honest r e o id : honest_prog (required_parent_edge r e o id).
Proof. unfold required_parent_edge. solve_honest. Qed.
#[export] Hint Resolve required_parent_edge_honest : honest.
Lemma ensure_required_parent_edge_honest c e o id ttl :
  honest_prog (ensure_required_parent_edge c e o id ttl).
Proof. unfold ensure_required_parent_edge, renew_or_fence. solve_honest. Qed.
Lemma renew_or_fence_honest l ttl : honest_prog (renew_or_fence l ttl).
Proof. unfold renew_or_fence. solve_honest. Qed.
#[export] Hint Resolve ensure_required_parent_edge_honest renew_or_fence_honest : honest.

(** A discovered event is stored, of the obligation's kind and of the record's execution. *)
Lemma discover_known K record o :
  known_after K (discover_matching_event record o) (λ K' r, ∀ found, r = Ok found →
    ∀ e, found = Some e → K' (Event_stored (ev_event_id e) (po_event_kind o) (Some (ob_execution_id record)))).
Proof.
  unfold discover_matching_event. apply known_step; [exact I|]. intros [evs|err] Ha; [|done].
  intros found [= <-] e He. case_match eqn:Hf; [done|]. case_match; [|done]. injection He as ->.
  assert (e ∈ evs) as Hin.
  { apply (list_elem_of_filter (λ e, event_of_record record e)). rewrite Hf. left. }
  destruct (Ha evs e eq_refl Hin) as [Hk Hx]. rewrite <- (Hk _ eq_refl), <- (Hx _ eq_refl).
  right. by exists evs, e.
Qed.

(** The claimed record is about the execution that was loaded for it. *)
Definition claim_known (K : known) (c : LifecycleOutboxClaim) : Prop :=
  K (Record_of (ls_outbox_id (lc_lease c)) (ob_execution_id (lc_record c))).

Lemma mark_claimed_from {T} K c kind id (out : T) :
  claim_known K c → K (Event_stored id kind (Some (ob_execution_id (lc_record c)))) →
  honest_from K (updated <-? mark_provenance_obligation_written_claimed (lc_lease c) kind id ;;
    Ret match require_fence updated with Ok _ => Ok out | Err e => Err e end).
Proof. intros Hc He. apply honest_from_then; [by eapply mark_written_claimed_from | done]. Qed.

Lemma claim_known_more (K K' : known) c : (∀ f, K f → K' f) → claim_known K c → claim_known K' c.
Proof. intros Hsub. apply Hsub. Qed.

Lemma reconcile_obligation_from K c e k ttl o :
  claim_known K c → ex_execution_id e = ob_execution_id (lc_record c) →
  honest_from K (reconcile_obligation c e k ttl o).
Proof.
  intros Hc Hx. unfold reconcile_obligation. cbn zeta.
  assert (∀ K, honest_from K (needs_review (lc_lease c) ambiguous_parent (Ret (Ok OO_Review)))) as Hrev
    by (intros K'; apply needs_review_honest; by intros ?).
  apply honest_from_then; [destruct (po_event_id o); apply honest_any; solve_honest|].
  intros K1 present Hsub. apply (claim_known_more _ _ _ Hsub) in Hc. clear Hsub.
  destruct present as [ev|], (po_event_id o) as [id|]; cbn beta iota.
  { apply honest_from_then; [apply ensure_required_parent_edge_honest|]. intros K2 ok _. by case_match. }
  all: eapply honest_from_try; [apply discover_known|]; intros K2 [found|] Hsub Hf;
    apply (claim_known_more _ _ _ Hsub) in Hc; clear Hsub.
  all: try (specialize (Hf found eq_refl); apply honest_from_then; [apply ensure_required_parent_edge_honest|];
    intros K3 ok Hsub; apply (claim_known_more _ _ _ Hsub) in Hc; keep_known Hsub; case_match; [done | by apply mark_claimed_from]).
  all: clear Hf; do 2 (apply honest_from_op; [exact I|]; intros ? ? Hsub _ _; apply (claim_known_more _ _ _ Hsub) in Hc; clear Hsub).
  all: apply honest_from_then; [apply required_parent_edge_honest|]; intros K3 edge Hsub;
    apply (claim_known_more _ _ _ Hsub) in Hc; clear Hsub; destruct edge as [edge|]; [|done].
  all: apply honest_from_then; [apply renew_or_fence_honest|]; intros K4 u Hsub;
    apply (claim_known_more _ _ _ Hsub) in Hc; clear Hsub.
  all: apply honest_from_op; [exact I|]; intros K5 [[]|] Hsub Hl _; [|exact I];
    apply mark_claimed_from; [by apply (claim_known_more _ _ _ Hsub) | apply Hl; by rewrite <- Hx].
Qed.

Lemma reconcile_obligations_from c e k ttl os : ∀ K r d,
  claim_known K c → ex_execution_id e = ob_execution_id (lc_record c) →
  honest_from K (reconcile_obligations c e k ttl r d os).
Proof.
  induction os as [|o os IH]; intros K r d Hc Hx; cbn [reconcile_obligations]; [done|].
  apply honest_from_then; [by apply reconcile_obligation_from|]. intros K' out Hsub.
  apply (claim_known_more _ _ _ Hsub) in Hc. destruct out; auto. done.
Qed.

Lemma review_honest {T} lease reason (x : T) : honest_prog (needs_review lease reason (Ret (Ok x))).
Proof. apply needs_review_honest. by intros ?. Qed.

(** The part of [reconcile_record] after the checks. *)
Lemma reconcile_tail_from K c e contract ttl (status : bool → bool → JsonMap) (out : bool → ReconcileOutcome) :
  claim_known K c → ex_execution_id e = ob_execution_id (lc_record c) →
  honest_from K (flags <-? reconcile_obligations c e contract ttl false false (obligations_for_record (lc_record c)) ;;
    match flags with
    | None => Ret (Ok RO_NeedsOperatorReview)
    | Some (repaired, discovered) =>
        updated <-? mark_reconciled_claimed (lc_lease c) (status repaired discovered) ;;
        Ret match require_fence updated with Err e => Err e | Ok _ => Ok (out repaired) end
    end).
Proof.
  intros Hc Hx. apply honest_from_then; [by apply reconcile_obligations_from|].
  intros K2 [[rep disc]|] _; [|done]. apply honest_from_then; [apply mark_reconciled_claimed_honest | done].
Qed.

Lemma reconcile_record_from K c ttl : claim_known K c → honest_from K (reconcile_record c ttl).
Proof.
  intros Hc. unfold reconcile_record. cbn zeta. case_match; try done.
  all: apply honest_from_op; [exact I|]; intros K1 [[e|]|err] Hsub _ Ha; [|apply review_honest | done];
    specialize (Ha e eq_refl); apply (claim_known_more _ _ _ Hsub) in Hc; clear Hsub; case_match; [apply review_honest|];
    unfold reconcile_contract; destruct (ob_rollback_contract_id _) as [cid|];
    [|by apply (reconcile_tail_from _ _ _ _ _ (λ rep disc, _) (λ rep, _))].
  all: apply honest_from_op; [exact I|]; intros K2 [[contract|]|err] Hsub _ _; [|apply review_honest | done];
    apply (claim_known_more _ _ _ Hsub) in Hc; case_match; [apply review_honest|].
  all: by apply (reconcile_tail_from _ _ _ _ _ (λ rep disc, _) (λ rep, _)).
Qed.

Lemma reconcile_claims_from ttl budget cs : ∀ K report,
  (∀ c, c ∈ cs → claim_known K c) → honest_from K (reconcile_claims ttl budget cs report).
Proof.
  induction cs as [|c cs IH]; intros K report Hcs; cbn [reconcile_claims]; [done|].
  assert (honest_from K (reconcile_claim ttl (budget c) c report)) as H1.
  { unfold reconcile_claim, record_failure. eapply known_bind; [eapply timeout_from, reconcile_record_from, Hcs; left|].
    intros K' r _ _. destruct report. apply honest_any. solve_honest. }
  eapply known_bind; [exact H1|]. intros K' report' Hsub _. apply IH. intros c' Hin.
  eapply claim_known_more; [exact Hsub|]. apply Hcs. by right.
Qed.

Lemma split_fresh_sub seen claims c : c ∈ (split_fresh seen claims).1 → c ∈ claims.
Proof.
  revert seen. induction claims as [|c' claims IH]; intros seen; cbn [split_fresh]; [done|].
  case_match; [intros Hin; right; by eapply IH|]. specialize (IH (ls_outbox_id (lc_lease c') :: seen)).
  destruct (split_fresh _ claims) as [fresh seen']. cbn. intros [->|Hin]%elem_of_cons; [left | right; by apply IH].
Qed.

Lemma reconcile_loop_honest fuel owner ttl budget : ∀ remaining seen report,
  honest_prog (reconcile_loop fuel owner ttl budget remaining seen report).
Proof.
  induction fuel as [|fuel IH]; intros [|remaining] seen report K; cbn [reconcile_loop]; try done.
  apply honest_from_call; [exact I|]. intros [claims|err] _; [|done].
  pose proof (split_fresh_sub seen claims) as Hsub. destruct (split_fresh seen claims) as [fresh seen'].
  destruct fresh as [|c fresh]; [done|]. destruct report.
  eapply known_bind; [apply reconcile_claims_from|].
  - intros c' Hin. right. by exists claims, c'; split_and!; [|apply Hsub|].
  - intros K' report _ _. case_match; [done | apply IH].
Qed.

(** ** The background pass *)

Lemma ha_recover_honest e c t : honest_prog (ha_recover e c t).
Proof.
  intros K. unfold ha_recover. destruct e. cbn zeta.
  eapply honest_from_try; [apply record_transition_known|]. intros K1 ob _ [Hr Hk].
  apply honest_from_op; [exact I|]. intros K2 eid Hsub _ _. keep_known Hsub.
  eapply honest_from_try; [apply append_governance_event_known|]. intros K3 u Hsub Hev. keep_known Hsub.
  apply honest_from_then; [by eapply mark_transition_from | done].
Qed.
#[export] Hint Resolve ha_recover_honest : honest.

Lemma ha_reconcile_one_honest t report e : honest_prog (ha_reconcile_one t report e).
Proof.
  destruct report. unfold ha_reconcile_one, reconcile_running_prepared_pair, emit_ha_reconciler_provenance.
  solve_honest.
Qed.

Lemma ha_pass_honest app : honest_prog (run_ha_reconciler_pass app).
Proof.
  assert (∀ t es report, honest_prog (ha_reconcile_all t report es)) as Hall.
  { intros t es. induction es as [|e es IH]; intros report; [by intros ?|].
    apply honest_bind; [apply ha_reconcile_one_honest | apply IH]. }
  unfold run_ha_reconciler_pass, add_if_positive. solve_honest.
Qed.

(** ** Every interleaving keeps the outbox honest *)

(** The programs of a deployment: the handlers, the reconciler, the background pass
    and the operator's decisions about the outbox. *)
Inductive outbox_writer (app : App) : prog unit → Prop :=
| ow_authorize actor request : outbox_writer app (discard (authorize_execution app actor request))
| ow_prepare path actor : outbox_writer app (discard (prepare_execution app path actor))
| ow_execute path actor payload : outbox_writer app (discard (execute_execution app path actor payload))
| ow_verify path actor : outbox_writer app (discard (verify_execution app path actor))
| ow_commit path actor : outbox_writer app (discard (commit_execution app path actor))
| ow_compensate path actor : outbox_writer app (discard (compensate_execution app path actor))
| ow_cancel path actor : outbox_writer app (discard (cancel_execution app path actor))
| ow_reconcile budget limit owner ttl :
    outbox_writer app (discard (reconcile_lifecycle_outbox_with_lease budget limit owner ttl))
| ow_mint actor request : outbox_writer app (discard (mint_capability app actor request))
| ow_revoke path actor : outbox_writer app (discard (revoke_capability app path actor))
| ow_ha : outbox_writer app (discard (run_ha_reconciler_pass app))
| ow_review id reason : outbox_writer app (discard (mark_needs_operator_review id reason))
| ow_retry time_json id actor reason :
    outbox_writer app (discard (reset_for_retry time_json id actor reason))
| ow_resolve time_json id actor reason :
    outbox_writer app (discard (mark_operator_resolved time_json id actor reason))
| ow_retry_call record_json time_json budget pid id request :
    outbox_writer app (discard (retry_lifecycle_outbox app record_json time_json budget pid id request))
| ow_resolve_call record_json time_json id request :
    outbox_writer app (discard (resolve_lifecycle_outbox app record_json time_json id request)).

Lemma retry_call_honest app record_json time_json budget pid id request :
  honest_prog (retry_lifecycle_outbox app record_json time_json budget pid id request).
Proof.
  unfold retry_lifecycle_outbox, retry_reconciliation, refuse, outbox_answer.
  apply honest_bind; [apply operator_decision_honest; by left|]. intros [[record|]|e]; [|solve_honest..].
  apply honest_bind; [|intros ?; solve_honest]. apply honest_bind; [solve_honest|intros ?; apply reconcile_loop_honest].
Qed.
Lemma resolve_call_honest app record_json time_json id request :
  honest_prog (resolve_lifecycle_outbox app record_json time_json id request).
Proof.
  unfold resolve_lifecycle_outbox, refuse, outbox_answer. case_match; [by intros ?|].
  apply honest_bind; [apply operator_decision_honest; by right|]. intros [[record|]|e]; solve_honest.
Qed.

Lemma outbox_writer_honest app `{!HonestBackend (app_cap app)} p : outbox_writer app p → honest_prog p.
Proof.
  intros []; (apply honest_bind; [|by intros ? ?]);
    auto using authorize_honest, prepare_honest, execute_honest, verify_honest, commit_honest,
      compensate_honest, cancel_honest, mint_honest, revoke_honest, mark_needs_operator_review_honest,
      retry_call_honest, resolve_call_honest.
  - apply reconcile_loop_honest.
  - apply ha_pass_honest.
  - apply operator_decision_honest. by left.
  - apply operator_decision_honest. by right.
Qed.

(** A thread of the pool, with what it has got to know. *)
Definition honest_thread (d : Db) (p : prog unit) : Prop := ∃ K : known, (∀ f, K f → holds d f) ∧ honest_from K p.

Lemma honest_step env app `{!HonestBackend (app_cap app)} p p' :
  honest_db (w_db (p_world p)) → Forall (honest_thread (w_db (p_world p))) (p_threads p) →
  pool_step (outbox_writer app) env p p' →
  honest_db (w_db (p_world p')) ∧ Forall (honest_thread (w_db (p_world p'))) (p_threads p').
Proof.
  intros Hd Hts Hstep. destruct Hstep as [i X o k ts w x w' Hi Hx | t ts w Ht]; simpl in *.
  - destruct (Forall_lookup_1 _ _ _ _ Hts Hi) as (K & HK & Ho & Hk).
    pose proof (exec_op_change env K o w x w' Hd HK Ho Hx) as Hc.
    destruct (exec_op_honest env K o w x w' Hd HK Ho Hx) as (Hd' & Ha & Hl).
    split; [done|]. apply Forall_insert.
    + eapply Forall_impl; [exact Hts|]. intros q (K' & HK' & Hq). exists K'.
      split; [|done]. intros f Hf. by eapply holds_kept, HK'.
    + eexists. split; [exact Hl | by apply Hk].
  - split; [done|]. apply Forall_app. split; [done|]. constructor; [|done]. exists (λ _, False).
    split; [done|]. by eapply outbox_writer_honest.
Qed.

(** An event of the kind and the execution that an obligation of the record asks for. *)
Definition obligation_met (d : Db) (r : LifecycleOutboxRecord) (o : ProvenanceObligation) : Prop :=
  ∃ e, e ∈ db_events d ∧ po_event_id o = Some (ev_event_id e) ∧ ev_kind e = po_event_kind o ∧
    ev_execution_id e = Some (ob_execution_id r).

Lemma satisfied_met d r : obligations_satisfied r = true → backed (holds d) r →
  ∀ o, o ∈ obligations_for_record r → obligation_met d r o.
Proof.
  intros Hs Hb o Ho. assert (∃ id, po_event_id o = Some id) as [id Hid].
  { unfold obligations_satisfied, obligations_for_record in *. destruct (ob_provenance_obligations r) as [|o1 l].
    - apply list_elem_of_singleton in Ho as ->. cbn. destruct (ob_provenance_event_id r); [by eexists | done].
    - rewrite forallb_forall in Hs. rewrite list_elem_of_In in Ho. specialize (Hs o Ho). unfold is_satisfied in Hs.
      destruct (po_event_id o); [by eexists | done]. }
  destruct (Hb o id Ho Hid) as (e & He & <- & Hk & Hx). by exists e.
Qed.

(** C9: start from a database whose records are stored under their ids and name stored
    events of the right kind and execution only, with those marked reconciled satisfied or
    resolved by an operator (an empty outbox is one). Then in every interleaving of the
    handlers, the reconciler, the background pass, the operator's decisions and the
    endpoints that record them, under any faults, for each provenance obligation of a
    record marked reconciled (for the intended kind, when a record lists none) the store
    holds the event the obligation names, of the kind asked for and of the record's
    execution; or the record carries the mark of an operator's decision. *)
Theorem reconciled_obligations_met app `{!HonestBackend (app_cap app)} env w p :
  honest_db (w_db w) → pool_reach (outbox_writer app) env (mkPool [] w) p →
  ∀ id row, db_outbox (w_db (p_world p)) !! id = Some row →
  ob_status (row_record row) = LO_Reconciled →
  (∀ o, o ∈ obligations_for_record (row_record row) → obligation_met (w_db (p_world p)) (row_record row) o) ∨
  smap_contains_key "operator_resolved" (ob_metadata (row_record row)) = true.
Proof.
  intros Hd Hr. assert (honest_db (w_db (p_world p))) as [_ Hh Hb _].
  { assert (∀ p0, pool_reach (outbox_writer app) env p0 p → honest_db (w_db (p_world p0)) →
      Forall (honest_thread (w_db (p_world p0))) (p_threads p0) → honest_db (w_db (p_world p))) as H.
    { intros p0 Hr0. induction Hr0 as [p0|p0 p1 p' Hstep _ IH]; [done|].
      intros Hd0 Ht0. destruct (honest_step _ _ _ _ Hd0 Ht0 Hstep). by apply IH. }
    apply (H _ Hr); [done | constructor]. }
  intros id row Hrow%records_lookup Hs. destruct (Hh _ _ Hrow Hs) as [Hsat|]; [left | by right].
  apply satisfied_met; [done | by eapply Hb].
Qed.

(** ** Reconciliation terminates and accounts for what it scanned *)

Definition balanced (r : LifecycleReconciliationReport) : Prop :=
  rp_scanned r = rp_already_reconciled r + rp_repaired_missing_provenance r
    + rp_needs_operator_review r + rp_retryable_failures r + rp_claim_conflicts r.

(** The records scanned but not yet accounted for. *)
Definition behind (n : nat) (r : LifecycleReconciliationReport) : Prop :=
  rp_scanned r = rp_already_reconciled r + rp_repaired_missing_provenance r
    + rp_needs_operator_review r + rp_retryable_failures r + rp_claim_conflicts r + n.

Lemma record_failure_returns lease err n report :
  behind (S n) report → returns (behind n) (record_failure lease err report).
Proof.
  intros Hb. unfold record_failure. destruct report as [s a rep nr f rt c t].
  apply returns_bind. eapply returns_mono, returns_top. intros [[]|] _; unfold behind in *; simpl in *; lia.
Qed.

Lemma reconcile_claim_returns ttl budget c n report :
  behind (S n) report → returns (behind n) (reconcile_claim ttl budget c report).
Proof.
  intros Hb. unfold reconcile_claim. apply returns_bind. eapply returns_mono, returns_top.
  intros r _. destruct report as [s a rep nr f rt cc t].
  destruct r as [[[]|err]|]; try (by apply record_failure_returns);
    unfold behind in *; simpl in *; lia.
Qed.

Lemma reconcile_claims_returns ttl budget cs : ∀ report,
  behind (length cs) report → returns balanced (reconcile_claims ttl budget cs report).
Proof.
  induction cs as [|c cs IH]; intros report Hb; simpl.
  { unfold balanced, behind in *. simpl in Hb. lia. }
  apply returns_bind. eapply returns_mono; [|by apply (reconcile_claim_returns _ _ _ (length cs))].
  intros r Hr. by apply IH.
Qed.

Definition finished (r : result (option LifecycleReconciliationReport) StoreError) : Prop :=
  match r with Ok (Some report) => balanced report | Ok None => False | Err _ => True end.

Lemma reconcile_loop_returns fuel owner ttl budget : ∀ remaining seen report,
  remaining ≤ fuel → balanced report →
  returns finished (reconcile_loop fuel owner ttl budget remaining seen report).
Proof.
  induction fuel as [|fuel IH]; intros [|remaining] seen report Hle Hb; simpl; try done; [lia|].
  intros [claims|]; [|done]. destruct (split_fresh seen claims) as [fresh seen'].
  destruct fresh as [|c fresh]; [done|]. destruct report as [s a rep nr f rt cc t].
  apply returns_bind. eapply returns_mono; [|apply reconcile_claims_returns].
  - intros report Hr. destruct (_ <? _); [done|]. apply IH; [|done].
    change (S remaining - S (length fresh) ≤ fuel). lia.
  - unfold balanced, behind in *. simpl in Hb. simpl. lia.
Qed.

(** C12: reconciliation always ends, within as many rounds as records asked for,
    and its report accounts for every scanned record exactly once: already
    reconciled, repaired, handed to an operator, to be retried, or lost to another
    worker. *)
Theorem reconciliation_terminates env w budget limit owner ttl :
  match (run env (reconcile_lifecycle_outbox_with_lease budget limit owner ttl) w).1 with
  | Ok (Some report) =>
      rp_scanned report = rp_already_reconciled report + rp_repaired_missing_provenance report
        + rp_needs_operator_review report + rp_retryable_failures report + rp_claim_conflicts report
  | Ok None => False
  | Err _ => True
  end.
Proof.
  pose proof (returns_run finished (reconcile_lifecycle_outbox_with_lease budget limit owner ttl) env w) as H.
  unfold finished, balanced in H. apply H. by apply reconcile_loop_returns.
Qed.

(** ** Reconciliation never touches the lifecycle *)

#[export] Hint Extern 0 (quiet_prog (call _)) => apply quiet_call; exact I : quiet.

Lemma timeout_quiet {A} n (p : prog A) : quiet_prog p → quiet_prog (timeout n p).
Proof.
  revert n. induction p as [a|X o k IH]; intros [|n]; simpl; try done.
  intros [Ho Hk]. split; [done|]. intros x. by apply IH.
Qed.
Lemma update_claimed_with_quiet lease clear f : quiet_prog (update_claimed_with lease clear f).
Proof. unfold update_claimed_with. solve_quiet_prog. Qed.
#[export] Hint Resolve update_claimed_with_quiet : quiet.
Lemma needs_review_quiet {T} lease reason (k : prog (result T StoreError)) :
  quiet_prog k → quiet_prog (needs_review lease reason k).
Proof. intros Hk. unfold needs_review, mark_needs_operator_review_claimed. solve_quiet_prog; done. Qed.
Lemma required_parent_edge_quiet r e o id : quiet_prog (required_parent_edge r e o id).
Proof. unfold required_parent_edge. solve_quiet_prog. Qed.
#[export] Hint Resolve required_parent_edge_quiet : quiet.
Lemma ensure_required_parent_edge_quiet c e o id ttl :
  quiet_prog (ensure_required_parent_edge c e o id ttl).
Proof. unfold ensure_required_parent_edge, renew_or_fence. solve_quiet_prog. Qed.
#[export] Hint Resolve ensure_required_parent_edge_quiet : quiet.
Lemma reconcile_obligation_quiet c e k ttl o : quiet_prog (reconcile_obligation c e k ttl o).
Proof.
  unfold reconcile_obligation, discover_matching_event, renew_or_fence,
    mark_provenance_obligation_written_claimed.
  solve_quiet_prog; by apply needs_review_quiet.
Qed.
Lemma reconcile_obligations_quiet c e k ttl os : ∀ r d,
  quiet_prog (reconcile_obligations c e k ttl r d os).
Proof.
  induction os as [|o os IH]; intros r d; simpl; [done|].
  apply quiet_bind; [apply reconcile_obligation_quiet|]. intros [[]|]; auto; exact I.
Qed.
Lemma reconcile_record_quiet c ttl : quiet_prog (reconcile_record c ttl).
Proof.
  unfold reconcile_record, reconcile_contract, mark_reconciled_claimed. pose proof reconcile_obligations_quiet.
  solve_quiet_prog; auto using needs_review_quiet; by apply needs_review_quiet.
Qed.
Lemma reconcile_claims_quiet ttl budget cs : ∀ report,
  quiet_prog (reconcile_claims ttl budget cs report).
Proof.
  induction cs as [|c cs IH]; intros report; simpl; [done|]. apply quiet_bind; [|intros; apply IH].
  unfold reconcile_claim, record_failure, record_reconciliation_failure.
  apply quiet_bind; [apply timeout_quiet, reconcile_record_quiet|]. intros r. solve_quiet_prog.
Qed.
Lemma reconcile_loop_quiet fuel owner ttl budget : ∀ remaining seen report,
  quiet_prog (reconcile_loop fuel owner ttl budget remaining seen report).
Proof.
  induction fuel as [|fuel IH]; intros [|remaining] seen report; simpl; try done.
  split; [done|]. intros [claims|]; [|exact I]. destruct (split_fresh seen claims) as [fresh seen'].
  destruct fresh as [|c fresh]; [exact I|]. destruct report.
  apply quiet_bind; [apply reconcile_claims_quiet|]. intros report. case_match; [exact I | apply IH].
Qed.

(** whatever it finds and whatever fails, a reconciliation run changes no
    execution and no rollback contract, asks no adapter to execute anything, and
    only adds to the provenance. *)
Theorem reconciliation_leaves_lifecycle_alone env w budget limit owner ttl :
  let w' := (run env (reconcile_lifecycle_outbox_with_lease budget limit owner ttl) w).2 in
  db_executions (w_db w') = db_executions (w_db w) ∧
  db_contracts (w_db w') = db_contracts (w_db w) ∧
  (∀ id, calls id (w_adapter_log w') = calls id (w_adapter_log w)) ∧
  (∀ e, e ∈ db_events (w_db w) → e ∈ db_events (w_db w')).
Proof.
  intros w'. assert (quiet_world w w') as [[Hev He Hc] (l & Hl & Hn)]
    by apply quiet_run, reconcile_loop_quiet.
  split_and!; [done | done | | apply Hev].
  intros id. rewrite Hl, calls_app, (calls_none _ l) by done. lia.
Qed.
