(* ===== verification/Chain.v ===== *)
(** * Hash chains (crates/ferrum-store/src/sqlite/audit_log.rs and ledger.rs)

    The audit log and the ledger link every entry to the content hash of the one
    before; [verify_chain] walks the links.  Appending to the audit log is modelled
    with the handlers (file Lifecycle). *)

From stdpp Require Import pretty.
From S2P Require Import Prelude Json Proto Transitions CapService Store Adapter Effects.
From S2P Require Import Validation Provenance CapBackend Lifecycle.

(** ** The audit log *)

Section audit.
Context (ext : Ext).

(** The body of the loop of [SqliteAuditLogRepo::verify_chain], and the loop. *)
Definition check_audit_entry (prior : option string) (stored : string) (entry : AuditLogEntry)
  : result unit StoreError :=
  let id := pretty (al_id entry) in
  let recomputed := compute_content_hash ext entry in
  if negb (String.eqb stored recomputed) then
    Err (SE_InvalidState ("audit log entry " +:+ id +:+ " has tampered content: stored content_hash '"
           +:+ stored +:+ "' != recomputed '" +:+ recomputed +:+ "'"))
  else match prior with
  | Some prior =>
      match al_previous_hash entry with
      | None => Err (SE_InvalidState ("audit log entry " +:+ id
                       +:+ " has content_hash but missing previous_hash"))
      | Some prev =>
          if negb (String.eqb prev prior) then
            Err (SE_InvalidState ("audit log entry " +:+ id +:+ " has broken chain: previous_hash '"
                   +:+ prev +:+ "' != prior content_hash '" +:+ prior +:+ "'"))
          else Ok tt
      end
  | None =>
      match al_previous_hash entry with
      | Some _ => Err (SE_InvalidState ("audit log entry " +:+ id
                         +:+ " is the first hashed entry but has previous_hash"))
      | None => Ok tt
      end
  end.

Fixpoint verify_audit (prior : option string) (entries : list AuditLogEntry) : result unit StoreError :=
  match entries with
  | [] => Ok tt
  | entry :: rest =>
      match al_content_hash entry with
      | None => verify_audit prior rest
      | Some stored =>
          let? _ := check_audit_entry prior stored entry in verify_audit (Some stored) rest
      end
  end.

(** [SqliteAuditLogRepo::verify_chain]. *)
Definition audit_verify_chain (log : list AuditLogEntry) : result unit StoreError := verify_audit None log.

(** ** What a verified audit log is *)

(** The entries that take part in the chain. *)
Definition hashed (log : list AuditLogEntry) : list AuditLogEntry :=
  filter (λ e, is_Some (al_content_hash e)) log.

(** Every hashed entry stores the hash of its own content, and links to the hashed
    entry before it, the first one to [prior]. *)
Definition linked (prior : option string) (l : list AuditLogEntry) : Prop :=
  ∀ i e, l !! i = Some e →
    al_content_hash e = Some (compute_content_hash ext e) ∧
    al_previous_hash e = match i with
                         | O => prior
                         | S j => match l !! j with Some p => al_content_hash p | None => None end
                         end.

Lemma linked_cons prior e l :
  linked prior (e :: l) ↔
  al_content_hash e = Some (compute_content_hash ext e) ∧ al_previous_hash e = prior ∧
  linked (al_content_hash e) l.
Proof.
  split.
  - intros H. destruct (H 0 e eq_refl) as [H1 H2]. split_and!; [done | done|].
    intros i e' Hi. destruct (H (S i) e' Hi) as [H3 H4]. split; [done|]. rewrite H4. by destruct i.
  - intros (H1 & H2 & H3) [|i] e' Hi; simpl in Hi; [by simplify_eq|].
    destruct (H3 i e' Hi) as [H4 H5]. split; [done|]. rewrite H5. by destruct i.
Qed.

Lemma check_audit_entry_ok prior stored e :
  check_audit_entry prior stored e = Ok tt ↔
  stored = compute_content_hash ext e ∧ al_previous_hash e = prior.
Proof.
  unfold check_audit_entry. destruct (String.eqb_spec stored (compute_content_hash ext e)); simpl;
    [|split; [done | by intros [? _]]].
  destruct prior as [p|], (al_previous_hash e) as [q|]; try (split; [done | by intros [_ ?]]).
  destruct (String.eqb_spec q p) as [->|Hne]; simpl; [done|].
  split; [done | intros [_ ?]; congruence].
Qed.

Lemma verify_audit_iff prior log : verify_audit prior log = Ok tt ↔ linked prior (hashed log).
Proof.
  revert prior. induction log as [|e log IH]; intros prior; simpl.
  { split; [by intros _ [] | done]. }
  unfold hashed. rewrite filter_cons. destruct (al_content_hash e) as [h|] eqn:Hh.
  - rewrite decide_True by done. rewrite linked_cons, Hh.
    destruct (check_audit_entry prior h e) as [[]|err] eqn:Hc.
    + apply check_audit_entry_ok in Hc as [-> Hp]. rewrite IH. by intuition.
    + split; [done|]. intros ([= ->] & Hp & _).
      rewrite (proj2 (check_audit_entry_ok _ _ _)) in Hc by done. done.
  - rewrite decide_False; [apply IH|]. by intros [? ?].
Qed.

(** The audit check accepts a log exactly when every entry with a hash stores
    the hash of its own content and the hash of the entry with a hash before it
    (the first of them none); entries without a hash are passed over. *)
Theorem audit_verify_chain_iff log : audit_verify_chain log = Ok tt ↔ linked None (hashed log).
Proof. apply verify_audit_iff. Qed.

(** ** Appending keeps the chain *)

Lemma last_hashed log :
  head (omap al_content_hash (reverse log)) =
  match last (hashed log) with Some e => al_content_hash e | None => None end.
Proof.
  induction log as [|e log IH] using rev_ind; [done|].
  rewrite reverse_snoc. unfold hashed. rewrite filter_app. simpl. rewrite filter_cons.
  destruct (al_content_hash e) as [h|] eqn:Hh.
  - rewrite decide_True by done. by rewrite filter_nil, last_snoc, Hh.
  - rewrite decide_False by by intros [? ?]. rewrite filter_nil, app_nil_r. apply IH.
Qed.

Lemma linked_snoc prior l e :
  linked prior l → al_content_hash e = Some (compute_content_hash ext e) →
  al_previous_hash e = match last l with Some p => al_content_hash p | None => prior end →
  linked prior (l ++ [e]).
Proof.
  intros Hl He Hp i e' Hi. apply lookup_app_Some in Hi as [Hi | [Hge Hi]].
  - destruct (Hl i e' Hi) as [H1 H2]. split; [done|]. rewrite H2. destruct i as [|j]; [done|].
    rewrite lookup_app_l; [done|]. apply lookup_lt_Some in Hi. lia.
  - apply list_lookup_singleton_Some in Hi as [Hi ->]. split; [done|]. rewrite Hp.
    rewrite last_lookup. destruct i as [|j]; [destruct l; [done | simpl in Hge; lia]|].
    assert (length l = S j) as -> by lia. simpl. rewrite lookup_app_l by lia.
    destruct (l !! j) eqn:Hj; [done|]. apply lookup_ge_None in Hj. lia.
Qed.

(** The entry an append stores. *)
Definition stored_entry (id : Z) (entry : AuditLogEntry) (previous : option string) : AuditLogEntry :=
  mkAuditLogEntry id (al_actor_id entry) (al_action entry) (al_resource_type entry)
    (al_resource_id entry) (al_result entry) (al_metadata entry) (al_created_at entry)
    (Some (compute_content_hash ext entry)) previous.

Lemma append_verified log id entry :
  audit_verify_chain log = Ok tt →
  audit_verify_chain (log ++ [stored_entry id entry (head (omap al_content_hash (reverse log)))]) = Ok tt.
Proof.
  unfold audit_verify_chain. rewrite !verify_audit_iff. intros Hl. unfold hashed.
  rewrite filter_app, filter_cons, decide_True by done. rewrite filter_nil.
  apply linked_snoc; [done | done|]. simpl. rewrite last_hashed. done.
Qed.

(** An append that runs alone keeps a verified audit log verified, whatever
    storage faults it meets, and adds exactly one entry when it reports success. *)
Theorem audit_append_verified env entry w :
  audit_verify_chain (db_audit_log (w_db w)) = Ok tt →
  let '(r, w') := run env (audit_append ext entry) w in
  audit_verify_chain (db_audit_log (w_db w')) = Ok tt ∧
  (r = Ok tt → length (db_audit_log (w_db w')) = S (length (db_audit_log (w_db w)))).
Proof.
  intros Hv. unfold audit_append. rewrite run_bind. simpl.
  destruct w as [d caps m l t]; simpl in *.
  destruct (env_fault env t) as [[]|]; [done | done |].
  assert (∀ d', d' = (sql_insert_audit entry (compute_content_hash ext entry)
                        (head (omap al_content_hash (reverse (db_audit_log d)))) d).2 →
    audit_verify_chain (db_audit_log d') = Ok tt ∧
    length (db_audit_log d') = S (length (db_audit_log d))) as Hins.
  { intros d' ->. destruct d as [? ? ? ? ? ? ? ? ? log]; simpl in *.
    split; [by apply append_verified | rewrite length_app; simpl; lia]. }
  simpl. destruct (env_fault env (S t)) as [[]|]; simpl; [done | |].
  - destruct (Hins _ eq_refl). by split.
  - destruct (Hins _ eq_refl) as [H1 H2]. by split.
Qed.
End audit.

(** ** The ledger *)

(** The columns [verify_chain] reads. *)
Record LedgerRow := {
  lr_entry_id : Z;
  lr_content_hash : option string;
  lr_previous_ledger_hash : option string;
}.

(** The body of the loop of [SqliteLedgerRepo::verify_chain], and the loop. *)
Definition check_ledger_row (prior : option string) (row : LedgerRow) : result unit StoreError :=
  let id := pretty (lr_entry_id row) in
  match prior with
  | None =>
      match lr_previous_ledger_hash row with
      | Some _ => Err (SE_InvalidState ("ledger entry " +:+ id
                         +:+ " has previous_ledger_hash but is the genesis entry"))
      | None => Ok tt
      end
  | Some prior_hash =>
      match lr_previous_ledger_hash row with
      | None => Err (SE_InvalidState ("ledger entry " +:+ id +:+ " is missing previous_ledger_hash"))
      | Some prev =>
          if negb (String.eqb prev prior_hash) then
            Err (SE_InvalidState ("ledger entry " +:+ id +:+ " has broken chain: previous_ledger_hash '"
                   +:+ prev +:+ "' != prior content_hash '" +:+ prior_hash +:+ "'"))
          else Ok tt
      end
  end.

Fixpoint verify_ledger (prior : option string) (rows : list LedgerRow) : result unit StoreError :=
  match rows with
  | [] => Ok tt
  | row :: rest =>
      let? _ := check_ledger_row prior row in verify_ledger (lr_content_hash row) rest
  end.

(** [SqliteLedgerRepo::verify_chain]. *)
Definition ledger_verify_chain (rows : list LedgerRow) : result unit StoreError := verify_ledger None rows.

Lemma check_ledger_row_ok prior row :
  check_ledger_row prior row = Ok tt ↔ lr_previous_ledger_hash row = prior.
Proof.
  unfold check_ledger_row. destruct prior as [p|], (lr_previous_ledger_hash row) as [q|]; try done.
  destruct (String.eqb_spec q p) as [->|Hne]; simpl; [done|]. split; [done | congruence].
Qed.

Lemma verify_ledger_iff prior rows :
  verify_ledger prior rows = Ok tt ↔
  ∀ i row, rows !! i = Some row →
    lr_previous_ledger_hash row =
      match i with O => prior | S j => match rows !! j with Some p => lr_content_hash p | None => None end end.
Proof.
  revert prior. induction rows as [|row rows IH]; intros prior; simpl; [split; [by intros _ [] | done]|].
  destruct (check_ledger_row prior row) as [[]|err] eqn:Hc.
  - apply check_ledger_row_ok in Hc. rewrite IH. split.
    + intros H [|i] r Hi; simpl in Hi; [by simplify_eq|]. rewrite (H i r Hi). by destruct i.
    + intros H i r Hi. rewrite (H (S i) r Hi). by destruct i.
  - split; [done|]. intros H. specialize (H 0 row eq_refl).
    apply check_ledger_row_ok in H. congruence.
Qed.

(** the ledger check accepts a ledger exactly when every entry's previous
    hash is the content hash of the entry before it, and the first has none. *)
Theorem ledger_verify_chain_iff rows :
  ledger_verify_chain rows = Ok tt ↔
  ∀ i row, rows !! i = Some row →
    lr_previous_ledger_hash row =
      match i with O => None | S j => match rows !! j with Some p => lr_content_hash p | None => None end end.
Proof. apply verify_ledger_iff. Qed.

(** An entry after the genesis entry without a content hash is accepted, and the
    chain starts anew after it, although the documentation of the check asks every
    such entry for both hashes. *)
Theorem ledger_accepts_gap :
  ledger_verify_chain
    [{| lr_entry_id := 1; lr_content_hash := Some "h1"; lr_previous_ledger_hash := None |};
     {| lr_entry_id := 2; lr_content_hash := None; lr_previous_ledger_hash := Some "h1" |};
     {| lr_entry_id := 3; lr_content_hash := Some "h3"; lr_previous_ledger_hash := None |}] = Ok tt.
Proof. reflexivity. Qed.
