(* ===== verification/Sync.v ===== *)
(** * Ledger synchronisation (crates/ferrum-sync/src/decision.rs, preflight.rs, transport.rs,
      repo.rs; crates/ferrum-store/src/sync_service.rs and the SQLite tables behind it)

    A follower decides from its ledger, its flags and the cached tip of a leader whether it
    may synchronise.  The evaluation issues six queries, one after the other; each sees
    the database of its own moment, or fails.  SQLite integers have 64 bits and a sign,
    sequence numbers have no sign: the conversions are written out. *)

From stdpp Require Import pretty.
From S2P Require Import Prelude Json Proto Admin Behavioral Store Effects Validation CapBackend Lifecycle Chain.

Open Scope Z_scope.

(** ** Tips and decisions *)

Record TipId := mkTip { tip_sequence : Z; tip_hash : string }.
#[export] Instance TipId_eq_dec : EqDecision TipId. Proof. solve_decision. Defined.

Inductive Sync1AbortCode := A0 | A3 | A4 | A5 | A6 | A7 | A8.

Record DecisionInput := mkInput {
  di_follower_tip : option TipId;
  di_leader_tip : option TipId;
  di_hash_path_valid : bool;
}.

Inductive Sync1Decision := SD_Done | SD_Sync | SD_FastForward | SD_Abort (code : Sync1AbortCode).

Definition is_proceed (d : Sync1Decision) : bool := match d with SD_Abort _ => false | _ => true end.
Definition is_abort (d : Sync1Decision) : bool := match d with SD_Abort _ => true | _ => false end.
Definition abort_code (d : Sync1Decision) : option Sync1AbortCode :=
  match d with SD_Abort code => Some code | _ => None end.

(** [decide]. *)
Definition decide_sync (input : DecisionInput) : Sync1Decision :=
  match di_leader_tip input with
  | None => SD_Abort A7
  | Some leader =>
      match di_follower_tip input with
      | None => SD_FastForward
      | Some follower =>
          if tip_sequence leader =? tip_sequence follower then
            if String.eqb (tip_hash leader) (tip_hash follower) then SD_Done else SD_Abort A3
          else if tip_sequence leader <? tip_sequence follower then SD_Abort A4
          else if di_hash_path_valid input then SD_Sync
          else SD_Abort A3
      end
  end.

(** ** Preflight *)

Inductive DiffClass := DC_InSync | DC_FollowerAhead | DC_LeaderAhead | DC_Bootstrap | DC_Divergent | DC_Unknown.

Definition class_is_proceed (c : DiffClass) : bool :=
  match c with DC_InSync | DC_LeaderAhead | DC_Bootstrap => true | _ => false end.
Definition class_is_block (c : DiffClass) : bool :=
  match c with DC_FollowerAhead | DC_Divergent | DC_Unknown => true | _ => false end.

Inductive PreflightCheckCode := PF1 | PF2 | PF3 | PF4 | PF5 | PF6 | PF7 | PF8.
Inductive PreflightResult := PR_Pass | PR_Fail (code : PreflightCheckCode).

Record PreflightInput := {
  pf_chain_integrity_ok : bool;
  pf_no_inflight_commits : bool;
  pf_leader_identity_known : bool;
  pf_leader_authorized : bool;
  pf_ledger_readable : bool;
  pf_no_uncommitted_entries : bool;
  pf_not_currently_syncing : bool;
  pf_leader_tip_available : bool;
}.

(** [run_preflight]: the first check that fails. *)
Definition run_preflight (input : PreflightInput) : PreflightResult :=
  if negb (pf_chain_integrity_ok input) then PR_Fail PF1
  else if negb (pf_no_inflight_commits input) then PR_Fail PF2
  else if negb (pf_leader_identity_known input) then PR_Fail PF3
  else if negb (pf_leader_authorized input) then PR_Fail PF4
  else if negb (pf_ledger_readable input) then PR_Fail PF5
  else if negb (pf_no_uncommitted_entries input) then PR_Fail PF6
  else if negb (pf_not_currently_syncing input) then PR_Fail PF7
  else if negb (pf_leader_tip_available input) then PR_Fail PF8
  else PR_Pass.

(** [classify]. *)
Definition classify (follower_tip leader_tip : option TipId) : DiffClass :=
  match follower_tip, leader_tip with
  | None, None => DC_InSync
  | Some _, None => DC_FollowerAhead
  | None, Some _ => DC_Bootstrap
  | Some follower, Some leader =>
      if bool_decide (follower = leader) then DC_InSync
      else if tip_sequence leader <? tip_sequence follower then DC_FollowerAhead
      else if tip_sequence follower <? tip_sequence leader then DC_LeaderAhead
      else if String.eqb (tip_hash follower) (tip_hash leader) then DC_InSync
      else DC_Divergent
  end.

(** [diff_class_to_decision]. *)
Definition diff_class_to_decision (c : DiffClass) : Sync1Decision :=
  match c with
  | DC_InSync => SD_Done
  | DC_FollowerAhead => SD_Abort A4
  | DC_LeaderAhead => SD_Sync
  | DC_Bootstrap => SD_FastForward
  | DC_Divergent => SD_Abort A3
  | DC_Unknown => SD_Abort A0
  end.

Record LocalPreflightState := {
  ls_follower_tip : option TipId;
  ls_has_inflight_commits : bool;
  ls_has_uncommitted_entries : bool;
  ls_sync_in_progress : bool;
}.

Definition build_preflight_input (local_state : LocalPreflightState)
    (chain_verified leader_identity_known leader_authorized leader_tip_available : bool) : PreflightInput := {|
  pf_chain_integrity_ok := chain_verified;
  pf_no_inflight_commits := negb (ls_has_inflight_commits local_state);
  pf_leader_identity_known := leader_identity_known;
  pf_leader_authorized := leader_authorized;
  pf_ledger_readable := true;
  pf_no_uncommitted_entries := negb (ls_has_uncommitted_entries local_state);
  pf_not_currently_syncing := negb (ls_sync_in_progress local_state);
  pf_leader_tip_available := leader_tip_available;
|}.

(** [PreflightTransportInput::evaluate]: is the leader known, is its tip cached. *)
Definition transport_flags (leader_address : option string) (cached_leader_tip : option TipId) : bool * bool :=
  (match leader_address with Some a => negb (str_trim_is_empty a) | None => false end,
   bool_decide (is_Some cached_leader_tip)).

(** ** The tables *)

Record LedgerEntry := mkLedgerEntry {
  le_entry_id : Z;
  le_event_id : EventId;
  le_intent_id : option IntentId;
  le_execution_id : option ExecutionId;
  le_occurred_at : Timestamp;
  le_content_hash : option string;
  le_previous_ledger_hash : option string;
  le_raw_json : json;
}.

(** A ledger row: its own id, and the entry as the caller wrote it, which is the
    [raw_json] column; the hash columns are those of the entry.  The flags are
    integers, as are the sequence numbers of cached tips. *)
Record SyncDb := mkSyncDb {
  sd_ledger : list (Z * LedgerEntry);
  sd_sync_state : option (Z * Z * Z);
  sd_leader_tips : gmap string (Z * string);
  sd_leader_allowlist : gmap string Z;
}.

Definition ledger_columns (row : Z * LedgerEntry) : LedgerRow := {|
  lr_entry_id := row.1;
  lr_content_hash := le_content_hash row.2;
  lr_previous_ledger_hash := le_previous_ledger_hash row.2;
|}.

(** [AUTOINCREMENT]. *)
Definition next_entry_id (ledger : list (Z * LedgerEntry)) : Z :=
  match last ledger with Some row => row.1 + 1 | None => 1 end.

(** [SqliteLedgerRepo::append]; [event_exists] is the foreign key. *)
Definition ledger_append (event_exists : EventId → bool) (entry : LedgerEntry) (ledger : list (Z * LedgerEntry))
  : result unit StoreError * list (Z * LedgerEntry) :=
  if existsb (λ row, String.eqb (le_event_id row.2) (le_event_id entry)) ledger
  then (Err (unique_violation "ledger_entries.event_id"), ledger)
  else if negb (event_exists (le_event_id entry)) then (Err foreign_key_violation, ledger)
  else (Ok tt, ledger ++ [(next_entry_id ledger, entry)]).

(** [SqliteLedgerRepo::get_by_event], [list_recent] and [get_latest]. *)
Definition ledger_get_by_event (event_id : EventId) (ledger : list (Z * LedgerEntry)) : option LedgerEntry :=
  snd <$> List.find (λ row, String.eqb (le_event_id row.2) event_id) ledger.
Definition ledger_list_recent (limit : nat) (ledger : list (Z * LedgerEntry)) : list LedgerEntry :=
  take limit (reverse ledger).*2.
Definition ledger_get_latest (ledger : list (Z * LedgerEntry)) : option LedgerEntry := head (ledger_list_recent 1 ledger).

(** ** Widths *)

Definition i64_min : Z := - 2 ^ 63.
(** [i64::saturating_sub], [as u64], [as i64] and [u64::try_from]. *)
Definition i64_saturating_sub (a b : Z) : Z := Z.max i64_min (Z.min (2 ^ 63 - 1) (a - b)).
Definition as_u64_wrapping (z : Z) : Z := z mod 2 ^ 64.
Definition as_i64_wrapping (z : Z) : Z := (z + 2 ^ 63) mod 2 ^ 64 - 2 ^ 63.
Definition u64_try_from (z : Z) : option Z := if z <? 0 then None else Some z.

(** [ledger_entry_to_tip]. *)
Definition ledger_entry_to_tip (entry : LedgerEntry) : TipId :=
  mkTip (as_u64_wrapping (i64_saturating_sub (le_entry_id entry) 1)) (default "unknown" (le_content_hash entry)).

(** ** The cache of leader tips *)

(** [LeaderTipCache::read]; the error is the message the database error carries. *)
Definition tip_read (leader_address : string) (d : SyncDb) : result (option TipId) string :=
  match sd_leader_tips d !! leader_address with
  | Some (sequence, hash) =>
      match u64_try_from sequence with
      | Some s => Ok (Some (mkTip s hash))
      | None => Err ("leader_tips.sequence value " +:+ pretty sequence +:+ " is negative or overflows u64")
      end
  | None => Ok None
  end.

Inductive CacheWriteError :=
| CW_StaleTip (cached_sequence incoming_sequence : Z)
| CW_HashConflict (sequence : Z) (cached_hash incoming_hash : string)
| CW_DatabaseError (msg : string).

Definition set_leader_tips t (d : SyncDb) : SyncDb :=
  mkSyncDb (sd_ledger d) (sd_sync_state d) t (sd_leader_allowlist d).

(** [LeaderTipCache::write], one transaction. The column has the constraint
    [CHECK (sequence >= 0)] (migrations/002_add_leader_tips.sql), which [INSERT OR REPLACE]
    does not resolve: the statement fails and the transaction is dropped. *)
Definition tip_write (leader_address : string) (tip : TipId) (d : SyncDb) : result unit CacheWriteError * SyncDb :=
  let sequence := as_i64_wrapping (tip_sequence tip) in
  let store :=
    if sequence <? 0 then (Err (CW_DatabaseError "CHECK constraint failed: sequence >= 0"), d)
    else (Ok tt, set_leader_tips (<[leader_address := (sequence, tip_hash tip)]> (sd_leader_tips d)) d) in
  match sd_leader_tips d !! leader_address with
  | None => store
  | Some (sequence, cached_hash) =>
      match u64_try_from sequence with
      | None => (Err (CW_DatabaseError "leader_tips.sequence value is negative or overflows u64"), d)
      | Some cached_sequence =>
          if tip_sequence tip <? cached_sequence then (Err (CW_StaleTip cached_sequence (tip_sequence tip)), d)
          else if tip_sequence tip =? cached_sequence then
            if negb (String.eqb (tip_hash tip) cached_hash)
            then (Err (CW_HashConflict (tip_sequence tip) cached_hash (tip_hash tip)), d)
            else (Ok tt, d)
          else store
      end
  end.

(** [LeaderTipCache::delete]. *)
Definition tip_delete (leader_address : string) (d : SyncDb) : SyncDb :=
  set_leader_tips (delete leader_address (sd_leader_tips d)) d.

(** [LeaderAllowlist::is_authorized]. *)
Definition leader_is_authorized (leader_address : string) (d : SyncDb) : bool :=
  match sd_leader_allowlist d !! leader_address with Some authorized => negb (authorized =? 0) | None => false end.

(** ** Readiness *)

Inductive SyncRepoError :=
| SR_ChainIntegrityFailed (reason : string)
| SR_LedgerNotReadable (reason : string)
| SR_InternalError (reason : string).

Definition sync_repo_error_text (e : SyncRepoError) : string :=
  match e with
  | SR_ChainIntegrityFailed r => "local chain integrity check failed: " +:+ r
  | SR_LedgerNotReadable r => "local ledger not readable: " +:+ r
  | SR_InternalError r => "internal repo error: " +:+ r
  end.

Inductive SyncReadinessVerdict :=
| SV_PreflightFailed (failed_check : PreflightCheckCode)
| SV_Ready (diff_class : DiffClass) (decision : Sync1Decision) (follower_tip leader_tip : option TipId).

Inductive SyncReadinessError :=
| SX_ChainVerificationFailed (msg : string)
| SX_LocalStateReadFailed (msg : string)
| SX_LeaderAuthCheckFailed (msg : string).

Section readiness.
(** The database as each of the queries sees it, and the queries that fail. *)
Context (view : nat → SyncDb) (fault : nat → option string).

(** A query of the connection pool, and one of the store, by its number. *)
Definition pool_query {A} (n : nat) (f : SyncDb → result A string) : result A string :=
  match fault n with Some msg => Err msg | None => f (view n) end.
Definition store_query {A} (n : nat) (f : SyncDb → result A StoreError) : result A StoreError :=
  match fault n with Some msg => Err (SE_Database msg) | None => f (view n) end.

(** [SqliteSyncPreflightRepo::verify_local_chain_async]. *)
Definition verify_local_chain : result unit SyncRepoError :=
  match store_query 0 (λ d, ledger_verify_chain (ledger_columns <$> sd_ledger d)) with
  | Err e => Err (SR_ChainIntegrityFailed ("verify_ledger_chain failed: " +:+ store_error_text e))
  | Ok _ =>
      match store_query 1 (λ d, Ok (ledger_get_latest (sd_ledger d))) with
      | Err e => Err (SR_LedgerNotReadable ("get_latest failed: " +:+ store_error_text e))
      | Ok _ => Ok tt
      end
  end.

(** [SqliteSyncPreflightRepo::read_local_state_async]. *)
Definition read_local_state : result LocalPreflightState SyncRepoError :=
  match pool_query 2 (λ d, Ok (sd_sync_state d)) with
  | Err e => Err (SR_InternalError ("sync_state query failed: " +:+ e))
  | Ok None => Err (SR_InternalError "sync_state row missing (id=1); cannot read PF2/PF6/PF7 flags")
  | Ok (Some (has_inflight, has_uncommitted, sync_active)) =>
      match store_query 3 (λ d, Ok (ledger_get_latest (sd_ledger d))) with
      | Err e => Err (SR_InternalError ("get_latest for follower tip failed: " +:+ store_error_text e))
      | Ok latest => Ok {|
          ls_follower_tip := ledger_entry_to_tip <$> latest;
          ls_has_inflight_commits := negb (has_inflight =? 0);
          ls_has_uncommitted_entries := negb (has_uncommitted =? 0);
          ls_sync_in_progress := negb (sync_active =? 0) |}
      end
  end.

(** [SqliteSyncPreflightRepo::is_leader_authorized_async]. *)
Definition is_leader_authorized (leader_address : string) : result bool SyncRepoError :=
  match pool_query 4 (λ d, Ok (leader_is_authorized leader_address d)) with
  | Err e => Err (SR_InternalError ("leader_allowlist query failed: " +:+ e))
  | Ok b => Ok b
  end.

(** [verify_local_chain_for_hash_path_valid]. *)
Definition verify_local_chain_for_hash_path_valid : bool := is_ok verify_local_chain.

(** [evaluate_sync_readiness_from_cache]. *)
Definition evaluate_sync_readiness_from_cache (leader_address : option string)
  : result SyncReadinessVerdict SyncReadinessError :=
  let address := default "" leader_address in
  match verify_local_chain with
  | Err e => Err (SX_ChainVerificationFailed (sync_repo_error_text e))
  | Ok _ =>
      match read_local_state with
      | Err e => Err (SX_LocalStateReadFailed (sync_repo_error_text e))
      | Ok local_state =>
          match is_leader_authorized address with
          | Err e => Err (SX_LeaderAuthCheckFailed (sync_repo_error_text e))
          | Ok leader_authorized =>
              match pool_query 5 (tip_read address) with
              | Err e => Err (SX_LeaderAuthCheckFailed ("leader_tip_cache read failed: " +:+ e))
              | Ok cached_leader_tip =>
                  let '(leader_identity_known, leader_tip_available) := transport_flags leader_address cached_leader_tip in
                  match run_preflight (build_preflight_input local_state true leader_identity_known leader_authorized
                                         leader_tip_available) with
                  | PR_Fail failed_check => Ok (SV_PreflightFailed failed_check)
                  | PR_Pass =>
                      let follower_tip := ls_follower_tip local_state in
                      let diff_class := classify follower_tip cached_leader_tip in
                      Ok (SV_Ready diff_class (diff_class_to_decision diff_class) follower_tip cached_leader_tip)
                  end
              end
          end
      end
  end.
End readiness.
