(* ===== verification/SyncSpec.v ===== *)
(** * What readiness and the tip cache promise

    The verdict is exact: it is Ready precisely when every check held at the moment it was
    made, and its decision is that of the decision kernel for a valid hash path.  Cached
    tips only move forward; a tip that does not fit the column is refused. *)

From S2P Require Import Prelude Json Proto Admin Behavioral Store Effects Validation Chain Sync.

Open Scope Z_scope.

(** ** The kernel *)

(** The two decision procedures agree when the leader has a tip. *)
Lemma classify_decides follower leader :
  diff_class_to_decision (classify follower (Some leader)) = decide_sync (mkInput follower (Some leader) true).
Proof.
  destruct follower as [follower|]; [|done]. unfold classify, decide_sync. cbn.
  destruct follower as [fs fh], leader as [ls lh]. cbn.
  case_bool_decide as Heq; [simplify_eq; by rewrite Z.eqb_refl, String.eqb_refl|].
  destruct (Z.eqb_spec ls fs) as [->|Hne].
  - rewrite Z.ltb_irrefl, (String.eqb_sym lh fh). destruct (String.eqb_spec fh lh); [congruence|done].
  - destruct (Z.ltb_spec ls fs); [done|]. destruct (Z.ltb_spec fs ls); [done|lia].
Qed.

(** Without a leader tip they do not: an empty follower is in sync for one and cannot
    reach its leader for the other. *)
Theorem kernels_disagree follower :
  decide_sync (mkInput follower None true) = SD_Abort A7 ∧
  diff_class_to_decision (classify follower None) ≠ SD_Abort A7.
Proof. by destruct follower. Qed.

(** The kernel proceeds only towards a known leader that is level with the follower, or
    strictly ahead with a valid hash path, or that it bootstraps from. *)
Theorem decide_sync_safe input :
  is_proceed (decide_sync input) = true ↔
  ∃ leader, di_leader_tip input = Some leader ∧
    match di_follower_tip input with
    | None => True
    | Some follower =>
        follower = leader ∨ (tip_sequence follower < tip_sequence leader ∧ di_hash_path_valid input = true)
    end.
Proof.
  destruct input as [f [l|] p]; unfold decide_sync; cbn; [|split; [done|by intros (? & ? & _)]].
  destruct f as [[fs fh]|]; [|split; [by exists l|done]]. destruct l as [ls lh]. cbn.
  trans ((fs = ls ∧ fh = lh) ∨ fs < ls ∧ p = true).
  - destruct (Z.eqb_spec ls fs) as [->|Hne].
    + destruct (String.eqb_spec lh fh); cbn; intuition (try done; try lia; congruence).
    + destruct (Z.ltb_spec ls fs); cbn; [intuition (done || lia)|]. destruct p; cbn; intuition (done || lia).
  - split.
    + intros [[-> ->]|?]; (eexists; split; [done|]); [by left|by right].
    + intros (? & [= <-] & [[= -> ->]|?]); auto.
Qed.

(** ** Readiness *)

Section readiness_spec.
Context (view : nat → SyncDb) (fault : nat → option string).

Lemma pool_query_ok {A} n (f : SyncDb → result A string) x :
  pool_query view fault n f = Ok x ↔ fault n = None ∧ f (view n) = Ok x.
Proof. unfold pool_query. destruct (fault n); [split; [done|by intros [? _]]|tauto]. Qed.
Lemma store_query_ok {A} n (f : SyncDb → result A StoreError) x :
  store_query view fault n f = Ok x ↔ fault n = None ∧ f (view n) = Ok x.
Proof. unfold store_query. destruct (fault n); [split; [done|by intros [? _]]|tauto]. Qed.

Lemma verify_local_chain_ok :
  verify_local_chain view fault = Ok tt ↔
  fault 0%nat = None ∧ fault 1%nat = None ∧ ledger_verify_chain (ledger_columns <$> sd_ledger (view 0%nat)) = Ok tt.
Proof.
  unfold verify_local_chain, store_query. destruct (fault 0%nat); [naive_solver|].
  destruct (ledger_verify_chain _) as [[]|]; [|naive_solver]. destruct (fault 1%nat); naive_solver.
Qed.

Lemma read_local_state_ok s :
  read_local_state view fault = Ok s ↔
  fault 2%nat = None ∧ fault 3%nat = None ∧ ∃ a b c, sd_sync_state (view 2%nat) = Some (a, b, c) ∧
    s = {| ls_follower_tip := ledger_entry_to_tip <$> ledger_get_latest (sd_ledger (view 3%nat));
           ls_has_inflight_commits := negb (a =? 0); ls_has_uncommitted_entries := negb (b =? 0);
           ls_sync_in_progress := negb (c =? 0) |}.
Proof.
  unfold read_local_state, pool_query, store_query. destruct (fault 2%nat); [naive_solver|].
  destruct (sd_sync_state _) as [[[a b] c]|]; [|naive_solver]. destruct (fault 3%nat); naive_solver.
Qed.

(** What every check saw at its moment. *)
Record synchronisable (address : string) (follower : option TipId) (leader : TipId) : Prop := {
  sy_no_fault : ∀ n, (n < 6)%nat → fault n = None;
  sy_chain : ledger_verify_chain (ledger_columns <$> sd_ledger (view 0%nat)) = Ok tt;
  sy_idle : sd_sync_state (view 2%nat) = Some (0, 0, 0);
  sy_follower : follower = ledger_entry_to_tip <$> ledger_get_latest (sd_ledger (view 3%nat));
  sy_address : str_trim_is_empty address = false;
  sy_allowed : leader_is_authorized address (view 4%nat) = true;
  sy_leader : tip_read address (view 5%nat) = Ok (Some leader);
}.

(** The checks of the preflight, once the queries have answered. *)
Lemma preflight_passes follower a b c known allowed available :
  run_preflight (build_preflight_input {| ls_follower_tip := follower; ls_has_inflight_commits := negb (a =? 0);
    ls_has_uncommitted_entries := negb (b =? 0); ls_sync_in_progress := negb (c =? 0) |} true known allowed available) = PR_Pass ↔
  (a = 0 ∧ b = 0 ∧ c = 0) ∧ known = true ∧ allowed = true ∧ available = true.
Proof.
  unfold run_preflight. cbn. rewrite !negb_involutive.
  destruct (Z.eqb_spec a 0), (Z.eqb_spec b 0), (Z.eqb_spec c 0), known, allowed, available; cbn; intuition done.
Qed.

Lemma readiness_complete address follower leader :
  synchronisable address follower leader →
  evaluate_sync_readiness_from_cache view fault (Some address) =
  Ok (SV_Ready (classify follower (Some leader)) (diff_class_to_decision (classify follower (Some leader))) follower (Some leader)).
Proof.
  intros [Hf Hchain Hidle Hfollower Haddress Hallowed Hleader]. unfold evaluate_sync_readiness_from_cache.
  change (default "" (Some address)) with address.
  rewrite (proj2 verify_local_chain_ok) by (split_and!; auto with lia).
  rewrite (proj2 (read_local_state_ok _)) by (split_and!; [auto with lia..|by exists 0, 0, 0]).
  unfold is_leader_authorized, pool_query. rewrite !Hf by lia. cbn beta iota.
  rewrite Hallowed, Hleader.
  unfold transport_flags. rewrite Haddress. cbn. by rewrite <- Hfollower.
Qed.

(** The verdict is Ready exactly when no query failed and every check held at the
    moment it was made: the local chain verifies, no commit, uncommitted entry or sync is
    in progress, the leader's address is not blank and allowed, and a tip is cached for
    it.  The decision is then the decision kernel's for that tip and the follower's own
    latest entry, with the hash path taken as valid. *)
Theorem readiness_exact leader_address class decision follower leader_tip :
  evaluate_sync_readiness_from_cache view fault leader_address = Ok (SV_Ready class decision follower leader_tip) ↔
  ∃ address leader, leader_address = Some address ∧ leader_tip = Some leader ∧
    synchronisable address follower leader ∧
    class = classify follower leader_tip ∧ decision = decide_sync (mkInput follower leader_tip true).
Proof.
  split.
  - unfold evaluate_sync_readiness_from_cache. destruct (verify_local_chain view fault) as [[]|] eqn:H1; [|done].
    destruct (read_local_state view fault) as [s|] eqn:H2; [|done].
    destruct (is_leader_authorized _ _ _) as [allowed|] eqn:H3; [|done].
    destruct (pool_query _ _ 5 _) as [cached|] eqn:H4; [|done]. unfold transport_flags.
    apply verify_local_chain_ok in H1 as (Hf0 & Hf1 & Hchain).
    apply read_local_state_ok in H2 as (Hf2 & Hf3 & a & b & c & Hstate & ->). apply pool_query_ok in H4 as [Hf5 Htip].
    unfold is_leader_authorized, pool_query in H3. destruct (fault 4%nat) eqn:Hf4; [done|]. simplify_eq.
    destruct (run_preflight _) eqn:Hpf; [|done]. apply preflight_passes in Hpf as ((-> & -> & ->) & Hk & Ha & Hs).
    destruct leader_address as [address|]; [|done]. cbn in *. intros [= <- <- <- <-].
    apply bool_decide_eq_true in Hs as [leader ->]. apply negb_true_iff in Hk. exists address, leader.
    rewrite <- classify_decides. split_and!; [done..| |done|done]. split; [|done..].
    intros n Hn. by do 6 (destruct n as [|n]; [done|]); lia.
  - intros (address & leader & -> & -> & Hs & -> & ->). rewrite <- classify_decides. by apply readiness_complete.
Qed.
End readiness_spec.

(** ** The cache of leader tips *)

Lemma as_i64_small z : 0 ≤ z < 2 ^ 63 → as_i64_wrapping z = z.
Proof. intros Hz. unfold as_i64_wrapping. rewrite Z.mod_small; lia. Qed.
Lemma as_i64_large z : 2 ^ 63 ≤ z < 2 ^ 64 → as_i64_wrapping z = z - 2 ^ 64.
Proof.
  intros Hz. unfold as_i64_wrapping. replace (z + 2 ^ 63) with (z - 2 ^ 63 + 1 * 2 ^ 64) by lia.
  rewrite Z_mod_plus_full, Z.mod_small; lia.
Qed.

(** A write to the cache, or the removal of another leader. *)
Inductive cache_use := CU_write (address : string) (tip : TipId) | CU_delete (address : string).

Definition use_cache (d : SyncDb) (u : cache_use) : SyncDb :=
  match u with
  | CU_write address tip => (tip_write address tip d).2
  | CU_delete address => tip_delete address d
  end.

(** Tips are unsigned 64-bit numbers; [address] is not removed. *)
Definition fits (address : string) (u : cache_use) : Prop :=
  match u with
  | CU_write _ tip => 0 ≤ tip_sequence tip < 2 ^ 64
  | CU_delete other => other ≠ address
  end.

(** The same tip or a strictly later one. *)
Definition tip_advances (t t' : TipId) : Prop := t = t' ∨ tip_sequence t < tip_sequence t'.
#[export] Instance tip_advances_preorder : PreOrder tip_advances.
Proof. split; [by left|]. intros t1 t2 t3 [->|?] [->|?]; unfold tip_advances; auto. right. lia. Qed.

Lemma tip_write_other address other tip d :
  address ≠ other → sd_leader_tips (tip_write other tip d).2 !! address = sd_leader_tips d !! address.
Proof.
  intros Hne. unfold tip_write. destruct (sd_leader_tips d !! other) as [[s h]|] eqn:Ho;
    repeat case_match; cbn; rewrite ?lookup_insert_ne by done; done.
Qed.

Lemma tip_read_lookup address d d' :
  sd_leader_tips d' !! address = sd_leader_tips d !! address → tip_read address d' = tip_read address d.
Proof. unfold tip_read. by intros ->. Qed.

(** The rows of the table: the constraint of the column and its width. *)
Definition column_range (d : SyncDb) : Prop :=
  ∀ address s h, sd_leader_tips d !! address = Some (s, h) → 0 ≤ s < 2 ^ 63.

Lemma tip_read_row address d : column_range d →
  tip_read address d = Ok (match sd_leader_tips d !! address with Some (s, h) => Some (mkTip s h) | None => None end).
Proof.
  intros Hd. unfold tip_read. destruct (sd_leader_tips d !! address) as [[s h]|] eqn:Ha; [|done].
  apply Hd in Ha. unfold u64_try_from. by destruct (Z.ltb_spec s 0); [lia|].
Qed.

(** What a write does, on a table within its constraints. *)
Lemma tip_write_cases address tip d : column_range d → 0 ≤ tip_sequence tip < 2 ^ 64 →
  let '(r, d') := tip_write address tip d in
  (r = Ok tt ∧ tip_sequence tip < 2 ^ 63 ∧ sd_leader_tips d' !! address = Some (tip_sequence tip, tip_hash tip) ∧
     column_range d' ∧ ∀ t, tip_read address d = Ok (Some t) → tip_advances t tip) ∨
  (d' = d ∧ ∃ e, r = Err e ∧ (2 ^ 63 ≤ tip_sequence tip → ∃ msg, e = CW_DatabaseError msg) ∧
     (tip_sequence tip < 2 ^ 63 → ∃ t, tip_read address d = Ok (Some t) ∧ ~ tip_advances t tip)).
Proof.
  intros Hd Ht. rewrite tip_read_row by done. unfold tip_write.
  assert (∀ P : Prop, (tip_sequence tip < 2 ^ 63 → P) →
    let store := if as_i64_wrapping (tip_sequence tip) <? 0
      then (Err (CW_DatabaseError "CHECK constraint failed: sequence >= 0"), d)
      else (Ok tt, set_leader_tips (<[address := (as_i64_wrapping (tip_sequence tip), tip_hash tip)]> (sd_leader_tips d)) d) in
    (store.1 = Ok tt ∧ tip_sequence tip < 2 ^ 63 ∧
       sd_leader_tips store.2 !! address = Some (tip_sequence tip, tip_hash tip) ∧ column_range store.2 ∧ P) ∨
    (store.2 = d ∧ ∃ msg, store.1 = Err (CW_DatabaseError msg) ∧ 2 ^ 63 ≤ tip_sequence tip)) as Hstore.
  { intros P HP. destruct (Z.lt_ge_cases (tip_sequence tip) (2 ^ 63)) as [Hs|Hs].
    - left. rewrite as_i64_small by lia. destruct (Z.ltb_spec (tip_sequence tip) 0); [lia|]. cbn.
      rewrite lookup_insert_eq. split_and!; [done..| |auto]. intros a s h. cbn. rewrite lookup_insert_Some.
      intros [[_ [= <- <-]]|[_ Ha]]; [lia | by eapply Hd].
    - right. rewrite as_i64_large by lia. destruct (Z.ltb_spec (tip_sequence tip - 2 ^ 64) 0); [|lia]. eauto. }
  cbn zeta in Hstore |- *. revert Hstore. set (store := if _ <? 0 then _ else _). intros Hstore.
  destruct (sd_leader_tips d !! address) as [[s h]|] eqn:Ha.
  2: { destruct (Hstore True) as [(? & ? & ? & ? & _)|(? & msg & ? & ?)]; [done|..]; destruct store as [r d']; cbn in *;
       [left; by split_and! | right; split; [done|]; eexists; split_and!; [done | by eexists | lia]]. }
  pose proof (Hd _ _ _ Ha) as Hs. unfold u64_try_from. destruct (Z.ltb_spec s 0); [lia|].
  destruct (Z.ltb_spec (tip_sequence tip) s) as [Hlt|Hge].
  { right. split; [done|]. eexists. split_and!; [done | lia|]. intros _. exists (mkTip s h). split; [done|].
    intros [Heq|Hx]; [rewrite <- Heq in Hlt|]; cbn in *; lia. }
  destruct (Z.eqb_spec (tip_sequence tip) s) as [<-|Hne].
  - destruct (String.eqb_spec (tip_hash tip) h) as [<-|Hh]; cbn [negb].
    + left. split_and!; [done | lia | done | done|]. intros t [= <-]. left. by destruct tip.
    + right. split; [done|]. eexists. split_and!; [done | lia|]. intros _. eexists. split; [done|].
      intros [Heq|Hx]; [by rewrite <- Heq in Hh | cbn in Hx; lia].
  - destruct (Hstore (∀ t, Ok (E := string) (Some (mkTip s h)) = Ok (Some t) → tip_advances t tip))
      as [(? & ? & ? & ? & ?)|(? & msg & ? & ?)]; [intros _ t [= <-]; right; cbn; lia|..]; destruct store as [r d']; cbn in *;
       [left; by split_and! | right; split; [done|]; eexists; split_and!; [done | by eexists | lia]].
Qed.

Lemma use_cache_stays address u d t : column_range d → fits address u → tip_read address d = Ok (Some t) →
  column_range (use_cache d u) ∧ ∃ t', tip_read address (use_cache d u) = Ok (Some t') ∧ tip_advances t t'.
Proof.
  intros Hd Hu Hr. destruct u as [other tip|other]; cbn in Hu |- *.
  - pose proof (tip_write_cases other tip d Hd Hu) as H. pose proof (tip_write_other address other tip d) as Ho.
    destruct (tip_write other tip d) as [r d']. cbn in Ho |- *.
    destruct H as [(_ & _ & Hl & Hc & Ha)|[-> _]]; [|split; [done|]; by exists t].
    split; [done|]. destruct (decide (address = other)) as [<-|Hne].
    + exists tip. rewrite tip_read_row, Hl by done. split; [by destruct tip | by apply Ha].
    + exists t. split; [|done]. by rewrite (tip_read_lookup _ d) by auto.
  - split.
    + intros a s h. cbn. intros [_ Ha]%lookup_delete_Some. by eapply Hd.
    + exists t. split; [|done]. rewrite (tip_read_lookup _ d); [done|]. cbn. by rewrite lookup_delete_ne.
Qed.

Lemma cache_stays address us d t : column_range d → Forall (fits address) us → tip_read address d = Ok (Some t) →
  ∃ t', tip_read address (foldl use_cache d us) = Ok (Some t') ∧ tip_advances t t'.
Proof.
  intros Hd Hus. revert d t Hd. induction Hus as [|u us Hu _ IH]; intros d t Hd Hr; cbn [foldl]; [by exists t|].
  destruct (use_cache_stays address u d t Hd Hu Hr) as (Hd1 & t1 & Hr1 & H1).
  destruct (IH _ _ Hd1 Hr1) as (t2 & Hr2 & H2). exists t2. split; [done|by etrans].
Qed.

(** C40: on a table within its constraints, a tip is accepted exactly if its number fits
    the signed column (below 2^63) and it is the cached tip again or one of a strictly
    higher number; a refused tip leaves the cache as it was, and one from 2^63 on is refused
    with a database error. An accepted tip is read back, and under any further writes and
    removals of other leaders the cached tip stays as it is or is replaced by one of a
    strictly higher number: no tip is ever replaced by another of the same number. *)
Theorem leader_tip_cache_guarded address tip d us :
  column_range d → 0 ≤ tip_sequence tip < 2 ^ 64 → Forall (fits address) us →
  let '(r, d') := tip_write address tip d in
  (r = Ok tt ↔ tip_sequence tip < 2 ^ 63 ∧ ∀ t, tip_read address d = Ok (Some t) → tip_advances t tip) ∧
  (r ≠ Ok tt → d' = d) ∧ (2 ^ 63 ≤ tip_sequence tip → ∃ msg, r = Err (CW_DatabaseError msg)) ∧
  (r = Ok tt → tip_read address d' = Ok (Some tip) ∧
     ∃ t, tip_read address (foldl use_cache d' us) = Ok (Some t) ∧ tip_advances tip t).
Proof.
  intros Hd Htip Hus. pose proof (tip_write_cases address tip d Hd Htip) as H.
  destruct (tip_write address tip d) as [r d']. destruct H as [(-> & Hs & Hl & Hc & Ha)|(-> & e & -> & Hbig & Hsmall)].
  - split_and!; [done | done | lia|]. intros _.
    assert (tip_read address d' = Ok (Some tip)) as Hr by (rewrite tip_read_row, Hl by done; by destruct tip).
    split; [done | by apply cache_stays].
  - split_and!; [|done| |done].
    + split; [done|]. intros [Hs Ha]. destruct (Hsmall Hs) as (t & Ht & Hn). by destruct (Hn (Ha t Ht)).
    + intros Hs. destruct (Hbig Hs) as [msg ->]. by exists msg.
Qed.

(** ** Examples *)

Definition idle_db : SyncDb :=
  mkSyncDb [(1, mkLedgerEntry 1 "e1" None None 0 (Some "h1") None JNull)] (Some (0, 0, 0))
    {["leader" := (5, "h5")]} {["leader" := 1]}.

Lemma readiness_exact_witness :
  evaluate_sync_readiness_from_cache (λ _, idle_db) (λ _, None) (Some "leader") =
    Ok (SV_Ready DC_LeaderAhead SD_Sync (Some (mkTip 0 "h1")) (Some (mkTip 5 "h5"))).
Proof.
  apply readiness_exact. exists "leader", (mkTip 5 "h5"). split_and!; [done..| |vm_compute; reflexivity|vm_compute; reflexivity].
  by split.
Defined.

Lemma leader_tip_cache_guarded_witness :
  tip_read "leader" (tip_write "leader" (mkTip 7 "h7") idle_db).2 = Ok (Some (mkTip 7 "h7")) ∧
  ∃ msg, (tip_write "leader" (mkTip (2 ^ 63) "h8") idle_db).1 = Err (CW_DatabaseError msg).
Proof.
  assert (column_range idle_db) as Hc.
  { intros address s h. unfold idle_db, sd_leader_tips. intros [<- [= <- <-]]%lookup_singleton_Some. lia. }
  assert (Forall (fits "leader") [CU_delete "other"; CU_write "leader" (mkTip 9 "h9")]) as Hus.
  { constructor; [by intros [=]|]. constructor; [split; [discriminate|reflexivity]|constructor]. }
  split.
  - apply (leader_tip_cache_guarded "leader" (mkTip 7 "h7") idle_db _ Hc ltac:(cbn; lia) Hus). reflexivity.
  - apply (leader_tip_cache_guarded "leader" (mkTip (2 ^ 63) "h8") idle_db _ Hc ltac:(cbn; lia) Hus). cbn; lia.
Defined.

(** An entry appended without an id of its own makes the follower look ahead of every
    leader: the tip is read from the entry as the caller wrote it, whose id 0 becomes
    2^64 - 1, and not from the row. *)
Definition unnumbered : LedgerEntry := mkLedgerEntry 0 "e1" None None 0 (Some "h1") None JNull.
Theorem unnumbered_entry_blocks_sync :
  let ledger := (ledger_append (λ _, true) unnumbered []).2 in
  ledger = [(1, unnumbered)] ∧
  evaluate_sync_readiness_from_cache
    (λ _, mkSyncDb ledger (Some (0, 0, 0)) {["leader" := (5, "h5")]} {["leader" := 1]}) (λ _, None) (Some "leader") =
  Ok (SV_Ready DC_FollowerAhead (SD_Abort A4) (Some (mkTip (2 ^ 64 - 1) "h1")) (Some (mkTip 5 "h5"))).
Proof. split; vm_compute; reflexivity. Qed.
