(* ===== verification/AuditApi.v ===== *)
(** * The audit endpoints (crates/ferrum-gateway/src/audit.rs; compute_and_cache_root of
    crates/ferrum-store/src/sqlite/audit_merkle_root.rs; canonical_checkpoint_hash of
    crates/ferrum-proto/src/audit_log.rs)

    Listing and exporting the audit log, checking its chain, the Merkle roots of hourly
    windows and their signed checkpoints.  A handler that panics answers [None]. *)

From stdpp Require Import pretty.
From Stdlib Require Import Ascii.
From S2P Require Import Prelude Json Proto Admin Behavioral AuthState Merkle Store Effects Firewall.
From S2P Require Import Validation Lifecycle Quarantine Policies Auth Principals Chain.

(** [BadRequest] and [PayloadTooLarge] as status codes. *)
Definition CREATED := 201%Z.
Definition PAYLOAD_TOO_LARGE := 413%Z.

(** A program that may panic. *)
Abbreviation handler A := (prog (option (result A ApiProblem))).
Notation "x <-! p ;; k" := (bind p (λ r, match r with Some x => k | None => Ret None end))
  (at level 100, p at next level, right associativity) : prog_scope.

Section audit_api.
Context (lib : CryptoLib) (hashes : HashLib) (app : App).

(** ** Answers *)

Definition answer {T} (v : T) : handler T := Ret (Some (Ok v)).
Definition refused {T} (p : ApiProblem) : handler T := Ret (Some (Err (sanitized_problem app p))).
Definition failed {T} (message : string) : handler T := refused (Problem INTERNAL_SERVER_ERROR EC_Internal message).

(** The name of a variant of [AuditAction] or [AuditResourceType]. *)
Definition variant_name (names : list (string * string)) (s : string) : string :=
  match List.find (λ p, String.eqb p.1 s) names with Some p => p.2 | None => s end.

(** [AuditLogEntry] in the order of its declaration. *)
Definition entry_fields (e : AuditLogEntry) : JsonMap :=
  [("id", JInt (al_id e)); ("actor_id", JStr (al_actor_id e));
   ("action", JStr (variant_name audit_actions (al_action e)));
   ("resource_type", JStr (variant_name audit_resource_types (al_resource_type e)));
   ("resource_id", JStr (al_resource_id e)); ("result", JStr (al_result e))]
  ++ opt_field "metadata" (al_metadata e)
  ++ [("created_at", time_json lib (al_created_at e))]
  ++ opt_field "content_hash" (JStr <$> al_content_hash e)
  ++ opt_field "previous_hash" (JStr <$> al_previous_hash e).
(** A [serde_json::Value] sorts its keys. *)
Definition sorted_object (fields : JsonMap) : json := JObj (foldl (λ m kv, btree_insert kv.1 kv.2 m) [] fields).

Definition root_json (r : AuditMerkleRoot) : json :=
  JObj [("computed_at", time_json lib (mr_computed_at r)); ("entry_count", JInt (mr_entry_count r));
        ("root", JStr (mr_root r)); ("window_start", time_json lib (mr_window_start r))].
Definition checkpoint_json (c : AuditCheckpoint) : json :=
  JObj [("entry_count", JInt (cp_entry_count c)); ("merkle_root", JStr (cp_merkle_root c));
        ("public_key", JStr (cp_public_key c)); ("signature", JStr (cp_signature c));
        ("signed_at", time_json lib (cp_signed_at c)); ("signer_id", JStr (cp_signer_id c));
        ("signer_key_fingerprint", JStr (cp_signer_key_fingerprint c));
        ("window_start", time_json lib (cp_window_start c))].

(** A page of a listing; the total is not computed. *)
Definition page_json (items : list json) (next_cursor : option string) : json :=
  sanitize_json app (JObj ([("items", JArr items)] ++ opt_field "next_cursor" (JStr <$> next_cursor)
                           ++ [("total", JInt 0)])).

(** ** The log *)

(** [ListAuditLogsQuery]. *)
Record ListAuditLogsQuery := {
  lal_action : option string;
  lal_resource_type : option string;
  lal_resource_id : option string;
  lal_cursor : option string;
  lal_limit : option nat;
  lal_since : option Timestamp;
  lal_until : option Timestamp;
}.

(** Values that name no action or type are dropped. *)
Definition audit_filter (action resource_type resource_id : option string) (since until : option Timestamp)
  : AuditFilter :=
  {| af_action := action ≫= parse_name audit_actions;
     af_resource_type := resource_type ≫= parse_name audit_resource_types;
     af_resource_id := resource_id; af_since := since; af_until := until |}.

Definition list_audit_logs (params : ListAuditLogsQuery) : handler json :=
  r <- call (op_read (RO_audit_list
         (audit_filter (lal_action params) (lal_resource_type params) (lal_resource_id params)
            (lal_since params) (lal_until params))
         (lal_cursor params ≫= parse_i64) (default 50 (lal_limit params) `min` 200))) ;;
  match r with
  | Ok (items, next_cursor) => answer (page_json ((λ e, sorted_object (entry_fields e)) <$> items) next_cursor)
  | Err _ => failed "failed to list audit logs"
  end.

(** [verify_audit_chain]: the counts are not filled in. *)
Definition chain_json (error : option string) : json :=
  sanitize_json app
    (JObj (opt_field "error" (JStr <$> error)
           ++ [("hashed_entries", JInt 0); ("total_entries", JInt 0); ("valid", JBool (bool_decide (error = None)))])).
Definition verify_audit_chain : handler json :=
  r <- call (op_read RO_audit_log) ;;
  answer (chain_json match r with
                     | Err e => Some (store_error_text e)
                     | Ok log => match audit_verify_chain (app_ext app) log with
                                 | Ok _ => None
                                 | Err e => Some (store_error_text e)
                                 end
                     end).

(** ** Merkle roots *)

Definition hour : Z := seconds 3600.
(** No minutes, seconds or nanoseconds. *)
Definition hour_aligned (t : Timestamp) : bool := (t mod hour =? 0)%Z.
Definition misaligned : ApiProblem :=
  Problem BAD_REQUEST EC_BadRequest "window_start must be aligned to the hour".

(** [SqliteAuditMerkleRootRepo::compute_and_cache_root]. *)
Definition compute_and_cache_root (window_start : Timestamp) : prog (option (result AuditMerkleRoot StoreError)) :=
  cached <- call (op_admin (AO_audit (AT_get_root window_start))) ;;
  match cached with
  | Err e => Ret (Some (Err e))
  | Ok (Some root) => Ret (Some (Ok root))
  | Ok None =>
      r <- call (op_read (RO_window_hashes window_start (window_start + hour)%Z)) ;;
      match r with
      | Err e => Ret (Some (Err e))
      | Ok rows =>
          match compute_merkle_root hashes rows with
          | None => Ret None
          | Some root =>
              computed_at <- call op_now ;;
              let computed := mkMerkleRoot window_start root (Z.of_nat (length rows)) computed_at in
              r <- call (op_admin (AO_audit (AT_insert_root computed))) ;;
              match r with
              | Err e => Ret (Some (Err e))
              | Ok _ =>
                  r <- call (op_admin (AO_audit (AT_get_root window_start))) ;;
                  Ret (Some match r with Err e => Err e | Ok stored => Ok (default computed stored) end)
              end
          end
      end
  end.

Definition verify_audit_merkle_root (window_start : Timestamp) : handler json :=
  if negb (hour_aligned window_start) then refused misaligned
  else
    r <-! compute_and_cache_root window_start ;;
    answer (sanitize_json app
      match r with
      | Ok root =>
          JObj [("entry_count", JInt (mr_entry_count root)); ("root", JStr (mr_root root)); ("valid", JBool true);
                ("window_start", time_json lib (mr_window_start root))]
      | Err e =>
          JObj [("entry_count", JInt 0); ("error", JStr (store_error_text e)); ("root", JStr ""); ("valid", JBool false);
                ("window_start", time_json lib window_start)]
      end).

(** The limit of [ListMerkleRootsQuery] and [ListCheckpointsQuery] defaults to 50. *)
Definition list_limit (limit : option nat) : nat := default 50 limit `min` 200.

Definition list_audit_merkle_roots (cursor : option string) (limit : option nat) : handler json :=
  r <- call (op_admin (AO_audit (AT_list_roots (ext_rfc3339 (app_ext app)) cursor (list_limit limit)))) ;;
  match r with
  | Ok (items, next_cursor) => answer (page_json (root_json <$> items) next_cursor)
  | Err _ => failed "failed to list merkle roots"
  end.

(** ** Checkpoints *)

(** A quotation mark. *)
Definition quote : string := String (ascii_of_nat 34) "".

(** [canonical_checkpoint_hash]. *)
Definition canonical_checkpoint (window_start : Timestamp) (merkle_root : string) (entry_count : Z)
    (signed_at : Timestamp) : string :=
  let q := quote in
  "{" +:+ q +:+ "entry_count" +:+ q +:+ ":" +:+ pretty entry_count +:+ ","
  +:+ q +:+ "merkle_root" +:+ q +:+ ":" +:+ q +:+ merkle_root +:+ q +:+ ","
  +:+ q +:+ "signed_at" +:+ q +:+ ":" +:+ q +:+ ext_rfc3339 (app_ext app) signed_at +:+ q +:+ ","
  +:+ q +:+ "window_start" +:+ q +:+ ":" +:+ q +:+ ext_rfc3339 (app_ext app) window_start +:+ q +:+ "}".
Definition canonical_checkpoint_hash (window_start : Timestamp) (merkle_root : string) (entry_count : Z)
    (signed_at : Timestamp) : string :=
  hl_sha256 hashes (canonical_checkpoint window_start merkle_root entry_count signed_at).

(** Why a signature is not accepted, in the order of the tests. *)
Inductive SignatureFault :=
| SF_SignatureEncoding | SF_SignatureLength | SF_KeyEncoding | SF_KeyLength | SF_Key | SF_Verification.

Definition check_checkpoint_signature (c : AuditCheckpoint) : result unit SignatureFault :=
  let payload_hash := canonical_checkpoint_hash (cp_window_start c) (cp_merkle_root c) (cp_entry_count c)
                        (cp_signed_at c) in
  let? sig := ok_or (cl_base64_decode lib (cp_signature c)) SF_SignatureEncoding in
  if negb (String.length sig =? 64)%nat then Err SF_SignatureLength
  else
    let? pk := ok_or (cl_base64_decode lib (cp_public_key c)) SF_KeyEncoding in
    if negb (String.length pk =? 32)%nat then Err SF_KeyLength
    else if negb (cl_ed25519_key lib pk) then Err SF_Key
    else if negb (cl_ed25519_verify lib pk payload_hash sig) then Err SF_Verification
    else Ok tt.

(** The messages of [create_checkpoint], and of [verify_checkpoint]. *)
Definition fault_message (f : SignatureFault) : string :=
  match f with
  | SF_SignatureEncoding => "invalid signature encoding"
  | SF_SignatureLength => "invalid signature length"
  | SF_KeyEncoding => "invalid public key encoding"
  | SF_KeyLength => "invalid public key length"
  | SF_Key => "invalid public key"
  | SF_Verification => "signature verification failed"
  end.
Definition stored_fault_message (f : SignatureFault) : string :=
  match f with
  | SF_Verification => fault_message f
  | _ => fault_message f +:+ " in stored checkpoint"
  end.

(** [AuditCheckpointVerifyResponse]. *)
Record CheckpointAnswer := mkCheckpointAnswer {
  ca_window_start : Timestamp;
  ca_error : option string;
  ca_checkpoint : option AuditCheckpoint;
  ca_current : option AuditMerkleRoot;
}.
Definition ca_valid (a : CheckpointAnswer) : bool := bool_decide (ca_error a = None).

Definition checkpoint_answer_json (a : CheckpointAnswer) : json :=
  sanitize_json app
    (JObj (opt_field "checkpoint" (checkpoint_json <$> ca_checkpoint a)
           ++ opt_field "current_entry_count" ((λ r, JInt (mr_entry_count r)) <$> ca_current a)
           ++ opt_field "current_root" ((λ r, JStr (mr_root r)) <$> ca_current a)
           ++ opt_field "error" (JStr <$> ca_error a)
           ++ [("valid", JBool (ca_valid a)); ("window_start", time_json lib (ca_window_start a))])).

(** The root and the number of entries agree. *)
Definition root_matches (computed : AuditMerkleRoot) (c : AuditCheckpoint) : bool :=
  String.eqb (mr_root computed) (cp_merkle_root c) && (mr_entry_count computed =? cp_entry_count c)%Z.

(** [create_checkpoint] up to the rendering of its answer. *)
Definition create_checkpoint_answer (req : CreateCheckpointRequest) : handler CheckpointAnswer :=
  if negb (hour_aligned (cp_window_start req)) then refused misaligned
  else
    r <-! compute_and_cache_root (cp_window_start req) ;;
    match r with
    | Err _ => failed "failed to compute merkle root for checkpoint"
    | Ok computed =>
        if negb (root_matches computed req) then
          refused (Problem BAD_REQUEST EC_BadRequest
            ("merkle root mismatch: expected root=" +:+ mr_root computed +:+ " count=" +:+ pretty (mr_entry_count computed)
             +:+ ", got root=" +:+ cp_merkle_root req +:+ " count=" +:+ pretty (cp_entry_count req)))
        else match check_checkpoint_signature req with
        | Err f => refused (Problem BAD_REQUEST EC_BadRequest (fault_message f))
        | Ok _ =>
            r <- call (op_admin (AO_audit (AT_insert_checkpoint req))) ;;
            match r with
            | Err _ => failed "failed to store checkpoint"
            | Ok _ => answer (mkCheckpointAnswer (cp_window_start req) None (Some req) (Some computed))
            end
        end
    end.

(** The handlers render what was decided. *)
Definition rendered {T} (render : T → json) (p : handler T) : handler json :=
  r <-! p ;; Ret (Some match r with Ok v => Ok (render v) | Err e => Err e end).

Definition create_checkpoint (req : CreateCheckpointRequest) : handler json :=
  rendered checkpoint_answer_json (create_checkpoint_answer req).

Definition list_checkpoints (cursor : option string) (limit : option nat) : handler json :=
  r <- call (op_admin (AO_audit (AT_list_checkpoints (ext_rfc3339 (app_ext app)) cursor (list_limit limit)))) ;;
  match r with
  | Ok (items, next_cursor) => answer (page_json (checkpoint_json <$> items) next_cursor)
  | Err _ => failed "failed to list checkpoints"
  end.

(** [verify_checkpoint]. *)
Definition verify_checkpoint_answer (window_start : Timestamp) : handler CheckpointAnswer :=
  if negb (hour_aligned window_start) then refused misaligned
  else
    r <- call (op_admin (AO_audit (AT_get_checkpoint window_start))) ;;
    match r with
    | Err _ => failed "failed to retrieve checkpoint"
    | Ok None => answer (mkCheckpointAnswer window_start (Some "no checkpoint found for window") None None)
    | Ok (Some checkpoint) =>
        r <-! compute_and_cache_root window_start ;;
        match r with
        | Err _ => answer (mkCheckpointAnswer window_start (Some "failed to compute merkle root") (Some checkpoint) None)
        | Ok computed =>
            let found error := answer (mkCheckpointAnswer window_start error (Some checkpoint) (Some computed)) in
            if negb (root_matches computed checkpoint) then
              found (Some ("merkle root mismatch: checkpoint root=" +:+ cp_merkle_root checkpoint +:+ " count="
                +:+ pretty (cp_entry_count checkpoint) +:+ ", current root=" +:+ mr_root computed +:+ " count="
                +:+ pretty (mr_entry_count computed)))
            else match check_checkpoint_signature checkpoint with
            | Err f => found (Some (stored_fault_message f))
            | Ok _ => found None
            end
        end
    end.
Definition verify_checkpoint (window_start : Timestamp) : handler json :=
  rendered checkpoint_answer_json (verify_checkpoint_answer window_start).

(** ** Export *)

Definition EXPORT_MAX_ROWS : Z := 10000.
Definition EXPORT_PAGE_SIZE : nat := 500.

(** [ExportAuditLogsQuery]. *)
Record ExportAuditLogsQuery := {
  eal_action : option string;
  eal_resource_type : option string;
  eal_resource_id : option string;
  eal_since : option Timestamp;
  eal_until : option Timestamp;
  eal_format : option string;
}.

(** The characters that make a field be quoted, and the field with its quotation marks
    doubled. *)
Definition csv_special (c : Ascii.ascii) : bool :=
  existsb (λ n, Ascii.eqb c (ascii_of_nat n)) [44; 34; 10; 13].
Fixpoint any_char (test : Ascii.ascii → bool) (s : string) : bool :=
  match s with EmptyString => false | String c s => test c || any_char test s end.
Fixpoint double_quotes (s : string) : string :=
  match s with
  | EmptyString => ""
  | String c s => if Ascii.eqb c (ascii_of_nat 34) then String c (String c (double_quotes s))
                  else String c (double_quotes s)
  end.
Definition csv_escape_field (s : string) : string :=
  if any_char csv_special s then quote +:+ double_quotes s +:+ quote else s.

Definition newline : string := String (ascii_of_nat 10) "".
Definition csv_header : string :=
  "id,actor_id,action,resource_type,resource_id,result,metadata,created_at,content_hash,previous_hash" +:+ newline.

(** The fields of a row, and the row. *)
Definition csv_fields (e : AuditLogEntry) : list string :=
  [pretty (al_id e); al_actor_id e; al_action e; al_resource_type e; al_resource_id e; al_result e;
   default "" (ext_json_to_string (app_ext app) <$> al_metadata e); ext_rfc3339 (app_ext app) (al_created_at e);
   default "" (al_content_hash e); default "" (al_previous_hash e)].
Fixpoint join_comma (fields : list string) : string :=
  match fields with
  | [] => ""
  | [f] => f
  | f :: rest => f +:+ "," +:+ join_comma rest
  end.
Definition csv_row (e : AuditLogEntry) : string :=
  match csv_fields e with
  | id :: fields => join_comma (id :: (csv_escape_field <$> fields)) +:+ newline
  | [] => newline
  end.

Fixpoint concat_strings (l : list string) : string :=
  match l with [] => "" | s :: l => s +:+ concat_strings l end.

(** The pages are collected until there is no cursor or too many rows were read; [None]
    when the fuel is used up. *)
Fixpoint export_pages (fuel : nat) (f : AuditFilter) (cursor : option string) (acc : list AuditLogEntry)
  : prog (option (result (list AuditLogEntry) ApiProblem)) :=
  match fuel with
  | O => Ret None
  | S fuel =>
      r <- call (op_read (RO_audit_list f (cursor ≫= parse_i64) EXPORT_PAGE_SIZE)) ;;
      match r with
      | Err _ => Ret (Some (Err (Problem INTERNAL_SERVER_ERROR EC_Internal "failed to export audit logs")))
      | Ok (items, next_cursor) =>
          let acc := acc ++ items in
          if (EXPORT_MAX_ROWS <? Z.of_nat (length acc))%Z then
            Ret (Some (Err (Problem PAYLOAD_TOO_LARGE EC_PayloadTooLarge
              ("export exceeds maximum of " +:+ pretty EXPORT_MAX_ROWS +:+ " rows; narrow filters or use pagination"))))
          else match next_cursor with
          | None => Ret (Some (Ok acc))
          | Some _ => export_pages fuel f next_cursor acc
          end
      end
  end.
(** Every page but the last is full: 21 of them exceed the limit. *)
Definition EXPORT_ROUNDS : nat := 21.

(** The body in the format asked for; entries are not sanitized. *)
Definition export_body (format : string) (entries : list AuditLogEntry) : option string :=
  let text e := ext_json_to_string (app_ext app) (JObj (entry_fields e)) in
  if String.eqb format "ndjson" then Some (concat_strings ((λ e, text e +:+ newline) <$> entries))
  else if String.eqb format "json" then
    Some (ext_json_to_string (app_ext app) (JArr ((λ e, JObj (entry_fields e)) <$> entries)))
  else if String.eqb format "csv" then Some (csv_header +:+ concat_strings (csv_row <$> entries))
  else None.

Definition export_audit_logs (params : ExportAuditLogsQuery) : handler string :=
  let f := audit_filter (eal_action params) (eal_resource_type params) (eal_resource_id params)
             (eal_since params) (eal_until params) in
  let format := str_to_lowercase (default "ndjson" (eal_format params)) in
  r <-! export_pages EXPORT_ROUNDS f None [] ;;
  match r with
  | Err p => refused p
  | Ok entries =>
      match export_body format entries with
      | Some body => answer body
      | None => refused (Problem BAD_REQUEST EC_BadRequest
                  ("invalid export format '" +:+ format +:+ "': expected ndjson, json, or csv"))
      end
  end.
End audit_api.
