(* ===== verification/Bundle.v ===== *)
(** * Audit bundles and the WORM sink (crates/ferrum-audit-bundle/src/lib.rs,
    list_since_id of crates/ferrum-store/src/sqlite/audit_log.rs,
    crates/ferrum-gateway/src/worm_sink.rs)

    A bundle is the lines of some audit entries with a manifest; it is verified without
    the database.  The sink archives the log bundle by bundle.  The content hash and the
    Merkle root of the bundle crate are copies of the store's.  Parsing of entries and
    the text of a manifest are library functions; file contents, read errors and answers
    of the object store come from outside. *)

From stdpp Require Import pretty.
From Stdlib Require Import Ascii.
From S2P Require Import Prelude Json Proto Admin Behavioral AuthState Merkle Store Effects Firewall.
From S2P Require Import Validation Lifecycle Quarantine Policies Auth Principals Chain AuditApi.

(** ** Data *)

Inductive AuditBundleError := ABE_Serialize (e : string) | ABE_Io (e : string) | ABE_Invalid (e : string).

Definition bundle_error_text (e : AuditBundleError) : string :=
  match e with
  | ABE_Serialize e => "serialization error: " +:+ e
  | ABE_Io e => "I/O error: " +:+ e
  | ABE_Invalid e => "invalid bundle: " +:+ e
  end.

Record AuditBundleManifest := mkManifest {
  bm_version : Z;
  bm_exported_at : Timestamp;
  bm_first_hash : string;
  bm_last_hash : string;
  bm_merkle_root : string;
  bm_entry_count : nat;
  bm_previous_boundary_hash : option string;
}.

Record AuditBundle := mkBundle { ab_body : string; ab_manifest : AuditBundleManifest }.

Record BundleLib := {
  bl_parse_entry : string → result AuditLogEntry string;
  bl_manifest_text : AuditBundleManifest → string;
  bl_parse_manifest : string → result AuditBundleManifest string;
}.

(** ** Lines *)

(** The pieces between line feeds, without an empty last one. *)
Fixpoint raw_lines (s : string) : list string :=
  match s with
  | EmptyString => []
  | String c s' =>
      if Ascii.eqb c (ascii_of_nat 10) then "" :: raw_lines s'
      else match raw_lines s' with
           | [] => [String c ""]
           | l :: rest => String c l :: rest
           end
  end.

(** [body.lines()], each line trimmed, and empty ones left out; the carriage return that
    [lines] removes is white space. *)
Definition trimmed_lines (body : string) : list string :=
  filter (λ l, l ≠ "") (str_trim <$> raw_lines body).

(** ** The configuration of the sink *)

Inductive ObjectLockMode := LM_Governance | LM_Compliance.

Record WormSinkConfig := {
  ws_bucket : string;
  ws_prefix : string;
  ws_object_lock_mode : ObjectLockMode;
  ws_retention_days : Z;
  ws_legal_hold : bool;
  ws_export_interval_secs : Z;
  ws_batch_limit : nat;
  ws_live : bool;
  ws_endpoint_url : option string;
  ws_region : string;
  ws_access_key_id : option string;
  ws_secret_access_key : option string;
}.

Definition default_sink_config : WormSinkConfig :=
  {| ws_bucket := ""; ws_prefix := "audit-worm"; ws_object_lock_mode := LM_Governance; ws_retention_days := 30;
     ws_legal_hold := false; ws_export_interval_secs := 300; ws_batch_limit := 1000; ws_live := false;
     ws_endpoint_url := None; ws_region := "us-east-1"; ws_access_key_id := None; ws_secret_access_key := None |}.

(** The characters of the pattern of bucket names. *)
Definition bucket_edge (c : ascii) : bool :=
  let n := N_of_ascii c in ((97 <=? n) && (n <=? 122) || (48 <=? n) && (n <=? 57))%N.
Definition bucket_char (c : ascii) : bool := bucket_edge c || Ascii.eqb c "."%char || Ascii.eqb c "-"%char.

Fixpoint split_dots (s : string) : list string :=
  match s with
  | EmptyString => [""]
  | String c s' =>
      let parts := split_dots s' in
      if Ascii.eqb c "."%char then "" :: parts
      else match parts with [] => [String c ""] | p :: rest => String c p :: rest end
  end.
(** [part.parse::<u8>().is_ok()] on text without signs. *)
Definition is_u8 (part : string) : bool :=
  negb (str_is_empty part) && match parse_digits 0 part with Some n => (n <=? 255)%Z | None => false end.

Definition is_valid_bucket_name (name : string) : bool :=
  let chars := String.list_ascii_of_string name in
  (3 <=? String.length name)%nat && (String.length name <=? 63)%nat && forallb bucket_char chars
  && match head chars, last chars with Some a, Some b => bucket_edge a && bucket_edge b | _, _ => false end
  && negb (str_contains ".." name) && negb (str_contains ".-" name || str_contains "-." name)
  && negb (forallb is_u8 (split_dots name) && Nat.eqb (length (split_dots name)) 4).

Definition sink_config_validate (c : WormSinkConfig) : result unit string :=
  if str_is_empty (ws_bucket c) then Err "audit_worm_sink bucket must be non-empty"
  else if negb (is_valid_bucket_name (ws_bucket c)) then
    Err ("audit_worm_sink bucket '" +:+ ws_bucket c +:+ "' is invalid")
  else if str_starts_with "/" (ws_prefix c) then Err "audit_worm_sink prefix must not start with '/'"
  else if str_contains ".." (ws_prefix c) then Err "audit_worm_sink prefix must not contain '..'"
  else if (ws_retention_days c <? 1)%Z then Err "audit_worm_sink retention_days must be at least 1"
  else if (ws_export_interval_secs c <? 60)%Z then Err "audit_worm_sink export_interval_secs must be at least 60"
  else if negb ((1 <=? Z.of_nat (ws_batch_limit c)) && (Z.of_nat (ws_batch_limit c) <=? 100000))%Z then
    Err ("audit_worm_sink batch_limit must be between 1 and 100000, got " +:+ pretty (ws_batch_limit c))
  else if str_is_empty (ws_region c) then Err "audit_worm_sink region must be non-empty"
  else match ws_endpoint_url c with
  | Some endpoint =>
      if negb (str_starts_with "http://" endpoint) && negb (str_starts_with "https://" endpoint) then
        Err ("audit_worm_sink endpoint_url must start with http:// or https://, got " +:+ endpoint)
      else Ok tt
  | None => Ok tt
  end.

Section bundle.
Context (lib : CryptoLib) (hashes : HashLib) (app : App) (bl : BundleLib).

(** ** Building *)

Fixpoint parse_entries (lines : list string) : result (list AuditLogEntry) AuditBundleError :=
  match lines with
  | [] => Ok []
  | line :: rest =>
      match bl_parse_entry bl line with
      | Err e => Err (ABE_Invalid ("failed to parse audit log entry: " +:+ e))
      | Ok entry => let? entries := parse_entries rest in Ok (entry :: entries)
      end
  end.

(** The content hashes of the entries that have one. *)
Definition content_hashes (entries : list AuditLogEntry) : list string := omap al_content_hash entries.

(** [None] is the panic of the Merkle root on a hash that is not hexadecimal. *)
Definition build_bundle_with_boundary (now : Timestamp) (entries : list AuditLogEntry) (body : string)
    (boundary : option string) : option AuditBundle :=
  root ← compute_merkle_root hashes (content_hashes entries);
  Some (mkBundle body
    (mkManifest 1 now (default "" (head (content_hashes entries))) (default "" (last (content_hashes entries)))
       root (length entries) boundary)).

Definition build_bundle (now : Timestamp) (entries : list AuditLogEntry) (body : string) : option AuditBundle :=
  build_bundle_with_boundary now entries body None.

Definition build_bundle_from_ndjson (now : Timestamp) (body : string) : option (result AuditBundle AuditBundleError) :=
  match parse_entries (trimmed_lines body) with
  | Err e => Some (Err e)
  | Ok entries => Ok <$> build_bundle now entries body
  end.

(** ** A directory *)

Definition AUDIT_JSONL : string := "audit.jsonl".
Definition MANIFEST_JSON : string := "manifest.json".

(** Its path, and what reading each of the two files gives; [None] if there is none. *)
Record BundleDir := mkBundleDir {
  bd_path : string;
  bd_jsonl : option (result string string);
  bd_manifest : option (result string string);
}.

(** [Path::join] with a file name, displayed. *)
Definition joined (path name : string) : string :=
  if str_is_empty path || str_ends_with "/" path then path +:+ name else path +:+ "/" +:+ name.

(** The faults of [export_bundle]: the directory cannot be created, or a file not
    written, and then what reading it gives. *)
Record ExportFaults := mkExportFaults {
  ef_dir : option string;
  ef_jsonl : option (string * option (result string string));
  ef_manifest : option (string * option (result string string));
}.

Definition export_bundle (faults : ExportFaults) (bundle : AuditBundle) (dir : BundleDir)
  : result AuditBundleManifest AuditBundleError * BundleDir :=
  match ef_dir faults with
  | Some e => (Err (ABE_Io e), dir)
  | None =>
      match ef_jsonl faults with
      | Some (e, content) => (Err (ABE_Io e), mkBundleDir (bd_path dir) content (bd_manifest dir))
      | None =>
          let jsonl := Some (Ok (ab_body bundle)) in
          match ef_manifest faults with
          | Some (e, content) => (Err (ABE_Io e), mkBundleDir (bd_path dir) jsonl content)
          | None => (Ok (ab_manifest bundle), mkBundleDir (bd_path dir) jsonl (Some (Ok (bl_manifest_text bl (ab_manifest bundle)))))
          end
      end
  end.

(** ** Verifying *)

Fixpoint parse_distinct (seen : list Z) (lines : list string) : result (list AuditLogEntry) AuditBundleError :=
  match lines with
  | [] => Ok []
  | line :: rest =>
      match bl_parse_entry bl line with
      | Err e => Err (ABE_Invalid ("failed to parse audit log entry in bundle: " +:+ e))
      | Ok entry =>
          if bool_decide (al_id entry ∈ seen) then
            Err (ABE_Invalid ("duplicate audit log entry id: " +:+ pretty (al_id entry)))
          else let? entries := parse_distinct (al_id entry :: seen) rest in Ok (entry :: entries)
      end
  end.

(** The body of the loop over the entries. *)
Definition check_bundle_entry (boundary prior : option string) (stored : string) (entry : AuditLogEntry)
  : result unit AuditBundleError :=
  let name := "audit log entry " +:+ pretty (al_id entry) in
  let recomputed := compute_content_hash (app_ext app) entry in
  if negb (String.eqb stored recomputed) then
    Err (ABE_Invalid (name +:+ " has tampered content: stored content_hash '" +:+ stored +:+ "' != recomputed '"
                      +:+ recomputed +:+ "'"))
  else match prior with
  | Some prior =>
      match al_previous_hash entry with
      | None => Err (ABE_Invalid (name +:+ " has content_hash but missing previous_hash"))
      | Some prev =>
          if String.eqb prev prior then Ok tt
          else Err (ABE_Invalid (name +:+ " has broken chain: previous_hash '" +:+ prev +:+ "' != prior content_hash '"
                                 +:+ prior +:+ "'"))
      end
  | None =>
      match boundary with
      | Some boundary =>
          match al_previous_hash entry with
          | None => Err (ABE_Invalid (name +:+ " is the first hashed entry of a windowed bundle but has no previous_hash; expected boundary '"
                                      +:+ boundary +:+ "'"))
          | Some prev =>
              if String.eqb prev boundary then Ok tt
              else Err (ABE_Invalid (name +:+ " has broken boundary: previous_hash '" +:+ prev +:+ "' != manifest boundary '"
                                     +:+ boundary +:+ "'"))
          end
      | None =>
          match al_previous_hash entry with
          | Some _ => Err (ABE_Invalid (name +:+ " is the first hashed entry but has previous_hash"))
          | None => Ok tt
          end
      end
  end.

Fixpoint check_bundle_entries (boundary prior : option string) (entries : list AuditLogEntry)
  : result unit AuditBundleError :=
  match entries with
  | [] => Ok tt
  | entry :: rest =>
      match al_content_hash entry with
      | None => check_bundle_entries boundary prior rest
      | Some stored =>
          let? _ := check_bundle_entry boundary prior stored entry in check_bundle_entries boundary (Some stored) rest
      end
  end.

(** The comparison with the manifest; [None] is the panic of the Merkle root. *)
Definition check_manifest (m : AuditBundleManifest) (entries : list AuditLogEntry)
  : option (result AuditBundleManifest AuditBundleError) :=
  let first := default "" (head (content_hashes entries)) in
  let last := default "" (last (content_hashes entries)) in
  if negb (String.eqb first (bm_first_hash m)) then
    Some (Err (ABE_Invalid ("first hash mismatch: manifest '" +:+ bm_first_hash m +:+ "' != computed '" +:+ first +:+ "'")))
  else if negb (String.eqb last (bm_last_hash m)) then
    Some (Err (ABE_Invalid ("last hash mismatch: manifest '" +:+ bm_last_hash m +:+ "' != computed '" +:+ last +:+ "'")))
  else
    root ← compute_merkle_root hashes (content_hashes entries);
    Some (if String.eqb root (bm_merkle_root m) then Ok m
          else Err (ABE_Invalid ("merkle root mismatch: manifest '" +:+ bm_merkle_root m +:+ "' != computed '" +:+ root +:+ "'"))).

Definition verify_bundle (dir : BundleDir) : option (result AuditBundleManifest AuditBundleError) :=
  match bd_manifest dir, bd_jsonl dir with
  | None, _ => Some (Err (ABE_Invalid ("bundle manifest not found: " +:+ joined (bd_path dir) MANIFEST_JSON)))
  | Some _, None => Some (Err (ABE_Invalid ("bundle audit log not found: " +:+ joined (bd_path dir) AUDIT_JSONL)))
  | Some (Err e), Some _ => Some (Err (ABE_Invalid ("failed to read manifest: " +:+ e)))
  | Some (Ok text), Some jsonl =>
      match bl_parse_manifest bl text with
      | Err e => Some (Err (ABE_Invalid ("failed to parse manifest: " +:+ e)))
      | Ok m =>
          if negb (bm_version m =? 1)%Z then
            Some (Err (ABE_Invalid ("unsupported bundle version: " +:+ pretty (bm_version m))))
          else match jsonl with
          | Err e => Some (Err (ABE_Io e))
          | Ok body =>
              match parse_distinct [] (trimmed_lines body) with
              | Err e => Some (Err e)
              | Ok entries =>
                  if negb (Nat.eqb (length entries) (bm_entry_count m)) then
                    Some (Err (ABE_Invalid ("entry count mismatch: manifest says " +:+ pretty (bm_entry_count m)
                                            +:+ " but found " +:+ pretty (length entries) +:+ " entries")))
                  else match check_bundle_entries (bm_previous_boundary_hash m) None entries with
                  | Err e => Some (Err e)
                  | Ok _ => check_manifest m entries
                  end
              end
          end
      end
  end.

(** ** The sink *)

(** The line of an entry. *)
Definition entry_text (e : AuditLogEntry) : string := ext_json_to_string (app_ext app) (JObj (entry_fields lib e)).

(** [SqliteAuditLogRepo::list_since_id]; the log is kept in the order of its identifiers. *)
Definition audit_list_since (after_id : Z) (limit : nat) (log : list AuditLogEntry)
  : list AuditLogEntry * option string :=
  let rows := take (S limit) (filter (λ e, (after_id <? al_id e)%Z) log) in
  if Nat.ltb limit (length rows) then
    let entries := take limit rows in (entries, pretty ∘ al_id <$> last entries)
  else (rows, None).

Fixpoint join_lines (lines : list string) : string :=
  match lines with
  | [] => ""
  | [line] => line
  | line :: rest => line +:+ newline +:+ join_lines rest
  end.

(** [trim_end_matches]. *)
Fixpoint trim_end_char (c : ascii) (s : string) : string :=
  match s with
  | EmptyString => EmptyString
  | String a s' => match trim_end_char c s' with
                   | EmptyString => if Ascii.eqb a c then EmptyString else String a EmptyString
                   | t => String a t
                   end
  end.

Definition bundle_key (prefix : string) (first_id last_id : Z) : string :=
  let base := trim_end_char "/"%char prefix in
  let name := "audit-bundle-" +:+ pretty first_id +:+ "-" +:+ pretty last_id in
  if str_is_empty base then name else base +:+ "/" +:+ name.

Inductive WormSinkWorkerError := WE_Store (e : string) | WE_Serialize (e : string) | WE_Bundle (e : string) | WE_Upload (e : string).

(** The worker and its bucket: the cursor, the uploaded objects in order, and the
    metrics. *)
Record Sink := mkSink {
  sk_last_id : Z;
  sk_objects : list (string * string);
  sk_exports : Z;
  sk_failures : Z;
  sk_last_success : Z;
}.

(** What happens to one pass: a store error of the read, and an error of each upload,
    with the object stored or not. *)
Record PassFaults := mkPassFaults {
  pf_store : option string;
  pf_jsonl : option (string * bool);
  pf_manifest : option (string * bool);
}.

Definition upload (fault : option (string * bool)) (key body : string) (objects : list (string * string))
  : result unit WormSinkWorkerError * list (string * string) :=
  match fault with
  | None => (Ok tt, objects ++ [(key, body)])
  | Some (e, stored) => (Err (WE_Upload e), if stored then objects ++ [(key, body)] else objects)
  end.

Definition sink_boundary (entries : list AuditLogEntry) : option string :=
  List.find (λ e, bool_decide (is_Some (al_content_hash e))) entries ≫= al_previous_hash.

Definition run_one_export_pass_inner (config : WormSinkConfig) (faults : PassFaults) (now : Timestamp)
    (log : list AuditLogEntry) (s : Sink) : option (result unit WormSinkWorkerError * Sink) :=
  match pf_store faults with
  | Some e => Some (Err (WE_Store e), s)
  | None =>
      let entries := (audit_list_since (sk_last_id s) (ws_batch_limit config) log).1 in
      match head entries, last entries with
      | Some first, Some final =>
          bundle ← build_bundle_with_boundary now entries (join_lines (entry_text <$> entries)) (sink_boundary entries);
          let base := bundle_key (ws_prefix config) (al_id first) (al_id final) in
          let '(r1, o1) := upload (pf_jsonl faults) (base +:+ "/audit.jsonl") (ab_body bundle) (sk_objects s) in
          Some match r1 with
          | Err e => (Err e, mkSink (sk_last_id s) o1 (sk_exports s) (sk_failures s) (sk_last_success s))
          | Ok _ =>
              let '(r2, o2) := upload (pf_manifest faults) (base +:+ "/manifest.json")
                                 (bl_manifest_text bl (ab_manifest bundle)) o1 in
              match r2 with
              | Err e => (Err e, mkSink (sk_last_id s) o2 (sk_exports s) (sk_failures s) (sk_last_success s))
              | Ok _ => (Ok tt, mkSink (al_id final) o2 (sk_exports s + 1) (sk_failures s) (now / seconds 1))
              end
          end
      | _, _ => Some (Ok tt, s)
      end
  end.

Definition run_one_export_pass (config : WormSinkConfig) (faults : PassFaults) (now : Timestamp)
    (log : list AuditLogEntry) (s : Sink) : option (result unit WormSinkWorkerError * Sink) :=
  '(r, s') ← run_one_export_pass_inner config faults now log s;
  Some (r, if is_ok r then s'
           else mkSink (sk_last_id s') (sk_objects s') (sk_exports s') (sk_failures s' + 1) (sk_last_success s')).
End bundle.
