(* ===== verification/Digest.v ===== *)
(** * The canonical action digest

    An approval is bound to a proposal by the digest of its action.  Two proposals
    have the same digest exactly when they ask for the same action, up to the order
    of the keys in their arguments. *)

From S2P Require Import Prelude Json Proto.

(** ** Equivalence of JSON values is an equivalence *)

#[export] Instance json_equiv_refl : Reflexive json_equiv.
Proof. intros v. constructor. Qed.

#[export] Instance json_equiv_sym : Symmetric json_equiv.
Proof.
  intros v1. induction v1 as [| | | | | l IH | m IH] using json_nested_ind;
    intros v2 Heq; inversion Heq as [| ? l2 Hl | ? m2 Hm]; subst; try constructor.
  - clear Heq. induction Hl as [|x y l l' Hxy Hl' IHl]; [constructor|].
    inversion_clear IH as [| ? ? Hx Hrest]. constructor; auto.
  - intros k. specialize (Hm k). destruct (smap_get k m) as [x|] eqn:Hk;
      inversion Hm as [? y Hxy Hx Hy | Hx Hy]; subst; constructor.
    rewrite Forall_forall in IH. apply (IH (k, x)); [by apply smap_get_In | done].
Qed.

#[export] Instance json_equiv_trans : Transitive json_equiv.
Proof.
  intros v1. induction v1 as [| | | | | l IH | m IH] using json_nested_ind;
    intros v2 v3 H12 H23; inversion H12 as [| ? l2 Hl | ? m2 Hm]; subst; try done;
    inversion H23 as [| ? l3 Hl3 | ? m3 Hm3]; subst; try done; constructor.
  - clear H12 H23. revert l3 Hl3. induction Hl as [|x y l l' Hxy Hl' IHl]; intros l3 Hl3;
      inversion Hl3 as [| ? z ? l4 Hyz Hrest]; subst; [constructor|].
    inversion_clear IH as [| ? ? Hx Hr]. constructor; [by apply Hx with y | by apply IHl].
  - intros k. specialize (Hm k). specialize (Hm3 k).
    destruct (smap_get k m) as [x|] eqn:Hk; inversion Hm as [? y Hxy Hx Hy | Hx Hy]; subst;
      rewrite <- ?Hy, <- ?Hx in Hm3; inversion Hm3 as [? z Hyz Hy' Hz | Hz]; subst; constructor.
    rewrite Forall_forall in IH. apply (IH (k, x)) with y; [by apply smap_get_In | done | done].
Qed.

Lemma normalize_eq_iff v1 v2 :
  normalize_json_value v1 = normalize_json_value v2 ↔ json_equiv v1 v2.
Proof.
  split; [|apply normalize_equiv_eq]. intros Heq.
  trans (normalize_json_value v1); [symmetry; apply normalize_equiv|].
  rewrite Heq. apply normalize_equiv.
Qed.

(** ** The digest *)

(** The same action: everything the digest covers. *)
Record same_action (p q : ActionProposal) : Prop := {
  sa_intent : pr_intent_id p = pr_intent_id q;
  sa_proposal : pr_proposal_id p = pr_proposal_id q;
  sa_tool : pr_tool_name p = pr_tool_name q;
  sa_server : pr_server_name p = pr_server_name q;
  sa_arguments : json_equiv (pr_raw_arguments p) (pr_raw_arguments q);
  sa_effect : pr_expected_effect p = pr_expected_effect q;
  sa_risk : pr_estimated_risk p = pr_estimated_risk q;
  sa_class : pr_requested_rollback_class p = pr_requested_rollback_class q;
}.

(** What is printed and hashed. *)
Definition digest_value (p : ActionProposal) : json := normalize_json_value (JObj (digest_input p)).

(** The fields in the order of the keys. *)
Definition digest_fields (p : ActionProposal) : JsonMap :=
    [("estimated_risk", JStr (risk_tier_name (pr_estimated_risk p)));
     ("expected_effect", JStr (pr_expected_effect p));
     ("intent_id", JStr (pr_intent_id p));
     ("proposal_id", JStr (pr_proposal_id p));
     ("raw_arguments", normalize_json_value (pr_raw_arguments p));
     ("requested_rollback_class", JStr (rollback_class_name (pr_requested_rollback_class p)));
     ("server_name", JStr (pr_server_name p));
     ("tool_name", JStr (pr_tool_name p))].

Lemma digest_input_eq p : digest_input p = digest_fields p.
Proof. unfold digest_input. cbn -[normalize_json_value]. reflexivity. Qed.

Lemma json_equiv_obj m1 m2 :
  json_equiv (JObj m1) (JObj m2) ↔ ∀ k, option_Forall2 json_equiv (smap_get k m1) (smap_get k m2).
Proof.
  split; [|by constructor]. intros Heq. inversion Heq as [| |? ? Hm]; subst; [|done].
  intros k. destruct (smap_get k m2); constructor. reflexivity.
Qed.

Lemma json_equiv_str s1 s2 : json_equiv (JStr s1) (JStr s2) → s1 = s2.
Proof. intros H. by inversion H. Qed.

Lemma risk_tier_name_inj r1 r2 : risk_tier_name r1 = risk_tier_name r2 → r1 = r2.
Proof. by destruct r1, r2. Qed.
Lemma rollback_class_name_inj c1 c2 : rollback_class_name c1 = rollback_class_name c2 → c1 = c2.
Proof. by destruct c1, c2. Qed.

Lemma digest_value_iff p q : digest_value p = digest_value q ↔ same_action p q.
Proof.
  unfold digest_value. rewrite normalize_eq_iff, json_equiv_obj, (digest_input_eq p), (digest_input_eq q). split.
  - intros H.
    assert (∀ k v1 v2, smap_get k (digest_fields p) = Some v1 →
      smap_get k (digest_fields q) = Some v2 → json_equiv v1 v2) as Hk.
    { intros k v1 v2 H1 H2. specialize (H k). rewrite H1, H2 in H. by inversion H. }
    clear H. split;
      [ apply json_equiv_str, (Hk "intent_id") | apply json_equiv_str, (Hk "proposal_id")
      | apply json_equiv_str, (Hk "tool_name") | apply json_equiv_str, (Hk "server_name")
      | | apply json_equiv_str, (Hk "expected_effect")
      | apply risk_tier_name_inj, json_equiv_str, (Hk "estimated_risk")
      | apply rollback_class_name_inj, json_equiv_str, (Hk "requested_rollback_class") ];
      try reflexivity.
    trans (normalize_json_value (pr_raw_arguments p)); [symmetry; apply normalize_equiv|].
    trans (normalize_json_value (pr_raw_arguments q)); [|apply normalize_equiv].
    apply (Hk "raw_arguments"); reflexivity.
  - intros [H1 H2 H3 H4 Hargs H5 H6 H7] k. apply normalize_equiv_eq in Hargs.
    unfold digest_fields. rewrite H1, H2, H3, H4, H5, H6, H7, Hargs.
    match goal with |- option_Forall2 _ ?o _ => destruct o end; constructor. reflexivity.
Qed.

(** When the printer tells the two canonical values apart and the hash has no
    collision between their two texts, two proposals have the same action
    digest exactly when they ask for the same action: same intent, proposal, tool,
    server, expected effect, risk and rollback class, and the same arguments up to
    the order of object keys at every depth.  Title, step, taint, metadata and
    owner play no part. *)
Theorem action_digest_exact (to_string : json → string) (sha256_hex : string → string) p q :
  (to_string (digest_value p) = to_string (digest_value q) → digest_value p = digest_value q) →
  (sha256_hex (to_string (digest_value p)) = sha256_hex (to_string (digest_value q)) →
     to_string (digest_value p) = to_string (digest_value q)) →
  canonical_action_digest to_string sha256_hex p = canonical_action_digest to_string sha256_hex q ↔
  same_action p q.
Proof.
  intros Hinj Hsha. rewrite <- digest_value_iff. unfold canonical_action_digest.
  change (normalize_json_value (JObj (digest_input ?x))) with (digest_value x). split.
  - intros H. by apply Hinj, Hsha.
  - by intros ->.
Qed.

(** Two proposals of the same action with their arguments in different order. *)
Definition swapped_proposal (args : JsonMap) (title : string) : ActionProposal :=
  {| pr_proposal_id := "proposal"; pr_intent_id := "intent"; pr_step_index := 0; pr_title := title;
     pr_tool_name := "file_write"; pr_server_name := "fs"; pr_raw_arguments := JObj args;
     pr_expected_effect := "write"; pr_estimated_risk := RT_Low;
     pr_requested_rollback_class := R1SnapshotRecoverable; pr_taint_inputs := [];
     pr_metadata := []; pr_created_at := 0; pr_owner_actor_id := None |}.

Lemma action_digest_exact_witness :
  same_action (swapped_proposal [("path", JStr "/tmp/a"); ("content", JStr "x")] "one")
    (swapped_proposal [("content", JStr "x"); ("path", JStr "/tmp/a")] "two").
Proof.
  apply (action_digest_exact (λ v, match as_object v with
                                   | Some m => match smap_get "tool_name" m with Some (JStr s) => s | _ => "" end
                                   | None => "" end) (λ s, s)); [| |vm_compute; reflexivity].
  - intros _. vm_compute. reflexivity.
  - intros H. exact H.
Defined.
