(* ===== verification/AuthorizeSpec.v ===== *)
(** * What a successful authorization has checked

    The checks of authorize read the database and change nothing; the transaction
    that follows is the only write before the provenance event.  A successful call
    has therefore checked everything against one state of the database.

    The last part is about programs by the operations they issue. *)

From S2P Require Import Prelude Json Proto Transitions Pdp CapService Store Adapter Effects CapBackend Validation.
From S2P Require Import RollbackSvc Provenance Lifecycle Handlers StoreFacts Evolution Discipline Logic HandlerSafety.

(** ** Programs that only read *)

(** [p], run alone on the database [d], leaves it alone, and an [Ok] result
    satisfies [Φ]. *)
Definition reads {T E} (env : Env) (d : Db) (p : prog (result T E)) (Φ : T → Prop) : Prop :=
  ∀ w, w_db w = d →
    w_db (run env p w).2 = d ∧ match (run env p w).1 with Ok x => Φ x | Err _ => True end.

(** The same for a program without a result type. *)
Definition observes {T} (env : Env) (d : Db) (p : prog T) (Φ : T → Prop) : Prop :=
  ∀ w, w_db w = d → w_db (run env p w).2 = d ∧ Φ (run env p w).1.

Section reads.
Context (env : Env) (d : Db).

Lemma reads_try {T T' E} (p : prog (result T E)) (k : T → prog (result T' E)) Φ Ψ :
  reads env d p Φ → (∀ x, Φ x → reads env d (k x) Ψ) →
  reads env d (bind p (λ r, match r with Ok x => k x | Err e => Ret (Err e) end)) Ψ.
Proof.
  intros Hp Hk w Hw. rewrite run_bind. destruct (Hp w Hw) as [H1 H2].
  destruct (run env p w) as [[x|e] w']; simpl in *; [by apply Hk | done].
Qed.

Lemma reads_observe {T T' E} (p : prog T) (k : T → prog (result T' E)) Φ Ψ :
  observes env d p Φ → (∀ x, Φ x → reads env d (k x) Ψ) → reads env d (bind p k) Ψ.
Proof.
  intros Hp Hk w Hw. rewrite run_bind. destruct (Hp w Hw) as [H1 H2].
  destruct (run env p w) as [x w']; simpl in *. by apply Hk.
Qed.

Lemma reads_ok {T E} (x : T) (Φ : T → Prop) : Φ x → reads (E := E) env d (Ret (Ok x)) Φ.
Proof. intros H w Hw. by split. Qed.
Lemma reads_err {T E} (e : E) (Φ : T → Prop) : reads env d (Ret (Err e)) Φ.
Proof. intros w Hw. by split. Qed.

Lemma reads_governance_err {T} route e (Φ : T → Prop) : reads env d (governance_err route e) Φ.
Proof. intros [? ? ? ? ?] Hw. by split. Qed.

Lemma reads_require {T} route (r : result T ApiProblem) : reads env d (require route r) (λ x, r = Ok x).
Proof. destruct r; [by apply reads_ok | apply reads_governance_err]. Qed.

Lemma reads_observes {T E} (p : prog (result T E)) Φ :
  reads env d p Φ → observes env d p (λ r, match r with Ok x => Φ x | Err _ => True end).
Proof. done. Qed.

(** A pure operation. *)
Definition pure_op {X} (o : op X) : Prop :=
  match o with op_now | op_uuid | op_fs | op_metric _ | op_cap_get _ => True | _ => False end.

Lemma observes_pure {X} (o : op X) : pure_op o → observes env d (call o) (λ _, True).
Proof. intros Ho [dd caps m l t] Hw. destruct o; try done; by split. Qed.

Lemma sql_get_run {T} (table : Db → gmap string T) id w :
  w_db (exec_db env (sql_get table id) w).2 = w_db w ∧
  ((exec_db env (sql_get table id) w).1 = Ok (table (w_db w) !! id) ∨
   ∃ msg, (exec_db env (sql_get table id) w).1 = Err (SE_Database msg)).
Proof. destruct w as [dd caps m l t]. simpl. destruct (env_fault env t) as [[]|]; simpl; eauto. Qed.

(** A fetch of a row. *)
Lemma reads_fetch {T} route (o : op (result (option T) StoreError)) (table : Db → gmap string T) id missing :
  (∀ w, exec_op env o w = exec_db env (sql_get table id) w) →
  reads env d (fetch route o missing) (λ x, table d !! id = Some x).
Proof.
  intros Ho w Hw. unfold fetch. rewrite run_bind. simpl. rewrite Ho.
  destruct (sql_get_run table id w) as [Hd Hr]. destruct (exec_db env (sql_get table id) w) as [r w'].
  simpl in *. rewrite Hw in *. destruct Hr as [-> | [msg ->]]; [|by apply reads_governance_err].
  destruct (table d !! id) as [x|]; [by split | by apply reads_governance_err].
Qed.

Lemma reads_fetch_or {T} (o : op (result (option T) StoreError)) (table : Db → gmap string T) id missing :
  (∀ w, exec_op env o w = exec_db env (sql_get table id) w) →
  reads env d (fetch_or o missing) (λ x, table d !! id = Some x).
Proof.
  intros Ho w Hw. unfold fetch_or. rewrite run_bind. simpl. rewrite Ho.
  destruct (sql_get_run table id w) as [Hd Hr]. destruct (exec_db env (sql_get table id) w) as [r w'].
  simpl in *. rewrite Hw in *. destruct Hr as [-> | [msg ->]]; [|by split].
  by destruct (table d !! id).
Qed.
End reads.

(** ** The checks *)

Section checks.
Context (app : App) (env : Env) (d : Db).
Abbreviation ext := (app_ext app).

(** The grant events that speak for the approval. *)
Definition grants_of (b : ApprovalBinding) (a : ApprovalRequest) (grants : list ProvenanceEvent) : Prop :=
  ∀ e, e ∈ grants → e ∈ db_events d ∧ ev_kind e = PK_ApprovalGranted ∧ relevant_event b a e = true.

(** The approval a lease is bound to: granted, unexpired at some reading of the
    clock, for this very action, by an allowed role. *)
Definition approval_backs (b : ApprovalBinding) (proposal_id : ProposalId) : Prop :=
  ∃ a p, db_approvals d !! ab_approval_id b = Some a ∧ ap_state a = AS_Granted ∧
    (∃ t, (env_clock env t ≤ ab_expires_at b)%Z) ∧ (∃ t, (env_clock env t ≤ ap_expires_at a)%Z) ∧
    ab_approved_action_digest b = ap_action_digest a ∧
    db_proposals d !! proposal_id = Some p ∧
    canonical_action_digest (ext_json_to_string ext) (ext_sha256_hex ext) p = ab_approved_action_digest b ∧
    (ab_approver_roles b = [] ∨ ∃ grants, grants_of b a grants ∧ approved_by_allowed_role b a grants = true).

Lemma observes_now : observes env d (call op_now) (λ now, ∃ t, now = env_clock env t).
Proof. intros [dd caps m l t] Hw. split; [done | by exists t]. Qed.

Lemma observes_fs : observes env d (call op_fs) (λ fs, ∃ t, fs = env_fs env t).
Proof. intros [dd caps m l t] Hw. split; [done | by exists t]. Qed.

(** The answer of a query. *)
Lemma observes_query r :
  observes env d (call (op_query r)) (λ x, ∀ evs, x = Ok evs →
    ∀ e, e ∈ evs → e ∈ db_events d ∧ query_matches d r e = true).
Proof.
  intros w Hw. simpl. destruct (exec_db env (query r) w) as [x w'] eqn:Hx.
  apply exec_db_cases in Hx as [_ [[Hd [msg ->]] | [Hd [Hr | [msg ->]]]]]; simpl in *;
    (split; [by rewrite Hd | intros evs Heq; try done]).
  subst x. unfold query in Heq. simplify_eq/=. intros e Hin.
  apply list_elem_of_filter in Hin as [Hm Hin]. unfold by_occurred_at in Hin.
  rewrite sort_desc_perm in Hin. split; [done | by apply Is_true_true].
Qed.

Lemma approval_reads b pid : reads env d (validate_approval_binding_digest ext b pid) (λ _, approval_backs b pid).
Proof.
  eapply reads_try; [by apply (reads_fetch_or env d _ db_approvals) | intros a Ha].
  case_bool_decide as Hg; cbn [negb]; [|apply reads_err].
  eapply reads_observe; [apply observes_now | intros now1 [t1 ->]].
  destruct (ab_expires_at b <? env_clock env t1)%Z eqn:He1; [apply reads_err|].
  eapply reads_observe; [apply observes_now | intros now2 [t2 ->]].
  destruct (ap_expires_at a <? env_clock env t2)%Z eqn:He2; [apply reads_err|].
  apply Z.ltb_ge in He1, He2.
  destruct (String.eqb_spec (ab_approved_action_digest b) (ap_action_digest a)) as [Hd|]; cbn [negb];
    [|apply reads_err].
  eapply reads_try; [by apply (reads_fetch_or env d _ db_proposals) | intros p Hp].
  destruct (String.eqb_spec (canonical_action_digest (ext_json_to_string ext) (ext_sha256_hex ext) p)
    (ab_approved_action_digest b)) as [Hc|]; cbn [negb]; [|apply reads_err].
  assert ((ab_approver_roles b = [] ∨ ∃ grants, grants_of b a grants ∧
             approved_by_allowed_role b a grants = true) → approval_backs b pid) as Hdone.
  { intros H. exists a, p. split_and!; eauto. }
  destruct (ab_approver_roles b) eqn:Hr; [apply reads_ok, Hdone; by left|]. cbn [is_empty].
  eapply reads_observe; [apply observes_query | intros [evs|] Hevs; [|apply reads_err]].
  destruct (approved_by_allowed_role _ _ _) eqn:Hrole; [|apply reads_err].
  apply reads_ok, Hdone. right. eexists. split; [|exact Hrole].
  intros e Hin. apply list_elem_of_filter in Hin as [Hrel Hin].
  destruct (Hevs evs eq_refl e Hin) as [H1 H2]. apply Is_true_true in Hrel.
  unfold query_matches in H2. simpl in H2. destruct_andb.
  repeat match goal with H : bool_decide _ = true |- _ => apply bool_decide_eq_true in H end. done.
Qed.

Lemma map_err_ok {T E E'} (f : E → E') (r : result T E) x : map_err f r = Ok x → r = Ok x.
Proof. destruct r; simpl; congruence. Qed.

(** What the checks of authorize establish about the lease. *)
Definition lease_checked (actor : option AuthActor) (request : AuthorizeExecutionRequest)
    (lease : CapabilityLease) : Prop :=
  (∃ t, enforce_object_owner_guard actor (cl_owner_actor_id lease) (cfg_auth_mode (app_config app))
          (cfg_legacy_object_compat_allow_until (app_config app)) (env_clock env t) = Ok tt) ∧
  aer_proposal_id request = cl_proposal_id lease ∧
  (∃ p, db_proposals d !! aer_proposal_id request = Some p ∧
        validate_capability_proposal_binding lease p = Ok tt) ∧
  (∃ i t, db_intents d !! cl_intent_id lease = Some i ∧
        validate_resource_bindings_subset_of_scope ext (env_fs env t) (cl_resource_bindings lease)
          (in_resource_scope i) = Ok tt) ∧
  (∀ b, cl_approval_binding lease = Some b → approval_backs b (aer_proposal_id request)).

(** The lease [w] holds under [id], in the service's memory or stored: not revoked,
    and unexpired at some reading of the clock. *)
Definition lease_found (id : CapabilityId) (w : World) (lease : CapabilityLease) : Prop :=
  (w_caps w !! id = Some lease ∨ db_capabilities (w_db w) !! id = Some lease) ∧
  cl_status lease ≠ CS_Revoked ∧ ∃ t, (env_clock env t ≤ cl_expires_at lease)%Z.
End checks.

(** A capability service whose [get] reads without writing. *)
Class ReadingBackend (b : CapBackend) : Prop :=
  rb_get env id w :
    w_db (run env (cb_get b id) w).2 = w_db w ∧
    match (run env (cb_get b id) w).1 with Ok lease => lease_found env id w lease | Err _ => True end.

(** The stored lease as the service loads it. *)
Lemma store_lease_run env id w :
  w_db (run env (store_lease id) w).2 = w_db w ∧
  match (run env (store_lease id) w).1 with
  | Ok lease => db_capabilities (w_db w) !! id = Some lease
  | Err _ => True
  end.
Proof.
  unfold store_lease. rewrite run_bind. cbn [run call]. unfold exec_op at 1 2.
  destruct (sql_get_run env db_capabilities id w) as [Hd Hr].
  destruct (exec_db env _ _) as [r w']. cbn [fst snd] in *. cbn [run fst snd].
  destruct Hr as [-> | [msg ->]]; [|done]. by destruct (db_capabilities (w_db w) !! id).
Qed.

(** What follows the load: an expiry check. *)
Lemma expiry_run {E} env (lease : CapabilityLease) (e : E) w :
  w_db (run env (now <- call op_now ;;
                 Ret (if (cl_expires_at lease <? now)%Z then Err e else Ok lease)) w).2 = w_db w ∧
  match (run env (now <- call op_now ;;
                  Ret (if (cl_expires_at lease <? now)%Z then Err e else Ok lease)) w).1 with
  | Ok l => l = lease ∧ ∃ t, (env_clock env t ≤ cl_expires_at lease)%Z
  | Err _ => True
  end.
Proof.
  destruct w as [d caps m l t]. simpl. split; [done|].
  destruct (cl_expires_at lease <? env_clock env t)%Z eqn:He; [done|]. apply Z.ltb_ge in He. eauto.
Qed.

#[export] Instance in_memory_reading : ReadingBackend InMemoryCapabilityService.
Proof.
  intros env id [d [caps actors] m l t]. simpl. split; [done|]. unfold cap_get, lease_found. simpl.
  destruct (caps !! id) as [lease|] eqn:Hl; [|done].
  destruct (cl_status lease) eqn:Hs; try done;
    (destruct (cl_expires_at lease <? env_clock env t)%Z eqn:He; [done|]; apply Z.ltb_ge in He;
     split_and!; [by left | congruence | eauto]).
Qed.

#[export] Instance store_reading : ReadingBackend StoreCapabilityService.
Proof.
  intros env id w. cbn [cb_get StoreCapabilityService]. unfold store_get. rewrite run_bind.
  destruct (store_lease_run env id w) as [Hd Hl].
  destruct (run env (store_lease id) w) as [[lease|e] w1]; cbn [fst snd] in *; [|by split].
  destruct (expiry_run env lease CE_Expired w1) as [Hd1 Hl1]. rewrite Hd in Hd1.
  destruct (cl_status lease) eqn:Hs; try (by split); (split; [done|]);
    (destruct (run env _ w1) as [[l|] w2]; cbn [fst snd] in *; [|done]);
    destruct Hl1 as [-> Ht]; (split_and!; [by right | congruence | done]).
Qed.

Section found.
Context (b : CapBackend) `{!ReadingBackend b} (env : Env).

Lemma get_capability_run id w :
  w_db (run env (get_capability_for_authorize b id) w).2 = w_db w ∧
  match (run env (get_capability_for_authorize b id) w).1 with
  | Ok lease => lease_found env id w lease
  | Err _ => True
  end.
Proof using Type*.
  unfold get_capability_for_authorize. rewrite run_bind. destruct (rb_get env id w) as [Hd Hf].
  destruct (run env (cb_get b id) w) as [[lease|[]] w1]; cbn [fst snd] in *; try (by split).
  rewrite run_bind. cbn [run call]. unfold exec_op at 1 2.
  destruct (sql_get_run env db_capabilities id w1) as [Hd1 Hr].
  destruct (exec_db env _ _) as [r w2]. cbn [fst snd] in *. rewrite Hd in Hd1, Hr.
  destruct Hr as [-> | [msg ->]]; [|by split].
  destruct (db_capabilities (w_db w) !! id) as [lease|] eqn:Hl; [|by split].
  destruct (expiry_run env lease CE_Expired w2) as [Hd2 Hl2]. rewrite Hd1 in Hd2.
  destruct (cl_status lease) eqn:Hs; try (by split); (split; [done|]);
    (destruct (run env _ w2) as [[l|] w3]; cbn [fst snd] in *; [|done]);
    destruct Hl2 as [-> Ht]; (split_and!; [by right | congruence | done]).
Qed.
End found.

Section checked.
Context (app : App) `{!ReadingBackend (app_cap app)} (env : Env) (d : Db).

(** The checks after the lease has been found. *)
Lemma authorize_checks_run actor request w :
  w_db w = d →
  w_db (run env (authorize_checks app actor request) w).2 = d ∧
  match (run env (authorize_checks app actor request) w).1 with
  | Ok lease => lease_found env (aer_capability_id request) w lease ∧
                lease_checked app env d actor request lease
  | Err _ => True
  end.
Proof.
  intros Hw. unfold authorize_checks. rewrite run_bind.
  destruct (get_capability_run (app_cap app) env (aer_capability_id request) w) as [Hd Hf]. rewrite Hw in Hd.
  destruct (run env (get_capability_for_authorize _ _) w) as [[lease|e] w1]; cbn [fst snd] in Hd, Hf.
  2: { apply (reads_governance_err env d _ _ (λ lease, _ ∧ lease_checked app env d actor request lease)). done. }
  cbn [map_err require]. revert Hd.
  match goal with |- w_db ?v = d → w_db (run env ?p ?v).2 = d ∧ _ =>
    enough (reads env d p (λ l, lease_found env (aer_capability_id request) w l ∧ lease_checked app env d actor request l)) as H;
      [exact (H v)|] end.
  cbn [bind]. eapply reads_observe; [apply observes_now | intros now [t ->]].
  eapply reads_try; [apply reads_require | intros [] Howner].
  destruct (String.eqb_spec (aer_proposal_id request) (cl_proposal_id lease)) as [Hpid|]; cbn [negb];
    [|apply reads_governance_err].
  eapply reads_try; [by apply (reads_fetch env d _ _ db_proposals) | intros p Hp].
  eapply reads_try; [apply reads_require | intros [] Hbind].
  eapply reads_try; [by apply (reads_fetch env d _ _ db_intents) | intros i Hi].
  eapply reads_observe; [apply observes_fs | intros fs [t' ->]].
  eapply reads_try; [apply reads_require | intros [] Hscope].
  apply map_err_ok in Hbind, Hscope.
  assert ((∀ b, cl_approval_binding lease = Some b → approval_backs app env d b (aer_proposal_id request)) →
          lease_checked app env d actor request lease) as Hdone by (intros Hb; split_and!; [by exists t | done | by exists p | by exists i, t' | done]).
  destruct (cl_approval_binding lease) as [b|]; [|apply reads_ok; by split; [|apply Hdone]].
  eapply reads_observe; [apply reads_observes, approval_reads | intros r Hr].
  eapply reads_try; [apply reads_require | intros [] ->].
  apply reads_ok. split; [done|]. apply Hdone. by intros ? [= <-].
Qed.
End checked.

(** ** The handler *)

Section handler.
Context (app : App) (env : Env).
Context `{!QuietBackend (app_cap app), !ReadingBackend (app_cap app)}.

(** What follows a recorded authorization. *)
Definition authorized_tail (request : AuthorizeExecutionRequest) (record : ExecutionRecord)
    (outbox : LifecycleOutboxRecord) : prog (result AuthorizeExecutionResponse ApiProblem) :=
  let route := GR_ExecutionsAuthorize in
  _ <- cb_mark_used (app_cap app) (aer_capability_id request) ;;
  auth_event_id <-? emit route PK_ActionProposalSubmitted
    (object_ref OT_SideEffect (ex_execution_id record) "Execution authorized") record None
    (lifecycle_event_metadata outbox []) ;;
  _ <-? checked route (mark_lifecycle_transition_reconciled outbox auth_event_id) ;;
  governance_ok route {| aes_execution := record; aes_warnings := [] |}.

Lemma authorized_tail_returns request record outbox :
  returns (λ r, match r with Ok resp => aes_execution resp = record | Err _ => True end)
    (authorized_tail request record outbox).
Proof.
  apply returns_bind. eapply returns_mono, returns_top. intros ? _.
  apply returns_bind. eapply returns_mono, returns_top. intros [id|] _; [|done].
  apply returns_bind. eapply returns_mono, returns_top. by intros [[]|] _.
Qed.

Lemma refused_returns request :
  returns (λ r : result AuthorizeExecutionResponse ApiProblem, match r with Ok _ => False | Err _ => True end)
    (err <- classify_authorization_cas_failure (aer_capability_id request) ;;
     governance_err GR_ExecutionsAuthorize
       (match err with CE_NotFound => object_not_found | _ => from_capability err end)).
Proof. apply returns_bind. eapply returns_mono, returns_top. by intros ? _. Qed.

Lemma authorized_tail_quiet request record outbox : quiet_prog (authorized_tail request record outbox).
Proof. solve_quiet_prog. Qed.

(** Reading the clock and drawing an identifier only advance the tick. *)
Definition tick (w : World) : World :=
  let '(mkWorld d caps m l t) := w in mkWorld d caps m l (S t).
Lemma tick_db w : w_db (tick w) = w_db w.
Proof. by destruct w. Qed.
Lemma run_now {A} (f : Timestamp → prog A) w :
  run env (bind (call op_now) f) w = run env (f (env_clock env (w_tick w))) (tick w).
Proof. by destruct w. Qed.
Lemma run_uuid {A} (f : string → prog A) w :
  run env (bind (call op_uuid) f) w = run env (f (env_uuid env (w_tick w))) (tick w).
Proof. by destruct w. Qed.
Lemma run_call {X A} (o : op X) (f : X → prog A) w :
  run env (bind (call o) f) w = let '(x, w') := exec_op env o w in run env (f x) w'.
Proof. done. Qed.

(** The authorization took place: [record] was stored and the lease of [lease]
    used up in one transaction, starting from database [d]. *)
Lemma record_authorization_run lease record outbox w w' :
  exec_op env (op_record_authorization lease record outbox) w = (Ok true, w') →
  ∃ t, authorization_done lease record outbox (env_clock env t) (w_db w) (w_db w').
Proof.
  intros Hx. simpl in Hx. exists (w_tick w).
  destruct (exec_db_cases _ _ _ _ _ Hx) as [_ [[_ [msg ?]] | [Hd [Hr | [msg ?]]]]]; try done.
  apply record_authorization_done. rewrite Hd. symmetry in Hr.
  by destruct (record_authorization _ _ _ _ (w_db w)); simpl in *; subst.
Qed.

(** A call that succeeded has checked its lease against the database as it was,
    used the stored lease up and stored the execution. *)
Record authorized (actor : option AuthActor) (request : AuthorizeExecutionRequest)
    (resp : AuthorizeExecutionResponse) (lease : CapabilityLease) (w w' : World) : Prop := {
  au_found : lease_found env (aer_capability_id request) w lease;
  au_checked : lease_checked app env (w_db w) actor request lease;
  au_active : ∃ row t, db_capabilities (w_db w) !! cl_capability_id lease = Some row ∧
    cl_status row = CS_Active ∧ (env_clock env t < cl_expires_at row)%Z;
  au_used : ∃ row, db_capabilities (w_db w') !! cl_capability_id lease = Some row ∧
    cl_status row = CS_Used;
  au_record : ∃ id t, aes_execution resp = authorization_record id (env_clock env t) request lease;
  au_fresh : db_executions (w_db w) !! ex_execution_id (aes_execution resp) = None;
  au_stored : db_executions (w_db w') =
    <[ex_execution_id (aes_execution resp) := aes_execution resp]> (db_executions (w_db w));
  au_contracts : db_contracts (w_db w') = db_contracts (w_db w);
}.

(** C8: a call of authorize that answers with success and ran without interference
    found an active, unexpired lease, checked owner, proposal binding, resource scope
    and (if the lease names one) approval against the stored rows, and leaves the lease
    used, the returned execution stored under a fresh id and every other execution and
    contract as it was. *)
Theorem authorize_execution_sound actor request w resp w' :
  run env (authorize_execution app actor request) w = (Ok resp, w') →
  ∃ lease, authorized actor request resp lease w w'.
Proof.
  intros Hrun. unfold authorize_execution in Hrun. rewrite run_bind in Hrun.
  destruct (authorize_checks_run app env (w_db w) actor request w eq_refl) as [Hd Hc].
  destruct (run env (authorize_checks app actor request) w) as [[lease|e] w1]; [|done].
  cbn [fst snd] in Hd, Hc. destruct Hc as [Hf Hc].
  rewrite run_uuid, !run_now, run_uuid, run_call in Hrun.
  destruct (exec_op env _ _) as [[[]|e] w2] eqn:Hx.
  2: { pose proof (returns_run (λ r, match r with Ok _ => False | Err _ => True end) _ env w2
         (refused_returns request)) as H. by rewrite Hrun in H. }
  2: { by destruct w2. }
  match type of Hx with exec_op _ (op_record_authorization _ ?r ?o) _ = _ =>
    set (record := r) in *; set (outbox := o) in * end.
  change (run env (authorized_tail request record outbox) w2 = (Ok resp, w')) in Hrun.
  pose proof (returns_run _ _ env w2 (authorized_tail_returns request record outbox)) as Hresp.
  pose proof (quiet_run env _ w2 (authorized_tail_quiet request record outbox)) as [Hq _].
  rewrite Hrun in Hresp, Hq. cbn [fst snd] in Hresp, Hq.
  apply record_authorization_run in Hx as [t [(row & Hrow & Hact & Hexp & Hcaps) Hfresh Hex Hcon _ _]].
  rewrite !tick_db, Hd in *. exists lease. split; rewrite ?Hresp; try done.
  - by exists row, t.
  - destruct (quiet_leases _ _ Hq (cl_capability_id lease)
      (cl_set_status CS_Used row)) as (row' & Hrow' & Hadv).
    { rewrite Hcaps. apply lookup_insert_eq. }
    exists row'. split; [done|]. by eapply lease_steps_used.
  - by do 2 eexists.
  - by rewrite (quiet_executions _ _ Hq).
  - by rewrite (quiet_contracts _ _ Hq).
Qed.
End handler.

(** * Programs by the operations they issue

    A program all of whose operations satisfy a predicate changes the world by a relation
    that each of them respects: alone, and in any pool of such programs. *)


Section all_ops.
Context (Q : ∀ X, op X → Prop).

Fixpoint all_ops {A} (p : prog A) : Prop :=
  match p with
  | Ret _ => True
  | Do o k => Q _ o ∧ ∀ x, all_ops (k x)
  end.

Lemma all_ops_bind {A B} (p : prog A) (f : A → prog B) : all_ops p → (∀ a, all_ops (f a)) → all_ops (bind p f).
Proof. induction p as [a|X o k IH]; simpl; [auto|]. intros [Ho Hk] Hf. split; auto. Qed.
Lemma all_ops_call {X} (o : op X) : Q _ o → all_ops (call o).
Proof. by intros Ho. Qed.

Context (env : Env) (R : World → World → Prop) `{!PreOrder R}.
Context (HR : ∀ X (o : op X) w x w', Q _ o → exec_op env o w = (x, w') → R w w').

Lemma all_ops_run {A} (p : prog A) w : all_ops p → R w (run env p w).2.
Proof.
  revert w. induction p as [a|X o k IH]; intros w; [reflexivity|]. intros [Ho Hk]. cbn [run].
  destruct (exec_op env o w) as [x w'] eqn:Hx. etrans; [by eapply HR|]. by apply IH.
Qed.

Lemma all_ops_pool {A} (adm : prog A → Prop) (p p' : Pool A) :
  (∀ q, adm q → all_ops q) → Forall all_ops (p_threads p) → pool_reach adm env p p' → R (p_world p) (p_world p').
Proof.
  intros Hadm Hall Hr. induction Hr as [p|p p1 p' Hstep _ IH]; [reflexivity|].
  destruct Hstep as [i X o k ts w x w' Hi Hx | q ts w Hq]; cbn in *.
  - destruct (proj1 (Forall_lookup _ _) Hall _ _ Hi) as [Ho Hk]. etrans; [by eapply HR|].
    apply IH. apply Forall_insert; [done|apply Hk].
  - apply IH. apply Forall_app. split; [done|]. apply Forall_singleton. auto.
Qed.
End all_ops.

Lemma all_ops_mono (Q Q' : ∀ X, op X → Prop) {A} (p : prog A) :
  (∀ X (o : op X), Q X o → Q' X o) → all_ops Q p → all_ops Q' p.
Proof. intros HQ. induction p as [a|X o k IH]; cbn; [done|]. intros [Ho Hk]. split; auto. Qed.

(** Decompose a program along its binds and branches, and close its plain operations. *)
Ltac solve_all_ops :=
  repeat first
    [ exact I
    | apply all_ops_call; exact I
    | match goal with |- all_ops _ (bind _ _) => apply all_ops_bind; [|intros ?] end
    | case_match ].
