(* ===== verification/RunSpec.v ===== *)
(** * Appending governed events

    What [append_governance_event] of provenance.rs stores when it succeeds: the
    event itself, and the edge from the parent its kind asks for.

    The second part holds rules for the successful runs of a handler. *)

From S2P Require Import Prelude Json Proto Admin Behavioral Transitions Pdp CapService Store Adapter Effects.
From S2P Require Import CapBackend Validation RollbackSvc Provenance Lifecycle Capabilities Handlers StoreFacts Evolution Discipline Logic.
From S2P Require Import HandlerSafety AuthorizeSpec.

(** A statement that succeeds, under any fault. *)
Lemma exec_db_ok {A} env (s : stmt A) w x w' :
  exec_db env s w = (Ok x, w') → s (w_db w) = (Ok x, w_db w').
Proof.
  destruct w as [d caps m l t]. simpl. destruct (env_fault env t) as [[]|]; [done..|].
  destruct (s d) as [r d'] eqn:Hs. intros. by simplify_eq/=.
Qed.

(** ** The statement *)

Definition only_provenance (d d' : Db) : Prop :=
  d' = set_edges (db_edges d') (set_events (db_events d') d).

Lemma insert_edges_ok id edges d u d' :
  sql_insert_edges id edges d = (Ok u, d') →
  only_provenance d d' ∧ db_events d' = db_events d ∧
  db_edges d' = db_edges d ++ (edge_row id <$> edges).
Proof.
  revert d. induction edges as [|e edges IH]; intros d; simpl.
  - intros [= <- <-]. unfold only_provenance. rewrite app_nil_r. split_and!; [by destruct d | done | done].
  - case_match; [|done]. intros (H1 & H2 & H3)%IH. unfold only_provenance in *. destruct d, d'; simpl in *.
    simplify_eq/=. split_and!; [done | done | by rewrite <- app_assoc].
Qed.

Lemma append_event_ok ev edges d u d' :
  append_event_with_edges ev edges d = (Ok u, d') →
  only_provenance d d' ∧ db_events d' = db_events d ++ [ev] ∧
  db_edges d' = db_edges d ++ (edge_row (ev_event_id ev) <$> edges).
Proof.
  unfold append_event_with_edges. case_match; [done|]. unfold transaction, then_, sql_insert_event.
  destruct (has_event _ d); [done|].
  destruct (sql_insert_edges _ edges _) as [[[]|] d1] eqn:He; [|done]. intros [= <- <-].
  apply insert_edges_ok in He as (H1 & H2 & H3). unfold only_provenance in *.
  destruct d, d1; simpl in *. by simplify_eq/=.
Qed.

(** ** The handler's append *)

(** The event [ev'] was appended for [ev]: same identity and context, and linked to
    a stored parent of the kind [ev] asks for, unless [ev] says it may have none. *)
Definition parent_optional (ev : ProvenanceEvent) : bool :=
  bool_decide (smap_get "lineage_parent_optional" (ev_metadata ev) ≫= as_bool = Some true).

Record event_appended (ev : ProvenanceEvent) (d d' : Db) (ev' : ProvenanceEvent) : Prop := {
  ea_is : ∃ md edges, ev' = ev_with md edges ev;
  ea_events : db_events d' = db_events d ++ [ev'];
  ea_rest : only_provenance d d';
  ea_parent : ∀ kind edge, lineage_parent_spec (ev_kind ev) = Some (kind, edge) →
    parent_optional ev = true ∨
    ∃ parent, parent ∈ db_events d ∧ linked_parent d' ev' parent kind edge;
  ea_metadata : ∀ k, k ≠ "lineage_parent_missing" →
    smap_get k (ev_metadata ev') = smap_get k (ev_metadata ev);
}.

Lemma append_with_run env ev w u w' :
  run env (append_with ev) w = (Ok u, w') →
  only_provenance (w_db w) (w_db w') ∧ db_events (w_db w') = db_events (w_db w) ++ [ev] ∧
  db_edges (w_db w') = db_edges (w_db w) ++ (edge_row (ev_event_id ev) <$> ev_parent_edges ev).
Proof.
  unfold append_with. cbn [run call]. unfold exec_op. destruct (exec_db _ _ _) as [r w1] eqn:Hx.
  intros [= -> ->]. apply exec_db_ok in Hx. by apply append_event_ok in Hx.
Qed.

Lemma append_governance_event_run env ev w u w' :
  run env (append_governance_event ev) w = (Ok u, w') →
  ∃ ev', event_appended ev (w_db w) (w_db w') ev'.
Proof.
  unfold append_governance_event. destruct (lineage_parent_spec (ev_kind ev)) as [[pk et]|] eqn:Hspec.
  2: { intros (H1 & H2 & H3)%append_with_run. eexists. split; [by do 2 eexists | done | done | | done].
       by rewrite Hspec. }
  rewrite run_call. simpl exec_op. destruct (exec_db env (query _) w) as [[evs|e] w1] eqn:Hx; [|done].
  pose proof (exec_db_ok _ _ _ _ _ Hx) as Hq. unfold query in Hq. injection Hq as Hevs Hd.
  destruct (List.find _ _) as [parent|] eqn:Hf.
  - intros (H1 & H2 & H3)%append_with_run. rewrite <- Hd in *. eexists.
    split; [by do 2 eexists | exact H2 | exact H1 | | done]. intros kind edge Heq. simplify_eq. right.
    apply List.find_some in Hf as [Hin Hctx]. rewrite <- in_rev, <- list_elem_of_In in Hin.
    apply list_elem_of_filter in Hin as [Hm Hin]. apply Is_true_true in Hm. unfold by_occurred_at in Hin. rewrite sort_desc_perm in Hin.
    exists parent. split; [done|]. split_and!.
    + rewrite H2. apply elem_of_app. by left.
    + unfold query_matches in Hm. simpl in Hm. destruct_andb.
      by match goal with H : bool_decide (ev_kind _ = _) = true |- _ => apply bool_decide_eq_true in H end.
    + exact Hctx.
    + eexists. rewrite H3. apply elem_of_app. right. cbn [ev_with ev_parent_edges].
      rewrite fmap_app. apply elem_of_app. right. left.
  - case_match eqn:Hopt; [|done]. intros (H1 & H2 & H3)%append_with_run. rewrite <- Hd in *. eexists.
    split; [by do 2 eexists | exact H2 | exact H1 | intros; left; exact Hopt |].
    intros k Hk. cbn [ev_with ev_metadata]. rewrite index_insert_get, decide_False by congruence. done.
Qed.

(** a governance event that was appended is stored after all earlier ones under
    its own identity, nothing but provenance changed, and when its kind asks for a
    causal parent an edge of the right type links it to a stored event of the right
    kind and context (unless the event itself says that the parent is optional). *)
Theorem governance_event_linked env ev w u w' :
  run env (append_governance_event ev) w = (Ok u, w') →
  ∃ ev', event_appended ev (w_db w) (w_db w') ev'.
Proof. apply append_governance_event_run. Qed.

(** * What a successful run has done

    [succeeds env w p Φ]: if the program [p], run alone from [w] under any faults,
    returns [Ok x] in [w'], then [Φ x w'].  The rules follow the programs: sequencing,
    the wrappers of the handlers, and one rule per kind of operation. *)


Section run_spec.
Context (env : Env).

Definition succeeds {T E} (w : World) (p : prog (result T E)) (Φ : T → World → Prop) : Prop :=
  ∀ x w', run env p w = (Ok x, w') → Φ x w'.

(** The same for a program without a result type. *)
Definition does {T} (w : World) (p : prog T) (Φ : T → World → Prop) : Prop :=
  ∀ x w', run env p w = (x, w') → Φ x w'.

(** ** Sequencing *)

Lemma succeeds_try {T T' E} w (p : prog (result T E)) (k : T → prog (result T' E)) Φ Ψ :
  succeeds w p Φ → (∀ x w', Φ x w' → succeeds w' (k x) Ψ) →
  succeeds w (bind p (λ r, match r with Ok x => k x | Err e => Ret (Err e) end)) Ψ.
Proof.
  intros Hp Hk x w'. rewrite run_bind. specialize (Hp : ∀ y v, _). revert Hp.
  destruct (run env p w) as [[y|e] w1] eqn:Hr; intros Hp; [|done].
  apply (Hk y w1), Hp. done.
Qed.

Lemma succeeds_bind {T T' E} w (p : prog T) (k : T → prog (result T' E)) Φ Ψ :
  does w p Φ → (∀ x w', Φ x w' → succeeds w' (k x) Ψ) → succeeds w (bind p k) Ψ.
Proof.
  intros Hp Hk x w'. rewrite run_bind. destruct (run env p w) as [y w1] eqn:Hr.
  apply (Hk y w1), Hp. done.
Qed.

Lemma succeeds_ok {T E} w (x : T) (Φ : T → World → Prop) : Φ x w → succeeds w (Ret (Ok x : result T E)) Φ.
Proof. intros H y w' [= <- <-]. done. Qed.
Lemma succeeds_err {T E} w (e : E) (Φ : T → World → Prop) : succeeds w (Ret (Err e)) Φ.
Proof. by intros y w'. Qed.

Lemma succeeds_mono {T E} w (p : prog (result T E)) Φ Ψ :
  (∀ x w', Φ x w' → Ψ x w') → succeeds w p Φ → succeeds w p Ψ.
Proof. intros H Hp x w' Hr. apply H, Hp, Hr. Qed.

(** What a program that only reads has found. *)
Lemma succeeds_reads {T E} w (p : prog (result T E)) Φ :
  reads env (w_db w) p Φ → succeeds w p (λ x w', w_db w' = w_db w ∧ Φ x).
Proof.
  intros Hp x w' Hr. destruct (Hp w eq_refl) as [H1 H2]. by rewrite Hr in H1, H2.
Qed.

(** A quiet program changes no execution and no contract. *)
Lemma succeeds_quiet {T E} w (p : prog (result T E)) :
  quiet_prog p → succeeds w p (λ _ w', quiet (w_db w) (w_db w')).
Proof. intros Hp x w' Hr. destruct (quiet_run env p w Hp) as [Hq _]. by rewrite Hr in Hq. Qed.

(** ** Operations *)

Lemma does_now w : does w (call op_now) (λ now w', now = env_clock env (w_tick w) ∧ w_db w' = w_db w).
Proof. intros x w'. destruct w. simpl. intros [= <- <-]. done. Qed.
Lemma does_uuid w : does w (call op_uuid) (λ _ w', w_db w' = w_db w).
Proof. intros x w'. destruct w. simpl. intros [= <- <-]. done. Qed.
Lemma does_instant w : does w (call op_instant) (λ _ w', w_db w' = w_db w).
Proof. intros x w'. destruct w. simpl. intros [= <- <-]. done. Qed.
Lemma does_metric w m : does w (call (op_metric m)) (λ _ w', w_db w' = w_db w).
Proof. intros x w'. destruct w. simpl. intros [= <- <-]. done. Qed.

(** A database operation that succeeds is its statement. *)
Lemma succeeds_db {T} w (o : op (result T StoreError)) (s : stmt T) :
  (∀ w, exec_op env o w = exec_db env s w) →
  succeeds w (call o) (λ x w', s (w_db w) = (Ok x, w_db w')).
Proof.
  intros Ho x w'. cbn [run call]. rewrite Ho. destruct (exec_db env s w) as [r w1] eqn:Hx.
  intros [= -> ->]. by eapply exec_db_ok.
Qed.

(** A statement over the administrative tables. *)
Lemma succeeds_admin {T} w (a : admin_op T) :
  succeeds w (call (op_admin a)) (λ x w', ∃ tables,
    admin_exec (env_clock env (w_tick w)) a (db_admin (w_db w)) = (Ok x, tables) ∧
    w_db w' = set_admin tables (w_db w)).
Proof.
  intros x w'. cbn [run call]. simpl exec_op. destruct (exec_db env _ w) as [r w1] eqn:Hx.
  intros [= -> ->]. apply exec_db_ok in Hx. unfold sql_admin in Hx.
  destruct (admin_exec _ a (db_admin (w_db w))) as [r tables]. injection Hx as -> Hd.
  exists tables. split; [done | by rewrite <- Hd].
Qed.

(** ** The wrappers of the handlers *)

Lemma succeeds_governance_err {T} w route e (Φ : T → World → Prop) : succeeds w (governance_err route e) Φ.
Proof. intros x w'. destruct w. done. Qed.
Lemma succeeds_governance_ok {T} w route (x : T) (Φ : T → World → Prop) :
  (∀ w', w_db w' = w_db w → Φ x w') → succeeds w (governance_ok route x) Φ.
Proof. intros H y w'. destruct w. cbn. intros [= <- <-]. by apply H. Qed.

Lemma succeeds_require {T} w route (r : result T ApiProblem) :
  succeeds w (require route r) (λ x w', r = Ok x ∧ w' = w).
Proof. destruct r; [by apply succeeds_ok | apply succeeds_governance_err]. Qed.

Lemma succeeds_checked {T} w route (p : prog (result T StoreError)) Φ :
  succeeds w p Φ → succeeds w (checked route p) Φ.
Proof.
  intros Hp x w'. unfold checked. rewrite run_bind. destruct (run env p w) as [[y|e] w1] eqn:Hr.
  - intros [= <- <-]. by apply Hp.
  - apply (succeeds_governance_err w1).
Qed.

Lemma succeeds_guarded {T} w route (p : prog (result T ApiProblem)) Φ :
  succeeds w p Φ → succeeds w (guarded_by route p) Φ.
Proof.
  intros Hp x w'. unfold guarded_by. rewrite run_bind. destruct (run env p w) as [[y|e] w1] eqn:Hr.
  - intros [= <- <-]. by apply Hp.
  - apply (succeeds_governance_err w1).
Qed.

Lemma succeeds_fetch {T} w route (o : op (result (option T) StoreError)) (table : Db → gmap string T) id missing :
  (∀ w, exec_op env o w = exec_db env (sql_get table id) w) →
  succeeds w (fetch route o missing) (λ x w', w_db w' = w_db w ∧ table (w_db w) !! id = Some x).
Proof. intros Ho. by apply succeeds_reads, reads_fetch. Qed.

Lemma succeeds_append w ev :
  succeeds w (append_governance_event ev) (λ _ w', ∃ ev', event_appended ev (w_db w) (w_db w') ev').
Proof. intros x w' Hr. by eapply append_governance_event_run. Qed.

(** A program whose failure is passed on in another error type. *)
Lemma succeeds_map_err {T E F} w (p : prog (result T E)) (f : E → F) Φ :
  succeeds w p Φ → succeeds w (bind p (λ r, Ret (map_err f r))) Φ.
Proof.
  intros Hp x w'. rewrite run_bind. destruct (run env p w) as [[y|e] w1] eqn:Hr; cbn; [|done].
  intros [= <- <-]. by apply Hp.
Qed.
End run_spec.

(** ** The ticks of a run *)

(** Every operation takes one tick. *)
Lemma exec_op_tick env {X} (o : op X) w : w_tick (exec_op env o w).2 = S (w_tick w).
Proof.
  destruct w as [d m ms l t], o; cbn; try done; unfold exec_profiler, exec_auth, exec_cap;
    repeat case_match; simplify_eq/=; done.
Qed.

Lemma run_tick env {A} (p : prog A) w a w' : run env p w = (a, w') → w_tick w ≤ w_tick w'.
Proof.
  revert w. induction p as [b|X o k IH]; intros w; cbn [run]; [by intros [= _ ->]|].
  pose proof (exec_op_tick env o w) as Ht. destruct (exec_op env o w) as [x w1]. intros H%IH. cbn in Ht. lia.
Qed.

Lemma succeeds_ticks env {T E} w (p : prog (result T E)) Φ :
  succeeds env w p Φ → succeeds env w p (λ x w', Φ x w' ∧ w_tick w ≤ w_tick w').
Proof. intros Hp x w' Hr. split; [by apply Hp | by eapply run_tick]. Qed.

(** [P] holds of a reading of the clock made between the worlds [w] and [w']. *)
Definition at_some_time (env : Env) (w w' : World) (P : Timestamp → Prop) : Prop :=
  ∃ t, w_tick w ≤ t < w_tick w' ∧ P (env_clock env t).

Lemma at_some_time_wider env w0 w w' w1 P :
  w_tick w0 ≤ w_tick w → w_tick w' ≤ w_tick w1 → at_some_time env w w' P → at_some_time env w0 w1 P.
Proof. intros H0 H1 (t & Ht & HP). exists t. split; [lia | done]. Qed.

(** Step over the clock, identifiers and counters. *)
Ltac step_pure := eapply succeeds_bind;
  [first [apply does_now | apply does_uuid | apply does_instant | apply does_metric] |].
