(* ===== verification/MfaSafety.v ===== *)
(** * One-time codes are checked, and used once

    The codes [verify_totp_code] accepts, what a successful check of a second factor
    has found and written, and that no program can make the store accept a counter
    again. *)

From S2P Require Import Prelude Json Proto Admin Behavioral Transitions CapService Store Adapter Effects.
From S2P Require Import Pdp RollbackSvc Validation Lifecycle Mfa Evolution StoreSafety AuthorizeSpec RunSpec.

(** ** Codes *)

Section codes.
Context (hmac : string → string → string).
Arguments hotp : simpl never.

Lemma u64_of_small n : (0 ≤ n < 18446744073709551616)%Z → u64_of n = n.
Proof. intros. by apply Z.mod_small. Qed.

Lemma match_counter_ok secret code counters c :
  match_counter hmac secret code counters = Ok c → c ∈ counters ∧ hotp hmac secret c = code.
Proof.
  induction counters as [|c' l IH]; cbn [match_counter]; [done|]. destruct (String.eqb_spec (hotp hmac secret c') code).
  - intros [= <-]. split; [left | done].
  - intros [? ?]%IH. split; [by right | done].
Qed.

Lemma match_counter_complete secret code counters c :
  c ∈ counters → hotp hmac secret c = code → is_ok (match_counter hmac secret code counters) = true.
Proof.
  induction counters as [|c' l IH]; cbn [match_counter]; [by intros ?%not_elem_of_nil|].
  intros Hc Hh. destruct (String.eqb_spec (hotp hmac secret c') code) as [|Hne]; [done|].
  apply elem_of_cons in Hc as [->|Hc]; [done | by apply IH].
Qed.

(** Six decimal digits. *)
Definition is_digit (a : Ascii.ascii) : bool := ((48 <=? Ascii.N_of_ascii a) && (Ascii.N_of_ascii a <=? 57))%N.

Fixpoint all_digits (s : string) : bool :=
  match s with EmptyString => true | String a s => is_digit a && all_digits s end.

Lemma padded_digits_shape n v : (0 ≤ v)%Z → String.length (padded_digits n v) = n ∧ all_digits (padded_digits n v) = true.
Proof.
  intros Hv. induction n as [|n [IH1 IH2]]; [done|]. cbn [padded_digits String.length all_digits].
  split; [by rewrite IH1|]. rewrite IH2, andb_true_r.
  pose proof (Z.mod_pos_bound (v / 10 ^ Z.of_nat n) 10 ltac:(lia)).
  unfold is_digit. rewrite Ascii.N_ascii_embedding by lia.
  apply andb_true_iff. rewrite !N.leb_le. lia.
Qed.

(** The window of a time: the step before, the step itself and the step after. *)
Definition in_slew (c timestamp : Z) : Prop := (Z.abs (c - timestamp / TOTP_TIME_STEP) ≤ 1)%Z.

(** A code generated for a time is six decimal digits and is accepted at every time
    whose 30-second step is the same, the one before or the one after; conversely a code
    that is accepted is the one-time code of a step in that window. *)
Theorem totp_roundtrip secret code t :
  (30 ≤ t < 4611686018427387904)%Z →
  (∀ t', (0 ≤ t')%Z → in_slew (t' / TOTP_TIME_STEP) t →
     String.length (generate_totp_code hmac secret t') = 6 ∧
     all_digits (generate_totp_code hmac secret t') = true ∧
     verify_totp_code hmac secret (generate_totp_code hmac secret t') t = Ok tt) ∧
  (∀ c, verify_totp_code_with_counter hmac secret code t = Ok c →
     in_slew c t ∧ code = hotp hmac secret c).
Proof.
  intros Ht. set (T := (t / TOTP_TIME_STEP)%Z).
  assert (1 ≤ T < 4611686018427387904)%Z as HT.
  { subst T. unfold TOTP_TIME_STEP. split; [apply Z.div_le_lower_bound; lia|].
    apply Z.div_lt_upper_bound; lia. }
  split.
  - intros t' Ht' Hslew. unfold in_slew in Hslew. fold T in Hslew.
    destruct (padded_digits_shape 6 (dynamic_truncation (hmac secret (be_bytes 8 (t' / TOTP_TIME_STEP))) mod 1000000))
      as [H1 H2]; [apply Z.mod_pos_bound; lia|].
    split_and!; [done | done|]. unfold verify_totp_code, verify_totp_code_with_counter. fold T.
    pose proof (match_counter_complete secret (generate_totp_code hmac secret t')
      [u64_of (T - 1); u64_of T; u64_of (T + 1)] (t' / TOTP_TIME_STEP)) as Hm.
    destruct (match_counter _ _ _ _); [done|]. exfalso.
    assert (false = true) as ?; [|done]. apply Hm; [|done].
    rewrite !u64_of_small by lia. set (c := (t' / TOTP_TIME_STEP)%Z) in *.
    assert (c = T - 1 ∨ c = T ∨ c = T + 1)%Z as Hc by lia. clear Hm. rewrite !elem_of_cons. tauto.
  - intros c Hc. apply match_counter_ok in Hc as [Hin <-]. split; [|done]. unfold in_slew. fold T.
    fold T in Hin. rewrite !u64_of_small in Hin by lia.
    rewrite !elem_of_cons in Hin. destruct Hin as [->|[->|[->|Hin]]]; [lia..|]. by apply not_elem_of_nil in Hin.
Qed.
End codes.

(** ** A successful check of a second factor *)

Section second_factor.
Context (app : App) (env : Env).

(** What the checks before the code have found in the database [d]. *)
Record factor_ready (d : Db) (id actor : string) (row : MfaCredentialRecord) : Prop := {
  fr_row : ad_mfa (db_admin d) !! id = Some row;
  fr_agent : mc_agent_id row = actor;
  fr_active : mc_status row = MF_Active;
}.

(** The lock [until], if there is one, had at most [slack] nanoseconds left at a reading
    of the clock between the worlds [w] and [w']. *)
Definition lock_over (until : option Timestamp) (slack : Z) (w w' : World) : Prop :=
  ∀ t, until = Some t → at_some_time env w w' (λ now, t - now ≤ slack)%Z.

(** The lock the store holds for the agent. *)
Definition agent_lock (w : World) (agent : string) : option Timestamp :=
  ad_lockouts (db_admin (w_db w)) !! agent ≫= ml_locked_until.

(** The code of the factor, with its counter, at a reading of the clock between the two
    worlds. *)
Definition code_matches (row : MfaCredentialRecord) (key code : string) (counter : Z) (w w' : World) : Prop :=
  ∃ secret, decrypt_secret (app_ext app) key (mc_encrypted_secret row) (mc_secret_nonce row) = Ok secret ∧
    at_some_time env w w' (λ now,
      verify_totp_code_with_counter (ext_hmac_sha1 (app_ext app)) secret code (u64_of (now / 1000000000)) = Ok counter).

Lemma lock_over_wider until slack w0 w w' w1 :
  w_tick w0 ≤ w_tick w → w_tick w' ≤ w_tick w1 → lock_over until slack w w' → lock_over until slack w0 w1.
Proof. intros H0 H1 H t Ht. by eapply at_some_time_wider, H. Qed.

Lemma code_matches_wider row key code counter w0 w w' w1 :
  w_tick w0 ≤ w_tick w → w_tick w' ≤ w_tick w1 →
  code_matches row key code counter w w' → code_matches row key code counter w0 w1.
Proof. intros H0 H1 (secret & Hs & H). exists secret. split; [done|]. by eapply at_some_time_wider, H. Qed.

(** What the answer of a lockout check says. *)
Lemma lock_remaining_none t now : lock_remaining (Some t) now = None → (t - now ≤ 0)%Z.
Proof. cbn. destruct (Z.ltb_spec now t); [done | lia]. Qed.
Lemma lock_remaining_zero t now : (default 0 (lock_remaining (Some t) now) ≤ 0)%Z → (t - now ≤ 999999999)%Z.
Proof.
  cbn. destruct (Z.ltb_spec now t); [|lia]. unfold seconds_left. cbn. intros Hz.
  pose proof (Z.quot_rem' (t - now) 1000000000). pose proof (Z.rem_bound_pos (t - now) 1000000000).
  pose proof (Z.quot_pos (t - now) 1000000000). lia.
Qed.

Lemma row_to_record_fields r :
  mc_agent_id (row_to_record r) = mc_agent_id r ∧ mc_status (row_to_record r) = mc_status r ∧
  mc_encrypted_secret (row_to_record r) = mc_encrypted_secret r ∧
  mc_secret_nonce (row_to_record r) = mc_secret_nonce r.
Proof. by destruct r. Qed.

Lemma row_to_record_locked r : mc_locked_until (row_to_record r) = mc_locked_until r.
Proof. by destruct r. Qed.

Lemma set_admin_same d : set_admin (db_admin d) d = d.
Proof. by destruct d. Qed.

Lemma active_factor_run id actor w :
  succeeds env w (active_factor id actor) (λ r w', w_db w' = w_db w ∧
    ∃ row, r = row_to_record row ∧ factor_ready (w_db w) id actor row).
Proof.
  intros r w'. unfold active_factor. rewrite run_call.
  pose proof (succeeds_admin env w (AO_mfa_get id)) as Ha. unfold succeeds in Ha. cbn [run call] in Ha.
  destruct (exec_op env (op_admin (AO_mfa_get id)) w) as [[[record|]|e] w1]; cbn [run]; try done.
  destruct (Ha _ _ eq_refl) as (tables & Hx & Hd). cbn in Hx. injection Hx as Hrow <-.
  rewrite set_admin_same in Hd. destruct (ad_mfa _ !! id) as [row|] eqn:Hl; [|done].
  cbn in Hrow. injection Hrow as <-. destruct (row_to_record_fields row) as (Hag & Hst & _).
  destruct (String.eqb_spec (mc_agent_id (row_to_record row)) actor); [|done].
  case_bool_decide; [|done]. cbn. intros [= <- <-]. split; [done|]. exists row. split; [done|].
  split; congruence.
Qed.

Lemma lockout_get_run agent w :
  succeeds env w (call (op_admin (AO_lockout_get agent))) (λ r w', w_db w' = w_db w ∧
    r ≫= ml_locked_until = ad_lockouts (db_admin (w_db w)) !! agent ≫= ml_locked_until).
Proof.
  eapply succeeds_mono; [|apply succeeds_admin]. intros r w' (tables & Hx & Hd).
  cbn in Hx. injection Hx as <- <-. rewrite set_admin_same in Hd. split; [done|].
  by destruct (ad_lockouts _ !! agent).
Qed.

Lemma check_agent_run agent w :
  succeeds env w (check_agent_mfa_lockout agent) (λ r w', w_db w' = w_db w ∧
    ∀ t, agent_lock w agent = Some t → at_some_time env w w' (λ now, r = lock_remaining (Some t) now)).
Proof.
  unfold check_agent_mfa_lockout.
  eapply succeeds_try; [apply succeeds_ticks, lockout_get_run|].
  unfold agent_lock. intros r w1 [[Hd <-] Ht]. destruct (r ≫= ml_locked_until) as [t|].
  - intros x w'. rewrite run_now. cbn [run]. intros [= <- <-]. rewrite tick_db. split; [done|].
    intros ? [= <-]. exists (w_tick w1). split; [destruct w1; cbn in *; lia | done].
  - by apply succeeds_ok.
Qed.

Lemma agent_unlocked_run agent w :
  succeeds env w (agent_unlocked agent) (λ _ w', w_db w' = w_db w ∧ lock_over (agent_lock w agent) 0 w w').
Proof.
  intros r w'. unfold agent_unlocked. rewrite run_bind.
  destruct (run env (check_agent_mfa_lockout agent) w) as [[[s|]|e] w1] eqn:Hr; try done.
  apply check_agent_run in Hr as [Hd Hl]. cbn. intros [= <- <-]. split; [done|]. intros t Ht.
  destruct (Hl t Ht) as (n & Hn & Hnone). exists n. split; [done|]. by apply lock_remaining_none.
Qed.

(** The lock of the factor. *)
Lemma factor_lockout_run row w w' :
  run env (check_factor_lockout (row_to_record row)) w = (None, w') →
  w_db w' = w_db w ∧ lock_over (mc_locked_until row) 0 w w'.
Proof.
  unfold check_factor_lockout, lock_over. rewrite row_to_record_locked.
  destruct (mc_locked_until row) as [t|]; [|by intros [= <-]].
  rewrite run_now. cbn [run]. intros [= Hl <-]. rewrite tick_db. split; [done|]. intros ? [= <-].
  exists (w_tick w). split; [destruct w; cbn; lia | by apply lock_remaining_none].
Qed.

(** Counting a failure never reports success. *)
Lemma record_totp_failure_returns agent record m dur :
  returns (λ r, ∀ c, r ≠ TV_Success c) (record_totp_failure agent record m dur).
Proof.
  unfold record_totp_failure. apply returns_bind. eapply returns_mono, returns_top.
  intros [ar|e] _; [|done]. apply returns_bind. eapply returns_mono, returns_top. intros locked _.
  apply returns_bind. eapply returns_mono, returns_top. intros [fl|e] _; [|done].
  apply returns_bind. eapply returns_mono, returns_top. intros rs _.
  apply returns_bind. eapply returns_mono, returns_top. intros fs _. by destruct rs, fs as [[]|].
Qed.

(** What a successful check of the code has found: the agent's lock had less than a second
    left, the factor was not locked, and the code is the factor's. *)
Definition totp_verified (row : MfaCredentialRecord) (key code : string) (c : Z) (w w' : World) : Prop :=
  lock_over (agent_lock w (mc_agent_id row)) 999999999 w w' ∧ lock_over (mc_locked_until row) 0 w w' ∧
  code_matches row key code c w w'.

Lemma totp_verified_wider row key code c w w' w1 :
  w_tick w' ≤ w_tick w1 → totp_verified row key code c w w' → totp_verified row key code c w w1.
Proof.
  intros H (H1 & H2 & H3).
  split_and!; [by eapply lock_over_wider | by eapply lock_over_wider | by eapply code_matches_wider].
Qed.

Lemma verify_totp_run key row code m dur w c w' :
  run env (verify_totp_with_lockout (app_ext app) key (mc_agent_id row) (row_to_record row) code m dur) w
    = (TV_Success c, w') →
  w_db w' = w_db w ∧ totp_verified row key code c w w'.
Proof.
  unfold verify_totp_with_lockout. rewrite run_bind.
  destruct (run env (check_agent_mfa_lockout _) w) as [[retry|e] w1] eqn:Hr; [|done].
  pose proof (run_tick _ _ _ _ _ Hr) as Ht1. apply check_agent_run in Hr as [Hd Hl].
  destruct (0 <? default 0%Z retry)%Z eqn:Hlt; [done|]. apply Z.ltb_ge in Hlt.
  rewrite run_bind. destruct (run env (check_factor_lockout _) w1) as [[s|] w2] eqn:Hf; [done|].
  pose proof (run_tick _ _ _ _ _ Hf) as Ht2. apply factor_lockout_run in Hf as [Hd2 Hfl].
  destruct (row_to_record_fields row) as (_ & _ & -> & ->).
  destruct (decrypt_secret _ _ _ _) as [secret|e] eqn:Hs; [|done]. rewrite run_now.
  destruct (verify_totp_code_with_counter _ _ _ _) as [c'|e] eqn:Hv.
  - cbn [run]. intros [= <- <-]. rewrite tick_db. split; [congruence|].
    assert (w_tick (tick w2) = S (w_tick w2)) as Ht3 by by destruct w2. split_and!.
    + intros t Ht. destruct (Hl t Ht) as (n & Hn & ->). exists n. split; [lia | by apply lock_remaining_zero].
    + eapply lock_over_wider, Hfl; lia.
    + exists secret. split; [done|]. exists (w_tick w2). split; [lia | done].
  - intros Hrun. pose proof (returns_run _ _ env (tick w2)
      (record_totp_failure_returns (mc_agent_id row) (row_to_record row) m dur)) as Hn.
    rewrite Hrun in Hn. by specialize (Hn c).
Qed.

(** ** Using up the counter *)

(** Nothing but the administrative tables changed. *)
Definition only_admin (d d' : Db) : Prop := d' = set_admin (db_admin d') d.

Lemma only_admin_trans d1 d2 d3 : only_admin d1 d2 → only_admin d2 d3 → only_admin d1 d3.
Proof. unfold only_admin. intros H12 ->. rewrite H12. by destruct d1. Qed.

(** The database after the counter was recorded and the lockouts reset. *)
Record code_used (d d' : Db) (id : string) (row : MfaCredentialRecord) (counter : Z) : Prop := {
  cu_fresh : match mc_last_used_counter row with Some c => (c < counter)%Z | None => True end;
  cu_row : ∃ row', ad_mfa (db_admin d') !! id = Some row' ∧ mc_last_used_counter row' = Some counter;
  cu_rest : only_admin d d';
}.

Lemma record_use_run id row counter w :
  ad_mfa (db_admin (w_db w)) !! id = Some row →
  succeeds env w (record_use id counter) (λ used w', used = true → code_used (w_db w) (w_db w') id row counter).
Proof.
  intros Hrow. unfold record_use. destruct (_ <? counter)%Z; [apply succeeds_err|].
  step_pure. intros now w1 [-> Hd]. eapply succeeds_mono; [|apply succeeds_admin].
  intros used w2 (tables & Hx & Hd2) ->. cbn in Hx. rewrite Hd in *. unfold sql_mfa_record_use, update_factor in Hx.
  rewrite Hrow in Hx. destruct (match mc_last_used_counter row with Some c => (c <? counter)%Z | None => true end)
    eqn:Hc; [|done]. injection Hx as <-. split.
  - destruct (mc_last_used_counter row); [by apply Z.ltb_lt | done].
  - rewrite Hd2. destruct (w_db w); simpl. eexists. rewrite lookup_insert_eq. split; [done | by destruct row].
  - unfold only_admin. rewrite Hd2. by destruct (w_db w).
Qed.

(** Resetting the lockouts keeps every counter. *)
Definition counters_kept (d d' : Db) : Prop :=
  only_admin d d' ∧
  ∀ k row, ad_mfa (db_admin d) !! k = Some row →
    ∃ row', ad_mfa (db_admin d') !! k = Some row' ∧ mc_last_used_counter row' = mc_last_used_counter row.

Lemma counters_kept_trans d1 d2 d3 : counters_kept d1 d2 → counters_kept d2 d3 → counters_kept d1 d3.
Proof.
  intros [H1 K1] [H2 K2]. split.
  - by eapply only_admin_trans.
  - intros k row Hk. destruct (K1 k row Hk) as (row1 & Hk1 & Hc1).
    destruct (K2 k row1 Hk1) as (row2 & Hk2 & Hc2). exists row2. split; [done | congruence].
Qed.

Lemma reset_run agent id w :
  succeeds env w (reset_mfa_lockout_after_success agent id) (λ _ w', counters_kept (w_db w) (w_db w')).
Proof.
  unfold reset_mfa_lockout_after_success. step_pure. intros now w1 [_ Hd].
  eapply succeeds_try; [apply succeeds_admin|]. intros b w2 (t2 & Hx2 & Hd2).
  eapply succeeds_try; [apply succeeds_admin|]. intros b' w3 (t3 & Hx3 & Hd3). apply succeeds_ok.
  rewrite <- Hd. apply (counters_kept_trans _ (w_db w2)); (split; [unfold only_admin; rewrite ?Hd3, ?Hd2; by destruct (w_db w1)|]).
  - intros k row Hk. rewrite Hd2. cbn in Hx2. unfold sql_lockout_reset in Hx2.
    exists row. destruct (w_db w1); simpl in *. split; [|done].
    by destruct (ad_lockouts db_admin !! agent); simplify_eq/=.
  - intros k row Hk. rewrite Hd3. cbn in Hx3. unfold sql_mfa_reset, update_factor in Hx3.
    destruct (ad_mfa (db_admin (w_db w2)) !! id) as [r|] eqn:Hr.
    + injection Hx3 as <- <-. destruct (decide (k = id)) as [->|Hne].
      * eexists. split; [by destruct (w_db w2); simpl; rewrite lookup_insert_eq|].
        assert (r = row) as -> by congruence. by destruct row.
      * exists row. split; [|done]. destruct (w_db w2); simpl. by rewrite lookup_insert_ne.
    + injection Hx3 as <- <-. exists row. split; [|done]. by destruct (w_db w2).
Qed.

(** A successful check of the second factor [f] of [actor], from [w] to [w']. *)
Record second_factor_used (f : MfaFactor) (actor : string) (counter : Z) (w w' : World) : Prop := {
  sf_factor : ∃ row key code, factor_ready (w_db w) (mf_id f) actor row ∧
    lock_over (agent_lock w actor) 0 w w' ∧ lock_over (mc_locked_until row) 0 w w' ∧
    mfa_key app = Ok key ∧ mf_code f = Some code ∧ code_matches row key code counter w w' ∧
    match mc_last_used_counter row with Some c => (c < counter)%Z | None => True end;
  sf_used : ∃ row', ad_mfa (db_admin (w_db w')) !! mf_id f = Some row' ∧ mc_last_used_counter row' = Some counter;
  sf_rest : only_admin (w_db w) (w_db w');
}.

(** The code is used up; the lock of the agent was seen to be over before, from [w0] on. *)
Lemma consume_code_run f key code actor row w0 w :
  mfa_key app = Ok key → mf_code f = Some code → factor_ready (w_db w) (mf_id f) actor row →
  w_db w = w_db w0 → w_tick w0 ≤ w_tick w → lock_over (agent_lock w0 actor) 0 w0 w →
  succeeds env w (consume_code app key (mf_id f) (row_to_record row) code)
    (λ _ w', ∃ counter, second_factor_used f actor counter w0 w').
Proof.
  intros Hkey Hcode Hready Hdb Htick Hagent u w' Hrun. pose proof (run_tick _ _ _ _ _ Hrun) as Hend.
  revert Hrun. unfold consume_code. rewrite run_bind.
  destruct (row_to_record_fields row) as (-> & _). pose proof Hready as [Hrow Hag _].
  destruct (run env (verify_totp_with_lockout _ _ _ _ _ _ _) w) as [[c| | |] w1] eqn:Hv; try done.
  apply verify_totp_run in Hv as (Hd1 & Hver). rewrite run_bind.
  destruct (run env (record_use (mf_id f) c) w1) as [[[]|e] w2] eqn:Hu; try done.
  pose proof (run_tick _ _ _ _ _ Hu) as Ht2.
  apply (record_use_run _ row) in Hu; [|by rewrite Hd1]. destruct (Hu eq_refl) as [Hfresh (row' & Hr' & Hc') Hrest].
  rewrite run_bind. destruct (run env (reset_mfa_lockout_after_success _ _) w2) as [[[]|e] w3] eqn:Hr; [|done].
  cbn. intros [= <- <-]. pose proof (run_tick _ _ _ _ _ Hr) as Ht3. apply reset_run in Hr as [Hrest3 Hkept].
  destruct (Hkept _ _ Hr') as (row3 & Hr3 & Hc3).
  destruct (totp_verified_wider row key code c w w1 w3 ltac:(lia) Hver) as (_ & Hfl & Hmatch). exists c. split.
  - exists row, key, code. rewrite <- Hdb. split_and!; [done | | | done | done | | done].
    + eapply lock_over_wider, Hagent; lia.
    + eapply lock_over_wider, Hfl; lia.
    + eapply code_matches_wider, Hmatch; lia.
  - exists row3. split; [done | congruence].
  - rewrite <- Hdb. rewrite Hd1 in Hrest. by eapply only_admin_trans.
Qed.

(** The checks before the code: the agent is not locked and the factor is active. *)
Lemma ready_factor_run f actor (k : MfaCredentialRecord → prog (result unit ApiProblem)) w Φ :
  (∀ row w1, factor_ready (w_db w1) (mf_id f) actor row → w_db w1 = w_db w → w_tick w ≤ w_tick w1 →
     lock_over (agent_lock w actor) 0 w w1 → succeeds env w1 (k (row_to_record row)) Φ) →
  succeeds env w (_ <-? agent_unlocked actor ;; record <-? active_factor (mf_id f) actor ;; k record) Φ.
Proof.
  intros Hk. eapply succeeds_try; [apply succeeds_ticks, agent_unlocked_run|]. cbn beta.
  intros _ w1 [[Hd1 Hl] Ht1]. eapply succeeds_try; [apply succeeds_ticks, active_factor_run|]. cbn beta.
  intros r w2 [(Hd2 & row & -> & Hready) Ht2].
  apply Hk; [by rewrite Hd2 | congruence | lia | eapply lock_over_wider, Hl; lia].
Qed.

Lemma verify_mfa_factor_run factor actor w :
  succeeds env w (verify_mfa_factor app factor actor)
    (λ _ w', ∃ f counter, factor = Some f ∧ second_factor_used f actor counter w w').
Proof.
  unfold verify_mfa_factor. destruct factor as [f|]; [|apply succeeds_err].
  destruct (mfa_key app) as [key|] eqn:Hkey; [|apply succeeds_err].
  destruct (mfa_code f) as [code|] eqn:Hcode; [|apply succeeds_err].
  unfold mfa_code in Hcode. apply ok_or_ok in Hcode. apply ready_factor_run. intros row w1 Hready Hd Ht Hl.
  eapply succeeds_mono; [|by eapply consume_code_run]. intros _ w3 [c Hc]. by exists f, c.
Qed.

Lemma verify_approval_mfa_run factor actor w :
  succeeds env w (verify_approval_mfa app factor actor)
    (λ _ w', ∃ f counter, factor = Some f ∧ second_factor_used f actor counter w w').
Proof.
  unfold verify_approval_mfa. destruct factor as [f|]; [|apply succeeds_err].
  destruct (mfa_key app) as [key|] eqn:Hkey; [|apply succeeds_err].
  apply ready_factor_run. intros row w1 Hready Hd Ht Hl.
  destruct (mfa_code f) as [code|] eqn:Hcode; [|apply succeeds_err].
  unfold mfa_code in Hcode. apply ok_or_ok in Hcode.
  eapply succeeds_mono; [|by eapply consume_code_run]. intros _ w3 [c Hc]. by exists f, c.
Qed.
End second_factor.

(** A recorded counter is refused from then on, whatever runs. *)
Lemma counter_refused {A} env (p p' : Pool A) id row counter :
  ad_mfa (db_admin (w_db (p_world p))) !! id = Some row → mc_last_used_counter row = Some counter →
  pool_reach any env p p' →
  ∀ c now, (c ≤ counter)%Z →
    sql_mfa_record_use id c now (db_admin (w_db (p_world p'))) = (Ok false, db_admin (w_db (p_world p'))).
Proof.
  intros Hrow Hc Hr c now Hle. destruct (pool_reach_guarded _ _ _ Hr) as [_ _ _ Hm].
  destruct (Hm _ _ Hrow) as (row' & Hrow' & _ & _ & _ & Hcl). rewrite Hc in Hcl.
  unfold sql_mfa_record_use, update_factor. rewrite Hrow'.
  destruct (mc_last_used_counter row') as [c'|]; [|done]. simpl in Hcl.
  by rewrite (proj2 (Z.ltb_ge c' c)) by lia.
Qed.

(** C22: when the check of a second factor succeeds (for an approval or for a quarantine
    hold), the request named an active factor of the acting agent; at readings of the
    clock made during the check no lock of the agent and no lock of the factor was still
    running, and the code was the factor's one-time code, for a time step within one of
    that reading's and later than every step accepted before; that step is recorded, and
    no call in any interleaving can use it, or an earlier one, with this factor again. *)
Theorem second_factor_single_use {A} app env factor actor w u w' :
  (run env (verify_approval_mfa app factor actor) w = (Ok u, w') ∨
   run env (verify_mfa_factor app factor actor) w = (Ok u, w')) →
  ∃ f counter, factor = Some f ∧
    second_factor_used app env f actor counter w w' ∧
    ∀ p p' : Pool A, p_world p = w' → pool_reach any env p p' →
      ∀ c now, (c ≤ counter)%Z →
        sql_mfa_record_use (mf_id f) c now (db_admin (w_db (p_world p')))
          = (Ok false, db_admin (w_db (p_world p'))).
Proof.
  intros H. assert (∃ f counter, factor = Some f ∧
    second_factor_used app env f actor counter w w') as (f & counter & Hf & Hused).
  { destruct H as [H|H]; [by eapply verify_approval_mfa_run | by eapply verify_mfa_factor_run]. }
  exists f, counter. split_and!; [done | done|]. intros p p' Hp Hr.
  destruct Hused as [_ (row' & Hrow & Hc) _]. eapply counter_refused; [by rewrite Hp | done | done].
Qed.
