(* ===== verification/ReviewSpec.v ===== *)
(** * What the proposal and review handlers have done when they succeed

    A successful evaluation of a proposal, and successful resolutions of an approval
    and of a quarantine hold: what was found, what was written, and that the evidence
    recorded about the resolver is the one the role check of a binding reads.

    The last part is about the resolution of outbox records by operators. *)

From S2P Require Import Prelude Json Proto Admin Behavioral Transitions Pdp CapService Store Adapter Effects.
From S2P Require Import Firewall CapBackend Validation RollbackSvc Provenance Lifecycle Mfa Capabilities Proposals Handlers Background.
From S2P Require Import Quarantine Policies Auth Principals StoreFacts Evolution Discipline Logic HandlerSafety StoreSafety Reconcile.
From S2P Require Import OutboxSafety AuthorizeSpec RunSpec MfaSafety.

(** ** Frames *)

(** Nothing but the audit log changed. *)
Definition only_audit (d d' : Db) : Prop := d' = set_audit_log (db_audit_log d') d.

Section frames.
Context (env : Env).

(** A statement under any fault: applied or not. *)
Lemma does_db {T} w (o : op (result T StoreError)) (s : stmt T) :
  (∀ w, exec_op env o w = exec_db env s w) →
  does env w (call o) (λ _ w', w_db w' = w_db w ∨ w_db w' = (s (w_db w)).2).
Proof.
  intros Ho x w'. cbn [run call]. rewrite Ho. destruct w as [d mem m l t]. simpl.
  destruct (env_fault env t) as [[]|]; [intros [= <- <-]; auto ..|].
  destruct (s d) as [r d']. intros [= <- <-]. auto.
Qed.

(** The audit trail touches its own table only. *)
Lemma append_audit_checked_frame app a b c e f md w :
  succeeds env w (append_audit_checked app a b c e f md) (λ _ w', only_audit (w_db w) (w_db w')).
Proof.
  assert (does env w (append_audit (app_ext app) a b c e f md)
            (λ _ w', only_audit (w_db w) (w_db w'))) as Hd.
  { intros x w'. unfold append_audit. rewrite run_now. unfold audit_append. rewrite run_call.
    destruct (exec_op env op_last_audit_hash (tick w)) as [r w1] eqn:H1.
    assert (w_db w1 = w_db w) as Hw1.
    { destruct (does_db (tick w) op_last_audit_hash _ (λ _, eq_refl) r w1) as [H|H];
        [by cbn [run call]; rewrite H1 | |]; by rewrite H, ?tick_db. }
    destruct r as [prev|err]; [|cbn; intros [= _ <-]; unfold only_audit; rewrite Hw1; by destruct (w_db w)].
    intros Hr. edestruct (does_db w1 (op_insert_audit _ _ _) (sql_insert_audit _ _ _) (λ _, eq_refl) x w' Hr)
      as [H|H]; unfold only_audit; rewrite H, Hw1; by destruct (w_db w). }
  intros x w'. unfold append_audit_checked. rewrite run_bind.
  destruct (run env (append_audit _ _ _ _ _ _ _) w) as [[[]|err] w1] eqn:Hr.
  - cbn. intros [= _ <-]. by eapply Hd.
  - destruct (cfg_audit_fail_closed _); [by destruct w1|]. cbn. intros [= _ <-]. by eapply Hd.
Qed.
End frames.

Lemma decision_of_debug (dec : Decision) ev :
  smap_get "decision" (ev_metadata ev) = Some (JStr (debug_decision dec)) →
  decision_from_policy_event ev = Some dec.
Proof. intros H. unfold decision_from_policy_event. rewrite H. by destruct dec. Qed.

(** ** Evaluating a proposal *)

Section evaluate.
Context (app : App) (env : Env).

(** The decisions the configured mode can reach with the stored bundles.  A store
    that fails to list the active bundles counts as one without a matching bundle. *)
Definition decision_reached (d : Db) (intent : IntentEnvelope) (proposal : ActionProposal)
    (out : EvaluateProposalResponse) : Prop :=
  let trust := derived_trust intent proposal in
  let static := pdp_evaluate (app_pdp app) intent proposal trust in
  let by_bundles otherwise :=
    (∃ bundles, sql_list_active (db_admin d) = (Ok bundles, db_admin d) ∧
       out = default otherwise (first_matching_bundle intent proposal trust bundles)) ∨
    (out = otherwise ∧ ∃ t, env_fault env t ≠ None) in
  match cfg_pdp_mode (app_config app) with
  | PM_Static => out = static
  | PM_Bundles => by_bundles default_allow
  | PM_Dual => by_bundles static
  end.

Lemma active_bundles_run intent proposal trust w :
  does env w (evaluate_active_policy_bundles intent proposal trust) (λ r w', w_db w' = w_db w ∧
    ((∃ bundles, sql_list_active (db_admin (w_db w)) = (Ok bundles, db_admin (w_db w)) ∧
        r = first_matching_bundle intent proposal trust bundles) ∨
     (r = None ∧ ∃ t, env_fault env t ≠ None))).
Proof.
  intros r w'. unfold evaluate_active_policy_bundles. rewrite run_call. destruct w as [d mem m l t].
  simpl exec_op. unfold exec_db. cbn [w_tick]. destruct (env_fault env t) as [[]|] eqn:Hf; cbn.
  - intros [= <- <-]. split; [done|]. right. split; [done|]. exists t. by rewrite Hf.
  - intros [= <- <-]. split; [unfold sql_admin; cbn; by destruct d|]. right. split; [done|]. exists t. by rewrite Hf.
  - intros [= <- <-]. split; [by destruct d|]. left. by eexists.
Qed.

Lemma decision_run intent proposal w :
  does env w (evaluate_proposal_decision app intent proposal (derived_trust intent proposal))
    (λ out w', w_db w' = w_db w ∧ decision_reached (w_db w) intent proposal out).
Proof.
  intros out w'. unfold evaluate_proposal_decision, decision_reached.
  destruct (cfg_pdp_mode _); [by intros [= <- <-]| |]; rewrite run_bind;
    destruct (run env (evaluate_active_policy_bundles _ _ _) w) as [r w1] eqn:Hr;
    apply active_bundles_run in Hr as [Hd Hr]; intros [= <- <-]; (split; [done|]);
    (destruct Hr as [(b & Hb & ->)|[-> Hf]]; [left; by eexists | by right]).
Qed.

Lemma intent_run proposal w :
  succeeds env w (intent_of_proposal proposal) (λ intent w', w_db w' = w_db w ∧
    (db_intents (w_db w) !! pr_intent_id proposal = Some intent ∨
     db_intents (w_db w) !! pr_intent_id proposal = None)).
Proof.
  intros intent w'. unfold intent_of_proposal. rewrite run_call.
  destruct (exec_op env (op_get_intent _) w) as [r w1] eqn:Hx. destruct r as [o|e]; [|by destruct w1].
  apply exec_db_ok in Hx. unfold sql_get in Hx. injection Hx as Ho Hd. destruct o as [i|].
  - cbn. intros [= <- <-]. split; [done | by left].
  - rewrite run_bind. unfold minimal_intent_for. rewrite run_now, run_uuid. cbn [run].
    intros [= <- <-]. rewrite !tick_db. split; [done | by right].
Qed.

Lemma inspect_run c p risk rollback w :
  does env w (inspect_proposal c p risk rollback) (λ _ w', w_db w' = w_db w).
Proof.
  intros r w'. unfold inspect_proposal. destruct (build_profiler c) as [pf|]; [|by intros [= _ <-]].
  destruct (is_target risk rollback); [|by intros [= _ <-]]. rewrite run_call.
  destruct w as [d mem m l t]. cbn -[record_target]. destruct (record_target _ _ _ _ _) as [f actors].
  by intros [= _ <-].
Qed.

Lemma report_run pid finding w :
  succeeds env w (report_anomaly app pid finding) (λ _ w', only_audit (w_db w) (w_db w')).
Proof.
  unfold report_anomaly. destruct finding as [f|].
  - step_pure. intros _ w1 <-. apply append_audit_checked_frame.
  - apply succeeds_ok. unfold only_audit. by destruct (w_db w).
Qed.

(** A hold of the proposal waits for a resolution. *)
Record hold_created (d d' : Db) (proposal : ActionProposal) : Prop := {
  hc_hold : ∃ hold, db_holds d' = <[qh_hold_id hold := hold]> (db_holds d) ∧
    db_holds d !! qh_hold_id hold = None ∧ qh_proposal_id hold = pr_proposal_id proposal ∧
    qh_state hold = QS_Pending ∧ qh_owner_actor_id hold = pr_owner_actor_id proposal;
  hc_events : ∃ ev, db_events d' = db_events d ++ [ev] ∧ ev_kind ev = PK_QuarantineHoldCreated;
  hc_rest : d' = set_holds (db_holds d') (set_edges (db_edges d') (set_events (db_events d') d));
}.

Lemma create_hold_run intent proposal out w :
  succeeds env w (create_quarantine_hold app intent proposal out)
    (λ _ w', hold_created (w_db w) (w_db w') proposal).
Proof.
  unfold create_quarantine_hold. step_pure. intros now w1 [_ Hd1]. step_pure. intros id w2 Hd2.
  rewrite <- Hd1, <- Hd2. clear w Hd1 Hd2. eapply succeeds_bind.
  { intros r w3 Hr. exact (Hr : run env (call (op_insert_hold _)) w2 = (r, w3)). }
  intros r w3 Hr. destruct r as [[]|e]; [|apply succeeds_err]. cbn [bind map_err].
  eapply (succeeds_db env w2 (op_insert_hold _) (insert_hold _) (λ _, eq_refl)) in Hr.
  unfold insert_hold in Hr. cbn [new_hold qh_hold_id qh_intent_id qh_proposal_id] in Hr.
  destruct (has id (db_holds (w_db w2))) eqn:Hn; [done|].
  destruct (negb _); [done|]. injection Hr as Hd3.
  step_pure. intros eid w4 Hd4. apply succeeds_map_err. eapply succeeds_mono; [|apply succeeds_append].
  intros _ w5 (ev' & [(md & edges & ->) Hevs Hrest _ _]). rewrite Hd4, <- Hd3 in *. unfold only_provenance in Hrest.
  split.
  - exists (new_hold id now (cfg_quarantine_timeout_seconds (app_config app)) intent proposal out).
    rewrite Hrest. split_and!; [by destruct (w_db w2) | | done..].
    cbn. unfold has in Hn. by destruct (db_holds (w_db w2) !! id).
  - rewrite Hevs. eexists. split; [by destruct (w_db w2) | done].
  - rewrite Hrest. by destruct (w_db w2).
Qed.

(** The governed tables an evaluation does not write. *)
Definition review_frame (d d' : Db) : Prop :=
  db_intents d' = db_intents d ∧ db_capabilities d' = db_capabilities d ∧
  db_executions d' = db_executions d ∧ db_contracts d' = db_contracts d ∧ db_outbox d' = db_outbox d.

(** The proposal was decided against its stored intent and stored with the intent's
    owner; the decision is on record, and a quarantine has its hold. *)
Record proposal_evaluated (proposal : ActionProposal) (out : EvaluateProposalResponse) (d d' : Db) : Prop := {
  pe_intent : ∃ intent, db_intents d !! pr_intent_id proposal = Some intent ∧
    decision_reached d intent proposal out ∧
    db_proposals d !! pr_proposal_id proposal = None ∧
    db_proposals d' = <[pr_proposal_id proposal := pr_set_owner (in_owner_actor_id intent) proposal]>
                        (db_proposals d);
  pe_event : ∃ ev, ev ∈ db_events d' ∧ ev_kind ev = PK_PolicyEvaluated ∧
    ev_intent_id ev = Some (pr_intent_id proposal) ∧ ev_proposal_id ev = Some (pr_proposal_id proposal) ∧
    decision_from_policy_event ev = Some (epr_decision out);
  pe_hold : if decide (epr_decision out = D_Quarantine) then
      ∃ hold, db_holds d' = <[qh_hold_id hold := hold]> (db_holds d) ∧
        db_holds d !! qh_hold_id hold = None ∧ qh_proposal_id hold = pr_proposal_id proposal ∧
        qh_state hold = QS_Pending
    else db_holds d' = db_holds d;
  pe_frame : review_frame d d' ∧ db_approvals d' = db_approvals d;
}.

Lemma set_owner_fields o p :
  pr_proposal_id (pr_set_owner o p) = pr_proposal_id p ∧ pr_intent_id (pr_set_owner o p) = pr_intent_id p.
Proof. by destruct p. Qed.

Lemma policy_metadata_decision dec finding :
  smap_get "decision" (policy_metadata dec finding) = Some (JStr (debug_decision dec)).
Proof. by destruct finding. Qed.

(** The end of the handler, after the proposal was stored. *)
Lemma evaluated_tail intent proposal out d w :
  db_intents d !! pr_intent_id proposal = Some intent → decision_reached d intent proposal out →
  db_proposals d !! pr_proposal_id proposal = None →
  only_audit (set_proposals (<[pr_proposal_id proposal := pr_set_owner (in_owner_actor_id intent) proposal]>
                               (db_proposals d)) d) (w_db w) →
  ∀ anomaly,
  succeeds env w
    (record_evaluation app intent (pr_set_owner (in_owner_actor_id intent) proposal) out anomaly)
    (λ out' w', out' = out ∧ proposal_evaluated proposal out d (w_db w')).
Proof.
  intros Hi Hdec Hnew Hw anomaly. destruct (set_owner_fields (in_owner_actor_id intent) proposal) as [Hpid Hiid].
  unfold record_evaluation. step_pure. intros eid w0 Hd0. step_pure. intros now wn [_ Hd2].
  rewrite <- Hd0, <- Hd2 in Hw. clear Hd0 Hd2.
  eapply succeeds_try; [apply succeeds_checked, succeeds_append|].
  intros _ w1 (ev & [(md & edges & ->) Hevs Hrest _ Hmd]). unfold only_audit, only_provenance in *.
  clear w. eapply (succeeds_try env w1 _ _ (λ _ w2,
    if decide (epr_decision out = D_Quarantine)
    then hold_created (w_db w1) (w_db w2) (pr_set_owner (in_owner_actor_id intent) proposal)
    else w_db w2 = w_db w1)).
  { apply succeeds_guarded. destruct (decide _) as [Hq|Hq].
    - rewrite bool_decide_eq_true_2 by done. apply create_hold_run.
    - rewrite bool_decide_eq_false_2 by done. by apply succeeds_ok. }
  intros _ w2 Hhold. apply succeeds_governance_ok. intros w3 ->. split; [done|].
  assert (∃ ev, ev ∈ db_events (w_db w1) ∧ ev_kind ev = PK_PolicyEvaluated ∧
    ev_intent_id ev = Some (pr_intent_id proposal) ∧ ev_proposal_id ev = Some (pr_proposal_id proposal) ∧
    decision_from_policy_event ev = Some (epr_decision out)) as (ev & Hin & Hev).
  { rewrite Hevs. eexists. split; [apply elem_of_app; right; by left|].
    cbn [ev_with ev_kind ev_intent_id ev_proposal_id policy_event governed_event]. rewrite Hpid, Hiid.
    split_and!; [done..|]. apply decision_of_debug. rewrite Hmd by done. apply policy_metadata_decision. }
  rewrite Hw in Hrest. clear Hw Hevs Hmd. destruct (decide (epr_decision out = D_Quarantine)) as [Hq|Hq].
  - destruct Hhold as [(hold & Hh1 & Hh2 & Hh3 & Hh4 & _) (ev2 & Hev2 & _) Hrest2].
    rewrite Hrest in Hrest2, Hh1, Hh2. split.
    + exists intent. rewrite Hrest2. by destruct d.
    + exists ev. split; [rewrite Hev2; apply elem_of_app; by left | done].
    + rewrite decide_True by done. exists hold. rewrite Hpid in Hh3. rewrite Hh1. by destruct d.
    + rewrite Hrest2. by destruct d.
  - split.
    + exists intent. rewrite Hhold, Hrest. by destruct d.
    + exists ev. by rewrite Hhold.
    + rewrite decide_False by done. rewrite Hhold, Hrest. by destruct d.
    + rewrite Hhold, Hrest. by destruct d.
Qed.

(** C19: an evaluation that returns a decision has found the proposal's intent in the
    store and decided by the configured mode on the trust context derived from both;
    the proposal is now stored under the intent's owner, the decision is on record as
    the proposal's policy evaluation, and a quarantined proposal (and no other) has a
    new pending hold; intents, capabilities, executions, contracts, approvals and the
    outbox are as before. *)
Theorem evaluate_proposal_sound proposal w out w' :
  run env (evaluate_proposal app proposal) w = (Ok out, w') →
  proposal_evaluated proposal out (w_db w) (w_db w').
Proof.
  assert (succeeds env w (evaluate_proposal app proposal)
    (λ out w', proposal_evaluated proposal out (w_db w) (w_db w'))) as H; [|apply H].
  unfold evaluate_proposal. eapply succeeds_try; [apply intent_run|]. intros intent w1 [Hd1 Hint].
  eapply succeeds_bind; [apply decision_run|]. rewrite Hd1. intros o w2 [Hd2 Hdec].
  destruct (set_owner_fields (in_owner_actor_id intent) proposal) as [Hpid Hiid].
  eapply succeeds_try; [apply succeeds_checked,
    (succeeds_db env w2 (op_insert_proposal _) (insert_proposal _) (λ _, eq_refl))|].
  intros [] w3 Hins. unfold insert_proposal in Hins. rewrite Hpid, Hiid, Hd2 in Hins.
  destruct (has (pr_proposal_id proposal) _) eqn:Hnew; [done|].
  destruct (has (pr_intent_id proposal) _) eqn:Hhas; [|done]. injection Hins as Hd3.
  unfold has in Hnew, Hhas.
  eapply succeeds_bind; [apply inspect_run|]. intros anomaly w4 Hd4.
  eapply succeeds_try; [apply succeeds_guarded, report_run|]. cbn beta. intros u5 w5 Hd5.
  eapply succeeds_mono; [|eapply (evaluated_tail _ _ _ (w_db w))].
  - intros o' w8 [-> Hp]. exact Hp.
  - destruct Hint as [Hint|Hint]; [done|]. by rewrite Hint in Hhas.
  - done.
  - by destruct (db_proposals (w_db w) !! _).
  - rewrite Hd4, <- Hd3 in Hd5. exact Hd5.
Qed.
End evaluate.

(** ** Resolving what waits for a decision *)

Section resolve.
Context (app : App) (env : Env).

(** The check of the second factor went well, from [w] to [w1]. *)
Definition factor_passed (factor : option MfaFactor) (actor_id : string) (w w1 : World) : Prop :=
  if cfg_approval_mfa_required (app_config app) then
    ∃ f counter, factor = Some f ∧ second_factor_used app env f actor_id counter w w1
  else w1 = w.

Lemma factor_passed_admin factor actor_id w w1 : factor_passed factor actor_id w w1 → only_admin (w_db w) (w_db w1).
Proof.
  unfold factor_passed. destruct (cfg_approval_mfa_required _).
  - intros (f & c & _ & []). done.
  - intros ->. unfold only_admin. by destruct (w_db w).
Qed.

(** The check was part of a run that ended in [w'], and nothing of the administrative
    tables changed after it. *)
Definition factor_passed_before (factor : option MfaFactor) (actor_id : string) (w w' : World) : Prop :=
  ∃ w1, factor_passed factor actor_id w w1 ∧ w_tick w ≤ w_tick w1 ≤ w_tick w' ∧ db_admin (w_db w') = db_admin (w_db w1).

Lemma second_factor_run (check : prog (result unit ApiProblem)) factor actor_id w :
  succeeds env w check
    (λ _ w', ∃ f counter, factor = Some f ∧ second_factor_used app env f actor_id counter w w') →
  succeeds env w (second_factor app check) (λ _ w', factor_passed factor actor_id w w').
Proof.
  intros H. unfold second_factor, factor_passed. destruct (cfg_approval_mfa_required _); [done|].
  by apply succeeds_ok.
Qed.

Lemma resolve_hold_run id allow actor reason at_ w :
  succeeds env w (resolve_hold id allow actor reason at_) (λ won w', won = true →
    ∃ h, db_holds (w_db w) !! id = Some h ∧ qh_state h = QS_Pending ∧
      w_db w' = set_holds (<[id := resolved_hold allow actor reason at_ h]> (db_holds (w_db w))) (w_db w)).
Proof.
  unfold resolve_hold. eapply succeeds_try; [apply (succeeds_db env w (op_get_hold id) (sql_get db_holds id) (λ _, eq_refl))|].
  intros o w1 Ho. unfold sql_get in Ho. injection Ho as Hl Hd. destruct o as [h|]; [|by apply succeeds_ok].
  case_bool_decide as Hp; cbn [negb]; [|by apply succeeds_ok].
  eapply succeeds_mono; [|apply (succeeds_db env w1 (op_update_pending_hold _ id) (sql_update_pending_hold _ id) (λ _, eq_refl))].
  intros won w2 Hu ->. rewrite <- Hd in Hu. unfold sql_update_pending_hold in Hu. rewrite Hl in Hu.
  rewrite decide_True in Hu by done. injection Hu as Hu. by exists h.
Qed.

Lemma resolve_approval_run id state now w :
  succeeds env w (resolve_approval id state now) (λ won w', won = true →
    ∃ a, db_approvals (w_db w) !! id = Some a ∧ ap_state a = AS_Pending ∧ (now < ap_expires_at a)%Z ∧
      w_db w' = set_approvals (<[id := ap_set_resolver_evidence_version (Some CURRENT_RESOLVER_EVIDENCE_VERSION)
                                         (ap_set_state state a)]> (db_approvals (w_db w))) (w_db w)).
Proof.
  unfold resolve_approval. eapply succeeds_try; [apply (succeeds_db env w (op_get_approval id) (sql_get db_approvals id) (λ _, eq_refl))|].
  intros o w1 Ho. unfold sql_get in Ho. injection Ho as Hl Hd. destruct o as [a|]; [|by apply succeeds_ok].
  assert (succeeds env w1 (call (op_resolve_approval (ap_set_resolver_evidence_version
    (Some CURRENT_RESOLVER_EVIDENCE_VERSION) (ap_set_state state a)) id now)) (λ won w', won = true →
    ∃ a, db_approvals (w_db w) !! id = Some a ∧ ap_state a = AS_Pending ∧ (now < ap_expires_at a)%Z ∧
      w_db w' = set_approvals (<[id := ap_set_resolver_evidence_version (Some CURRENT_RESOLVER_EVIDENCE_VERSION)
                                         (ap_set_state state a)]> (db_approvals (w_db w))) (w_db w))) as Hcall.
  { eapply succeeds_mono; [|apply (succeeds_db env w1 (op_resolve_approval _ id now) (sql_resolve_approval _ id now) (λ _, eq_refl))].
    intros won w2 Hu ->. rewrite <- Hd in Hu. unfold sql_resolve_approval in Hu. rewrite Hl in Hu.
    case_bool_decide; [|done]. destruct (Z.ltb_spec now (ap_expires_at a)); [|done]. cbn in Hu.
    injection Hu as Hu. exists a. split_and!; congruence. }
  destruct state; try apply succeeds_err; (case_bool_decide; cbn [negb]; [exact Hcall | by apply succeeds_ok]).
Qed.

(** Who resolves: the authenticated actor when there is one, and the body then names
    nobody or that actor; the actor the body names when the request is not bound to one. *)
Definition resolver_of (auth : option AuthActor) (body resolver : ActorRef) : Prop :=
  match auth with
  | Some a => ar_actor_id resolver = aa_actor_id a ∧ ar_display_name resolver = None ∧
      (ar_actor_type resolver = AT_Agent ↔ aa_source a = "agent") ∧
      (ar_actor_id body = "" ∨ ar_actor_id body = aa_actor_id a)
  | None => resolver = body
  end.

Lemma effective_resolver auth body : actor_matches auth body = Ok tt → resolver_of auth body (effective_actor auth body).
Proof.
  unfold actor_matches, resolver_of, effective_actor. destruct auth as [a|]; [|done].
  destruct (ar_actor_id body) as [|c s] eqn:Hb; cbn [str_is_empty negb andb].
  - intros _. split_and!; [done | done | | by left]. cbn. destruct (String.eqb_spec (aa_source a) "agent"); by split.
  - destruct (String.eqb_spec (String c s) (aa_actor_id a)) as [<-|]; [|done].
    intros _. split_and!; [done | done | | by right]. cbn. destruct (String.eqb_spec (aa_source a) "agent"); by split.
Qed.

(** The decision as the hold carries it; the rest of the hold is as it was. *)
Record hold_decided (request : QuarantineResolveRequest) (resolver : ActorRef) (now : Timestamp)
    (h hold' : QuarantineHold) : Prop := {
  hd_state : qh_state hold' = if qr_allow request then QS_Allowed else QS_Denied;
  hd_resolver : qh_resolved_by hold' = Some resolver;
  hd_reason : qh_resolution_reason hold' = qr_reason request;
  hd_time : qh_resolved_at hold' = Some now;
  hd_ids : qh_hold_id hold' = qh_hold_id h ∧ qh_intent_id hold' = qh_intent_id h ∧
    qh_proposal_id hold' = qh_proposal_id h ∧ qh_owner_actor_id hold' = qh_owner_actor_id h;
  hd_rest : qh_reason hold' = qh_reason h ∧ qh_matched_rule_ids hold' = qh_matched_rule_ids h ∧
    qh_policy_bundle_id hold' = qh_policy_bundle_id h ∧ qh_expires_at hold' = qh_expires_at h ∧
    qh_created_at hold' = qh_created_at h ∧ qh_metadata hold' = qh_metadata h;
}.

(** The hold with identifier [id] was resolved by [resolver]. *)
Record hold_resolution (auth : option AuthActor) (id : string) (request : QuarantineResolveRequest)
    (resolver : ActorRef) (hold' : QuarantineHold) (w w' : World) : Prop := {
  hr_resolver : resolver_of auth (qr_actor request) resolver;
  hr_factor : factor_passed_before (qr_mfa_factor request) (ar_actor_id resolver) w w';
  hr_hold : ∃ h, db_holds (w_db w) !! id = Some h ∧ qh_state h = QS_Pending ∧
    at_some_time env w w' (λ now, now ≤ qh_expires_at h)%Z ∧
    at_some_time env w w' (λ now, hold_decided request resolver now h hold') ∧
    db_holds (w_db w') = <[id := hold']> (db_holds (w_db w));
  hr_event : ∃ ev, db_events (w_db w') = db_events (w_db w) ++ [ev] ∧ ev_kind ev = PK_QuarantineResolved ∧
    ev_proposal_id ev = Some (qh_proposal_id hold') ∧ ev_actor ev = resolver;
  hr_frame : review_frame (w_db w) (w_db w') ∧ db_proposals (w_db w') = db_proposals (w_db w) ∧
    db_approvals (w_db w') = db_approvals (w_db w);
}.

(** The end of a successful resolution: audit, reload, event. *)
Lemma hold_tail auth id request h h' w0 w1 w :
  let resolver := effective_actor auth (qr_actor request) in
  db_holds (w_db w0) !! id = Some h → qh_state h = QS_Pending →
  at_some_time env w0 w (λ now, now ≤ qh_expires_at h)%Z →
  at_some_time env w0 w (λ now, h' = resolved_hold (qr_allow request) resolver (qr_reason request) now h) →
  actor_matches auth (qr_actor request) = Ok tt →
  factor_passed (qr_mfa_factor request) (ar_actor_id resolver) w0 w1 → w_tick w0 ≤ w_tick w1 ≤ w_tick w →
  w_db w = set_holds (<[id := h']> (db_holds (w_db w0))) (w_db w1) →
  succeeds env w (record_hold_resolution app id resolver request h)
    (λ hold' w', w_tick w ≤ w_tick w' → hold_resolution auth id request resolver hold' w0 w').
Proof.
  intros resolver Hh Hp Hexp Hres Hact Hfac Ht Hw. unfold record_hold_resolution.
  eapply succeeds_try; [apply succeeds_guarded, append_audit_checked_frame|]. cbn beta.
  intros u1 w2 Hd1. eapply succeeds_try; [by apply (succeeds_fetch env w2 _ (op_get_hold id) db_holds id)|].
  cbn beta. intros hold w3 [Hd2 Hget]. unfold only_audit in Hd1.
  assert (hold = h') as ->.
  { rewrite Hd1, Hw in Hget. destruct (w_db w1); cbn in *. rewrite lookup_insert_eq in Hget. congruence. }
  step_pure. intros eid w4 Hd3. step_pure. intros now w5 [_ Hd4].
  eapply succeeds_try; [apply succeeds_checked, succeeds_append|]. cbn beta.
  intros u5 w6 (ev & [(md & edges & ->) Hevs Hrest _ _]). apply succeeds_governance_ok. intros w7 Hd7 Hend.
  unfold only_provenance in Hrest. rewrite Hd4, Hd3, Hd2, Hd1, Hw in Hrest, Hevs. rewrite <- Hd7 in Hrest, Hevs.
  pose proof (factor_passed_admin _ _ _ _ Hfac) as Ha. unfold only_admin in Ha. split.
  - by apply effective_resolver.
  - exists w1. split; [done|]. split; [lia|]. rewrite Hrest. by destruct (w_db w1).
  - exists h. split_and!; [done..| by eapply at_some_time_wider | |].
    + destruct Hres as (t & Htt & ->). exists t. split; [lia | done].
    + rewrite Hrest. by destruct (w_db w1).
  - eexists. split; [rewrite Hevs, Ha; by destruct (w_db w0)|]. by destruct Hres as (t & _ & ->).
  - rewrite Hrest, Ha. by destruct (w_db w0).
Qed.

(** C20: a hold is resolved only while it is pending and, at a reading of the clock during
    the request, not past its expiry, and with a second factor of the resolver where the
    configuration asks for one. When the request is authenticated as an actor, that actor
    is the resolver and a body that names somebody else is refused; when it is not bound to
    an actor (bearer or disabled authentication) the resolver is whoever the body names. The
    hold then carries the decision, the resolver, the reason and the time and is otherwise
    as it was; one event is added, the resolution under the resolver's name; and no
    proposal, approval, capability, execution, contract or outbox record changed. *)
Theorem resolve_quarantine_hold_sound auth hold_id request w hold' w' :
  run env (resolve_quarantine_hold app auth hold_id request) w = (Ok hold', w') →
  ∃ id resolver, parse_hold_id (app_ext app) hold_id = Ok id ∧
    hold_resolution auth id request resolver hold' w w'.
Proof.
  assert (succeeds env w (resolve_quarantine_hold app auth hold_id request) (λ hold' w',
    ∃ id resolver, parse_hold_id (app_ext app) hold_id = Ok id ∧
      hold_resolution auth id request resolver hold' w w')) as H; [|apply H].
  unfold resolve_quarantine_hold. eapply succeeds_try; [apply succeeds_require|]. intros id w0 [Hid ->].
  eapply succeeds_try; [apply succeeds_require|]. intros [] w0 [Hact ->].
  eapply succeeds_try; [apply succeeds_ticks, succeeds_guarded, second_factor_run, verify_mfa_factor_run|]. cbn beta.
  intros u1 w1 [Hfac Ht1]. pose proof (factor_passed_admin _ _ _ _ Hfac) as Ha. unfold only_admin in Ha.
  eapply succeeds_try; [apply succeeds_ticks; by apply (succeeds_fetch env w1 _ (op_get_hold id) db_holds id)|].
  intros h w2 [[Hd2 Hget] Ht2]. case_bool_decide as Hp; cbn [negb]; [|apply succeeds_governance_err].
  intros x v. rewrite run_now. destruct (Z.ltb_spec (qh_expires_at h) (env_clock env (w_tick w2)));
    [intros Hr; by eapply succeeds_governance_err|]. rewrite run_now. revert x v.
  set (w4 := tick (tick w2)).
  assert (w_db w4 = w_db w1 ∧ w_tick w4 = S (S (w_tick w2)) ∧ w_tick (tick w2) = S (w_tick w2)) as (Hd4 & Ht4 & Ht3).
  { subst w4. rewrite !tick_db. by destruct w2. }
  eapply succeeds_try; [apply succeeds_ticks, succeeds_checked, resolve_hold_run|].
  cbn beta. intros won w5 [Hwon Ht5]. destruct won; [|apply succeeds_governance_err]. cbn [negb].
  destruct (Hwon eq_refl) as (h0 & Hh0 & _ & Hd5). rewrite Hd4 in *. assert (h0 = h) as -> by congruence.
  assert (db_holds (w_db w1) = db_holds (w_db w)) as Hholds by (rewrite Ha; by destruct (w_db w)).
  rewrite Hholds in *. intros hold'' w6 Hr. eexists id, _. split; [done|].
  eapply (hold_tail auth id request h _ w w1 w5); try done; [| |lia|by eapply run_tick].
  - exists (w_tick w2). split; [lia | done].
  - exists (w_tick (tick w2)). split; [lia | done].
Qed.

(** The approval with identifier [id] was resolved. *)
Record approval_resolution (auth : option AuthActor) (id : ApprovalId) (request : ApprovalResolveRequest)
    (approval' : ApprovalRequest) (w w' : World) : Prop := {
  ar_actor_ok : actor_matches auth (arq_actor request) = Ok tt;
  ar_factor : factor_passed_before (arq_mfa_factor request) (effective_actor_id auth (arq_actor request)) w w';
  ar_approval : ∃ a, db_approvals (w_db w) !! id = Some a ∧ ap_state a = AS_Pending ∧
    at_some_time env w w' (λ now, now < ap_expires_at a)%Z ∧
    approval' = ap_set_resolver_evidence_version (Some CURRENT_RESOLVER_EVIDENCE_VERSION)
                  (ap_set_state (if arq_approve request then AS_Granted else AS_Denied) a) ∧
    db_approvals (w_db w') = <[id := approval']> (db_approvals (w_db w));
  ar_event : ∃ eid t, db_events (w_db w') =
    db_events (w_db w) ++ [resolution_event eid t id auth request approval'];
  ar_frame : review_frame (w_db w) (w_db w') ∧ db_proposals (w_db w') = db_proposals (w_db w) ∧
    db_holds (w_db w') = db_holds (w_db w);
}.

Lemma resolution_event_same eid t id auth request v s a :
  resolution_event eid t id auth request (ap_set_resolver_evidence_version v (ap_set_state s a))
  = resolution_event eid t id auth request a.
Proof. by destruct a. Qed.

Lemma approval_tail auth id request a a' w0 w1 w :
  db_approvals (w_db w0) !! id = Some a → ap_state a = AS_Pending →
  at_some_time env w0 w (λ now, now < ap_expires_at a)%Z →
  a' = ap_set_resolver_evidence_version (Some CURRENT_RESOLVER_EVIDENCE_VERSION)
         (ap_set_state (if arq_approve request then AS_Granted else AS_Denied) a) →
  actor_matches auth (arq_actor request) = Ok tt →
  factor_passed (arq_mfa_factor request) (effective_actor_id auth (arq_actor request)) w0 w1 →
  w_tick w0 ≤ w_tick w1 ≤ w_tick w → w_db w = set_approvals (<[id := a']> (db_approvals (w_db w0))) (w_db w1) →
  succeeds env w (record_approval_resolution app id auth request a)
    (λ approval' w', w_tick w ≤ w_tick w' → approval_resolution auth id request approval' w0 w').
Proof.
  intros Hh Hp Hexp Heq Hact Hfac Ht Hw. unfold record_approval_resolution.
  eapply succeeds_try; [apply succeeds_guarded, append_audit_checked_frame|]. cbn beta.
  intros u1 w2 Hd1. eapply succeeds_try; [by apply (succeeds_fetch env w2 _ (op_get_approval id) db_approvals id)|].
  cbn beta. intros hold w3 [Hd2 Hget]. unfold only_audit in Hd1.
  assert (hold = a') as ->.
  { rewrite Hd1, Hw in Hget. destruct (w_db w1); cbn in *. rewrite lookup_insert_eq in Hget. congruence. }
  step_pure. intros eid w4 Hd3. step_pure. intros now w5 [_ Hd4].
  eapply succeeds_try; [apply succeeds_checked,
    (succeeds_db env w5 (op_append_event _ []) (append_event_with_edges _ []) (λ _, eq_refl))|]. cbn beta.
  intros u5 w6 Happ. apply succeeds_governance_ok. intros w7 Hd7 Hend.
  apply append_event_ok in Happ as (Hrest & Hevs & _).
  unfold only_provenance in Hrest. rewrite Hd4, Hd3, Hd2, Hd1, Hw in Hrest, Hevs. rewrite <- Hd7 in Hrest, Hevs.
  pose proof (factor_passed_admin _ _ _ _ Hfac) as Ha. unfold only_admin in Ha. split.
  - done.
  - exists w1. split; [done|]. split; [lia|]. rewrite Hrest. by destruct (w_db w1).
  - exists a. split_and!; [done..| by eapply at_some_time_wider | done |]. rewrite Hrest. by destruct (w_db w1).
  - exists eid, now. rewrite Hevs, Heq, resolution_event_same, Ha. by destruct (w_db w0).
  - rewrite Hrest, Ha. by destruct (w_db w0).
Qed.

Lemma resolve_approval_handler_run auth approval_id request w :
  succeeds env w (resolve_approval_handler app auth approval_id request) (λ approval' w',
    ∃ id, parse_approval_id (app_ext app) approval_id = Ok id ∧
      approval_resolution auth id request approval' w w').
Proof.
  unfold resolve_approval_handler. eapply succeeds_try; [apply succeeds_require|]. intros id w0 [Hid ->].
  eapply succeeds_try; [apply succeeds_require|]. intros [] w0 [Hact ->].
  eapply succeeds_try; [apply succeeds_ticks, succeeds_guarded, second_factor_run, verify_approval_mfa_run|]. cbn beta.
  intros u1 w1 [Hfac Ht1]. pose proof (factor_passed_admin _ _ _ _ Hfac) as Ha. unfold only_admin in Ha.
  eapply succeeds_try; [apply succeeds_ticks; by apply (succeeds_fetch env w1 _ (op_get_approval id) db_approvals id)|].
  intros a w2 [[Hd2 Hget] Ht2]. case_bool_decide as Hp; cbn [negb]; [|apply succeeds_governance_err].
  intros a' w'. rewrite run_now. destruct (ap_expires_at a <? env_clock env (w_tick w2))%Z;
    [intros Hr; by eapply succeeds_governance_err|]. revert a' w'.
  assert (w_db (tick w2) = w_db w1 ∧ w_tick (tick w2) = S (w_tick w2)) as [Hd3 Ht3].
  { rewrite tick_db. by destruct w2. }
  eapply succeeds_try; [apply succeeds_ticks, succeeds_checked, resolve_approval_run|].
  cbn beta. intros won w5 [Hwon Ht5]. destruct won; [|apply succeeds_governance_err]. cbn [negb].
  destruct (Hwon eq_refl) as (a0 & Ha0 & _ & Hlt & Hd5). rewrite Hd3 in *. assert (a0 = a) as -> by congruence.
  assert (db_approvals (w_db w1) = db_approvals (w_db w)) as Happ by (rewrite Ha; by destruct (w_db w)).
  rewrite Happ in *. intros a'' w6 Hr. exists id. split; [done|].
  eapply (approval_tail auth id request a _ w w1 w5); try done; [|lia|by eapply run_tick].
  exists (w_tick w2). split; [lia | done].
Qed.
End resolve.

(** ** The evidence of a grant and the role test of a binding *)

(** The grant events [validate_approval_binding_digest] loads for an approval. *)
Definition grant_query (a : ApprovalRequest) : ProvenanceQueryRequest :=
  {| pq_intent_id := Some (ap_intent_id a); pq_execution_id := ap_execution_id a;
     pq_capability_id := None; pq_event_kind := Some PK_ApprovalGranted; pq_since := None;
     pq_until := None; pq_edge_types := [] |}.

(** The events it then tests the roles of [b] against. *)
Definition grant_evidence (b : ApprovalBinding) (a : ApprovalRequest) (d : Db) : list ProvenanceEvent :=
  filter (λ e, relevant_event b a e)
    (filter (λ e, query_matches d (grant_query a) e) (by_occurred_at (db_events d))).

Lemma grant_evidence_elem b a d e :
  e ∈ grant_evidence b a d ↔
  e ∈ db_events d ∧ query_matches d (grant_query a) e = true ∧ relevant_event b a e = true.
Proof.
  unfold grant_evidence, by_occurred_at. rewrite !list_elem_of_filter, !Is_true_true, sort_desc_perm. tauto.
Qed.

Lemma role_test_evidence b a d :
  ap_resolver_evidence_version a ≠ None →
  approved_by_allowed_role b a (grant_evidence b a d) = true ↔
  ∃ e, e ∈ grant_evidence b a d ∧ authenticated_evidence b e = true.
Proof.
  intros Hv. unfold approved_by_allowed_role. destruct (ap_resolver_evidence_version a); [|done]. cbn [orb].
  rewrite existsb_exists. by setoid_rewrite list_elem_of_In.
Qed.

(** Who may grant for a binding. *)
Definition role_allowed (b : ApprovalBinding) (auth : option AuthActor) : Prop :=
  ∃ a role, auth = Some a ∧ aa_role a = Some role ∧ role_name role ∈ ab_approver_roles b.

Lemma resolution_metadata_get k eid t id auth request a :
  k ≠ "reason" → k ≠ "actor_id" → k ≠ "approval_id" →
  smap_get k (ev_metadata (resolution_event eid t id auth request a)) =
  smap_get k (resolver_evidence auth (arq_actor request) []).
Proof.
  intros. cbn [resolution_event ev_metadata]. unfold with_reason, resolver_evidence.
  destruct (arq_reason request), auth as [act|]; try destruct (aa_role act);
    rewrite !index_insert_get; repeat case_decide; congruence.
Qed.

Lemma resolution_evidence b eid t id auth request a :
  authenticated_evidence b (resolution_event eid t id auth request a) = true ↔ role_allowed b auth.
Proof.
  unfold authenticated_evidence, role_matches, meta_str, role_allowed.
  rewrite !resolution_metadata_get by done. unfold resolver_evidence. destruct auth as [act|].
  - destruct (aa_role act) as [role|] eqn:Hr; simpl.
    + rewrite existsb_exists. split.
      * intros (x & Hin & ->%String.eqb_eq). exists act, role. by rewrite list_elem_of_In.
      * intros (? & ? & [= <-] & Hr' & Hin). rewrite Hr in Hr'. injection Hr' as <-.
        eexists. rewrite <- list_elem_of_In. split; [done | by apply String.eqb_eq].
    + split; [done|]. intros (? & ? & [= <-] & Hr' & _). congruence.
  - simpl. split; [done|]. by intros (? & ? & ? & _).
Qed.

Lemma resolution_event_granted eid t id auth request a b d :
  arq_approve request = true → ab_approval_id b = id →
  query_matches d (grant_query a) (resolution_event eid t id auth request a) = true ∧
  relevant_event b a (resolution_event eid t id auth request a) = true.
Proof.
  intros Hap Hb. split.
  - unfold query_matches. cbn. rewrite Hap, !bool_decide_eq_true_2 by done. cbn.
    destruct (ap_execution_id a); [|done]. by rewrite bool_decide_eq_true_2.
  - unfold relevant_event. cbn [resolution_event ev_proposal_id ev_object or_object_id].
    rewrite bool_decide_eq_true_2, <- Hb, String.eqb_refl by done. by rewrite orb_true_r.
Qed.

(** C21: an approval is resolved only while it is pending and, at a reading of the clock
    during the request, unexpired, with a second factor where the configuration asks for
    one, and, when the request is authenticated as an actor, by that actor (a body that
    names somebody else is refused; without one the body's actor is taken); it is then
    granted or denied as requested with resolver evidence on record, and a grant meets
    the approver roles of a binding to it exactly if the resolver was authenticated with
    one of those roles (or earlier authenticated evidence of such a role exists): a
    resolver known only from the request body never does. *)
Theorem resolve_approval_sound app env auth approval_id request w approval' w' :
  run env (resolve_approval_handler app auth approval_id request) w = (Ok approval', w') →
  ∃ id, parse_approval_id (app_ext app) approval_id = Ok id ∧
    approval_resolution app env auth id request approval' w w' ∧
    ∀ b, arq_approve request = true → ab_approval_id b = id →
      (approved_by_allowed_role b approval' (grant_evidence b approval' (w_db w')) = true ↔
       role_allowed b auth ∨
       ∃ e, e ∈ grant_evidence b approval' (w_db w) ∧ authenticated_evidence b e = true).
Proof.
  intros (id & Hid & Hres)%resolve_approval_handler_run. exists id. split; [done|]. split; [done|].
  intros b Hap Hb. destruct Hres as [_ _ (a & _ & _ & _ & Ha' & _) (eid & t' & Hevs) _].
  rewrite role_test_evidence by (rewrite Ha'; by destruct a).
  setoid_rewrite grant_evidence_elem. rewrite Hevs.
  destruct (resolution_event_granted eid t' id auth request approval' b (w_db w') Hap Hb) as [Hq Hr].
  split.
  - intros (e & ([He|He%list_elem_of_singleton]%elem_of_app & Hq' & Hr') & Hau).
    + right. by exists e.
    + subst e. left. by apply resolution_evidence in Hau.
  - intros [Hrole|(e & (He & Hq' & Hr') & Hau)].
    + eexists. split; [|by apply resolution_evidence]. split; [apply elem_of_app; right; by left | done].
    + exists e. split; [|done]. split; [apply elem_of_app; by left | done].
Qed.

(** * What an operator's decision does to the outbox

    A successful resolve closes exactly the record it names, whatever state the record was
    in and whoever held its lease; a retry always has a report to give. *)


Section outbox_spec.
Context (env : Env) (app : App) (record_json : LifecycleOutboxRecord → json) (time_json : Timestamp → json).

(** The row after the decision: the decided record, its lease taken away. *)
Definition decided_row (status : LifecycleOutboxStatus) (key time_key actor : string) (reason : option string)
    (now : Timestamp) (row : OutboxRow) : OutboxRow :=
  mkOutboxRow (ob_decided time_json status key time_key actor reason now (row_record row)) None None
    (row_lease_generation row).

Lemma ob_decided_id status key time_key actor reason now r :
  ob_outbox_id (ob_decided time_json status key time_key actor reason now r) = ob_outbox_id r.
Proof. by destruct r. Qed.

Lemma operator_decision_sound w status key time_key id actor reason :
  outbox_keyed (w_db w) →
  succeeds env w (operator_decision time_json status key time_key id actor reason) (λ r w',
    (r = None ∧ db_outbox (w_db w) !! id = None ∧ w_db w' = w_db w) ∨
    ∃ row now, db_outbox (w_db w) !! id = Some row ∧
      r = Some (row_record (decided_row status key time_key actor reason now row)) ∧
      w_db w' = set_outbox (<[id := decided_row status key time_key actor reason now row]> (db_outbox (w_db w))) (w_db w)).
Proof.
  intros Hkeyed. unfold operator_decision.
  eapply succeeds_try; [by eapply (succeeds_db env w _ (sql_get db_outbox id))|]. intros o w1 H1.
  unfold sql_get in H1. injection H1 as Ho Hd1. destruct o as [row|]; [|apply succeeds_ok; left; by rewrite <- Hd1].
  step_pure. intros now w2 [_ Hd2]. cbn zeta.
  eapply succeeds_try; [by eapply (succeeds_db env w2 _ (update_outbox_record _ true true))|]. intros updated w3 H3.
  rewrite Hd2, <- Hd1 in H3. unfold update_outbox_record in H3. rewrite ob_decided_id, (Hkeyed _ _ Ho), Ho in H3.
  cbn [orb] in H3. destruct (negb _); [done|]. injection H3 as <- Hd3. cbn [require_updated].
  apply succeeds_ok. right. exists row, now. by rewrite <- Hd3.
Qed.

(** A resolve that succeeds gave a reason and found the record; the record is then
    Reconciled with the actor, the reason and the time as its mark and its lease is gone,
    and nothing else of the database but the audit log changes. *)
Theorem resolve_lifecycle_outbox_sound w id req v w' :
  outbox_keyed (w_db w) →
  run env (resolve_lifecycle_outbox app record_json time_json id req) w = (Ok v, w') →
  str_trim_is_empty (rsr_reason req) = false ∧
  ∃ row now, db_outbox (w_db w) !! id = Some row ∧
    let row' := decided_row LO_Reconciled "operator_resolved" "resolved_at" (rsr_actor_id req) (Some (rsr_reason req)) now row in
    v = sanitize_json app (JObj [("record", record_json (row_record row'))]) ∧
    only_audit (set_outbox (<[id := row']> (db_outbox (w_db w))) (w_db w)) (w_db w').
Proof.
  intros Hkeyed. revert v w'. unfold resolve_lifecycle_outbox.
  destruct (str_trim_is_empty _); [intros v w' [=]|].
  match goal with |- ∀ v w', run env ?p w = _ → ?P ∧ @?Q v w' =>
    enough (succeeds env w p Q) as H by (intros v w' Hr; split; [done|by apply H]) end.
  intros v w'. rewrite run_bind. unfold mark_operator_resolved.
  destruct (run env (operator_decision _ _ _ _ _ _ _) w) as [[[record|]|e] w1] eqn:Hr; [|by cbn..].
  destruct (operator_decision_sound w _ _ _ _ _ _ Hkeyed _ _ Hr) as [[? _]|(row & now & Hrow & [= ->] & Hd1)]; [done|].
  revert v w'. apply (succeeds_try env w1 _ _ _ _ (append_audit_checked_frame env app _ _ _ _ _ _ w1)).
  intros _ w2 Ha. apply succeeds_ok. exists row, now. by rewrite <- Hd1.
Qed.

(** The report of a retry is never missing. *)
Theorem retry_report_given budget pid w :
  report_json (run env (retry_reconciliation budget pid) w).1 ≠ JNull.
Proof.
  unfold retry_reconciliation. rewrite run_bind. destruct (run env (call op_uuid) w) as [id w1].
  unfold reconcile_lifecycle_outbox, reconcile_lifecycle_outbox_with_lease.
  pose proof (returns_run finished _ env w1
    (reconcile_loop_returns 1000 ("lifecycle-reconciler:" +:+ pid +:+ ":" +:+ id) (seconds DEFAULT_RECONCILIATION_LEASE_TTL_SECS)
       budget 1000 [] (mkReport 0 0 0 0 0 0 0 0) (le_n _) eq_refl)) as H.
  destruct (run _ _ w1) as [[[report|]|e] w2]; cbn in *; done.
Qed.
End outbox_spec.
