(* ===== verification/Paging.v ===== *)
(** * Listing and expiring what waits for a decision

    Keyset pagination of the pending approvals agrees with offset pagination of the
    same ordering; the cursors the gateway issues; and the passes of the quarantine
    reconciler, which leave no stale hold behind. *)

From Stdlib Require Import Ascii.
From stdpp Require Import sorting.
From S2P Require Import Prelude Json Proto Admin Behavioral Transitions CapService Store Adapter Effects.
From S2P Require Import Pdp Validation Provenance Lifecycle Mfa Capabilities Proposals Background Quarantine.
From S2P Require Import StoreFacts AuthorizeSpec RunSpec.

(** ** The order of the rows *)

Lemma str_leb_le a b : String.leb a b = true ↔ String.le a b.
Proof. unfold String.le. by rewrite Is_true_true. Qed.

Lemma str_ltb_spec a b : String.ltb a b = true ↔ String.le a b ∧ a ≠ b.
Proof.
  rewrite <- str_leb_le. unfold String.ltb, String.leb. destruct (String.compare a b) eqn:Hc.
  - apply String.compare_eq_iff in Hc. split; [done | by intros [_ []]].
  - split; [|done]. intros _. split; [done|]. intros ->. pose proof (String.compare_antisym b b) as Ha.
    by rewrite Hc in Ha.
  - split; [done | by intros [? _]].
Qed.

Lemma row_le_spec t id t' id' :
  row_le t id t' id' = true ↔ (t < t')%Z ∨ t = t' ∧ String.le id id'.
Proof. unfold row_le. by rewrite orb_true_iff, andb_true_iff, Z.ltb_lt, Z.eqb_eq, str_leb_le. Qed.

Lemma row_lt_spec t id t' id' :
  row_lt t id t' id' = true ↔ row_le t id t' id' = true ∧ (t, id) ≠ (t', id').
Proof.
  rewrite row_le_spec. unfold row_lt. rewrite orb_true_iff, andb_true_iff, Z.ltb_lt, Z.eqb_eq, str_ltb_spec.
  split.
  - intros [?|(-> & ? & ?)]; (split; [auto | intros [=]; by auto with lia]).
  - intros [[?|[-> ?]] Hne]; [by left|]. right. split_and!; [done..|]. by intros ->.
Qed.

#[export] Instance approval_key_after_trans : Transitive approval_key_after.
Proof.
  intros a b c. unfold approval_key_after. rewrite !row_le_spec. intros [?|[? Hab]] [?|[? Hbc]];
    [left; lia .. |]. right. split; [congruence | by etrans].
Qed.

#[export] Instance approval_key_after_total : Total approval_key_after.
Proof.
  intros a b. unfold approval_key_after. rewrite !row_le_spec.
  destruct (Z.lt_trichotomy (ap_created_at a) (ap_created_at b)) as [?|[?|?]]; auto.
  destruct (total String.le (ap_approval_id a) (ap_approval_id b)); auto.
Qed.

(** ** Keyset pages *)

(** The rows are stored under their identifiers. *)
Definition approvals_keyed (d : Db) : Prop :=
  ∀ id a, db_approvals d !! id = Some a → ap_approval_id a = id.

(** The pending approvals in the order of the cursor. *)
Definition ordered_approvals (p : option ProposalId) (d : Db) : list ApprovalRequest :=
  merge_sort approval_key_after (pending_approvals p d).

Lemma keyed_ids d : approvals_keyed d → ap_approval_id <$> (map_to_list (db_approvals d)).*2 = (map_to_list (db_approvals d)).*1.
Proof.
  intros Hk. rewrite <- list_fmap_compose. apply list_fmap_ext. intros i [id a] Hi. cbn.
  apply Hk, elem_of_map_to_list. by eapply list_elem_of_lookup_2.
Qed.

Lemma sublist_fmap_filter {A B} (f : A → B) (P : A → Prop) `{∀ x, base.Decision (P x)} l :
  sublist (f <$> filter P l) (f <$> l).
Proof.
  induction l as [|a l IH]; [done|]. rewrite filter_cons. destruct (decide _); cbn; [by constructor|].
  by apply sublist_cons.
Qed.

Lemma ordered_ids_nodup p d : approvals_keyed d → NoDup (ap_approval_id <$> ordered_approvals p d).
Proof.
  intros Hk. unfold ordered_approvals. rewrite merge_sort_Permutation.
  eapply sublist_NoDup; [|apply sublist_fmap_filter]. rewrite keyed_ids by done. apply NoDup_fst_map_to_list.
Qed.

(** The rows below the row at index [i] are the ones after it. *)
Lemma rows_below p d i a :
  approvals_keyed d → ordered_approvals p d !! i = Some a →
  filter (λ b, row_lt (ap_created_at b) (ap_approval_id b) (ap_created_at a) (ap_approval_id a))
    (ordered_approvals p d) = drop (S i) (ordered_approvals p d).
Proof.
  intros Hk Hi. pose proof (ordered_ids_nodup p d Hk) as Hnd.
  assert (StronglySorted approval_key_after (ordered_approvals p d)) as Hs
    by apply (StronglySorted_merge_sort approval_key_after).
  revert Hnd Hs. rewrite <- (take_drop_middle _ _ _ Hi). set (before := take i _). set (after := drop (S i) _).
  intros Hnd Hs. rewrite fmap_app, fmap_cons in Hnd. apply NoDup_app in Hnd as (_ & _ & Hnd).
  apply NoDup_cons in Hnd as [Hnot _].
  assert (length before = i) as Hlen by (apply length_take_le; apply lookup_lt_Some in Hi; lia).
  clearbody before after. rewrite drop_app, (drop_ge before), Hlen by lia. replace (S i - i) with 1 by lia. cbn [drop app].
  rewrite filter_app, filter_cons. rewrite decide_False
    by (rewrite Is_true_true, row_lt_spec; by intros [_ []]).
  rewrite (filter_keeps_none _ before), (filter_keeps_all _ after); [done|..].
  - intros b Hb. rewrite Is_true_true, row_lt_spec. split.
    + apply (StronglySorted_app_1_r _ _ _) in Hs. inversion Hs as [|? ? _ Hall]; subst.
      rewrite Forall_forall in Hall. by apply Hall.
    + intros [= _ Hid]. apply Hnot. rewrite <- Hid. by apply list_elem_of_fmap_2.
  - intros b Hb. rewrite Is_true_true, row_lt_spec. intros [Hle Hne].
    assert (approval_key_after b a) as Hba
      by (eapply (StronglySorted_app_1_elem_of _ _ _ b a Hs); [done | left]).
    unfold approval_key_after in Hba. rewrite row_le_spec in Hba, Hle. apply Hne.
    destruct Hba as [?|[? ?]], Hle as [?|[? ?]]; try lia. f_equal; [done|]. by apply (anti_symm String.le).
Qed.

(** The keyset page after an approval is the page that offset pagination of the
    same ordering gives at the position after it: no pending approval is skipped or
    returned twice by following the keys, whatever the ties in creation time. *)
Theorem cursor_page_exact p d i a limit :
  approvals_keyed d → ordered_approvals p d !! i = Some a →
  list_pending_cursor p (ap_created_at a) (ap_approval_id a) limit d
  = (Ok (take limit (drop (S i) (ordered_approvals p d))), d).
Proof.
  intros Hk Hi. unfold list_pending_cursor. do 3 f_equal. rewrite <- (rows_below p d i a Hk Hi).
  unfold ordered_approvals. set (P := λ b, _).
  apply (StronglySorted_unique_strong approval_key_after).
  - intros b c Hb Hc Hbc Hcb.
    assert (b ∈ ordered_approvals p d ∧ c ∈ ordered_approvals p d) as [Hb' Hc'].
    { rewrite merge_sort_Permutation in Hb. apply list_elem_of_filter in Hb as [_ Hb], Hc as [_ Hc].
      split; [|done]. unfold ordered_approvals. by rewrite merge_sort_Permutation. }
    apply list_elem_of_lookup in Hb' as [j Hj], Hc' as [k Hk'].
    assert (ap_approval_id b = ap_approval_id c) as Hids.
    { unfold approval_key_after in Hbc, Hcb. rewrite row_le_spec in Hbc, Hcb.
      destruct Hbc as [?|[? ?]], Hcb as [?|[? ?]]; try lia. by apply (anti_symm String.le). }
    pose proof (ordered_ids_nodup p d Hk) as Hnd. rewrite NoDup_alt in Hnd.
    assert (j = k) as ->; [|congruence].
    apply (Hnd j k (ap_approval_id b)); rewrite list_lookup_fmap; [by rewrite Hj | by rewrite Hk', Hids].
  - apply (StronglySorted_merge_sort approval_key_after).
  - fold (ordered_approvals p d). subst P. rewrite (rows_below p d i a Hk Hi).
    assert (StronglySorted approval_key_after (ordered_approvals p d)) as Hs
      by apply (StronglySorted_merge_sort approval_key_after).
    rewrite <- (take_drop (S i) (ordered_approvals p d)) in Hs. by eapply StronglySorted_app_1_r.
  - rewrite merge_sort_Permutation. apply filter_Permutation. by rewrite merge_sort_Permutation.
Qed.

(** ** The cursors of the gateway *)

Fixpoint has_colon (s : string) : bool :=
  match s with EmptyString => false | String c s => Ascii.eqb c ":"%char || has_colon s end.

Lemma split_colon_app a b : has_colon a = false → split_colon (a +:+ ":" +:+ b) = Some (a, b).
Proof.
  induction a as [|c a IH]; [done|]. cbn [has_colon]. intros [Hc Ha]%orb_false_iff.
  change (split_colon (String c (a +:+ ":" +:+ b)) = Some (String c a, b)).
  cbn [split_colon]. by rewrite Hc, (IH Ha).
Qed.

(** What is documented of the formats: base64 decoding inverts encoding, formatted text
    is UTF-8, an RFC 3339 time has its first colon between the hour and the minute, and
    no text without a colon is an RFC 3339 time. *)
Record cursor_formats (ext : Ext) : Prop := {
  cf_base64 : ∀ s, ext_base64_decode ext (ext_base64_encode ext s) = Some s;
  cf_utf8 : ∀ t id, ext_is_utf8 ext (ext_rfc3339 ext t +:+ ":" +:+ id) = true;
  cf_print : ∀ t, ∃ hour rest, ext_rfc3339 ext t = hour +:+ ":" +:+ rest ∧ has_colon hour = false;
  cf_parse : ∀ s, has_colon s = false → ext_parse_rfc3339 ext s = None;
}.

(** The text [encode_cursor] builds is "<time>:<approval>", and [decode_cursor] splits it
    at the first colon, which is inside the time: a listing that presents such a cursor,
    with a valid page limit, is refused with status 400 and "invalid cursor timestamp",
    whoever presents it and whatever is stored, and nothing is read or written.  The
    keyset pagination the handler documents can therefore not be used (and a page
    without a cursor returns none to begin with). *)
Theorem issued_cursor_refused app env params t id w :
  cursor_formats (app_ext app) → is_ok (page_limit params) = true →
  pp_cursor params = Some (encode_cursor (app_ext app) t id) →
  run env (list_approvals app params) w
  = run env (governance_err GR_Approvals
               (Problem BAD_REQUEST EC_ValidationError "invalid cursor timestamp")) w.
Proof.
  intros [H64 Hutf Hprint Hparse] Hlim Hc. unfold list_approvals.
  destruct (page_limit params) as [limit|e]; [|done]. cbn [bind require]. rewrite Hc.
  unfold decode_cursor, encode_cursor. rewrite H64, Hutf. cbn [negb].
  destruct (Hprint t) as (hour & rest & -> & Hh). rewrite !str_app_assoc.
  rewrite split_colon_app by done. by rewrite (Hparse hour Hh).
Qed.

(** ** The quarantine reconciler *)

Definition is_stale (now : Timestamp) (age : Z) (p : string * QuarantineHold) : bool :=
  bool_decide (qh_state p.2 = QS_Pending)
  && ((qh_expires_at p.2 <? now)%Z || (qh_created_at p.2 <? now - seconds age)%Z).

(** The pending holds past their expiry or their age. *)
Definition stale_holds (now : Timestamp) (age : Z) (holds : gmap string QuarantineHold)
  : list (string * QuarantineHold) :=
  filter (λ p, is_stale now age p) (map_to_list holds).

Lemma expired_not_stale now age id h : is_stale now age (id, qh_set_state QS_Expired h) = false.
Proof. done. Qed.

(** Expiring one stale hold takes it off the list. *)
Lemma stale_expire now age holds id h :
  holds !! id = Some h → is_stale now age (id, h) = true →
  stale_holds now age holds ≡ₚ (id, h) :: stale_holds now age (<[id := qh_set_state QS_Expired h]> holds).
Proof.
  intros Hl Hs. unfold stale_holds. rewrite <- (map_to_list_delete holds id h Hl).
  rewrite <- insert_delete_eq, map_to_list_insert by apply lookup_delete_eq.
  rewrite !filter_cons, decide_True by (by apply Is_true_true). by rewrite decide_False by (by intros ?%Is_true_true).
Qed.

Section no_faults.
Context (env : Env) (no_fault : ∀ t, env_fault env t = None).

Lemma exec_db_clean {A} (s : stmt A) w :
  ∃ w', exec_db env s w = ((s (w_db w)).1, w') ∧ w_db w' = (s (w_db w)).2.
Proof.
  destruct w as [d mem m l t]. cbn. rewrite no_fault. destruct (s d) as [r d']. by eexists.
Qed.

Definition expired_row (p : string * QuarantineHold) : QuarantineHold := qh_set_state QS_Expired p.2.

(** Expiring rows that are all pending expires them all. *)
Lemma expire_holds_run rows : ∀ expired w,
  NoDup rows.*1 → (∀ p, p ∈ rows → db_holds (w_db w) !! p.1 = Some p.2 ∧ qh_state p.2 = QS_Pending) →
  ∃ w', run env (expire_holds rows expired) w = (Ok (expired ++ (expired_row <$> rows)), w') ∧
    w_db w' = set_holds (foldl (λ m p, <[p.1 := expired_row p]> m) (db_holds (w_db w)) rows) (w_db w).
Proof.
  induction rows as [|[id h] rows IH]; intros expired w Hnd Hrows.
  - exists w. rewrite app_nil_r. split; [done|]. cbn. by destruct (w_db w).
  - destruct (Hrows (id, h) ltac:(left)) as [Hl Hp]. cbn [fst snd] in Hl, Hp.
    apply NoDup_cons in Hnd as [Hnot Hnd]. cbn [expire_holds]. rewrite run_call. simpl exec_op.
    destruct (exec_db_clean (sql_update_pending_hold (qh_set_state QS_Expired h) id) w) as (w1 & -> & Hd1).
    unfold sql_update_pending_hold in Hd1 |- *. rewrite Hl, decide_True in Hd1 |- * by done. cbn [fst snd] in Hd1 |- *.
    destruct (IH (expired ++ [qh_set_state QS_Expired h]) w1 Hnd) as (w2 & Hr & Hd2).
    { intros p Hin. rewrite Hd1. destruct (Hrows p ltac:(by right)) as [Hlp Hpp].
      destruct (w_db w); cbn in *. rewrite lookup_insert_ne; [done|].
      intros Heq. apply Hnot. rewrite Heq. by apply list_elem_of_fmap_2. }
    exists w2. split; [by rewrite Hr, <- app_assoc|]. rewrite Hd2, Hd1. by destruct (w_db w).
Qed.

Lemma stale_after_rows now age rows : ∀ holds,
  NoDup rows.*1 → (∀ p, p ∈ rows → holds !! p.1 = Some p.2 ∧ is_stale now age p = true) →
  stale_holds now age holds
  ≡ₚ rows ++ stale_holds now age (foldl (λ m p, <[p.1 := expired_row p]> m) holds rows).
Proof.
  induction rows as [|[id h] rows IH]; intros holds Hnd Hrows; [done|].
  destruct (Hrows (id, h) ltac:(left)) as [Hl Hs]. cbn [fst snd] in Hl.
  apply NoDup_cons in Hnd as [Hnot Hnd]. rewrite (stale_expire now age holds id h Hl Hs). cbn [app foldl fst].
  f_equiv. apply IH; [done|]. intros p Hin. destruct (Hrows p ltac:(by right)) as [Hlp Hsp].
  rewrite lookup_insert_ne; [done|]. intros Heq. apply Hnot. cbn. rewrite Heq. by apply list_elem_of_fmap_2.
Qed.

Lemma fold_expired_out rows id : ∀ holds : gmap string QuarantineHold,
  id ∉ rows.*1 → foldl (λ m p, <[p.1 := expired_row p]> m) holds rows !! id = holds !! id.
Proof.
  induction rows as [|[id' h] rows IH]; intros holds Hid; [done|]. cbn in *.
  rewrite not_elem_of_cons in Hid. destruct Hid as [Hne Hid]. rewrite IH by done. by rewrite lookup_insert_ne.
Qed.

Lemma fold_expired_in rows p : ∀ holds : gmap string QuarantineHold,
  NoDup rows.*1 → p ∈ rows →
  foldl (λ m p, <[p.1 := expired_row p]> m) holds rows !! p.1 = Some (expired_row p).
Proof.
  induction rows as [|q rows IH]; intros holds Hnd Hin; [by apply not_elem_of_nil in Hin|].
  cbn in *. apply NoDup_cons in Hnd as [Hnot Hnd]. apply elem_of_cons in Hin as [->|Hin]; [|by apply IH].
  rewrite fold_expired_out by done. by rewrite lookup_insert_eq.
Qed.

(** ** Announcing an expiry leaves the holds alone *)

Lemma insert_edges_holds id edges d : db_holds (sql_insert_edges id edges d).2 = db_holds d.
Proof.
  revert d. induction edges as [|e edges IH]; intros d; cbn; [done|].
  case_match; [|done]. rewrite IH. by destruct d.
Qed.

Lemma append_event_holds ev edges d : db_holds (append_event_with_edges ev edges d).2 = db_holds d.
Proof.
  unfold append_event_with_edges. case_match; [done|]. unfold transaction, then_, sql_insert_event.
  destruct (has_event _ d); [done|].
  pose proof (insert_edges_holds (ev_event_id ev) edges (set_events (db_events d ++ [ev]) d)) as Hh.
  destruct (sql_insert_edges _ edges _) as [[[]|] d1]; [|done]. cbn in *. rewrite Hh. by destruct d.
Qed.

Lemma append_governance_holds ev w :
  db_holds (w_db (run env (append_governance_event ev) w).2) = db_holds (w_db w).
Proof.
  assert (∀ ev w, db_holds (w_db (run env (append_with ev) w).2) = db_holds (w_db w)) as Hw.
  { intros ev0 w0. unfold append_with. cbn [run call]. simpl exec_op.
    destruct (exec_db_clean (append_event_with_edges ev0 (ev_parent_edges ev0)) w0) as (w1 & -> & Hd).
    cbn. by rewrite Hd, append_event_holds. }
  unfold append_governance_event. case_match; [|apply Hw]. case_match. rewrite run_call. simpl exec_op.
  match goal with |- context [exec_db env ?s w] => destruct (exec_db_clean s w) as (w1 & -> & Hd) end.
  cbn [query fst snd] in Hd |- *. case_match; [by rewrite Hw, Hd|]. case_match; [by rewrite Hw, Hd|].
  cbn. by rewrite Hd.
Qed.

Lemma announce_holds expired : ∀ w,
  db_holds (w_db (run env (announce_expired_holds expired) w).2) = db_holds (w_db w).
Proof.
  induction expired as [|h expired IH]; intros w; [done|]. cbn [announce_expired_holds].
  rewrite run_call. destruct (exec_op env (op_metric_add _ 1) w) as [u w1] eqn:Hx.
  assert (w_db w1 = w_db w) as Hd by (destruct w; cbn in Hx; by injection Hx as _ <-).
  rewrite run_bind. unfold emit_quarantine_timed_out_provenance. rewrite run_uuid, run_now, run_bind.
  match goal with |- context [run env (append_governance_event ?ev) ?w0] =>
    pose proof (append_governance_holds ev w0) as Ha; destruct (run env (append_governance_event ev) w0) as [r w2] end.
  cbn [run]. rewrite IH. cbn in Ha. by rewrite Ha, !tick_db, Hd.
Qed.

(** One pass without storage faults. *)
Lemma quarantine_pass_run app now w :
  let age := cfg_quarantine_timeout_seconds (app_config app) in
  let rows := take QUARANTINE_TIMEOUT_BATCH_SIZE (stale_holds now age (db_holds (w_db w))) in
  let '(expired, w') := run env (reconcile_quarantine_timeouts_once app now) w in
  expired = expired_row <$> rows ∧
  stale_holds now age (db_holds (w_db w)) ≡ₚ rows ++ stale_holds now age (db_holds (w_db w')) ∧
  (∀ p, p ∈ rows → db_holds (w_db w') !! p.1 = Some (expired_row p)) ∧
  (∀ id, id ∉ rows.*1 → db_holds (w_db w') !! id = db_holds (w_db w) !! id).
Proof.
  intros age rows.
  assert (NoDup rows.*1) as Hnd.
  { unfold rows. rewrite fmap_take. eapply sublist_NoDup; [|apply sublist_take].
    eapply sublist_NoDup; [|apply sublist_fmap_filter]. apply NoDup_fst_map_to_list. }
  assert (∀ p, p ∈ rows → db_holds (w_db w) !! p.1 = Some p.2 ∧ is_stale now age p = true) as Hrows.
  { intros [id h] (i & Hin%list_elem_of_lookup_2 & _)%elem_of_take. apply list_elem_of_filter in Hin as [Hs Hin].
    split; [by apply elem_of_map_to_list in Hin | by apply Is_true_true]. }
  unfold reconcile_quarantine_timeouts_once, expire_stale_holds. rewrite run_bind, run_call. simpl exec_op.
  match goal with |- context [exec_db env ?s w] => destruct (exec_db_clean s w) as (w1 & -> & Hd1) end.
  cbn [fst snd sql_select_stale_holds] in Hd1 |- *. fold age.
  destruct (expire_holds_run rows [] w1) as (w2 & Hr & Hd2); [done | |].
  { intros p Hin. rewrite Hd1. destruct (Hrows p Hin) as [? Hs]. split; [done|].
    apply andb_true_iff in Hs as [Hs _]. by apply bool_decide_eq_true in Hs. }
  rewrite Hd1 in Hd2.
  change (run env (expire_holds (take QUARANTINE_TIMEOUT_BATCH_SIZE _) []) w1) with
    (run env (expire_holds rows []) w1). rewrite Hr.
  rewrite run_bind. pose proof (announce_holds ([] ++ (expired_row <$> rows)) w2) as Ha.
  destruct (run env (announce_expired_holds _) w2) as [u w3]. cbn [run snd] in Ha |- *.
  assert (db_holds (w_db w3) = foldl (λ m p, <[p.1 := expired_row p]> m) (db_holds (w_db w)) rows) as Hw3
    by (rewrite Ha, Hd2; by destruct (w_db w)).
  split_and!; [done | rewrite Hw3; by apply stale_after_rows | |].
  - intros p Hin. rewrite Hw3. by apply fold_expired_in.
  - intros id Hid. rewrite Hw3. by apply fold_expired_out.
Qed.

(** A number of passes. *)
Fixpoint passes (app : App) (now : Timestamp) (n : nat) (w : World) : World :=
  match n with
  | O => w
  | S n => passes app now n (run env (reconcile_quarantine_timeouts_once app now) w).2
  end.

Lemma passes_stale app now n : ∀ w,
  let age := cfg_quarantine_timeout_seconds (app_config app) in
  length (stale_holds now age (db_holds (w_db (passes app now n w))))
  = length (stale_holds now age (db_holds (w_db w))) - n * QUARANTINE_TIMEOUT_BATCH_SIZE.
Proof.
  induction n as [|n IH]; intros w age; [cbn; lia|]. cbn [passes]. unfold age. rewrite IH.
  pose proof (quarantine_pass_run app now w) as Hp. cbv zeta in Hp.
  destruct (run env (reconcile_quarantine_timeouts_once app now) w) as [expired w1].
  destruct Hp as (_ & Hperm & _). apply Permutation_length in Hperm.
  rewrite length_app, length_take in Hperm. cbn [snd]. lia.
Qed.

Lemma passes_fresh app now n id h : ∀ w,
  db_holds (w_db w) !! id = Some h →
  is_stale now (cfg_quarantine_timeout_seconds (app_config app)) (id, h) = false →
  db_holds (w_db (passes app now n w)) !! id = Some h.
Proof.
  induction n as [|n IH]; intros w Hl Hs; [done|]. cbn [passes]. apply IH; [|done].
  pose proof (quarantine_pass_run app now w) as Hp. cbv zeta in Hp.
  destruct (run env (reconcile_quarantine_timeouts_once app now) w) as [expired w1].
  destruct Hp as (_ & _ & _ & Hout). cbn [snd]. rewrite Hout; [done|].
  intros ([id' h'] & -> & (i & Hin%list_elem_of_lookup_2 & _)%elem_of_take)%list_elem_of_fmap.
  apply list_elem_of_filter in Hin as [Hs' Hin%elem_of_map_to_list]. cbn in *.
  apply Is_true_true in Hs'. congruence.
Qed.
End no_faults.

(** Without storage faults, every hold that is pending past its expiry or its age
    leaves the pending state: a pass expires as many as 100 of them, so a backlog is
    worked off in a hundredth as many passes, after which no pending hold is stale;
    holds that are not stale are left as they are. *)
Theorem stale_holds_expire app env now n w :
  (∀ t, env_fault env t = None) →
  let age := cfg_quarantine_timeout_seconds (app_config app) in
  length (stale_holds now age (db_holds (w_db w))) ≤ n * QUARANTINE_TIMEOUT_BATCH_SIZE →
  let holds' := db_holds (w_db (passes env app now n w)) in
  (∀ id h, holds' !! id = Some h → is_stale now age (id, h) = false) ∧
  (∀ id h, db_holds (w_db w) !! id = Some h → is_stale now age (id, h) = false →
     holds' !! id = Some h).
Proof.
  intros Hf age Hn holds'. split.
  - intros id h Hl. destruct (is_stale now age (id, h)) eqn:Hs; [|done]. exfalso.
    assert ((id, h) ∈ stale_holds now age holds') as Hin.
    { apply list_elem_of_filter. split; [by apply Is_true_true | by apply elem_of_map_to_list]. }
    pose proof (passes_stale env Hf app now n w) as Hlen. cbv zeta in Hlen. fold age holds' in Hlen.
    destruct (stale_holds now age holds'); [by apply not_elem_of_nil in Hin | cbn in Hlen; lia].
  - intros id h. by apply passes_fresh.
Qed.
