(* ===== verification/PolicySpec.v ===== *)
(** * Policy bundles: their history, rollback and comparison

    The version history of a bundle is numbered without gaps and never rewritten,
    whatever interleaving of handlers produced it; a rollback puts the content of an
    old version back in force as a new version; the comparison of two versions is empty
    exactly when they are equal. *)

From stdpp Require Import pretty.
From S2P Require Import Prelude Json Proto Admin Behavioral Transitions CapService Store Adapter Effects.
From S2P Require Import Pdp Validation Provenance CapBackend Lifecycle Mfa Capabilities Proposals Handlers.
From S2P Require Import Background Quarantine Policies StoreFacts Evolution Discipline Logic HandlerSafety.
From S2P Require Import GovernanceSafety AuthorizeSpec RunSpec MfaSafety ReviewSpec.

(** ** Statements on other tables *)

Definition keeps_admin {A} (s : stmt A) : Prop := ∀ d, db_admin (s d).2 = db_admin d.

Ltac solve_keeps := intros d; repeat case_match; try done; by destruct d.

Lemma keeps_edges id edges : keeps_admin (sql_insert_edges id edges).
Proof.
  induction edges as [|e edges IH]; intros d; cbn; [done|]. case_match; [|done]. rewrite IH. by destruct d.
Qed.
Lemma keeps_append ev edges : keeps_admin (append_event_with_edges ev edges).
Proof.
  intros d. unfold append_event_with_edges. case_match; [done|]. unfold transaction, then_, sql_insert_event.
  destruct (has_event _ d); [done|].
  pose proof (keeps_edges (ev_event_id ev) edges (set_events (db_events d ++ [ev]) d)) as Hh.
  destruct (sql_insert_edges _ edges _) as [[[]|] d1]; [|done]. cbn in *. rewrite Hh. by destruct d.
Qed.
Lemma keeps_transition e c ob : keeps_admin (record_lifecycle_transition e c ob).
Proof.
  intros d. destruct (record_lifecycle_transition e c ob d) as [[[]|err] d'] eqn:H; simpl.
  - apply record_transition_done in H as [_ _ _ _ _ Hrest]. apply Hrest.
  - apply record_transition_err in H. by subst.
Qed.
Lemma keeps_authorization l e ob now : keeps_admin (record_authorization l e ob now).
Proof.
  intros d. destruct (record_authorization l e ob now d) as [[[]|err] d'] eqn:H; simpl.
  - apply record_authorization_done in H as [_ _ _ _ _ Hrest]. apply Hrest.
  - apply record_authorization_false in H. by subst.
  - apply record_authorization_err in H. by subst.
Qed.
Lemma keeps_claim limit owner ttl now : keeps_admin (claim_pending_reconciliation limit owner ttl now).
Proof.
  intros d. unfold claim_pending_reconciliation. destruct limit; [done|].
  assert (∀ ids d, db_admin (claim_all owner now (now + ttl) ids d).2 = db_admin d) as Hall.
  { clear d. induction ids as [|id ids IH]; intros d; [done|]. simpl.
    assert (db_admin (claim_one owner now (now + ttl) id d).2 = db_admin d) as H1
      by (unfold claim_one; repeat case_match; try done; by destruct d).
    destruct (claim_one owner now (now + ttl) id d) as [c d1]. specialize (IH d1).
    destruct (claim_all owner now (now + ttl) ids d1) as [cs d2]. cbn in *. congruence. }
  match goal with |- context [claim_all _ _ _ ?ids d] => specialize (Hall ids d); destruct (claim_all _ _ _ ids d) end.
  done.
Qed.

(** An operation that is not on the administrative tables leaves them as they are. *)
Lemma exec_op_admin {X} env (o : op X) w :
  (match o with op_admin _ => False | _ => True end) →
  db_admin (w_db (exec_op env o w).2) = db_admin (w_db w).
Proof.
  assert (∀ A (s : stmt A), keeps_admin s → db_admin (w_db (exec_db env s w).2) = db_admin (w_db w)) as Hdb.
  { intros A s Hs. destruct w as [d mem m l t]; simpl. specialize (Hs d).
    destruct (env_fault env t) as [[]|]; simpl; [done..|]. by destruct (s d). }
  destruct o; intros Ho; try done; simpl;
    try (by destruct w); try (apply Hdb; first
      [ done | apply keeps_transition | apply keeps_authorization | apply keeps_claim | apply keeps_append
      | apply keeps_edges
      | unfold keeps_admin, insert_intent, insert_proposal, insert_hold, sql_update_pending_hold,
          compare_and_set_state, update_outbox_record, update_status_if_active,
          sql_capability_set_status_if_active, revoke_if_active, update_capability, insert_capability,
          sql_resolve_approval, sql_expire_approval, renew_reconciliation_lease,
          update_outbox_record_claimed; solve_keeps ]).
  all: try (destruct w; simpl; repeat (match goal with |- context [let '(_, _) := ?e in _] => destruct e end); done).
Qed.

(** ** The version history *)

(** The versions of every bundle are numbered 1, 2, …, n in the order of the table. *)
Definition gapless (t : AdminTables) : Prop :=
  ∀ id, pv_version <$> versions_of id t = seqZ 1 (Z.of_nat (length (versions_of id t))).

(** Every row holds a version of the bundle it is filed under. *)
Definition labelled (t : AdminTables) : Prop :=
  ∀ v, v ∈ ad_versions t → pb_bundle_id (pv_content v) = pv_bundle_id v.

(** A row but for its flag. *)
Definition frozen (v : PolicyBundleVersion) : PolicyBundleVersion := pv_set_active false v.

(** The history of [t'] extends that of [t]; only flags may have changed. *)
Definition extends_history (t t' : AdminTables) : Prop :=
  (frozen <$> ad_versions t) `prefix_of` (frozen <$> ad_versions t').

#[export] Instance extends_history_preorder : PreOrder extends_history.
Proof. unfold extends_history. split; [by intros t | intros t1 t2 t3 H1 H2; by etrans]. Qed.

Lemma max_seqZ n : foldr Z.max 0%Z (seqZ 1 (Z.of_nat n)) = Z.of_nat n.
Proof.
  assert (∀ m, (1 ≤ m)%Z → foldr Z.max 0%Z (seqZ m (Z.of_nat n)) = if decide (n = 0) then 0%Z else (m + Z.of_nat n - 1)%Z) as H.
  { induction n as [|n IH]; intros m Hm; [done|]. rewrite seqZ_cons by lia.
    replace (Z.pred (Z.of_nat (S n))) with (Z.of_nat n) by lia. cbn [foldr]. rewrite IH by lia.
    repeat case_decide; lia. }
  rewrite H by lia. case_decide; lia.
Qed.

Lemma gapless_last t id : gapless t → last_version id t = Z.of_nat (length (versions_of id t)).
Proof. intros Hg. unfold last_version. by rewrite Hg, max_seqZ. Qed.

Lemma versions_of_append id v t :
  versions_of id (set_versions (ad_versions t ++ [v]) t)
  = versions_of id t ++ (if decide (pv_bundle_id v = id) then [v] else []).
Proof. unfold versions_of. cbn. rewrite filter_app. by rewrite filter_cons, filter_nil. Qed.

(** The row inserted for the number after the last extends the numbering; any number
    below it is taken already. *)
Lemma insert_version_gapless v t u t' :
  gapless t → (1 ≤ pv_version v)%Z → (pv_version v ≤ last_version (pv_bundle_id v) t + 1)%Z →
  sql_insert_version v t = (Ok u, t') →
  pv_version v = (last_version (pv_bundle_id v) t + 1)%Z ∧ gapless t' ∧
  ad_versions t' = ad_versions t ++ [v].
Proof.
  intros Hg H1 Hle. unfold sql_insert_version. destruct (existsb _ _) eqn:Hex; [done|]. intros [= <- <-].
  assert (pv_version v = (last_version (pv_bundle_id v) t + 1)%Z) as Hv.
  { apply Z.le_antisymm; [done|]. apply Z.nlt_ge. intros Hlt.
    assert (pv_version v ∈ (pv_version <$> versions_of (pv_bundle_id v) t)) as Hin.
    { rewrite Hg. apply elem_of_seqZ. rewrite <- (gapless_last _ _ Hg). lia. }
    apply list_elem_of_fmap in Hin as (v' & Heq & Hin). apply list_elem_of_filter in Hin as [Hid Hin].
    apply not_true_iff_false in Hex. apply Hex, existsb_exists. exists v'. rewrite <- list_elem_of_In.
    split; [done|]. rewrite Hid, Heq, String.eqb_refl, Z.eqb_refl. apply orb_true_r. }
  split_and!; [done | | done]. intros id. rewrite versions_of_append, fmap_app, length_app.
  case_decide as Hid; [|by rewrite !app_nil_r, Nat.add_0_r].
  subst id. rewrite Hg. cbn [fmap list_fmap length]. rewrite Nat2Z.inj_add. rewrite seqZ_app by lia. f_equal.
  rewrite Hv, (gapless_last _ _ Hg), seqZ_cons, seqZ_nil by lia. f_equal. lia.
Qed.

(** What depends on the frozen rows only. *)
Lemma frozen_numbers (l l' : list PolicyBundleVersion) id :
  frozen <$> l = frozen <$> l' →
  pv_version <$> filter (λ v, pv_bundle_id v = id) l = pv_version <$> filter (λ v, pv_bundle_id v = id) l'.
Proof.
  revert l'. induction l as [|v l IH]; intros [|v' l'] Heq; try done. injection Heq as H1 H2 H3 H4 H5 H6 H7 Hl.
  rewrite !filter_cons, H2. case_decide; cbn; [|by apply IH]. rewrite H3. f_equal. by apply IH.
Qed.

Lemma same_frozen_gapless t t' :
  frozen <$> ad_versions t' = frozen <$> ad_versions t → gapless t → gapless t'.
Proof.
  intros Hf Hg id. pose proof (frozen_numbers _ _ id Hf) as Hn. unfold versions_of in *.
  assert (length (filter (λ v, pv_bundle_id v = id) (ad_versions t')) = length (versions_of id t)) as ->.
  { rewrite <- (length_fmap pv_version), Hn. apply length_fmap. }
  rewrite Hn. apply Hg.
Qed.

Lemma same_frozen_labelled t t' :
  frozen <$> ad_versions t' = frozen <$> ad_versions t → labelled t → labelled t'.
Proof.
  intros Hf Hl v Hv. apply (list_elem_of_fmap_2 frozen) in Hv. rewrite Hf in Hv.
  apply list_elem_of_fmap in Hv as (v' & Heq & Hv'). injection Heq as _ Hb _ Hc _ _ _.
  rewrite Hb, Hc. by apply Hl.
Qed.

Lemma update_active_frozen id a t :
  frozen <$> ad_versions (sql_update_version_active id a t).2 = frozen <$> ad_versions t.
Proof.
  cbn. rewrite <- list_fmap_compose. apply list_fmap_ext. intros i v _. unfold compose. by case_match.
Qed.

(** ** Programs that number versions honestly *)

(** What a program knows: numbers it has seen in use, as lower bounds. *)
Abbreviation Seen := (list (string * Z)).

Definition seen_in (K : Seen) (t : AdminTables) : Prop :=
  ∀ id m, (id, m) ∈ K → (0 ≤ m ≤ last_version id t)%Z.

Definition learn_admin {T} (a : admin_op T) : result T StoreError → Seen → Seen :=
  match a in admin_op T return result T StoreError → Seen → Seen with
  | AO_next_version id => λ r K, match r with Ok n => (id, (n - 1)%Z) :: K | Err _ => K end
  | _ => λ _ K, K
  end.

Definition learn {X} (o : op X) : X → Seen → Seen :=
  match o in op X return X → Seen → Seen with
  | op_admin a => learn_admin a
  | _ => λ _ K, K
  end.

(** A row is inserted with the number after one that was seen, under its bundle. *)
Definition may_insert (K : Seen) {T} (a : admin_op T) : Prop :=
  match a with
  | AO_insert_version v =>
      pb_bundle_id (pv_content v) = pv_bundle_id v ∧ (pv_bundle_id v, (pv_version v - 1)%Z) ∈ K
  | _ => True
  end.

Definition may_run (K : Seen) {X} (o : op X) : Prop :=
  match o with op_admin a => may_insert K a | _ => True end.

Fixpoint versioned {A} (K : Seen) (p : prog A) : Prop :=
  match p with
  | Ret _ => True
  | Do o k => may_run K o ∧ ∀ x, versioned (learn o x K) (k x)
  end.

Lemma may_insert_mono {T} (a : admin_op T) K K' : K ⊆ K' → may_insert K a → may_insert K' a.
Proof. destruct a; try done. intros HK [? ?]. split; [done | by apply HK]. Qed.

Lemma learn_mono {X} (o : op X) x K K' : K ⊆ K' → learn o x K ⊆ learn o x K'.
Proof.
  destruct o; try done. destruct a; try done. cbn. destruct x; [|done]. intros HK. by apply list_subseteq_skip.
Qed.
Lemma learn_grows {X} (o : op X) x K : K ⊆ learn o x K.
Proof. destruct o; try done. destruct a; try done. cbn. destruct x; [|done]. by apply list_subseteq_cons. Qed.

Lemma versioned_mono {A} (p : prog A) K K' : K ⊆ K' → versioned K p → versioned K' p.
Proof.
  revert K K'. induction p as [a|X o k IH]; intros K K' HK; [done|]. intros [Ho Hk]. split.
  - destruct o; try done. by eapply may_insert_mono.
  - intros x. eapply IH; [|apply Hk]. by apply learn_mono.
Qed.

Lemma versioned_bind {A B} K (p : prog A) (f : A → prog B) :
  versioned K p → (∀ a K', K ⊆ K' → versioned K' (f a)) → versioned K (bind p f).
Proof.
  revert K. induction p as [a|X o k IH]; intros K Hp Hf; [by apply Hf|]. destruct Hp as [Ho Hk].
  split; [done|]. intros x. apply IH; [apply Hk|]. intros a K' HK. apply Hf.
  etrans; [apply (learn_grows o x) | done].
Qed.

Lemma versioned_call {X} K (o : op X) : may_run K o → versioned K (call o).
Proof. intros Ho. by split. Qed.

Create HintDb versioned.

Ltac solve_versioned :=
  repeat first
    [ exact I
    | apply versioned_call; exact I
    | solve [auto with versioned nocore]
    | apply versioned_bind; [|intros ? ? ?]
    | case_match
    | match goal with |- versioned _ (match ?x with _ => _ end) => destruct x end ].

Lemma governance_err_versioned {R} K route e : versioned K (governance_err (R := R) route e).
Proof. unfold governance_err. solve_versioned. Qed.
Lemma governance_ok_versioned {R} K route (r : R) : versioned K (governance_ok route r).
Proof. unfold governance_ok. solve_versioned. Qed.
#[export] Hint Resolve governance_err_versioned governance_ok_versioned : versioned.

Lemma require_versioned {T} K route (r : result T ApiProblem) : versioned K (require route r).
Proof. unfold require. solve_versioned. Qed.
#[export] Hint Resolve require_versioned : versioned.
Lemma checked_versioned {T} K route (p : prog (result T StoreError)) :
  versioned K p → versioned K (checked route p).
Proof. intros Hp. unfold checked. solve_versioned; done. Qed.
Lemma guarded_versioned {T} K route (p : prog (result T ApiProblem)) :
  versioned K p → versioned K (guarded_by route p).
Proof. intros Hp. unfold guarded_by. solve_versioned; done. Qed.
Lemma uncounted_versioned {T} K (p : prog (result T StoreError)) : versioned K p → versioned K (uncounted p).
Proof. intros Hp. unfold uncounted. solve_versioned; done. Qed.
Lemma fetch_versioned {T} K route (o : op (result (option T) StoreError)) missing :
  may_run K o → versioned K (fetch route o missing).
Proof. intros Ho. unfold fetch. apply versioned_bind; [by apply versioned_call|]. intros. solve_versioned. Qed.
#[export] Hint Extern 1 (versioned _ (checked _ _)) => apply checked_versioned : versioned.
#[export] Hint Extern 1 (versioned _ (guarded_by _ _)) => apply guarded_versioned : versioned.
#[export] Hint Extern 1 (versioned _ (uncounted _)) => apply uncounted_versioned : versioned.
#[export] Hint Extern 1 (versioned _ (fetch _ _ _)) => apply fetch_versioned; exact I : versioned.
#[export] Hint Extern 1 (versioned _ (call _)) => apply versioned_call; exact I : versioned.

Lemma append_versioned K ev : versioned K (append_governance_event ev).
Proof. unfold append_governance_event, append_with. solve_versioned. Qed.
Lemma audit_versioned K app a b c d e md : versioned K (append_audit_checked app a b c d e md).
Proof. unfold append_audit_checked, append_audit, audit_append. solve_versioned. Qed.
#[export] Hint Resolve append_versioned audit_versioned : versioned.

(** The number that is inserted was just read. *)
Lemma insert_version_versioned K b note by_ : versioned K (insert_version b note by_).
Proof.
  split; [done|]. intros [n|e]; [|done]. split; [done|]. intros id. split.
  - split; [done|]. cbn. left.
  - by intros [].
Qed.
Lemma parse_bundle_versioned K app route yaml : versioned K (parse_bundle app route yaml).
Proof. unfold parse_bundle, parse_policy_bundle_yaml. solve_versioned. Qed.
#[export] Hint Resolve insert_version_versioned parse_bundle_versioned : versioned.

(** ** One step *)

(** The tables are in order. *)
Record history_ok (t : AdminTables) : Prop := {
  ho_gapless : gapless t;
  ho_labelled : labelled t;
}.

Lemma extends_last t t' id : gapless t → gapless t' → extends_history t t' → (last_version id t ≤ last_version id t')%Z.
Proof.
  intros Hg Hg' [new Hnew]. rewrite !gapless_last by done. apply inj_le.
  rewrite <- !(length_fmap pv_version). unfold versions_of.
  assert (∃ k, frozen <$> ad_versions t = frozen <$> k ∧ ∃ rest, ad_versions t' = k ++ rest) as (k & Hk & rest & ->).
  { exists (take (length (ad_versions t)) (ad_versions t')). split.
    - rewrite fmap_take, Hnew, take_app_length'; [done | by rewrite length_fmap].
    - eexists. symmetry. apply take_drop. }
  rewrite (frozen_numbers _ _ id Hk), filter_app, fmap_app, length_app. lia.
Qed.

Lemma seen_mono K t t' : gapless t → gapless t' → extends_history t t' → seen_in K t → seen_in K t'.
Proof.
  intros Hg Hg' Hx Hk id m Hin. destruct (Hk id m Hin). pose proof (extends_last t t' id Hg Hg' Hx). lia.
Qed.

(** One statement keeps the history in order and extends it. *)
Lemma admin_step now {T} (a : admin_op T) t K r t' :
  history_ok t → seen_in K t → may_insert K a → admin_exec now a t = (r, t') →
  history_ok t' ∧ extends_history t t' ∧ seen_in (learn_admin a r K) t.
Proof.
  intros Hok HK Ha.
  assert (ad_versions t' = ad_versions t → history_ok t' ∧ extends_history t t') as Hsame.
  { intros Heq. destruct Hok as [Hg Hl]. split; [split|].
    - eapply same_frozen_gapless; [|done]. by rewrite Heq.
    - eapply same_frozen_labelled; [|done]. by rewrite Heq.
    - unfold extends_history. by rewrite Heq. }
  destruct a; cbn [admin_exec]; intros Hx;
    try (assert (ad_versions t' = ad_versions t) as Heq by
      (unfold sql_get_bundle, sql_bundle_by_hash, sql_delete_bundle, sql_list_bundles, sql_list_active,
         sql_list_versions, sql_get_version, sql_mfa_get, sql_mfa_active_for_agent, sql_mfa_list,
         sql_lockout_get, sql_insert_bundle, sql_update_bundle, sql_mfa_activate, sql_mfa_insert, sql_mfa_record_use,
         sql_mfa_failed, sql_mfa_reset, sql_mfa_revoke, update_factor, sql_lockout_fail, sql_lockout_reset,
         sql_token_insert, sql_token_get, sql_token_by_lookup_hash, sql_token_list, sql_token_revoke, sql_token_touch,
         sql_agent_insert, sql_agent_get, sql_agent_by_fingerprint, sql_agent_list, sql_agent_count,
         sql_agent_revoke, sql_audit in Hx;
       repeat case_match; simplify_eq; done); by destruct (Hsame Heq)).
  - injection Hx as <- <-. destruct (Hsame eq_refl). split_and!; [done..|]. cbn.
    intros id' m [Heq|Hin]%elem_of_cons; [|by apply HK]. injection Heq as -> ->.
    rewrite gapless_last by apply Hok. lia.
  - destruct Ha as [Hlab Hseen]. destruct (HK _ _ Hseen) as [H0 Hlast]. destruct Hok as [Hg Hl].
    destruct r as [u|e].
    + destruct (insert_version_gapless v t u t' Hg ltac:(lia) ltac:(lia) Hx) as (_ & Hg' & Hv).
      split_and!; [split; [done|] | | done].
      * intros v'. rewrite Hv. intros [Hin|Hin]%elem_of_app; [by apply Hl|].
        apply list_elem_of_singleton in Hin. by subst v'.
      * unfold extends_history. rewrite Hv, fmap_app. by eexists.
    + unfold sql_insert_version in Hx. case_match; [|done]. simplify_eq. by destruct (Hsame eq_refl).
  - pose proof (update_active_frozen id active t) as Hf. rewrite Hx in Hf. destruct Hok as [Hg Hl].
    split_and!; [split | | done].
    + by eapply same_frozen_gapless.
    + by eapply same_frozen_labelled.
    + unfold extends_history. cbn in Hf. by rewrite Hf.
Qed.

Lemma exec_step {X} env (o : op X) w x w' K :
  history_ok (db_admin (w_db w)) → seen_in K (db_admin (w_db w)) → may_run K o →
  exec_op env o w = (x, w') →
  history_ok (db_admin (w_db w')) ∧ extends_history (db_admin (w_db w)) (db_admin (w_db w')) ∧
  seen_in (learn o x K) (db_admin (w_db w')).
Proof.
  intros Hok HK Ho Hx.
  destruct (match o with op_admin _ => true | _ => false end) eqn:Hadm.
  2: { pose proof (exec_op_admin env o w ltac:(by destruct o)) as Hd. rewrite Hx in Hd. cbn in Hd. rewrite Hd.
       split_and!; [done..|]. destruct o; try done. }
  destruct o; try done. simpl in Hx, Ho. destruct w as [d mem m l t]. cbn in *. unfold sql_admin in Hx.
  destruct (admin_exec (env_clock env t) a (db_admin d)) as [r t'] eqn:Ha.
  destruct (admin_step _ a _ _ _ _ Hok HK Ho Ha) as (Hok' & Hext & HK').
  assert (seen_in K t') as HKt by (eapply seen_mono; [apply Hok | apply Hok' | done | done]).
  assert (∀ e, learn_admin a (Err e) K = K) as Herr by (intros; by destruct a).
  destruct (env_fault env t) as [[]|]; injection Hx as <- <-; cbn; rewrite ?Herr.
  - done.
  - by destruct d.
  - destruct d; cbn in *. split_and!; [done..|]. eapply seen_mono; [apply Hok | apply Hok' | done | done].
Qed.

(** ** Every interleaving *)

(** A program that inserts no version row. *)
Fixpoint inserts_no_version {A} (p : prog A) : Prop :=
  match p with
  | Ret _ => True
  | Do o k => (∀ K, may_run K o) ∧ ∀ x, inserts_no_version (k x)
  end.

Lemma no_version_versioned {A} (p : prog A) : ∀ K, inserts_no_version p → versioned K p.
Proof. induction p as [a|X o k IH]; [done|]. intros K [Ho Hk]. split; [apply Ho|]. intros x. by apply IH. Qed.

(** The handlers of the gateway, and programs that write no version. *)
Definition version_writer (app : App) (p : prog unit) : Prop :=
  governance_call app p ∨ inserts_no_version p.

Lemma second_factor_versioned K app factor actor :
  versioned K (second_factor app (verify_approval_mfa app factor actor)) ∧
  versioned K (second_factor app (verify_mfa_factor app factor actor)).
Proof.
  unfold second_factor, verify_approval_mfa, verify_mfa_factor, agent_unlocked, check_agent_mfa_lockout,
    active_factor, consume_code, verify_totp_with_lockout, check_agent_mfa_lockout, check_factor_lockout,
    record_use, reset_mfa_lockout_after_success, record_totp_failure, record_agent_failed_attempt,
    record_failed_attempt, retry_secs.
  split; solve_versioned.
Qed.
Lemma second_factor_approval_versioned K app factor actor :
  versioned K (second_factor app (verify_approval_mfa app factor actor)).
Proof. apply second_factor_versioned. Qed.
Lemma second_factor_hold_versioned K app factor actor :
  versioned K (second_factor app (verify_mfa_factor app factor actor)).
Proof. apply second_factor_versioned. Qed.
Lemma expire_holds_versioned K rows expired : versioned K (expire_holds rows expired).
Proof.
  revert expired. induction rows as [|[id h] rows IH]; intros expired; [done|]. simpl.
  split; [done|]. intros [u|e]; [apply IH | done].
Qed.
Lemma announce_holds_versioned K expired : versioned K (announce_expired_holds expired).
Proof.
  revert K. induction expired as [|h expired IH]; intros K; [done|]. cbn [announce_expired_holds].
  unfold emit_quarantine_timed_out_provenance. solve_versioned; apply IH.
Qed.
#[export] Hint Resolve second_factor_approval_versioned second_factor_hold_versioned expire_holds_versioned
  announce_holds_versioned : versioned.

Lemma governance_call_versioned app p : governance_call app p → versioned [] p.
Proof.
  intros []; (apply versioned_bind; [|by intros]);
    unfold compile_intent, evaluate_proposal, intent_of_proposal, minimal_intent_for,
      evaluate_proposal_decision, evaluate_active_policy_bundles, inspect_proposal, report_anomaly,
      record_evaluation, create_quarantine_hold, list_approvals, get_approval, resolve_approval_handler,
      resolve_approval, record_approval_resolution, list_quarantine_holds, get_quarantine_hold,
      resolve_quarantine_hold, resolve_hold, record_hold_resolution, reconcile_quarantine_timeouts_once,
      expire_stale_holds, create_policy_bundle, list_policy_bundles, get_policy_bundle,
      update_policy_bundle, delete_policy_bundle, set_policy_bundle_active, simulate_policy,
      simulate_policy_bundle, simulated_intent, minimal_intent_for, evaluate_active_policy_bundles,
      list_policy_bundle_versions, diff_policy_bundle_versions, stored_version, rollback_policy_bundle,
      bundle_insert, bundle_update, bundle_set_active, bundle_rollback;
    solve_versioned.
Qed.

Record pool_history {A} (p : Pool A) : Prop := {
  ph_ok : history_ok (db_admin (w_db (p_world p)));
  ph_threads : ∀ i t, p_threads p !! i = Some t →
    ∃ K, versioned K t ∧ seen_in K (db_admin (w_db (p_world p)));
}.

Lemma version_writer_versioned app p : version_writer app p → versioned [] p.
Proof. intros [H|H]; [by eapply governance_call_versioned | by apply no_version_versioned]. Qed.

Lemma pool_step_history app env p p' :
  pool_history p → pool_step (version_writer app) env p p' →
  pool_history p' ∧ extends_history (db_admin (w_db (p_world p))) (db_admin (w_db (p_world p'))).
Proof.
  intros [Hok Hts] Hstep. destruct Hstep as [i X o k ts w x w' Hi Hx | t ts w Ht]; cbn in *.
  - destruct (Hts i _ Hi) as (K & [Ho Hk] & HK).
    destruct (exec_step env o w x w' K Hok HK Ho Hx) as (Hok' & Hext & HK'). split; [|done]. split; [done|].
    intros j t Hj. cbn in *. apply list_lookup_insert_Some in Hj as [(-> & <- & _)|[_ Hj]].
    + exists (learn o x K). split; [apply Hk | done].
    + destruct (Hts j t Hj) as (K' & Hv & HK''). exists K'. split; [done|].
      eapply seen_mono; [apply Hok | apply Hok' | done | done].
  - split; [|done]. split; [done|]. intros j t' Hj. cbn in *.
    apply lookup_app_Some in Hj as [Hj|[_ Hj]]; [by apply (Hts j)|].
    apply list_lookup_singleton_Some in Hj as [_ <-]. exists [].
    split; [by eapply version_writer_versioned | by intros ? ? ?%not_elem_of_nil].
Qed.

(** C23: whatever interleaving of handler calls runs, with whatever storage faults, the
    version history of every bundle stays numbered 1, 2, …, n without a gap or a
    repetition, each row under its own bundle, and rows already written are never
    removed, reordered or changed (but for their flag), even though a version's number
    is read and its row written by two separate statements. *)
Theorem version_history_gapless app env w0 p p' :
  history_ok (db_admin (w_db w0)) →
  pool_reach (version_writer app) env (mkPool [] w0) p →
  pool_reach (version_writer app) env p p' →
  history_ok (db_admin (w_db (p_world p'))) ∧
  extends_history (db_admin (w_db (p_world p))) (db_admin (w_db (p_world p'))).
Proof.
  assert (∀ p p', pool_history p → pool_reach (version_writer app) env p p' →
    pool_history p' ∧ extends_history (db_admin (w_db (p_world p))) (db_admin (w_db (p_world p')))) as Hmany.
  { intros q q' Hq Hr. induction Hr as [q|q q1 q' Hs _ IH]; [done|].
    destruct (pool_step_history _ _ _ _ Hq Hs) as [Hq1 H1]. destruct (IH Hq1) as [Hq' H2].
    split; [done | by etrans]. }
  intros Hok Hr Hr'. destruct (Hmany (mkPool [] w0) p) as [Hp _]; [|done|].
  - split; [done|]. intros i t Hi. cbn in Hi. by rewrite lookup_nil in Hi.
  - destruct (Hmany p p' Hp Hr') as [[Hok' _] Hext]. done.
Qed.

(** ** Rollback *)

(** What a rollback to the version [target] of a bundle has done. *)
Record rolled_back (bundle_id : string) (target : PolicyBundleVersion) (actor : option string)
    (now : Timestamp) (version : Z) (t t' : AdminTables) : Prop := {
  rb_version : version = (last_version bundle_id t + 1)%Z;
  rb_bundle : ∀ row, ad_bundles t !! bundle_id = Some row →
    ad_bundles t' = <[bundle_id := mkBundleRow (bw_created_at row)
      (pb_set_active true (pb_set_times (pb_created_at (pv_content target)) now (pv_content target)))]>
      (ad_bundles t);
  rb_gone : ad_bundles t !! bundle_id = None → ad_bundles t' = ad_bundles t;
  rb_history : ∃ id, ad_versions t' = ad_versions t ++
    [new_version_row id (pb_set_active true (pb_set_times (pb_created_at (pv_content target)) now (pv_content target)))
       version (Some ("Rollback to v" +:+ pretty (pv_version target))) actor];
  rb_rest : set_versions (ad_versions t) (set_bundles (ad_bundles t) t') = t;
}.

Lemma foldr_max_perm (l k : list Z) : l ≡ₚ k → foldr Z.max 0%Z l = foldr Z.max 0%Z k.
Proof. induction 1; cbn; lia. Qed.

Lemma max_version_foldr l : (∀ x, x ∈ l → (0 ≤ x)%Z) → default 0%Z (max_version l) = foldr Z.max 0%Z l.
Proof.
  assert (∀ l z, (0 ≤ z)%Z → foldr Z.max z l = Z.max z (foldr Z.max 0%Z l)) as Hz
    by (intros k; induction k as [|y k IH]; intros; cbn; [lia | rewrite IH by lia; lia]).
  destruct l as [|v l]; [done|]. intros Hl. cbn. rewrite Hz; [done|]. apply Hl. left.
Qed.

(** The number the handler reports as the previous one is the last of the history. *)
Lemma previous_version_last bundle_id t :
  gapless t →
  default 0%Z (max_version (pv_version <$> sort_desc pv_version (versions_of bundle_id t)))
  = last_version bundle_id t.
Proof.
  intros Hg. rewrite max_version_foldr.
  - apply foldr_max_perm. by rewrite sort_desc_perm.
  - intros x Hx. rewrite sort_desc_perm, Hg in Hx. apply elem_of_seqZ in Hx. lia.
Qed.

Section rollback.
Context (env : Env).

(** An administrative statement in a successful run. *)
Lemma succeeds_admin_step {T} w (a : admin_op T) (Φ : T → AdminTables → Prop) :
  (∀ x t', admin_exec (env_clock env (w_tick w)) a (db_admin (w_db w)) = (Ok x, t') → Φ x t') →
  succeeds env w (call (op_admin a)) (λ x w', Φ x (db_admin (w_db w')) ∧ only_admin (w_db w) (w_db w')).
Proof.
  intros H. eapply succeeds_mono; [|apply succeeds_admin]. intros x w' (t' & Hx & Hd). rewrite Hd.
  unfold only_admin. destruct (w_db w); cbn in *. split; [by apply H | done].
Qed.

Lemma insert_version_run b note by_ w :
  gapless (db_admin (w_db w)) →
  succeeds env w (insert_version b note by_) (λ n w', only_admin (w_db w) (w_db w') ∧
    n = (last_version (pb_bundle_id b) (db_admin (w_db w)) + 1)%Z ∧
    ∃ id, db_admin (w_db w') = set_versions (ad_versions (db_admin (w_db w)) ++ [new_version_row id b n note by_])
                                 (db_admin (w_db w))).
Proof.
  intros Hg. unfold insert_version.
  eapply succeeds_try; [apply (succeeds_admin_step w (AO_next_version _)
    (λ n t', n = (last_version (pb_bundle_id b) (db_admin (w_db w)) + 1)%Z ∧ t' = db_admin (w_db w)));
    by intros x t' [= <- <-]|].
  intros n w1 [[-> Hd1] Ho1]. step_pure. intros id w2 Hd2.
  eapply succeeds_try; [apply (succeeds_admin_step w2 (AO_insert_version _) (λ _ t',
    t' = set_versions (ad_versions (db_admin (w_db w)) ++ [new_version_row id b
           (last_version (pb_bundle_id b) (db_admin (w_db w)) + 1) note by_]) (db_admin (w_db w))))|].
  - intros x t'. rewrite Hd2, Hd1. cbn. unfold sql_insert_version. case_match; [done|]. by intros [= <- <-].
  - intros u w3 [Hd3 Ho3]. apply succeeds_ok. split_and!; [|done|by eexists].
    eapply only_admin_trans; [done|]. by rewrite <- Hd2.
Qed.

(** Marking the newest version active changes nothing when it is active already. *)
Lemma update_active_new id b t note by_ ident :
  gapless t → pb_bundle_id b = id → pb_active b = true →
  let row := new_version_row ident b (last_version id t + 1) note by_ in
  let t1 := set_versions (ad_versions t ++ [row]) t in
  sql_update_version_active id true t1 = (Ok tt, t1).
Proof.
  intros Hg Hid Hact row t1.
  assert (last_version id t1 = (last_version id t + 1)%Z) as Hlast.
  { unfold last_version, t1. rewrite versions_of_append. cbn [row new_version_row pv_bundle_id].
    rewrite decide_True, fmap_app, foldr_app by done. cbn. rewrite Hg.
    assert (∀ n z, (Z.of_nat n < z)%Z → foldr Z.max z (seqZ 1 (Z.of_nat n)) = z) as Hfold.
    { intros n z Hz. assert (∀ l, (∀ x, x ∈ l → (x ≤ z)%Z) → foldr Z.max z l = z) as Hl.
      { induction l as [|x l IH]; [done|]. intros Hx. cbn. rewrite IH by (intros; apply Hx; by right).
        specialize (Hx x ltac:(left)). lia. }
      apply Hl. intros x Hx%elem_of_seqZ. lia. }
    rewrite max_seqZ, (gapless_last _ _ Hg), Z.max_l by lia. apply Hfold. lia. }
  unfold sql_update_version_active. rewrite Hlast. f_equal. clear Hlast. unfold t1, set_versions.
  cbn [ad_versions ad_bundles ad_mfa ad_lockouts]. f_equal. rewrite fmap_app. f_equal.
  - rewrite <- (list_fmap_id (ad_versions t)) at 2. apply list_fmap_ext. intros i v Hv.
    destruct (String.eqb_spec (pv_bundle_id v) id) as [Hb|]; [|done]. cbn.
    destruct (Z.eqb_spec (pv_version v) (last_version id t + 1)) as [He|]; [|done]. exfalso.
    assert (pv_version v ∈ (pv_version <$> versions_of id t)) as Hin.
    { apply list_elem_of_fmap_2, list_elem_of_filter. split; [done | by eapply list_elem_of_lookup_2]. }
    rewrite Hg, elem_of_seqZ in Hin. rewrite (gapless_last _ _ Hg) in He. lia.
  - cbn. rewrite Hid, String.eqb_refl, Z.eqb_refl. cbn. unfold pv_set_active, row, new_version_row. cbn.
    by rewrite Hact, Hid.
Qed.

Lemma get_version_run id n w :
  succeeds env w (call (op_admin (AO_get_version id n))) (λ o w', w_db w' = w_db w ∧
    ∀ v, o = Some v → v ∈ ad_versions (db_admin (w_db w)) ∧ pv_bundle_id v = id ∧ pv_version v = n).
Proof.
  eapply succeeds_mono; [|apply succeeds_admin]. intros o w' (t' & Hx & Hd). cbn in Hx. injection Hx as <- <-.
  rewrite set_admin_same in Hd. split; [done|]. intros v [Hin Hv]%List.find_some.
  apply andb_true_iff in Hv as [->%String.eqb_eq ->%Z.eqb_eq]. by rewrite list_elem_of_In.
Qed.

(** The bundle put back in force. *)
Definition restored (now : Timestamp) (v : PolicyBundleVersion) : PolicyBundle :=
  pb_set_active true (pb_set_times (pb_created_at (pv_content v)) now (pv_content v)).

Lemma update_bundle_run b w :
  succeeds env w (call (op_admin (AO_update_bundle b))) (λ _ w', only_admin (w_db w) (w_db w') ∧
    let t := db_admin (w_db w) in
    db_admin (w_db w') = match ad_bundles t !! pb_bundle_id b with
                         | Some row => set_bundles (<[pb_bundle_id b := mkBundleRow (bw_created_at row) b]> (ad_bundles t)) t
                         | None => t
                         end).
Proof.
  eapply succeeds_mono; [|apply (succeeds_admin_step w (AO_update_bundle b) (λ _ t', t' = match ad_bundles (db_admin (w_db w)) !! pb_bundle_id b with
     | Some row => set_bundles (<[pb_bundle_id b := mkBundleRow (bw_created_at row) b]> (ad_bundles (db_admin (w_db w)))) (db_admin (w_db w))
     | None => db_admin (w_db w) end))].
  - intros u w' [-> H]. done.
  - intros u t'. cbn. unfold sql_update_bundle. case_match; by intros [= <- <-].
Qed.

Lemma bundle_rollback_run bundle_id n actor w :
  history_ok (db_admin (w_db w)) →
  succeeds env w (bundle_rollback bundle_id n actor) (λ version w', only_admin (w_db w) (w_db w') ∧
    ∃ target now, target ∈ ad_versions (db_admin (w_db w)) ∧ pv_bundle_id target = bundle_id ∧
      pv_version target = n ∧
      rolled_back bundle_id target actor now version (db_admin (w_db w)) (db_admin (w_db w'))).
Proof.
  intros [Hg Hl]. unfold bundle_rollback. eapply succeeds_try; [apply get_version_run|].
  intros o w1 [Hd1 Ho]. destruct o as [v|]; [|apply succeeds_err].
  destruct (Ho v eq_refl) as (Hin & Hb & Hn). clear Ho. step_pure. intros now w2 [_ Hd2].
  pose proof (Hl v Hin) as Hlab. rewrite Hb in Hlab. cbn zeta.
  change (pb_set_active true _) with (restored now v).
  eapply succeeds_try; [apply update_bundle_run|]. intros u3 w3 [Ho3 Hd3]. cbn zeta in Hd3.
  rewrite Hd2, Hd1 in Ho3, Hd3. change (pb_bundle_id (restored now v)) with (pb_bundle_id (pv_content v)) in Hd3.
  rewrite Hlab in Hd3. set (t := db_admin (w_db w)) in *.
  assert (ad_versions (db_admin (w_db w3)) = ad_versions t ∧ ad_mfa (db_admin (w_db w3)) = ad_mfa t ∧
    ad_lockouts (db_admin (w_db w3)) = ad_lockouts t) as (Hv3 & Hm3 & Hk3) by (rewrite Hd3; by case_match).
  assert (gapless (db_admin (w_db w3))) as Hg3 by (eapply same_frozen_gapless; [|done]; by rewrite Hv3).
  assert (last_version bundle_id (db_admin (w_db w3)) = last_version bundle_id t) as Hlast
    by (unfold last_version, versions_of; by rewrite Hv3).
  eapply succeeds_try; [by apply insert_version_run|]. intros version w4 (Ho4 & -> & id & Hd4).
  change (pb_bundle_id (restored now v)) with (pb_bundle_id (pv_content v)) in *. rewrite Hlab, Hlast in *.
  eapply succeeds_try; [apply (succeeds_admin_step w4 (AO_update_version_active bundle_id true)
    (λ _ t', t' = db_admin (w_db w4)))|].
  { intros x t'. cbn [admin_exec]. rewrite Hd4, <- Hlast, update_active_new by done. by intros [= _ <-]. }
  intros u5 w5 [Hd5 Ho5]. apply succeeds_ok. split; [do 2 (eapply only_admin_trans; [done|]); done|].
  exists v, now. split_and!; [done..|]. rewrite Hd5, Hd4. split; [done | | | |]; cbn.
  - intros row Hrow. rewrite Hd3, Hrow. done.
  - intros Hnone. rewrite Hd3, Hnone. done.
  - exists id. rewrite Hv3, Hn. done.
  - rewrite Hd3. case_match; by destruct t.
Qed.
End rollback.

