(* ===== verification/MfaAdminSpec.v ===== *)
(** * What the administration of second factors guarantees

    An agent has at most one factor in use, in every interleaving; removing or rotating it
    takes a fresh code of that factor, or break-glass authority and a reason. *)

From stdpp Require Import sorting.
From S2P Require Import Prelude Json Proto Admin Behavioral AuthState Transitions Store Adapter Effects Firewall.
From S2P Require Import Validation Lifecycle Mfa Policies Auth Principals MfaAdmin StoreFacts Evolution Logic.
From S2P Require Import RollbackSvc AuthorizeSpec RunSpec MfaSafety ReviewSpec PolicySpec.

(** ** At most one factor in use *)

Definition Factors := gmap string MfaCredentialRecord.

Definition single_active (m : Factors) : Prop :=
  ∀ i j a b, m !! i = Some a → m !! j = Some b → mc_agent_id a = mc_agent_id b →
  factor_in_use a = true → factor_in_use b = true → i = j.

(** No factor came into use. *)
Definition no_new_use (m m' : Factors) : Prop :=
  ∀ k r', m' !! k = Some r' → factor_in_use r' = true →
  ∃ r, m !! k = Some r ∧ mc_agent_id r = mc_agent_id r' ∧ factor_in_use r = true.

Lemma single_active_kept m m' : no_new_use m m' → single_active m → single_active m'.
Proof.
  intros H Hs i j a b Hi Hj Hab Ha Hb. destruct (H _ _ Hi Ha) as (a0 & Hi0 & Ea & Ha0).
  destruct (H _ _ Hj Hb) as (b0 & Hj0 & Eb & Hb0). apply (Hs _ _ _ _ Hi0 Hj0); congruence.
Qed.

Lemma no_new_use_refl m : no_new_use m m.
Proof. intros k r Hk Hr. by exists r. Qed.
Lemma no_new_use_trans m1 m2 m3 : no_new_use m1 m2 → no_new_use m2 m3 → no_new_use m1 m3.
Proof.
  intros H1 H2 k r Hk Hr. destruct (H2 _ _ Hk Hr) as (r2 & Hk2 & E2 & Hr2).
  destruct (H1 _ _ Hk2 Hr2) as (r1 & Hk1 & E1 & Hr1). exists r1. split_and!; [done|congruence|done].
Qed.

(** A row replaced by one of the same agent that is in use only if it was. *)
Lemma no_new_use_insert (m : Factors) id r0 r :
  m !! id = Some r0 → mc_agent_id r = mc_agent_id r0 → (factor_in_use r = true → factor_in_use r0 = true) →
  no_new_use m (<[id := r]> m).
Proof.
  intros Hid Ha Hu k r' Hk Hr. apply lookup_insert_Some in Hk as [[<- <-]|[_ Hk]]; [|by exists r'].
  exists r0. split_and!; [done|done|auto].
Qed.

Lemma update_factor_no_new id cond f d :
  (∀ r, cond r = true → mc_agent_id (f r) = mc_agent_id r ∧ (factor_in_use (f r) = true → factor_in_use r = true)) →
  no_new_use (ad_mfa d) (ad_mfa (update_factor id cond f d).2).
Proof.
  intros Hf. unfold update_factor. destruct (ad_mfa d !! id) as [r|] eqn:Hr; [|apply no_new_use_refl].
  destruct (cond r) eqn:Hc; [|apply no_new_use_refl]. destruct (Hf r Hc). destruct d. cbn in *.
  by eapply no_new_use_insert.
Qed.

Lemma insert_pending_no_new r d :
  factor_in_use r = false → no_new_use (ad_mfa d) (ad_mfa (sql_mfa_insert r d).2).
Proof.
  intros Hr. unfold sql_mfa_insert. destruct (ad_mfa d !! _) eqn:Hk; [apply no_new_use_refl|].
  destruct d. cbn in *. intros k r' Hk' Hr'. apply lookup_insert_Some in Hk' as [[_ ->]|[_ Hk']]; [congruence|by exists r'].
Qed.

(** Activation: the others of the agent go out of use first. *)
Lemma deactivated_other m id agent now k r' :
  map_imap (λ k r, Some (deactivate_others id agent now k r)) m !! k = Some r' → factor_in_use r' = true →
  m !! k = Some r' ∧ (mc_agent_id r' = agent → k = id).
Proof.
  rewrite map_lookup_imap. destruct (m !! k) as [r|] eqn:Hk; [|done]. cbn. intros [= <-]. unfold deactivate_others.
  destruct (String.eqb_spec (mc_agent_id r) agent) as [Ha|Ha], (String.eqb_spec k id) as [->|Hne]; cbn; try done.
  destruct (factor_in_use r) eqn:Hu; [by destruct r|congruence].
Qed.

Lemma activate_single id now d : single_active (ad_mfa d) → single_active (ad_mfa (sql_mfa_activate id now d).2).
Proof.
  intros Hs. unfold sql_mfa_activate. destruct (ad_mfa d !! id) as [target|] eqn:Hid; [|done].
  set (m1 := map_imap _ (ad_mfa d)).
  assert (∀ k r', ad_mfa (update_factor id pending_factor
              (λ r, mc_set_status MF_Active (Some now) (mc_revoked_at r) r) (set_mfa m1 d)).2 !! k = Some r' →
            factor_in_use r' = true → mc_agent_id r' = mc_agent_id target ∧ k = id ∨
            ad_mfa d !! k = Some r' ∧ mc_agent_id r' ≠ mc_agent_id target) as H.
  { intros k r' Hk Hr. assert (m1 !! k = Some r' ∨ k = id ∧ mc_agent_id r' = mc_agent_id target) as [Hk1|[-> ?]]; [|  |by left].
    - unfold update_factor in Hk. destruct d. cbn in *. destruct (m1 !! id) as [r|] eqn:H1; [|by left].
      destruct (pending_factor r); [|by left]. cbn in Hk. apply lookup_insert_Some in Hk as [[<- <-]|[_ Hk]]; [|by left].
      right. split; [done|]. unfold m1 in H1. rewrite map_lookup_imap, Hid in H1. injection H1 as <-.
      unfold deactivate_others. rewrite !String.eqb_refl. by destruct target.
    - destruct (deactivated_other _ _ _ _ _ _ Hk1 Hr) as [Hk0 Ha].
      destruct (decide (mc_agent_id r' = mc_agent_id target)) as [He|]; [left; auto|by right]. }
  intros i j a b Hi Hj Hab Ha Hb. destruct (H _ _ Hi Ha) as [[? ->]|[Hi0 ?]], (H _ _ Hj Hb) as [[? ->]|[Hj0 ?]];
    try congruence. by apply (Hs i j a b).
Qed.

(** A factor is stored out of use; everything else is free. *)
Definition enrols_pending_op {T} (a : admin_op T) : Prop :=
  match a with AO_mfa_insert r => factor_in_use r = false | _ => True end.
Definition enrols_pending_call {X} (o : op X) : Prop :=
  match o with op_admin a => enrols_pending_op a | _ => True end.
Abbreviation enrols_pending := (all_ops (@enrols_pending_call)).

(** An operation that neither brings a factor into use nor stores one that is. *)
Definition idle_call {X} (o : op X) : Prop :=
  match o with
  | op_admin (AO_mfa_insert r) => factor_in_use r = false
  | op_admin (AO_mfa_activate _) => False
  | _ => True
  end.
Abbreviation idle_prog := (all_ops (@idle_call)).
Lemma idle_enrols {A} (p : prog A) : idle_prog p → enrols_pending p.
Proof. apply all_ops_mono. intros X o. destruct o; try done. by destruct a. Qed.

Lemma admin_exec_no_new now {T} (a : admin_op T) t :
  idle_call (op_admin a) → no_new_use (ad_mfa t) (ad_mfa (admin_exec now a t).2).
Proof.
  intros Ha. destruct a; cbn [admin_exec]; cbn in Ha; try done;
    try (unfold sql_insert_bundle, sql_update_bundle, sql_insert_version, sql_lockout_fail, sql_lockout_reset,
           sql_token_insert, sql_token_revoke, sql_token_touch, sql_agent_insert, sql_agent_revoke, sql_audit;
         repeat case_match; destruct t; apply no_new_use_refl);
    first [by apply insert_pending_no_new | by apply update_factor_no_new; intros []].
Qed.

Lemma admin_exec_single now {T} (a : admin_op T) t :
  enrols_pending_op a → single_active (ad_mfa t) → single_active (ad_mfa (admin_exec now a t).2).
Proof.
  intros Ha Hs. assert (idle_call (op_admin a) ∨ ∃ id, (admin_exec now a t).2 = (sql_mfa_activate id now t).2) as [Hi|(id & ->)].
  { destruct a; try (by left). right. by exists id. }
  - eapply single_active_kept, Hs. by apply admin_exec_no_new.
  - by apply activate_single.
Qed.

(** At most one factor in use, kept. *)
Definition single_kept (w w' : World) : Prop :=
  single_active (ad_mfa (db_admin (w_db w))) → single_active (ad_mfa (db_admin (w_db w'))).
#[export] Instance single_kept_preorder : PreOrder single_kept.
Proof. split; [intros w H; exact H|]. intros w1 w2 w3 H1 H2 H. by apply H2, H1. Qed.

(** An operation that is no statement over the administrative tables leaves them. *)
Lemma exec_op_tables env {X} (o : op X) w x w' :
  exec_op env o w = (x, w') →
  db_admin (w_db w') = db_admin (w_db w) ∨
  ∃ T (a : admin_op T) now, (enrols_pending_call o → enrols_pending_op a) ∧ (idle_call o → idle_call (op_admin a)) ∧
    db_admin (w_db w') = (admin_exec now a (db_admin (w_db w))).2.
Proof.
  intros Hx. assert ((match o with op_admin _ => False | _ => True end) → db_admin (w_db w') = db_admin (w_db w)) as Hother.
  { intros Hn. pose proof (exec_op_admin env o w Hn) as Hd. by rewrite Hx in Hd. }
  destruct o; try (left; exact (Hother I)). clear Hother. destruct w as [d mem m l t]. cbn in Hx. unfold sql_admin in Hx.
  destruct (admin_exec (env_clock env t) a (db_admin d)) as [r tables] eqn:Ha.
  assert (w_db w' = d ∨ w_db w' = set_admin tables d) as [->| ->]; [|by left|].
  { destruct (env_fault env t) as [[]|]; simplify_eq; auto. }
  right. exists T, a, (env_clock env t). cbn [w_db]. rewrite Ha. by destruct d.
Qed.

Lemma exec_op_single env {X} (o : op X) w x w' :
  enrols_pending_call o → exec_op env o w = (x, w') → single_kept w w'.
Proof.
  intros Ho Hx Hs. destruct (exec_op_tables env o w x w' Hx) as [->|(T & a & now & H1 & _ & ->)]; [done|].
  apply admin_exec_single; auto.
Qed.

(** ** The programs *)

(** A program that stores no factor itself. *)
Abbreviation stores_no_factor :=
  (all_ops (λ X (o : op X), match o with op_admin (AO_mfa_insert _) => False | _ => True end)).
Lemma stores_no_factor_enrols {A} (p : prog A) : stores_no_factor p → enrols_pending p.
Proof.
  induction p as [a|X o k IH]; cbn; [done|]. intros [Ho Hk]. split; [|intros x; by apply IH]. destruct o; try done. by destruct a.
Qed.

Section handlers.
Context (mlib : MfaLib) (app : App) (issuer : string).

(** The calls that administer factors, among others that do not. *)
Inductive factor_call : prog unit → Prop :=
| fc_enroll agent actor entropy : factor_call (discard (enroll_mfa mlib app issuer agent actor entropy))
| fc_verify agent actor code : factor_call (discard (verify_mfa app agent actor code))
| fc_disable agent actor request : factor_call (discard (disable_mfa app agent actor request))
| fc_rotate agent actor request entropy : factor_call (discard (rotate_mfa mlib app issuer agent actor request entropy))
| fc_other p : stores_no_factor p → factor_call p.

Lemma store_new_factor_idle route text key agent entropy : idle_prog (store_new_factor mlib app route text key agent entropy).
Proof.
  unfold store_new_factor, or_broken, refuse_counted, refuse. destruct (encrypt_secret _ _ _ _) as [[c n]|e]; [|solve_all_ops].
  apply all_ops_bind; [solve_all_ops|intros id]. apply all_ops_bind; [solve_all_ops|intros now].
  apply all_ops_bind; [|intros ?; solve_all_ops]. apply all_ops_bind; [by apply all_ops_call|intros ?; solve_all_ops].
Qed.

Lemma audit_idle actor action id details : idle_prog (mfa_audit app actor action id details).
Proof. unfold mfa_audit, append_audit_checked, append_audit, audit_append. solve_all_ops. Qed.
Lemma use_code_idle route key agent record code : idle_prog (use_code app route key agent record code).
Proof.
  unfold use_code, totp_check, verify_totp_with_lockout, check_agent_mfa_lockout, check_factor_lockout, record_totp_failure,
    record_agent_failed_attempt, record_failed_attempt, retry_secs, totp_refusal, or_broken, record_use,
    reset_mfa_lockout_after_success, refuse_counted, refuse.
  solve_all_ops.
Qed.
Lemma breakglass_idle active code reason actor route : idle_prog (verify_or_breakglass app active code reason actor route).
Proof.
  unfold verify_or_breakglass, resolve_mfa_key, refuse_counted, refuse. solve_all_ops; apply use_code_idle.
Qed.

Lemma factor_call_enrols p : factor_call p → enrols_pending p.
Proof.
  intros [| | | |q Hq]; [..|by apply stores_no_factor_enrols]; unfold discard; (apply all_ops_bind; [|intros ?; exact I]).
  - unfold enroll_mfa, resolve_mfa_key, mfa_answer, refuse. solve_all_ops;
      first [apply idle_enrols, store_new_factor_idle | apply idle_enrols, audit_idle].
  - unfold verify_mfa, resolve_mfa_key, mfa_answer, or_broken, check_agent_mfa_lockout, refuse_counted, refuse.
    solve_all_ops; first [apply idle_enrols, use_code_idle | apply idle_enrols, audit_idle].
  - unfold disable_mfa, revoke_factor, mfa_answer, or_broken, refuse_counted, refuse.
    solve_all_ops; first [apply idle_enrols, breakglass_idle | apply idle_enrols, audit_idle].
  - unfold rotate_mfa, retire_active, resolve_mfa_key, revoke_factor, mfa_answer, or_broken, refuse_counted, refuse.
    solve_all_ops; first [apply idle_enrols, breakglass_idle | apply idle_enrols, store_new_factor_idle | apply idle_enrols, audit_idle].
Qed.

(** C32: In every interleaving of enrolments, verifications, removals and rotations with
    any programs that do not store factors themselves, under any faults, no agent has two
    factors in use, provided none had before. *)
Theorem one_factor_in_use env w p :
  single_active (ad_mfa (db_admin (w_db w))) → pool_reach factor_call env (mkPool [] w) p →
  ∀ i j a b,
    ad_mfa (db_admin (w_db (p_world p))) !! i = Some a → ad_mfa (db_admin (w_db (p_world p))) !! j = Some b →
    mc_agent_id a = mc_agent_id b → factor_in_use a = true → factor_in_use b = true → i = j.
Proof. intros Hs Hr. exact (all_ops_pool _ env single_kept (@exec_op_single env) _ (mkPool [] w) p factor_call_enrols (Forall_nil_2 _) Hr Hs). Qed.
End handlers.

(** ** Removal is authorised *)

(** No factor comes into use. *)
Definition idle_step (w w' : World) : Prop :=
  no_new_use (ad_mfa (db_admin (w_db w))) (ad_mfa (db_admin (w_db w'))).
#[export] Instance idle_step_preorder : PreOrder idle_step.
Proof. split; [intros w; apply no_new_use_refl|]. intros w1 w2 w3. apply no_new_use_trans. Qed.

Lemma exec_op_idle env {X} (o : op X) w x w' : idle_call o → exec_op env o w = (x, w') → idle_step w w'.
Proof.
  intros Ho Hx. unfold idle_step. destruct (exec_op_tables env o w x w' Hx) as [->|(T & a & now & _ & H & ->)].
  - apply no_new_use_refl.
  - apply admin_exec_no_new; auto.
Qed.

Lemma idle_run env {A} (p : prog A) w r w' : idle_prog p → run env p w = (r, w') → idle_step w w'.
Proof. intros Hp Hr. pose proof (all_ops_run _ env idle_step (@exec_op_idle env) p w Hp) as H. by rewrite Hr in H. Qed.

Section removal.
Context (env : Env) (mlib : MfaLib) (app : App) (issuer : string).

(** A factor is stored under its id. *)
Definition factors_keyed (m : Factors) : Prop := ∀ id r, m !! id = Some r → mc_mfa_factor_id r = id.

(** What the removal of a factor takes, in a run from [w] to [w']: a code of it, not used
    before, while its agent's lock has less than a second left and the factor is not
    locked; or the break-glass scope and a reason. *)
Definition removal_authorized (w w' : World) (row : MfaCredentialRecord) (req : MfaDisableRequest) (actor : option AuthActor) : Prop :=
  match mdr_code req with
  | Some code => ∃ key counter, mfa_key app = Ok key ∧
      lock_over env (agent_lock w (mc_agent_id row)) 999999999 w w' ∧ lock_over env (mc_locked_until row) 0 w w' ∧
      code_matches app env row key code counter w w' ∧
      match mc_last_used_counter row with Some c => (c < counter)%Z | None => True end
  | None => ∃ a, actor = Some a ∧ has_scope a "admin:mfa:breakglass" = true ∧
      str_trim_is_empty (default "" (mdr_reason req)) = false
  end.

Lemma removal_authorized_wider w0 w w' w1 row req actor :
  w_db w0 = w_db w → w_tick w0 ≤ w_tick w → w_tick w' ≤ w_tick w1 →
  removal_authorized w w' row req actor → removal_authorized w0 w1 row req actor.
Proof.
  intros Hd H0 H1. unfold removal_authorized, agent_lock. rewrite Hd. destruct (mdr_code req) as [code|]; [|done].
  intros (key & c & Hk & Ha & Hl & Hm & Hf). exists key, c.
  split_and!; [done | by eapply lock_over_wider | by eapply lock_over_wider | by eapply code_matches_wider | done].
Qed.

Lemma row_to_record_id r : mc_mfa_factor_id (row_to_record r) = mc_mfa_factor_id r ∧ factor_in_use (row_to_record r) = factor_in_use r.
Proof. by destruct r. Qed.

Lemma succeeds_or_broken {T} w route text (p : prog (result T StoreError)) Φ :
  succeeds env w p Φ → succeeds env w (or_broken app route text p) Φ.
Proof.
  intros Hp x w'. unfold or_broken. rewrite run_bind. destruct (run env p w) as [[y|e] w1] eqn:Hr.
  - intros [= <- <-]. by apply Hp.
  - unfold refuse_counted, refuse. destruct w1. by cbn.
Qed.
Lemma succeeds_refuse_counted {T} w route p (Φ : T → World → Prop) : succeeds env w (refuse_counted app route p) Φ.
Proof. intros x w'. unfold refuse_counted, refuse. destruct w. by cbn. Qed.

Lemma use_code_run route key code row w :
  ad_mfa (db_admin (w_db w)) !! mc_mfa_factor_id row = Some row →
  succeeds env w (use_code app route key (mc_agent_id row) (row_to_record row) code) (λ _ w', ∃ counter,
    lock_over env (agent_lock w (mc_agent_id row)) 999999999 w w' ∧ lock_over env (mc_locked_until row) 0 w w' ∧
    code_matches app env row key code counter w w' ∧
    match mc_last_used_counter row with Some c => (c < counter)%Z | None => True end).
Proof.
  intros Hrow u w' Hrun. pose proof (run_tick _ _ _ _ _ Hrun) as Hend. revert Hrun Hend.
  unfold use_code, totp_check. rewrite run_bind.
  destruct (run env (verify_totp_with_lockout _ _ _ _ _ _ _) w) as [[c|s| |] w1] eqn:Hv;
    [|intros H; by destruct w1..]. apply verify_totp_run in Hv as (Hd1 & Hver).
  rewrite (proj1 (row_to_record_id row)). intros Hrun _.
  enough (w_tick w1 ≤ w_tick w' ∧ match mc_last_used_counter row with Some c0 => (c0 < c)%Z | None => True end) as [Ht Hf].
  { destruct (totp_verified_wider app env row key code c w w1 w' Ht Hver) as (Ha & Hl & Hm). by exists c. }
  split; [by eapply run_tick|]. revert u w' Hrun.
  eapply (succeeds_try env w1); [apply succeeds_or_broken, (record_use_run env _ row); by rewrite Hd1|].
  intros used w2 Hu. destruct used; cbn [negb]; [|apply succeeds_refuse_counted]. destruct (Hu eq_refl) as [Hfresh _ _].
  eapply succeeds_mono; [|apply succeeds_or_broken, reset_run]. by intros _ w3 _.
Qed.

Lemma breakglass_run row req actor route w :
  ad_mfa (db_admin (w_db w)) !! mc_mfa_factor_id row = Some row →
  succeeds env w (verify_or_breakglass app (row_to_record row) (mdr_code req) (mdr_reason req) actor route)
    (λ _ w', removal_authorized w w' row req actor ∧ idle_step w w').
Proof.
  intros Hrow u w' Hr. pose proof (idle_run env _ w _ w' (breakglass_idle app _ _ _ _ _) Hr) as Hidle. split; [|done].
  clear Hidle. revert u w' Hr. unfold verify_or_breakglass, removal_authorized. destruct (row_to_record_fields row) as (-> & _).
  destruct (mdr_code req) as [code|].
  - unfold resolve_mfa_key. destruct (mfa_key app) as [key|p]; [|done].
    intros u w' Hr. destruct (use_code_run route key code row w Hrow u w' Hr) as (c & H). by exists key, c.
  - destruct actor as [a|]; cbn [negb]; [|intros u w' H; destruct w; by cbn in H].
    destruct (has_scope a _) eqn:Hs; cbn [negb]; [|intros u w' H; destruct w; by cbn in H].
    destruct (str_trim_is_empty _) eqn:Hb; [intros u w' H; destruct w; by cbn in H|]. intros u w' _. by exists a.
Qed.

(** The factor in use of an agent, when there is one only. *)
Lemma active_for_agent m t row agent :
  ad_mfa t = m → single_active m → factors_keyed m → m !! mc_mfa_factor_id row = Some row → mc_agent_id row = agent →
  factor_in_use row = true → (sql_mfa_active_for_agent agent t).1 = Ok (Some (row_to_record row)).
Proof.
  intros Hm Hs Hk Hrow Ha Hu. unfold sql_mfa_active_for_agent. cbn. f_equal.
  set (l := filter _ (factors_of agent t)).
  assert (∀ r, r ∈ l → r = row_to_record row) as Hall.
  { intros r [Hr1 Hr2]%list_elem_of_filter. unfold factors_of in Hr2. apply list_elem_of_fmap in Hr2 as (r0 & -> & Hr0).
    rewrite merge_sort_Permutation in Hr0. apply list_elem_of_filter in Hr0 as [Hag Hin].
    apply list_elem_of_fmap in Hin as ([k r1] & -> & Hin). apply elem_of_map_to_list in Hin. cbn in *.
    apply Is_true_true, String.eqb_eq in Hag. apply Is_true_true in Hr1. rewrite (proj2 (row_to_record_id _)) in Hr1.
    rewrite Hm in Hin. assert (k = mc_mfa_factor_id row) as -> by (eapply Hs; [done|done|congruence|done|done]). by simplify_eq. }
  assert (row_to_record row ∈ l) as Hin.
  { apply list_elem_of_filter. split; [rewrite (proj2 (row_to_record_id _)), Hu; done|]. unfold factors_of.
    apply list_elem_of_fmap_2. rewrite merge_sort_Permutation. apply list_elem_of_filter.
    split; [apply Is_true_true, String.eqb_eq; done|]. apply list_elem_of_fmap. exists (mc_mfa_factor_id row, row).
    split; [done|]. apply elem_of_map_to_list. by rewrite Hm. }
  destruct l as [|r l]; [by apply not_elem_of_nil in Hin|]. cbn. f_equal. apply Hall. left.
Qed.

(** Out of use, or gone. *)
Definition out_of_use (id : string) (w : World) : Prop :=
  ∀ r, ad_mfa (db_admin (w_db w)) !! id = Some r → factor_in_use r = false.

Lemma out_of_use_idle id w w' : idle_step w w' → out_of_use id w → out_of_use id w'.
Proof.
  intros Hi Ho r Hr. destruct (factor_in_use r) eqn:Hu; [|done]. destruct (Hi _ _ Hr Hu) as (r0 & Hr0 & _ & Hu0).
  by rewrite (Ho _ Hr0) in Hu0.
Qed.

Lemma revoke_run id w : succeeds env w (revoke_factor id) (λ _ w', out_of_use id w').
Proof.
  unfold revoke_factor. step_pure. intros now w1 [_ _]. eapply succeeds_mono; [|apply succeeds_admin].
  intros b w2 (tables & Hx & Hd) r. rewrite Hd. cbn in Hx. unfold sql_mfa_revoke, update_factor in Hx.
  destruct (ad_mfa (db_admin (w_db w1)) !! id) as [r0|] eqn:Hr0.
  - destruct (bool_decide (mc_revoked_at r0 = None)) eqn:Hc; injection Hx as _ <-; destruct (w_db w1); cbn in *.
    + rewrite lookup_insert_eq. intros [= <-]. by destruct r0.
    + rewrite Hr0. intros [= <-]. unfold factor_in_use. by rewrite Hc, andb_false_r.
  - injection Hx as _ <-. destruct (w_db w1); cbn in *. by rewrite Hr0.
Qed.

(** Both handlers find the factor in use, check the authority and revoke the factor. *)
Lemma retired_run {S} row agent actor req route text1 text2 (k : option MfaCredentialRecord → prog (result S ApiProblem))
    (k' : MfaCredentialRecord → bool → prog (result S ApiProblem)) w Φ :
  single_active (ad_mfa (db_admin (w_db w))) → factors_keyed (ad_mfa (db_admin (w_db w))) →
  ad_mfa (db_admin (w_db w)) !! mc_mfa_factor_id row = Some row → mc_agent_id row = agent → factor_in_use row = true →
  (∀ active, k (Some active) =
     (_ <-? verify_or_breakglass app active (mdr_code req) (mdr_reason req) actor route ;;
      revoked <-? or_broken app route text2 (revoke_factor (mc_mfa_factor_id active)) ;; k' active revoked)) →
  (∀ b w', out_of_use (mc_mfa_factor_id row) w' → removal_authorized w w' row req actor →
     succeeds env w' (k' (row_to_record row) b) Φ) →
  succeeds env w (found <-? or_broken app route text1 (call (op_admin (AO_mfa_active_for_agent agent))) ;; k found) Φ.
Proof.
  intros Hs Hk Hrow Ha Hu Hcont Hafter.
  eapply succeeds_try; [apply succeeds_ticks, succeeds_or_broken, succeeds_admin|]. cbn beta.
  intros found w1 [(t & Hx & Hd1) Ht1]. cbn in Hx.
  pose proof (active_for_agent _ _ _ _ eq_refl Hs Hk Hrow Ha Hu) as Hact.
  unfold sql_mfa_active_for_agent in Hact. cbn in Hact. injection Hx as <- <-. injection Hact as ->.
  rewrite set_admin_same in Hd1. rewrite Hcont.
  eapply succeeds_try; [apply breakglass_run; by rewrite Hd1|]. intros [] w2 [Hauth _].
  eapply succeeds_try; [apply succeeds_ticks, succeeds_or_broken, revoke_run|]. rewrite (proj1 (row_to_record_id row)).
  intros b w3 [Hout Ht3]. apply Hafter; [done|]. by eapply removal_authorized_wider.
Qed.

(** The rest of a handler brings no factor into use. *)
Lemma rest_idle {T} id (p : prog (result T ApiProblem)) w : idle_prog p → out_of_use id w → succeeds env w p (λ _ w', out_of_use id w').
Proof. intros Hp Ho x w' Hr. eapply out_of_use_idle; [by eapply idle_run|done]. Qed.
Lemma rest_authorized {T} row req actor (p : prog (result T ApiProblem)) w0 w :
  idle_prog p → out_of_use (mc_mfa_factor_id row) w → removal_authorized w0 w row req actor →
  succeeds env w p (λ _ w', removal_authorized w0 w' row req actor ∧ out_of_use (mc_mfa_factor_id row) w').
Proof.
  intros Hp Ho Ha x w' Hr. split; [|by eapply rest_idle]. apply run_tick in Hr. by eapply removal_authorized_wider.
Qed.

(** C31: When a removal or a rotation of an agent's factor succeeds, the factor that was in
    use is out of use, and either the request carried a code of that very factor for a
    later step than every one accepted before, checked at readings of the clock during the
    request at which a lock of the agent had less than a second left and no lock of the
    factor was running; or the caller held the break-glass scope and gave a reason. *)
Theorem factor_removal_authorized agent actor request row w v w' :
  single_active (ad_mfa (db_admin (w_db w))) → factors_keyed (ad_mfa (db_admin (w_db w))) →
  ad_mfa (db_admin (w_db w)) !! mc_mfa_factor_id row = Some row → mc_agent_id row = agent → factor_in_use row = true →
  run env (disable_mfa app agent actor request) w = (Ok v, w') ∨
  (∃ entropy, run env (rotate_mfa mlib app issuer agent actor request entropy) w = (Ok v, w')) →
  removal_authorized w w' row (default no_code request) actor ∧
  ∀ r, ad_mfa (db_admin (w_db w')) !! mc_mfa_factor_id row = Some r → factor_in_use r = false.
Proof.
  intros Hs Hk Hrow Ha Hu [Hr|[entropy Hr]]; revert v w' Hr.
  - unfold disable_mfa. eapply retired_run; [done..|reflexivity|]. intros revoked w1 Hout Hauth. cbn beta iota.
    apply rest_authorized; [|done..]. unfold refuse_counted, refuse, mfa_answer. solve_all_ops; apply audit_idle.
  - unfold rotate_mfa, resolve_mfa_key. destruct (mfa_key app) as [key|p]; [|done]. cbn [bind].
    eapply (succeeds_try env w). (* retire_active *)
    + unfold retire_active. eapply retired_run; [done..|reflexivity|]. intros b w1 Hout Hauth. cbn beta iota.
      apply rest_authorized; [exact I|done|exact Hauth].
    + intros active w1 [Hauth Hout]. apply rest_authorized; [|done..]. unfold mfa_answer.
      solve_all_ops; first [apply store_new_factor_idle | apply audit_idle].
Qed.
End removal.
