(* ===== verification/AuthSpec.v ===== *)
(** * Authentication is sound

    What the middleware has checked when it lets a request through, in each mode, and
    that a revocation is permanent. *)

From S2P Require Import Prelude Json Proto Admin Behavioral AuthState Store Effects Validation Lifecycle Auth.
From S2P Require Import StoreFacts Evolution AuthorizeSpec RunSpec StoreSafety PolicySpec.

(** ** Headers and scopes *)

(** The request carries the bearer value. *)
Definition presents (request : HttpRequest) (value : string) : Prop :=
  hq_headers request !! "Authorization" = Some ("Bearer " +:+ value).

Lemma substring_whole s : String.substring 0 (String.length s) s = s.
Proof. induction s as [|c s IH]; simpl; [done | by rewrite IH]. Qed.

Lemma bearer_value_ok request value : bearer_value request = Ok value → presents request value.
Proof.
  unfold bearer_value, presents. destruct (hq_headers request !! "Authorization") as [header|]; [|done].
  destruct (str_starts_with "Bearer " header) eqn:Hs; [|done]. intros [= <-].
  apply str_starts_with_spec in Hs as [rest ->].
  change (String.length ("Bearer " +:+ rest)) with (7 + String.length rest).
  replace (7 + String.length rest - 7) with (String.length rest) by lia.
  change (String.substring 7 ?n ("Bearer " +:+ rest)) with (String.substring 0 n rest). by rewrite substring_whole.
Qed.

(** The scopes cover what the route needs. *)
Definition scope_held (scopes : list string) (request : HttpRequest) : Prop :=
  ∃ s, required_scope_for_path (hq_method request) (hq_path request) = Some s ∧ ("*" ∈ scopes ∨ s ∈ scopes).

Lemma scopes_allow_spec scopes s : scopes_allow scopes s = true ↔ "*" ∈ scopes ∨ s ∈ scopes.
Proof.
  unfold scopes_allow. rewrite existsb_exists. setoid_rewrite orb_true_iff. setoid_rewrite String.eqb_eq.
  setoid_rewrite <- list_elem_of_In. naive_solver.
Qed.

Lemma required_scope_some method path : is_Some (required_scope_for_path method path).
Proof.
  assert (∀ (b : bool) (s : string) o, is_Some o → is_Some (if b then Some s else o)) as Hif
    by (intros [] s o; eauto).
  unfold required_scope_for_path. cbv zeta. repeat (apply Hif). by eexists.
Qed.

Lemma scope_granted_ok scopes request :
  scope_granted scopes (hq_method request) (hq_path request) = Ok tt → scope_held scopes request.
Proof.
  unfold scope_granted, scope_held. destruct (required_scope_some (hq_method request) (hq_path request)) as [s ->].
  destruct (scopes_allow scopes s) eqn:Hs; [|done]. intros _. exists s. split; [done | by apply scopes_allow_spec].
Qed.

(** ** What a run finds *)

Section sound.
Context (lib : CryptoLib) (app : App) (env : Env).

Abbreviation tables w := (db_admin (w_db w)).

(** A read of the administrative tables answers from the tables and takes a tick. *)
Lemma admin_read_inv {T} (a : admin_op T) w x w' :
  exec_op env (op_admin a) w = (Ok x, w') →
  w_tick w' = S (w_tick w) ∧ ∃ t, admin_exec (env_clock env (w_tick w)) a (tables w) = (Ok x, t).
Proof.
  intros Hx. split.
  - destruct w as [d mem m l t]. cbn in Hx. destruct (env_fault env t) as [[]|]; [done..|].
    destruct (sql_admin _ d). injection Hx as _ Hw. by rewrite <- Hw.
  - destruct (succeeds_admin env w a x w') as (t & Ht & _); [|by exists t].
    unfold call. cbn [run]. by rewrite Hx.
Qed.

(** A stored token that the value belongs to. *)
Record token_accepted (w : World) (now : Timestamp) (value : string) (id : string) (tok : ScopedToken) : Prop := {
  ta_stored : ad_tokens (tables w) !! id = Some tok;
  ta_lookup : st_token_lookup_hash tok = hash_token_value lib value;
  ta_hash : st_token_hash tok = hash_token_with_salt lib value (st_token_salt tok);
  ta_unrevoked : st_revoked_at tok = None;
  ta_unexpired : (now ≤ st_expires_at tok)%Z;
}.

(** The actor a token stands for. *)
Definition token_actor (tok : ScopedToken) : AuthActor :=
  {| aa_actor_id := st_actor_id tok; aa_source := "scoped"; aa_scopes := st_scopes tok; aa_role := Some (st_role tok) |}.

Lemma scoped_auth_inv request w actor touched w' :
  run env (scoped_auth lib request) w = (AuthNext actor touched, w') →
  ∃ value id tok, presents request value ∧ token_accepted w (env_clock env (S (w_tick w))) value id tok ∧
    scope_held (st_scopes tok) request ∧ actor = Some (token_actor tok) ∧ touched = Some (st_token_id tok).
Proof.
  unfold scoped_auth. destruct (bearer_value request) as [value|e] eqn:Hb; cycle 1.
  { unfold bearer_value in Hb. repeat case_match; simplify_eq; cbn [run]; intros; simplify_eq. }
  rewrite run_call. destruct (exec_op env _ w) as [[[tok|]|e] w1] eqn:Hx; [|done..].
  destruct (String.eqb _ _) eqn:Hh; cbn [negb]; [|done]. case_bool_decide as Hr; [done|].
  rewrite run_now. destruct (_ <? _)%Z eqn:He; [done|].
  destruct (scope_granted _ _ _) as [[]|] eqn:Hs; [|done]. cbn [run]. intros [= <- <- <-].
  apply admin_read_inv in Hx as [Htick [t Ht]]. rewrite Htick in He. cbn in Ht.
  unfold sql_token_by_lookup_hash in Ht. injection Ht as Hhead _.
  apply head_Some_elem_of, list_elem_of_filter in Hhead as [Hl Hin].
  apply list_elem_of_fmap in Hin as [[id tok'] [-> Hin]]. apply elem_of_map_to_list in Hin.
  exists value, id, tok'. split_and!; [by apply bearer_value_ok | | by apply scope_granted_ok | done..].
  constructor; [done | | | | ].
  - apply Is_true_true, String.eqb_eq in Hl. by simpl in Hl.
  - apply String.eqb_eq in Hh. by simpl in Hh.
  - by apply eq_None_not_Some.
  - apply Z.ltb_ge in He. by simpl in He.
Qed.
(** ** Agents *)

(** The signature is the agent's, over the parts of the request. *)
Definition signed_by (agent : AgentRecord) (payload signature_b64 : string) : Prop :=
  ∃ pk s, cl_base64_decode lib (ag_public_key agent) = Some pk ∧ String.length pk = 32 ∧
    cl_ed25519_key lib pk = true ∧ cl_base64_decode lib signature_b64 = Some s ∧ String.length s = 64 ∧
    cl_ed25519_verify lib pk payload s = true.

Lemma verify_signature_ok agent signature_b64 payload :
  verify_signature lib agent signature_b64 payload = Ok tt → signed_by agent payload signature_b64.
Proof.
  unfold verify_signature, signed_by, agent_check.
  destruct (cl_base64_decode lib signature_b64) as [s|]; cbn; [|done].
  destruct (_ =? 64)%nat eqn:H64; cbn; [|done].
  destruct (cl_base64_decode lib (ag_public_key agent)) as [pk|]; cbn; [|done].
  destruct (_ =? 32)%nat eqn:H32; cbn; [|done]. destruct (cl_ed25519_key lib pk) eqn:Hk; cbn; [|done].
  destruct (cl_ed25519_verify lib pk payload s) eqn:Hv; [|done]. intros _.
  apply Nat.eqb_eq in H64, H32. by exists pk, s.
Qed.

Abbreviation nonces w := (am_nonces (mem_auth (w_mem w))).

(** A request of a registered agent: the clock is read at the first tick, the nonce
    checked at the second. *)
Record agent_accepted (w w' : World) (request : HttpRequest) (agent_id timestamp nonce hash signature : string)
    (ts : Timestamp) (agent : AgentRecord) : Prop := {
  aq_headers : agent_headers request = Ok (agent_id, timestamp, nonce, hash, signature);
  aq_time : ext_parse_rfc3339 (app_ext app) timestamp = Some ts;
  aq_skew : let skew := seconds (cfg_agent_clock_skew_secs (app_config app)) in
            let now := env_clock env (w_tick w) in (now - skew ≤ ts ≤ now + skew)%Z;
  aq_nonce : check_and_insert (cfg_nonce_cache_max_entries (app_config app)) (env_hash env (S (w_tick w))) nonce
               (nonce_ttl app) (env_instant env (S (w_tick w))) (nonces w) = (true, nonces w');
  aq_body : body_hash lib request = Ok hash;
  aq_stored : ad_agents (tables w) !! agent_id = Some agent;
  aq_unrevoked : ag_revoked_at agent = None;
  aq_signed : signed_by agent (canonical_payload agent_id timestamp nonce hash (hq_method request) (hq_path request))
                signature;
}.

Definition agent_actor (agent_id : string) (agent : AgentRecord) : AuthActor :=
  {| aa_actor_id := agent_id; aa_source := "agent"; aa_scopes := ag_allowed_scopes agent; aa_role := None |}.

(** The checks after the agent is loaded. *)
Lemma agent_checks_ok agent request agent_id payload signature outcome :
  (let? _ := agent_check (bool_decide (ag_revoked_at agent = None)) "agent revoked" in
   let? _ := verify_signature lib agent signature payload in
   let? _ := map_err AgentForbidden (scope_granted (ag_allowed_scopes agent) (hq_method request) (hq_path request)) in
   Ok (AuthNext (Some (agent_actor agent_id agent)) None)) = Ok outcome →
  ag_revoked_at agent = None ∧ signed_by agent payload signature ∧ scope_held (ag_allowed_scopes agent) request ∧
  outcome = AuthNext (Some (agent_actor agent_id agent)) None.
Proof.
  unfold agent_check. case_bool_decide as Hr; [|done]. cbn.
  destruct (verify_signature lib agent signature payload) as [[]|] eqn:Hs; cbn; [|done].
  destruct (scope_granted _ _ _) as [[]|] eqn:Hg; cbn; [|done]. intros [= <-].
  split_and!; [done | by apply verify_signature_ok | by apply scope_granted_ok | done].
Qed.

Lemma within_skew_spec ts now :
  within_skew app ts now = true →
  (now - seconds (cfg_agent_clock_skew_secs (app_config app)) ≤ ts
   ≤ now + seconds (cfg_agent_clock_skew_secs (app_config app)))%Z.
Proof.
  unfold within_skew. rewrite negb_true_iff, orb_false_iff, !Z.ltb_ge. lia.
Qed.

Lemma exec_db_memory {A} (s : stmt A) w : w_mem (exec_db env s w).2 = w_mem w.
Proof. destruct w as [d mem m l t]. cbn. destruct (env_fault env t) as [[]|]; [done..|]. by destruct (s d). Qed.

(** The nonce is checked against the cache of the moment. *)
Lemma nonce_inv max nonce ttl w b w' :
  exec_op env (op_nonce max nonce ttl) w = (Ok b, w') →
  check_and_insert max (env_hash env (w_tick w)) nonce ttl (env_instant env (w_tick w)) (nonces w) = (b, nonces w') ∧
  w_db w' = w_db w.
Proof.
  destruct w as [d mem m l t]. cbn. unfold nonce_call.
  destruct (check_and_insert _ _ _ _ _ _) as [ok cache]. intros [= -> <-]. done.
Qed.

Lemma agent_auth_inv request w actor touched w' :
  run env (agent_auth lib app request) w = (AuthNext actor touched, w') →
  ∃ agent_id timestamp nonce hash signature ts agent,
    agent_accepted w w' request agent_id timestamp nonce hash signature ts agent ∧
    scope_held (ag_allowed_scopes agent) request ∧ actor = Some (agent_actor agent_id agent) ∧ touched = None.
Proof.
  unfold agent_auth. rewrite run_bind.
  destruct (run env (verify_agent_request lib app request) w) as [r w2] eqn:Hrun.
  destruct r as [outcome|[msg|msg]]; cycle 1.
  { unfold audit_failure, discard. rewrite !run_bind. repeat case_match; cbn [run]; intros; simplify_eq. }
  { cbn [run]. intros; simplify_eq. }
  cbn [run]. intros [= -> ->]. revert Hrun. unfold verify_agent_request.
  destruct (agent_headers request) as [[[[[agent_id timestamp] nonce] hash] signature]|] eqn:Hh; [|done].
  destruct (ext_parse_rfc3339 _ timestamp) as [ts|] eqn:Hts; [|done]. rewrite run_now.
  destruct (within_skew app ts _) eqn:Hskew; cbn [negb]; [|done]. case_match; [done|]. rewrite run_call.
  destruct (exec_op env (op_nonce _ _ _) (tick w)) as [[[]|e] w1] eqn:Hn; [|done..].
  destruct (body_hash lib request) as [computed|] eqn:Hb; [|done]. cbv beta iota.
  unfold agent_check at 1. destruct (String.eqb computed hash) eqn:Hc; [|done].
  apply String.eqb_eq in Hc as ->. rewrite run_call.
  destruct (exec_op env (op_admin _) w1) as [[[agent|]|e] w3] eqn:Ha; [|done..]. cbn [run]. intros [= Hout ->].
  pose proof (exec_db_memory (sql_admin (admin_exec (env_clock env (w_tick w1)) (AO_agent_get agent_id))) w1) as Hmem.
  change (exec_db env _ w1) with (exec_op env (op_admin (AO_agent_get agent_id)) w1) in Hmem. rewrite Ha in Hmem.
  apply agent_checks_ok in Hout as (Hrev & Hsig & Hsc & [= -> ->]). apply nonce_inv in Hn as [Hn Hd].
  apply admin_read_inv in Ha as [_ [t Ht]]. cbn in Ht. injection Ht as Hst _.
  exists agent_id, timestamp, nonce, hash, signature, ts, agent. split_and!; [|done..].
  rewrite tick_db in Hd. constructor; try done.
  - by apply within_skew_spec.
  - cbn in Hmem. rewrite Hmem, <- Hn. by destruct w.
  - by rewrite Hd in Hst.
Qed.
(** ** OIDC *)

Abbreviation jwks w := (jc_keys (am_jwks (mem_auth (w_mem w)))).

(** The key of a [kid]: configured, or in the cache of the provider's keys. *)
Definition trusted_key (oidc : OidcConfig) (w : World) (kid : string) (km : KeyMaterial) : Prop :=
  oc_static_keys oidc !! kid = Some km ∨
  oc_static_keys oidc !! kid = None ∧ is_Some (oc_jwks_url oidc) ∧ jwks w !! kid = Some km.

(** The claims name the actor and a mapped role. *)
Record claims_name (oidc : OidcConfig) (claims : JsonMap) (actor_id : string) (role : TokenRole) : Prop := {
  cn_email : oc_require_email_verified oidc = true → smap_get "email_verified" claims ≫= as_bool = Some true;
  cn_actor : smap_get (oc_actor_id_claim oidc) claims ≫= as_str = Some actor_id;
  cn_nonempty : actor_id ≠ "";
  cn_role : ∃ values name, role_source_values oidc claims = Some values ∧ name ∈ values ∧
                           oc_role_mappings oidc !! name = Some role;
}.

Lemma claims_identity_ok oidc claims actor_id role :
  claims_identity oidc claims = Ok (actor_id, role) → claims_name oidc claims actor_id role.
Proof.
  unfold claims_identity. destruct (oc_require_email_verified oidc && _) eqn:He; [done|].
  destruct (smap_get (oc_actor_id_claim oidc) claims ≫= as_str) as [s|] eqn:Hs; cbn; [|done].
  destruct (str_is_empty s) eqn:Hem; cbn; [done|].
  destruct (role_source_values oidc claims) as [values|] eqn:Hv; cbn; [|done].
  destruct (head _) as [r|] eqn:Hr; cbn; [|done]. intros [= <- <-]. constructor.
  - intros Hreq. rewrite Hreq in He. cbn in He. apply negb_false_iff in He.
    destruct (_ ≫= as_bool) as [[]|]; done.
  - done.
  - by intros ->.
  - apply head_Some_elem_of, list_elem_of_omap in Hr as (name & Hin & Hm). by exists values, name.
Qed.

(** The header was checked before any key was used. *)
Record header_checked (oidc : OidcConfig) (token : string) (header : JwtHeader) : Prop := {
  hc_not_none : jwt_header_alg_is_none lib token = false;
  hc_decoded : cl_jwt_header lib token = Some header;
  hc_typ : oc_token_profile oidc = Rfc9068AccessToken →
           jh_typ header = Some "at+jwt" ∨ jh_typ header = Some "application/at+jwt";
  hc_alg : jh_alg header ∈ oc_allowed_algorithms oidc;
}.

Lemma check_header_ok oidc token header : check_header lib oidc token = Ok header → header_checked oidc token header.
Proof.
  unfold check_header. destruct (jwt_header_alg_is_none lib token) eqn:Hn; [done|].
  destruct (cl_jwt_header lib token) as [h|] eqn:Hh; cbn; [|done].
  destruct (negb _) eqn:Ht; [done|]. case_bool_decide as Ha; cbn; [|done]. intros [= <-]. constructor; try done.
  intros Hp. rewrite Hp in Ht. destruct (jh_typ h) as [ty|]; [|done]. apply negb_false_iff, orb_true_iff in Ht.
  by destruct Ht as [->%String.eqb_eq | ->%String.eqb_eq]; [left | right].
Qed.

Lemma get_key_inv url ttl kid w km w' :
  run env (get_key lib url ttl kid) w = (Ok (Some km), w') → jwks w' !! kid = Some km.
Proof.
  unfold get_key, fetch_and_cache. rewrite run_call. destruct w as [d mem m l t]. cbn.
  unfold cached_key. destruct (jc_keys (am_jwks (mem_auth mem)) !! kid) as [key|] eqn:Hk.
  1: destruct (jc_fetched_at _) as [f|]; [case_match|].
  1: { cbn. case_match; simplify_eq. by intros [= <- <-]. }
  all: cbn; destruct (parse_jwks _ _); cbn; intros; simplify_eq; done.
Qed.

Lemma select_key_inv oidc kid w km w' :
  run env (select_key lib oidc kid) w = (Ok km, w') → trusted_key oidc w' kid km.
Proof.
  unfold select_key, trusted_key. destruct (oc_static_keys oidc !! kid) as [k|].
  { cbn. intros [= <- <-]. by left. }
  destruct (oc_jwks_url oidc) as [url|]; [|done]. rewrite run_bind.
  destruct (run env (get_key lib url _ kid) w) as [[[k|]|e] w1] eqn:Hg; cbn; intros; simplify_eq.
  right. split_and!; [done | by eexists | by eapply get_key_inv].
Qed.

(** A token of the identity provider. *)
Record oidc_accepted (w w' : World) (request : HttpRequest) (token : string) (oidc : OidcConfig) (header : JwtHeader)
    (km : KeyMaterial) (claims : JsonMap) (actor_id : string) (role : TokenRole) : Prop := {
  oq_config : cfg_oidc_config (app_config app) = Some oidc;
  oq_presented : presents request token;
  oq_header : header_checked oidc token header;
  oq_key : trusted_key oidc w' (default "" (jh_kid header)) km;
  oq_valid_key : to_decoding_key lib km = Ok tt;
  oq_decoded : ∃ k, cl_jwt_decode lib token km (jwt_validation oidc) (env_clock env k) = Some claims;
  oq_iat : ∀ iat, smap_get "iat" claims ≫= as_i64 = Some iat →
           ∃ k, (iat ≤ env_clock env k / seconds 1 + Z.max (oc_clock_skew_secs oidc) 0)%Z;
  oq_claims : claims_name oidc claims actor_id role;
}.

Definition oidc_actor (actor_id : string) (role : TokenRole) : AuthActor :=
  {| aa_actor_id := actor_id; aa_source := "oidc"; aa_scopes := default_scopes role; aa_role := Some role |}.

Lemma tick_memory w : w_mem (tick w) = w_mem w.
Proof. by destruct w. Qed.

Lemma check_iat_inv oidc claims w w' :
  run env (check_iat oidc claims) w = (Ok tt, w') →
  w_mem w' = w_mem w ∧ ∀ iat, smap_get "iat" claims ≫= as_i64 = Some iat →
    ∃ k, (iat ≤ env_clock env k / seconds 1 + Z.max (oc_clock_skew_secs oidc) 0)%Z.
Proof.
  unfold check_iat. destruct (smap_get "iat" claims ≫= as_i64) as [iat|]; [|by intros [= <-]].
  rewrite run_now. destruct (_ <? iat)%Z eqn:Hi; cbn [run]; [done|]. intros [= <-].
  split; [apply tick_memory|]. intros iat' [= <-]. apply Z.ltb_ge in Hi. by eexists.
Qed.

Lemma oidc_auth_inv request w actor touched w' :
  run env (oidc_auth lib app request) w = (AuthNext actor touched, w') →
  ∃ token oidc header km claims actor_id role,
    oidc_accepted w w' request token oidc header km claims actor_id role ∧
    scope_held (default_scopes role) request ∧ actor = Some (oidc_actor actor_id role) ∧ touched = None.
Proof.
  unfold oidc_auth. destruct (bearer_value request) as [token|e] eqn:Hb; cycle 1.
  { unfold bearer_value in Hb. repeat case_match; simplify_eq; cbn [run]; intros; simplify_eq. }
  destruct (cfg_oidc_config (app_config app)) as [oidc|] eqn:Hcfg; cycle 1.
  { unfold audit_failure, discard. rewrite !run_bind. repeat case_match; cbn [run]; intros; simplify_eq. }
  rewrite run_bind. destruct (run env (validate_oidc_token _ _ _ _ _) w) as [r w1] eqn:Hrun.
  destruct r as [[[actor_id scopes] role]|[msg|msg]]; cycle 1.
  1-2: unfold audit_failure, discard; rewrite !run_bind; repeat case_match; cbn [run]; intros; simplify_eq.
  cbn [run]. intros [= <- <- <-]. revert Hrun. unfold validate_oidc_token.
  destruct (check_header lib oidc token) as [header|] eqn:Hh; [|done]. rewrite run_bind.
  destruct (run env (select_key _ _ _) w) as [[km|e] w2] eqn:Hk; [|done].
  destruct (to_decoding_key lib km) as [[]|] eqn:Hd; [|done]. rewrite run_now.
  destruct (cl_jwt_decode _ _ _ _ _) as [claims|] eqn:Hj; [|done]. rewrite run_bind.
  destruct (run env (check_iat oidc claims) (tick w2)) as [[[]|e] w3] eqn:Hi; [|done]. cbn [run].
  destruct (claims_identity oidc claims) as [[a r]|] eqn:Hc; [|done]. cbn.
  destruct (scope_granted _ _ _) as [[]|] eqn:Hs; [|done]. cbn. intros [= -> <- -> ->].
  apply check_iat_inv in Hi as [Hmem Hi]. rewrite tick_memory in Hmem.
  exists token, oidc, header, km, claims, actor_id, role. split_and!; [|by apply scope_granted_ok|done..].
  constructor; try done.
  - by apply bearer_value_ok.
  - by apply check_header_ok.
  - apply select_key_inv in Hk. unfold trusted_key in *. by rewrite Hmem.
  - by eexists.
  - by apply claims_identity_ok.
Qed.

(** ** The middleware *)

(** What a request that goes on has been checked for, by the mode of the server. *)
Inductive admitted_by (request : HttpRequest) (w w' : World) : AuthMode → option AuthActor → option string → Prop :=
| by_disabled : admitted_by request w w' Auth_Disabled None None
| by_bearer value :
    presents request value → value = default "" (cfg_bearer_token (app_config app)) →
    admitted_by request w w' Auth_Bearer None None
| by_token value id tok :
    presents request value → token_accepted w (env_clock env (S (w_tick w))) value id tok →
    scope_held (st_scopes tok) request →
    admitted_by request w w' Auth_Scoped (Some (token_actor tok)) (Some (st_token_id tok))
| by_agent agent_id timestamp nonce hash signature ts agent :
    agent_accepted w w' request agent_id timestamp nonce hash signature ts agent →
    scope_held (ag_allowed_scopes agent) request →
    admitted_by request w w' Auth_Agent (Some (agent_actor agent_id agent)) None
| by_oidc token oidc header km claims actor_id role :
    oidc_accepted w w' request token oidc header km claims actor_id role →
    scope_held (default_scopes role) request →
    admitted_by request w w' Auth_Oidc (Some (oidc_actor actor_id role)) None.

(** The two paths that need no authentication. *)
Definition public_path (path : string) : bool := String.eqb path "/v1/healthz" || String.eqb path "/v1/readyz".

Lemma middleware_admits request w actor touched w' :
  public_path (hq_path request) = false →
  run env (auth_middleware lib app request) w = (AuthNext actor touched, w') →
  admitted_by request w w' (cfg_auth_mode (app_config app)) actor touched.
Proof.
  intros Hpub. unfold auth_middleware, public_path in *. rewrite Hpub.
  destruct (cfg_auth_mode (app_config app)).
  - cbn. intros [= <- <- <-]. constructor.
  - cbn [run]. unfold bearer_auth. destruct (bearer_value request) as [v|e] eqn:Hb; cycle 1.
    { unfold bearer_value in Hb. repeat case_match; simplify_eq; intros; simplify_eq. }
    destruct (String.eqb v _) eqn:He; [|by intros [= ? ?]]. intros [= <- <- <-]. apply String.eqb_eq in He.
    econstructor; [by apply bearer_value_ok | done].
  - intros (value & id & tok & Hp & Ht & Hs & -> & ->)%scoped_auth_inv. by econstructor.
  - intros (token & oidc & header & km & claims & a & r & Ho & Hs & -> & ->)%oidc_auth_inv. by econstructor.
  - intros (a & ts & n & h & sg & tm & ag & Ha & Hs & -> & ->)%agent_auth_inv. by econstructor.
Qed.
End sound.

(** C26: when the middleware lets a request through on a path that is not public, the
    request was authenticated in the mode of the server: with the configured bearer value;
    with the value of a stored token, both hashes matching, neither revoked nor expired;
    with a fresh nonce, a timestamp within the skew, the hash of the body and an Ed25519
    signature, by a stored agent that is not revoked; or with a JWT of an allowed algorithm
    under a trusted key whose claims name the actor and a mapped role.  In the last three
    the scopes cover what the route needs, and the handler gets exactly that actor. *)
Theorem auth_middleware_sound lib app env request w actor touched w' :
  public_path (hq_path request) = false →
  run env (auth_middleware lib app request) w = (AuthNext actor touched, w') →
  admitted_by lib app env request w w' (cfg_auth_mode (app_config app)) actor touched.
Proof. apply middleware_admits. Qed.

(** ** Revocation *)

Abbreviation principals_evolve d d' :=
  (grows token_evolves (ad_tokens (db_admin d)) (ad_tokens (db_admin d')) ∧
   grows agent_evolves (ad_agents (db_admin d)) (ad_agents (db_admin d'))).

Lemma exec_admin_principals {T} env (a : admin_op T) w x w' :
  exec_op env (op_admin a) w = (x, w') → principals_evolve (w_db w) (w_db w').
Proof.
  destruct w as [d mem m l t]. cbn. unfold sql_admin.
  pose proof (admin_exec_principals (env_clock env t) a (db_admin d)) as H.
  destruct (admin_exec (env_clock env t) a (db_admin d)) as [r tables]. cbn in H.
  destruct (env_fault env t) as [[]|]; intros [= <- <-]; cbn; [split; apply grows_refl, _ | by destruct d..].
Qed.

Lemma exec_op_principals {X} env (o : op X) w x w' :
  exec_op env o w = (x, w') → principals_evolve (w_db w) (w_db w').
Proof.
  assert ((match o with op_admin _ => False | _ => True end) → exec_op env o w = (x, w') →
          principals_evolve (w_db w) (w_db w')) as Hother.
  { intros Ho Hx. pose proof (exec_op_admin env o w Ho) as Hd. rewrite Hx in Hd. cbn in Hd. rewrite Hd.
    split; apply grows_refl, _. }
  destruct o; first [exact (Hother I) | apply exec_admin_principals].
Qed.

Lemma pool_reach_principals {A} env (p p' : Pool A) :
  pool_reach any env p p' → principals_evolve (w_db (p_world p)) (w_db (p_world p')).
Proof.
  intros Hr. induction Hr as [p|p p1 p' Hstep _ [IH1 IH2]]; [split; apply grows_refl, _|].
  assert (principals_evolve (w_db (p_world p)) (w_db (p_world p1))) as [H1 H2].
  { destruct Hstep as [i X o k ts w x w' Hi Hx | t ts w _]; simpl; [by eapply exec_op_principals|].
    split; apply grows_refl, _. }
  split; etrans; eassumption.
Qed.

Lemma admitted_scoped lib app env request w w' actor touched :
  admitted_by lib app env request w w' Auth_Scoped actor touched →
  ∃ value id tok, presents request value ∧ token_accepted lib w (env_clock env (S (w_tick w))) value id tok.
Proof. inversion 1; eauto. Qed.
Lemma admitted_agent lib app env request w w' actor touched :
  admitted_by lib app env request w w' Auth_Agent actor touched →
  ∃ agent_id timestamp nonce hash signature ts agent,
    agent_accepted lib app env w w' request agent_id timestamp nonce hash signature ts agent.
Proof. inversion 1; eauto 10. Qed.

(** C28: a revocation is permanent: once a stored token is revoked, no request that presents
    its value passes the middleware in any later state, whatever programs run in between
    and whatever fails (as long as no other token has the same lookup hash); and once an
    agent is revoked, no request under its identity passes. *)
Theorem revocation_is_permanent {A} lib app env (p p' : Pool A) request actor touched w' :
  pool_reach any env p p' → public_path (hq_path request) = false →
  run env (auth_middleware lib app request) (p_world p') = (AuthNext actor touched, w') →
  (∀ id tok value, cfg_auth_mode (app_config app) = Auth_Scoped →
     ad_tokens (db_admin (w_db (p_world p))) !! id = Some tok → is_Some (st_revoked_at tok) →
     st_token_lookup_hash tok = hash_token_value lib value →
     (∀ id' tok', ad_tokens (db_admin (w_db (p_world p'))) !! id' = Some tok' →
        st_token_lookup_hash tok' = st_token_lookup_hash tok → id' = id) →
     ¬ presents request value) ∧
  (∀ id agent, cfg_auth_mode (app_config app) = Auth_Agent →
     ad_agents (db_admin (w_db (p_world p))) !! id = Some agent → is_Some (ag_revoked_at agent) →
     hq_headers request !! "X-Ferrum-Agent-Id" ≠ Some id).
Proof.
  intros Hreach Hpub Hrun. destruct (pool_reach_principals _ _ _ Hreach) as [Htok Hag].
  pose proof (middleware_admits _ _ _ _ _ _ _ _ Hpub Hrun) as Hadm. split.
  - intros id tok value Hmode Hrow Hrev Hlook Huniq Hpres. rewrite Hmode in Hadm.
    apply admitted_scoped in Hadm as (v & id' & tok' & Hv & Hacc).
    assert (v = value) as -> by (unfold presents in *; rewrite Hpres in Hv; by simplify_eq).
    destruct Hacc as [Hst Hl _ Hnone _]. rewrite (Huniq id' tok' Hst) in Hst by congruence.
    destruct (Htok id tok Hrow) as (tok'' & Hrow' & _ & Hkeep). destruct Hrev as [r Hr].
    rewrite Hst in Hrow'. simplify_eq. rewrite Hkeep in Hnone by eauto. congruence.
  - intros id agent Hmode Hrow Hrev Hhead. rewrite Hmode in Hadm.
    apply admitted_agent in Hadm as (aid & tm & n & h & sg & ts & ag & Hacc).
    destruct Hacc as [Hh _ _ _ _ Hst Hnone _].
    assert (aid = id) as ->.
    { unfold agent_headers, agent_header in Hh. rewrite Hhead in Hh. cbn in Hh.
      repeat (destruct (hq_headers request !! _); cbn in Hh; [|done]). by simplify_eq. }
    destruct (Hag id agent Hrow) as (ag' & Hrow' & _ & Hkeep). destruct Hrev as [r Hr].
    rewrite Hst in Hrow'. simplify_eq. rewrite Hkeep in Hnone by eauto. congruence.
Qed.
