(* ===== verification/PrincipalSpec.v ===== *)
(** * Authority is never amplified

    Every token and agent the administrative handlers issue stays within the authority of
    the store it started from: the issuer was authenticated from a stored token or agent,
    and may only pass on what it holds. *)

From S2P Require Import Prelude Json Proto Admin Behavioral AuthState Store Effects Validation Lifecycle Auth.
From S2P Require Import Principals StoreFacts Evolution AuthorizeSpec RunSpec StoreSafety PolicySpec AuthSpec.

(** ** Requests *)

(** A call of the administrative interface for tokens and agents. *)
Inductive principal_call :=
| PC_create_token (req : CreateTokenRequest)
| PC_list_tokens (params : ListTokensQuery)
| PC_revoke_token (id : string) (reason : option string)
| PC_rotate_token (id : string) (req : RotateTokenRequest)
| PC_create_agent (req : RegisterAgentRequest)
| PC_list_agents (active_only : option bool) (limit : option nat)
| PC_revoke_agent (id : string) (reason : option string).

Definition principal_handler (lib : CryptoLib) (app : App) (actor : option AuthActor) (c : principal_call) : prog unit :=
  match c with
  | PC_create_token req => discard (create_token lib app actor req)
  | PC_list_tokens params => discard (list_tokens lib app params)
  | PC_revoke_token id reason => discard (revoke_token app actor id reason)
  | PC_rotate_token id req => discard (rotate_token lib app actor id req)
  | PC_create_agent req => discard (create_agent lib app actor req)
  | PC_list_agents active limit => discard (list_agents lib app active limit)
  | PC_revoke_agent id reason => discard (revoke_agent app actor id reason)
  end.

(** A request passes the middleware and reaches its handler with the actor found there. *)
Definition serve_principal (lib : CryptoLib) (app : App) (request : HttpRequest) (c : principal_call) : prog unit :=
  outcome <- auth_middleware lib app request ;;
  match outcome with
  | AuthNext actor _ => principal_handler lib app actor c
  | _ => Ret tt
  end.

(** ** Authority *)

Section authority.
(** A set of scopes; with the wildcard it is everything. *)
Context (A : list string).

Definition within (scopes : list string) : Prop := "*" ∈ A ∨ ∀ s, s ∈ scopes → s ∈ A.

Record token_within (tok : ScopedToken) : Prop := {
  tw_scopes : within (st_scopes tok);
  tw_admin : st_role tok = TR_Admin → "*" ∈ A;
}.

Record confined (t : AdminTables) : Prop := {
  cf_tokens : ∀ id tok, ad_tokens t !! id = Some tok → token_within tok;
  cf_agents : ∀ id a, ad_agents t !! id = Some a → within (ag_allowed_scopes a);
}.

(** ** Attenuation *)

Lemma has_wildcard_spec scopes : has_wildcard scopes = true ↔ "*" ∈ scopes.
Proof.
  unfold has_wildcard. rewrite existsb_exists. setoid_rewrite String.eqb_eq. setoid_rewrite <- list_elem_of_In.
  naive_solver.
Qed.

Lemma has_wildcard_within scopes : within scopes → has_wildcard scopes = true → "*" ∈ A.
Proof. rewrite has_wildcard_spec. unfold within. naive_solver. Qed.

Lemma scopes_within_ok issuer requested :
  within (aa_scopes issuer) → scopes_within issuer requested = Ok tt → within requested.
Proof.
  intros [Hw|Hi]; [by left|]. induction requested as [|s rest IH]; cbn; [right; intros s; by rewrite elem_of_nil|].
  destruct (has_scope issuer s) eqn:Hs; [|done]. intros H. destruct (IH H) as [|Hrest]; [by left|].
  apply scopes_allow_spec in Hs as [Hs|Hs]; [left; by apply Hi|].
  right. intros s' [->|Hs']%elem_of_cons; auto.
Qed.

Lemma check_attenuation_ok issuer requested :
  within (aa_scopes issuer) → check_scope_attenuation issuer requested = Ok tt → within requested.
Proof.
  intros Hi. unfold check_scope_attenuation. destruct (has_wildcard (aa_scopes issuer)) eqn:Hw.
  - intros _. left. by apply (has_wildcard_within (aa_scopes issuer)).
  - destruct (has_wildcard requested); [done|]. by apply scopes_within_ok.
Qed.

(** The actor of a request stays within the authority. *)
Definition actor_within (actor : option AuthActor) : Prop :=
  match actor with Some a => within (aa_scopes a) | None => True end.

Lemma may_issue_ok actor role scopes msg issuer :
  actor_within actor → may_issue actor role scopes msg = Ok issuer →
  within scopes ∧ (role = TR_Admin → "*" ∈ A).
Proof.
  unfold may_issue. destruct actor as [a|]; [|done]. cbn. intros Ha.
  destruct (bool_decide (role = TR_Admin) && _) eqn:Hr; [done|].
  destruct (check_scope_attenuation a scopes) as [[]|] eqn:Hc; cbn; [|done]. intros _.
  split; [by eapply check_attenuation_ok|]. intros ->. rewrite bool_decide_true in Hr by done. cbn in Hr.
  apply negb_false_iff in Hr. by eapply has_wildcard_within.
Qed.

(** ** Programs that stay within *)

Definition grants_admin {T} (a : admin_op T) : Prop :=
  match a with
  | AO_token_insert tok => token_within tok
  | AO_agent_insert ag => within (ag_allowed_scopes ag)
  | _ => True
  end.
(** What a confined store can answer. *)
Definition answers_admin {T} (a : admin_op T) : result T StoreError → Prop :=
  match a with
  | AO_token_get _ => λ r, ∀ tok, r = Ok (Some tok) → token_within tok
  | AO_token_by_lookup_hash _ => λ r, ∀ tok, r = Ok (Some tok) → token_within tok
  | AO_agent_get _ => λ r, ∀ ag, r = Ok (Some ag) → within (ag_allowed_scopes ag)
  | _ => λ _, True
  end.

Definition grants {X} (o : op X) : Prop := match o with op_admin a => grants_admin a | _ => True end.
Definition answered {X} (o : op X) : X → Prop := match o with op_admin a => answers_admin a | _ => λ _, True end.

(** Every token or agent the program inserts is within the authority, as long as what it
    reads is, and its result satisfies [Φ]. *)
Fixpoint attenuated {R} (p : prog R) (Φ : R → Prop) : Prop :=
  match p with
  | Ret r => Φ r
  | Do o k => grants o ∧ ∀ x, answered o x → attenuated (k x) Φ
  end.

Lemma attenuated_bind {R S} (p : prog R) (f : R → prog S) Φ Ψ :
  attenuated p Φ → (∀ r, Φ r → attenuated (f r) Ψ) → attenuated (bind p f) Ψ.
Proof.
  intros Hp Hf. induction p as [r | X o k IH]; cbn in *; [by apply Hf|].
  destruct Hp as [Ho Hk]. split; [done|]. intros x Hx. apply IH. by apply Hk.
Qed.

Lemma attenuated_mono {R} (p : prog R) (Φ Ψ : R → Prop) :
  (∀ r, Φ r → Ψ r) → attenuated p Φ → attenuated p Ψ.
Proof.
  intros H. induction p as [r | X o k IH]; cbn; [apply H|]. intros [Ho Hk]. split; [done|]. naive_solver.
Qed.

(** Unfolds the operations of a program; what is left are the inserted rows. *)
Ltac step_attenuated :=
  repeat first [ progress cbn [attenuated bind call grants answered grants_admin answers_admin] | split; [done|]
               | progress intros | case_match | done ].

(** ** The store stays confined *)

Lemma admin_confined now {T} (a : admin_op T) t :
  confined t → grants_admin a → confined (admin_exec now a t).2 ∧ answers_admin a (admin_exec now a t).1.
Proof.
  intros [Ht Ha] Hg.
  split.
  - destruct a; cbn [admin_exec]; unfold sql_mfa_activate, update_factor, sql_insert_bundle, sql_update_bundle,
      sql_insert_version, sql_lockout_fail, sql_lockout_reset, sql_mfa_insert, sql_mfa_record_use, sql_mfa_failed,
      sql_mfa_reset, sql_mfa_revoke, update_factor, sql_token_insert, sql_token_revoke, sql_token_touch,
      sql_agent_insert, sql_agent_revoke, sql_audit; repeat case_match; cbn;
      (split; intros key row); cbn; first [apply Ht | apply Ha | idtac];
      (rewrite lookup_insert_Some; intros [[<- <-]|[_ Hkey]]; [|by eauto]); try done.
    all: match goal with H : ad_tokens _ !! _ = Some ?tk |- _ => specialize (Ht _ _ H); destruct tk
                       | H : ad_agents _ !! _ = Some ?tk |- _ => specialize (Ha _ _ H); destruct tk end.
    all: try (destruct Ht; by constructor); done.
  - destruct a; cbn; try done; intros r [= Hr].
    + by eapply Ht.
    + apply head_Some_elem_of, list_elem_of_filter in Hr as [_ Hr]. apply list_elem_of_fmap in Hr as [[k tk] [-> Hin]].
      apply elem_of_map_to_list in Hin. by eapply Ht.
    + by eapply Ha.
Qed.

Lemma exec_admin_confined {T} env (a : admin_op T) w x w' :
  confined (db_admin (w_db w)) → grants_admin a → exec_op env (op_admin a) w = (x, w') →
  confined (db_admin (w_db w')) ∧ answers_admin a x.
Proof.
  intros Hc Hg. destruct w as [d mem m l t]. cbn in *. unfold sql_admin.
  destruct (admin_confined (env_clock env t) a (db_admin d) Hc Hg) as [Ht Ha].
  destruct (admin_exec (env_clock env t) a (db_admin d)) as [r tables]. cbn in *.
  assert (∀ msg, answers_admin a (Err (SE_Database msg))) as Herr by (intros msg; by destruct a).
  destruct (env_fault env t) as [[]|]; intros [= <- <-]; cbn; by destruct d.
Qed.

Lemma exec_op_confined {X} env (o : op X) w x w' :
  confined (db_admin (w_db w)) → grants o → exec_op env o w = (x, w') →
  confined (db_admin (w_db w')) ∧ answered o x.
Proof.
  intros Hc Hg.
  assert ((match o with op_admin _ => False | _ => True end) → exec_op env o w = (x, w') →
          confined (db_admin (w_db w'))) as Hother.
  { intros Ho Hx. pose proof (exec_op_admin env o w Ho) as Hd. rewrite Hx in Hd. cbn in Hd. by rewrite Hd. }
  destruct o; first [intros Hx; split; [by apply (Hother I) | done] | by apply exec_admin_confined].
Qed.

(** In a pool of such programs the store stays confined. *)
Lemma pool_confined {R} env (P : prog R → Prop) (p p' : Pool R) :
  (∀ q, P q → attenuated q (λ _, True)) → pool_reach P env p p' →
  confined (db_admin (w_db (p_world p))) → Forall (λ q, attenuated q (λ _, True)) (p_threads p) →
  confined (db_admin (w_db (p_world p'))).
Proof.
  intros HP Hr. induction Hr as [p|p p1 p' Hstep _ IH]; [done|]. intros Hc Hts. apply IH; clear IH.
  - destruct Hstep as [i X o k ts w x w' Hi Hx | q ts w Hq]; cbn in *; [|done].
    pose proof (Forall_lookup_1 _ _ _ _ Hts Hi) as [Hg _]. by eapply exec_op_confined.
  - destruct Hstep as [i X o k ts w x w' Hi Hx | q ts w Hq]; cbn in *.
    + pose proof (Forall_lookup_1 _ _ _ _ Hts Hi) as [Hg Hk]. apply Forall_insert; [done|].
      apply Hk. by eapply exec_op_confined.
    + apply Forall_app. split; [done|]. constructor; [by apply HP | done].
Qed.

(** ** The handlers *)


Lemma audit_attenuated app a b c d e md (Φ : result unit ApiProblem → Prop) :
  (∀ r, Φ r) → attenuated (append_audit_checked app a b c d e md) Φ.
Proof. intros H. unfold append_audit_checked, append_audit, audit_append. step_attenuated. all: apply H. Qed.

Lemma audit_plain_attenuated ext a b c d e md (Φ : result unit StoreError → Prop) :
  (∀ r, Φ r) → attenuated (append_audit ext a b c d e md) Φ.
Proof. intros H. unfold append_audit, audit_append. step_attenuated. all: apply H. Qed.

(** A handler that ends in a checked audit entry. *)
Lemma audited_attenuated {R} app a b c d e md (k : prog (result R ApiProblem)) :
  attenuated k (λ _, True) →
  attenuated (bind (append_audit_checked app a b c d e md)
                (λ r, match r with Ok _ => k | Err p => Ret (Err p) end)) (λ _, True).
Proof.
  intros Hk. eapply attenuated_bind; [by apply (audit_attenuated _ _ _ _ _ _ _ (λ _, True))|].
  by intros [?|?].
Qed.

Lemma new_token_attenuated lib actor role scopes desc expires rotated :
  attenuated (new_token lib actor role scopes desc expires rotated)
    (λ tv, st_scopes tv.1 = scopes ∧ st_role tv.1 = role).
Proof. unfold new_token, generate_token_value, generate_token_salt. step_attenuated. Qed.

Lemma create_token_attenuated lib app actor req :
  actor_within actor → attenuated (create_token lib app actor req) (λ _, True).
Proof.
  intros Ha. unfold create_token. cbn [bind call attenuated]. split; [done|]. intros now _. case_match; [done|].
  destruct (may_issue _ _ _ _) as [issuer|] eqn:Hm; [|done].
  destruct (may_issue_ok _ _ _ _ _ Ha Hm) as [Hs Hr].
  eapply attenuated_bind; [apply new_token_attenuated|]. intros [tok value] [H1 H2]. cbn in H1, H2.
  split; [constructor; by rewrite ?H1, ?H2|]. intros [[]|e] _; [|done]. by apply audited_attenuated.
Qed.

Lemma rotate_token_attenuated lib app actor id req :
  actor_within actor → attenuated (rotate_token lib app actor id req) (λ _, True).
Proof.
  intros Ha. unfold rotate_token. cbn [bind call attenuated]. split; [done|]. intros [[old|]|e] _; [|done..].
  eapply (attenuated_bind _ _ (λ _, True)); [unfold token_usable; step_attenuated|]. intros usable _.
  case_match; [done|].
  eapply (attenuated_bind _ _ (λ _, True)); [unfold rotated_expiry; step_attenuated|]. intros [expiry|p] _; [|done].
  destruct (may_issue _ _ _ _) as [issuer|] eqn:Hm; [|done].
  destruct (may_issue_ok _ _ _ _ _ Ha Hm) as [Hs Hr].
  eapply (attenuated_bind _ _ (λ _, True)); [unfold token_revoke; step_attenuated|]. intros _ _.
  eapply attenuated_bind; [apply new_token_attenuated|]. intros [tok value] [H1 H2]. cbn in H1, H2.
  split; [constructor; by rewrite ?H1, ?H2|]. intros [[]|e] _; [|done]. by apply audited_attenuated.
Qed.

Lemma registration_ok lib actor req fp issuer scopes :
  actor_within actor → registration lib actor req = Ok (fp, issuer, scopes) → within scopes.
Proof.
  unfold registration. destruct (key_fingerprint lib _); cbn; [|done]. destruct actor as [a|]; cbn; [|done].
  intros Ha. destruct (check_scope_attenuation a _) as [[]|] eqn:Hc; cbn; [|done]. intros [= <- <- <-].
  by eapply check_attenuation_ok.
Qed.

Lemma create_agent_attenuated lib app actor req :
  actor_within actor → attenuated (create_agent lib app actor req) (λ _, True).
Proof.
  intros Ha. unfold create_agent. destruct (registration lib actor req) as [[[fp issuer] scopes]|p] eqn:Hr;
    [|unfold refuse_counted; step_attenuated].
  pose proof (registration_ok _ _ _ _ _ _ Ha Hr) as Hs.
  eapply (attenuated_bind _ _ (λ _, True)); [unfold check_duplicates; step_attenuated|].
  intros [[]|p] _; [|unfold refuse_counted; step_attenuated].
  cbn [bind call attenuated]. split; [done|]. intros now _. split; [done|].
  intros [[]|e] _; [|unfold refuse_counted; step_attenuated]. cbn [bind call attenuated]. split; [done|]. intros _ _.
  by apply audited_attenuated.
Qed.

(** ** The middleware *)

Definition outcome_within (o : AuthOutcome) : Prop :=
  match o with AuthNext actor _ => actor_within actor | _ => True end.

Lemma problem_within e request : bearer_value request = Err e → outcome_within e.
Proof. unfold bearer_value. intros. repeat case_match; by simplify_eq. Qed.

Lemma scoped_auth_within lib request : attenuated (scoped_auth lib request) outcome_within.
Proof.
  unfold scoped_auth. destruct (bearer_value request) as [v|e] eqn:Hb; [|by eapply problem_within].
  cbn [bind call attenuated]. split; [done|]. intros [[tok|]|e] Htok; [|done..]. case_match; [done|]. case_match; [done|].
  cbn [bind call attenuated]. split; [done|]. intros now _. case_match; [done|]. case_match; [|done].
  cbn. apply tw_scopes. by apply Htok.
Qed.

Lemma agent_checks_within lib agent request agent_id payload signature outcome :
  within (ag_allowed_scopes agent) →
  (let? _ := agent_check (bool_decide (ag_revoked_at agent = None)) "agent revoked" in
   let? _ := verify_signature lib agent signature payload in
   let? _ := map_err AgentForbidden (scope_granted (ag_allowed_scopes agent) (hq_method request) (hq_path request)) in
   Ok (AuthNext (Some (agent_actor agent_id agent)) None)) = Ok outcome → outcome_within outcome.
Proof. by intros Hw (_ & _ & _ & ->)%agent_checks_ok. Qed.

Lemma agent_auth_within lib app request : attenuated (agent_auth lib app request) outcome_within.
Proof.
  unfold agent_auth.
  eapply (attenuated_bind _ _ (λ r, ∀ o, r = Ok o → outcome_within o)); cycle 1.
  { intros [o|[msg|msg]] Ho; [by apply Ho | | done]. unfold audit_failure, discard.
    eapply (attenuated_bind _ _ (λ _, True)); [|done].
    eapply (attenuated_bind _ _ (λ _, True)); [by apply audit_plain_attenuated | done]. }
  unfold verify_agent_request. destruct (agent_headers request) as [[[[[aid tm] n] h] sg]|]; [|done].
  destruct (ext_parse_rfc3339 _ tm); [|done]. cbn [bind call attenuated]. split; [done|]. intros now _.
  case_match; [done|]. case_match; [done|]. cbn [bind call attenuated]. split; [done|]. intros [[]|e] _; [|done..].
  case_match; [|done]. cbn [bind call attenuated]. split; [done|]. intros [[agent|]|e] Hag; [|done..].
  intros o. apply agent_checks_within. by apply Hag.
Qed.

(** The roles of the identity provider stay within the authority. *)
Definition roles_within (app : App) : Prop :=
  ∀ oidc name role, cfg_oidc_config (app_config app) = Some oidc → oc_role_mappings oidc !! name = Some role →
    within (default_scopes role).

Lemma oidc_auth_within lib app request : roles_within app → attenuated (oidc_auth lib app request) outcome_within.
Proof.
  intros Hroles. unfold oidc_auth. destruct (bearer_value request) as [v|e] eqn:Hb; [|by eapply problem_within].
  assert (∀ a b c d o, outcome_within o → attenuated (_ <- audit_failure app a b c d ;; Ret o) outcome_within) as Haudit.
  { intros a b c d o Ho. unfold audit_failure, discard. eapply (attenuated_bind _ _ (λ _, True)); [|done].
    eapply (attenuated_bind _ _ (λ _, True)); [by apply audit_plain_attenuated | done]. }
  destruct (cfg_oidc_config (app_config app)) as [oidc|] eqn:Hcfg; [|by apply Haudit].
  eapply (attenuated_bind _ _ (λ r, ∀ a s role, r = Ok (a, s, role) → within s)); cycle 1.
  { intros [[[a s] role]|[msg|msg]] Hr; [|by apply Haudit..]. cbn. by eapply Hr. }
  unfold validate_oidc_token. destruct (check_header lib oidc v) as [header|]; [|done].
  eapply (attenuated_bind _ _ (λ _, True)).
  { unfold select_key, get_key, fetch_and_cache. step_attenuated. }
  intros [km|e] _; [|done]. case_match; [|done]. cbn [bind call attenuated]. split; [done|]. intros now _.
  case_match; [|done]. eapply (attenuated_bind _ _ (λ _, True)); [unfold check_iat; step_attenuated|].
  intros [[]|e] _; [|done]. cbn [attenuated]. intros a s role.
  destruct (claims_identity oidc _) as [[a' r']|] eqn:Hc; cbn; [|done]. case_match; cbn; [|done]. intros [= <- <- <-].
  apply claims_identity_ok in Hc as [_ _ _ (values & name & _ & _ & Hm)]. by eapply Hroles.
Qed.

Lemma middleware_within lib app request :
  roles_within app → attenuated (auth_middleware lib app request) outcome_within.
Proof.
  intros Hroles. unfold auth_middleware. case_match; [done|]. case_match; [done | | | | ].
  - cbn. unfold bearer_auth. destruct (bearer_value request) as [v|e] eqn:Hb; [|by eapply problem_within]. by case_match.
  - apply scoped_auth_within.
  - by apply oidc_auth_within.
  - apply agent_auth_within.
Qed.
Lemma discard_attenuated {R} (p : prog R) : attenuated p (λ _, True) → attenuated (discard p) (λ _, True).
Proof. intros Hp. by eapply attenuated_bind. Qed.

Lemma principal_handler_attenuated lib app actor c :
  actor_within actor → attenuated (principal_handler lib app actor c) (λ _, True).
Proof.
  intros Ha. destruct c; apply discard_attenuated.
  - by apply create_token_attenuated.
  - unfold list_tokens. step_attenuated.
  - unfold revoke_token, token_revoke. cbn [bind call attenuated]. do 2 (split; [done|]; intros ? _).
    repeat case_match; try done. by apply audit_attenuated.
  - by apply rotate_token_attenuated.
  - by apply create_agent_attenuated.
  - unfold list_agents, refuse_counted. step_attenuated.
  - unfold revoke_agent, refuse_counted. cbn [bind call attenuated]. do 2 (split; [done|]; intros ? _).
    repeat case_match; step_attenuated; by apply audit_attenuated.
Qed.

Lemma touch_attenuated id : attenuated (discard (touch_token id)) (λ _, True).
Proof. apply discard_attenuated. unfold touch_token. step_attenuated. Qed.
End authority.

(** Served requests, the tasks that record the use of tokens, and programs that issue no
    tokens or agents at all. *)
Inductive principal_program (lib : CryptoLib) (app : App) : prog unit → Prop :=
| pp_request request c : principal_program lib app (serve_principal lib app request c)
| pp_touch id : principal_program lib app (discard (touch_token id))
| pp_other p : (∀ A, attenuated A p (λ _, True)) → principal_program lib app p.

(** C27: authority is never amplified: whatever requests to issue, rotate, list and revoke
    tokens and agents are served, in any interleaving and under any faults, every stored
    token and agent stays within a set of scopes that bounds the tokens and agents stored
    at the start and the roles of the identity provider; a token with the role Admin
    appears only if the set contains the wildcard. *)
Theorem authority_confined A lib app env (p p' : Pool unit) :
  roles_within A app → pool_reach (principal_program lib app) env p p' → p_threads p = [] →
  confined A (db_admin (w_db (p_world p))) → confined A (db_admin (w_db (p_world p'))).
Proof.
  intros Hroles Hr Hts Hc. eapply pool_confined; [|exact Hr|done|by rewrite Hts].
  intros q [request c | id | q' Hq]; [| |apply Hq].
  - eapply attenuated_bind; [by apply middleware_within|]. intros [actor touched|?|? ?] Ho; [|done..].
    by apply principal_handler_attenuated.
  - apply touch_attenuated.
Qed.
