(* ===== verification/AuditSpec.v ===== *)
(** * What the audit evidence says

    A checkpoint is stored only with a valid signature over the Merkle root of its
    window, stays as it is in every interleaving, and verifies from then on. *)

From S2P Require Import Prelude Json Proto Admin Behavioral AuthState Merkle Store Adapter Effects Firewall.
From S2P Require Import Validation Lifecycle Quarantine Policies Auth Principals Chain AuditApi StoreSafety AuthorizeSpec PolicySpec AuthSpec.

(** The roots and checkpoints of a world. *)
Definition evidence (w : World) : AuditTables := ad_audit (db_admin (w_db w)).

(** Nothing is changed or removed. *)
Definition evidence_grows (w w' : World) : Prop :=
  at_roots (evidence w) ⊆ at_roots (evidence w') ∧ at_checkpoints (evidence w) ⊆ at_checkpoints (evidence w').

#[export] Instance evidence_grows_preorder : PreOrder evidence_grows.
Proof. split; [by intros w|]. intros w1 w2 w3 [H1 H2] [H3 H4]. split; by etrans. Qed.

(** ** Single operations *)

Lemma admin_exec_evidence now {T} (a : admin_op T) t :
  at_roots (ad_audit t) ⊆ at_roots (ad_audit (admin_exec now a t).2) ∧
  at_checkpoints (ad_audit t) ⊆ at_checkpoints (ad_audit (admin_exec now a t).2).
Proof.
  destruct a; cbn [admin_exec]; unfold sql_mfa_activate, update_factor, sql_insert_bundle, sql_update_bundle,
    sql_insert_version, sql_lockout_fail, sql_lockout_reset, sql_mfa_insert, sql_mfa_record_use, sql_mfa_failed,
    sql_mfa_reset, sql_mfa_revoke, update_factor, sql_token_insert, sql_token_revoke, sql_token_touch,
    sql_agent_insert, sql_agent_revoke; repeat case_match; try done.
  unfold sql_audit. pose proof (audit_exec_grows o (ad_audit t)) as H. by destruct (audit_exec o (ad_audit t)).
Qed.

Lemma exec_op_evidence {X} env (o : op X) w x w' : exec_op env o w = (x, w') → evidence_grows w w'.
Proof.
  assert ((match o with op_admin _ => False | _ => True end) → exec_op env o w = (x, w') → evidence_grows w w') as Hother.
  { intros Ho Hx. pose proof (exec_op_admin env o w Ho) as Hd. rewrite Hx in Hd. cbn in Hd.
    unfold evidence_grows, evidence. by rewrite Hd. }
  destruct o; first [exact (Hother I) | clear Hother].
  destruct w as [d mem m l t]. cbn. unfold sql_admin.
  pose proof (admin_exec_evidence (env_clock env t) a (db_admin d)) as H.
  destruct (admin_exec (env_clock env t) a (db_admin d)) as [r tables]. cbn in H.
  destruct (env_fault env t) as [[]|]; intros [= <- <-]; unfold evidence_grows, evidence; cbn; by destruct d.
Qed.

Lemma pool_reach_evidence {A} env (p p' : Pool A) :
  pool_reach any env p p' → evidence_grows (p_world p) (p_world p').
Proof.
  intros Hr. induction Hr as [p|p p1 p' Hstep _ IH]; [done|]. etrans; [|exact IH].
  destruct Hstep as [i X o k ts w x w' Hi Hx | t ts w _]; simpl; [by eapply exec_op_evidence|done].
Qed.

(** A statement over the evidence that succeeds. *)
Lemma exec_audit_ok {T} env (o : audit_op T) w x w' :
  exec_op env (op_admin (AO_audit o)) w = (Ok x, w') →
  audit_exec o (evidence w) = (Ok x, evidence w') ∧ db_audit_log (w_db w') = db_audit_log (w_db w).
Proof.
  destruct w as [d mem m l t]. unfold evidence. cbn. unfold sql_admin, sql_audit. cbn.
  destruct (env_fault env t) as [[]|]; [by intros [= ]..|].
  destruct (audit_exec o (ad_audit (db_admin d))) as [r t'] eqn:Hx. intros [= -> <-]. by destruct d.
Qed.

Lemma exec_read_ok {T} env (q : read_op T) w x w' :
  exec_op env (op_read q) w = (Ok x, w') → x = read_exec q (w_db w) ∧ w_db w' = w_db w.
Proof.
  destruct w as [d mem m l t]. cbn. destruct (env_fault env t) as [[]|]; intros [= <- <-]; done.
Qed.

(** ** Roots *)

Section runs.
Context (lib : CryptoLib) (hashes : HashLib) (app : App) (env : Env).

(** [r] is the root of the window: cached before, or computed now from the log. *)
Definition root_of (ws : Timestamp) (w : World) (r : AuditMerkleRoot) : Prop :=
  at_roots (evidence w) !! ws = Some r ∨
  at_roots (evidence w) !! ws = None ∧
  compute_merkle_root hashes (window_hashes ws (ws + hour)%Z (w_db w)) = Some (mr_root r) ∧
  mr_entry_count r = Z.of_nat (length (window_hashes ws (ws + hour)%Z (w_db w))).

(** A root that is answered is the one of the window and is stored; nothing else changes. *)
Lemma compute_root_run ws w r w' :
  run env (compute_and_cache_root hashes ws) w = (Some (Ok r), w') →
  root_of ws w r ∧ at_roots (evidence w') !! ws = Some r ∧
  at_checkpoints (evidence w') = at_checkpoints (evidence w) ∧ db_audit_log (w_db w') = db_audit_log (w_db w).
Proof.
  unfold compute_and_cache_root. rewrite run_call.
  destruct (exec_op env _ w) as [[[root|]|e] w1] eqn:H1; [| |done]; apply exec_audit_ok in H1.
  - destruct H1 as [H1 Hlog]. injection H1 as H1 He. intros [= -> <-]. rewrite <- He. unfold root_of. eauto.
  - destruct H1 as [H1 Hlog]. injection H1 as H1 He. rewrite run_call.
    destruct (exec_op env _ w1) as [[rows|e] w2] eqn:H2; [|done]. apply exec_read_ok in H2 as [-> Hd2]. cbn [read_exec].
    destruct (compute_merkle_root _ _) as [root|] eqn:Hroot; [|done]. rewrite run_now, run_call.
    destruct (exec_op env _ (tick w2)) as [[u|e] w3] eqn:H3; [|done]. apply exec_audit_ok in H3 as [H3 Hlog3].
    rewrite run_call. destruct (exec_op env _ w3) as [[stored|e] w4] eqn:H4; [|done].
    apply exec_audit_ok in H4 as [H4 Hlog4]. injection H4 as H4 He4. intros [= Hr <-].
    assert (evidence (tick w2) = evidence w) as Het by (unfold evidence in *; rewrite tick_db, Hd2; congruence).
    rewrite Het in H3. cbn in H3. unfold sql_insert_root in H3. cbn [mr_window_start] in H3. rewrite H1 in H3.
    injection H3 as _ H3. rewrite <- He4, <- H3 in *. cbn [at_roots at_checkpoints] in *.
    rewrite lookup_insert_eq in *. subst stored. cbn in Hr. subst r. rewrite tick_db in *.
    assert (window_hashes ws (ws + hour) (w_db w1) = window_hashes ws (ws + hour) (w_db w)) as Hw.
    { unfold window_hashes. by rewrite Hlog. }
    split_and!; try done.
    + right. cbn. rewrite <- Hw. done.
    + congruence.
Qed.

(** ** Signatures *)

(** The checkpoint carries an Ed25519 signature, under the key it names, of the hash of
    its window, root, count and time. *)
Definition signed (c : AuditCheckpoint) : Prop :=
  ∃ sig pk, cl_base64_decode lib (cp_signature c) = Some sig ∧ String.length sig = 64 ∧
    cl_base64_decode lib (cp_public_key c) = Some pk ∧ String.length pk = 32 ∧ cl_ed25519_key lib pk = true ∧
    cl_ed25519_verify lib pk
      (canonical_checkpoint_hash hashes app (cp_window_start c) (cp_merkle_root c) (cp_entry_count c) (cp_signed_at c))
      sig = true.

Lemma check_signature_iff c : check_checkpoint_signature lib hashes app c = Ok tt ↔ signed c.
Proof.
  unfold check_checkpoint_signature, signed. split.
  - destruct (cl_base64_decode lib (cp_signature c)) as [sig|]; [|done]. cbn [ok_or].
    destruct (String.length sig =? 64)%nat eqn:Hs; cbn [negb]; [|done].
    destruct (cl_base64_decode lib (cp_public_key c)) as [pk|]; [|done]. cbn [ok_or].
    destruct (String.length pk =? 32)%nat eqn:Hp; cbn [negb]; [|done].
    destruct (cl_ed25519_key lib pk) eqn:Hk; cbn [negb]; [|done].
    destruct (cl_ed25519_verify lib pk _ sig) eqn:Hv; cbn [negb]; [|done]. intros _.
    exists sig, pk. apply Nat.eqb_eq in Hs, Hp. done.
  - intros (sig & pk & -> & Hs & -> & Hp & Hk & Hv). cbn [ok_or]. by rewrite Hs, Hp, Hk, Hv.
Qed.

(** ** Checkpoints *)

(** What holds when a checkpoint was accepted. *)
Record checkpoint_accepted (c : AuditCheckpoint) (w w' : World) : Prop := {
  ac_aligned : hour_aligned (cp_window_start c) = true;
  ac_signed : signed c;
  ac_root : ∃ r, root_of (cp_window_start c) w r ∧ mr_root r = cp_merkle_root c ∧ mr_entry_count r = cp_entry_count c ∧
    at_roots (evidence w') !! cp_window_start c = Some r;
  ac_fresh : at_checkpoints (evidence w) !! cp_window_start c = None;
  ac_stored : at_checkpoints (evidence w') = <[cp_window_start c := c]> (at_checkpoints (evidence w));
  ac_log : db_audit_log (w_db w') = db_audit_log (w_db w);
}.

Lemma root_matches_iff r c :
  root_matches r c = true ↔ mr_root r = cp_merkle_root c ∧ mr_entry_count r = cp_entry_count c.
Proof. unfold root_matches. by rewrite andb_true_iff, String.eqb_eq, Z.eqb_eq. Qed.

Lemma create_checkpoint_run req w a w' :
  run env (create_checkpoint_answer lib hashes app req) w = (Some (Ok a), w') → checkpoint_accepted req w w'.
Proof.
  unfold create_checkpoint_answer. destruct (hour_aligned (cp_window_start req)) eqn:Ha; cbn [negb]; [|done].
  rewrite run_bind. destruct (run env (compute_and_cache_root _ _) w) as [[[r|e]|] w1] eqn:H1; [|done..].
  apply compute_root_run in H1 as (Hroot & Hst & Hcp & Hlog).
  destruct (root_matches r req) eqn:Hm; cbn [negb]; [|done]. apply root_matches_iff in Hm as [Hm1 Hm2].
  destruct (check_checkpoint_signature lib hashes app req) as [[]|f] eqn:Hs; [|done]. apply check_signature_iff in Hs.
  rewrite run_call. destruct (exec_op env _ w1) as [[u|e] w2] eqn:H2; [|done].
  apply exec_audit_ok in H2 as [H2 Hlog2]. intros [= _ <-]. cbn in H2. unfold sql_insert_checkpoint in H2.
  destruct (at_checkpoints (evidence w1) !! cp_window_start req) eqn:Hf; [done|]. injection H2 as _ H2.
  rewrite Hcp in Hf. split; rewrite <- ?H2; cbn; try done; [by exists r|by rewrite Hcp|congruence].
Qed.

(** A window with a stored root and a stored checkpoint that matches it and is signed. *)
Record checkpoint_standing (c : AuditCheckpoint) (w : World) : Prop := {
  cs_aligned : hour_aligned (cp_window_start c) = true;
  cs_signed : signed c;
  cs_stored : at_checkpoints (evidence w) !! cp_window_start c = Some c;
  cs_root : ∃ r, at_roots (evidence w) !! cp_window_start c = Some r ∧ root_matches r c = true;
}.

Lemma standing_grows c w w' : checkpoint_standing c w → evidence_grows w w' → checkpoint_standing c w'.
Proof.
  intros [Ha Hs Hc (r & Hr & Hm)] [Hroots Hcps]. split; try done; [by eapply lookup_weaken|].
  exists r. split; [by eapply lookup_weaken|done].
Qed.
Lemma accepted_standing c w w' : checkpoint_accepted c w w' → checkpoint_standing c w'.
Proof.
  intros [Ha Hs (r & _ & Hm1 & Hm2 & Hr) _ Hst _]. split; try done.
  - rewrite Hst. apply lookup_insert_eq.
  - exists r. split; [done|]. by apply root_matches_iff.
Qed.

(** Statements that are not hit by a fault. *)
Lemma exec_audit_quiet {T} (o : audit_op T) w :
  env_fault env (w_tick w) = None →
  (exec_op env (op_admin (AO_audit o)) w).1 = (audit_exec o (evidence w)).1 ∧
  evidence (exec_op env (op_admin (AO_audit o)) w).2 = (audit_exec o (evidence w)).2 ∧
  w_tick (exec_op env (op_admin (AO_audit o)) w).2 = S (w_tick w).
Proof.
  destruct w as [d mem m l t]. unfold evidence. cbn. intros ->. unfold sql_admin, sql_audit. cbn.
  destruct (audit_exec o (ad_audit (db_admin d))) as [r t'] eqn:Hx. by destruct d.
Qed.

Lemma standing_verifies c w :
  checkpoint_standing c w → (∀ t, w_tick w ≤ t → env_fault env t = None) →
  ∃ a w', run env (verify_checkpoint_answer lib hashes app (cp_window_start c)) w = (Some (Ok a), w') ∧
    ca_valid a = true ∧ ca_checkpoint a = Some c.
Proof.
  intros [Ha Hs Hc (r & Hr & Hm)] Hq. unfold verify_checkpoint_answer. rewrite Ha. cbn [negb]. rewrite run_call.
  destruct (exec_audit_quiet (AT_get_checkpoint (cp_window_start c)) w) as (H1 & He1 & Ht1); [by apply Hq|].
  destruct (exec_op env _ w) as [x w1]. cbn in H1, He1, Ht1. subst x. rewrite Hc, run_bind.
  unfold compute_and_cache_root. rewrite run_call.
  destruct (exec_audit_quiet (AT_get_root (cp_window_start c)) w1) as (H2 & He2 & Ht2); [apply Hq; lia|].
  destruct (exec_op env _ w1) as [x w2]. cbn in H2, He2. subst x. rewrite He1, Hr. cbn [run].
  rewrite Hm. cbn [negb]. apply check_signature_iff in Hs. rewrite Hs.
  by eexists _, _.
Qed.
End runs.

(** The log of the window still has the root and the count of the checkpoint. *)
Definition window_unchanged (hashes : HashLib) (c : AuditCheckpoint) (w : World) : Prop :=
  let entries := window_hashes (cp_window_start c) (cp_window_start c + hour)%Z (w_db w) in
  compute_merkle_root hashes entries = Some (cp_merkle_root c) ∧ cp_entry_count c = Z.of_nat (length entries).

(** C33: A checkpoint of the audit log is accepted only for an hour, if it carries a valid
    Ed25519 signature of its canonical hash, and if its root and count are those of the
    window: the cached ones, or (where none was cached) the Merkle root and the number of
    the hashes the log holds for the window.  It is stored as it was sent, once, with the
    root, and the log is left alone.  Whatever runs afterwards, in any interleaving and
    under any faults: as long as the window of the log still has the root and the count of
    the checkpoint, a verification that reads without fault answers that it is valid.
    (That it also does so when the window has changed is [verification_ignores_log].) *)
Theorem checkpoint_roundtrip {A} lib hashes app env req w a w' (p : Pool A) :
  run env (create_checkpoint_answer lib hashes app req) w = (Some (Ok a), w') →
  pool_reach any env (mkPool [] w') p →
  checkpoint_accepted lib hashes app req w w' ∧
  (window_unchanged hashes req (p_world p) → (∀ t, w_tick (p_world p) ≤ t → env_fault env t = None) →
   ∃ a' w'', run env (verify_checkpoint_answer lib hashes app (cp_window_start req)) (p_world p) = (Some (Ok a'), w'') ∧
     ca_valid a' = true ∧ ca_checkpoint a' = Some req).
Proof.
  intros Hrun Hreach. pose proof (create_checkpoint_run _ _ _ _ _ _ _ _ Hrun) as Hacc. split; [done|].
  intros _ Hq. apply standing_verifies; [|done]. eapply standing_grows; [by eapply accepted_standing|].
  apply (pool_reach_evidence _ _ _ Hreach).
Qed.

(** The design document says that verification recomputes the Merkle root of the window.
    The code compares with the cached root and never looks at the log again: whatever the log holds afterwards, an accepted checkpoint is reported as valid. *)
Theorem verification_ignores_log lib hashes app env req w a w' log :
  run env (create_checkpoint_answer lib hashes app req) w = (Some (Ok a), w') →
  (∀ t, w_tick w' ≤ t → env_fault env t = None) →
  let '(mkWorld d mem m l t) := w' in
  ∃ a' w'', run env (verify_checkpoint_answer lib hashes app (cp_window_start req)) (mkWorld (set_audit_log log d) mem m l t)
              = (Some (Ok a'), w'') ∧ ca_valid a' = true.
Proof.
  intros Hrun Hq. apply create_checkpoint_run, accepted_standing in Hrun. destruct w' as [d mem m l t].
  destruct (standing_verifies lib hashes app env req (mkWorld (set_audit_log log d) mem m l t)) as (a' & w'' & Hv & Ha & _);
    [|done|by exists a', w''].
  destruct Hrun as [H1 H2 H3 H4]. split; try done; unfold evidence in *; cbn in *; by destruct d.
Qed.
