(* ===== verification/ExportSpec.v ===== *)
(** * Reading an export back

    A reader of RFC 4180 recovers the fields of the rows that [csv_row] writes.

    The second part is about the pages of an export and its completeness. *)

From stdpp Require Import pretty sorting.
From Stdlib Require Import Ascii Sorted.
From S2P Require Import Prelude Json Proto Admin Behavioral AuthState Merkle Store Effects Firewall FsAdapter.
From S2P Require Import Validation Lifecycle Quarantine Policies Auth Principals Chain AuditApi AuthorizeSpec PolicySpec AuthSpec.
From S2P Require Import AuditSpec.

(** ** The reader *)

(** At the start of a field, inside one without quotation marks, inside one with them,
    or after a quotation mark inside one. *)
Inductive csv_state := CsvStart | CsvPlain | CsvQuoted | CsvQuote.

Fixpoint csv_read (st : csv_state) (field : string) (row : list string) (s : string) : list (list string) :=
  match s with
  | EmptyString => match row, field with [], EmptyString => [] | _, _ => [row ++ [field]] end
  | String c s =>
      let char n := Ascii.eqb c (ascii_of_nat n) in
      match st with
      | CsvQuoted => if char 34 then csv_read CsvQuote field row s else csv_read CsvQuoted (field +:+ String c "") row s
      | _ =>
          if char 44 then csv_read CsvStart "" (row ++ [field]) s
          else if char 10 then (row ++ [field]) :: csv_read CsvStart "" [] s
          else if char 34 then csv_read CsvQuoted (match st with CsvStart => "" | _ => field +:+ String c "" end) row s
          else csv_read CsvPlain (field +:+ String c "") row s
      end
  end.

(** ** Fields *)

Lemma append_cons a c b : a +:+ String c b = (a +:+ String c "") +:+ b.
Proof. by rewrite str_app_assoc. Qed.

(** The characters that end a field. *)
Definition separator (c : ascii) : Prop := c = ascii_of_nat 44 ∨ c = ascii_of_nat 10.

(** A plain field is read character by character. *)
Lemma read_plain s : any_char csv_special s = false → ∀ st field row c t,
  (st = CsvStart ∨ st = CsvPlain) → separator c →
  csv_read st field row (s +:+ String c t) = csv_read CsvPlain (field +:+ s) row (String c t).
Proof.
  induction s as [|x s IH]; intros Hs st field row c t Hst Hc.
  - change ("" +:+ String c t) with (String c t). rewrite str_app_nil. destruct Hst as [-> | ->]; [|done].
    by destruct Hc as [-> | ->].
  - simpl in Hs. apply orb_false_iff in Hs as [Hx Hs]. unfold csv_special in Hx. simpl in Hx.
    repeat rewrite orb_false_iff in Hx. destruct Hx as (H44 & H34 & H10 & _).
    change (String x s +:+ String c t) with (String x (s +:+ String c t)).
    assert (csv_read st field row (String x (s +:+ String c t))
            = csv_read CsvPlain (field +:+ String x "") row (s +:+ String c t)) as ->.
    { destruct Hst as [-> | ->]; cbn [csv_read]; change (ascii_of_nat 44) with ","%char in *; by rewrite H44, H10, H34. }
    rewrite (IH Hs CsvPlain _ row c t (or_intror eq_refl) Hc). f_equal. symmetry. apply append_cons.
Qed.

(** A quoted field up to its closing quotation mark. *)
Lemma read_quoted s field row c t : separator c →
  csv_read CsvQuoted field row (double_quotes s +:+ quote +:+ String c t)
  = csv_read CsvQuote (field +:+ s) row (String c t).
Proof.
  intros Hc. revert field; induction s as [|x s IH]; intros field; cbn [double_quotes].
  - by rewrite str_app_nil.
  - destruct (Ascii.eqb x (ascii_of_nat 34)) eqn:Hx.
    + apply Ascii.eqb_eq in Hx as ->. rewrite (append_cons field (ascii_of_nat 34) s). apply IH.
    + rewrite (append_cons field x s), <- IH. cbn [csv_read]. 
      change (String x (double_quotes s) +:+ quote +:+ String c t) with (String x (double_quotes s +:+ quote +:+ String c t)).
      cbn [csv_read]. by rewrite Hx.
Qed.

(** A field as it is written, and what ends it. *)
Lemma read_field f row c t : separator c →
  csv_read CsvStart "" row (csv_escape_field f +:+ String c t)
  = if Ascii.eqb c (ascii_of_nat 44) then csv_read CsvStart "" (row ++ [f]) t
    else (row ++ [f]) :: csv_read CsvStart "" [] t.
Proof.
  intros Hc. unfold csv_escape_field. destruct (any_char csv_special f) eqn:Hf.
  - rewrite !str_app_assoc.
    change (quote +:+ (double_quotes f +:+ (quote +:+ String c t)))
      with (String (ascii_of_nat 34) (double_quotes f +:+ quote +:+ String c t)).
    assert (csv_read CsvStart "" row (String (ascii_of_nat 34) (double_quotes f +:+ quote +:+ String c t))
            = csv_read CsvQuoted "" row (double_quotes f +:+ quote +:+ String c t)) as -> by done.
    rewrite read_quoted by done. by destruct Hc as [-> | ->].
  - rewrite (read_plain f Hf) by auto. by destruct Hc as [-> | ->].
Qed.

(** ** Rows *)

Lemma read_fields fields f row t :
  csv_read CsvStart "" row (join_comma (csv_escape_field <$> (f :: fields)) +:+ newline +:+ t)
  = (row ++ f :: fields) :: csv_read CsvStart "" [] t.
Proof.
  revert f row; induction fields as [|g fields IH]; intros f row.
  - change (newline +:+ t) with (String (ascii_of_nat 10) t). cbn [fmap list_fmap join_comma].
    rewrite read_field by by right. done.
  - change (join_comma (csv_escape_field <$> (f :: g :: fields)))
      with (csv_escape_field f +:+ String (ascii_of_nat 44) (join_comma (csv_escape_field <$> (g :: fields)))).
    rewrite str_app_assoc.
    change (String (ascii_of_nat 44) (join_comma (csv_escape_field <$> (g :: fields))) +:+ (newline +:+ t))
      with (String (ascii_of_nat 44) (join_comma (csv_escape_field <$> (g :: fields)) +:+ newline +:+ t)).
    rewrite read_field by by left. rewrite Ascii.eqb_refl, IH. by rewrite <- app_assoc.
Qed.

(** A number needs no quotation marks. *)
Lemma pretty_go_plain n s : any_char csv_special s = false → any_char csv_special (pretty_N_go n s) = false.
Proof.
  revert s. induction (N.lt_wf_0 n) as [n _ IH]; intros s Hs.
  destruct (decide (n = 0%N)) as [-> | Hne]; [by rewrite pretty_N_go_0|].
  rewrite pretty_N_go_step by lia. apply IH; [apply N.div_lt; lia|]. cbn [any_char].
  assert (csv_special (pretty_N_char (n `mod` 10)) = false) as -> by (unfold pretty_N_char; repeat case_match; done).
  done.
Qed.
Lemma pretty_plain (z : Z) : csv_escape_field (pretty z) = pretty z.
Proof.
  unfold csv_escape_field. assert (any_char csv_special (pretty z) = false) as ->; [|done].
  assert (∀ n : N, any_char csv_special (pretty n) = false) as HN.
  { intros n. unfold pretty, pretty_N. case_decide; [done|]. by apply pretty_go_plain. }
  destruct z as [|p|p]; [done|apply (HN (Npos p))|]. unfold pretty, pretty_Z. exact (HN (Npos p)).
Qed.

Lemma read_row app e t :
  csv_read CsvStart "" [] (csv_row app e +:+ t) = csv_fields app e :: csv_read CsvStart "" [] t.
Proof.
  assert (csv_row app e = join_comma (csv_escape_field <$> csv_fields app e) +:+ newline) as ->.
  { unfold csv_row, csv_fields. cbn [fmap list_fmap]. by rewrite pretty_plain. }
  rewrite str_app_assoc. unfold csv_fields at 1. rewrite read_fields. done.
Qed.
Lemma read_rows app entries : csv_read CsvStart "" [] (concat_strings (csv_row app <$> entries)) = csv_fields app <$> entries.
Proof.
  induction entries as [|e entries IH]; [done|]. cbn [fmap list_fmap concat_strings].
  by rewrite read_row, IH.
Qed.

Definition csv_columns : list string :=
  ["id"; "actor_id"; "action"; "resource_type"; "resource_id"; "result"; "metadata"; "created_at"; "content_hash";
   "previous_hash"].

(** The body of a CSV export is read back as its header and the fields of its entries. *)
Lemma read_export app entries :
  csv_read CsvStart "" [] (csv_header +:+ concat_strings (csv_row app <$> entries)) = csv_columns :: (csv_fields app <$> entries).
Proof.
  rewrite <- read_rows. assert (csv_header = join_comma (csv_escape_field <$> csv_columns) +:+ newline) as -> by by_eval.
  rewrite str_app_assoc. unfold csv_columns at 1. by rewrite read_fields.
Qed.

(** * The export of the audit log is complete

    As long as identifiers and times agree on the order of the entries, the pages that
    the export collects are the matching entries, newest first, without a gap. *)


(** ** Sorted lists *)

Lemma StronglySorted_filter {A} (R : A → A → Prop) (P : A → Prop) `{!∀ x, base.Decision (P x)} l :
  StronglySorted R l → StronglySorted R (filter P l).
Proof.
  induction 1 as [|x l Hs IH Hx]; [constructor|]. rewrite filter_cons. case_decide; [|done].
  constructor; [done|]. rewrite Forall_forall in *. intros y [_ Hy]%list_elem_of_filter. by apply Hx.
Qed.
Lemma StronglySorted_reverse {A} (R : A → A → Prop) l :
  StronglySorted R l → StronglySorted (flip R) (reverse l).
Proof.
  induction 1 as [|x l Hs IH Hx]; [constructor|]. rewrite reverse_cons. apply StronglySorted_app_2; [|done|repeat constructor].
  intros y z Hy ->%list_elem_of_singleton. rewrite elem_of_reverse in Hy. rewrite Forall_forall in Hx. by apply Hx.
Qed.
Lemma StronglySorted_mono {A} (R S : A → A → Prop) l :
  (∀ x y, R x y → S x y) → StronglySorted R l → StronglySorted S l.
Proof.
  intros H. induction 1 as [|x l Hs IH Hx]; constructor; [done|]. eapply Forall_impl; [exact Hx|]. apply H.
Qed.
Lemma filter_reverse {A} (P : A → Prop) `{!∀ x, base.Decision (P x)} l : filter P (reverse l) = reverse (filter P l).
Proof.
  induction l as [|x l IH]; [done|]. rewrite reverse_cons, filter_app, IH, !filter_cons, filter_nil.
  case_decide; [by rewrite reverse_cons|by rewrite app_nil_r].
Qed.

(** ** The rows of a listing *)

(** A later entry of the log has a larger identifier and was not created earlier. *)
Definition older (a b : AuditLogEntry) : Prop := (al_created_at a ≤ al_created_at b ∧ al_id a < al_id b)%Z.
Definition log_in_order (log : list AuditLogEntry) : Prop :=
  StronglySorted older log ∧ Forall (λ e, 0 ≤ al_id e ≤ 9223372036854775807)%Z log.

(** The matching entries, newest first. *)
Definition newest_first (f : AuditFilter) (log : list AuditLogEntry) : list AuditLogEntry :=
  reverse (filter (λ e, audit_matches f e) log).

Lemma audit_rows_newest f cursor log :
  log_in_order log → audit_rows f cursor log = filter (λ e, before_id cursor e) (newest_first f log).
Proof.
  intros [Hs _]. unfold audit_rows, newest_first. rewrite filter_reverse, list_filter_filter.
  assert (filter (λ e, before_id cursor e ∧ audit_matches f e) log
          = filter (λ e, audit_matches f e && before_id cursor e) log) as ->.
  { apply list_filter_iff. intros e. rewrite andb_True. naive_solver. }
  set (l := filter _ log). assert (StronglySorted older l) as Hl by by apply StronglySorted_filter.
  apply (StronglySorted_unique_strong newer_entry).
  - intros a b Ha Hb Hab Hba. rewrite elem_of_reverse in Hb.
    assert (a ∈ l) as Ha' by (revert Ha; by rewrite merge_sort_Permutation).
    assert (al_id a = al_id b) as Hid by (unfold newer_entry in *; lia).
    apply list_elem_of_lookup in Ha' as [i Hi], Hb as [j Hj].
    destruct (Nat.lt_trichotomy i j) as [Hij|[->|Hij]]; [| by simplify_eq |].
    + destruct (StronglySorted_lookup older l i j a b Hl Hi Hj Hij). lia.
    + destruct (StronglySorted_lookup older l j i b a Hl Hj Hi Hij). lia.
  - apply StronglySorted_merge_sort; [|intros a b; unfold newer_entry; lia].
    intros a b c; unfold newer_entry; lia.
  - apply StronglySorted_reverse in Hl. eapply StronglySorted_mono; [|exact Hl].
    intros a b [H1 H2]. unfold newer_entry. lia.
  - by rewrite merge_sort_Permutation, reverse_Permutation.
Qed.

(** ** Cursors *)

Lemma digit_of_char n : (n < 10)%N → (Z.of_N (Ascii.N_of_ascii (pretty_N_char n)) - 48)%Z = Z.of_N n.
Proof.
  intros Hn. assert (n ∈ [0; 1; 2; 3; 4; 5; 6; 7; 8; 9]%N) as H by (rewrite !elem_of_cons; lia).
  revert n H Hn. rewrite <- Forall_forall. repeat constructor.
Qed.
Lemma parse_digits_pretty n s : parse_digits 0 (pretty_N_go n s) = parse_digits (Z.of_N n) s.
Proof.
  revert s. induction (N.lt_wf_0 n) as [n _ IH]; intros s.
  destruct (decide (n = 0%N)) as [-> | Hne]; [by rewrite pretty_N_go_0|].
  rewrite pretty_N_go_step by lia. rewrite IH by (apply N.div_lt; lia). cbn [parse_digits].
  assert (n `mod` 10 < 10)%N as Hm by by apply N.mod_lt. rewrite digit_of_char by done.
  assert (Z.of_N (n `mod` 10) <= 9)%Z as Hm9 by lia.
  rewrite (proj2 (Z.leb_le _ _) (N2Z.is_nonneg _)), (proj2 (Z.leb_le _ _) Hm9). cbn [andb].
  f_equal. pose proof (N.div_mod n 10). lia.
Qed.

Lemma parse_i64_digit k s : (k < 10)%N → parse_i64 (String (pretty_N_char k) s) =
  match parse_digits 0 (String (pretty_N_char k) s) with
  | Some n => let n := (1 * n)%Z in
      if ((-9223372036854775808 <=? n) && (n <=? 9223372036854775807))%Z then Some n else None
  | None => None
  end.
Proof.
  intros Hk. assert (k ∈ [0; 1; 2; 3; 4; 5; 6; 7; 8; 9]%N) as H by (rewrite !elem_of_cons; lia).
  revert k H Hk. rewrite <- Forall_forall. repeat constructor.
Qed.

(** An identifier that is printed as a cursor is read back. *)
Lemma parse_i64_pretty id : (0 ≤ id ≤ 9223372036854775807)%Z → parse_i64 (pretty id) = Some id.
Proof.
  intros [H0 Hmax]. destruct id as [|p|p]; [done| |lia].
  change (pretty (Zpos p)) with (pretty_N_go (Npos p) "").
  pose proof (parse_digits_pretty (Npos p) "") as Hp. destruct (pretty_N_go_digit (Npos p) "") as (k & s' & Hk & Heq); [lia|].
  rewrite Heq in *. rewrite parse_i64_digit, Hp by done. cbn [parse_digits]. cbv zeta. rewrite Z.mul_1_l.
  rewrite (proj2 (Z.leb_le (-9223372036854775808) _)), (proj2 (Z.leb_le (Zpos p) _)) by lia. done.
Qed.

Lemma newest_sorted f log : log_in_order log → StronglySorted (flip older) (newest_first f log).
Proof. intros [Hs _]. by apply StronglySorted_reverse, StronglySorted_filter. Qed.
Lemma newest_id f log e : log_in_order log → e ∈ newest_first f log → parse_i64 (pretty (al_id e)) = Some (al_id e).
Proof.
  intros [_ Hid]. unfold newest_first. rewrite elem_of_reverse, list_elem_of_filter. intros [_ He].
  apply parse_i64_pretty. rewrite Forall_forall in Hid. by apply (Hid e).
Qed.

(** The rows below the identifier of the [k]-th row are the rows after it. *)
Lemma rows_after f log k e :
  log_in_order log → newest_first f log !! k = Some e →
  audit_rows f (Some (al_id e)) log = drop (S k) (newest_first f log).
Proof.
  intros Ho Hk. rewrite audit_rows_newest by done. pose proof (newest_sorted f log Ho) as Hs.
  set (R := newest_first f log) in *. rewrite <- (take_drop (S k) R) at 1. rewrite filter_app.
  assert (∀ j x, R !! j = Some x → (al_id x < al_id e)%Z ↔ k < j) as Hlt.
  { intros j x Hj. destruct (Nat.lt_trichotomy j k) as [H|[->|H]].
    - destruct (StronglySorted_lookup _ _ _ _ _ _ Hs Hj Hk H). lia.
    - simplify_eq. lia.
    - destruct (StronglySorted_lookup _ _ _ _ _ _ Hs Hk Hj H). lia. }
  rewrite filter_keeps_none, filter_keeps_all; [done| |].
  - intros x [j Hj]%list_elem_of_lookup. rewrite lookup_drop in Hj. apply Is_true_true, Z.ltb_lt, (Hlt _ _ Hj). lia.
  - intros x [j Hj]%list_elem_of_lookup. apply lookup_take_Some in Hj as [Hj Hjk].
    unfold before_id. rewrite Is_true_true, Z.ltb_lt, (Hlt _ _ Hj). lia.
Qed.

(** ** The loop *)

(** Reads that are not hit by a fault. *)
Lemma exec_read_quiet {T} env (q : read_op T) w :
  env_fault env (w_tick w) = None →
  (exec_op env (op_read q) w).1 = Ok (read_exec q (w_db w)) ∧
  w_db (exec_op env (op_read q) w).2 = w_db w ∧ w_tick (exec_op env (op_read q) w).2 = S (w_tick w).
Proof. destruct w as [d mem m l t]. cbn. by intros ->. Qed.

(** The cursor after [k] rows. *)
Definition cursor_at (rows : list AuditLogEntry) (k : nat) : option string :=
  match k with O => None | S k => (λ e, pretty (al_id e)) <$> rows !! k end.

Lemma rows_at f log k :
  log_in_order log → k ≤ length (newest_first f log) →
  audit_rows f (cursor_at (newest_first f log) k ≫= parse_i64) log = drop k (newest_first f log).
Proof.
  intros Ho Hk. destruct k as [|k]; simpl.
  - rewrite audit_rows_newest by done. by apply filter_keeps_all.
  - destruct (lookup_lt_is_Some_2 (newest_first f log) k) as [e He]; [lia|]. rewrite He. simpl.
    rewrite (newest_id f log e Ho) by by eapply list_elem_of_lookup_2. by apply rows_after.
Qed.

(** What the loop answers for rows [R]. *)
Definition export_result (R : list AuditLogEntry) : result (list AuditLogEntry) ApiProblem :=
  if (EXPORT_MAX_ROWS <? Z.of_nat (length R))%Z then
    Err (Problem PAYLOAD_TOO_LARGE EC_PayloadTooLarge
      ("export exceeds maximum of " +:+ pretty EXPORT_MAX_ROWS +:+ " rows; narrow filters or use pagination"))
  else Ok R.

Lemma export_pages_run env f w fuel k :
  let R := newest_first f (db_audit_log (w_db w)) in
  log_in_order (db_audit_log (w_db w)) → (∀ t, w_tick w ≤ t → env_fault env t = None) →
  k ≤ length R → (Z.of_nat k ≤ EXPORT_MAX_ROWS)%Z → (EXPORT_MAX_ROWS < Z.of_nat k + 500 * Z.of_nat fuel)%Z →
  ∃ w', run env (export_pages fuel f (cursor_at R k) (take k R)) w = (Some (export_result R), w') ∧ w_db w' = w_db w.
Proof.
  revert w k; induction fuel as [|fuel IH]; intros w k R Ho Hq Hk Hmax Hfuel; [lia|].
  cbn [export_pages]. rewrite run_call.
  destruct (exec_read_quiet env (RO_audit_list f (cursor_at R k ≫= parse_i64) EXPORT_PAGE_SIZE) w) as (H1 & Hd & Ht);
    [by apply Hq|].
  destruct (exec_op env _ w) as [x w1]. cbn [fst snd] in H1, Hd, Ht. subst x. cbn [read_exec].
  assert (audit_rows f (cursor_at R k ≫= parse_i64) (db_audit_log (w_db w)) = drop k R) as Hrows by by apply rows_at.
  unfold audit_list. rewrite Hrows. unfold page_of.
  destruct (Nat.ltb_spec EXPORT_PAGE_SIZE (length (take (EXPORT_PAGE_SIZE + 1) (drop k R)))) as [Hmore|Hlast];
    rewrite length_take, length_drop in *; unfold EXPORT_PAGE_SIZE in *.
  - rewrite take_take, Nat.min_l, take_take_drop by lia.
    assert (length (take (k + 500) R) = k + 500) as Hlen by (rewrite length_take; lia). rewrite Hlen.
    assert (Hcur : (λ e, pretty (al_id e)) <$> last (take 500 (drop k R)) = cursor_at R (k + 500)).
    { rewrite last_lookup, length_take, length_drop, Nat.min_l, lookup_take_lt, lookup_drop by lia.
      replace (k + 500) with (S (k + 499)) by lia. done. }
    rewrite Hcur. destruct (Z.ltb_spec EXPORT_MAX_ROWS (Z.of_nat (k + 500))) as [Hbig|Hsmall].
    + exists w1. split; [|done]. unfold export_result.
      rewrite (proj2 (Z.ltb_lt _ _)) by (unfold R in *; lia). done.
    + destruct (cursor_at R (k + 500)) as [c|] eqn:Hc.
      2: { replace (k + 500) with (S (k + 499)) in Hc by lia. cbn [cursor_at] in Hc. apply fmap_None, lookup_ge_None in Hc. lia. }
      rewrite <- Hc. destruct (IH w1 (k + 500)) as (w' & Hrun & Hd'); rewrite ?Hd; fold R; try done; try lia.
      { intros t Hle. apply Hq. lia. }
      exists w'. rewrite Hd in Hrun, Hd'. done.
  - rewrite (take_ge (drop k R)) by (rewrite length_drop; lia). rewrite take_drop.
    exists w1. split; [|done]. unfold export_result. by case_match.
Qed.

(** ** Theorems *)

(** The filter of an export. *)
Definition export_filter (params : ExportAuditLogsQuery) : AuditFilter :=
  audit_filter (eal_action params) (eal_resource_type params) (eal_resource_id params) (eal_since params) (eal_until params).
Definition export_format (params : ExportAuditLogsQuery) : string := str_to_lowercase (default "ndjson" (eal_format params)).

(** C37: When identifiers and times of the log agree on the order of the entries and no read
    fails, the export always answers, and leaves the database alone: more than 10000
    matching entries are refused with status 413; otherwise the body in the format asked for
    holds every matching entry exactly once, newest first, whatever number of pages was
    read; an unknown format is refused with status 400.  A reader of RFC 4180 gets from
    a CSV body the header and exactly the fields of these entries. *)
Theorem export_complete lib app env params w :
  let R := newest_first (export_filter params) (db_audit_log (w_db w)) in
  log_in_order (db_audit_log (w_db w)) → (∀ t, w_tick w ≤ t → env_fault env t = None) →
  ∃ r w', run env (export_audit_logs lib app params) w = (Some r, w') ∧ w_db w' = w_db w ∧
    ((EXPORT_MAX_ROWS < Z.of_nat (length R))%Z → ∃ p, r = Err p ∧ prob_status p = PAYLOAD_TOO_LARGE) ∧
    ((Z.of_nat (length R) ≤ EXPORT_MAX_ROWS)%Z →
       match export_body lib app (export_format params) R with
       | Some body => r = Ok body ∧
           (export_format params = "csv" → csv_read CsvStart "" [] body = csv_columns :: (csv_fields app <$> R))
       | None => ∃ p, r = Err p ∧ prob_status p = BAD_REQUEST
       end).
Proof.
  intros R Ho Hq. unfold export_audit_logs. rewrite run_bind. fold (export_filter params).
  destruct (export_pages_run env (export_filter params) w EXPORT_ROUNDS 0) as (w' & Hrun & Hd); try done;
    [simpl; lia|]. fold R in Hrun. rewrite take_0 in Hrun. cbn [cursor_at] in Hrun. rewrite Hrun. unfold export_result.
  destruct (Z.ltb_spec EXPORT_MAX_ROWS (Z.of_nat (length R))) as [Hbig|Hsmall].
  - eexists _, w'. split_and!; [done|done|intros _; by eexists|lia].
  - fold (export_format params). destruct (export_body lib app (export_format params) R) as [body|] eqn:Hb.
    + eexists _, w'. split_and!; [done|done|lia|]. intros _. split; [done|]. intros Hcsv. rewrite Hcsv in Hb.
      injection Hb as <-. apply read_export.
    + eexists _, w'. split_and!; [done|done|lia|]. intros _. by eexists.
Qed.

(** Entries whose times are out of order can be lost between two pages: the listing is
    ordered by time and the cursor is an identifier. *)
Theorem out_of_order_entry_lost (d : Db) :
  let entry id t := mkAuditLogEntry id "a" "token_create" "token" "r" "ok" None t None None in
  let all := {| af_action := None; af_resource_type := None; af_resource_id := None; af_since := None; af_until := None |} in
  let d' := set_audit_log [entry 1%Z 20%Z; entry 2%Z 10%Z] d in
  audit_list all None 1 d' = ([entry 1%Z 20%Z], Some "1") ∧ audit_list all (parse_i64 "1") 1 d' = ([], None).
Proof. by destruct d. Qed.
