(* ===== verification/BundleSpec.v ===== *)
(** * Bundles can be checked and the archive is complete

    A bundle of linked entries verifies, a verified bundle holds linked entries whose
    hashes the manifest fixes, and the bundles of the sink are the log, whatever fails.

    The second part is about the WORM sink. *)

From stdpp Require Import pretty sorting.
From Stdlib Require Import Ascii Sorted.
From S2P Require Import Prelude Json Proto Admin Behavioral AuthState Merkle Store Effects Firewall Validation.
From S2P Require Import Lifecycle Quarantine Policies Auth Principals Chain AuditApi Bundle ExportSpec.

(** ** Lines *)

Definition one_line (s : string) : bool := forallb (λ c, negb (Ascii.eqb c (ascii_of_nat 10))) (String.list_ascii_of_string s).

Lemma raw_lines_line t : one_line t = true → t ≠ "" → raw_lines t = [t].
Proof.
  unfold one_line. induction t as [|c t IH]; [done|]. simpl. intros [Hc%negb_true_iff Ht]%andb_true_iff _. rewrite Hc.
  destruct t; [done|]. by rewrite IH.
Qed.
Lemma raw_lines_cons t rest : one_line t = true → raw_lines (t +:+ newline +:+ rest) = t :: raw_lines rest.
Proof.
  unfold one_line. induction t as [|c t IH]; [done|]. simpl. intros [Hc%negb_true_iff Ht]%andb_true_iff. rewrite Hc.
  simpl in IH. by rewrite IH.
Qed.

Section spec.
Context (lib : CryptoLib) (hashes : HashLib) (app : App) (bl : BundleLib).
Abbreviation text e := (entry_text lib app e).

(** The text of an entry is a line without white space around it, and reads back. *)
Record printable_entry (e : AuditLogEntry) : Prop := {
  pe_line : one_line (text e) = true;
  pe_trim : str_trim (text e) = text e;
  pe_some : text e ≠ "";
  pe_parse : bl_parse_entry bl (text e) = Ok e;
}.

Lemma filter_lines es : Forall printable_entry es → filter (λ l, l ≠ "") (str_trim <$> (entry_text lib app <$> es)) = entry_text lib app <$> es.
Proof.
  induction 1 as [|e es He _ IH]; [done|]. rewrite !fmap_cons, filter_cons, (pe_trim _ He), decide_True by apply (pe_some _ He).
  by rewrite IH.
Qed.
Lemma lines_joined es : Forall printable_entry es → trimmed_lines (join_lines (entry_text lib app <$> es)) = entry_text lib app <$> es.
Proof.
  intros Hes. unfold trimmed_lines. rewrite <- (filter_lines es) at 2 by done. do 2 f_equal.
  induction Hes as [|e es He Hes IH]; [done|]. rewrite fmap_cons. destruct es as [|e' es].
  - apply raw_lines_line; [apply (pe_line _ He)|apply (pe_some _ He)].
  - change (join_lines _) with (text e +:+ newline +:+ join_lines (entry_text lib app <$> e' :: es)).
    rewrite raw_lines_cons by apply (pe_line _ He). by rewrite IH.
Qed.
Lemma lines_exported es : Forall printable_entry es →
  trimmed_lines (concat_strings ((λ e, text e +:+ newline) <$> es)) = entry_text lib app <$> es.
Proof.
  intros Hes. unfold trimmed_lines. rewrite <- (filter_lines es) by done. do 2 f_equal.
  induction Hes as [|e es He Hes IH]; [done|]. rewrite !fmap_cons. cbn [concat_strings foldr].
  change (raw_lines ((text e +:+ newline) +:+ concat_strings ((λ e, text e +:+ newline) <$> es)) = text e :: (entry_text lib app <$> es)).
  rewrite str_app_assoc, raw_lines_cons by apply (pe_line _ He). by rewrite IH.
Qed.

Lemma parse_entries_texts es : Forall printable_entry es → parse_entries bl (entry_text lib app <$> es) = Ok es.
Proof. induction 1 as [|e es He _ IH]; [done|]. cbn. by rewrite (pe_parse _ He), IH. Qed.
Lemma parse_distinct_texts seen es : Forall printable_entry es → NoDup (al_id <$> es) → (∀ e, e ∈ es → al_id e ∉ seen) →
  parse_distinct bl seen (entry_text lib app <$> es) = Ok es.
Proof.
  intros Hes. revert seen. induction Hes as [|e es He _ IH]; intros seen Hn Hs; [done|]. cbn in Hn |- *.
  apply NoDup_cons in Hn as [Hnew Hn]. rewrite (pe_parse _ He), bool_decide_false by (apply Hs; set_solver).
  rewrite IH; [done..|]. intros e' He'. apply not_elem_of_cons. split; [|apply Hs; set_solver].
  intros Heq. apply Hnew. rewrite <- Heq. by apply list_elem_of_fmap_2.
Qed.

(** ** The checks of a bundle *)

Lemma check_bundle_entry_ok boundary prior stored e :
  check_bundle_entry app boundary prior stored e = Ok tt ↔
  stored = compute_content_hash (app_ext app) e ∧
  al_previous_hash e = match prior with Some p => Some p | None => boundary end.
Proof.
  unfold check_bundle_entry. destruct (String.eqb_spec stored (compute_content_hash (app_ext app) e)); simpl;
    [|split; [done|by intros [? _]]].
  destruct prior as [p|], boundary as [b|], (al_previous_hash e) as [q|]; try (split; [done|by intros [_ ?]]); try done.
  1-2: destruct (String.eqb_spec q p) as [->|Hne]; simpl; [done|]; split; [done|intros [_ ?]; congruence].
  destruct (String.eqb_spec q b) as [->|Hne]; simpl; [done|]. split; [done|intros [_ ?]; congruence].
Qed.

Lemma check_bundle_entries_iff boundary prior es :
  check_bundle_entries app boundary prior es = Ok tt ↔
  linked (app_ext app) match prior with Some p => Some p | None => boundary end (hashed es).
Proof.
  revert prior. induction es as [|e es IH]; intros prior; simpl; [split; [by intros _ []|done]|].
  unfold hashed. rewrite filter_cons. destruct (al_content_hash e) as [h|] eqn:Hh.
  - rewrite decide_True by done. rewrite linked_cons, Hh.
    destruct (check_bundle_entry app boundary prior h e) as [[]|err] eqn:Hc.
    + apply check_bundle_entry_ok in Hc as [-> Hp]. rewrite IH. by intuition.
    + split; [done|]. intros ([= ->] & Hp & _). rewrite (proj2 (check_bundle_entry_ok _ _ _ _)) in Hc by done. done.
  - rewrite decide_False; [apply IH|]. by intros [? ?].
Qed.

(** ** Verified directories *)

(** What the manifest says about the entries of the lines. *)
Record bundle_valid (m : AuditBundleManifest) (entries : list AuditLogEntry) : Prop := {
  bv_version : bm_version m = 1%Z;
  bv_count : length entries = bm_entry_count m;
  bv_linked : linked (app_ext app) (bm_previous_boundary_hash m) (hashed entries);
  bv_first : default "" (head (content_hashes entries)) = bm_first_hash m;
  bv_last : default "" (last (content_hashes entries)) = bm_last_hash m;
  bv_root : compute_merkle_root hashes (content_hashes entries) = Some (bm_merkle_root m);
}.

Lemma check_manifest_ok m m' entries :
  check_manifest hashes m entries = Some (Ok m') ↔
  m' = m ∧ default "" (head (content_hashes entries)) = bm_first_hash m ∧
  default "" (last (content_hashes entries)) = bm_last_hash m ∧
  compute_merkle_root hashes (content_hashes entries) = Some (bm_merkle_root m).
Proof.
  unfold check_manifest. destruct (String.eqb_spec (default "" (head (content_hashes entries))) (bm_first_hash m)); simpl; [|naive_solver].
  destruct (String.eqb_spec (default "" (last (content_hashes entries))) (bm_last_hash m)); simpl; [|naive_solver].
  destruct (compute_merkle_root hashes (content_hashes entries)) as [root|]; simpl; [|naive_solver].
  destruct (String.eqb_spec root (bm_merkle_root m)) as [->|Hne]; naive_solver.
Qed.

(** Verification accepts a directory exactly when both files can be read, the lines are
    entries with different identifiers and the manifest is right about them. *)
Theorem verify_bundle_iff dir m :
  verify_bundle hashes app bl dir = Some (Ok m) ↔
  ∃ manifest body entries, bd_manifest dir = Some (Ok manifest) ∧ bl_parse_manifest bl manifest = Ok m ∧
    bd_jsonl dir = Some (Ok body) ∧ parse_distinct bl [] (trimmed_lines body) = Ok entries ∧ bundle_valid m entries.
Proof.
  unfold verify_bundle. split.
  - destruct (bd_manifest dir) as [[mt|]|], (bd_jsonl dir) as [[body|]|]; try done;
      destruct (bl_parse_manifest bl mt) as [m0|] eqn:Hm; try done; destruct (Z.eqb_spec (bm_version m0) 1) as [Hv|]; try done.
    cbn [negb]. destruct (parse_distinct bl [] (trimmed_lines body)) as [entries|] eqn:He; [|done].
    destruct (Nat.eqb_spec (length entries) (bm_entry_count m0)) as [Hc|]; [|done]. cbn [negb].
    destruct (check_bundle_entries app _ None entries) as [[]|] eqn:Hl; [|done].
    intros (-> & H1 & H2 & H3)%check_manifest_ok. apply check_bundle_entries_iff in Hl. by exists mt, body, entries.
  - intros (mt & body & entries & -> & -> & -> & -> & [Hv Hc Hl Hf Hla Hr]). rewrite Hv, Hc, Nat.eqb_refl. cbn [Z.eqb negb Pos.eqb].
    rewrite (proj2 (check_bundle_entries_iff _ None _)) by done. by apply check_manifest_ok.
Qed.

(** A bundle of linked entries, written to a directory without a fault, verifies, and the
    verifier returns the manifest of the export. *)
Theorem bundle_roundtrip now entries body boundary bundle faults dir m dir' :
  Forall printable_entry entries → NoDup (al_id <$> entries) → linked (app_ext app) boundary (hashed entries) →
  trimmed_lines body = entry_text lib app <$> entries →
  build_bundle_with_boundary hashes now entries body boundary = Some bundle →
  export_bundle bl faults bundle dir = (Ok m, dir') →
  bl_parse_manifest bl (bl_manifest_text bl m) = Ok m →
  m = ab_manifest bundle ∧ verify_bundle hashes app bl dir' = Some (Ok m).
Proof.
  intros Hp Hn Hl Hlines Hb He Hm. unfold build_bundle_with_boundary in Hb.
  destruct (compute_merkle_root hashes (content_hashes entries)) as [root|] eqn:Hr; [|done]. injection Hb as <-.
  unfold export_bundle in He. destruct faults as [[?|] [[? ?]|] [[? ?]|]]; simplify_eq/=. split; [done|].
  apply verify_bundle_iff. eexists _, _, entries. split_and!; [done..| |by split]. rewrite Hlines. apply parse_distinct_texts; [done..|set_solver].
Qed.

(** The entries of the lines of a directory. *)
Definition holds_entries (dir : BundleDir) (entries : list AuditLogEntry) : Prop :=
  ∃ body, bd_jsonl dir = Some (Ok body) ∧ parse_distinct bl [] (trimmed_lines body) = Ok entries.

Lemma linked_own prior es : linked (app_ext app) prior (hashed es) →
  ∀ e h, e ∈ es → al_content_hash e = Some h → h = compute_content_hash (app_ext app) e.
Proof.
  intros Hl e h He Hh. assert (e ∈ hashed es) as Hin by (apply list_elem_of_filter; by split).
  apply list_elem_of_lookup in Hin as [i Hi]. destruct (Hl i e Hi). congruence.
Qed.

(** C34: A bundle is tamper evident: two directories that verify with the same manifest and
    hold as many hashed entries hold entries with the same content hashes, in the same
    order, or the two Merkle roots contain a collision of the hash; each hashed entry
    stores the hash of its own content and is linked to the one before it, the first one
    to the boundary of the manifest. *)
Theorem bundle_tamper_evident `{!HashLaws hashes} dir1 dir2 m :
  verify_bundle hashes app bl dir1 = Some (Ok m) → verify_bundle hashes app bl dir2 = Some (Ok m) →
  ∃ es1 es2, holds_entries dir1 es1 ∧ holds_entries dir2 es2 ∧
    length es1 = length es2 ∧
    (∀ e h, e ∈ es1 ++ es2 → al_content_hash e = Some h → h = compute_content_hash (app_ext app) e) ∧
    linked (app_ext app) (bm_previous_boundary_hash m) (hashed es1) ∧
    linked (app_ext app) (bm_previous_boundary_hash m) (hashed es2) ∧
    (length (content_hashes es1) = length (content_hashes es2) →
     mapM (hl_hex_decode hashes) (content_hashes es1) = mapM (hl_hex_decode hashes) (content_hashes es2) ∨
     collision hashes (root_inputs hashes (content_hashes es1)) (root_inputs hashes (content_hashes es2))).
Proof.
  rewrite !verify_bundle_iff. intros (t1 & b1 & es1 & _ & _ & Hj1 & Hp1 & H1) (t2 & b2 & es2 & _ & _ & Hj2 & Hp2 & H2).
  exists es1, es2. split_and!; [by exists b1|by exists b2| | |apply H1|apply H2|].
  - by rewrite (bv_count _ _ H1), (bv_count _ _ H2).
  - intros e h [He|He]%elem_of_app Hh; [eapply (linked_own _ es1); [apply H1|done..]|eapply (linked_own _ es2); [apply H2|done..]].
  - intros Hl. exact (merkle_root_binding hashes _ _ _ (bv_root _ _ H1) (bv_root _ _ H2) Hl).
Qed.
End spec.

(** * The archive of the WORM sink

    The worker reads the log from its cursor, uploads a bundle of at most a batch and then
    advances the cursor.  The log grows meanwhile, any read or upload may fail, and the
    process may be restarted, which puts the cursor back to the start.  The bundles up to
    the cursor are the log, each of them verifies by itself, and passes without faults
    reach the end of the log. *)


(** ** Chains in pieces *)

Lemma linked_app ext prior l1 l2 :
  linked ext prior (l1 ++ l2) ↔
  linked ext prior l1 ∧ linked ext match last l1 with Some e => al_content_hash e | None => prior end l2.
Proof.
  revert prior. induction l1 as [|e l1 IH]; intros prior; [split; [by split|by intros [_ ?]]|].
  rewrite <- app_comm_cons, !linked_cons, IH. destruct l1 as [|e' l1]; [cbn; tauto|].
  rewrite (last_cons e (e' :: l1)). destruct (last (e' :: l1)) eqn:Hl; [tauto|by apply last_None in Hl].
Qed.

Lemma sink_boundary_hashed es : sink_boundary es = head (hashed es) ≫= al_previous_hash.
Proof.
  unfold sink_boundary. induction es as [|e es IH]; [done|]. cbn [List.find]. unfold hashed. rewrite filter_cons.
  case_bool_decide; [by rewrite decide_True|by rewrite decide_False].
Qed.

(** A piece of a verified log is linked from the boundary that the sink records. *)
Lemma piece_linked ext prior a b c :
  linked ext prior (hashed (a ++ b ++ c)) → linked ext (sink_boundary b) (hashed b).
Proof.
  unfold hashed. rewrite !filter_app. fold (hashed a) (hashed b) (hashed c). intros [_ [Hb _]%linked_app]%linked_app.
  rewrite sink_boundary_hashed. destruct (hashed b) as [|e l]; [by intros []|]. cbn.
  rewrite linked_cons in *. destruct Hb as (H1 & _ & H3). by split_and!.
Qed.

(** ** Logs in order *)

Definition id_lt (a b : AuditLogEntry) : Prop := (al_id a < al_id b)%Z.
(** Identifiers are positive and increase. *)
Definition numbered (log : list AuditLogEntry) : Prop := StronglySorted id_lt log ∧ Forall (λ e, 0 < al_id e)%Z log.

Abbreviation upto c log := (filter (λ e, al_id e ≤ c)%Z log).
Abbreviation beyond c log := (filter (λ e, c < al_id e)%Z log).

Lemma numbered_split log c : StronglySorted id_lt log → log = upto c log ++ beyond c log.
Proof.
  induction 1 as [|e log Hs IH He]; [done|]. rewrite !filter_cons. rewrite Forall_forall in He. unfold id_lt in He.
  destruct (decide (al_id e ≤ c)%Z) as [Hle|Hgt].
  - rewrite decide_False by lia. simpl. by f_equal.
  - rewrite decide_True by lia. rewrite (filter_keeps_none _ log).
    + simpl. f_equal. rewrite filter_keeps_all; [done|]. intros x Hx. specialize (He x Hx). lia.
    + intros x Hx. specialize (He x Hx). lia.
Qed.

Lemma numbered_nodup log : StronglySorted id_lt log → NoDup (al_id <$> log).
Proof.
  induction 1 as [|e log Hs IH He]; [constructor|]. rewrite fmap_cons. constructor; [|done].
  intros (x & Hx & Hin)%list_elem_of_fmap. rewrite Forall_forall in He. specialize (He x Hin). unfold id_lt in He. lia.
Qed.

(** The batch after the cursor. *)
Definition batch (config : WormSinkConfig) (log : list AuditLogEntry) (c : Z) : list AuditLogEntry :=
  take (ws_batch_limit config) (beyond c log).

Lemma audit_list_since_batch config log c : (audit_list_since c (ws_batch_limit config) log).1 = batch config log c.
Proof.
  unfold audit_list_since, batch.
  rewrite (list_filter_iff (λ e, (c <? al_id e)%Z) (λ e, c < al_id e)%Z) by (intros e; by rewrite Is_true_true, Z.ltb_lt).
  set (rows := beyond c log). destruct (Nat.ltb_spec (ws_batch_limit config) (length (take (S (ws_batch_limit config)) rows))) as [Hlt|Hge]; cbn [fst].
  - rewrite take_take. f_equal. lia.
  - rewrite length_take in Hge. rewrite !take_ge by lia. done.
Qed.

Lemma sorted_last_max l e : StronglySorted id_lt l → last l = Some e → Forall (λ x, al_id x ≤ al_id e)%Z l.
Proof.
  intros Hs Hl. apply last_Some in Hl as [l' ->]. apply Forall_app. split; [|repeat constructor; lia].
  apply Forall_forall. intros x Hx. apply list_elem_of_lookup in Hx as [i Hi].
  assert (id_lt x e); [|unfold id_lt in *; lia].
  eapply (StronglySorted_lookup id_lt (l' ++ [e]) i (length l')); [done|by rewrite lookup_app_l; [|eapply lookup_lt_Some]|by rewrite list_lookup_middle|by eapply lookup_lt_Some].
Qed.

(** The entries up to the last one of a batch are those up to the cursor and the batch. *)
Lemma upto_batch config log c e :
  StronglySorted id_lt log → last (batch config log c) = Some e → upto (al_id e) log = upto c log ++ batch config log c.
Proof.
  intros Hs Hl. pose proof (numbered_split log c Hs) as Hsplit. unfold batch in *. set (n := ws_batch_limit config) in *.
  pose proof (take_drop n (beyond c log)) as Hd. rewrite <- Hd in Hsplit at 1.
  set (A := upto c log) in *. set (B := take n (beyond c log)) in *. set (C := drop n (beyond c log)) in *.
  assert (StronglySorted id_lt (A ++ B ++ C)) as Hs' by by rewrite <- Hsplit.
  apply StronglySorted_app in Hs' as (HAB & _ & HBC). apply StronglySorted_app in HBC as (HC & HB & _).
  pose proof (sorted_last_max B e HB Hl) as HBe. assert (e ∈ B) as He by by apply last_Some_elem_of.
  rewrite Hsplit at 1. rewrite !filter_app, (filter_keeps_all _ A), (filter_keeps_all _ B), (filter_keeps_none _ C), app_nil_r; [done|..].
  - intros x Hx. specialize (HC e x He Hx). unfold id_lt in HC. lia.
  - intros x Hx. rewrite Forall_forall in HBe. specialize (HBe x Hx). lia.
  - intros x Hx. assert (id_lt x e) as Hlt by (apply HAB; [done|set_solver]). unfold id_lt in Hlt. lia.
Qed.

(** ** Passes *)

Section archive.
Context (lib : CryptoLib) (hashes : HashLib) (app : App) (bl : BundleLib) (config : WormSinkConfig).

(** The two objects of a bundle of the entries were uploaded, under the key of their first
    and last id: the text of the entries, and a manifest with their number, their first
    and last content hash, the Merkle root of their hashes and the boundary. *)
Record bundle_objects (objects : list (string * string)) (entries : list AuditLogEntry) (key : string)
    (m : AuditBundleManifest) : Prop := {
  bo_key : ∃ first final, head entries = Some first ∧ last entries = Some final ∧
    key = bundle_key (ws_prefix config) (al_id first) (al_id final);
  bo_body : (key +:+ "/audit.jsonl", join_lines (entry_text lib app <$> entries)) ∈ objects;
  bo_manifest : (key +:+ "/manifest.json", bl_manifest_text bl m) ∈ objects;
  bo_count : bm_entry_count m = length entries;
  bo_root : compute_merkle_root hashes (content_hashes entries) = Some (bm_merkle_root m);
  bo_ends : bm_first_hash m = default "" (head (content_hashes entries)) ∧
    bm_last_hash m = default "" (last (content_hashes entries)) ∧ bm_previous_boundary_hash m = sink_boundary entries;
  bo_version : bm_version m = 1%Z;
}.

Definition archived (objects : list (string * string)) (entries : list AuditLogEntry) : Prop :=
  ∃ key m, bundle_objects objects entries key m.

Lemma bundle_objects_built objects entries key m : bundle_objects objects entries key m →
  ∃ now, build_bundle_with_boundary hashes now entries (join_lines (entry_text lib app <$> entries)) (sink_boundary entries)
    = Some (mkBundle (join_lines (entry_text lib app <$> entries)) m).
Proof.
  intros [_ _ _ Hc Hr (H1 & H2 & H3) Hv]. exists (bm_exported_at m). unfold build_bundle_with_boundary. rewrite Hr.
  cbn. rewrite <- H1, <- H2, <- H3, <- Hc, <- Hv. by destruct m.
Qed.

Lemma archived_more objects objects' entries : objects ⊆ objects' → archived objects entries → archived objects' entries.
Proof. intros Hs (key & m & []). exists key, m. split; auto. Qed.

Lemma upload_more fault key body objects : objects ⊆ (upload fault key body objects).2.
Proof. destruct fault as [[e []]|]; cbn; [set_solver..|]. set_solver. Qed.

(** A pass leaves the cursor, or has archived the batch and moves it to its end. *)
Lemma pass_outcome faults now log s r s' :
  run_one_export_pass lib hashes app bl config faults now log s = Some (r, s') →
  sk_objects s ⊆ sk_objects s' ∧
  (sk_last_id s' = sk_last_id s ∨
   ∃ e, last (batch config log (sk_last_id s)) = Some e ∧ sk_last_id s' = al_id e ∧
        archived (sk_objects s') (batch config log (sk_last_id s))).
Proof.
  unfold run_one_export_pass. destruct (run_one_export_pass_inner _ _ _ _ _ _ _ _ _) as [[r0 s0]|] eqn:Hi; [|done].
  intros H. assert (sk_objects s' = sk_objects s0 ∧ sk_last_id s' = sk_last_id s0) as [-> ->] by (cbn in H; destruct r0; by simplify_eq/=).
  clear H. revert Hi. unfold run_one_export_pass_inner. destruct (pf_store faults); [intros [= _ <-]; by split; [|left]|].
  rewrite audit_list_since_batch. set (B := batch config log (sk_last_id s)).
  destruct (head B) as [first|] eqn:Hfirst; [|intros [= _ <-]; by split; [|left]].
  destruct (last B) as [final|] eqn:Hl; [|intros [= _ <-]; by split; [|left]].
  destruct (build_bundle_with_boundary _ _ _ _ _) as [bundle|] eqn:Hb; [|done]. cbn [option_bind mbind].
  set (key := bundle_key _ _ _).
  pose proof (upload_more (pf_jsonl faults) (key +:+ "/audit.jsonl") (ab_body bundle) (sk_objects s)) as H1.
  destruct (upload (pf_jsonl faults) _ _ _) as [[|e1] o1] eqn:Hu1; cbn in H1 |- *; [|intros [= _ <-]; by split; [|left]].
  pose proof (upload_more (pf_manifest faults) (key +:+ "/manifest.json") (bl_manifest_text bl (ab_manifest bundle)) o1) as H2.
  destruct (upload (pf_manifest faults) _ _ _) as [[|e2] o2] eqn:Hu2; cbn in H2 |- *; intros [= _ <-]; (split; [by etrans|]); [right|by left].
  exists final. split_and!; [done..|]. unfold build_bundle_with_boundary in Hb.
  destruct (compute_merkle_root hashes (content_hashes B)) as [root|] eqn:Hroot; [|done]. injection Hb as <-.
  exists key, (mkManifest 1 now (default "" (head (content_hashes B))) (default "" (last (content_hashes B))) root (length B) (sink_boundary B)).
  split; try done; cbn.
  - by exists first, final.
  - apply H2. unfold upload in Hu1. destruct (pf_jsonl faults) as [[]|]; [done|]. injection Hu1 as _ <-. set_solver.
  - unfold upload in Hu2. destruct (pf_manifest faults) as [[]|]; [done|]. injection Hu2 as _ <-. set_solver.
Qed.

(** ** The log and the worker *)

Inductive sink_step : list AuditLogEntry * Sink → list AuditLogEntry * Sink → Prop :=
| worm_append log e s : numbered (log ++ [e]) → sink_step (log, s) (log ++ [e], s)
| worm_pass faults now log s r s' :
    run_one_export_pass lib hashes app bl config faults now log s = Some (r, s') → sink_step (log, s) (log, s')
| worm_restart log s : sink_step (log, s) (log, mkSink 0 (sk_objects s) 0 0 0).

Definition fresh_sink : Sink := mkSink 0 [] 0 0 0.

Record archive_inv (log : list AuditLogEntry) (s : Sink) : Prop := {
  ai_numbered : numbered log;
  ai_cursor : sk_last_id s = 0%Z ∨ ∃ e, e ∈ log ∧ al_id e = sk_last_id s;
  ai_bundles : ∃ bundles, concat bundles = upto (sk_last_id s) log ∧ Forall (archived (sk_objects s)) bundles;
}.

Lemma upto_none log : numbered log → upto 0 log = [].
Proof. intros [_ Hp]. apply filter_keeps_none. intros e He. rewrite Forall_forall in Hp. specialize (Hp e He). simpl in Hp. lia. Qed.

Lemma restart_inv log objects : numbered log → archive_inv log (mkSink 0 objects 0 0 0).
Proof. intros Hn. split; [done|by left|]. exists []. split; [by rewrite upto_none|constructor]. Qed.

Lemma append_inv log e s : numbered (log ++ [e]) → archive_inv log s → archive_inv (log ++ [e]) s.
Proof.
  intros Hn [_ Hc (bundles & Hb & Ha)]. split; [done| |].
  - destruct Hc as [Hc|(x & Hx & Hc)]; [by left|right]. exists x. split; [set_solver|done].
  - exists bundles. split; [|done]. rewrite filter_app, Hb, (filter_keeps_none _ [e]), app_nil_r; [done|].
    intros x ->%list_elem_of_singleton. destruct Hn as [Hs Hp]. destruct Hc as [Hc|(x & Hx & Hc)].
    + rewrite Hc. apply Forall_app in Hp as [_ Hp]. apply Forall_inv in Hp. simpl in Hp. lia.
    + apply StronglySorted_app in Hs as (Hs & _). specialize (Hs x e Hx). unfold id_lt in Hs. specialize (Hs ltac:(set_solver)). simpl. lia.
Qed.

Lemma pass_inv faults now log s r s' :
  run_one_export_pass lib hashes app bl config faults now log s = Some (r, s') → archive_inv log s → archive_inv log s'.
Proof.
  intros [Ho Hcur]%pass_outcome [Hn Hc (bundles & Hb & Ha)]. destruct Hcur as [Heq|(e & Hl & Heq & Harch)].
  - split; [done|by rewrite Heq|]. exists bundles. rewrite Heq. split; [done|].
    eapply Forall_impl; [exact Ha|]. intros B. by apply archived_more.
  - split; [done| |].
    + right. exists e. split; [|done]. apply last_Some_elem_of in Hl. unfold batch in Hl. apply elem_of_take in Hl as (i & Hi & _).
      apply list_elem_of_lookup_2 in Hi. by apply list_elem_of_filter in Hi as [_ ?].
    + exists (bundles ++ [batch config log (sk_last_id s)]). rewrite Heq, (upto_batch config log (sk_last_id s)) by (done || apply Hn).
      rewrite concat_app, Hb. cbn. rewrite app_nil_r. split; [done|]. apply Forall_app. split; [|by constructor].
      eapply Forall_impl; [exact Ha|]. intros B. by apply archived_more.
Qed.

Lemma steps_inv log s log' s' : rtc sink_step (log, s) (log', s') → archive_inv log s → archive_inv log' s'.
Proof.
  intros Hr. remember (log, s) as x eqn:Hx. remember (log', s') as y eqn:Hy. revert log s log' s' Hx Hy.
  induction Hr as [x|x z y Hstep _ IH]; intros log s log' s' -> Hy; [by simplify_eq|].
  intros Hinv. destruct z as [logz sz]. apply (IH logz sz log' s' eq_refl Hy). inversion Hstep; subst.
  - by apply append_inv.
  - by eapply pass_inv.
  - apply restart_inv, Hinv.
Qed.

(** C35: However the log grows, whatever reads and uploads fail and however often the worker
    is restarted, the entries up to its cursor are the concatenation of non-empty bundles,
    nothing skipped, repeated or reordered, and for each bundle the bucket holds, under the
    key of its first and last id, the text of exactly its entries and a manifest with their
    number, their first and last content hash, the Merkle root of their hashes and the hash
    before them. If the texts of its entries are lines that parse back, the body parses to
    those entries; if also the chain of the log verifies and the manifest parses back, the
    bundle verifies by itself. *)
Theorem worm_archive_complete log0 log s :
  numbered log0 → rtc sink_step (log0, fresh_sink) (log, s) →
  ∃ bundles, concat bundles = filter (λ e, al_id e ≤ sk_last_id s)%Z log ∧
    ∀ entries, entries ∈ bundles → entries ≠ [] ∧ ∃ key m, bundle_objects (sk_objects s) entries key m ∧
      (Forall (printable_entry lib app bl) entries → ∀ path,
       let dir := mkBundleDir path (Some (Ok (join_lines (entry_text lib app <$> entries)))) (Some (Ok (bl_manifest_text bl m))) in
       holds_entries bl dir entries ∧
       (audit_verify_chain (app_ext app) log = Ok tt → bl_parse_manifest bl (bl_manifest_text bl m) = Ok m →
        verify_bundle hashes app bl dir = Some (Ok m))).
Proof.
  intros Hn Hr. destruct (steps_inv _ _ _ _ Hr (restart_inv _ _ Hn)) as [[Hs _] _ (bundles & Hb & Ha)].
  exists bundles. split; [done|]. intros B HB. rewrite Forall_forall in Ha. destruct (Ha B HB) as (key & m & Hm).
  split; [by destruct (bo_key _ _ _ _ Hm) as (first & final & Hf & _); destruct B|]. exists key, m. split; [done|].
  destruct (bundle_objects_built _ _ _ _ Hm) as [now Hbuild]. intros HpB path. set (body := join_lines _) in *.
  apply list_elem_of_split in HB as (bs1 & bs2 & ->). rewrite concat_app in Hb. cbn in Hb.
  pose proof (numbered_split log (sk_last_id s) Hs) as Hlog. rewrite <- Hb, <- !app_assoc in Hlog.
  assert (body_lines := lines_joined lib app bl B HpB).
  assert (NoDup (al_id <$> B)) as Hnd.
  { apply numbered_nodup. rewrite Hlog in Hs. by apply StronglySorted_app in Hs as (_ & _ & (_ & Hs & _)%StronglySorted_app). }
  assert (parse_distinct bl [] (trimmed_lines body) = Ok B) as Hparse.
  { subst body. rewrite body_lines. apply parse_distinct_texts; [done..|set_solver]. }
  split; [by exists body|]. intros Hv Hmp. apply audit_verify_chain_iff in Hv. rewrite Hlog in Hv.
  destruct (bundle_roundtrip lib hashes app bl now B body (sink_boundary B) (mkBundle body m) (mkExportFaults None None None)
              (mkBundleDir path None None) m
              (mkBundleDir path (Some (Ok body)) (Some (Ok (bl_manifest_text bl m))))) as [_ Hok]; try done.
  by eapply piece_linked.
Qed.
End archive.

(** ** Progress *)

Section progress.
Context (lib : CryptoLib) (hashes : HashLib) (app : App) (bl : BundleLib) (config : WormSinkConfig).

Definition no_pass_faults : PassFaults := mkPassFaults None None None.

(** Passes without faults at the given times, on a log that does not change. *)
Fixpoint calm_passes (nows : list Timestamp) (log : list AuditLogEntry) (s : Sink) : option Sink :=
  match nows with
  | [] => Some s
  | now :: nows =>
      '(_, s') ← run_one_export_pass lib hashes app bl config no_pass_faults now log s; calm_passes nows log s'
  end.

(** The hashes of the log are hexadecimal. *)
Definition hex_hashes (log : list AuditLogEntry) : Prop := ∀ h, h ∈ content_hashes log → is_Some (hl_hex_decode hashes h).

Lemma batch_hashes log c h : h ∈ content_hashes (batch config log c) → h ∈ content_hashes log.
Proof.
  unfold content_hashes. rewrite !list_elem_of_omap. intros (e & He & Hh). exists e. split; [|done].
  apply elem_of_take in He as (i & Hi & _). apply list_elem_of_lookup_2 in Hi. by apply list_elem_of_filter in Hi as [_ ?].
Qed.

(** A pass without faults archives the batch. *)
Lemma calm_pass now log s : hex_hashes log →
  ∃ s', run_one_export_pass lib hashes app bl config no_pass_faults now log s = Some (Ok tt, s') ∧ sk_failures s' = sk_failures s ∧
    sk_last_id s' = match last (batch config log (sk_last_id s)) with Some e => al_id e | None => sk_last_id s end.
Proof.
  intros Hh. unfold run_one_export_pass, run_one_export_pass_inner. cbn [pf_store no_pass_faults].
  rewrite audit_list_since_batch. destruct (batch config log (sk_last_id s)) as [|e B] eqn:HB; [by exists s|].
  destruct (last (e :: B)) as [final|] eqn:Hl; [|by apply last_None in Hl]. cbn [head].
  unfold build_bundle_with_boundary. destruct (proj1 (compute_merkle_root_total hashes (content_hashes (e :: B)))) as [root ->].
  { intros h Hin. apply Hh. rewrite <- HB in Hin. by eapply batch_hashes. }
  cbn. eexists. split_and!; [done..|]. done.
Qed.

Lemma beyond_batch log c e : StronglySorted id_lt log → last (batch config log c) = Some e →
  length (filter (λ x, al_id e < al_id x)%Z log) = length (filter (λ x, c < al_id x)%Z log) - ws_batch_limit config.
Proof.
  intros Hs Hl. pose proof (upto_batch config log c e Hs Hl) as Hu.
  pose proof (f_equal length (numbered_split log c Hs)) as H1. pose proof (f_equal length (numbered_split log (al_id e) Hs)) as H2.
  rewrite Hu in H2. rewrite !length_app in *. unfold batch in H2. rewrite length_take in H2. lia.
Qed.

(** C36: With a valid configuration, as many passes without faults as there are batches in
    the log move the cursor to its end, wherever it was before, and count no failure: with
    [worm_archive_complete], the whole log is in the bucket. *)
Theorem worm_sink_catches_up nows log s :
  sink_config_validate config = Ok tt → numbered log → hex_hashes log →
  length log ≤ length nows * ws_batch_limit config →
  ∃ s', calm_passes nows log s = Some s' ∧ sk_failures s' = sk_failures s ∧
    filter (λ e, al_id e ≤ sk_last_id s')%Z log = log.
Proof.
  intros Hv [Hs Hp] Hh Hlen. assert (0 < ws_batch_limit config) as Hb.
  { unfold sink_config_validate in Hv. repeat case_match; try done; destruct (Z.leb_spec 1 (Z.of_nat (ws_batch_limit config))); (lia || done). }
  assert (length (filter (λ x, sk_last_id s < al_id x)%Z log) ≤ length nows * ws_batch_limit config) as Hl
    by (pose proof (length_filter (λ x, sk_last_id s < al_id x)%Z log); lia).
  clear Hlen. revert s Hl. induction nows as [|now nows IH]; intros s Hl.
  - exists s. split_and!; [done..|]. pose proof (numbered_split log (sk_last_id s) Hs) as Hsplit. cbn in Hl.
    destruct (filter (λ x, sk_last_id s < al_id x)%Z log); [by rewrite app_nil_r in Hsplit|cbn in Hl; lia].
  - destruct (calm_pass now log s Hh) as (s1 & Hrun & Hf & Hc). destruct (IH s1) as (s' & Hpass & Hf' & Hall).
    + rewrite Hc. destruct (last (batch config log (sk_last_id s))) as [e|] eqn:He.
      * rewrite (beyond_batch log (sk_last_id s) e Hs He). cbn in Hl. lia.
      * apply last_None in He. unfold batch in He. apply (f_equal length) in He. rewrite length_take in He. cbn in He. lia.
    + exists s'. cbn [calm_passes]. rewrite Hrun. cbn [mbind option_bind]. rewrite Hpass. split_and!; [done|congruence|done].
Qed.
End progress.

(** ** Bundles of an export *)

Section exported.
Context (lib : CryptoLib) (hashes : HashLib) (app : App) (bl : BundleLib).

Definition no_filter : AuditFilter :=
  {| af_action := None; af_resource_type := None; af_resource_id := None; af_since := None; af_until := None |}.

Lemma newest_first_all log : newest_first no_filter log = reverse log.
Proof. unfold newest_first. rewrite filter_keeps_all; [done|]. by intros e _. Qed.

Lemma parse_distinct_same seen es es' :
  Forall (printable_entry lib app bl) es → parse_distinct bl seen (entry_text lib app <$> es) = Ok es' → es' = es.
Proof.
  intros Hes. revert seen es'. induction Hes as [|e es He _ IH]; intros seen es'; cbn; [by intros [=]|].
  rewrite (pe_parse _ _ _ _ He). case_bool_decide; [done|]. destruct (parse_distinct bl _ _) as [rest|] eqn:Hr; [|done].
  intros [= <-]. f_equal. by eapply IH.
Qed.

(** The entries of an export come newest first, and a bundle is checked oldest first: when
    at least two entries are hashed, the bundle of a complete export never verifies. *)
Theorem exported_bundle_refused now log body bundle faults dir m dir' :
  Forall (printable_entry lib app bl) log → audit_verify_chain (app_ext app) log = Ok tt → 2 ≤ length (hashed log) →
  export_body lib app "ndjson" (newest_first no_filter log) = Some body →
  build_bundle_from_ndjson hashes bl now body = Some (Ok bundle) →
  export_bundle bl faults bundle dir = (Ok m, dir') → bl_parse_manifest bl (bl_manifest_text bl m) = Ok m →
  ∀ m', verify_bundle hashes app bl dir' ≠ Some (Ok m').
Proof.
  rewrite newest_first_all. intros Hp Hv H2 Hbody Hbuild Hexp Hm m' Hok. injection Hbody as <-.
  assert (Forall (printable_entry lib app bl) (reverse log)) as Hpr by by rewrite reverse_Permutation.
  unfold build_bundle_from_ndjson in Hbuild. rewrite (lines_exported lib app bl) in Hbuild by done.
  rewrite parse_entries_texts in Hbuild by done. unfold build_bundle, build_bundle_with_boundary in Hbuild.
  destruct (compute_merkle_root _ _) as [root|]; [|done]. injection Hbuild as <-.
  unfold export_bundle in Hexp. destruct faults as [[?|] [[? ?]|] [[? ?]|]]; simplify_eq/=.
  apply verify_bundle_iff in Hok as (mt & body & es & [= <-] & Hm' & [= <-] & Hparse & Hvalid). rewrite Hm in Hm'. injection Hm' as <-.
  rewrite (lines_exported lib app bl) in Hparse by done. apply parse_distinct_same in Hparse as ->; [|done].
  pose proof (bv_linked _ _ _ _ Hvalid) as Hl. cbn in Hl. unfold hashed in Hl. rewrite filter_reverse in Hl. fold (hashed log) in Hl.
  apply audit_verify_chain_iff in Hv. destruct (hashed log) as [|e l _] eqn:Hlog using rev_ind; [cbn in H2; lia|].
  rewrite reverse_snoc, linked_cons in Hl. destruct Hl as (_ & Hl & _).
  apply linked_app in Hv as [_ (_ & Hprev & _)%linked_cons]. rewrite length_app in H2. cbn in H2.
  destruct (last l) as [x|] eqn:Hx; [|apply last_None in Hx as ->; cbn in H2; lia].
  assert (x ∈ hashed log) as Hin by (rewrite Hlog; apply elem_of_app; left; by apply last_Some_elem_of).
  apply list_elem_of_filter in Hin as [[h Hh] _]. congruence.
Qed.
End exported.
