(* ===== verification/TraversalSpec.v ===== *)
(** * What a lineage query finds

    [query_lineage_exact]: the answer holds exactly the stored events within the number
    of hops, each once, and the edges of all events that were expanded. *)

From S2P Require Import Prelude Json Proto Admin Graph Store Adapter Effects Firewall Validation Lifecycle.
From S2P Require Import LineageApi AuthorizeSpec.

(** ** Programs that only read *)

(** No statement fails from now on. *)
Definition calm (env : Env) (w : World) : Prop := ∀ t, w_tick w ≤ t → env_fault env t = None.

(** Run on database [d], the program answers [v] and leaves the database alone. *)
Definition answers {R} (env : Env) (d : Db) (p : prog R) (v : R) : Prop :=
  ∀ w, w_db w = d → calm env w → ∃ w', run env p w = (v, w') ∧ w_db w' = d ∧ calm env w'.

Lemma answers_ret {R} env d (v : R) : answers env d (Ret v) v.
Proof. intros w Hd Hc. by exists w. Qed.
Lemma answers_bind {R S} env d (p : prog R) (f : R → prog S) v u :
  answers env d p v → answers env d (f v) u → answers env d (bind p f) u.
Proof.
  intros Hp Hf w Hd Hc. rewrite run_bind. destruct (Hp w Hd Hc) as (w1 & -> & Hd1 & Hc1). by apply Hf.
Qed.
Lemma answers_metric env d m : answers env d (call (op_metric m)) tt.
Proof.
  intros [d' mem ms l t] Hd Hc. eexists. split; [done|]. split; [done|]. intros t' Ht. apply Hc. simpl in *. lia.
Qed.
(** A statement that reads. *)
Lemma answers_db {A} env d (o : op (result A StoreError)) (a : A) :
  (∀ w, w_db w = d → exec_op env o w = exec_db env (λ d, (Ok a, d)) w) → answers env d (call o) (Ok a).
Proof.
  intros Ho w Hd Hc. unfold call. cbn [run]. rewrite (Ho w Hd). destruct w as [d' mem ms l t].
  cbn. rewrite (Hc t) by done. eexists. split; [done|]. split; [done|]. intros t' Ht. apply Hc. simpl in *. lia.
Qed.

Lemma exec_db_same {A} env (s s' : stmt A) w : s (w_db w) = s' (w_db w) → exec_db env s w = exec_db env s' w.
Proof. destruct w as [d mem ms l t]. cbn. by intros ->. Qed.

Definition stored_event (d : Db) (id : EventId) : option ProvenanceEvent :=
  List.find (λ e, String.eqb (ev_event_id e) id) (db_events d).

Lemma answers_get_event env d id : answers env d (call (op_get_event id)) (Ok (stored_event d id)).
Proof. apply answers_db. intros w Hd. apply exec_db_same. unfold get_event. by rewrite Hd. Qed.
Lemma answers_edges_to env d id : answers env d (call (op_edges_to id)) (Ok (edges_to d id)).
Proof. apply answers_db. intros w Hd. apply exec_db_same. unfold get_edges_to. by rewrite Hd. Qed.
Lemma answers_edges_from env d id : answers env d (call (op_read (RO_edges_from id))) (Ok (edges_from d id)).
Proof. apply answers_db. intros w Hd. apply exec_db_same. unfold sql_read. by rewrite Hd. Qed.

Lemma answers_checked {T} env d route (p : prog (result T StoreError)) v :
  answers env d p (Ok v) → answers env d (checked route p) (Ok v).
Proof. intros Hp. eapply answers_bind; [exact Hp|]. apply answers_ret. Qed.
Lemma answers_try {T S} env d (p : prog (result T ApiProblem)) (f : T → prog (result S ApiProblem)) v u :
  answers env d p (Ok v) → answers env d (f v) u → answers env d (r <-? p ;; f r) u.
Proof. intros Hp Hf. by eapply answers_bind. Qed.

(** ** The traversal as a function of the database *)

Section traversal.
Context (d : Db) (direction : LineageDirection).

Definition see_edge (target : ProvenanceEdge → option EventId) (s : Traversal) (edge : ProvenanceEdge) : Traversal :=
  match target edge with
  | Some id =>
      if decide (id ∈ tv_visited s)
      then mkTraversal (tv_visited s) (tv_events s) (tv_edges s ++ [edge]) (tv_next s)
      else match stored_event d id with
           | Some event => mkTraversal ({[id]} ∪ tv_visited s) (tv_events s ++ [event]) (tv_edges s ++ [edge]) (tv_next s ++ [id])
           | None => mkTraversal ({[id]} ∪ tv_visited s) (tv_events s) (tv_edges s ++ [edge]) (tv_next s)
           end
  | None => mkTraversal (tv_visited s) (tv_events s) (tv_edges s ++ [edge]) (tv_next s)
  end.

(** The edges of an event with the ends they lead to, as the direction asks. *)
Definition up_edges (id : EventId) : list ProvenanceEdge := if goes_up direction then edges_to d id else [].
Definition down_edges (id : EventId) : list ProvenanceEdge := if goes_down direction then edges_from d id else [].
Definition see_event (s : Traversal) (id : EventId) : Traversal :=
  foldl (see_edge ed_to_event_id) (foldl (see_edge (λ e, Some (ed_from_event_id e))) s (up_edges id)) (down_edges id).

Fixpoint see_hops (hops : nat) (frontier : list EventId) (s : Traversal) : Traversal :=
  match hops, frontier with
  | O, _ | _, [] => s
  | S hops, _ =>
      let s := foldl see_event s frontier in
      see_hops hops (tv_next s) (mkTraversal (tv_visited s) (tv_events s) (tv_edges s) [])
  end.

Lemma visit_edge_answers env target edge s : answers env d (visit_edge target edge s) (Ok (see_edge target s edge)).
Proof.
  unfold visit_edge, see_edge. destruct (target edge) as [id|]; [|apply answers_ret].
  case_decide; [apply answers_ret|].
  eapply answers_try; [apply answers_checked, answers_get_event|]. destruct (stored_event d id); apply answers_ret.
Qed.
Lemma visit_edges_answers env target edges s : answers env d (visit_edges target edges s) (Ok (foldl (see_edge target) s edges)).
Proof.
  revert s; induction edges as [|e edges IH]; intros s; simpl; [apply answers_ret|].
  eapply answers_try; [apply visit_edge_answers|apply IH].
Qed.
Lemma expand_answers env id s : answers env d (expand direction id s) (Ok (see_event s id)).
Proof.
  unfold expand, see_event, up_edges, down_edges.
  eapply answers_try with (foldl (see_edge (λ e, Some (ed_from_event_id e))) s (if goes_up direction then edges_to d id else [])).
  - destruct (goes_up direction); [|apply answers_ret].
    eapply answers_try; [apply answers_checked, answers_edges_to|apply visit_edges_answers].
  - destruct (goes_down direction); [|apply answers_ret].
    eapply answers_try; [apply answers_checked, answers_edges_from|apply visit_edges_answers].
Qed.
Lemma expand_all_answers env frontier s : answers env d (expand_all direction frontier s) (Ok (foldl see_event s frontier)).
Proof.
  revert s; induction frontier as [|id frontier IH]; intros s; simpl; [apply answers_ret|].
  eapply answers_try; [apply expand_answers|apply IH].
Qed.
Lemma traverse_answers env hops frontier s : answers env d (traverse direction hops frontier s) (Ok (see_hops hops frontier s)).
Proof.
  revert frontier s; induction hops as [|hops IH]; intros [|id frontier] s; try apply answers_ret.
  eapply answers_try; [apply (expand_all_answers env (id :: frontier))|apply IH].
Qed.

(** ** What is seen *)

(** The other ends of the edges of an event, and its edges. *)
Definition targets (id : EventId) : list EventId := (ed_from_event_id <$> up_edges id) ++ omap ed_to_event_id (down_edges id).
Definition edges_at (id : EventId) : list ProvenanceEdge := up_edges id ++ down_edges id.

(** From [s] to [s'] the ends [ids] of the edges [edges] were looked at: those that were
    not visited before and are stored are new. *)
Record sees (ids : list EventId) (edges : list ProvenanceEdge) (s s' : Traversal) : Prop := {
  se_edges : tv_edges s' = tv_edges s ++ edges;
  se_visited : ∀ y, y ∈ tv_visited s' ↔ y ∈ tv_visited s ∨ y ∈ ids;
  se_new : ∃ new, tv_next s' = tv_next s ++ new ∧ tv_events s' = tv_events s ++ omap (stored_event d) new ∧ NoDup new ∧
    (∀ y, y ∈ new ↔ (y ∉ tv_visited s) ∧ y ∈ ids ∧ is_Some (stored_event d y));
}.

Lemma sees_nothing s : sees [] [] s s.
Proof.
  split; [by rewrite app_nil_r|set_solver|]. exists []. rewrite !app_nil_r. split_and!; [done|done|constructor|set_solver].
Qed.
Lemma sees_trans ids1 ids2 es1 es2 s s1 s2 :
  sees ids1 es1 s s1 → sees ids2 es2 s1 s2 → sees (ids1 ++ ids2) (es1 ++ es2) s s2.
Proof.
  intros [He1 Hv1 (n1 & Hx1 & Hev1 & Hd1 & Hn1)] [He2 Hv2 (n2 & Hx2 & Hev2 & Hd2 & Hn2)]. split.
  - by rewrite He2, He1, app_assoc.
  - intros y. rewrite Hv2, Hv1, elem_of_app. tauto.
  - exists (n1 ++ n2). rewrite Hx2, Hx1, Hev2, Hev1, omap_app, !app_assoc. split_and!; [done|done| |].
    + apply NoDup_app. split_and!; [done| |done]. intros y Hy1 Hy2. apply Hn1 in Hy1. apply Hn2 in Hy2.
      rewrite Hv1 in Hy2. tauto.
    + intros y. rewrite !elem_of_app, Hn1, Hn2, Hv1. destruct (decide (y ∈ ids1)), (decide (y ∈ tv_visited s)); tauto.
Qed.

Lemma sees_edge target s edge : sees (option_list (target edge)) [edge] s (see_edge target s edge).
Proof.
  unfold see_edge. destruct (target edge) as [id|]; simpl.
  2: { split; simpl; [done|set_solver|]. exists []. rewrite !app_nil_r. split_and!; [done|done|constructor|set_solver]. }
  case_decide as Hin; [|destruct (stored_event d id) as [ev|] eqn:Hs]; split; simpl; try done; try set_solver.
  - exists []. rewrite !app_nil_r. split_and!; [done|done|constructor|]. intros y. set_solver.
  - exists [id]. simpl. rewrite Hs. split_and!; [done|done|apply NoDup_singleton|]. intros y.
    rewrite !list_elem_of_singleton. split; [intros ->; eauto|tauto].
  - exists []. rewrite !app_nil_r. split_and!; [done|done|constructor|]. intros y. rewrite list_elem_of_singleton.
    split; [set_solver|]. intros (_ & -> & [ev Hev]). congruence.
Qed.
Lemma sees_edges target edges s : sees (omap target edges) edges s (foldl (see_edge target) s edges).
Proof.
  revert s; induction edges as [|e edges IH]; intros s; simpl; [apply sees_nothing|].
  pose proof (sees_trans _ _ _ _ _ _ _ (sees_edge target s e) (IH (see_edge target s e))) as H.
  by destruct (target e).
Qed.
Lemma sees_event s id : sees (targets id) (edges_at id) s (see_event s id).
Proof.
  unfold see_event, targets, edges_at. eapply sees_trans; [|apply sees_edges].
  pose proof (sees_edges (λ e, Some (ed_from_event_id e)) (up_edges id) s) as H.
  assert (omap (λ e, Some (ed_from_event_id e)) (up_edges id) = ed_from_event_id <$> up_edges id) as <-; [|done].
  generalize (up_edges id). intros l. induction l as [|e l IH]; [done|]. by apply (f_equal (cons (ed_from_event_id e))).
Qed.
Lemma sees_frontier frontier s :
  sees (frontier ≫= targets) (frontier ≫= edges_at) s (foldl see_event s frontier).
Proof.
  revert s; induction frontier as [|id frontier IH]; intros s; simpl; [apply sees_nothing|].
  eapply sees_trans; [apply sees_event|apply IH].
Qed.

(** ** Hops *)

Context (seed : EventId).

(** A hop leads to a stored event at the other end of an edge. *)
Definition follows (x y : EventId) : Prop := y ∈ targets x ∧ is_Some (stored_event d y).
Definition within (n : nat) (y : EventId) : Prop := ∃ m, m ≤ n ∧ nsteps follows m seed y.
Definition expanded (n : nat) (y : EventId) : Prop := ∃ m, m < n ∧ nsteps follows m seed y.

Lemma expanded_S n y : expanded (S n) y ↔ within n y.
Proof. split; intros (m & ? & ?); exists m; split; try done; lia. Qed.
Lemma within_S n x y : within n x → follows x y → within (S n) y.
Proof. intros (m & ? & ?) ?. exists (S m). split; [lia|]. by eapply nsteps_r. Qed.

(** After [n] hops: [done] was expanded, [frontier] is next. *)
Record hopped (n : nat) (done frontier : list EventId) (s : Traversal) : Prop := {
  hp_done : ∀ x, x ∈ done ↔ expanded n x;
  hp_found : ∀ y, y ∈ done ++ frontier ↔ within n y;
  hp_nodup : NoDup (done ++ frontier);
  hp_events : tv_events s = omap (stored_event d) (done ++ frontier);
  hp_visited : ∀ y, y ∈ tv_visited s ↔ y = seed ∨ ∃ x, x ∈ done ∧ y ∈ targets x;
  hp_edges : tv_edges s = done ≫= edges_at;
  hp_next : tv_next s = [];
}.

(** A stored event that was visited was found. *)
Lemma hopped_visited n done frontier s y :
  hopped n done frontier s → y ∈ tv_visited s → is_Some (stored_event d y) → within n y.
Proof.
  intros H Hy Hs. apply (hp_visited _ _ _ _ H) in Hy as [->|(x & Hx & Hy)].
  - exists 0. split; [lia|constructor].
  - apply (hp_done _ _ _ _ H) in Hx as (m & Hm & Hp). exists (S m). split; [lia|]. by eapply nsteps_r.
Qed.
(** An event that was found was visited. *)
Lemma hopped_within n done frontier s y : hopped n done frontier s → within n y → y ∈ tv_visited s.
Proof.
  intros H (m & Hm & Hp). apply (hp_visited _ _ _ _ H). destruct m as [|m]; [left; by inversion Hp|right].
  apply nsteps_inv_r in Hp as (x & Hx & Hf). exists x. split; [|apply Hf].
  apply (hp_done _ _ _ _ H). exists m. split; [lia|done].
Qed.

Lemma hopped_step n done frontier s :
  hopped n done frontier s →
  let s1 := foldl see_event s frontier in
  hopped (S n) (done ++ frontier) (tv_next s1) (mkTraversal (tv_visited s1) (tv_events s1) (tv_edges s1) []).
Proof.
  intros H s1. destruct (sees_frontier frontier s) as [He Hv (new & Hx & Hev & Hnd & Hnew)].
  fold s1 in He, Hv, Hx, Hev. rewrite (hp_next _ _ _ _ H) in Hx. simpl in Hx. rewrite Hx. split; simpl.
  - intros x. by rewrite (hp_found _ _ _ _ H), expanded_S.
  - intros y. rewrite elem_of_app, (hp_found _ _ _ _ H), Hnew. split.
    + intros [(m & ? & ?)|(_ & Hy & Hs)]; [exists m; split; [lia|done]|].
      apply list_elem_of_bind in Hy as (x & Hy & Hxf). apply within_S with x; [|done].
      apply (hp_found _ _ _ _ H), elem_of_app. by right.
    + intros (m & Hm & Hp). destruct m as [|m].
      { left. exists 0. inversion Hp; subst. split; [lia|constructor]. }
      apply nsteps_inv_r in Hp as (x & Hpx & Hy & Hs).
      destruct (decide (y ∈ tv_visited s)) as [Hvis|Hvis]; [left; by eapply hopped_visited|right].
      split_and!; [done| |done]. apply list_elem_of_bind. exists x. split; [done|].
      assert (x ∈ done ++ frontier) as [Hd|Hf]%elem_of_app; [|exfalso|done].
      { apply (hp_found _ _ _ _ H). exists m. split; [lia|done]. }
      apply Hvis, (hp_visited _ _ _ _ H). right. by exists x.
  - apply NoDup_app. split_and!; [apply H| |done]. intros y Hy Hy'. apply Hnew in Hy' as [Hvis _].
    apply Hvis. eapply hopped_within; [exact H|]. by apply (hp_found _ _ _ _ H).
  - by rewrite Hev, (hp_events _ _ _ _ H), <- omap_app.
  - intros y. rewrite Hv, (hp_visited _ _ _ _ H), list_elem_of_bind. split.
    + intros [[->|(x & ? & ?)]|(x & ? & ?)]; [by left|right; exists x; set_solver..].
    + intros [->|(x & Hx' & Hy)]; [by left; left|]. apply elem_of_app in Hx' as [?|?]; [left; right|right]; eauto.
  - rewrite He, (hp_edges _ _ _ _ H). by rewrite bind_app.
  - done.
Qed.

(** Nothing more is found from an empty frontier. *)
Lemma hopped_stuck n done s : hopped n done [] s → hopped (S n) done [] s.
Proof.
  intros H. pose proof (hopped_step n done [] s H) as H'. simpl in H'. rewrite app_nil_r in H'.
  rewrite (hp_next _ _ _ _ H) in H'. destruct H' as [H1 H2 H3 H4 H5 H6 _]. split; try done. apply H.
Qed.

Lemma see_hops_spec k n done frontier s :
  hopped n done frontier s → ∃ done' frontier', hopped (n + k) done' frontier' (see_hops k frontier s).
Proof.
  revert n done frontier s; induction k as [|k IH]; intros n done frontier s H.
  - rewrite Nat.add_0_r. destruct frontier; by eauto.
  - destruct frontier as [|id frontier].
    + destruct (IH (S n) done [] s (hopped_stuck _ _ _ H)) as (done' & frontier' & H').
      exists done', frontier'. rewrite <- Nat.add_succ_comm. by destruct k.
    + destruct (IH (S n) _ _ _ (hopped_step _ _ _ _ H)) as (done' & frontier' & H').
      exists done', frontier'. by rewrite <- Nat.add_succ_comm.
Qed.
End traversal.

Lemma hopped_init d direction seed event :
  stored_event d seed = Some event →
  hopped d direction seed 0 [] [seed] (mkTraversal {[seed]} [event] [] []).
Proof.
  intros Hs. split; simpl; try done.
  - intros x. split; [set_solver|]. intros (m & Hm & _). lia.
  - intros y. rewrite list_elem_of_singleton. split.
    + intros ->. exists 0. split; [lia|constructor].
    + intros (m & Hm & Hp). assert (m = 0) as -> by lia. by inversion Hp.
  - apply NoDup_singleton.
  - by rewrite Hs.
  - intros y. set_solver.
Qed.

(** C38: When no read fails, a lineage query always answers and changes nothing.  If the
    seed event is stored the answer is rendered from exactly the stored events that at
    most the clamped number of hops lead to, each once, and from the edges, in the
    direction asked for, of exactly the events that fewer hops lead to; otherwise it is
    refused with status 404. *)
Theorem query_lineage_exact lib env request w :
  let d := w_db w in
  let seed := lq_event_id request in
  let direction := lq_direction request in
  let max_hops := clamp_hops (lq_max_hops request) in
  calm env w →
  ∃ r w', run env (query_lineage lib request) w = (r, w') ∧ w_db w' = d ∧
    (stored_event d seed = None → ∃ p, r = Err p ∧ prob_status p = NOT_FOUND) ∧
    (is_Some (stored_event d seed) →
     ∃ ids expanded_ids, NoDup ids ∧ NoDup expanded_ids ∧
       (∀ y, y ∈ ids ↔ within d direction seed max_hops y) ∧
       (∀ x, x ∈ expanded_ids ↔ expanded d direction seed max_hops x) ∧
       r = match ll_lineage lib (omap (stored_event d) ids, expanded_ids ≫= edges_at d direction) with
           | Ok v => Ok v
           | Err e => Err (internal_text e)
           end).
Proof.
  intros d seed direction max_hops Hc. destruct (stored_event d seed) as [event|] eqn:Hs.
  - destruct (see_hops_spec d direction seed max_hops 0 _ _ _ (hopped_init d direction seed event Hs)) as (done' & frontier' & H).
    set (s := see_hops d direction max_hops [seed] (mkTraversal {[seed]} [event] [] [])) in *.
    assert (answers env d (query_lineage lib request)
              match ll_lineage lib (tv_events s, tv_edges s) with Ok v => Ok v | Err e => Err (internal_text e) end) as Ha.
    { unfold query_lineage. eapply answers_try with event.
      { unfold fetch. eapply answers_bind; [apply answers_get_event|]. fold seed. rewrite Hs. apply answers_ret. }
      eapply answers_try; [apply traverse_answers|]. fold direction max_hops seed s. unfold sanitized_ok.
      destruct (ll_lineage lib _); (eapply answers_bind; [apply answers_metric|apply answers_ret]). }
    destruct (Ha w eq_refl Hc) as (w' & Hrun & Hd & _). eexists _, w'. split_and!; [exact Hrun|done|done|]. intros _.
    exists (done' ++ frontier'), done'. destruct H as [H1 H2 H3 H4 H5 H6 _]. rewrite H4, H6.
    split_and!; [done|by destruct (proj1 (NoDup_app _ _) H3)|done|done|done].
  - assert (answers env d (query_lineage lib request) (Err (Problem NOT_FOUND EC_NotFound "seed event not found"))) as Ha.
    { unfold query_lineage. eapply answers_bind with (Err (Problem NOT_FOUND EC_NotFound "seed event not found")); [|apply answers_ret].
      unfold fetch.
      eapply answers_bind; [apply answers_get_event|]. fold seed. rewrite Hs.
      eapply answers_bind; [apply answers_metric|apply answers_ret]. }
    destruct (Ha w eq_refl Hc) as (w' & Hrun & Hd & _). eexists _, w'. split_and!; [exact Hrun|done|eauto|by intros [? ?]].
Qed.
