(* ===== verification/BridgeSpec.v ===== *)
(** * External runtimes cannot forge governance

    The calls an external runtime can make, in any interleaving: they add events of two
    kinds, attributed to a registered bridge and linked to nothing, and leave every
    governed chain as it was.  Events submitted to a bridge are delivered once, in order. *)

From S2P Require Import Prelude Json Proto Admin Behavioral Transitions Store Adapter Effects Firewall Validation.
From S2P Require Import Provenance Lifecycle Policies LineageApi Evolution Discipline Logic HandlerSafety AuthorizeSpec TraversalSpec.

Section external.
Context (app : App) {B : Type} `{!RuntimeBridge B} (bridges : list B).

(** An event of a registered runtime, outside the governed lifecycle. *)
Record foreign (e : ProvenanceEvent) : Prop := {
  fo_kind : is_externally_ingestible_kind (ev_kind e) = true;
  fo_source : ∃ b, b ∈ bridges ∧ ev_source_runtime_id e = Some (runtime_id b);
  fo_proposal : ev_proposal_id e = None;
  fo_capability : ev_capability_id e = None;
  fo_contract : ev_rollback_contract_id e = None;
}.

(** ** What the calls may do *)

Definition external_op {X} (o : op X) : Prop :=
  match o with
  | op_now | op_uuid | op_metric _ | op_query _ | op_edges_to _ | op_get_event _ | op_get_execution _
  | op_get_contract _ | op_read _ => True
  | op_append_event e edges => edges = [] ∧ foreign e
  | _ => False
  end.

(** The world after: some foreign events more, and counters and time. *)
Definition ingests (w w' : World) : Prop :=
  ∃ new, Forall foreign new ∧ w_db w' = set_events (db_events (w_db w) ++ new) (w_db w) ∧
    w_adapter_log w' = w_adapter_log w.

#[export] Instance ingests_preorder : PreOrder ingests.
Proof.
  split.
  - intros w. exists []. rewrite app_nil_r. split_and!; [constructor| |done]. by destruct (w_db w).
  - intros w1 w2 w3 (n1 & Hn1 & H1 & Hl1) (n2 & Hn2 & H2 & Hl2). exists (n1 ++ n2).
    split_and!; [by apply Forall_app| |congruence]. rewrite H2, H1. destruct (w_db w1). cbn. by rewrite (assoc_L (++)).
Qed.

Lemma ingests_same w w' : w_db w' = w_db w → w_adapter_log w' = w_adapter_log w → ingests w w'.
Proof. intros Hd Hl. exists []. rewrite Hd, app_nil_r. split_and!; [constructor| |done]. by destruct (w_db w). Qed.

Lemma append_foreign e d :
  foreign e → ∃ new, Forall foreign new ∧ (append_event_with_edges e [] d).2 = set_events (db_events d ++ new) d.
Proof.
  intros He. unfold append_event_with_edges, transaction, sql_insert_event, then_, return_. cbn.
  destruct (has_event (ev_event_id e) d); cbn.
  - exists []. rewrite app_nil_r. split; [constructor|]. by destruct d.
  - exists [e]. split; [by apply Forall_singleton|done].
Qed.

Lemma exec_op_external env {X} (o : op X) w x w' : external_op o → exec_op env o w = (x, w') → ingests w w'.
Proof.
  intros Ho Hx. destruct w as [d mem m l t].
  destruct o; try done; cbn in Hx;
    try (simplify_eq; by apply ingests_same);
    try (unfold sql_get, sql_read in Hx; destruct (env_fault env t) as [[]|]; simplify_eq; by apply ingests_same).
  destruct Ho as [-> Hf]. destruct (append_foreign _ d Hf) as (new & Hnew & Hd).
  destruct (append_event_with_edges e [] d) as [r d'] eqn:He. cbn in Hd.
  destruct (env_fault env t) as [[]|]; simplify_eq; try (by apply ingests_same). all: by exists new.
Qed.

(** ** The calls *)

Inductive external_call : prog unit → Prop :=
| ec_ingest request : external_call (discard (ingest_provenance bridges request))
| ec_query request : external_call (discard (query_provenance request))
| ec_tools id : external_call (discard (list_bridge_tools app bridges id))
| ec_lineage lib request : external_call (discard (query_lineage lib request))
| ec_execution_lineage lib actor id : external_call (discard (get_execution_lineage lib app actor id))
| ec_execution lib actor id : external_call (discard (get_execution lib app actor id)).

Lemma find_bridge_some id b : find_bridge bridges id = Some b → b ∈ bridges ∧ runtime_id b = id.
Proof.
  intros [Hin Heq]%find_some. split; [by apply list_elem_of_In|by apply String.eqb_eq].
Qed.

Ltac solve_external :=
  repeat first
    [ progress solve_all_ops
    | progress unfold governance_ok, governance_err, checked, fetch, require, sanitized_ok, load_execution ].

Lemma ingest_external request : all_ops (@external_op) (ingest_provenance bridges request).
Proof.
  unfold ingest_provenance. destruct (find_bridge _ _) as [b|] eqn:Hb; [|solve_external].
  destruct (is_externally_ingestible_kind _) eqn:Hk; cbn [negb]; [|solve_external].
  destruct (find_bridge_some _ _ Hb) as [Hin Hid].
  apply all_ops_bind; [solve_external|intros event_id]. apply all_ops_bind; [solve_external|intros now].
  apply all_ops_bind; [|intros ?; solve_external]. unfold checked. apply all_ops_bind; [|intros ?; solve_external].
  apply all_ops_call. split; [done|]. split; [done| |done..]. exists b. by rewrite Hid.
Qed.

Lemma visit_edges_external target edges s : all_ops (@external_op) (visit_edges target edges s).
Proof. revert s. induction edges as [|e edges IH]; intros s; cbn [visit_edges]; unfold visit_edge; solve_external; apply IH. Qed.
Lemma expand_all_external direction ids s : all_ops (@external_op) (expand_all direction ids s).
Proof.
  revert s. induction ids as [|id ids IH]; intros s; cbn [expand_all]; unfold expand; solve_external;
    first [apply IH | apply visit_edges_external].
Qed.
Lemma traverse_external direction hops frontier s : all_ops (@external_op) (traverse direction hops frontier s).
Proof.
  revert frontier s. induction hops as [|hops IH]; intros frontier s; cbn [traverse]; [exact I|].
  destruct frontier; [exact I|]. apply all_ops_bind; [apply expand_all_external|]. intros [?|?]; [apply IH|exact I].
Qed.
Lemma edges_of_events_external route events : all_ops (@external_op) (edges_of_events route events).
Proof. induction events; cbn [edges_of_events]; solve_external; assumption. Qed.

Lemma external_call_external p : external_call p → all_ops (@external_op) p.
Proof.
  intros []; unfold discard; (apply all_ops_bind; [|intros ?; exact I]).
  - apply ingest_external.
  - unfold query_provenance. solve_external.
  - unfold list_bridge_tools. solve_external.
  - unfold query_lineage. solve_external. apply traverse_external.
  - unfold get_execution_lineage. solve_external. apply edges_of_events_external.
  - unfold get_execution. solve_external.
Qed.

(** ** Governed chains *)

Section chains.
Context (d : Db) (new : list ProvenanceEvent) (Hnew : Forall foreign new).
Let d' : Db := set_events (db_events d ++ new) d.

Lemma stored_governed e k :
  is_externally_ingestible_kind k = false → e ∈ db_events d' ∧ ev_kind e = k ↔ e ∈ db_events d ∧ ev_kind e = k.
Proof.
  intros Hk. unfold d'. destruct d. cbn. rewrite elem_of_app.
  split; [intros [[?|Hin] He]; [done|]|intros [? ?]; auto].
  pose proof (fo_kind _ (proj1 (Forall_forall _ _) Hnew _ Hin)). congruence.
Qed.

Lemma edges_kept : db_edges d' = db_edges d.
Proof. unfold d'. by destruct d. Qed.

Lemma linked_parent_kept child parent k t :
  is_externally_ingestible_kind k = false → linked_parent d' child parent k t ↔ linked_parent d child parent k t.
Proof. intros Hk. unfold linked_parent. rewrite edges_kept. pose proof (stored_governed parent k Hk). tauto. Qed.

Lemma policy_permits_kept e policy : policy_permits d' e policy ↔ policy_permits d e policy.
Proof.
  unfold policy_permits.
  split; (intros [?|[? (g & ? & ? & ?)]]; [by left|right; split; [done|]]; exists g;
    pose proof (stored_governed g PK_ApprovalGranted eq_refl); tauto).
Qed.

(** Neither made nor broken. *)
Lemma governed_chain_kept e : governed_chain d' e ↔ governed_chain d e.
Proof.
  unfold governed_chain.
  split; intros (policy & capability & submitted & prepared & tool_prepared & H);
    exists policy, capability, submitted, prepared, tool_prepared;
    pose proof (stored_governed tool_prepared PK_ToolCallPrepared eq_refl);
    pose proof (policy_permits_kept e policy);
    pose proof (linked_parent_kept tool_prepared prepared PK_SideEffectPrepared PE_Caused eq_refl);
    pose proof (linked_parent_kept prepared submitted PK_ActionProposalSubmitted PE_Caused eq_refl);
    pose proof (linked_parent_kept submitted capability PK_CapabilityMinted PE_AuthorizedBy eq_refl);
    pose proof (linked_parent_kept capability policy PK_PolicyEvaluated PE_EvaluatedByPolicy eq_refl);
    destruct H as (?&?&?&?&?&?&?&?&?&?&?&?&?); tauto.
Qed.
End chains.

(** C39: Whatever calls external runtimes make, in any interleaving and under any storage
    faults, the database changes by added events only: each of one of the two ingestible
    kinds, attributed to a registered bridge and tied to no proposal, capability or
    contract; no adapter is called, and an execution has a governed provenance chain after
    exactly if it had one before. *)
Theorem ingest_cannot_forge env w p :
  pool_reach external_call env (mkPool [] w) p →
  ∃ new, Forall foreign new ∧ w_db (p_world p) = set_events (db_events (w_db w) ++ new) (w_db w) ∧
    w_adapter_log (p_world p) = w_adapter_log w ∧
    ∀ e, governed_chain (w_db (p_world p)) e ↔ governed_chain (w_db w) e.
Proof.
  intros Hr. destruct (all_ops_pool _ env ingests (@exec_op_external env) _ (mkPool [] w) p external_call_external (Forall_nil_2 _) Hr) as (new & Hnew & Hd & Hl).
  exists new. split_and!; [done..|]. intros e. cbn in Hd. rewrite Hd. by apply governed_chain_kept.
Qed.
End external.

(** ** Delivery *)

(** Any mix of submissions and polls on a connected bridge. *)
Inductive bridge_use := BU_submit (e : ProvenanceEvent) | BU_poll.

Definition use_bridge (b : McpBridge) (u : bridge_use) : list ProvenanceEvent * McpBridge :=
  match u with
  | BU_submit e => ([], (submit_event e b).2)
  | BU_poll => let '(r, b') := poll_events b in (match r with Ok l => l | Err _ => [] end, b')
  end.

Fixpoint use_all (b : McpBridge) (us : list bridge_use) : list ProvenanceEvent * McpBridge :=
  match us with
  | [] => ([], b)
  | u :: rest => let '(l, b1) := use_bridge b u in let '(l', b2) := use_all b1 rest in (l ++ l', b2)
  end.

Definition submitted_events (us : list bridge_use) : list ProvenanceEvent :=
  omap (λ u, match u with BU_submit e => Some e | BU_poll => None end) us.

(** What a connected bridge has delivered and still holds is what was pending and
    submitted, each event once and in order. *)
Theorem delivered_in_order b us :
  mb_connected b = true →
  (use_all b us).1 ++ mb_pending_events (use_all b us).2 = mb_pending_events b ++ submitted_events us.
Proof.
  revert b. induction us as [|u us IH]; intros b Hb; cbn [use_all]; [by rewrite app_nil_r|].
  destruct u as [e|]; cbn [use_bridge submit_event poll_events McpBridge_runtime]; unfold mcp_submit_event, mcp_poll_events;
    rewrite Hb; cbn [negb snd].
  - specialize (IH (mkMcpBridge (mb_runtime_id b) true (mb_tools b) (mb_pending_events b ++ [e])) eq_refl).
    destruct (use_all _ us) as [l b2]. cbn in *. by rewrite IH, <- app_assoc.
  - specialize (IH (mkMcpBridge (mb_runtime_id b) true (mb_tools b) []) eq_refl).
    destruct (use_all _ us) as [l b2]. cbn in *. by rewrite <- app_assoc, IH.
Qed.

(** ** Answers *)

(** The sanitized list of tools always reads back: the same tools in the same order, with
    every text sanitized. *)
Lemma tools_response_reads_back app r :
  ∃ tools, tools_response_of_json (sanitize_json app (tools_response_json r)) =
             Some (mkToolsResponse (sanitize (ext_replace_all (app_ext app)) (br_runtime_id r)) tools) ∧
    Forall2 (λ t t', bt_name t' = sanitize (ext_replace_all (app_ext app)) (bt_name t)) (br_tools r) tools.
Proof.
  destruct r as [id tools]. unfold tools_response_json, tools_response_of_json, sanitize_json. cbn.
  induction tools as [|t tools (ts & Hts & Hall)]; cbn; [by exists []|].
  destruct (mapM tool_of_json _) as [l|] eqn:Hl; cbn in Hts |- *; [|done]. simplify_eq.
  eexists (_ :: _). split; [done|]. by constructor.
Qed.
