(* ===== verification/VersionDiff.v ===== *)
(** * The comparison of two versions is empty exactly when they are equal

    [json_diff] of policy.rs against the equality of JSON values, on canonical objects
    (every object the program holds is a sorted map). *)

From stdpp Require Import pretty sorting.
From S2P Require Import Prelude Json Proto Policies.

(** ** Equality of arrays and objects *)

Lemma json_eqb_arr l r :
  json_eqb (JArr l) (JArr r) = true ↔ Forall2 (λ a b, json_eqb a b = true) l r.
Proof.
  revert r. induction l as [|x l IH]; intros [|y r]; cbn;
    [split; [by constructor | done] | split; [done | by inversion 1] | split; [done | by inversion 1] |].
  rewrite andb_true_iff. cbn in IH. rewrite IH. split; [intros []; by constructor | by inversion 1].
Qed.

Definition entry_eqb (a b : string * json) : Prop := a.1 = b.1 ∧ json_eqb a.2 b.2 = true.

Lemma json_eqb_obj l r : json_eqb (JObj l) (JObj r) = true ↔ Forall2 entry_eqb l r.
Proof.
  revert r. induction l as [|[k x] l IH]; intros [|[k' y] r]; cbn;
    [split; [by constructor | done] | split; [done | by inversion 1] | split; [done | by inversion 1] |].
  rewrite !andb_true_iff, String.eqb_eq. cbn in IH. rewrite IH. split.
  - intros [[-> ?] ?]. by repeat constructor.
  - inversion 1 as [|???? []]; subst. by repeat split.
Qed.

(** ** The parts of a difference *)

Lemma btree_insert_nonempty {A} k (v : A) m : btree_insert k v m ≠ [].
Proof. destruct m as [|[k' v'] m]; cbn; [done|]. by repeat case_match. Qed.

Lemma diff_parts_empty a r c : diff_parts a r c = JObj [] ↔ a = [] ∧ r = [] ∧ c = [].
Proof. split; [by destruct a, r, c | by intros (-> & -> & ->)]. Qed.

Lemma is_empty_object_spec v : is_empty_object v = true ↔ v = JObj [].
Proof. split; [by destruct v as [| | | | | |[]] | by intros ->]. Qed.

Section walks.
Context (diff : json → json → json).

Lemma object_walk_empty rm m acc :
  object_walk diff rm m acc = ([], []) ↔
  acc = ([], []) ∧ Forall (λ kv, ∃ rv, smap_get kv.1 rm = Some rv ∧
                             (json_eqb kv.2 rv = true ∨ diff kv.2 rv = JObj [])) m.
Proof.
  revert acc. induction m as [|[k lv] m IH]; intros acc; cbn; [naive_solver|].
  rewrite IH, Forall_cons. clear IH. cbn. destruct (smap_get k rm) as [rv|].
  - destruct (json_eqb lv rv) eqn:Hb.
    { split; [intros [? ?]; split_and!; [done | by exists rv; auto | done] | by intros (? & _ & ?)]. }
    destruct (is_empty_object (diff lv rv)) eqn:He.
    + apply is_empty_object_spec in He.
      split; [intros [? ?]; split_and!; [done | by exists rv; auto | done] | by intros (? & _ & ?)].
    + split; [intros [[= _ []%btree_insert_nonempty] _]|].
      intros (_ & (rv' & [= <-] & [?|Heq]) & _); [congruence|]. apply is_empty_object_spec in Heq. congruence.
  - split; [intros [[= []%btree_insert_nonempty] _] | by intros (_ & (? & ? & _) & _)].
Qed.

Lemma array_walk_empty l : ∀ i r acc,
  array_walk diff i l r acc = ([], []) ↔
  acc = ([], []) ∧ length l ≤ length r ∧ Forall2 (λ a b, json_eqb a b = true) l (take (length l) r).
Proof.
  induction l as [|lv l IH]; intros i [|rv r] acc; cbn.
  - split; [intros ->; split_and!; [done | lia | constructor] | by intros []].
  - split; [intros ->; split_and!; [done | lia | constructor] | by intros []].
  - rewrite IH. split; [intros [[= []%btree_insert_nonempty] _] | intros (_ & ? & _); lia].
  - rewrite IH. destruct (json_eqb lv rv) eqn:He.
    + split; [intros (-> & ? & ?); split_and!; [done | lia | by constructor] |].
      intros (-> & ? & H). inversion H; subst. split_and!; [done | lia | done].
    + split; [intros [[= _ []%btree_insert_nonempty] _] | intros (_ & _ & H); inversion H; congruence].
Qed.
End walks.

(** ** Canonical objects *)

Lemma wf_keys (m : list (string * json)) : btree_wf m → StronglySorted String.le m.*1 ∧ NoDup m.*1.
Proof.
  induction 1 as [|[k v] m Hs [IH1 IH2] Hall]; [by split; constructor|]. cbn.
  rewrite Forall_forall in Hall. split; constructor.
  - done.
  - rewrite Forall_forall. intros k' ([k1 v1] & -> & Hin)%list_elem_of_fmap. apply (Hall _ Hin).
  - intros ([k1 v1] & Heq & Hin)%list_elem_of_fmap. by destruct (Hall _ Hin).
  - done.
Qed.

Lemma wf_get (m : list (string * json)) k v : NoDup m.*1 → (k, v) ∈ m → smap_get k m = Some v.
Proof.
  induction m as [|[k' v'] m IH]; cbn; [by intros _ ?%not_elem_of_nil|].
  intros [Hnot Hnd]%NoDup_cons [[= -> ->]|Hin]%elem_of_cons; [by rewrite String.eqb_refl|].
  destruct (String.eqb_spec k k') as [->|]; [|by apply IH].
  exfalso. apply Hnot. by apply (list_elem_of_fmap_2' fst _ (k', v)).
Qed.

(** Two sorted maps agree key by key exactly when they agree entry by entry. *)
Lemma wf_aligned (lm rm : list (string * json)) :
  btree_wf lm → btree_wf rm →
  Forall2 entry_eqb lm rm ↔
  Forall (λ kv, ∃ rv, smap_get kv.1 rm = Some rv ∧ json_eqb kv.2 rv = true) lm ∧
  Forall (λ kv, smap_contains_key kv.1 lm = true) rm.
Proof.
  intros [Hsl Hnl]%wf_keys [Hsr Hnr]%wf_keys. split.
  - intros H2. split; apply Forall_forall.
    + intros [k lv] (i & Hi)%list_elem_of_lookup. destruct (Forall2_lookup_l _ _ _ _ _ H2 Hi) as ([k' rv] & Hr & [Hk He]).
      cbn in *. subst k'. exists rv. split; [|done]. apply wf_get; [done|]. by eapply list_elem_of_lookup_2.
    + intros [k rv] (i & Hi)%list_elem_of_lookup. destruct (Forall2_lookup_r _ _ _ _ _ H2 Hi) as ([k' lv] & Hl & [Hk He]).
      cbn in *. subst k'. unfold smap_contains_key.
      by rewrite (wf_get lm k lv) by (try done; by eapply list_elem_of_lookup_2).
  - intros [Hl Hr]. rewrite Forall_forall in Hl, Hr.
    assert (lm.*1 = rm.*1) as Hkeys.
    { apply (StronglySorted_unique String.le); [done..|]. apply NoDup_Permutation; [done..|]. intros k. split.
      - intros ([k0 lv] & -> & Hin)%list_elem_of_fmap. destruct (Hl _ Hin) as (rv & Hg & _).
        apply smap_get_In in Hg. by apply (list_elem_of_fmap_2' fst _ (k0, rv)).
      - intros ([k0 rv] & -> & Hin)%list_elem_of_fmap. specialize (Hr _ Hin). cbn in Hr.
        unfold smap_contains_key in Hr. destruct (smap_get k0 lm) as [lv|] eqn:Hg; [|done].
        apply smap_get_In in Hg. by apply (list_elem_of_fmap_2' fst _ (k0, lv)). }
    apply Forall2_same_length_lookup. split; [by rewrite <- (length_fmap fst lm), Hkeys, length_fmap|].
    intros i [k lv] [k' rv] Hi Hj.
    assert (k = k') as ->.
    { pose proof (f_equal (.!! i) Hkeys) as He. cbn in He. rewrite !list_lookup_fmap, Hi, Hj in He. by injection He. }
    split; [done|]. cbn. destruct (Hl (k', lv)) as (rv' & Hg & He); [by eapply list_elem_of_lookup_2|]. cbn in Hg, He.
    rewrite (wf_get rm k' rv) in Hg by (try done; by eapply list_elem_of_lookup_2). by injection Hg as <-.
Qed.

Lemma added_empty (lm rm acc : list (string * json)) :
  foldl (λ acc kv, if smap_contains_key kv.1 lm then acc else btree_insert kv.1 kv.2 acc) acc rm = [] ↔
  acc = [] ∧ Forall (λ kv, smap_contains_key kv.1 lm = true) rm.
Proof.
  revert acc. induction rm as [|[k v] rm IH]; intros acc; cbn; [split; [by intros -> | by intros []]|].
  rewrite IH, Forall_cons. cbn. destruct (smap_contains_key k lm); [tauto|].
  split; [intros [[]%btree_insert_nonempty _] | by intros (_ & ? & _)].
Qed.

Lemma tail_empty (l : list (nat * json)) acc :
  foldl (λ acc iv, btree_insert (pretty iv.1) iv.2 acc) acc l = [] ↔ acc = [] ∧ l = [].
Proof.
  revert acc. induction l as [|iv l IH]; intros acc; cbn; [split; [by intros -> | by intros []]|].
  rewrite IH. split; [intros [[]%btree_insert_nonempty _] | by intros []].
Qed.

Lemma Forall2_take_drop {A B} (P : A → B → Prop) l r :
  Forall2 P l r ↔ length l ≤ length r ∧ Forall2 P l (take (length l) r) ∧ drop (length l) r = [].
Proof.
  split.
  - intros H. pose proof (Forall2_length _ _ _ H) as Hlen. split; [lia|].
    by rewrite take_ge, drop_ge by lia.
  - intros (Hle & H & Hd). rewrite <- (take_drop (length l) r), Hd, app_nil_r. done.
Qed.

(** The difference reported between two versions of a bundle is the empty object
    exactly when the versions are equal as JSON values: no change, addition or removal,
    at any depth, is missed, and none is reported where there is none. *)
Theorem json_diff_exact left right :
  json_canonical left → json_canonical right →
  json_diff left right = JObj [] ↔ json_eqb left right = true.
Proof.
  revert right. induction left as [| | | | |l IH|lm IH] using json_nested_ind; intros right Hl Hr.
  6: { destruct right as [| | | | |r|rm]; try done. cbn [json_diff].
       destruct (array_walk json_diff 0 l r ([], [])) as [removed changed] eqn:Hw.
       pose proof (array_walk_empty json_diff l 0 r ([], [])) as Ha. rewrite Hw in Ha.
       rewrite diff_parts_empty, json_eqb_arr, tail_empty, Forall2_take_drop.
       assert (imap (λ i v, (length l + i, v)) (drop (length l) r) = [] ↔ drop (length l) r = []) as ->
         by (destruct (drop (length l) r); cbn; split; done).
       split.
       - intros ([_ Hd] & -> & ->). destruct (proj1 Ha eq_refl) as (_ & ? & ?). done.
       - intros (Hle & H2 & Hd). assert ((removed, changed) = ([], [])) as [= -> ->]; [|done].
         apply Ha. done. }
  6: { destruct right as [| | | | |r|rm]; try done. cbn [json_diff].
       inversion Hl as [| | | | | |? Hwl Hcl]; inversion Hr as [| | | | | |? Hwr Hcr]; subst.
       destruct (object_walk json_diff rm lm ([], [])) as [removed changed] eqn:Hw.
       pose proof (object_walk_empty json_diff rm lm ([], [])) as Ho. rewrite Hw in Ho.
       rewrite diff_parts_empty, json_eqb_obj, added_empty, wf_aligned by done.
       rewrite !Forall_forall in *. split.
       - intros ([_ Hadd] & -> & ->). destruct (proj1 Ho eq_refl) as [_ Hk].
         split; [|done]. intros kv Hin. destruct (Hk kv Hin) as (rv & Hg & He). exists rv. split; [done|].
         destruct He as [?|He]; [done|]. apply (IH kv Hin rv); [by apply Hcl | | done].
         apply smap_get_In in Hg. by apply (Hcr _ Hg).
       - intros [Hk Hadd]. assert ((removed, changed) = ([], [])) as [= -> ->]; [|done].
         apply Ho. split; [done|]. intros kv Hin.
         destruct (Hk kv Hin) as (rv & ? & ?). exists rv. auto. }
  all: destruct right; cbn [json_diff]; (case_match; [split; [done | done]|]); split; try done;
    intros H; exfalso; revert H; cbn; done.
Qed.
