(* ===== verification/CapabilitySpec.v ===== *)
(** * What a successful mint has checked

    The checks of mint read the database and change nothing; a mint that succeeded
    has found the proposal, its intent and an allowing latest policy decision, and
    inserted an active lease with the terms of the request. *)

From S2P Require Import Prelude Json Proto Transitions CapService Store Adapter Effects Pdp.
From S2P Require Import RollbackSvc Validation Provenance CapBackend Lifecycle Capabilities Handlers.
From S2P Require Import StoreFacts Evolution Discipline Logic HandlerSafety AuthorizeSpec RunSpec.

(** ** The latest event *)

(** [latest] returns the last event of the greatest time. *)
Lemma latest_app l e :
  latest (l ++ [e]) =
    match latest l with
    | Some b => if (ev_occurred_at e <? ev_occurred_at b)%Z then Some b else Some e
    | None => Some e
    end.
Proof. unfold latest. rewrite foldl_app. simpl. destruct (foldl _ None l); [|done]. by case_match. Qed.

Lemma latest_spec l e :
  latest l = Some e → e ∈ l ∧ ∀ e', e' ∈ l → (ev_occurred_at e' ≤ ev_occurred_at e)%Z.
Proof.
  revert e. induction l as [|x l IH] using rev_ind; intros e; [done|]. rewrite latest_app.
  assert (∀ e0, (∀ e', e' ∈ l → (ev_occurred_at e' ≤ ev_occurred_at e0)%Z) →
    (ev_occurred_at x ≤ ev_occurred_at e0)%Z →
    ∀ e', e' ∈ l ++ [x] → (ev_occurred_at e' ≤ ev_occurred_at e0)%Z) as Hall.
  { intros e0 H1 H2 e' [?|?%list_elem_of_singleton]%elem_of_app; subst; auto. }
  destruct (latest l) as [b|] eqn:Hb.
  - destruct (IH b eq_refl) as [Hin Hmax]. case_match eqn:Hlt; intros; simplify_eq.
    + apply Z.ltb_lt in Hlt. split; [apply elem_of_app; by left | apply Hall; [done | lia]].
    + apply Z.ltb_ge in Hlt. split; [apply elem_of_app; right; by left|].
      apply Hall; [|lia]. intros e' He'. etrans; [by apply Hmax | lia].
  - intros [= <-]. split; [apply elem_of_app; right; by left|]. apply Hall; [|lia].
    intros e' He'. destruct l as [|y l _] using rev_ind; [by apply not_elem_of_nil in He'|].
    rewrite latest_app in Hb. by repeat case_match.
Qed.

(** ** The checks *)

Section checks.
Context (app : App) (env : Env) (d : Db).

(** A decision recorded for the proposal, no recorded one later. *)
Definition decided (pid : ProposalId) (iid : IntentId) (decision : Decision) : Prop :=
  ∃ ev, ev ∈ db_events d ∧ ev_kind ev = PK_PolicyEvaluated ∧ ev_intent_id ev = Some iid ∧
    ev_proposal_id ev = Some pid ∧ decision_from_policy_event ev = Some decision ∧
    ∀ ev', ev' ∈ db_events d → ev_kind ev' = PK_PolicyEvaluated → ev_intent_id ev' = Some iid →
      ev_proposal_id ev' = Some pid → (ev_occurred_at ev' ≤ ev_occurred_at ev)%Z.

Lemma query_policy_events iid e :
  query_matches d (policy_events_of iid) e = true ↔
  ev_intent_id e = Some iid ∧ ev_kind e = PK_PolicyEvaluated.
Proof.
  unfold query_matches. simpl. rewrite !andb_true_iff, !bool_decide_eq_true. naive_solver.
Qed.

Lemma decision_reads pid iid :
  reads env d (latest_policy_decision_for_proposal pid iid) (decided pid iid).
Proof.
  unfold latest_policy_decision_for_proposal. intros w Hw. rewrite run_call. simpl exec_op.
  destruct (exec_db env (query (policy_events_of iid)) w) as [r w'] eqn:Hx.
  apply exec_db_cases in Hx as [_ [[Hd [msg ->]] | [Hd [-> | [msg ->]]]]]; simpl in *; rewrite ?Hd; try done.
  split; [done|]. destruct (latest _) as [ev|] eqn:Hl; [|done].
  destruct (decision_from_policy_event ev) as [dec|] eqn:Hdec; [|done]. simpl.
  apply latest_spec in Hl as [Hin Hmax].
  assert (∀ e, e ∈ filter (λ e, bool_decide (ev_proposal_id e = Some pid))
    (filter (λ e, query_matches (w_db w) (policy_events_of iid) e) (by_occurred_at (db_events (w_db w)))) ↔
    ev_proposal_id e = Some pid ∧ (ev_intent_id e = Some iid ∧ ev_kind e = PK_PolicyEvaluated) ∧
    e ∈ db_events d) as Hiff.
  { intros e. rewrite !list_elem_of_filter, !Is_true_true, bool_decide_eq_true, Hw, query_policy_events.
    unfold by_occurred_at. by rewrite sort_desc_perm. }
  apply Hiff in Hin as (? & [? ?] & ?). exists ev. split_and!; [done..|].
  intros ev' ? ? ? ?. apply Hmax, Hiff. done.
Qed.

(** The latest hold of the proposal was allowed. *)
Definition hold_allowed (pid : ProposalId) : Prop :=
  ∃ h, fst (hold_of_proposal pid d) = Ok (Some h) ∧ qh_state h = QS_Allowed.

Lemma hold_reads pid : reads env d (validate_quarantine_hold_for_proposal pid) (λ _, hold_allowed pid).
Proof.
  unfold validate_quarantine_hold_for_proposal. intros w Hw. rewrite run_call. simpl exec_op.
  destruct (exec_db env (hold_of_proposal pid) w) as [r w'] eqn:Hx.
  apply exec_db_cases in Hx as [_ [[Hd [msg ->]] | [Hd [-> | [msg ->]]]]]; cbn [run fst snd]; rewrite ?Hd; try done.
  rewrite Hw. split; [done|]. destruct (fst (hold_of_proposal pid d)) as [[h|]|] eqn:Hh; [|done..].
  destruct (qh_state h) eqn:Hs; try done. by exists h.
Qed.

(** What the latest decision asks for was there. *)
Definition mint_backed (request : CapabilityMintRequest) (decision : Decision) : Prop :=
  match decision with
  | D_Allow => True
  | D_RequireApproval => ∃ b, mr_approval_binding request = Some b ∧
      approval_backs app env d b (mr_proposal_id request)
  | D_Quarantine => hold_allowed (mr_proposal_id request)
  | D_Deny | D_AllowDraftOnly => False
  end.

Lemma mint_permitted_reads request decision :
  reads env d (mint_permitted app request decision) (λ _, mint_backed request decision).
Proof.
  destruct decision; cbn [mint_permitted mint_backed].
  - by apply reads_ok.
  - apply reads_err.
  - apply hold_reads.
  - destruct (mr_approval_binding request) as [b|] eqn:Hb; [|apply reads_err].
    intros w Hw. destruct (approval_reads app env d b (mr_proposal_id request) w Hw) as [H1 H2].
    split; [done|]. case_match; [by exists b | done].
  - apply reads_err.
Qed.

(** A guarded step reads what the step reads. *)
Lemma guarded_reads {T} route (p : prog (result T ApiProblem)) Φ :
  reads env d p Φ → reads env d (guarded_by route p) Φ.
Proof.
  intros Hp w Hw. unfold guarded_by. rewrite run_bind. destruct (Hp w Hw) as [H1 H2].
  destruct (run env p w) as [[x|e] w']; cbn [fst snd require] in *; [done | by apply reads_governance_err].
Qed.

(** The request is for a stored proposal of a stored intent, names its server and
    tool, its constraints hold of the proposal's arguments, and the latest policy
    decision about the proposal lets it pass. *)
Definition mint_checked (request : CapabilityMintRequest) : Prop :=
  (∃ p, db_proposals d !! mr_proposal_id request = Some p ∧ mint_binding_matches p request = true ∧
        validate_argument_constraints (app_ext app) (pr_raw_arguments p)
          (mr_argument_constraints request) = Ok tt) ∧
  (∃ i, db_intents d !! mr_intent_id request = Some i) ∧
  ∃ decision, decided (mr_proposal_id request) (mr_intent_id request) decision ∧
    mint_backed request decision.

Lemma mint_checks_reads request : reads env d (mint_checks app request) (λ _, mint_checked request).
Proof.
  eapply reads_try; [by apply (reads_fetch env d _ _ db_proposals) | intros p Hp].
  destruct (mint_binding_matches p request) eqn:Hb; cbn [negb]; [|apply reads_governance_err].
  eapply reads_try; [apply reads_require | intros [] Hargs]. apply map_err_ok in Hargs.
  eapply reads_try; [by apply (reads_fetch env d _ _ db_intents) | intros i Hi].
  eapply reads_try; [apply guarded_reads, decision_reads | intros decision Hdec].
  intros w Hw. destruct (guarded_reads GR_CapabilitiesMint _ _ (mint_permitted_reads request decision) w Hw)
    as [H1 H2].
  split; [done|]. case_match; [|done]. split_and!; [by exists p | by exists i | by exists decision].
Qed.
End checks.

(** ** The handler *)

Section mint.
Context (app : App) (env : Env).

(** The lease a mint stores. *)
Record minted (actor : option AuthActor) (request : CapabilityMintRequest)
    (resp : CapabilityMintResponse) (w w' : World) : Prop := {
  mi_checked : mint_checked app env (w_db w) request;
  mi_ttl : (mr_requested_ttl_secs request ≤ 300)%Z;
  mi_lease : ∃ cid bid t, mresp_lease resp =
    cl_set_owner (aa_actor_id <$> actor) (mint_lease cid bid (env_clock env t) request);
  mi_fresh : db_capabilities (w_db w) !! cl_capability_id (mresp_lease resp) = None;
  mi_stored : db_capabilities (w_db w') =
    <[cl_capability_id (mresp_lease resp) := mresp_lease resp]> (db_capabilities (w_db w));
  mi_event : ∃ ev policy, ev ∈ db_events (w_db w') ∧ ev_kind ev = PK_CapabilityMinted ∧
    ev_capability_id ev = Some (cl_capability_id (mresp_lease resp)) ∧
    policy ∈ db_events (w_db w) ∧
    linked_parent (w_db w') ev policy PK_PolicyEvaluated PE_EvaluatedByPolicy;
}.

Lemma mint_with_owner_run request owner w resp w' :
  run env (mint_capability_with_owner request owner) w = (Ok resp, w') →
  (mr_requested_ttl_secs request ≤ 300)%Z ∧
  (∃ cid bid t, mresp_lease resp = cl_set_owner owner (mint_lease cid bid (env_clock env t) request)) ∧
  db_capabilities (w_db w) !! cl_capability_id (mresp_lease resp) = None ∧
  w_db w' = set_capabilities (<[cl_capability_id (mresp_lease resp) := mresp_lease resp]>
                                (db_capabilities (w_db w))) (w_db w).
Proof.
  unfold mint_capability_with_owner. destruct (300 <? _)%Z eqn:Httl; [done|]. apply Z.ltb_ge in Httl.
  rewrite run_now, !run_uuid, run_call. simpl exec_op. destruct (exec_db _ _ _) as [[[]|e] w1] eqn:Hx; [|done].
  apply exec_db_ok in Hx. rewrite !tick_db in Hx. cbn [run]. intros [= <- <-]. cbn [mresp_lease].
  unfold insert_capability in Hx. destruct (has _ _) eqn:Hh; [done|]. destruct (negb _); [done|].
  apply has_false in Hh. injection Hx as Hx.
  split_and!; [done | by do 3 eexists | done | done].
Qed.

(** C18: a call of mint that answers with success and ran without interference was for
    a stored proposal of a stored intent with its server and tool, with argument
    constraints that hold of the proposal's arguments; the latest policy decision about
    the proposal was Allow, or RequireApproval with a granted, unexpired approval for
    this very action, or Quarantine with a hold an operator allowed; and it stored, under a
    fresh id, an active lease of at most five minutes with the terms of the request and
    the caller as owner, and an event that links it to a policy evaluation. *)
Theorem mint_capability_sound actor request w resp w' :
  run env (mint_capability app actor request) w = (Ok resp, w') → minted actor request resp w w'.
Proof.
  unfold mint_capability. rewrite run_bind.
  destruct (mint_checks_reads app env (w_db w) request w eq_refl) as [Hd Hc].
  destruct (run env (mint_checks app request) w) as [[[]|e] w1]; cbn [fst snd] in *; [|done].
  rewrite run_bind. destruct (run env (mint_capability_with_owner _ _) w1) as [[r|e] w2] eqn:Hm.
  2: { cbn [map_err require]. rewrite run_bind. by destruct w2. }
  apply mint_with_owner_run in Hm as (Httl & Hlease & Hfresh & Hw2). rewrite Hd in Hfresh, Hw2.
  cbn [map_err require]. rewrite run_bind. cbn [run]. rewrite run_uuid, run_now, run_bind.
  unfold checked. rewrite run_bind.
  destruct (run env (append_governance_event _) _) as [[[]|e] w3] eqn:Ha; [|by destruct w3].
  apply append_governance_event_run in Ha as [ev' [(md & edges & Hev) Hevs Hrest Hpar _]].
  rewrite !tick_db in *. cbn [run]. unfold governance_ok. rewrite run_call.
  intros Hrun. assert (resp = r ∧ w_db w' = w_db w3) as [-> Hw'].
  { destruct w3. cbn in Hrun. by simplify_eq. }
  unfold only_provenance in Hrest. rewrite Hw2 in *. split; [done | done | done | done | |].
  - rewrite Hw', Hrest. by destruct (w_db w).
  - destruct (Hpar PK_PolicyEvaluated PE_EvaluatedByPolicy eq_refl) as [Hopt | (p & Hp & Hl)]; [done|].
    exists ev', p. rewrite Hw'. split_and!; [|by subst ev'..| |done].
    + rewrite Hevs. apply elem_of_app. right. left.
    + by destruct (w_db w).
Qed.
End mint.
