(* ===== verification/Scenario.v ===== *)
(** * Concrete scenarios

    A deployment with one intent, one proposal, one active capability and the two
    provenance events that precede an authorization, in which the handlers run
    end to end.  The scenarios witness that the theorems' hypotheses can be met,
    and exhibit the behaviours recorded as findings. *)

From Stdlib Require Import Ascii.
From stdpp Require Import pretty.
From S2P Require Import Prelude Json Proto AuthState Admin Transitions CapService Store Adapter Effects Pdp.
From S2P Require Import RollbackSvc Validation Provenance CapBackend Lifecycle Handlers StoreFacts.
From S2P Require Import Evolution Discipline Logic HandlerSafety Safety StoreSafety Reconcile.
From S2P Require Import OutboxSafety Chain AuthorizeSpec Background BackgroundSafety.
From S2P Require Import Capabilities RunSpec CapabilitySpec WellTyped.

(** Library functions: a pointer is looked up as a top-level key, the hash is the
    text itself. *)
Definition ext0 : Ext :=
  {| ext_pointer j p := match p with
                        | EmptyString => Some j
                        | String _ k => match as_object j with Some m => smap_get k m | None => None end
                        end;
     ext_regex p := Ok (λ s, str_contains p s);
     ext_parse_uuid s := if String.eqb s "" then None else Some s;
     ext_parse_url _ := None;
     ext_json_to_string j := match as_object j with
                             | Some m => match smap_get "tool_name" m with
                                         | Some (JStr s) => s
                                         | _ => ""
                                         end
                             | None => ""
                             end;
     ext_sha256_hex s := s;
     ext_debug_binding _ := "binding";
     ext_serde_error _ := "serde";
     ext_rfc3339 t := "2026-01-01T00" +:+ ":" +:+ pretty t;
     ext_replace_all _ text _ := text;
     ext_parse_rfc3339 _ := None;
     ext_base64_encode s := s;
     ext_base64_decode s := Some s;
     ext_is_utf8 _ := true;
     ext_hmac_sha1 _ counter := counter +:+ counter +:+ "....";
     ext_aes_gcm_decrypt _ ciphertext _ := Some ciphertext;
     ext_hex_decode s := Ok (String.substring 0 32 s);
     ext_parse_yaml _ := Err "yaml";
     ext_bundle_to_string b := pb_bundle_id b;
     ext_bundle_to_value b := JObj [("bundle_id", JStr (pb_bundle_id b)); ("version", JStr (pb_version b))] |}.

(** The configuration of the deployment, with and without fail-closed auditing. *)
Definition config0 (audit_fail_closed : bool) : ServerConfig :=
  {| cfg_auth_mode := Auth_Disabled; cfg_legacy_object_compat_allow_until := None;
     cfg_audit_fail_closed := audit_fail_closed;
     cfg_approval_timeout_seconds := 3600;
     cfg_ha_reconciler_stale_threshold_secs := 60;
     cfg_ha_reconciler_batch_size := 100;
     cfg_pdp_mode := PM_Dual;
     cfg_quarantine_timeout_seconds := 3600;
     cfg_approval_mfa_required := false;
     cfg_mfa_secret_key := None;
     cfg_mfa_lockout_max_attempts := 5;
     cfg_mfa_lockout_duration_secs := 900;
     cfg_behavioral_anomaly_enabled := false;
     cfg_behavioral_anomaly_window_secs := 60;
     cfg_behavioral_anomaly_warning_threshold := 3;
     cfg_behavioral_anomaly_critical_threshold := 5;
     cfg_behavioral_anomaly_max_actors := 100;
     cfg_bearer_token := None; cfg_oidc_config := None; cfg_agent_clock_skew_secs := 300;
     cfg_nonce_cache_ttl_secs := 0; cfg_nonce_cache_max_entries := 100 |}.

Definition app0 : App :=
  {| app_config := config0 false;
     app_ext := ext0; app_pdp := StaticPdpEngine; app_cap := StoreCapabilityService |}.

Definition fs0 : FsView := {| fs_exists _ := false; fs_canonicalize p := Some p |}.

(** An environment without faults whose adapters behave as the no-op adapter; the
    verification outcome and the compensation result are parameters. *)
Definition env0 (outcome : VerifyOutcome) (recovered : bool) : Env :=
  {| env_clock t := Z.of_nat t;
     env_instant t := Z.of_nat t;
     env_hash t := t;
     env_uuid t := "id-" +:+ pretty (N.of_nat t);
     env_fs _ := fs0;
     env_fault _ := None;
     env_registered k := String.eqb k "noop" || String.eqb k "fs";
     env_prepare _ := ra_prepare (NoopRollbackAdapter "noop");
     env_execute _ := ra_execute (NoopRollbackAdapter "noop");
     env_verify _ _ := Ok {| vor_outcome := outcome; vor_adapter_metadata := [] |};
     env_compensate _ _ := Ok {| rr_recovered := recovered; rr_adapter_metadata := [] |};
     env_rollback _ := ra_rollback (NoopRollbackAdapter "noop");
     env_jwks := λ _ _, JA_failed "offline";
     env_planner_count := 1;
     env_plan _ _ := PlannableNoopAdapter |}.

Definition intent1 : IntentEnvelope := Examples.intent0 Examples.tmp_scope.

Definition proposal1 (class : RollbackClass) : ActionProposal :=
  {| pr_proposal_id := "proposal"; pr_intent_id := "intent"; pr_step_index := 0; pr_title := "write";
     pr_tool_name := "file_write"; pr_server_name := "fs";
     pr_raw_arguments := JObj [("content", JStr "hello")];
     pr_expected_effect := "write file"; pr_estimated_risk := RT_Low;
     pr_requested_rollback_class := class; pr_taint_inputs := [];
     pr_metadata := []; pr_created_at := 0; pr_owner_actor_id := None |}.

Definition lease1 : CapabilityLease :=
  mint_lease "cap" "bundle" 0
    {| mr_intent_id := "intent"; mr_proposal_id := "proposal";
       mr_tool_binding := {| tb_server_name := "fs"; tb_tool_name := "file_write"; tb_tool_version := None |};
       mr_resource_bindings := [RB_File "/tmp/a" RM_Write None]; mr_argument_constraints := [AC_ExactString "content" "hello"];
       mr_taint_budget := mr_taint_budget mint_request0; mr_approval_binding := None;
       mr_requested_ttl_secs := 300; mr_metadata := [] |}.

Definition event1 (id : string) (kind : ProvenanceEventKind) (cap : option string) (md : JsonMap)
  : ProvenanceEvent :=
  {| ev_event_id := id; ev_kind := kind; ev_occurred_at := 0; ev_actor := gateway_actor;
     ev_object := object_ref OT_Proposal "proposal" ""; ev_intent_id := Some "intent";
     ev_proposal_id := Some "proposal"; ev_execution_id := None; ev_capability_id := cap;
     ev_rollback_contract_id := None; ev_policy_bundle_id := None; ev_trust_labels := [];
     ev_sensitivity_labels := []; ev_parent_edges := []; ev_hash_chain := no_hashes;
     ev_metadata := md; ev_source_runtime_id := None |}.

Definition db1 (class : RollbackClass) : Db :=
  {| db_intents := {["intent" := intent1]};
     db_proposals := {["proposal" := proposal1 class]};
     db_capabilities := {["cap" := lease1]};
     db_executions := ∅; db_contracts := ∅; db_approvals := ∅; db_outbox := ∅;
     db_events := [event1 "ev-policy" PK_PolicyEvaluated None [("decision", JStr "Allow")];
                   event1 "ev-cap" PK_CapabilityMinted (Some "cap") []];
     db_edges := [{| er_to_event_id := "ev-cap"; er_from_event_id := "ev-policy";
                     er_edge_type := PE_EvaluatedByPolicy; er_summary := None |}];
     db_audit_log := []; db_holds := ∅; db_admin := no_admin |}.

Definition world1 (class : RollbackClass) : World := mkWorld (db1 class) fresh_memory (λ _, 0) [] 1.

Definition authorize_request : AuthorizeExecutionRequest :=
  {| aer_proposal_id := "proposal"; aer_capability_id := "cap"; aer_dry_run := false |}.

(** ** Pools of calls *)

(** Each call run to its end, one after the other; no call takes 100 steps. *)
Definition in_order (n : nat) : list nat := concat (replicate 100 <$> seq 0 n).

Definition serve (env : Env) (class : RollbackClass) (ps : list (prog unit)) (schedule : list nat)
  : Pool unit := run_schedule env schedule (mkPool ps (world1 class)).

Lemma spawn_all {A} (adm : prog A → Prop) env ps ts w :
  Forall adm ps → pool_reach adm env (mkPool ts w) (mkPool (ts ++ ps) w).
Proof.
  intros Hps. revert ts. induction Hps as [|p ps Hp _ IH]; intros ts; [by rewrite app_nil_r|].
  eapply rtc_l; [by apply step_spawn|]. replace (ts ++ p :: ps) with ((ts ++ [p]) ++ ps) by by rewrite <- app_assoc. apply IH.
Qed.

Lemma world1_initial class : initial (world1 class).
Proof.
  split_and!; try reflexivity. intros id l. cbn. intros Hl.
  apply lookup_singleton_Some in Hl as [<- <-]. reflexivity.
Qed.

Lemma serve_reachable env class ps schedule :
  Forall (admitted app0) ps → reachable app0 env (world1 class) (serve env class ps schedule).
Proof.
  intros Hps. split; [apply world1_initial|]. etrans; [by apply (spawn_all _ env ps []) | apply run_schedule_reach].
Qed.

(** The identifier authorize draws for the execution when it runs first. *)
Definition execution1 : string := "id-7".

Definition authorize1 := discard (authorize_execution app0 None authorize_request).
Definition prepare1 := discard (prepare_execution app0 execution1 None).
Definition execute1 := discard (execute_execution app0 execution1 None JNull).
Definition verify1 := discard (verify_execution app0 execution1 None).
Definition commit1 := discard (commit_execution app0 execution1 None).
Definition compensate1 := discard (compensate_execution app0 execution1 None).
Definition cancel1 := discard (cancel_execution app0 execution1 None).

Ltac admit_calls := repeat constructor.


(** ** Witnesses of the safety theorems *)

(** A recoverable write, and an irreversible one committed by hand. *)
Definition committed_pool : Pool unit :=
  serve (env0 VO_Applied true) R1SnapshotRecoverable [authorize1; prepare1; execute1; verify1] (in_order 4).
Definition committed_r3_pool : Pool unit :=
  serve (env0 VO_Applied true) R3IrreversibleHighConsequence
    [authorize1; prepare1; execute1; verify1; commit1] (in_order 5).
Definition canceled_pool : Pool unit :=
  serve (env0 VO_Applied true) R1SnapshotRecoverable [authorize1; cancel1] (in_order 2).
Definition compensated_pool : Pool unit :=
  serve (env0 VO_Applied true) R1SnapshotRecoverable [authorize1; prepare1; execute1; compensate1]
    (in_order 4).

Definition state_of (p : Pool unit) (id : string) : option ExecutionState :=
  ex_state <$> db_executions (w_db (p_world p)) !! id.

Lemma state_of_row p id s :
  state_of p id = Some s → ∃ e, db_executions (w_db (p_world p)) !! id = Some e ∧ ex_state e = s.
Proof. unfold state_of. destruct (_ !! id) as [e|]; [|done]. intros [= <-]. by exists e. Qed.

Definition starts_with_execute (log : list AdapterCall) : bool :=
  match log with AC_execute _ _ _ :: _ => true | _ => false end.

Lemma dispatched_at_most_once_witness :
  calls execution1 (w_adapter_log (p_world committed_pool)) = 1 ∧
  calls execution1 (w_adapter_log (p_world committed_pool)) ≤ 1.
Proof.
  split; [by_eval|].
  apply (dispatched_at_most_once app0 (env0 VO_Applied true) (world1 R1SnapshotRecoverable)).
  apply serve_reachable. admit_calls.
Defined.

Lemma effects_are_authorized_witness :
  match w_adapter_log (p_world committed_pool) with
  | AC_execute c payload _ :: _ => effect_authorized ext0 (p_world committed_pool) c payload
  | _ => False
  end.
Proof.
  assert (starts_with_execute (w_adapter_log (p_world committed_pool)) = true) as Hs by by_eval.
  destruct (w_adapter_log (p_world committed_pool)) as [|[c payload r | | |] log] eqn:Hlog;
    [discriminate Hs | | discriminate Hs..].
  apply (effects_are_authorized app0 (env0 VO_Applied true) (world1 R1SnapshotRecoverable) _ c payload r).
  - apply serve_reachable. admit_calls.
  - rewrite Hlog. left.
Defined.

Lemma capability_backs_one_execution_witness :
  ∃ e l, db_executions (w_db (p_world committed_pool)) !! execution1 = Some e ∧
    db_capabilities (w_db (p_world committed_pool)) !! ex_capability_id e = Some l ∧
    lease_spent l = true.
Proof.
  destruct (state_of_row committed_pool execution1 ES_Committed) as (e & He & Hst); [by_eval|].
  exists e. enough (∃ l, db_capabilities (w_db (p_world committed_pool)) !! ex_capability_id e = Some l ∧
    lease_spent l = true) as (l & Hl & Hu) by (exists l; split_and!; assumption).
  apply (capability_backs_one_execution app0 (env0 VO_Applied true) (world1 R1SnapshotRecoverable)
           committed_pool execution1 execution1 e e); [|exact He | exact He | reflexivity].
  apply serve_reachable. admit_calls.
Defined.

Lemma committed_is_verified_witness :
  state_of committed_r3_pool execution1 = Some ES_Committed ∧
  executed (p_world committed_r3_pool) execution1 ∧
  verified_applied (p_world committed_r3_pool) execution1.
Proof.
  split; [by_eval|].
  destruct (state_of_row committed_r3_pool execution1 ES_Committed) as (e & He & Hst); [by_eval|].
  destruct (committed_is_verified app0 (env0 VO_Applied true) (world1 R3IrreversibleHighConsequence)
              committed_r3_pool execution1 e) as (H1 & H2 & _); [|exact He | exact Hst |].
  - apply serve_reachable. admit_calls.
  - split; [exact H1 | exact H2].
Defined.

Lemma canceled_never_dispatched_witness :
  calls execution1 (w_adapter_log (p_world canceled_pool)) = 0.
Proof.
  destruct (state_of_row canceled_pool execution1 ES_Canceled) as (e & He & Hst); [by_eval|].
  apply (canceled_never_dispatched app0 (env0 VO_Applied true) (world1 R1SnapshotRecoverable)
           canceled_pool canceled_pool execution1 e); [|exact He | | apply rtc_refl].
  - apply serve_reachable. admit_calls.
  - exact Hst.
Defined.

Lemma compensated_is_recovered_witness : recovered (p_world compensated_pool) execution1.
Proof.
  destruct (state_of_row compensated_pool execution1 ES_Compensated) as (e & He & Hst); [by_eval|].
  apply (compensated_is_recovered app0 (env0 VO_Applied true) (world1 R1SnapshotRecoverable)
           compensated_pool execution1 e); [|exact He |].
  - apply serve_reachable. admit_calls.
  - exact Hst.
Defined.

Lemma rows_follow_matrices_witness : evolves (world1 R1SnapshotRecoverable) (p_world committed_pool).
Proof.
  apply (rows_follow_matrices app0 (env0 VO_Applied true) (world1 R1SnapshotRecoverable)
           (mkPool [] (world1 R1SnapshotRecoverable)) committed_pool).
  - split; [apply world1_initial | reflexivity].
  - apply (serve_reachable (env0 VO_Applied true) R1SnapshotRecoverable). admit_calls.
Defined.

(** The deployment is well typed, and so is the database after a committed call. *)
Lemma db1_typed class : well_typed (db1 class).
Proof.
  split; cbn.
  - intros id i Hi. by apply lookup_singleton_Some in Hi as [<- <-].
  - intros id p Hp. apply lookup_singleton_Some in Hp as [<- <-]. split; [done|by eexists].
  - intros id l Hl. apply lookup_singleton_Some in Hl as [<- <-]. split_and!; [done|by eexists..].
  - intros id e He. by rewrite lookup_empty in He.
  - intros id c Hc. by rewrite lookup_empty in Hc.
  - repeat constructor; set_solver.
  - intros r Hr. repeat (apply elem_of_cons in Hr as [->|Hr]; [split; by_eval|]). by apply not_elem_of_nil in Hr.
Qed.

Lemma database_well_typed_witness : well_typed (w_db (p_world committed_pool)).
Proof.
  apply (database_well_typed app0 (env0 VO_Applied true) (world1 R1SnapshotRecoverable) committed_pool).
  - exact (db1_typed R1SnapshotRecoverable).
  - apply serve_reachable. admit_calls.
Defined.

(** A prepare request of the deployment, and the contract issued for it. *)
Definition prepare_request1 : RollbackPrepareRequest :=
  default_prepare_request "intent" "proposal" execution1 R3IrreversibleHighConsequence.

Lemma rollback_prepare_contract_witness :
  ∃ resp, (run (env0 VO_Applied true) (rollback_prepare prepare_request1)
             (world1 R1SnapshotRecoverable)).1 = Ok resp ∧
    contract_ok prepare_request1 (rps_contract resp).
Proof.
  assert (is_ok (run (env0 VO_Applied true) (rollback_prepare prepare_request1)
            (world1 R1SnapshotRecoverable)).1 = true) as Hok by by_eval.
  apply is_ok_true in Hok as [resp Hr]. exists resp. split; [exact Hr|].
  apply (rollback_prepare_contract (env0 VO_Applied true) prepare_request1
           (world1 R1SnapshotRecoverable)). exact Hr.
Defined.

(** The authorization of the deployment. *)
Lemma authorize_execution_sound_witness :
  ∃ resp lease, authorized app0 (env0 VO_Applied true) None authorize_request resp lease
    (world1 R1SnapshotRecoverable)
    (run (env0 VO_Applied true) (authorize_execution app0 None authorize_request)
       (world1 R1SnapshotRecoverable)).2.
Proof.
  assert (is_ok (run (env0 VO_Applied true) (authorize_execution app0 None authorize_request)
            (world1 R1SnapshotRecoverable)).1 = true) as Hok by by_eval.
  apply is_ok_true in Hok as [resp Hr].
  destruct (authorize_execution_sound app0 (env0 VO_Applied true) None authorize_request
    (world1 R1SnapshotRecoverable) resp
    (run (env0 VO_Applied true) (authorize_execution app0 None authorize_request)
       (world1 R1SnapshotRecoverable)).2) as [lease Hl].
  - rewrite <- Hr. apply surjective_pairing.
  - exists resp, lease. exact Hl.
Defined.

(** A mint for the proposal of the deployment. *)
Definition mint_request1 : CapabilityMintRequest :=
  {| mr_intent_id := "intent"; mr_proposal_id := "proposal";
     mr_tool_binding := {| tb_server_name := "fs"; tb_tool_name := "file_write"; tb_tool_version := None |};
     mr_resource_bindings := [RB_File "/tmp/a" RM_Write None];
     mr_argument_constraints := [AC_ExactString "content" "hello"];
     mr_taint_budget := mr_taint_budget mint_request0; mr_approval_binding := None;
     mr_requested_ttl_secs := 300; mr_metadata := [] |}.

Definition alice : AuthActor :=
  {| aa_actor_id := "alice"; aa_source := "scoped"; aa_scopes := []; aa_role := None |}.

Lemma mint_capability_sound_witness :
  ∃ resp, minted app0 (env0 VO_Applied true) (Some alice) mint_request1 resp
    (world1 R1SnapshotRecoverable)
    (run (env0 VO_Applied true) (mint_capability app0 (Some alice) mint_request1)
       (world1 R1SnapshotRecoverable)).2.
Proof.
  assert (is_ok (run (env0 VO_Applied true) (mint_capability app0 (Some alice) mint_request1)
            (world1 R1SnapshotRecoverable)).1 = true) as Hok by by_eval.
  apply is_ok_true in Hok as [resp Hr]. exists resp.
  apply (mint_capability_sound app0 (env0 VO_Applied true) (Some alice) mint_request1
    (world1 R1SnapshotRecoverable) resp).
  rewrite <- Hr. apply surjective_pairing.
Defined.

(** The event of that mint, as the handler appends it. *)
Definition minted_event : ProvenanceEvent :=
  capability_event "ev-new" PK_CapabilityMinted 5 gateway_actor None lease1.

Lemma governance_event_linked_witness :
  ∃ ev', event_appended minted_event (w_db (world1 R1SnapshotRecoverable))
    (w_db (run (env0 VO_Applied true) (append_governance_event minted_event)
             (world1 R1SnapshotRecoverable)).2) ev'.
Proof.
  assert (is_ok (run (env0 VO_Applied true) (append_governance_event minted_event)
            (world1 R1SnapshotRecoverable)).1 = true) as Hok by by_eval.
  apply is_ok_true in Hok as [[] Hr].
  apply (governance_event_linked (env0 VO_Applied true) minted_event (world1 R1SnapshotRecoverable) tt).
  rewrite <- Hr. apply surjective_pairing.
Defined.

(** An environment in which a long time passes after the first 24 operations (an
    authorization takes 23, starting at tick 1). *)
Definition env_slow : Env :=
  let e := env0 VO_Applied true in
  {| env_clock t := if Nat.ltb t 24 then Z.of_nat t else seconds 1000; env_instant := env_instant e; env_hash := env_hash e; env_uuid := env_uuid e; env_fs := env_fs e;
     env_fault := env_fault e; env_registered := env_registered e; env_prepare := env_prepare e;
     env_execute := env_execute e; env_verify := env_verify e; env_compensate := env_compensate e;
     env_rollback := env_rollback e; env_jwks := env_jwks e; env_planner_count := env_planner_count e; env_plan := env_plan e |}.

Definition abandoned_pool : Pool unit :=
  serve env_slow R1SnapshotRecoverable [authorize1] (in_order 1).
Definition abandoned_world : World := p_world abandoned_pool.

(** An authorized execution nobody continued is canceled by the background pass. *)
Lemma ha_pass_touches_only_stale_witness :
  moves (env_clock env_slow (w_tick abandoned_world) - seconds 60) (w_db abandoned_world)
    (w_db (run env_slow (run_ha_reconciler_pass app0) abandoned_world).2) ∧
  (ex_state <$> db_executions (w_db abandoned_world) !! execution1) = Some ES_Prepared ∧
  (ex_state <$> db_executions (w_db (run env_slow (run_ha_reconciler_pass app0) abandoned_world).2)
                  !! execution1) = Some ES_Canceled.
Proof.
  split; [|split; by_eval]. apply (ha_pass_touches_only_stale app0 env_slow abandoned_world).
  apply (reachable_keyed app0 env_slow (world1 R1SnapshotRecoverable) abandoned_pool).
  apply serve_reachable. admit_calls.
Defined.

(** ** Witnesses of the store's guarantees *)

(** Every record of the committed lifecycle is reconciled, and they exist. *)
Definition reconciled_records (w : World) : nat :=
  length (filter (λ p, ob_status (row_record p.2) = LO_Reconciled) (map_to_list (db_outbox (w_db w)))).

Lemma reconciled_obligations_met_witness :
  reconciled_records (p_world committed_pool) = 4 ∧
  ∀ id row, db_outbox (w_db (p_world committed_pool)) !! id = Some row →
  ob_status (row_record row) = LO_Reconciled →
  (∀ o, o ∈ obligations_for_record (row_record row) → obligation_met (w_db (p_world committed_pool)) (row_record row) o) ∨
  smap_contains_key "operator_resolved" (ob_metadata (row_record row)) = true.
Proof.
  split; [by_eval|].
  apply (reconciled_obligations_met app0 (env0 VO_Applied true) (world1 R1SnapshotRecoverable)).
  - split; intros id r; cbn; unfold outbox_records; cbn; try rewrite fmap_empty; by rewrite lookup_empty.
  - etrans; [apply (spawn_all _ (env0 VO_Applied true) [authorize1; prepare1; execute1; verify1] [])
            | apply run_schedule_reach].
    admit_calls.
Defined.

(** An authorization whose handler stopped after the transaction: the record is
    still pending. *)
Definition pending_pool : Pool unit :=
  serve (env0 VO_Applied true) R1SnapshotRecoverable [authorize1] (replicate 11 0).

Definition claim1 := claim_pending_reconciliation 3 "worker-1" 100 20 (w_db (p_world pending_pool)).

(** A lease a worker got on the record before. *)
Definition old_lease : LifecycleOutboxLease :=
  {| ls_outbox_id := "id-10"; ls_owner := "worker-0"; ls_generation := 0; ls_expires_at := 10 |}.

(** The claim found the record [old_lease] is about. *)
Definition claim_hits (r : result (list LifecycleOutboxClaim) StoreError) : bool :=
  match r with Ok (c :: _) => String.eqb (ls_outbox_id old_lease) (ls_outbox_id (lc_lease c)) | _ => false end.

Lemma pending_keyed : outbox_keyed (w_db (p_world pending_pool)).
Proof.
  assert (bool_decide (map_Forall (λ id row, ob_outbox_id (row_record row) = id)
            (db_outbox (w_db (p_world pending_pool)))) = true) as H by by_eval.
  apply bool_decide_eq_true in H. exact H.
Qed.

Lemma claim_fences_older_leases_witness :
  match claim1 with
  | (Ok (c :: _), d1) => lease_is_current (lc_lease c) 50 d1 = (Ok true, d1) ∧ fenced old_lease d1
  | _ => False
  end.
Proof.
  assert (claim_hits claim1.1 = true) as Hhit by by_eval.
  assert (bool_decide (is_Some (db_outbox (w_db (p_world pending_pool)) !! "id-10")) = true) as Hrow
    by by_eval.
  apply bool_decide_eq_true in Hrow as [row Hrow].
  assert ((λ r, (0 <=? row_lease_generation r)%Z) <$> db_outbox (w_db (p_world pending_pool)) !! "id-10"
            = Some true) as Hgen by by_eval.
  rewrite Hrow in Hgen. injection Hgen as Hgen. apply Z.leb_le in Hgen.
  destruct claim1 as [[[|c cs]|err] d1] eqn:Hc; [discriminate Hhit | | discriminate Hhit].
  apply String.eqb_eq in Hhit.
  destruct (claim_fences_older_leases (env0 VO_Applied true) pending_pool
              (mkPool (A := unit) [] (mkWorld d1 fresh_memory (λ _, 0) [] 20)) 3 "worker-1" 100 20 (c :: cs) d1 c
              old_lease row) as (_ & _ & Hcur & Hfence).
  - exact pending_keyed.
  - exact Hc.
  - left.
  - split; [exact (Hcur 50%Z)|].
    apply (Hfence eq_refl Hrow Hhit Hgen (mkPool [] (mkWorld d1 fresh_memory (λ _, 0) [] 20))). apply rtc_refl.
Defined.

(** A granted approval. *)
Definition approval1 : ApprovalRequest :=
  {| ap_approval_id := "approval"; ap_intent_id := "intent"; ap_proposal_id := "proposal";
     ap_execution_id := None; ap_state := AS_Granted; ap_requested_by := gateway_actor;
     ap_action_digest := "digest"; ap_reason := ""; ap_created_at := 0; ap_expires_at := 100;
     ap_resolver_evidence_version := None; ap_owner_actor_id := None |}.

Definition approved_world : World :=
  mkWorld (set_approvals {["approval" := approval1]} (db1 R1SnapshotRecoverable)) fresh_memory (λ _, 0) [] 1.

(** A program that tries to deny the granted approval. *)
Definition deny1 : prog unit :=
  discard (call (op_resolve_approval (ap_set_state AS_Denied approval1) "approval" 1)).

Lemma resolution_is_final_witness :
  db_approvals (w_db (p_world (run_schedule (env0 VO_Applied true) [0] (mkPool [deny1] approved_world))))
    !! "approval" = Some approval1.
Proof.
  refine (proj1 (proj1 (resolution_is_final (env0 VO_Applied true) (mkPool [deny1] approved_world) _ _)
    "approval" approval1 _ _)); [apply run_schedule_reach | reflexivity | done].
Defined.

(** ** Witness of the audit chain *)

Lemma audit_append_verified_witness :
  let w' := (run (env0 VO_Applied true)
               (audit_append ext0 (mkAuditLogEntry 0 "gateway" "a" "b" "c" "success" None 5 None None))
               (world1 R1SnapshotRecoverable)).2 in
  audit_verify_chain ext0 (db_audit_log (w_db w')) = Ok tt ∧ length (db_audit_log (w_db w')) = 1.
Proof.
  pose proof (audit_append_verified ext0 (env0 VO_Applied true)
    (mkAuditLogEntry 0 "gateway" "a" "b" "c" "success" None 5 None None) (world1 R1SnapshotRecoverable)
    eq_refl) as H.
  destruct (run _ _ _) as [r w'] eqn:Hr. destruct H as [H1 H2]. split; [exact H1|].
  apply H2. assert (r = (run (env0 VO_Applied true)
    (audit_append ext0 (mkAuditLogEntry 0 "gateway" "a" "b" "c" "success" None 5 None None))
    (world1 R1SnapshotRecoverable)).1) as -> by (rewrite Hr; reflexivity). by_eval.
Defined.
