(* ===== verification/GovernanceScenario.v ===== *)
(** * Witnesses for the governance handlers

    Concrete runs in which the hypotheses of the theorems about proposals, approvals,
    quarantine holds, second factors and policy bundles hold. *)

From stdpp Require Import pretty sorting.
From S2P Require Import Prelude Json Proto Admin AuthState Behavioral Transitions CapService Store Adapter Effects.
From S2P Require Import Pdp RollbackSvc Validation Provenance CapBackend Lifecycle Mfa Capabilities Proposals.
From S2P Require Import Handlers Background Quarantine Policies StoreFacts Evolution Discipline Logic.
From S2P Require Import HandlerSafety GovernanceSafety Safety StoreSafety AuthorizeSpec RunSpec.
From S2P Require Import MfaSafety ReviewSpec Paging PolicySpec VersionDiff CapabilitySpec Scenario.

Definition envok : Env := env0 VO_Applied true.

(** ** A database with an intent, an approval, a hold, a factor and a bundle *)

Definition operator1 : AuthActor :=
  {| aa_actor_id := "alice"; aa_source := "oidc"; aa_scopes := []; aa_role := Some TR_Operator |}.

Definition nobody : ActorRef := {| ar_actor_type := AT_User; ar_actor_id := ""; ar_display_name := None |}.

Definition approval_at (id : string) (t : Timestamp) : ApprovalRequest :=
  {| ap_approval_id := id; ap_intent_id := "intent"; ap_proposal_id := "proposal"; ap_execution_id := None;
     ap_requested_by := gateway_actor; ap_reason := "risk"; ap_action_digest := "digest";
     ap_expires_at := seconds 3600; ap_state := AS_Pending; ap_created_at := t;
     ap_resolver_evidence_version := None; ap_owner_actor_id := None |}.

Definition hold_at (id : string) (expires : Timestamp) : QuarantineHold :=
  {| qh_hold_id := id; qh_intent_id := "intent"; qh_proposal_id := "proposal"; qh_reason := "taint";
     qh_matched_rule_ids := ["rule"]; qh_policy_bundle_id := None; qh_state := QS_Pending;
     qh_expires_at := expires; qh_created_at := 0; qh_resolved_at := None; qh_resolved_by := None;
     qh_resolution_reason := None; qh_metadata := []; qh_owner_actor_id := None |}.

Definition factor1 : MfaCredentialRecord :=
  mkMfaCredentialRecord "factor" "alice" MT_Totp MF_Active "secret" "nonce" "key" None 0 (Some 0%Z) None None
    None 0 None None 0 JNull.

Definition bundle1 (version : string) (active : bool) : PolicyBundle :=
  {| pb_bundle_id := "bundle"; pb_version := version; pb_rules := []; pb_active := active;
     pb_content_hash := Some version; pb_created_at := 0; pb_updated_at := 0 |}.

Definition tables1 : AdminTables :=
  mkAdmin {["bundle" := mkBundleRow 0 (bundle1 "b" true)]}
    [new_version_row "v1" (bundle1 "a" false) 1 (Some "Created") None;
     new_version_row "v2" (bundle1 "b" true) 2 (Some "Updated") None]
    {["factor" := factor1]} ∅ ∅ ∅ no_audit_tables.

Definition db2 : Db :=
  {| db_intents := {["intent" := intent1]}; db_proposals := {["proposal" := proposal1 R1SnapshotRecoverable]};
     db_capabilities := ∅; db_executions := ∅; db_contracts := ∅;
     db_approvals := {["a1" := approval_at "a1" 5; "a2" := approval_at "a2" 5; "a3" := approval_at "a3" 7]};
     db_outbox := ∅;
     db_events := [event1 "ev-hold" PK_QuarantineHoldCreated None []];
     db_edges := []; db_audit_log := [];
     db_holds := {["h1" := hold_at "h1" (seconds 3600); "h2" := hold_at "h2" (-1)]}; db_admin := tables1 |}.

Definition world2 : World := mkWorld db2 fresh_memory (λ _, 0) [] 1.

(** The configuration that asks for a second factor. *)
Definition app_mfa : App :=
  {| app_config :=
       {| cfg_auth_mode := Auth_Disabled; cfg_legacy_object_compat_allow_until := None;
          cfg_audit_fail_closed := true; cfg_approval_timeout_seconds := 3600;
          cfg_ha_reconciler_stale_threshold_secs := 60; cfg_ha_reconciler_batch_size := 100;
          cfg_pdp_mode := PM_Dual; cfg_quarantine_timeout_seconds := 3600;
          cfg_approval_mfa_required := true;
          cfg_mfa_secret_key := Some "0123456789abcdef0123456789abcdef0123456789abcdef0123456789abcdef";
          cfg_mfa_lockout_max_attempts := 5; cfg_mfa_lockout_duration_secs := 900;
          cfg_behavioral_anomaly_enabled := true; cfg_behavioral_anomaly_window_secs := 60;
          cfg_behavioral_anomaly_warning_threshold := 3; cfg_behavioral_anomaly_critical_threshold := 5;
          cfg_behavioral_anomaly_max_actors := 100;
     cfg_bearer_token := None; cfg_oidc_config := None; cfg_agent_clock_skew_secs := 300;
     cfg_nonce_cache_ttl_secs := 0; cfg_nonce_cache_max_entries := 100 |};
     app_ext := ext0; app_pdp := StaticPdpEngine; app_cap := StoreCapabilityService |}.

(** The factor with the code of the current step. *)
Definition code1 : MfaFactor :=
  {| mf_id := "factor"; mf_factor_type := MT_Totp; mf_status := MF_Active; mf_label := None;
     mf_created_at := 0; mf_code := Some (hotp (ext_hmac_sha1 ext0) "secret" 0) |}.

(** A run that succeeds, as an equation. *)
Lemma ok_run {T E} env (p : prog (result T E)) w :
  is_ok (run env p w).1 = true → ∃ x w', run env p w = (Ok x, w').
Proof. destruct (run env p w) as [[x|e] w']; [by eexists _, _ | done]. Qed.

(** ** Proposals *)

Definition proposal2 : ActionProposal :=
  {| pr_proposal_id := "proposal-2"; pr_intent_id := "intent"; pr_step_index := 0; pr_title := "write";
     pr_tool_name := "file_write"; pr_server_name := "fs";
     pr_raw_arguments := JObj [("content", JStr "hello")]; pr_expected_effect := "write file";
     pr_estimated_risk := RT_High; pr_requested_rollback_class := R1SnapshotRecoverable;
     pr_taint_inputs := ["web"]; pr_metadata := [("untrusted_source", JBool true)]; pr_created_at := 0;
     pr_owner_actor_id := Some "mallory" |}.

Lemma evaluate_proposal_sound_witness :
  ∃ out w', proposal_evaluated app_mfa envok proposal2 out db2 (w_db w').
Proof.
  destruct (ok_run envok (evaluate_proposal app_mfa proposal2) world2) as (out & w' & Hr); [by_eval|].
  exists out, w'. exact (evaluate_proposal_sound app_mfa envok proposal2 world2 out w' Hr).
Defined.

(** ** Approvals and holds *)

Definition grant1 : ApprovalResolveRequest :=
  {| arq_actor := nobody; arq_approve := true; arq_reason := Some "fine"; arq_mfa_factor := Some code1 |}.

Definition binding1 : ApprovalBinding :=
  {| ab_approval_id := "a1"; ab_approver_roles := ["operator"; "admin"]; ab_approved_action_digest := "digest";
     ab_expires_at := seconds 3600 |}.

(** The grant of an operator meets a binding that asks for an operator. *)
Lemma resolve_approval_sound_witness :
  ∃ approval' w', run envok (resolve_approval_handler app_mfa (Some operator1) "a1" grant1) world2
                  = (Ok approval', w') ∧
    approved_by_allowed_role binding1 approval' (grant_evidence binding1 approval' (w_db w')) = true.
Proof.
  destruct (ok_run envok (resolve_approval_handler app_mfa (Some operator1) "a1" grant1) world2)
    as (a' & w' & Hr); [by_eval|].
  exists a', w'. split; [exact Hr|].
  destruct (resolve_approval_sound app_mfa envok (Some operator1) "a1" grant1 world2 a' w' Hr)
    as (id & Hid & _ & Hroles).
  injection Hid as <-. apply (Hroles binding1); [reflexivity..|]. left. exists operator1, TR_Operator.
  split; [reflexivity|]. split; [reflexivity | left].
Defined.

Definition allow1 : QuarantineResolveRequest :=
  {| qr_actor := nobody; qr_allow := true; qr_reason := None; qr_mfa_factor := Some code1 |}.

Lemma resolve_quarantine_hold_sound_witness :
  ∃ resolver hold' w', ar_actor_id resolver = aa_actor_id operator1 ∧
    hold_resolution app_mfa envok (Some operator1) "h1" allow1 resolver hold' world2 w'.
Proof.
  destruct (ok_run envok (resolve_quarantine_hold app_mfa (Some operator1) "h1" allow1) world2)
    as (h' & w' & Hr); [by_eval|].
  destruct (resolve_quarantine_hold_sound app_mfa envok (Some operator1) "h1" allow1 world2 h' w' Hr)
    as (id & resolver & Hid & Hres).
  injection Hid as <-. exists resolver, h', w'. split; [exact (proj1 (hr_resolver _ _ _ _ _ _ _ _ _ Hres)) | exact Hres].
Defined.

Lemma second_factor_single_use_witness :
  ∃ counter w', second_factor_used app_mfa envok code1 "alice" counter world2 w'.
Proof.
  destruct (ok_run envok (verify_approval_mfa app_mfa (Some code1) "alice") world2) as (u & w' & Hr); [by_eval|].
  destruct (second_factor_single_use (A := unit) app_mfa envok (Some code1) "alice" world2 u w' (or_introl Hr))
    as (f & c & Hf & Hused & _).
  injection Hf as <-. exists c, w'. exact Hused.
Defined.

Lemma totp_roundtrip_witness :
  let hmac := ext_hmac_sha1 ext0 in
  verify_totp_code hmac "secret" (generate_totp_code hmac "secret" 1000) 1025 = Ok tt.
Proof.
  refine (proj2 (proj2 (proj1 (totp_roundtrip (ext_hmac_sha1 ext0) "secret" "" 1025 _) 1000%Z _ _)));
    [split; [discriminate | reflexivity] | discriminate | vm_compute; discriminate].
Defined.

(** ** Pages *)

Lemma cursor_page_exact_witness :
  ordered_approvals None db2 !! 0 = Some (approval_at "a3" 7) ∧
  list_pending_cursor None 7 "a3" 1 db2 = (Ok (take 1 (drop 1 (ordered_approvals None db2))), db2).
Proof.
  assert (ordered_approvals None db2 !! 0 = Some (approval_at "a3" 7)) as H0 by by_eval.
  split; [exact H0|]. apply (cursor_page_exact None db2 0 (approval_at "a3" 7) 1); [|exact H0].
  apply map_Forall_lookup.
  apply (bool_decide_eq_true_1 (map_Forall (λ id a, ap_approval_id a = id) (db_approvals db2))).
  by_eval.
Defined.

Lemma ext0_formats : cursor_formats ext0.
Proof.
  split; [reflexivity | reflexivity | | reflexivity].
  intros t. exists "2026-01-01T00", (pretty t). split; reflexivity.
Qed.

Definition next_page : PageParams :=
  {| pp_limit := None; pp_offset := None; pp_proposal_id := None;
     pp_cursor := Some (encode_cursor ext0 7 "a3") |}.

Lemma issued_cursor_refused_witness :
  is_ok (run envok (list_approvals app0 next_page) world2).1 = false.
Proof.
  rewrite (issued_cursor_refused app0 envok next_page 7 "a3" world2 ext0_formats eq_refl eq_refl).
  reflexivity.
Defined.

(** One pass expires the stale hold and keeps the other. *)
Lemma stale_holds_expire_witness :
  length (stale_holds 100 3600 (db_holds db2)) = 1 ∧
  db_holds (w_db (passes envok app0 100 1 world2)) !! "h1" = Some (hold_at "h1" (seconds 3600)).
Proof.
  split; [by_eval|].
  apply (proj2 (stale_holds_expire app0 envok 100 1 world2 (λ _, eq_refl)
                  ltac:(vm_compute; repeat constructor))); by_eval.
Defined.

(** ** Policy bundles *)

Lemma tables1_ok : history_ok tables1.
Proof.
  split.
  - intros id. unfold versions_of. cbn [tables1 ad_versions]. rewrite !filter_cons, filter_nil.
    cbn [new_version_row pv_bundle_id bundle1 pb_bundle_id]. by destruct (decide ("bundle" = id)).
  - intros v Hv. cbn in Hv. rewrite !elem_of_cons, elem_of_nil in Hv. by destruct Hv as [->|[->|[]]].
Qed.

Definition back_to_1 : RollbackPolicyBundleRequest := {| rpb_target_version := 1; rpb_actor := Some "alice" |}.


(** Two activations whose statements interleave: both read the number, one insert
    fails. *)
Definition activate1 : prog unit := discard (set_policy_bundle_active app0 None "bundle" false).
Definition racing_pool : Pool unit :=
  run_schedule envok (concat (replicate 5 [0; 1]) ++ replicate 60 0 ++ replicate 60 1)
    (mkPool [activate1; activate1] world2).

Lemma version_history_gapless_witness :
  history_ok (db_admin (w_db (p_world racing_pool))) ∧
  pv_version <$> ad_versions (db_admin (w_db (p_world racing_pool))) = [1; 2; 3]%Z.
Proof.
  split; [|by_eval].
  apply (version_history_gapless app0 envok world2 (mkPool [activate1; activate1] world2) racing_pool tables1_ok).
  - apply (spawn_all _ envok [activate1; activate1] [] world2). repeat constructor.
  - apply run_schedule_reach.
Defined.

Lemma json_diff_exact_witness :
  json_diff (JObj [("a", JArr [JInt 1]); ("b", JNull)]) (JObj [("a", JArr [JInt 1]); ("b", JNull)]) = JObj [].
Proof.
  assert (json_canonical (JObj [("a", JArr [JInt 1]); ("b", JNull)])) as Hc.
  { constructor; [|repeat constructor]. constructor; [repeat constructor|]. repeat constructor; done. }
  apply (proj2 (json_diff_exact _ _ Hc Hc)). reflexivity.
Defined.
