(* ===== verification/Findings.v ===== *)
(** * Findings

    Behaviours of the code, on concrete inputs, that differ from what its
    documentation or its error texts say. *)

From S2P Require Import Prelude Json Proto Admin AuthState Behavioral Transitions CapService Store Adapter Effects Pdp.
From S2P Require Import RollbackSvc Validation Provenance CapBackend Lifecycle Mfa Capabilities Proposals Handlers.
From S2P Require Import Background Quarantine Policies StoreFacts Evolution Discipline Logic HandlerSafety Safety.
From S2P Require Import Reconcile Chain Scenario GovernanceScenario.

(** ** Compensation and verification race

    Compensate calls the adapter before it moves the execution's state, so a
    verification that already has the adapter's answer wins the state change. *)

(** authorize, prepare and execute; then verify up to the adapter's answer,
    compensate up to the adapter's answer, the rest of verify, the rest of
    compensate. *)
Definition race_pool : Pool unit :=
  serve (env0 VO_Applied true) R1SnapshotRecoverable
    [authorize1; prepare1; execute1; verify1; compensate1]
    (in_order 3 ++ replicate 5 3 ++ replicate 5 4 ++ replicate 100 3 ++ replicate 100 4).

(** An effect was undone last. *)
Definition last_call_recovered (log : list AdapterCall) : bool :=
  match last log with Some (AC_compensate _ (Ok r)) => rr_recovered r | _ => false end.

(** An interleaving of two calls ends with the execution stored as Committed
    although the last thing the adapter did was to compensate it and report it
    recovered. *)
Theorem compensation_races_with_verification :
  reachable app0 (env0 VO_Applied true) (world1 R1SnapshotRecoverable) race_pool ∧
  state_of race_pool execution1 = Some ES_Committed ∧
  last_call_recovered (w_adapter_log (p_world race_pool)) = true.
Proof. split; [apply serve_reachable; admit_calls | split; by_eval]. Qed.

(** ** Retries that end in a conflict

    The idempotency key of a transition names the target states only, so a
    transition that keeps its states can be recorded once. *)

Definition error_of {T} (r : result T ApiProblem) : option (Z * string) :=
  match r with Ok _ => None | Err e => Some (prob_status e, prob_message e) end.

(** The world after calls run one after the other. *)
Definition world_after (env : Env) (ps : list (prog unit)) : World :=
  p_world (serve env R1SnapshotRecoverable ps (in_order (length ps))).

(** An execution that is in recovery and whose compensation was incomplete
    stays in recovery, and its next incomplete compensation fails with an internal
    error after the adapter was called again; the same conflict hits a second
    prepare of an execution in a preparable state. *)
Theorem retries_conflict :
  let env := env0 VO_Indeterminate false in
  let w := world_after env [authorize1; prepare1; execute1; verify1; compensate1] in
  let '(r, w') := run env (compensate_execution app0 execution1 None) w in
  ex_state <$> db_executions (w_db w) !! execution1 = Some ES_RecoveryRequired ∧
  error_of r = Some (500%Z, "lifecycle outbox idempotency conflict for key compensate:id-7:RecoveryRequired:RecoveryRequired") ∧
  length (w_adapter_log w') = S (length (w_adapter_log w)) ∧
  error_of (run env (prepare_execution app0 execution1 None) (world_after env [authorize1; prepare1])).1
    = Some (500%Z, "lifecycle outbox idempotency conflict for key prepare:id-7:Prepared:Prepared").
Proof. vm_compute. split_and!; reflexivity. Qed.

(** ** A revocation overwrites the use of a capability

    The conditional update of the store refuses a lease at the very instant of its
    expiry, which the service's own test still accepts: it answers NotFound, and the
    handler then loads the lease, tests it and stores it revoked with an update that
    has no condition. *)

(** The clock stands at the expiry of the lease up to [tick], and is then set back. *)
Definition env_set_back (tick : nat) : Env :=
  {| env_clock t := if (t <=? tick)%nat then cl_expires_at lease1 else 0%Z;
     env_instant := env_instant (env0 VO_Applied true); env_hash := env_hash (env0 VO_Applied true);
     env_uuid := env_uuid (env0 VO_Applied true);
     env_fs := env_fs (env0 VO_Applied true);
     env_fault := env_fault (env0 VO_Applied true);
     env_registered := env_registered (env0 VO_Applied true);
     env_prepare := env_prepare (env0 VO_Applied true);
     env_execute := env_execute (env0 VO_Applied true);
     env_verify := env_verify (env0 VO_Applied true);
     env_compensate := env_compensate (env0 VO_Applied true);
     env_rollback := env_rollback (env0 VO_Applied true);
     env_jwks := λ _ _, JA_failed "offline";
     env_planner_count := 1;
     env_plan := env_plan (env0 VO_Applied true) |}.

(** The revocation up to its update, the whole authorization, and [n] more steps of
    the revocation. *)
Definition revocation_pool (n : nat) : Pool unit :=
  serve (env_set_back 11) R1SnapshotRecoverable
    [authorize1; discard (revoke_capability app0 "cap" None)]
    (replicate 11 1 ++ replicate 100 0 ++ replicate n 1).

Definition lease_status_of (p : Pool unit) (id : string) : option CapabilityStatus :=
  cl_status <$> db_capabilities (w_db (p_world p)) !! id.

(** A capability that backs an execution, and is stored as Used, is stored as Revoked
    by a revocation that began before, although the matrix of capabilities makes Used
    a terminal state. *)
Theorem revocation_overwrites_used :
  reachable app0 (env_set_back 11) (world1 R1SnapshotRecoverable) (revocation_pool 0) ∧
  (λ x, ex_capability_id x.2) <$> map_to_list (db_executions (w_db (p_world (revocation_pool 0)))) = ["cap"] ∧
  lease_status_of (revocation_pool 0) "cap" = Some CS_Used ∧
  lease_status_of (revocation_pool 100) "cap" = Some CS_Revoked ∧
  is_valid_capability_transition CS_Used CS_Revoked = false.
Proof.
  split; [|split_and!; by_eval]. unfold revocation_pool. apply serve_reachable.
  apply Forall_cons_2; [apply adm_authorize|]. apply Forall_singleton, adm_revoke. reflexivity.
Qed.

(** ** The fail-closed audit of a cancellation *)

(** The environment with one storage fault. *)
Definition env_with_fault (tick : nat) : Env :=
  {| env_clock t := Z.of_nat t;
     env_instant := env_instant (env0 VO_Applied true); env_hash := env_hash (env0 VO_Applied true);
     env_uuid := env_uuid (env0 VO_Applied true);
     env_fs := env_fs (env0 VO_Applied true);
     env_fault t := if Nat.eqb t tick then Some (F_NotApplied "disk I/O error") else None;
     env_registered := env_registered (env0 VO_Applied true);
     env_prepare := env_prepare (env0 VO_Applied true);
     env_execute := env_execute (env0 VO_Applied true);
     env_verify := env_verify (env0 VO_Applied true);
     env_compensate := env_compensate (env0 VO_Applied true);
     env_rollback := env_rollback (env0 VO_Applied true);
     env_jwks := λ _ _, JA_failed "offline";
     env_planner_count := 1;
     env_plan := env_plan (env0 VO_Applied true) |}.

Definition app_fail_closed : App :=
  {| app_config := config0 true;
     app_ext := ext0; app_pdp := StaticPdpEngine; app_cap := StoreCapabilityService |}.


(** With the fail-closed audit policy, a cancellation whose audit record cannot
    be written answers that the action was blocked, but the execution is already
    canceled. *)
Theorem fail_closed_cancel_is_applied :
  let w := world_after (env0 VO_Applied true) [authorize1] in
  let '(r, w') := run (env_with_fault 32) (cancel_execution app_fail_closed execution1 None) w in
  error_of r = Some (503%Z, "audit append failed: action blocked by fail-closed policy") ∧
  ex_state <$> db_executions (w_db w') !! execution1 = Some ES_Canceled ∧
  db_audit_log (w_db w') = [].
Proof. vm_compute. split_and!; reflexivity. Qed.

(** ** Compensation events are not found by the reconciler

    The events of compensate (and cancel) do not carry the id of their outbox
    record, which the reconciler searches for. *)

Definition compensation_events (w : World) : nat :=
  length (filter (λ e, ev_kind e = PK_SideEffectCompensated) (db_events (w_db w))).

(** When the store fails after compensate has written its event, the next
    reconciliation does not find the event and writes a second one for the same
    compensation. *)
Theorem reconciliation_duplicates_compensation_event :
  let w := world_after (env0 VO_Applied true) [authorize1; prepare1; execute1] in
  let w1 := (run (env_with_fault 96) (compensate_execution app0 execution1 None) w).2 in
  let w2 := (run (env0 VO_Applied true) (reconcile_lifecycle_outbox (λ _, 100) "worker" 5) w1).2 in
  compensation_events w1 = 1 ∧ compensation_events w2 = 2.
Proof. vm_compute. split; reflexivity. Qed.

(** ** Concurrent audit appends

    The append reads the last hash and inserts its entry in two statements. *)

Definition audit1 (resource : string) : prog unit :=
  discard (append_audit ext0 "gateway" "execution_cancel" "execution" resource "success" None).

(** Two appends whose reads come before their inserts leave a log that no longer
    verifies. *)
Theorem concurrent_audit_appends_break_chain :
  let p := serve (env0 VO_Applied true) R1SnapshotRecoverable [audit1 "a"; audit1 "b"] [0; 1; 0; 1; 0; 1] in
  reachable app0 (env0 VO_Applied true) (world1 R1SnapshotRecoverable) p ∧
  length (db_audit_log (w_db (p_world p))) = 2 ∧
  is_ok (audit_verify_chain ext0 (db_audit_log (w_db (p_world p)))) = false.
Proof.
  split; [|split; by_eval]. unfold revocation_pool. apply serve_reachable.
  constructor; [|constructor; [|constructor]]; apply adm_quiet; unfold audit1, discard, append_audit, audit_append; solve_quiet_prog.
Qed.

(** ** Policy decisions on proposals *)

(** A bundle with one rule, which decides every mutating proposal. *)
Definition rule_bundle (d : Decision) : PolicyBundle :=
  {| pb_bundle_id := "bundle"; pb_version := "1";
     pb_rules := [{| rule_id := "hold"; rule_description := "all mutations"; rule_decision := d;
                     rule_priority := 1; rule_matchers := [M_ActionIsMutation] |}];
     pb_active := true; pb_content_hash := None; pb_created_at := 0; pb_updated_at := 0 |}.

(** A world whose store has this bundle, active, and no proposal yet. *)
Definition ruled_world (d : Decision) : World :=
  mkWorld (set_proposals ∅ (set_admin (mkAdmin {["bundle" := mkBundleRow 0 (rule_bundle d)]} [] ∅ ∅ ∅ ∅ no_audit_tables)
                                      (db1 R1SnapshotRecoverable)))
          fresh_memory (λ _, 0) [] 1.

Definition allow_hold : QuarantineResolveRequest :=
  {| qr_actor := nobody; qr_allow := true; qr_reason := None; qr_mfa_factor := None |}.

Definition authorize_lease (capability : CapabilityId) : AuthorizeExecutionRequest :=
  {| aer_proposal_id := "proposal"; aer_capability_id := capability; aer_dry_run := false |}.

(** A proposal put on hold by policy and then allowed by an operator gets a
    capability, is authorized and is prepared; its execution is refused, because
    the recorded decision of its lineage is still Quarantine. *)
Theorem quarantine_dead_end :
  let '(r1, w1) := run envok (evaluate_proposal app0 (proposal1 R1SnapshotRecoverable)) (ruled_world D_Quarantine) in
  let '(r2, w2) := run envok (resolve_quarantine_hold app0 (Some operator1) "id-8" allow_hold) w1 in
  let '(r3, w3) := run envok (mint_capability app0 None mint_request1) w2 in
  let capability := match r3 with Ok m => cl_capability_id (mresp_lease m) | Err _ => "" end in
  let '(r4, w4) := run envok (authorize_execution app0 None (authorize_lease capability)) w3 in
  let execution := match r4 with Ok a => ex_execution_id (aes_execution a) | Err _ => "" end in
  let '(r5, w5) := run envok (prepare_execution app0 execution None) w4 in
  let '(r6, _) := run envok (execute_execution app0 execution None JNull) w5 in
  qh_state <$> db_holds (w_db w2) !! "id-8" = Some QS_Allowed ∧
  is_ok r1 && is_ok r2 && is_ok r3 && is_ok r4 && is_ok r5 = true ∧
  error_of r6 = Some (409%Z, "minimum lineage policy decision Quarantine does not allow side effect").
Proof. vm_compute. split_and!; reflexivity. Qed.

(** The application that evaluates by the stored bundles only. *)
Definition app_bundles : App :=
  {| app_config :=
       {| cfg_auth_mode := Auth_Disabled; cfg_legacy_object_compat_allow_until := None;
          cfg_audit_fail_closed := true; cfg_approval_timeout_seconds := 3600;
          cfg_ha_reconciler_stale_threshold_secs := 60; cfg_ha_reconciler_batch_size := 100;
          cfg_pdp_mode := PM_Bundles; cfg_quarantine_timeout_seconds := 3600;
          cfg_approval_mfa_required := false; cfg_mfa_secret_key := None;
          cfg_mfa_lockout_max_attempts := 5; cfg_mfa_lockout_duration_secs := 900;
          cfg_behavioral_anomaly_enabled := false; cfg_behavioral_anomaly_window_secs := 60;
          cfg_behavioral_anomaly_warning_threshold := 3;
          cfg_behavioral_anomaly_critical_threshold := 5;
          cfg_behavioral_anomaly_max_actors := 100;
     cfg_bearer_token := None; cfg_oidc_config := None; cfg_agent_clock_skew_secs := 300;
     cfg_nonce_cache_ttl_secs := 0; cfg_nonce_cache_max_entries := 100 |};
     app_ext := ext0; app_pdp := StaticPdpEngine; app_cap := StoreCapabilityService |}.

(** The decision a proposal gets. *)
Definition decided (env : Env) (app : App) (w : World) : option Decision :=
  match (run env (evaluate_proposal app (proposal1 R1SnapshotRecoverable)) w).1 with
  | Ok r => Some (epr_decision r)
  | Err _ => None
  end.

(** When the gateway decides by the stored bundles and the store fails to list
    them, a proposal that the bundles deny is allowed. *)
Theorem bundles_fail_open :
  decided envok app_bundles (ruled_world D_Deny) = Some D_Deny ∧
  decided (env_with_fault 2) app_bundles (ruled_world D_Deny) = Some D_Allow.
Proof. vm_compute. split; reflexivity. Qed.

(** A store that keeps the history of a bundle that was deleted. *)
Definition deleted_world : World :=
  let t := db_admin (w_db world2) in
  mkWorld (set_admin (mkAdmin ∅ (ad_versions t) (ad_mfa t) (ad_lockouts t) ∅ ∅ no_audit_tables) (w_db world2))
          fresh_memory (λ _, 0) [] 1.

(** A rollback of a bundle that was deleted answers success and adds a version,
    but the bundle is not restored. *)
Theorem rollback_of_deleted_bundle :
  let '(r, w) := run envok (rollback_policy_bundle app0 None "bundle" back_to_1) deleted_world in
  is_ok r = true ∧ ad_bundles (db_admin (w_db w)) = ∅ ∧
  length (ad_versions (db_admin (w_db w))) = S (length (ad_versions (db_admin (w_db deleted_world)))).
Proof. vm_compute. split_and!; reflexivity. Qed.
