(* ===== verification/AuthScenario.v ===== *)
(** * Authentication at work

    A store with tokens and an agent, toy library functions, and requests: the witnesses
    of the theorems about authentication, and behaviours of the code that surprise. *)

From stdpp Require Import pretty.
From S2P Require Import Prelude Json Proto Admin AuthState Behavioral Store Adapter Effects Validation Lifecycle Auth Principals.
From S2P Require Import Evolution StoreSafety AuthorizeSpec PolicySpec AuthSpec PrincipalSpec Scenario Findings.

(** ** The deployment *)

(** Functions in the place of the libraries: tagging instead of hashing, no encoding. *)
Definition lib1 : CryptoLib :=
  {| cl_blake3_hex s := "h:" +:+ s; cl_sha256 s := s; cl_base64_decode := Some; cl_base64_url_decode := Some;
     cl_base64_url_encode s := s; cl_uuid_bytes s := s; cl_parse_json _ := None; cl_serde_time := pretty;
     cl_ed25519_key _ := true;
     cl_ed25519_verify pk msg sig := String.eqb (String.substring 0 4 sig) "sign";
     cl_rsa_components _ _ := Ok tt; cl_pem_key _ := Ok tt; cl_jwt_header _ := None; cl_jwt_decode _ _ _ _ := None |}.

Definition config_auth (mode : AuthMode) : ServerConfig :=
  let c := config0 false in
  {| cfg_auth_mode := mode; cfg_legacy_object_compat_allow_until := None; cfg_audit_fail_closed := false;
     cfg_approval_timeout_seconds := 3600; cfg_ha_reconciler_stale_threshold_secs := 60;
     cfg_ha_reconciler_batch_size := 100; cfg_pdp_mode := cfg_pdp_mode c; cfg_quarantine_timeout_seconds := 3600;
     cfg_approval_mfa_required := false; cfg_mfa_secret_key := None; cfg_mfa_lockout_max_attempts := 5;
     cfg_mfa_lockout_duration_secs := 900; cfg_behavioral_anomaly_enabled := false;
     cfg_behavioral_anomaly_window_secs := 60; cfg_behavioral_anomaly_warning_threshold := 3;
     cfg_behavioral_anomaly_critical_threshold := 5; cfg_behavioral_anomaly_max_actors := 100;
     cfg_bearer_token := None; cfg_oidc_config := None; cfg_agent_clock_skew_secs := 300;
     cfg_nonce_cache_ttl_secs := 0; cfg_nonce_cache_max_entries := 100 |}.

Definition app_auth (mode : AuthMode) : App :=
  {| app_config := config_auth mode; app_ext := app_ext app0; app_pdp := app_pdp app0; app_cap := app_cap app0 |}.

(** The token of the value [v]. *)
Definition token_of (id v : string) (role : TokenRole) (scopes : list string) (expires : Timestamp)
    (revoked : option Timestamp) : ScopedToken :=
  mkScopedToken id "alice" role scopes None expires 0 None revoked None None ("h:" +:+ v) ("h:salt" +:+ v) "salt".

Definition issuer_scopes : list string := ["admin:tokens"; "approval:resolve"].
Definition token1 : ScopedToken := token_of "t1" "v1" TR_ReadOnly issuer_scopes (seconds 3600) None.
Definition token0 : ScopedToken := token_of "t0" "v0" TR_ReadOnly issuer_scopes (seconds 3600) (Some 0%Z).

Definition tables_auth : AdminTables :=
  mkAdmin ∅ [] ∅ ∅ {["t0" := token0; "t1" := token1]}
    {["bot" := mkAgentRecord "bot" "key" "key" ["intent:submit"] 0 None None]} no_audit_tables.

Definition world_auth : World :=
  mkWorld (set_admin tables_auth (db1 R1SnapshotRecoverable)) fresh_memory (λ _, 0) [] 1.

Definition env1 : Env := env0 VO_Applied true.

(** A request under a bearer value. *)
Definition request_of (method path v : string) : HttpRequest :=
  {| hq_method := method; hq_path := path; hq_headers := {["Authorization" := "Bearer " +:+ v]}; hq_body := None |}.

Definition list_request : HttpRequest := request_of "GET" "/v1/admin/tokens" "v1".

(** ** Witnesses *)

Lemma auth_middleware_sound_witness :
  admitted_by lib1 (app_auth Auth_Scoped) env1 list_request world_auth
    (run env1 (auth_middleware lib1 (app_auth Auth_Scoped) list_request) world_auth).2
    Auth_Scoped (Some (token_actor token1)) (Some "t1").
Proof.
  apply (auth_middleware_sound lib1 (app_auth Auth_Scoped) env1 list_request world_auth).
  - reflexivity.
  - vm_compute. reflexivity.
Defined.

(** The use of a token is recorded, then a request is made; the revoked token stays out. *)
Definition touched_pool : Pool unit :=
  run_schedule env1 [0; 0] (mkPool [discard (touch_token "t1")] world_auth).

Lemma revocation_is_permanent_witness : ¬ presents list_request "v0".
Proof.
  eapply (revocation_is_permanent lib1 (app_auth Auth_Scoped) env1
            (mkPool [discard (touch_token "t1")] world_auth) touched_pool list_request
            (Some (token_actor token1)) (Some "t1")
            (run env1 (auth_middleware lib1 (app_auth Auth_Scoped) list_request) (p_world touched_pool)).2)
    with (id := "t0") (tok := token0).
  - apply run_schedule_reach.
  - reflexivity.
  - vm_compute. reflexivity.
  - reflexivity.
  - reflexivity.
  - by eexists.
  - reflexivity.
  - assert (ad_tokens (db_admin (w_db (p_world touched_pool)))
            = {["t0" := token0; "t1" := st_set_used 1 token1]}) as -> by (vm_compute; reflexivity).
    intros id' tok' Hrow. rewrite lookup_insert_Some, lookup_singleton_Some in Hrow.
    by destruct Hrow as [[<- <-]|[_ [<- <-]]].
Defined.

(** The issuer asks for an operator token with its own scopes. *)
Definition create_request : CreateTokenRequest :=
  {| ctr_actor_id := "mallory"; ctr_role := TR_Operator; ctr_scopes := Some ["approval:resolve"];
     ctr_description := None; ctr_expires_at := seconds 100 |}.

Definition issue_program : prog unit :=
  serve_principal lib1 (app_auth Auth_Scoped) (request_of "POST" "/v1/admin/tokens" "v1") (PC_create_token create_request).

Definition issued_pool : Pool unit := run_schedule env1 (replicate 20 0) (mkPool [issue_program] world_auth).

Lemma authority_confined_witness :
  size (ad_tokens (db_admin (w_db (p_world issued_pool)))) = 3 ∧
  confined ("intent:submit" :: issuer_scopes) (db_admin (w_db (p_world issued_pool))).
Proof.
  split; [by_eval|].
  apply (authority_confined ("intent:submit" :: issuer_scopes) lib1 (app_auth Auth_Scoped) env1
           (mkPool [] world_auth)).
  - by intros oidc name role [=].
  - etrans; [apply (spawn_all _ env1 [issue_program] []) | apply run_schedule_reach].
    constructor; [apply pp_request | constructor].
  - reflexivity.
  - constructor.
    + intros id tok Hrow. cbn in Hrow. rewrite lookup_insert_Some, lookup_singleton_Some in Hrow.
      destruct Hrow as [[<- <-]|[_ [<- <-]]]; (constructor; [right; intros s Hs; by apply list_elem_of_further | done]).
    + intros id ag Hrow. cbn in Hrow. apply lookup_singleton_Some in Hrow as [<- <-].
      right. intros s Hs. apply list_elem_of_singleton in Hs as ->. apply list_elem_of_here.
Defined.

(** ** Findings *)

(** Only the role Admin is guarded: an issuer whose own role is ReadOnly issues a token
    with the role Operator, which approvals that ask for an operator accept. *)
Theorem role_not_attenuated :
  (∃ id tok, ad_tokens (db_admin (w_db (p_world issued_pool))) !! id = Some tok ∧ st_role tok = TR_Operator) ∧
  st_role token1 = TR_ReadOnly.
Proof. split; [|done]. eexists "tok_id8", _. split; vm_compute; reflexivity. Qed.

Definition actor1 : AuthActor := token_actor token1.

(** Rotation revokes the old token before it stores the new one: when the insertion fails
    the caller has no token left. *)
Theorem failed_rotation_loses_token :
  let r := run (env_with_fault 12) (rotate_token lib1 (app_auth Auth_Scoped) (Some actor1) "t1"
                            {| rtr_expires_at := None; rtr_reason := None |}) world_auth in
  error_of r.1 = Some (500%Z, "failed to rotate token") ∧
  size (ad_tokens (db_admin (w_db r.2))) = 2 ∧
  forallb (λ tok, bool_decide (is_Some (st_revoked_at tok))) (map_to_list (ad_tokens (db_admin (w_db r.2)))).*2 = true.
Proof. vm_compute. split_and!; reflexivity. Qed.

(** A token that expired earlier the same day is listed as active. *)
Theorem expired_token_listed_active :
  let tok := token_of "t2" "v2" TR_ReadOnly [] (seconds 10) None in
  token_listed_active (seconds 20) tok = true ∧ (st_expires_at tok <? seconds 20)%Z = true.
Proof. vm_compute. split; reflexivity. Qed.
