(* ===== verification/AuditScenario.v ===== *)
(** * Audit evidence at work

    A log with two entries in the first hour, a checkpoint over it, an export, and a lineage
    query: the witnesses of the theorems about the audit and lineage endpoints.

    The second part does the same for external events, outbox resolution and second
    factors, the third for bundles and the WORM sink. *)

From stdpp Require Import pretty.
From Stdlib Require Import Sorted Ascii.
From S2P Require Import Prelude Json Proto Admin Behavioral AuthState Merkle Transitions Pdp CapService Store.
From S2P Require Import Adapter Effects Firewall CapBackend Validation RollbackSvc Provenance Lifecycle Mfa Quarantine Policies.
From S2P Require Import Auth Principals MfaAdmin LineageApi StoreFacts Evolution Discipline Logic StoreSafety Reconcile OutboxSafety.
From S2P Require Import Chain AuditApi Bundle AuthorizeSpec RunSpec MfaSafety ReviewSpec PolicySpec MfaAdminSpec AuditSpec ExportSpec.
From S2P Require Import BundleSpec TraversalSpec BridgeSpec Scenario GovernanceScenario AuthScenario.

Definition entry1 : AuditLogEntry :=
  mkAuditLogEntry 1 "alice" "token_create" "token" "t,1" "success" None (seconds 10) (Some "aa") None.
Definition entry2 : AuditLogEntry :=
  mkAuditLogEntry 2 "alice" "token_revoke" "token" "t,1" "success" None (seconds 20) (Some "bb") (Some "aa").

Definition world_audit : World :=
  mkWorld (set_audit_log [entry1; entry2] (db1 R1SnapshotRecoverable)) fresh_memory (λ _, 0) [] 1.

(** A checkpoint over the first hour. *)
Definition checkpoint1 : AuditCheckpoint :=
  mkCheckpoint 0 (default "" (compute_merkle_root toy_hash_lib ["aa"; "bb"])) 2 "operator" "fp" (seconds 4000)
    ("sign" +:+ zeros 60) (zeros 32).

Definition created : option (result CheckpointAnswer ApiProblem) * World :=
  run env1 (create_checkpoint_answer lib1 toy_hash_lib (app_auth Auth_Scoped) checkpoint1) world_audit.

Definition created_answer : CheckpointAnswer :=
  match created.1 with Some (Ok a) => a | _ => mkCheckpointAnswer 0 None None None end.

Lemma checkpoint_roundtrip_witness :
  checkpoint_accepted lib1 toy_hash_lib (app_auth Auth_Scoped) checkpoint1 world_audit created.2 ∧
  ca_valid <$> (match (run env1 (verify_checkpoint_answer lib1 toy_hash_lib (app_auth Auth_Scoped) 0) created.2).1 with
                | Some (Ok a) => Some a | _ => None end) = Some true.
Proof.
  destruct (checkpoint_roundtrip lib1 toy_hash_lib (app_auth Auth_Scoped) env1 checkpoint1 world_audit
              created_answer created.2 (mkPool (A := unit) [] created.2)) as [H1 H2].
  - vm_compute. reflexivity.
  - constructor.
  - split; [exact H1|]. destruct H2 as (a' & w'' & Hv & Ha & _).
    + split; vm_compute; reflexivity.
    + intros t _. reflexivity.
    + rewrite (Hv : run env1 (verify_checkpoint_answer lib1 toy_hash_lib (app_auth Auth_Scoped) 0) created.2 = _).
      cbn. by rewrite Ha.
Defined.

Definition export_csv : ExportAuditLogsQuery :=
  {| eal_action := None; eal_resource_type := Some "token"; eal_resource_id := None; eal_since := None;
     eal_until := None; eal_format := Some "CSV" |}.

Lemma audit_in_order : log_in_order (db_audit_log (w_db world_audit)).
Proof. split; repeat constructor; vm_compute; intuition discriminate. Defined.

Lemma export_complete_witness :
  ∃ r w', run env1 (export_audit_logs lib1 (app_auth Auth_Scoped) export_csv) world_audit = (Some r, w').
Proof.
  destruct (export_complete lib1 (app_auth Auth_Scoped) env1 export_csv world_audit audit_in_order)
    as (r & w' & Hrun & _); [reflexivity|].
  by exists r, w'.
Defined.

(** The two stored events, from the lease back to the policy decision. *)
Definition plain_lineage : LineageLib := {| ll_lineage := Ok; ll_detail := Ok |}.
Definition ancestry : LineageQueryRequest :=
  {| lq_event_id := "ev-cap"; lq_direction := LD_Ancestors; lq_max_hops := 3 |}.

Lemma query_lineage_exact_witness :
  ∃ r w', run env1 (query_lineage plain_lineage ancestry) (world1 R1SnapshotRecoverable) = (r, w') ∧
    (ev_event_id <$> (match r with Ok (events, _) => events | Err _ => [] end)) = ["ev-cap"; "ev-policy"].
Proof.
  destruct (query_lineage_exact plain_lineage env1 ancestry (world1 R1SnapshotRecoverable)) as (r & w' & Hrun & _).
  - intros t _. reflexivity.
  - exists r, w'. split; [exact Hrun|].
    apply (f_equal fst) in Hrun. cbn [fst] in Hrun. rewrite <- Hrun. vm_compute. reflexivity.
Defined.

(** * Administration at work

    Witnesses of the theorems about second factors, bridges and the operator's decisions,
    and runs that show what the code does against its intention. *)


(** ** Second factors *)

Definition plain_mfa : MfaLib :=
  {| ml_aes_gcm_encrypt _ _ s := Some s; ml_base64 s := s; ml_base32_nopad s := s; ml_url_encode s := s |}.

Definition factors2 : Factors := ad_mfa (db_admin (w_db world2)).
Lemma factors2_single : single_active factors2.
Proof.
  intros i j a b. unfold factors2. cbn. intros [<- _]%lookup_singleton_Some [<- _]%lookup_singleton_Some. done.
Defined.
Lemma factors2_keyed : factors_keyed factors2.
Proof. intros id r. unfold factors2. cbn. by intros [<- <-]%lookup_singleton_Some. Defined.

Definition reverify : MfaDisableRequest :=
  {| mdr_code := Some (hotp (ext_hmac_sha1 ext0) "secret" 0); mdr_reason := None |}.

Lemma factor_removal_authorized_witness :
  ∃ v w', run envok (disable_mfa app_mfa "alice" None (Some reverify)) world2 = (Ok v, w') ∧
    out_of_use "factor" w'.
Proof.
  destruct (ok_run envok (disable_mfa app_mfa "alice" None (Some reverify)) world2) as (v & w' & Hr); [by_eval|].
  exists v, w'. split; [exact Hr|].
  exact (proj2 (factor_removal_authorized envok plain_mfa app_mfa "Ferrum" "alice" None (Some reverify) factor1 world2 v w'
                  factors2_single factors2_keyed eq_refl eq_refl eq_refl (or_introl Hr))).
Defined.

Definition new_secret : Entropy := {| en_secret := "other"; en_nonce := "nonce-2" |}.
Definition enrol2 : prog unit := discard (enroll_mfa plain_mfa app_mfa "Ferrum" "alice" None new_secret).
Definition verify2 : prog unit :=
  discard (verify_mfa app_mfa "alice" None (hotp (ext_hmac_sha1 ext0) "other" 0)).
Definition enrolled_pool : Pool unit := run_schedule envok (in_order 2) (mkPool [enrol2; verify2] world2).

Definition in_use_ids (w : World) : list string :=
  fst <$> filter (λ p, factor_in_use p.2) (map_to_list (ad_mfa (db_admin (w_db w)))).

Lemma one_factor_in_use_witness :
  length (in_use_ids (p_world enrolled_pool)) = 1 ∧ single_active (ad_mfa (db_admin (w_db (p_world enrolled_pool)))).
Proof.
  split; [by_eval|].
  refine (one_factor_in_use plain_mfa app_mfa "Ferrum" envok world2 enrolled_pool factors2_single _).
  etrans; [apply (spawn_all _ envok [enrol2; verify2] []) | apply run_schedule_reach].
  constructor; [apply fc_enroll|constructor; [apply fc_verify|constructor]].
Defined.

(** Enrolling a second factor and verifying it takes the first one out of use, without
    the code or the break-glass authority that its removal and its rotation ask for. *)
Theorem enrolment_replaces_factor :
  factor_in_use factor1 = true ∧ in_use_ids world2 = ["factor"] ∧
  length (in_use_ids (p_world enrolled_pool)) = 1 ∧ "factor" ∉ in_use_ids (p_world enrolled_pool).
Proof. split_and!; [by_eval..|]. vm_compute. set_solver. Qed.

(** Activating a factor that is not pending is refused, but the factor in use of its
    agent is taken out of use all the same. *)
Definition revoked_factor : MfaCredentialRecord :=
  mkMfaCredentialRecord "old" "alice" MT_Totp MF_Inactive "secret" "nonce" "key" None 0 None None None
    (Some 0%Z) 0 None None 0 JNull.
Theorem refused_activation_disables :
  let t := set_mfa {["factor" := factor1; "old" := revoked_factor]} (db_admin (w_db world2)) in
  let '(r, t') := sql_mfa_activate "old" 5 t in
  r = Ok false ∧ is_Some (head (filter (λ r, factor_in_use r) (factors_of "alice" t))) ∧
  filter (λ r, factor_in_use r) (factors_of "alice" t') = [].
Proof. vm_compute. split_and!; eauto. Qed.

(** When the new factor cannot be stored, a rotation leaves the agent without a factor. *)
Definition env_fails_at (n : nat) : Env :=
  let e := envok in
  {| env_clock := env_clock e; env_instant := env_instant e; env_hash := env_hash e; env_uuid := env_uuid e;
     env_fs := env_fs e; env_fault t := if (t =? n)%nat then Some (F_NotApplied "disk full") else None;
     env_registered := env_registered e; env_prepare := env_prepare e; env_execute := env_execute e;
     env_verify := env_verify e; env_compensate := env_compensate e; env_rollback := env_rollback e;
     env_jwks := env_jwks e; env_planner_count := env_planner_count e; env_plan := env_plan e |}.
Definition breakglass1 : AuthActor :=
  {| aa_actor_id := "root"; aa_source := "oidc"; aa_scopes := ["admin:mfa:breakglass"]; aa_role := None |}.
Theorem failed_rotation_removes_factor :
  let '(r, w') := run (env_fails_at 6) (rotate_mfa plain_mfa app_mfa "Ferrum" "alice" (Some breakglass1)
                    (Some {| mdr_code := None; mdr_reason := Some "lost phone" |}) new_secret) world2 in
  is_ok r = false ∧ in_use_ids world2 = ["factor"] ∧ in_use_ids w' = [].
Proof. vm_compute. done. Qed.

(** ** Bridges *)

Definition bridge1 : McpBridge := mkMcpBridge "mcp" true [mkTool "echo" "says it again" None] [].
Definition ingest_of (kind : ProvenanceEventKind) : ProvenanceIngestRequest :=
  {| ig_source_runtime_id := "mcp"; ig_kind := kind; ig_description := "seen"; ig_execution_id := None;
     ig_intent_id := Some "intent"; ig_trust_labels := []; ig_sensitivity_labels := []; ig_metadata := [] |}.
Definition external_calls : list (prog unit) :=
  [discard (ingest_provenance [bridge1] (ingest_of PK_ExternalEventReceived));
   discard (ingest_provenance [bridge1] (ingest_of PK_PolicyEvaluated));
   discard (query_lineage plain_lineage ancestry)].
Definition external_pool : Pool unit := serve envok R1SnapshotRecoverable external_calls (in_order 3).

(** One of the two submissions is stored. *)
Lemma ingest_cannot_forge_witness :
  length (db_events (w_db (p_world external_pool))) = 3 ∧
  w_adapter_log (p_world external_pool) = [].
Proof.
  split; [by_eval|].
  destruct (ingest_cannot_forge app0 [bridge1] envok (world1 R1SnapshotRecoverable) external_pool)
    as (new & _ & _ & Hl & _); [|exact Hl].
  etrans; [apply (spawn_all _ envok external_calls []) | apply run_schedule_reach].
  constructor; [apply ec_ingest|constructor; [apply ec_ingest|constructor; [apply ec_lineage|constructor]]].
Defined.

(** An ingested event is reported as linked, and no edge is stored. *)
Theorem ingested_event_unlinked :
  let '(r, w') := run envok (ingest_provenance [bridge1] (ingest_of PK_ExternalEventReceived)) (world1 R1SnapshotRecoverable) in
  match r with Ok a => ia_linked a = true ∧ edges_to (w_db w') (ia_event_id a) = [] | Err _ => False end.
Proof. vm_compute. done. Qed.

(** ** The outbox *)

Definition close_it : LifecycleOutboxResolveRequest := {| rsr_actor_id := "mallory"; rsr_reason := "done" |}.
Definition blank_record (r : LifecycleOutboxRecord) : json := JStr (ob_outbox_id r).
Definition zero_time (t : Timestamp) : json := JInt t.

Lemma resolve_lifecycle_outbox_sound_witness :
  ∃ v w' row, run envok (resolve_lifecycle_outbox app0 blank_record zero_time "id-10" close_it) (p_world pending_pool) = (Ok v, w') ∧
    db_outbox (w_db (p_world pending_pool)) !! "id-10" = Some row.
Proof.
  destruct (ok_run envok (resolve_lifecycle_outbox app0 blank_record zero_time "id-10" close_it) (p_world pending_pool))
    as (v & w' & Hr); [by_eval|].
  destruct (resolve_lifecycle_outbox_sound envok app0 blank_record zero_time (p_world pending_pool) "id-10" close_it v w'
              pending_keyed Hr) as (_ & row & now & Hrow & _).
  exists v, w', row. split; [exact Hr|exact Hrow].
Defined.

(** A record that no one sent to review, with obligations still open, is closed in the
    name the request gives. *)
Theorem resolve_closes_unreviewed :
  let status w := (λ row, (ob_status (row_record row), obligations_satisfied (row_record row))) <$> db_outbox (w_db w) !! "id-10" in
  let '(r, w') := run envok (resolve_lifecycle_outbox app0 blank_record zero_time "id-10" close_it) (p_world pending_pool) in
  is_ok r = true ∧ status (p_world pending_pool) = Some (LO_PendingProvenance, false) ∧
  status w' = Some (LO_Reconciled, false).
Proof. vm_compute. done. Qed.

(** * An archive at work

    A log of two linked entries, archived in two bundles of one entry: the witnesses of the
    theorems about bundles and the WORM sink, and a bundle of an export that is refused. *)


(** An object prints as its [resource_id]. *)
Definition ext_archive : Ext :=
  {| ext_pointer := ext_pointer ext0; ext_regex := ext_regex ext0; ext_parse_uuid := ext_parse_uuid ext0;
     ext_parse_url := ext_parse_url ext0;
     ext_json_to_string j := match as_object j with
                             | Some m => match smap_get "resource_id" m with Some (JStr s) => s | _ => "" end
                             | None => ""
                             end;
     ext_sha256_hex s := s; ext_debug_binding := ext_debug_binding ext0; ext_serde_error := ext_serde_error ext0;
     ext_rfc3339 := ext_rfc3339 ext0; ext_replace_all := ext_replace_all ext0; ext_parse_rfc3339 := ext_parse_rfc3339 ext0;
     ext_base64_encode := ext_base64_encode ext0; ext_base64_decode := ext_base64_decode ext0; ext_is_utf8 := ext_is_utf8 ext0;
     ext_hmac_sha1 := ext_hmac_sha1 ext0; ext_aes_gcm_decrypt := ext_aes_gcm_decrypt ext0; ext_hex_decode := ext_hex_decode ext0;
     ext_parse_yaml := ext_parse_yaml ext0; ext_bundle_to_string := ext_bundle_to_string ext0;
     ext_bundle_to_value := ext_bundle_to_value ext0 |}.
Definition app_archive : App :=
  {| app_config := config0 false; app_ext := ext_archive; app_pdp := app_pdp app0; app_cap := app_cap app0 |}.

Definition log_entry (id : Z) (resource : string) (previous : option string) : AuditLogEntry :=
  mkAuditLogEntry id "alice" "token_create" "token" resource "success" None (seconds id) (Some resource) previous.
Definition logged1 := log_entry 1 "r1" None.
Definition logged2 := log_entry 2 "r2" (Some "r1").
Definition log2 := [logged1; logged2].

(** A manifest prints as its last hash. *)
Definition manifest_of (hash : string) (boundary : option string) (count : nat) : AuditBundleManifest :=
  mkManifest 1 0 hash hash (default "" (compute_merkle_root toy_hash_lib [hash])) count boundary.
Definition bundles0 : BundleLib :=
  {| bl_parse_entry s := if String.eqb s "r1" then Ok logged1 else if String.eqb s "r2" then Ok logged2 else Err "no entry";
     bl_manifest_text m := bm_last_hash m;
     bl_parse_manifest s := if String.eqb s "r1" then Ok (manifest_of "r1" None 1) else Ok (manifest_of "r2" (Some "r1") 1) |}.

Definition config_archive : WormSinkConfig :=
  {| ws_bucket := "audit-bucket"; ws_prefix := "audit-worm"; ws_object_lock_mode := LM_Governance; ws_retention_days := 30;
     ws_legal_hold := false; ws_export_interval_secs := 300; ws_batch_limit := 1; ws_live := false;
     ws_endpoint_url := None; ws_region := "us-east-1"; ws_access_key_id := None; ws_secret_access_key := None |}.

Definition pass (s : Sink) : Sink :=
  match run_one_export_pass lib1 toy_hash_lib app_archive bundles0 config_archive no_pass_faults 0 log2 s with
  | Some (_, s') => s' | None => s end.
Definition sink1 : Sink := Eval vm_compute in pass fresh_sink.
Definition sink2 : Sink := Eval vm_compute in pass sink1.

Lemma log2_numbered : numbered log2.
Proof. split; repeat constructor. Qed.
Lemma log2_printable : Forall (printable_entry lib1 app_archive bundles0) log2.
Proof. repeat constructor; done. Qed.
Lemma sink2_reached : rtc (sink_step lib1 toy_hash_lib app_archive bundles0 config_archive) (log2, fresh_sink) (log2, sink2).
Proof.
  eapply rtc_l; [eapply (worm_pass _ _ _ _ _ no_pass_faults 0 log2 fresh_sink (Ok tt) sink1); by vm_compute|].
  eapply rtc_l; [eapply (worm_pass _ _ _ _ _ no_pass_faults 0 log2 sink1 (Ok tt) sink2); by vm_compute|]. reflexivity.
Qed.

Lemma worm_archive_complete_witness :
  audit_verify_chain (app_ext app_archive) log2 = Ok tt ∧
  ∃ bundles, concat bundles = log2 ∧ ∀ entries, entries ∈ bundles → Forall (printable_entry lib1 app_archive bundles0) entries ∧
    ∃ key m, bundle_objects lib1 toy_hash_lib app_archive bundles0 config_archive (sk_objects sink2) entries key m ∧
      holds_entries bundles0 (mkBundleDir "/tmp/b" (Some (Ok (join_lines (entry_text lib1 app_archive <$> entries))))
        (Some (Ok (bl_manifest_text bundles0 m)))) entries.
Proof.
  split; [by vm_compute|].
  destruct (worm_archive_complete lib1 toy_hash_lib app_archive bundles0 config_archive log2 log2 sink2 log2_numbered sink2_reached)
    as (bundles & Hb & H).
  assert (filter (λ e, al_id e ≤ sk_last_id sink2)%Z log2 = log2) as Hall by by vm_compute. rewrite Hall in Hb.
  exists bundles. split; [exact Hb|]. intros entries He.
  assert (Forall (printable_entry lib1 app_archive bundles0) entries) as Hp.
  { apply Forall_forall. intros e Hin. refine (proj1 (Forall_forall _ log2) log2_printable e _).
    rewrite <- Hb. apply list_elem_of_In, in_concat. exists entries. rewrite <- !list_elem_of_In. by split. }
  split; [exact Hp|]. destruct (H entries He) as (_ & key & m & Hm & Hread).
  exists key, m. split; [exact Hm | exact (proj1 (Hread Hp "/tmp/b"))].
Defined.

Lemma worm_sink_catches_up_witness : ∃ s', calm_passes lib1 toy_hash_lib app_archive bundles0 config_archive [0; 0]%Z log2 fresh_sink = Some s' ∧
  filter (λ e, al_id e ≤ sk_last_id s')%Z log2 = log2.
Proof.
  destruct (worm_sink_catches_up lib1 toy_hash_lib app_archive bundles0 config_archive [0; 0]%Z log2 fresh_sink) as (s' & H1 & _ & H2).
  - by vm_compute.
  - exact log2_numbered.
  - intros h Hh. by eexists.
  - cbn. lia.
  - exists s'. split; [exact H1|exact H2].
Defined.

(** The second bundle of the archive, in a directory. *)
Definition dir2 : BundleDir := mkBundleDir "/tmp/b" (Some (Ok "r2")) (Some (Ok "r2")).

Lemma bundle_tamper_evident_witness :
  ∃ es1 es2, holds_entries bundles0 dir2 es1 ∧ holds_entries bundles0 dir2 es2 ∧ length es1 = length es2.
Proof.
  destruct (bundle_tamper_evident toy_hash_lib app_archive bundles0 dir2 dir2 (manifest_of "r2" (Some "r1") 1)) as (es1 & es2 & H1 & H2 & H3 & _).
  - by vm_compute.
  - by vm_compute.
  - exists es1, es2. split; [exact H1|split; [exact H2|exact H3]].
Defined.

(** The bundle of an export of the whole log is refused. *)
Theorem export_bundle_never_verifies :
  ∃ body bundle,
    export_body lib1 app_archive "ndjson" (newest_first no_filter log2) = Some body ∧
    build_bundle_from_ndjson toy_hash_lib bundles0 0 body = Some (Ok bundle) ∧
    verify_bundle toy_hash_lib app_archive
      {| bl_parse_entry := bl_parse_entry bundles0; bl_manifest_text := bl_manifest_text bundles0; bl_parse_manifest _ := Ok (ab_manifest bundle) |}
      (mkBundleDir "" (Some (Ok (ab_body bundle))) (Some (Ok ""))) =
    Some (Err (ABE_Invalid "audit log entry 2 is the first hashed entry but has previous_hash")).
Proof. eexists _, _. split_and!; [by vm_compute..|]. by vm_compute. Qed.
